(* ===== verification/_CoqProject ===== *)
-Q . S2P
Prelude.v
SelVector.v
VersionInfo.v
VersionInfoFacts.v
VersionInfoOps.v
VersionInfoSpec.v
VersionInfoScan.v
VersionInfoTheorems.v
Transaction.v
TransactionManager.v
TransactionContext.v
TransactionFacts.v
TransactionTheorems.v
TransactionSafety.v
TransactionExamples.v
TransactionConcurrency.v
Interval.v
Date.v
DateFacts.v
DateTheorems.v
DTime.v
Arithmetic.v
ArithmeticTheorems.v
Sequence.v
Timestamp.v
TimestampTheorems.v
DateText.v
UpdateInfo.v
UpdateFacts.v
UpdateScan.v
UpdateRefinement.v
UpdateTheorems.v
ConcurrentVector.v
PageState.v
BufferPool.v
BufferPoolFacts.v
BufferPoolTheorems.v
BufferMemory.v
FileHandle.v
FileHandleFacts.v
FreeSpace.v
FreeSpaceFacts.v
PageManager.v
PageTheorems.v
PageExamples.v
Serializer.v
SerializerFacts.v
Serial.v
FreeSpaceSerial.v
FreeSpaceSerialTheorems.v
Checksum.v
WalRecord.v
Wal.v
ShadowFile.v
ShadowFileFacts.v
ShadowPending.v
WalReplayer.v
WalReplayerFacts.v
RecoveryFacts.v
Checkpointer.v
RecoveryTheorems.v
RecoveryExamples.v
PropertyCollection.v
TableEntry.v
TableEntryTheorems.v
CatalogSet.v
CatalogSpec.v
CatalogTransactions.v
CatalogGrowth.v
CatalogTheorems.v
HashSlot.v
InMemHashIndex.v
InMemHashIndexFacts.v
InMemHashIndexOps.v
InMemHashIndexEntries.v
InMemHashIndexSplit.v
InMemHashIndexTheorems.v
HashIndex.v
HashIndexFacts.v
HashIndexTheorems.v
