(* ===== verification/Prelude.v ===== *)
(** * LadybugDB core: verification library (root file)

    A model of the transactional and storage core of LadybugDB (C++; file names below are
    relative to src/lbug-src/src/, headers to src/lbug-src/src/include/) with the theorems
    that make it correct.  Definitions keep the names of the functions they translate;
    PROJECT.json maps each to its lines.

    ** Conventions

    A C++ call is a value of [result]: [Ok], [Throw] with one of the exception classes, or
    [UB] for what the language leaves undefined (a null pointer, an index out of range, an
    assertion that a release build does not compile and whose failure is not harmless).
    Stateful code is a function of the state monad [stM S]: an exception keeps the state
    reached.  Machine integers are [Z] with explicit wrap-around ([swrap], [uwrap], in-range
    predicates [in_s], [in_u]); loop counters and positions that cannot wrap are [nat].
    What is not in the repository's core, or is chosen by the environment, is a parameter:
    system calls that may fail, refused memory, the clock, hash and key types, the bytes
    of a catalog.  Each has its laws in a class or a named hypothesis, and a concrete
    instance in the witnesses.  Code that several threads run is a step relation whose steps
    are the accesses other threads can see; code that runs under one lock is a sequence of
    operations.  This file also holds the constants of the build ([SystemConfig]) and the
    lemmas and tactics the components share.

    ** The parts of the program and how they interact

    A connection runs statements in transactions.  The transaction manager hands out IDs and
    snapshots, and stamps at commit, through the undo buffer, the versions that a transaction
    left in the rows of node groups, in updated columns and in the catalog.  Before that the
    commit appends the log of the transaction to the write-ahead log.  A checkpoint drains the
    writers, moves the log aside, writes the changed pages to the shadow file, logs a
    checkpoint record and copies the pages over the data file; recovery finishes or
    repeats what a crash interrupted.  Pages live in the frames of the buffer manager and are
    allocated by the page manager from its free lists or at the end of the file.  The hash
    index of a primary key keeps insertions in memory and merges them into slots on disk
    at a checkpoint.

    ** Rows, columns and transactions

    - SelVector: common/data_chunk/sel_vector.  A buffer of positions and where the pointer
      [selectedPositions] leads.
    - VersionInfo: storage/table/version_info.  [VectorVersionInfo] and [VersionInfo] with
      every operation but their (de)serialization.  VersionInfoFacts relates both
      representations of a vector to the versions of its rows ([ins_version],
      [del_version]); VersionInfoOps does the same for each update, VersionInfoSpec for ranges
      over several vectors and whole transactions, VersionInfoScan for scans.
      VersionInfoTheorems has the properties: readers see a
      commit at once or not at all, a rollback of appended rows leaves no trace, the first
      deletion wins, the vectorised scan agrees with the test of single rows.
    - UpdateInfo: storage/table/update_info and the undo records of updates in
      storage/undo_buffer.cpp; [wstep] is the concrete machine, beside it stands the
      abstract snapshot-isolation machine.  UpdateFacts and UpdateScan prepare,
      UpdateRefinement shows that every operation of the first is one of the second,
      UpdateTheorems states it for histories and for scans.
    - Transaction, TransactionManager, TransactionContext: transaction/transaction.cpp,
      transaction_manager.cpp, transaction_context.cpp, the statement runner of
      main/client_context.cpp and processor/operator/transaction.cpp.  What commit and
      rollback do to the data is the class [TransactionStorage], whose calls may throw
      half-way.  TransactionFacts and TransactionTheorems: the invariant of the manager after
      every history, that a commit does not disturb other snapshots, that waiting for
      writers ends.  TransactionSafety: a Hoare logic for [stM], and that the statement runner
      never uses a freed transaction.  TransactionExamples: witnesses, and histories
      that end badly.
    - TransactionConcurrency: the three mutexes of transaction_manager.cpp as interleaved
      threads whose operations may fail; the snapshot of a checkpoint is closed, and the
      deadlock of a beginning writer and a checkpoint.
    - ConcurrentVector: common/concurrent_vector.h as a list of cells.

    ** Scalar types

    - Interval, Date, DTime, Timestamp: common/types/interval_t, date_t, dtime_t, timestamp_t;
      DateText: the formatters of common/types/cast_helpers.h; Arithmetic:
      function/arithmetic/ and, in Module Vectors, the loop of binary_function_executor.h that
      calls an operator on the rows of two vectors.  DateFacts holds the reference
      (proleptic Gregorian) calendar.
      DateTheorems, TimestampTheorems, ArithmeticTheorems, DateText: conversions compute the
      calendar and its inverse, additions are exact, text parses back, checked arithmetic
      returns the mathematical result or throws.
    - Sequence: catalog/catalog_entry/sequence_catalog_entry.cpp and the checks of
      binder/bind/bind_ddl.cpp, against a closed form on unbounded integers.

    ** Pages

    - PageState: the state word of storage/buffer_manager/page_state.h.
    - BufferPool: pins, optimistic reads, evictions and frame updates of one page by any
      number of threads (storage/buffer_manager/buffer_manager.cpp).  BufferPoolFacts: the
      invariant.  BufferPoolTheorems: runs are runs of a page with a lock, readers can
      finish, and two ways in which the code breaks the lock.
    - BufferMemory: [reserve], [freeUsedMemory] and their counters as interleaved threads, with
      evictions, spilling and reads that throw; the bound on the memory in use.
    - FileHandle, FileHandleFacts: storage/file_handle.cpp, vm_region.cpp.
    - FreeSpace, FreeSpaceFacts: storage/free_space_manager.cpp.  PageManager:
      page_manager.cpp, optimistic_allocator.cpp, the ranges of database_header.cpp.
      PageTheorems: histories partition the pages of the file up to the first allocation that
      is refused, allocations are disjoint, the end of a checkpoint coalesces and truncates.
      PageExamples: witnesses and defects.

    ** Durability

    - Serializer, SerializerFacts, Serial: common/serializer/.  The classes [Writer] and
      [Reader] with the laws [WriterLaws] and [ReaderLaws]; each implementation is an instance,
      and everything serialized is proved against the laws.
    - FreeSpaceSerial, FreeSpaceSerialTheorems: serialization of the free space manager and of
      database_header.cpp.
    - Checksum, WalRecord, Wal: common/checksum.cpp, storage/wal/.
    - ShadowFile, ShadowFileFacts, ShadowPending: storage/shadow_file.cpp, shadow_utils.cpp;
      the shadow file as a map of pending pages.
    - Checkpointer: storage/checkpointer.cpp; [history] records the files after each write.
    - WalReplayer, WalReplayerFacts, RecoveryFacts: storage/wal/wal_replayer.cpp.  Loading a
      database and replaying one record are the class [Database].
    - RecoveryTheorems, RecoveryExamples: committed transactions are recovered, corrupted
      records are detected, the shadow file installs exactly the changed pages, a crash at
      any write of a checkpoint is recovered to the state before or after it, or recovery
      refuses a half-written record and leaves the files alone.

    ** Catalog

    - PropertyCollection, TableEntry, TableEntryTheorems: catalog/property_definition_collection,
      the entries of tables, the checks of processor/operator/ddl/alter.cpp; an alteration
      that passes them leaves a well-formed entry.
    - CatalogSet: catalog/catalog_set.cpp and the catalog records of storage/undo_buffer.cpp,
      on a heap of entries.  CatalogSpec abstracts the heap to chains of versions,
      CatalogTransactions ([statements_ok]: which statements are run) and CatalogGrowth follow a
      writer through its statements, none of which has an undefined outcome;
      CatalogTheorems: its changes are atomic for everybody else.

    ** The hash index

    - HashSlot: storage/index/hash_index_slot.h, hash_index_header.h, hash_index_utils.h.
    - InMemHashIndex: storage/index/in_mem_hash_index.{h,cpp}.  InMemHashIndexFacts: a chain of
      slots as a function from positions to entries; InMemHashIndexOps: chains that grow,
      shrink and give slots back; InMemHashIndexEntries: entries without gaps;
      InMemHashIndexSplit: the loop that splits a slot in place.  InMemHashIndexTheorems: every
      sequence of operations is answered like on a collection of entries.
    - HashIndex: storage/index/hash_index.{h,cpp}, local_storage/local_hash_index.h.
      HashIndexFacts: what splitting and merging do to slots with gaps.  HashIndexTheorems:
      the 256 indexes with their local storages implement two collections of entries.

    ** Fuel and bounds

    Loops that are not structural take fuel; running out is [UB], [None] or an error of its
    own, so that the theorems, which exclude it, show that the fuel is enough.
    - The period loops of dates: [period_fuel], the number of 400-year periods of the
      argument and ten more.  [format_fuel]: eleven digits, an [int32_t] year.
    - [drain]: one poll per sleep of the timeout and two more ([drain_fuel]).
    - [dry_loop] and [replay_loop]: the length of the log and one; each record has a byte.
    - [traverse], [committed], [free_chain] of catalog sets: the size of the heap, as chains
      visit an entry once.
    - Chains of slots: the number of overflow slots and one, for the same reason;
      [find_empty]: all entries of a chain; [merge_passes]: the number of entries and one, as
      each pass that ends early has placed one.
    - [split_until], [grow]: the number of slots or elements asked.  [double_until]: 65
      doublings of a 64-bit capacity.  [serialize_from]: the number of entries.
    Bounds under which theorems hold, all far beyond what the program reaches: fewer than
    2^32 steps of the transaction manager, fewer than 2^55 versions of a page (55 bits of the
    state word), at most 2^28 slots of an index ([MAX_SLOTS]: the masks of [incrementLevel]
    are computed on 32-bit [int]), 2^33 operations of an index ([MAX_OPS]), pages of at most
    2^18 bytes for the index, 1024 entries per buffer of [append], as in the code.
    A checkpoint of an index is tried only when the slots needed are at least those present
    (otherwise the code computes a negative number of slots, see the findings) and at most
    twice as many (otherwise the code uses a pointer into a vector that has moved); a buffered
    append to an index with entries on disk is tried only when it does not pass over a key
    of the local storage (otherwise the result is not that of its comment).

    ** Not modelled

    - The parser (generated by ANTLR), the binder, the planner and the optimizer, the
      processor's operators beyond transactions and ALTER TABLE, the function catalogue, graph
      algorithms: they need a semantics of Cypher first.
    - Vectors, values and logical types, column chunks and their compression, the layout and
      the checkpoint of node groups, CSR groups and tables: byte layouts behind casts, with
      third-party kernels.  The versions of rows and of updates inside them are modelled.
    - [Interval::fromCString] (regular expressions), the clock, the derived types of
      timestamps.
    - The cursors of the eviction queue, the spill file, the BM_MALLOC and Windows builds of
      the buffer manager; failing I/O and memory below the serializers (a single read past
      the end of a file, which the file system refuses, is [UB]).
    - Serialization of catalog entries, entries other than tables and sequences except by
      their kind; the columns that ALTER TABLE changes after the catalog.
    - Disk arrays (storage/disk_array.cpp), which the hash index uses as lists with a committed
      and a current version; keys of strings, which live in an overflow file; the rollback of
      a checkpoint of an index.
    - Database construction, the C API and bindings, extensions, file systems and file readers:
      wrappers and I/O. *)

From Stdlib Require Import ZArith Lia.
From stdpp Require Export base numbers option gmap strings sorting list.

#[global] Open Scope Z_scope.

(** ** Outcomes of C++ operations

    A C++ call returns a value, throws one of the repository's exceptions
    (src/lbug-src/src/include/common/exception/), or has undefined behaviour
    (an out-of-range [operator[]], a null dereference).  The last one is kept
    as a value of its own, so that theorems can show it is never reached. *)

Inductive exn_class : Type :=
| RuntimeException
| BinderException
| InternalException
| CatalogException
| ConversionException
| OverflowException
| TransactionManagerException
| CheckpointException
| ConnectionException
| BufferManagerException
| StorageException
| IOException.

Record exn : Type := Exn { exn_kind : exn_class; exn_msg : string }.

(** [e.what()]: each class prefixes the message it is built from, except
    three that pass it on unchanged. *)
Definition what (e : exn) : string :=
  match exn_kind e with
  | RuntimeException => "Runtime exception: "
  | BinderException => "Binder exception: "
  | CatalogException => "Catalog exception: "
  | ConversionException => "Conversion exception: "
  | OverflowException => "Overflow exception: "
  | ConnectionException => "Connection exception: "
  | BufferManagerException => "Buffer manager exception: "
  | StorageException => "Storage exception: "
  | IOException => "IO exception: "
  | InternalException | TransactionManagerException | CheckpointException => ""
  end +:+ exn_msg e.

Inductive result (A : Type) : Type :=
| Ok (a : A)
| Throw (e : exn)
| UB.
Arguments Ok {A} a.
Arguments Throw {A} e.
Arguments UB {A}.

#[export] Instance exn_class_eq_dec : EqDecision exn_class.
Proof. solve_decision. Defined.
#[export] Instance exn_eq_dec : EqDecision exn.
Proof. solve_decision. Defined.
#[export] Instance result_eq_dec `{EqDecision A} : EqDecision (result A).
Proof. solve_decision. Defined.

#[export] Instance result_ret : MRet result := λ A a, Ok a.
#[export] Instance result_bind : MBind result := λ A B f m,
  match m with
  | Ok a => f a
  | Throw e => Throw e
  | UB => UB
  end.
#[export] Instance result_fmap : FMap result := λ A B f m,
  match m with
  | Ok a => Ok (f a)
  | Throw e => Throw e
  | UB => UB
  end.

Definition throw {A} (c : exn_class) (msg : string) : result A := Throw (Exn c msg).

(** Dereferencing a pointer that may be null, and reading out of an option. *)
Definition deref {A} (o : option A) : result A :=
  match o with Some a => Ok a | None => UB end.

Definition is_ok {A} (r : result A) : bool :=
  match r with Ok _ => true | _ => false end.

Lemma bind_ok {A B} (m : result A) (f : A → result B) b :
  (m ≫= f) = Ok b → ∃ a, m = Ok a ∧ f a = Ok b.
Proof. destruct m; simpl; try done. eauto. Qed.

Lemma deref_ok {A} (o : option A) a : deref o = Ok a ↔ o = Some a.
Proof. destruct o; simpl; split; congruence. Qed.

(** A computation on a mutable object: the object is updated even when the call
    throws, as in C++, where an exception does not undo the writes before it. *)
Definition stM (S A : Type) : Type := S → S * result A.

#[export] Instance stM_ret {S} : MRet (stM S) := λ A a s, (s, Ok a).
#[export] Instance stM_bind {S} : MBind (stM S) := λ A B f m s,
  match m s with
  | (s', Ok a) => f a s'
  | (s', Throw e) => (s', Throw e)
  | (s', UB) => (s', UB)
  end.

Definition st_get {S} : stM S S := λ s, (s, Ok s).
Definition st_put {S} (s' : S) : stM S () := λ _, (s', Ok ()).
Definition st_modify {S} (f : S → S) : stM S () := λ s, (f s, Ok ()).
Definition st_lift {S A} (r : result A) : stM S A := λ s, (s, r).
Definition st_throw {S A} (c : exn_class) (msg : string) : stM S A :=
  λ s, (s, Throw (Exn c msg)).

Lemma st_bind_run {S A B} (m : stM S A) (f : A → stM S B) s :
  (m ≫= f) s =
  match m s with
  | (s', Ok a) => f a s'
  | (s', Throw e) => (s', Throw e)
  | (s', UB) => (s', UB)
  end.
Proof. done. Qed.

(** Runs the leading primitive steps of a stateful computation. *)
Ltac st_run :=
  repeat (rewrite st_bind_run;
          cbn [st_get st_put st_modify st_lift st_throw mret stM_ret]);
  cbn [st_get st_put st_modify st_lift st_throw mret stM_ret].

(** [let%ok] style destruction of monadic hypotheses. *)
Ltac inv_result :=
  repeat match goal with
  | H : Ok _ = Ok _ |- _ => injection H as H; subst
  | H : Throw _ = Ok _ |- _ => discriminate H
  | H : UB = Ok _ |- _ => discriminate H
  | H : Ok _ = Throw _ |- _ => discriminate H
  | H : Ok _ = UB |- _ => discriminate H
  | H : (?m ≫= _) = Ok _ |- _ =>
      let a := fresh "a" in let Ha := fresh "Hbind" in
      apply bind_ok in H as (a & Ha & H)
  | H : deref _ = Ok _ |- _ => apply deref_ok in H
  end.

(** ** Machine integers

    An unsigned w-bit value is a [Z] in [[0, 2^w)], a signed one a [Z] in
    [[-2^(w-1), 2^(w-1))]; [wrap] and [swrap] are the conversions the C++
    arithmetic performs. *)

Definition wrap (w z : Z) : Z := z mod 2 ^ w.
Definition swrap (w z : Z) : Z := (z + 2 ^ (w - 1)) mod 2 ^ w - 2 ^ (w - 1).

Definition UINT64_MAX : Z := 2 ^ 64 - 1.
Definition UINT32_MAX : Z := 2 ^ 32 - 1.
Definition INT64_MAX : Z := 2 ^ 63 - 1.
Definition INT64_MIN : Z := - 2 ^ 63.
Definition INT32_MAX : Z := 2 ^ 31 - 1.
Definition INT32_MIN : Z := - 2 ^ 31.

Definition in_u (w z : Z) : Prop := 0 ≤ z < 2 ^ w.
Definition in_s (w z : Z) : Prop := - 2 ^ (w - 1) ≤ z < 2 ^ (w - 1).

Lemma wrap_range w z : 0 ≤ w → in_u w (wrap w z).
Proof. intros. apply Z.mod_pos_bound. lia. Qed.

Lemma wrap_id w z : in_u w z → wrap w z = z.
Proof. intros. by apply Z.mod_small. Qed.

Lemma swrap_id w z : 0 < w → in_s w z → swrap w z = z.
Proof.
  unfold in_s, swrap. intros Hw Hz.
  assert (2 ^ w = 2 * 2 ^ (w - 1)) as E.
  { replace w with (Z.succ (w - 1)) at 1 by lia. rewrite Z.pow_succ_r; lia. }
  rewrite Z.mod_small; lia.
Qed.

Lemma swrap_range w z : 0 < w → in_s w (swrap w z).
Proof.
  unfold in_s, swrap. intros Hw.
  assert (2 ^ w = 2 * 2 ^ (w - 1)) as E.
  { replace w with (Z.succ (w - 1)) at 1 by lia. rewrite Z.pow_succ_r; lia. }
  pose proof (Z.mod_pos_bound (z + 2 ^ (w - 1)) (2 ^ w)). lia.
Qed.

(** ** Transactions' timestamps

    [transaction_t], [INVALID_TRANSACTION] (common/types/types.h) and the
    constants of class [Transaction] (transaction/transaction.h). *)

Definition INVALID_TRANSACTION : Z := UINT64_MAX.
Definition START_TRANSACTION_ID : Z := 2 ^ 63.
Definition DUMMY_TRANSACTION_ID : Z := 0.
Definition DUMMY_START_TIMESTAMP : Z := 0.

(** ** Arrays

    Writing a run of cells of a [std::array]: the loop
    [for (i = start; i < start + n; i++) a[i] = x].  A run that leaves the array
    is undefined behaviour. *)

Definition array_fill {A} (a : list A) (start n : nat) (x : A) : result (list A) :=
  if decide (start + n ≤ length a)%nat
  then Ok (list_inserts start (replicate n x) a)
  else UB.

Lemma array_fill_ok {A} (a : list A) start n x :
  (start + n ≤ length a)%nat → ∃ a', array_fill a start n x = Ok a'.
Proof. intros. unfold array_fill. rewrite decide_True by done. eauto. Qed.

Lemma array_fill_length {A} (a a' : list A) start n x :
  array_fill a start n x = Ok a' → length a' = length a.
Proof.
  unfold array_fill. case_decide; [|done]. intros [= <-]. apply length_inserts.
Qed.

Lemma array_fill_lookup {A} (a a' : list A) start n x i :
  array_fill a start n x = Ok a' →
  a' !! i = (if decide (start ≤ i < start + n)%nat then Some x else a !! i).
Proof.
  unfold array_fill. case_decide as Hle; [|done]. intros [= <-].
  case_decide as Hi.
  - rewrite list_lookup_inserts by (rewrite ?length_replicate; lia).
    apply lookup_replicate_2. lia.
  - destruct (decide (i < start)%nat).
    + by rewrite list_lookup_inserts_lt.
    + rewrite list_lookup_inserts_ge; [done|]. rewrite length_replicate. lia.
Qed.

Create HintDb lbug discriminated.
#[export] Hint Resolve array_fill_length wrap_range swrap_range : lbug.

(** ** Build configuration

    [system_config.h] is generated by CMake; the vector capacity is a build
    option, bounded by the [#error] of the template. *)
Class SystemConfig : Type := {
  VECTOR_CAPACITY_LOG_2 : nat;
  VECTOR_CAPACITY_LOG_2_le : (VECTOR_CAPACITY_LOG_2 ≤ 12)%nat;
}.

Definition DEFAULT_VECTOR_CAPACITY `{SystemConfig} : nat := 2 ^ VECTOR_CAPACITY_LOG_2.

Lemma DEFAULT_VECTOR_CAPACITY_pos `{SystemConfig} : (0 < DEFAULT_VECTOR_CAPACITY)%nat.
Proof. unfold DEFAULT_VECTOR_CAPACITY. apply Nat.neq_0_lt_0, Nat.pow_nonzero. lia. Qed.

#[export] Hint Resolve DEFAULT_VECTOR_CAPACITY_pos : lbug.

(** Sequencing a list of fallible steps, left to right: the shape of a C++ loop
    whose body may throw. *)
Fixpoint foldM {A B} (f : A → B → result A) (a : A) (l : list B) : result A :=
  match l with
  | [] => Ok a
  | b :: l => a' ← f a b; foldM f a' l
  end.

Lemma foldM_app {A B} (f : A → B → result A) l1 l2 a :
  foldM f a (l1 ++ l2) = (a' ← foldM f a l1; foldM f a' l2).
Proof.
  revert a. induction l1 as [|b l1 IH]; intros a; [done|].
  simpl. destruct (f a b); simpl; [apply IH|done|done].
Qed.

Lemma foldM_inv {A B} (P : A → Prop) (f : A → B → result A) l a :
  P a →
  (∀ a b, P a → b ∈ l → ∃ a', f a b = Ok a' ∧ P a') →
  ∃ a', foldM f a l = Ok a' ∧ P a'.
Proof.
  intros HP Hf. revert a HP. induction l as [|b l IH]; intros a HP; [simpl; eauto|].
  destruct (Hf a b HP) as (a1 & E & HP1); [left|].
  simpl. rewrite E. apply IH; [|done]. intros. apply Hf; [done|by right].
Qed.

(** Counting over a run of indexes. *)
Lemma filter_seq_shift (P Q : nat → Prop) `{∀ x, Decision (P x)} `{∀ x, Decision (Q x)}
    a b k :
  (∀ i, (i < k)%nat → P (a + i)%nat ↔ Q (b + i)%nat) →
  length (filter P (seq a k)) = length (filter Q (seq b k)).
Proof.
  revert a b. induction k as [|k IH]; intros a b HPQ; [done|]. simpl.
  pose proof (HPQ 0%nat ltac:(lia)) as Hhd. rewrite !Nat.add_0_r in Hhd.
  assert (length (filter P (seq (S a) k)) = length (filter Q (seq (S b) k))) as E.
  { apply IH. intros i Hi. replace (S a + i)%nat with (a + S i)%nat by lia.
    replace (S b + i)%nat with (b + S i)%nat by lia. apply HPQ. lia. }
  destruct (decide (P a)).
  - rewrite !filter_cons_True by tauto. simpl. by rewrite E.
  - rewrite !filter_cons_False by tauto. done.
Qed.

Lemma filter_seq_none (P : nat → Prop) `{∀ x, Decision (P x)} a k :
  (∀ i, (a ≤ i < a + k)%nat → ¬ P i) → filter P (seq a k) = [].
Proof.
  revert a. induction k as [|k IH]; intros a HP; [done|]. simpl.
  rewrite filter_cons_False by (apply HP; lia). apply IH. intros i Hi. apply HP. lia.
Qed.

Lemma filter_all {A} (P : A → Prop) `{∀ x, Decision (P x)} (l : list A) :
  (∀ x, x ∈ l → P x) → filter P l = l.
Proof.
  induction l as [|x l IH]; intros Hl; [done|].
  rewrite filter_cons_True by (apply Hl; left). f_equal. apply IH. intros. apply Hl. by right.
Qed.

(** One list of several changes. *)
Lemma concat_insert_perm {A} (ls : list (list A)) k l l' :
  ls !! k = Some l → l ++ concat (<[k := l']> ls) ≡ₚ l' ++ concat ls.
Proof.
  revert k. induction ls as [|x ls IH]; intros [|k] E; [done..| |].
  - injection E as ->. simpl. by rewrite !(assoc (++)), (comm (++) l l').
  - simpl in *. rewrite !(assoc (++)), (comm (++) l x), (comm (++) l' x), <-!(assoc (++)).
    by rewrite IH.
Qed.

(** ** Signed arithmetic

    The result of a signed C++ operation whose mathematical value is [z]: overflow is
    undefined behaviour.  [x / y] and [x % y] truncate: [Z.quot] and [Z.rem]. *)
#[export] Instance in_s_dec w z : Decision (in_s w z).
Proof. unfold in_s. apply _. Defined.
#[export] Instance in_u_dec w z : Decision (in_u w z).
Proof. unfold in_u. apply _. Defined.

Definition signed (w z : Z) : result Z := if decide (in_s w z) then Ok z else UB.

Lemma signed_ok w z : in_s w z → signed w z = Ok z.
Proof. intros. unfold signed. by rewrite decide_True. Qed.

(** Reading a constant table at a machine integer. *)
Definition tbl (l : list Z) (i : Z) : result Z :=
  if bool_decide (i < 0) then UB else deref (l !! Z.to_nat i).

Lemma tbl_ok l i : 0 ≤ i < Z.of_nat (length l) → tbl l i = Ok (nth (Z.to_nat i) l 0).
Proof.
  intros Hi. unfold tbl. rewrite bool_decide_false by lia.

  destruct (nth_lookup_or_length l (Z.to_nat i) 0) as [E|]; [by rewrite E|lia].
Qed.
