(* ===== verification/SelVector.v ===== *)
(** * Selection vectors (common/data_chunk/sel_vector.{h,cpp})

    A [SelectionVector] owns a buffer of positions and a pointer
    [selectedPositions], which points either to that buffer or to the static
    array [INCREMENTAL_SELECTED_POS] = 0, 1, 2, ...  The pointer is modelled by
    where it points, so that a write to the buffer is seen through it exactly
    when it points there. *)

From S2P Require Import Prelude.

Section SelVector.
Context `{SystemConfig}.

Inductive SelState : Type := DYNAMIC | STATIC.
Inductive SelPtr : Type := INCREMENTAL_SELECTED_POS | OWN_BUFFER.

Record SelectionVector : Type := mkSelectionVector {
  selectedPositions : SelPtr;
  selectedSize : nat;
  sel_state : SelState;
  selectedPositionsBuffer : list nat;
}.

(** [SelectionVector(capacity)]: a zeroed buffer, unfiltered, empty. *)
Definition newSelectionVector (capacity : nat) : SelectionVector :=
  {| selectedPositions := INCREMENTAL_SELECTED_POS; selectedSize := 0;
     sel_state := STATIC; selectedPositionsBuffer := replicate capacity 0%nat |}.

Definition sel_capacity (sv : SelectionVector) : nat := length (selectedPositionsBuffer sv).

Definition getSelSize (sv : SelectionVector) : nat := selectedSize sv.

(** [selectedPositions[i]]: reading past either array is undefined. *)
Definition sel_at (sv : SelectionVector) (i : nat) : result nat :=
  match selectedPositions sv with
  | INCREMENTAL_SELECTED_POS =>
      if decide (i < DEFAULT_VECTOR_CAPACITY)%nat then Ok i else UB
  | OWN_BUFFER => deref (selectedPositionsBuffer sv !! i)
  end.

Definition isUnfiltered (sv : SelectionVector) : bool :=
  match sel_state sv with
  | STATIC => match sel_at sv 0 with Ok p => bool_decide (p = 0%nat) | _ => false end
  | DYNAMIC => false
  end.

Definition setSelSize (size : nat) (sv : SelectionVector) : SelectionVector :=
  {| selectedPositions := selectedPositions sv; selectedSize := size;
     sel_state := sel_state sv;
     selectedPositionsBuffer := selectedPositionsBuffer sv |}.

Definition setToUnfiltered (size : nat) (sv : SelectionVector) : SelectionVector :=
  {| selectedPositions := INCREMENTAL_SELECTED_POS; selectedSize := size;
     sel_state := STATIC;
     selectedPositionsBuffer := selectedPositionsBuffer sv |}.

Definition setToFiltered (size : nat) (sv : SelectionVector) : SelectionVector :=
  {| selectedPositions := OWN_BUFFER; selectedSize := size; sel_state := DYNAMIC;
     selectedPositionsBuffer := selectedPositionsBuffer sv |}.

(** [setRange]: the run of positions [startPos, startPos + size). *)
Definition setRange (startPos size : nat) (sv : SelectionVector) : result SelectionVector :=
  if decide (size ≤ sel_capacity sv)%nat
  then Ok {| selectedPositions := OWN_BUFFER; selectedSize := size; sel_state := DYNAMIC;
             selectedPositionsBuffer :=
               list_inserts 0 (seq startPos size) (selectedPositionsBuffer sv) |}
  else UB.

(** The positions a reader of the vector sees, in order. *)
Definition sel_list (sv : SelectionVector) : list nat :=
  match selectedPositions sv with
  | INCREMENTAL_SELECTED_POS => seq 0 (selectedSize sv)
  | OWN_BUFFER => take (selectedSize sv) (selectedPositionsBuffer sv)
  end.

(** [makeDynamic]: the [memcpy] of the selected positions into the buffer. *)
Definition makeDynamic (sv : SelectionVector) : result SelectionVector :=
  if decide (selectedSize sv ≤ sel_capacity sv)%nat
  then Ok {| selectedPositions := OWN_BUFFER; selectedSize := selectedSize sv;
             sel_state := DYNAMIC;
             selectedPositionsBuffer :=
               list_inserts 0 (sel_list sv) (selectedPositionsBuffer sv) |}
  else UB.

(** [getMutableBuffer()[i] = pos]. *)
Definition sel_write (i pos : nat) (sv : SelectionVector) : result SelectionVector :=
  if decide (i < sel_capacity sv)%nat
  then Ok {| selectedPositions := selectedPositions sv; selectedSize := selectedSize sv;
             sel_state := sel_state sv;
             selectedPositionsBuffer := <[i := pos]> (selectedPositionsBuffer sv) |}
  else UB.

(** [forEach]: the sequence of positions the callback receives. *)
Definition forEach_positions (sv : SelectionVector) : result (list nat) :=
  match sel_state sv with
  | DYNAMIC => foldM (λ acc i, p ← sel_at sv i; Ok (acc ++ [p])) [] (seq 0 (selectedSize sv))
  | STATIC => start ← sel_at sv 0; Ok (seq start (selectedSize sv))
  end.

(** *** Well-formedness: the pointer agrees with the state. *)
Definition sel_wf (sv : SelectionVector) : Prop :=
  (selectedSize sv ≤ sel_capacity sv)%nat ∧
  match sel_state sv with
  | STATIC => selectedPositions sv = INCREMENTAL_SELECTED_POS
  | DYNAMIC => selectedPositions sv = OWN_BUFFER
  end.

(** Writing the positions [ps] at the indexes [n, n + length ps). *)
Fixpoint sel_push_all (n : nat) (ps : list nat) (sv : SelectionVector) :
    result SelectionVector :=
  match ps with
  | [] => Ok sv
  | p :: ps => sv' ← sel_write n p sv; sel_push_all (S n) ps sv'
  end.

Lemma isUnfiltered_wf sv :
  sel_wf sv → isUnfiltered sv = match sel_state sv with STATIC => true | DYNAMIC => false end.
Proof.
  intros [_ Hp]. unfold isUnfiltered, sel_at. destruct (sel_state sv); [done|].
  rewrite Hp. rewrite decide_True by apply DEFAULT_VECTOR_CAPACITY_pos. done.
Qed.

Lemma sel_list_length sv : sel_wf sv → length (sel_list sv) = selectedSize sv.
Proof.
  intros [Hs _]. unfold sel_list, sel_capacity in *. destruct (selectedPositions sv).
  - apply length_seq.
  - rewrite length_take. lia.
Qed.

Lemma sel_push_all_spec ps n sv :
  (n + length ps ≤ sel_capacity sv)%nat →
  ∃ sv', sel_push_all n ps sv = Ok sv' ∧
    selectedPositions sv' = selectedPositions sv ∧
    selectedSize sv' = selectedSize sv ∧ sel_state sv' = sel_state sv ∧
    sel_capacity sv' = sel_capacity sv ∧
    take (n + length ps) (selectedPositionsBuffer sv') =
      take n (selectedPositionsBuffer sv) ++ ps.
Proof.
  revert n sv. induction ps as [|p ps IH]; intros n sv Hle; simpl in *.
  - exists sv. rewrite app_nil_r, Nat.add_0_r. done.
  - unfold sel_write. rewrite decide_True by lia. simpl.
    edestruct (IH (S n)) as (sv' & E & Hp & Hs & Hst & Hc & Hb).
    2:{ exists sv'. split; [exact E|]. simpl in *. repeat split; try done.
        - rewrite Hc. unfold sel_capacity. simpl. apply length_insert.
        - replace (n + S (length ps))%nat with (S (n + length ps)) by lia.
          rewrite Hb. change (p :: ps) with ([p] ++ ps). rewrite app_assoc. f_equal.
          rewrite (take_S_r _ n p).
          + by rewrite take_insert_ge by lia.
          + apply list_lookup_insert_eq. unfold sel_capacity in Hle. lia. }
    unfold sel_capacity in *. simpl. rewrite length_insert. lia.
Qed.

(** [forEach] visits exactly [sel_list]. *)
Lemma forEach_positions_ok sv :
  sel_wf sv → (selectedSize sv ≤ DEFAULT_VECTOR_CAPACITY)%nat →
  forEach_positions sv = Ok (sel_list sv).
Proof.
  intros [Hle Hp] Hcap. unfold forEach_positions, sel_list, sel_at.
  destruct (sel_state sv); rewrite Hp.
  - unfold sel_capacity in Hle.
    enough (∀ k acc, (k ≤ selectedSize sv)%nat →
      foldM (λ acc i, p ← deref (selectedPositionsBuffer sv !! i); Ok (acc ++ [p])) acc
        (seq (selectedSize sv - k) k) =
      Ok (acc ++ drop (selectedSize sv - k) (take (selectedSize sv)
            (selectedPositionsBuffer sv)))) as G.
    { specialize (G (selectedSize sv) []). rewrite Nat.sub_diag in G. by rewrite G. }
    induction k as [|k IH]; intros acc Hk.
    + simpl. rewrite Nat.sub_0_r, drop_ge, app_nil_r; [done|]. rewrite length_take. lia.
    + simpl. destruct (lookup_lt_is_Some_2 (selectedPositionsBuffer sv)
        (selectedSize sv - S k)) as [p Ep]; [lia|].
      rewrite Ep. simpl. replace (S (selectedSize sv - S k)) with (selectedSize sv - k)%nat by lia.
      rewrite IH by lia. rewrite <- app_assoc. do 2 f_equal. simpl.
      replace (selectedSize sv - k)%nat with (S (selectedSize sv - S k)) by lia.
      symmetry. apply drop_S. rewrite lookup_take_lt by lia. done.
  - rewrite decide_True by apply DEFAULT_VECTOR_CAPACITY_pos. done.
Qed.

End SelVector.
