(* ===== verification/VersionInfo.v ===== *)
(** * Row versions of a chunked node group (storage/table/version_info.{h,cpp})

    A chunk of rows is cut into vectors of [DEFAULT_VECTOR_CAPACITY] rows.  A
    vector's [VectorVersionInfo] holds, for each row, the transaction (or commit
    timestamp) that inserted it and the one that deleted it, with two shortcuts:
    [sameInsertionVersion] / [sameDeletionVersion] when one version covers the
    whole vector, and the two status bytes.  The definitions of this file are the
    operations of the two classes; their theorems are in VersionInfoFacts.v.

    Row and vector indexes are natural numbers: a chunk has far fewer than 2^32
    vectors, so the [uint64_t] and [idx_t] arithmetic of the code does not wrap.
    [DASSERT] is compiled out (release build). *)

From S2P Require Import Prelude.
From S2P Require Import SelVector.

Inductive InsertionStatus : Type := NO_INSERTED | INS_CHECK_VERSION | ALWAYS_INSERTED.
Inductive DeletionStatus : Type := NO_DELETED | DEL_CHECK_VERSION.

#[export] Instance InsertionStatus_eq_dec : EqDecision InsertionStatus.
Proof. solve_decision. Defined.
#[export] Instance DeletionStatus_eq_dec : EqDecision DeletionStatus.
Proof. solve_decision. Defined.

Section VersionInfo.
Context `{SystemConfig}.

Local Abbreviation CAP := DEFAULT_VECTOR_CAPACITY.

(** ** One vector *)

Record VectorVersionInfo : Type := mkVectorVersionInfo {
  insertedVersions : option (list Z);
  deletedVersions : option (list Z);
  sameInsertionVersion : Z;
  sameDeletionVersion : Z;
  insertionStatus : InsertionStatus;
  deletionStatus : DeletionStatus;
}.

Definition newVectorVersionInfo : VectorVersionInfo :=
  {| insertedVersions := None; deletedVersions := None;
     sameInsertionVersion := INVALID_TRANSACTION;
     sameDeletionVersion := INVALID_TRANSACTION;
     insertionStatus := NO_INSERTED; deletionStatus := NO_DELETED |}.

(** Field assignments. *)
Definition set_insertedVersions a (v : VectorVersionInfo) : VectorVersionInfo :=
  mkVectorVersionInfo a (deletedVersions v) (sameInsertionVersion v)
    (sameDeletionVersion v) (insertionStatus v) (deletionStatus v).
Definition set_deletedVersions a (v : VectorVersionInfo) : VectorVersionInfo :=
  mkVectorVersionInfo (insertedVersions v) a (sameInsertionVersion v)
    (sameDeletionVersion v) (insertionStatus v) (deletionStatus v).
Definition set_sameInsertionVersion t (v : VectorVersionInfo) : VectorVersionInfo :=
  mkVectorVersionInfo (insertedVersions v) (deletedVersions v) t
    (sameDeletionVersion v) (insertionStatus v) (deletionStatus v).
Definition set_sameDeletionVersion t (v : VectorVersionInfo) : VectorVersionInfo :=
  mkVectorVersionInfo (insertedVersions v) (deletedVersions v) (sameInsertionVersion v)
    t (insertionStatus v) (deletionStatus v).
Definition set_insertionStatus s (v : VectorVersionInfo) : VectorVersionInfo :=
  mkVectorVersionInfo (insertedVersions v) (deletedVersions v) (sameInsertionVersion v)
    (sameDeletionVersion v) s (deletionStatus v).
Definition set_deletionStatus s (v : VectorVersionInfo) : VectorVersionInfo :=
  mkVectorVersionInfo (insertedVersions v) (deletedVersions v) (sameInsertionVersion v)
    (sameDeletionVersion v) (insertionStatus v) s.

Definition isSameInsertionVersion (v : VectorVersionInfo) : bool :=
  negb (bool_decide (sameInsertionVersion v = INVALID_TRANSACTION)).
Definition isSameDeletionVersion (v : VectorVersionInfo) : bool :=
  negb (bool_decide (sameDeletionVersion v = INVALID_TRANSACTION)).

Definition initInsertionVersionArray (v : VectorVersionInfo) : VectorVersionInfo :=
  set_insertedVersions (Some (replicate CAP INVALID_TRANSACTION)) v.
Definition initDeletionVersionArray (v : VectorVersionInfo) : VectorVersionInfo :=
  set_deletedVersions (Some (replicate CAP INVALID_TRANSACTION)) v.

(** [VectorVersionInfo::append] *)
Definition vvi_append (transactionID : Z) (startRow numRows : nat)
    (v : VectorVersionInfo) : result VectorVersionInfo :=
  let v := set_insertionStatus INS_CHECK_VERSION v in
  if bool_decide (transactionID = sameInsertionVersion v) then Ok v
  else if negb (isSameInsertionVersion v) && bool_decide (insertedVersions v = None) then
    (* No insertions before, and no need to allocate array. *)
    Ok (set_sameInsertionVersion transactionID v)
  else
    v ← match insertedVersions v with
        | Some _ => Ok v
        | None =>
            let v := initInsertionVersionArray v in
            arr ← deref (insertedVersions v);
            arr ← array_fill arr 0 startRow (sameInsertionVersion v);
            Ok (set_sameInsertionVersion INVALID_TRANSACTION
                  (set_insertedVersions (Some arr) v))
        end;
    arr ← deref (insertedVersions v);
    arr ← array_fill arr startRow numRows transactionID;
    Ok (set_insertedVersions (Some arr) v).

Definition write_write_conflict : string :=
  "Write-write conflict: deleting a row that is already deleted by another transaction.".

(** [VectorVersionInfo::delete_]: the status is updated before the checks, so a
    thrown conflict leaves it behind. *)
Definition vvi_delete (transactionID : Z) (rowIdx : nat) : stM VectorVersionInfo bool :=
  λ v,
  let v := set_deletionStatus DEL_CHECK_VERSION v in
  if bool_decide (transactionID = sameDeletionVersion v) then (v, Ok false)
  else if isSameDeletionVersion v then
    (v, throw RuntimeException write_write_conflict)
  else
    let v := match deletedVersions v with
             | None => initDeletionVersionArray v
             | Some _ => v
             end in
    match deletedVersions v with
    | None => (v, UB)
    | Some arr =>
        match arr !! rowIdx with
        | None => (v, UB)
        | Some d =>
            if bool_decide (d = transactionID) then (v, Ok false)
            else if negb (bool_decide (d = INVALID_TRANSACTION)) then
              (v, throw RuntimeException write_write_conflict)
            else (set_deletedVersions (Some (<[rowIdx := transactionID]> arr)) v, Ok true)
        end
    end.

Definition setInsertCommitTS (commitTS : Z) (startRow numRows : nat)
    (v : VectorVersionInfo) : result VectorVersionInfo :=
  if isSameInsertionVersion v then Ok (set_sameInsertionVersion commitTS v)
  else
    arr ← deref (insertedVersions v);
    arr ← array_fill arr startRow numRows commitTS;
    Ok (set_insertedVersions (Some arr) v).

Definition setDeleteCommitTS (commitTS : Z) (startRow numRows : nat)
    (v : VectorVersionInfo) : result VectorVersionInfo :=
  if isSameDeletionVersion v then Ok (set_sameDeletionVersion commitTS v)
  else
    arr ← deref (deletedVersions v);
    arr ← array_fill arr startRow numRows commitTS;
    Ok (set_deletedVersions (Some arr) v).

(** [VectorVersionInfo::isDeleted] *)
Definition vvi_isDeleted (startTS transactionID : Z) (rowIdx : nat)
    (v : VectorVersionInfo) : result bool :=
  match deletionStatus v with
  | NO_DELETED => Ok false
  | DEL_CHECK_VERSION =>
      deletion ← (if isSameDeletionVersion v then Ok (sameDeletionVersion v)
                  else arr ← deref (deletedVersions v); deref (arr !! rowIdx));
      Ok (bool_decide (deletion = transactionID) || bool_decide (deletion ≤ startTS))
  end.

(** [VectorVersionInfo::isInserted] *)
Definition vvi_isInserted (startTS transactionID : Z) (rowIdx : nat)
    (v : VectorVersionInfo) : result bool :=
  match insertionStatus v with
  | ALWAYS_INSERTED => Ok true
  | NO_INSERTED => Ok false
  | INS_CHECK_VERSION =>
      insertion ← (if isSameInsertionVersion v then Ok (sameInsertionVersion v)
                   else arr ← deref (insertedVersions v); deref (arr !! rowIdx));
      Ok (bool_decide (insertion = transactionID) || bool_decide (insertion ≤ startTS))
  end.

(** [VectorVersionInfo::isSelected] *)
Definition vvi_isSelected (startTS transactionID : Z) (rowIdx : nat)
    (v : VectorVersionInfo) : result bool :=
  if bool_decide (deletionStatus v = NO_DELETED) &&
     bool_decide (insertionStatus v = ALWAYS_INSERTED) then Ok true
  else if bool_decide (insertionStatus v = NO_INSERTED) then Ok false
  else
    ins ← vvi_isInserted startTS transactionID rowIdx v;
    if (ins : bool) then
      del ← vvi_isDeleted startTS transactionID rowIdx v; Ok (negb del)
    else Ok false.

(** The loop of [getSelVectorForScan]: test each row, push the selected ones. *)
Definition scan_step (startTS transactionID : Z) (startRow startOutputPos : nat)
    (v : VectorVersionInfo) (acc : SelectionVector * nat) (i : nat) :
    result (SelectionVector * nat) :=
  let '(sv, numSelected) := acc in
  ins ← vvi_isInserted startTS transactionID (startRow + i) v;
  sel ← (if (ins : bool) then
           del ← vvi_isDeleted startTS transactionID (startRow + i) v; Ok (negb del)
         else Ok false);
  if (sel : bool) then
    sv ← sel_write numSelected (startOutputPos + i) sv; Ok (sv, S numSelected)
  else Ok (sv, numSelected).

(** [for (i < numRows) buffer[numSelected++] = startOutputPos + i;
    setToFiltered(numSelected)] *)
Definition push_all_rows (numRows startOutputPos : nat) (sv : SelectionVector) :
    result SelectionVector :=
  sv' ← sel_push_all (getSelSize sv) (seq startOutputPos numRows) sv;
  Ok (setToFiltered (getSelSize sv + numRows) sv').

Definition getSelVectorForScan (startTS transactionID : Z) (startRow numRows : nat)
    (startOutputPos : nat) (v : VectorVersionInfo) (sv : SelectionVector) :
    result SelectionVector :=
  if bool_decide (deletionStatus v = NO_DELETED) &&
     bool_decide (insertionStatus v = ALWAYS_INSERTED) then
    if isUnfiltered sv then Ok (setSelSize (getSelSize sv + numRows) sv)
    else push_all_rows numRows startOutputPos sv
  else if negb (bool_decide (insertionStatus v = NO_INSERTED)) then
    let numSelected := getSelSize sv in
    sv ← (if isUnfiltered sv then makeDynamic sv else Ok sv);
    '(sv, numSelected) ←
      foldM (scan_step startTS transactionID startRow startOutputPos v)
        (sv, numSelected) (seq 0 numRows);
    Ok (setToFiltered numSelected sv)
  else Ok sv.

(** [VectorVersionInfo::getNumDeletions] *)
Definition vvi_getNumDeletions (startTS transactionID : Z) (startRow numRows : nat)
    (v : VectorVersionInfo) : result nat :=
  match deletionStatus v with
  | NO_DELETED => Ok 0%nat
  | _ =>
      foldM (λ numDeletions i,
               d ← vvi_isDeleted startTS transactionID (startRow + i) v;
               Ok (numDeletions + (if (d : bool) then 1 else 0))%nat)
        0%nat (seq 0 numRows)
  end.

Definition hasAnyVersion (arr : list Z) : bool :=
  existsb (λ version, negb (bool_decide (version = INVALID_TRANSACTION))) arr.

Definition rollbackInsertions (startRowInVector numRows : nat) (v : VectorVersionInfo) :
    result VectorVersionInfo :=
  v ← (if isSameInsertionVersion v
       then Ok (set_sameInsertionVersion INVALID_TRANSACTION v)
       else match insertedVersions v with
            | None => Ok v
            | Some arr =>
                arr ← array_fill arr startRowInVector numRows INVALID_TRANSACTION;
                if hasAnyVersion arr then Ok (set_insertedVersions (Some arr) v)
                else Ok (set_insertedVersions None v)
            end);
  match insertedVersions v with
  | None => Ok (set_deletionStatus NO_DELETED (set_insertionStatus NO_INSERTED v))
  | Some _ => Ok v
  end.

Definition rollbackDeletions (startRowInVector numRows : nat) (v : VectorVersionInfo) :
    result VectorVersionInfo :=
  v ← (if isSameDeletionVersion v
       then Ok (set_sameDeletionVersion INVALID_TRANSACTION v)
       else match deletedVersions v with
            | None => Ok v
            | Some arr =>
                arr ← array_fill arr startRowInVector numRows INVALID_TRANSACTION;
                if hasAnyVersion arr then Ok (set_deletedVersions (Some arr) v)
                else Ok (set_deletedVersions None v)
            end);
  match deletedVersions v with
  | None => Ok (set_deletionStatus NO_DELETED v)
  | Some _ => Ok v
  end.

(** [VectorVersionInfo::hasDeletions(transaction)].  The loop bound is the size of
    the [std::array] type, so a null array is only touched through [isDeleted]. *)
Definition vvi_hasDeletions (startTS transactionID : Z) (v : VectorVersionInfo) :
    result bool :=
  if isSameDeletionVersion v then
    Ok (bool_decide (sameDeletionVersion v ≤ startTS) ||
        bool_decide (sameDeletionVersion v = transactionID))
  else
    n ← foldM (λ numDeletions i,
                 d ← vvi_isDeleted startTS transactionID i v;
                 Ok (numDeletions + (if (d : bool) then 1 else 0))%nat)
          0%nat (seq 0 CAP);
    Ok (bool_decide (0 < n)%nat).

(** ** All vectors of a chunk *)

Record VersionInfo : Type := mkVersionInfo {
  vectorsInfo : list (option VectorVersionInfo);
}.

Definition newVersionInfo : VersionInfo := {| vectorsInfo := [] |}.

Definition getNumVectors (vi : VersionInfo) : nat := length (vectorsInfo vi).

Definition getVectorVersionInfo (vectorIdx : nat) (vi : VersionInfo) :
    option VectorVersionInfo :=
  match vectorsInfo vi !! vectorIdx with Some o => o | None => None end.

(** [getOrCreateVersionInfo]: the resized container and the vector's info. *)
Definition getOrCreateVersionInfo (vectorIdx : nat) (vi : VersionInfo) :
    VersionInfo * VectorVersionInfo :=
  let infos := if bool_decide (length (vectorsInfo vi) ≤ vectorIdx)%nat
               then vectorsInfo vi ++
                    replicate (vectorIdx + 1 - length (vectorsInfo vi)) None
               else vectorsInfo vi in
  match infos !! vectorIdx with
  | Some (Some v) => ({| vectorsInfo := infos |}, v)
  | _ => ({| vectorsInfo := <[vectorIdx := Some newVectorVersionInfo]> infos |},
           newVectorVersionInfo)
  end.

(** Writing back through the reference [getOrCreateVersionInfo] returned. *)
Definition setVectorVersionInfo (vectorIdx : nat) (v : VectorVersionInfo) (vi : VersionInfo) :
    VersionInfo :=
  {| vectorsInfo := <[vectorIdx := Some v]> (vectorsInfo vi) |}.

(** The part of the row range [startRow, startRow + numRows) that lies in vector
    [vectorIdx]: first row in the vector and number of rows. *)
Definition rangeInVector (startRow numRows vectorIdx : nat) : nat * nat :=
  let startVectorIdx := (startRow / CAP)%nat in
  let startRowIdxInVector := (startRow mod CAP)%nat in
  let endVectorIdx := ((startRow + numRows - 1) / CAP)%nat in
  let endRowIdxInVector := ((startRow + numRows - 1) mod CAP)%nat in
  let startRowIdx := if bool_decide (vectorIdx = startVectorIdx)
                     then startRowIdxInVector else 0%nat in
  let endRowIdx := if bool_decide (vectorIdx = endVectorIdx)
                   then endRowIdxInVector else (CAP - 1)%nat in
  (startRowIdx, endRowIdx - startRowIdx + 1)%nat.

(** The vector indexes the range meets: [startVectorIdx .. endVectorIdx]. *)
Definition vectorsOfRange (startRow numRows : nat) : list nat :=
  let startVectorIdx := (startRow / CAP)%nat in
  let endVectorIdx := ((startRow + numRows - 1) / CAP)%nat in
  seq startVectorIdx (endVectorIdx - startVectorIdx + 1).

(** The loop the five range updates share: each vector the range meets is
    created if needed and updated on its part of the range. *)
Definition updateVectors
    (f : nat → nat → VectorVersionInfo → result VectorVersionInfo)
    (startRow numRows : nat) (vi : VersionInfo) : result VersionInfo :=
  if bool_decide (numRows = 0%nat) then Ok vi
  else
    foldM (λ vi vectorIdx,
             let '(vi, v) := getOrCreateVersionInfo vectorIdx vi in
             let '(startRowIdx, numRowsInVector) :=
               rangeInVector startRow numRows vectorIdx in
             v ← f startRowIdx numRowsInVector v;
             Ok (setVectorVersionInfo vectorIdx v vi))
      vi (vectorsOfRange startRow numRows).

Definition append (transactionID : Z) (startRow numRows : nat) (vi : VersionInfo) :
    result VersionInfo :=
  updateVectors (vvi_append transactionID) startRow numRows vi.

Definition commitInsert (startRow numRows : nat) (commitTS : Z) (vi : VersionInfo) :
    result VersionInfo :=
  updateVectors (setInsertCommitTS commitTS) startRow numRows vi.

Definition rollbackInsert (startRow numRows : nat) (vi : VersionInfo) :
    result VersionInfo :=
  updateVectors rollbackInsertions startRow numRows vi.

Definition commitDelete (startRow numRows : nat) (commitTS : Z) (vi : VersionInfo) :
    result VersionInfo :=
  updateVectors (setDeleteCommitTS commitTS) startRow numRows vi.

Definition rollbackDelete (startRow numRows : nat) (vi : VersionInfo) :
    result VersionInfo :=
  updateVectors rollbackDeletions startRow numRows vi.

(** [VersionInfo::delete_] *)
Definition delete_ (transactionID : Z) (rowIdx : nat) : stM VersionInfo bool :=
  λ vi,
  let vectorIdx := (rowIdx / CAP)%nat in
  let rowIdxInVector := (rowIdx mod CAP)%nat in
  let '(vi, v) := getOrCreateVersionInfo vectorIdx vi in
  let v := if bool_decide (insertionStatus v = NO_INSERTED)
           then set_insertionStatus ALWAYS_INSERTED v else v in
  let '(v, r) := vvi_delete transactionID rowIdxInVector v in
  (setVectorVersionInfo vectorIdx v vi, r).

(** [VersionInfo::isSelected] *)
Definition isSelected (startTS transactionID : Z) (rowIdx : nat) (vi : VersionInfo) :
    result bool :=
  match getVectorVersionInfo (rowIdx / CAP)%nat vi with
  | Some v => vvi_isSelected startTS transactionID (rowIdx mod CAP)%nat v
  | None => Ok true
  end.

Definition isDeleted (startTS transactionID : Z) (rowInChunk : nat) (vi : VersionInfo) :
    result bool :=
  match getVectorVersionInfo (rowInChunk / CAP)%nat vi with
  | Some v => vvi_isDeleted startTS transactionID (rowInChunk mod CAP)%nat v
  | None => Ok false
  end.

Definition isInserted (startTS transactionID : Z) (rowInChunk : nat) (vi : VersionInfo) :
    result bool :=
  match getVectorVersionInfo (rowInChunk / CAP)%nat vi with
  | Some v => vvi_isInserted startTS transactionID (rowInChunk mod CAP)%nat v
  | None => Ok true
  end.

(** One iteration of [getSelVectorToScan]: the state is the selection vector and
    the next output position. *)
Definition selVectorStep (startTS transactionID : Z) (startRow numRows : nat)
    (vi : VersionInfo) (acc : SelectionVector * nat) (vectorIdx : nat) :
    result (SelectionVector * nat) :=
  let '(sv, outputPos) := acc in
  let '(startRowIdx, numRowsInVector) := rangeInVector startRow numRows vectorIdx in
  sv ← match getVectorVersionInfo vectorIdx vi with
       | None =>
           if isUnfiltered sv then Ok (setSelSize (getSelSize sv + numRowsInVector) sv)
           else push_all_rows numRowsInVector outputPos sv
       | Some v =>
           getSelVectorForScan startTS transactionID startRowIdx numRowsInVector outputPos v sv
       end;
  Ok (sv, outputPos + numRowsInVector)%nat.

Definition getSelVectorToScan (startTS transactionID : Z) (startRow numRows : nat)
    (vi : VersionInfo) (sv : SelectionVector) : result SelectionVector :=
  if bool_decide (numRows = 0%nat) then Ok sv
  else
    '(sv, _) ← foldM (selVectorStep startTS transactionID startRow numRows vi)
                 (setToUnfiltered 0 sv, 0%nat) (vectorsOfRange startRow numRows);
    Ok sv.

Definition clearVectorInfo (vectorIdx : nat) (vi : VersionInfo) : result VersionInfo :=
  if decide (vectorIdx < length (vectorsInfo vi))%nat
  then Ok {| vectorsInfo := <[vectorIdx := None]> (vectorsInfo vi) |}
  else UB.

(** [VersionInfo::hasDeletions()] and [hasInsertions()]: is any version unchecked? *)
Definition hasAnyDeletions (vi : VersionInfo) : bool :=
  existsb (λ o, match o with
                | Some v => bool_decide (deletionStatus v = DEL_CHECK_VERSION)
                | None => false end) (vectorsInfo vi).

Definition hasInsertions (vi : VersionInfo) : bool :=
  existsb (λ o, match o with
                | Some v => bool_decide (insertionStatus v = INS_CHECK_VERSION)
                | None => false end) (vectorsInfo vi).

(** [VersionInfo::getNumDeletions(transaction, startRow, numRows)] *)
Definition getNumDeletions (startTS transactionID : Z) (startRow numRows : nat)
    (vi : VersionInfo) : result nat :=
  if bool_decide (numRows = 0%nat) then Ok 0%nat
  else
    let startVector := (startRow / CAP)%nat in
    let endVectorIdx := ((startRow + numRows - 1) / CAP)%nat in
    let endRowInVector := ((startRow + numRows - 1) mod CAP)%nat in
    foldM (λ numDeletions vectorIdx,
             let rowInVector := if bool_decide (vectorIdx = startVector)
                                then (startRow mod CAP)%nat else 0%nat in
             let numRowsInVector := if bool_decide (vectorIdx = endVectorIdx)
                                    then (endRowInVector - rowInVector + 1)%nat
                                    else (CAP - rowInVector)%nat in
             match getVectorVersionInfo vectorIdx vi with
             | Some v =>
                 n ← vvi_getNumDeletions startTS transactionID rowInVector numRowsInVector v;
                 Ok (numDeletions + n)%nat
             | None => Ok numDeletions
             end)
      0%nat (vectorsOfRange startRow numRows).

(** [VersionInfo::hasDeletions(transaction)] *)
Definition hasDeletions (startTS transactionID : Z) (vi : VersionInfo) : result bool :=
  foldM (λ found o,
           if (found : bool) then Ok true
           else match o with
                | Some v => vvi_hasDeletions startTS transactionID v
                | None => Ok false
                end)
    false (vectorsInfo vi).

End VersionInfo.
