(* ===== verification/VersionInfoFacts.v ===== *)
(** * Theorems about row versions

    The abstraction: [ins_version vi r] and [del_version vi r] are the versions a
    reader compares with its timestamps for row [r], whatever representation the
    vector uses.  A vector without version info holds checkpointed rows, inserted
    at timestamp 0 and never deleted. *)

From S2P Require Import Prelude.
From S2P Require Import SelVector.
From S2P Require Import VersionInfo.

Section Facts.
Context `{SystemConfig}.
Local Abbreviation CAP := DEFAULT_VECTOR_CAPACITY.

(** ** Abstraction and invariant *)

Definition vvi_ins (v : VectorVersionInfo) (r : nat) : Z :=
  match insertionStatus v with
  | ALWAYS_INSERTED => DUMMY_START_TIMESTAMP
  | NO_INSERTED => INVALID_TRANSACTION
  | INS_CHECK_VERSION =>
      if isSameInsertionVersion v then sameInsertionVersion v
      else default INVALID_TRANSACTION (insertedVersions v ≫= λ arr, arr !! r)
  end.

Definition vvi_del (v : VectorVersionInfo) (r : nat) : Z :=
  match deletionStatus v with
  | NO_DELETED => INVALID_TRANSACTION
  | DEL_CHECK_VERSION =>
      if isSameDeletionVersion v then sameDeletionVersion v
      else default INVALID_TRANSACTION (deletedVersions v ≫= λ arr, arr !! r)
  end.

Definition ins_version (vi : VersionInfo) (r : nat) : Z :=
  match getVectorVersionInfo (r / CAP)%nat vi with
  | Some v => vvi_ins v (r mod CAP)%nat
  | None => DUMMY_START_TIMESTAMP
  end.

Definition del_version (vi : VersionInfo) (r : nat) : Z :=
  match getVectorVersionInfo (r / CAP)%nat vi with
  | Some v => vvi_del v (r mod CAP)%nat
  | None => INVALID_TRANSACTION
  end.

(** A reader: its snapshot timestamp and its transaction ID. *)
Definition reader_wf (startTS ID : Z) : Prop :=
  0 ≤ startTS < START_TRANSACTION_ID ∧ 0 ≤ ID < INVALID_TRANSACTION.

(** The snapshot rule: own writes, and writes committed before the start. *)
Definition version_visible (startTS ID version : Z) : bool :=
  bool_decide (version = ID) || bool_decide (version ≤ startTS).

Record vvi_wf (v : VectorVersionInfo) : Prop := {
  wf_ins_len : ∀ arr, insertedVersions v = Some arr → length arr = CAP;
  wf_del_len : ∀ arr, deletedVersions v = Some arr → length arr = CAP;
  wf_ins_excl : sameInsertionVersion v ≠ INVALID_TRANSACTION → insertedVersions v = None;
  wf_del_excl : sameDeletionVersion v ≠ INVALID_TRANSACTION → deletedVersions v = None;
  wf_ins_check : insertionStatus v = INS_CHECK_VERSION ↔
    sameInsertionVersion v ≠ INVALID_TRANSACTION ∨ is_Some (insertedVersions v);
  wf_del_check : deletionStatus v = DEL_CHECK_VERSION ↔
    sameDeletionVersion v ≠ INVALID_TRANSACTION ∨ is_Some (deletedVersions v);
}.

Definition vi_wf (vi : VersionInfo) : Prop :=
  ∀ idx v, getVectorVersionInfo idx vi = Some v → vvi_wf v.

(** The invariant is decidable. *)
Definition is_Someb {A} (o : option A) : bool := match o with Some _ => true | None => false end.

Definition vvi_wfb (v : VectorVersionInfo) : bool :=
  forallb (λ o : option (list Z), match o with
                 | Some arr => bool_decide (length arr = CAP)
                 | None => true end) [insertedVersions v; deletedVersions v] &&
  negb (isSameInsertionVersion v && is_Someb (insertedVersions v)) &&
  negb (isSameDeletionVersion v && is_Someb (deletedVersions v)) &&
  Bool.eqb (bool_decide (insertionStatus v = INS_CHECK_VERSION))
    (isSameInsertionVersion v || is_Someb (insertedVersions v)) &&
  Bool.eqb (bool_decide (deletionStatus v = DEL_CHECK_VERSION))
    (isSameDeletionVersion v || is_Someb (deletedVersions v)).

Definition vi_wfb (vi : VersionInfo) : bool :=
  forallb (λ o, match o with Some v => vvi_wfb v | None => true end) (vectorsInfo vi).

Lemma is_Someb_true {A} (o : option A) : is_Someb o = true ↔ is_Some o.
Proof. destruct o; simpl; split; eauto; [done|by intros [? ?]]. Qed.

Lemma status_check_reflect (P : Prop) `{Decision P} (t : Z) {A} (o : option A) :
  Bool.eqb (bool_decide P) (negb (bool_decide (t = INVALID_TRANSACTION)) || is_Someb o) = true →
  P ↔ t ≠ INVALID_TRANSACTION ∨ is_Some o.
Proof.
  rewrite eqb_true_iff. intros E. rewrite <- (bool_decide_eq_true P), E, orb_true_iff, is_Someb_true.
  by rewrite negb_true_iff, bool_decide_eq_false.
Qed.

Lemma vvi_wfb_sound v : vvi_wfb v = true → vvi_wf v.
Proof.
  unfold vvi_wfb, isSameInsertionVersion, isSameDeletionVersion.
  rewrite !andb_true_iff. intros [[[[H1 H2] H3] H4] H5]. simpl in H1.
  rewrite !andb_true_iff in H1. destruct H1 as (Hi & Hd & _).
  constructor.
  - intros arr E. rewrite E in Hi. by apply bool_decide_eq_true in Hi.
  - intros arr E. rewrite E in Hd. by apply bool_decide_eq_true in Hd.
  - intros Hne. rewrite bool_decide_false in H2 by done. by destruct (insertedVersions v).
  - intros Hne. rewrite bool_decide_false in H3 by done. by destruct (deletedVersions v).
  - by eapply status_check_reflect.
  - by eapply status_check_reflect.
Qed.

Lemma vi_wfb_sound vi : vi_wfb vi = true → vi_wf vi.
Proof.
  unfold vi_wfb, vi_wf, getVectorVersionInfo. rewrite forallb_forall. intros Hall idx v E.
  destruct (vectorsInfo vi !! idx) as [o|] eqn:Ei; [|done]. subst o.
  apply vvi_wfb_sound. apply (Hall (Some v)). apply list_elem_of_In.
  by eapply list_elem_of_lookup_2.
Qed.

(** ** The rows of a range, vector by vector *)

Lemma CAP_neq_0 : CAP ≠ 0%nat.
Proof. pose proof DEFAULT_VECTOR_CAPACITY_pos. lia. Qed.

Lemma elem_of_vectorsOfRange start n idx :
  idx ∈ vectorsOfRange start n ↔
  (start / CAP ≤ idx ≤ (start + n - 1) / CAP)%nat ∨
  (idx = start / CAP ∧ n = 0)%nat.
Proof.
  unfold vectorsOfRange. rewrite elem_of_seq.
  pose proof (Nat.Div0.div_le_mono start (start + n - 1) CAP) as D.
  pose proof (Nat.Div0.div_le_mono (start + n - 1) start CAP) as D'.
  destruct (decide (n = 0)%nat).
  - subst. specialize (D' ltac:(lia)).
    split; [|intros [?|[? ?]]; lia]. intros.
    right. split; [|done]. lia.
  - specialize (D ltac:(lia)). lia.
Qed.

Lemma rangeInVector_spec start n idx s k :
  (0 < n)%nat → idx ∈ vectorsOfRange start n → rangeInVector start n idx = (s, k) →
  (s + k ≤ CAP)%nat ∧ (0 < k)%nat ∧
  ∀ i, (i < CAP)%nat → (s ≤ i < s + k)%nat ↔ (start ≤ idx * CAP + i < start + n)%nat.
Proof.
  intros Hn Hidx E. apply elem_of_vectorsOfRange in Hidx as [Hidx|[_ ?]]; [|lia].
  pose proof CAP_neq_0 as HC.
  unfold rangeInVector in E. injection E as <- <-.
  pose proof (Nat.div_mod_eq start CAP) as E1.
  pose proof (Nat.div_mod_eq (start + n - 1) CAP) as E2.
  pose proof (Nat.mod_upper_bound start CAP HC) as B1.
  pose proof (Nat.mod_upper_bound (start + n - 1) CAP HC) as B2.
  set (qs := (start / CAP)%nat) in *. set (rs := (start mod CAP)%nat) in *.
  set (qe := ((start + n - 1) / CAP)%nat) in *. set (re := ((start + n - 1) mod CAP)%nat) in *.
  assert (qs < qe → CAP * qs + CAP ≤ CAP * qe)%nat as M by nia.
  destruct (decide (idx = qs)) as [Eqs|Nqs], (decide (idx = qe)) as [Eqe|Nqe].
  - rewrite !bool_decide_true by done. subst idx. rewrite <- Eqe in *.
    repeat split; intros; lia.
  - rewrite bool_decide_true, bool_decide_false by done. subst idx.
    repeat split; intros; lia.
  - rewrite bool_decide_false, bool_decide_true by done. subst idx.
    repeat split; intros; lia.
  - rewrite !bool_decide_false by done.
    assert (CAP * qs + CAP ≤ CAP * idx)%nat by nia.
    assert (CAP * idx + CAP ≤ CAP * qe)%nat by nia.
    repeat split; intros; lia.
Qed.

(** A row of the range lies in one of its vectors, inside that vector's part. *)
Lemma row_in_range start n r :
  (start ≤ r < start + n)%nat → (r / CAP)%nat ∈ vectorsOfRange start n.
Proof.
  intros Hr. apply elem_of_vectorsOfRange. left.
  split; apply Nat.Div0.div_le_mono; lia.
Qed.

Lemma row_split r : (r / CAP * CAP + r mod CAP = r ∧ r mod CAP < CAP)%nat.
Proof.
  pose proof CAP_neq_0. split; [|by apply Nat.mod_upper_bound].
  pose proof (Nat.div_mod_eq r CAP). lia.
Qed.

Lemma NoDup_vectorsOfRange start n : NoDup (vectorsOfRange start n).
Proof. unfold vectorsOfRange. apply NoDup_seq. Qed.

(** ** The container of vectors *)

Definition getOrNew (idx : nat) (vi : VersionInfo) : VectorVersionInfo :=
  default newVectorVersionInfo (getVectorVersionInfo idx vi).

Lemma getVectorVersionInfo_insert idx jdx o l :
  (idx < length l)%nat →
  getVectorVersionInfo jdx {| vectorsInfo := <[idx := o]> l |} =
  if decide (idx = jdx) then o else getVectorVersionInfo jdx {| vectorsInfo := l |}.
Proof.
  intros Hlt. unfold getVectorVersionInfo. simpl. case_decide; [subst|].
  - by rewrite list_lookup_insert_eq.
  - by rewrite list_lookup_insert_ne.
Qed.

Lemma getVectorVersionInfo_pad jdx l n :
  getVectorVersionInfo jdx {| vectorsInfo := l ++ replicate n None |} =
  getVectorVersionInfo jdx {| vectorsInfo := l |}.
Proof.
  unfold getVectorVersionInfo. simpl. destruct (decide (jdx < length l)%nat).
  - by rewrite lookup_app_l.
  - rewrite lookup_app_r by lia. rewrite (lookup_ge_None_2 l) by lia.
    destruct (replicate n None !! _) eqn:E; [|done].
    apply lookup_replicate in E as [-> _]. done.
Qed.

Lemma getOrCreate_spec idx vi vi' v :
  getOrCreateVersionInfo idx vi = (vi', v) →
  v = getOrNew idx vi ∧ (idx < length (vectorsInfo vi'))%nat ∧
  ∀ jdx, jdx ≠ idx → getVectorVersionInfo jdx vi' = getVectorVersionInfo jdx vi.
Proof.
  unfold getOrCreateVersionInfo. destruct vi as [l]. simpl.
  set (l' := if bool_decide (length l ≤ idx)%nat then _ else _).
  assert (idx < length l')%nat as Hlen.
  { unfold l'. case_bool_decide; [|lia]. rewrite length_app, length_replicate. lia. }
  assert (∀ jdx, getVectorVersionInfo jdx {| vectorsInfo := l' |} =
                 getVectorVersionInfo jdx {| vectorsInfo := l |}) as Hget.
  { intros. unfold l'. case_bool_decide; [apply getVectorVersionInfo_pad|done]. }
  unfold getOrNew. rewrite <- Hget.
  destruct (l' !! idx) as [[w|]|] eqn:E; intros [= <- <-]; simpl.
  - split; [|split; [done|intros; apply Hget]].
    unfold getVectorVersionInfo. simpl. by rewrite E.
  - rewrite length_insert. split; [|split; [done|]].
    + unfold getVectorVersionInfo. simpl. by rewrite E.
    + intros jdx Hne. rewrite getVectorVersionInfo_insert, decide_False by done.
      apply Hget.
  - apply lookup_ge_None in E. lia.
Qed.

Lemma getVectorVersionInfo_set idx jdx v vi :
  (idx < length (vectorsInfo vi))%nat →
  getVectorVersionInfo jdx (setVectorVersionInfo idx v vi) =
  if decide (idx = jdx) then Some v else getVectorVersionInfo jdx vi.
Proof. intros. destruct vi. by apply getVectorVersionInfo_insert. Qed.

(** The range loop, vector by vector: when the body succeeds on every vector the
    range meets, those are the vectors that change. *)
Lemma updateVectors_loop f start n vi (g : nat → VectorVersionInfo) (vs : list nat) :
  NoDup vs →
  (∀ idx, idx ∈ vs →
    f (rangeInVector start n idx).1 (rangeInVector start n idx).2 (getOrNew idx vi) =
    Ok (g idx)) →
  ∃ vi', foldM (λ vi vectorIdx,
             let '(vi, v) := getOrCreateVersionInfo vectorIdx vi in
             let '(startRowIdx, numRowsInVector) := rangeInVector start n vectorIdx in
             v ← f startRowIdx numRowsInVector v;
             Ok (setVectorVersionInfo vectorIdx v vi)) vi vs = Ok vi' ∧
    ∀ idx, getVectorVersionInfo idx vi' =
      if decide (idx ∈ vs) then Some (g idx) else getVectorVersionInfo idx vi.
Proof.
  revert vi. induction vs as [|j vs IH]; intros vi Hnd Hf; cbn [foldM].
  - exists vi. split; [done|]. intros idx. rewrite decide_False; [done|]. apply not_elem_of_nil.
  - apply NoDup_cons in Hnd as [Hj Hnd].
    destruct (getOrCreateVersionInfo j vi) as [vi1 v1] eqn:E1.
    destruct (getOrCreate_spec _ _ _ _ E1) as (-> & Hlen & Hother).
    specialize (Hf j) as Hfj.
    destruct (rangeInVector start n j) as [s k] eqn:Er. simpl in Hfj.
    rewrite Hfj by left. cbn [mbind result_bind].
    set (vi2 := setVectorVersionInfo j (g j) vi1).
    assert (∀ idx, getVectorVersionInfo idx vi2 =
              if decide (j = idx) then Some (g j) else getVectorVersionInfo idx vi) as H2.
    { intros idx. unfold vi2. rewrite getVectorVersionInfo_set by done.
      case_decide; [done|]. by apply Hother. }
    destruct (IH vi2 Hnd) as (vi' & E & Hg).
    { intros idx Hidx. rewrite <- Hf by (by right). f_equal.
      unfold getOrNew. rewrite H2. rewrite decide_False by set_solver. done. }
    exists vi'. split; [done|]. intros idx. rewrite Hg, H2.
    destruct (decide (idx ∈ vs)), (decide (j = idx)), (decide (idx ∈ j :: vs));
      subst; set_solver.
Qed.

Lemma updateVectors_spec f start n vi (g : nat → VectorVersionInfo) :
  (0 < n)%nat →
  (∀ idx, idx ∈ vectorsOfRange start n →
    f (rangeInVector start n idx).1 (rangeInVector start n idx).2 (getOrNew idx vi) =
    Ok (g idx)) →
  ∃ vi', updateVectors f start n vi = Ok vi' ∧
    ∀ idx, getVectorVersionInfo idx vi' =
      if decide (idx ∈ vectorsOfRange start n) then Some (g idx)
      else getVectorVersionInfo idx vi.
Proof.
  intros Hn Hf. unfold updateVectors. rewrite bool_decide_false by lia.
  apply updateVectors_loop; [apply NoDup_vectorsOfRange|done].
Qed.

(** The same, row by row: a relation [R] between the versions of a row before and
    after holds everywhere when it holds on the updated vectors and is reflexive
    elsewhere. *)
Definition row_versions (vi : VersionInfo) (r : nat) : Z * Z :=
  (ins_version vi r, del_version vi r).

Lemma row_versions_vec vi idx i v :
  (i < CAP)%nat → getVectorVersionInfo idx vi = Some v →
  row_versions vi (idx * CAP + i) = (vvi_ins v i, vvi_del v i).
Proof.
  intros Hi E. unfold row_versions, ins_version, del_version.
  rewrite Nat.div_add_l, (Nat.div_small i), Nat.add_0_r by (apply CAP_neq_0 || done).
  rewrite E. rewrite Nat.add_comm, Nat.Div0.mod_add, Nat.mod_small by done. done.
Qed.

Lemma updateVectors_rows f start n vi (R : nat → Z * Z → Z * Z → Prop) :
  (0 < n)%nat → vi_wf vi →
  (∀ r x, (r / CAP)%nat ∉ vectorsOfRange start n → R r x x) →
  (∀ idx s k, idx ∈ vectorsOfRange start n → rangeInVector start n idx = (s, k) →
     (s + k ≤ CAP)%nat → (0 < k)%nat →
     (∀ i, (i < CAP)%nat → (s ≤ i < s + k)%nat ↔ (start ≤ idx * CAP + i < start + n)%nat) →
     ∃ v', f s k (getOrNew idx vi) = Ok v' ∧ vvi_wf v' ∧
       ∀ i, (i < CAP)%nat →
         R (idx * CAP + i)%nat (row_versions vi (idx * CAP + i)) (vvi_ins v' i, vvi_del v' i)) →
  ∃ vi', updateVectors f start n vi = Ok vi' ∧ vi_wf vi' ∧
    ∀ r, R r (row_versions vi r) (row_versions vi' r).
Proof.
  intros Hn Hwf Hrefl Hf.
  set (g idx := match f (rangeInVector start n idx).1 (rangeInVector start n idx).2
                        (getOrNew idx vi) with
                Ok v => v | _ => newVectorVersionInfo end).
  assert (∀ idx, idx ∈ vectorsOfRange start n →
    f (rangeInVector start n idx).1 (rangeInVector start n idx).2 (getOrNew idx vi) =
      Ok (g idx) ∧ vvi_wf (g idx) ∧ ∀ i, (i < CAP)%nat →
      R (idx * CAP + i)%nat (row_versions vi (idx * CAP + i))
        (vvi_ins (g idx) i, vvi_del (g idx) i)) as Hg.
  { intros idx Hidx. destruct (rangeInVector start n idx) as [s k] eqn:Er.
    destruct (rangeInVector_spec _ _ _ _ _ Hn Hidx Er) as (Hle & Hk & Hiff).
    destruct (Hf idx s k Hidx Er Hle Hk Hiff) as (v' & E & Hv & HR).
    unfold g. rewrite Er. simpl. rewrite E. done. }
  destruct (updateVectors_spec f start n vi g Hn) as (vi' & E & Hget).
  { intros idx Hidx. by apply Hg. }
  exists vi'. split; [done|]. split.
  - intros idx v. rewrite Hget. case_decide as Hin.
    + intros [= <-]. by apply Hg.
    + apply Hwf.
  - intros r. destruct (row_split r) as [Er Hr]. specialize (Hget (r / CAP)%nat).
    case_decide as Hin.
    + rewrite <- Er at 1 2 3. rewrite (row_versions_vec vi' _ _ _ Hr Hget).
      by apply Hg.
    + unfold row_versions at 2. unfold ins_version, del_version. rewrite Hget.
      by apply Hrefl.
Qed.

(** ** Vector operations, against the abstraction *)

Lemma isSameInsertionVersion_true v :
  isSameInsertionVersion v = true ↔ sameInsertionVersion v ≠ INVALID_TRANSACTION.
Proof. unfold isSameInsertionVersion. case_bool_decide; simpl; naive_solver. Qed.
Lemma isSameDeletionVersion_true v :
  isSameDeletionVersion v = true ↔ sameDeletionVersion v ≠ INVALID_TRANSACTION.
Proof. unfold isSameDeletionVersion. case_bool_decide; simpl; naive_solver. Qed.
Lemma isSameInsertionVersion_false v :
  isSameInsertionVersion v = false ↔ sameInsertionVersion v = INVALID_TRANSACTION.
Proof. unfold isSameInsertionVersion. case_bool_decide; simpl; naive_solver. Qed.
Lemma isSameDeletionVersion_false v :
  isSameDeletionVersion v = false ↔ sameDeletionVersion v = INVALID_TRANSACTION.
Proof. unfold isSameDeletionVersion. case_bool_decide; simpl; naive_solver. Qed.

Lemma vvi_wf_new : vvi_wf newVectorVersionInfo.
Proof.
  constructor; simpl; try done.
  - split; [done|]. intros [?|[? ?]]; done.
  - split; [done|]. intros [?|[? ?]]; done.
Qed.

Lemma vvi_wf_getOrNew idx vi : vi_wf vi → vvi_wf (getOrNew idx vi).
Proof.
  intros Hwf. unfold getOrNew. destruct (getVectorVersionInfo idx vi) eqn:E; simpl.
  - by eapply Hwf.
  - apply vvi_wf_new.
Qed.

Lemma version_visible_invalid st id :
  reader_wf st id → version_visible st id INVALID_TRANSACTION = false.
Proof.
  unfold reader_wf, version_visible, INVALID_TRANSACTION, UINT64_MAX, START_TRANSACTION_ID.
  intros [? ?]. rewrite !bool_decide_false by lia. done.
Qed.

Lemma version_visible_start st id :
  reader_wf st id → version_visible st id DUMMY_START_TIMESTAMP = true.
Proof.
  unfold reader_wf, version_visible, DUMMY_START_TIMESTAMP. intros [? ?].
  rewrite (bool_decide_true (0 ≤ st)) by lia. apply orb_true_r.
Qed.

Lemma vvi_isInserted_ok st id r v :
  vvi_wf v → reader_wf st id → (r < CAP)%nat →
  vvi_isInserted st id r v = Ok (version_visible st id (vvi_ins v r)).
Proof.
  intros Hwf Hr Hlt. unfold vvi_isInserted, vvi_ins. destruct (insertionStatus v) eqn:E.
  - by rewrite version_visible_invalid.
  - destruct (isSameInsertionVersion v) eqn:Es; [done|].
    apply isSameInsertionVersion_false in Es.
    apply (wf_ins_check _ Hwf) in E as [?|[arr Harr]]; [done|]. rewrite Harr. simpl.
    destruct (lookup_lt_is_Some_2 arr r) as [x Ex].
    { by rewrite (wf_ins_len _ Hwf arr Harr). }
    by rewrite Ex.
  - by rewrite version_visible_start.
Qed.

Lemma vvi_isDeleted_ok st id r v :
  vvi_wf v → reader_wf st id → (r < CAP)%nat →
  vvi_isDeleted st id r v = Ok (version_visible st id (vvi_del v r)).
Proof.
  intros Hwf Hr Hlt. unfold vvi_isDeleted, vvi_del. destruct (deletionStatus v) eqn:E.
  - by rewrite version_visible_invalid.
  - destruct (isSameDeletionVersion v) eqn:Es; [done|].
    apply isSameDeletionVersion_false in Es.
    apply (wf_del_check _ Hwf) in E as [?|[arr Harr]]; [done|]. rewrite Harr. simpl.
    destruct (lookup_lt_is_Some_2 arr r) as [x Ex].
    { by rewrite (wf_del_len _ Hwf arr Harr). }
    by rewrite Ex.
Qed.

(** Whether a row is in a reader's snapshot. *)
Definition row_visible (st id : Z) (vi : VersionInfo) (r : nat) : bool :=
  version_visible st id (ins_version vi r) && negb (version_visible st id (del_version vi r)).

Lemma vvi_isSelected_ok st id r v :
  vvi_wf v → reader_wf st id → (r < CAP)%nat →
  vvi_isSelected st id r v =
  Ok (version_visible st id (vvi_ins v r) && negb (version_visible st id (vvi_del v r))).
Proof.
  intros Hwf Hr Hlt. unfold vvi_isSelected.
  case_bool_decide as Ed; simpl; [case_bool_decide as Ei; simpl|].
  - unfold vvi_ins, vvi_del. rewrite Ed, Ei.
    by rewrite version_visible_start, version_visible_invalid.
  - case_bool_decide as En.
    + unfold vvi_ins. rewrite En. by rewrite version_visible_invalid.
    + rewrite vvi_isInserted_ok by done. simpl.
      destruct (version_visible st id (vvi_ins v r)); [|done].
      by rewrite vvi_isDeleted_ok.
  - case_bool_decide as En.
    + unfold vvi_ins. rewrite En. by rewrite version_visible_invalid.
    + rewrite vvi_isInserted_ok by done. simpl.
      destruct (version_visible st id (vvi_ins v r)); [|done].
      by rewrite vvi_isDeleted_ok.
Qed.
End Facts.
