(* ===== verification/VersionInfoOps.v ===== *)
(** * Inserting, deleting, committing and rolling back row versions

    What each update of a [VersionInfo] does to the versions readers see, first
    for one vector, then for a range of rows over several vectors, then for a
    whole transaction.  The snapshot theorems are at the end of the file. *)

From S2P Require Import Prelude.
From S2P Require Import SelVector.
From S2P Require Import VersionInfo.
From S2P Require Import VersionInfoFacts.

(** The invariant of an updated vector, field by field: most fields are those of
    the old vector. *)
Ltac solve_wf Hwf :=
  constructor; simpl;
  try first [ exact (wf_ins_len _ Hwf) | exact (wf_del_len _ Hwf)
            | exact (wf_ins_excl _ Hwf) | exact (wf_del_excl _ Hwf)
            | exact (wf_ins_check _ Hwf) | exact (wf_del_check _ Hwf)
            | solve [ intros; congruence
                    | intros; apply (wf_ins_excl _ Hwf); congruence
                    | intros; apply (wf_del_excl _ Hwf); congruence
                    | split; [intros _; first [left; congruence | right; eauto; fail] | intros _; congruence] ] ].

Section Ops.
Context `{SystemConfig}.
Local Abbreviation CAP := DEFAULT_VECTOR_CAPACITY.

(** A version a running transaction or a commit can write. *)
Definition proper_version (t : Z) : Prop := t ≠ INVALID_TRANSACTION ∧ t ≠ DUMMY_START_TIMESTAMP.

(** ** Reading a vector's version off its representation *)

Lemma vvi_ins_same v i :
  insertionStatus v = INS_CHECK_VERSION → sameInsertionVersion v ≠ INVALID_TRANSACTION →
  vvi_ins v i = sameInsertionVersion v.
Proof.
  intros E Hs. unfold vvi_ins. rewrite E. by rewrite (proj2 (isSameInsertionVersion_true v) Hs).
Qed.

Lemma vvi_ins_arr v arr i :
  insertionStatus v = INS_CHECK_VERSION → sameInsertionVersion v = INVALID_TRANSACTION →
  insertedVersions v = Some arr →
  vvi_ins v i = default INVALID_TRANSACTION (arr !! i).
Proof.
  intros E Hs Ha. unfold vvi_ins. rewrite E.
  rewrite (proj2 (isSameInsertionVersion_false v) Hs). by rewrite Ha.
Qed.

Lemma vvi_del_same v i :
  deletionStatus v = DEL_CHECK_VERSION → sameDeletionVersion v ≠ INVALID_TRANSACTION →
  vvi_del v i = sameDeletionVersion v.
Proof.
  intros E Hs. unfold vvi_del. rewrite E. by rewrite (proj2 (isSameDeletionVersion_true v) Hs).
Qed.

Lemma vvi_del_arr v arr i :
  deletionStatus v = DEL_CHECK_VERSION → sameDeletionVersion v = INVALID_TRANSACTION →
  deletedVersions v = Some arr →
  vvi_del v i = default INVALID_TRANSACTION (arr !! i).
Proof.
  intros E Hs Ha. unfold vvi_del. rewrite E.
  rewrite (proj2 (isSameDeletionVersion_false v) Hs). by rewrite Ha.
Qed.

(** A proper insert version means the vector checks versions. *)
Lemma vvi_ins_proper v i t :
  vvi_ins v i = t → proper_version t → insertionStatus v = INS_CHECK_VERSION.
Proof.
  unfold vvi_ins, proper_version, DUMMY_START_TIMESTAMP.
  destruct (insertionStatus v); [|done|]; intros <- [? ?]; done.
Qed.

Lemma vvi_del_valid v i t :
  vvi_del v i = t → t ≠ INVALID_TRANSACTION → deletionStatus v = DEL_CHECK_VERSION.
Proof. unfold vvi_del. destruct (deletionStatus v); congruence. Qed.

Lemma fill_lookup (arr arr' : list Z) s k x i :
  array_fill arr s k x = Ok arr' →
  default INVALID_TRANSACTION (arr' !! i) =
  if decide (s ≤ i < s + k)%nat then x else default INVALID_TRANSACTION (arr !! i).
Proof. intros E. rewrite (array_fill_lookup _ _ _ _ _ _ E). by case_decide. Qed.

(** ** One vector *)

Lemma vvi_append_spec tx s k v :
  vvi_wf v → tx ≠ INVALID_TRANSACTION → (s + k ≤ CAP)%nat →
  (s = 0%nat ∨ insertionStatus v = INS_CHECK_VERSION) →
  ∃ v', vvi_append tx s k v = Ok v' ∧ vvi_wf v' ∧
    (∀ i, (i < s)%nat → vvi_ins v' i = vvi_ins v i) ∧
    (∀ i, (s ≤ i < s + k)%nat → vvi_ins v' i = tx) ∧
    (∀ i, vvi_del v' i = vvi_del v i).
Proof.
  intros Hwf Htx Hle Hs. unfold vvi_append. simpl.
  case_bool_decide as Esame.
  { exists (set_insertionStatus INS_CHECK_VERSION v). split; [done|].
    assert (insertionStatus v = INS_CHECK_VERSION) as Ec.
    { apply (wf_ins_check _ Hwf). left. congruence. }
    split_and!; [solve_wf Hwf| | |done].
    - intros i Hi. rewrite !vvi_ins_same by (simpl; congruence). done.
    - intros i Hi. rewrite vvi_ins_same by (simpl; congruence). done. }
  destruct (isSameInsertionVersion (set_insertionStatus INS_CHECK_VERSION v)) eqn:Ei;
    simpl.
  - (* the whole vector had another version: the array is allocated *)
    apply isSameInsertionVersion_true in Ei. simpl in Ei.
    rewrite (wf_ins_excl _ Hwf Ei). simpl.
    assert (insertionStatus v = INS_CHECK_VERSION) as Ec.
    { apply (wf_ins_check _ Hwf). by left. }
    destruct (array_fill_ok (replicate CAP INVALID_TRANSACTION) 0 s
      (sameInsertionVersion v)) as [a1 E1]; [rewrite length_replicate; lia|].
    rewrite E1. simpl. pose proof (array_fill_length _ _ _ _ _ E1) as L1.
    rewrite length_replicate in L1.
    destruct (array_fill_ok a1 s k tx) as [a2 E2]; [lia|]. rewrite E2. simpl.
    pose proof (array_fill_length _ _ _ _ _ E2) as L2.
    eexists. split; [done|]. split_and!; [| | |done].
    + solve_wf Hwf.
    + intros i Hi. rewrite (vvi_ins_arr _ a2) by done.
      rewrite (fill_lookup _ _ _ _ _ _ E2), decide_False by lia.
      rewrite (fill_lookup _ _ _ _ _ _ E1), decide_True by lia.
      by rewrite vvi_ins_same.
    + intros i Hi. rewrite (vvi_ins_arr _ a2) by done.
      by rewrite (fill_lookup _ _ _ _ _ _ E2), decide_True by lia.
  - apply isSameInsertionVersion_false in Ei. simpl in Ei.
    case_bool_decide as En.
    + (* nothing inserted yet *)
      eexists. split; [done|].
      assert (s = 0%nat) as ->.
      { destruct Hs as [?|Hc]; [done|]. apply (wf_ins_check _ Hwf) in Hc as [?|[? ?]]; congruence. }
      split_and!; [solve_wf Hwf|intros; lia| |done].
      intros i Hi. by rewrite vvi_ins_same.
    + destruct (insertedVersions v) as [arr|] eqn:Ea; [|done]. simpl. rewrite Ea. simpl.
      destruct (array_fill_ok arr s k tx) as [a2 E2].
      { by rewrite (wf_ins_len _ Hwf _ Ea). }
      rewrite E2. simpl. pose proof (array_fill_length _ _ _ _ _ E2) as L2.
      assert (insertionStatus v = INS_CHECK_VERSION) as Ec.
      { apply (wf_ins_check _ Hwf). right. rewrite Ea. eauto. }
      eexists. split; [done|]. split_and!; [| | |done].
      * solve_wf Hwf. intros ? [= <-]. rewrite L2. by apply (wf_ins_len _ Hwf).
      * intros i Hi. rewrite (vvi_ins_arr _ a2), (vvi_ins_arr _ arr) by done.
        by rewrite (fill_lookup _ _ _ _ _ _ E2), decide_False by lia.
      * intros i Hi. rewrite (vvi_ins_arr _ a2) by done.
        by rewrite (fill_lookup _ _ _ _ _ _ E2), decide_True by lia.
Qed.

(** Committing insertions: the rows of the run had version [tx] (or already [ts],
    when an earlier record of the transaction covered the vector). *)
Lemma setInsertCommitTS_spec tx ts s k v :
  vvi_wf v → proper_version tx → proper_version ts → (s + k ≤ CAP)%nat → (0 < k)%nat →
  (∀ i, (s ≤ i < s + k)%nat → vvi_ins v i = tx ∨ vvi_ins v i = ts) →
  ∃ v', setInsertCommitTS ts s k v = Ok v' ∧ vvi_wf v' ∧
    (∀ i, (s ≤ i < s + k)%nat → vvi_ins v' i = ts) ∧
    (∀ i, vvi_ins v' i = vvi_ins v i ∨ vvi_ins v i = tx ∧ vvi_ins v' i = ts ∨
          (s ≤ i < s + k)%nat) ∧
    (∀ i, vvi_del v' i = vvi_del v i).
Proof.
  intros Hwf Htx Hts Hle Hk Hrange.
  assert (insertionStatus v = INS_CHECK_VERSION) as Ec.
  { destruct (Hrange s) as [E|E]; [lia|..]; by eapply vvi_ins_proper. }
  unfold setInsertCommitTS. destruct (isSameInsertionVersion v) eqn:Es.
  - apply isSameInsertionVersion_true in Es.
    eexists. split; [done|]. destruct Hts as [Hts ?].
    assert (sameInsertionVersion v = tx ∨ sameInsertionVersion v = ts) as Hv.
    { rewrite <- (vvi_ins_same v s Ec Es). apply Hrange. lia. }
    split_and!; [solve_wf Hwf| | |done].
    + intros i Hi. by rewrite vvi_ins_same.
    + intros i. rewrite (vvi_ins_same v), vvi_ins_same by done. simpl. naive_solver.
  - apply isSameInsertionVersion_false in Es.
    destruct (proj1 (wf_ins_check _ Hwf) Ec) as [?|[arr Ea]]; [done|]. rewrite Ea. simpl.
    destruct (array_fill_ok arr s k ts) as [a E]; [by rewrite (wf_ins_len _ Hwf _ Ea)|].
    rewrite E. simpl. pose proof (array_fill_length _ _ _ _ _ E) as L.
    eexists. split; [done|]. split_and!; [| | |done].
    + solve_wf Hwf. intros ? [= <-]. rewrite L. by apply (wf_ins_len _ Hwf).
    + intros i Hi. rewrite (vvi_ins_arr _ a) by done.
      by rewrite (fill_lookup _ _ _ _ _ _ E), decide_True.
    + intros i. destruct (decide (s ≤ i < s + k)%nat); [by right; right|left].
      rewrite (vvi_ins_arr _ a), (vvi_ins_arr v arr) by done.
      by rewrite (fill_lookup _ _ _ _ _ _ E), decide_False.
Qed.

Lemma setDeleteCommitTS_spec tx ts s k v :
  vvi_wf v → proper_version tx → proper_version ts → (s + k ≤ CAP)%nat → (0 < k)%nat →
  (∀ i, (s ≤ i < s + k)%nat → vvi_del v i = tx ∨ vvi_del v i = ts) →
  ∃ v', setDeleteCommitTS ts s k v = Ok v' ∧ vvi_wf v' ∧
    (∀ i, (s ≤ i < s + k)%nat → vvi_del v' i = ts) ∧
    (∀ i, vvi_del v' i = vvi_del v i ∨ vvi_del v i = tx ∧ vvi_del v' i = ts ∨
          (s ≤ i < s + k)%nat) ∧
    (∀ i, vvi_ins v' i = vvi_ins v i).
Proof.
  intros Hwf [Htx ?] [Hts ?] Hle Hk Hrange.
  assert (deletionStatus v = DEL_CHECK_VERSION) as Ec.
  { destruct (Hrange s) as [E|E]; [lia|..]; by eapply vvi_del_valid. }
  unfold setDeleteCommitTS. destruct (isSameDeletionVersion v) eqn:Es.
  - apply isSameDeletionVersion_true in Es.
    eexists. split; [done|].
    assert (sameDeletionVersion v = tx ∨ sameDeletionVersion v = ts) as Hv.
    { rewrite <- (vvi_del_same v s Ec Es). apply Hrange. lia. }
    split_and!; [solve_wf Hwf| | |done].
    + intros i Hi. by rewrite vvi_del_same.
    + intros i. rewrite (vvi_del_same v), vvi_del_same by done. simpl. naive_solver.
  - apply isSameDeletionVersion_false in Es.
    destruct (proj1 (wf_del_check _ Hwf) Ec) as [?|[arr Ea]]; [done|]. rewrite Ea. simpl.
    destruct (array_fill_ok arr s k ts) as [a E]; [by rewrite (wf_del_len _ Hwf _ Ea)|].
    rewrite E. simpl. pose proof (array_fill_length _ _ _ _ _ E) as L.
    eexists. split; [done|]. split_and!; [| | |done].
    + solve_wf Hwf. intros ? [= <-]. rewrite L. by apply (wf_del_len _ Hwf).
    + intros i Hi. rewrite (vvi_del_arr _ a) by done.
      by rewrite (fill_lookup _ _ _ _ _ _ E), decide_True.
    + intros i. destruct (decide (s ≤ i < s + k)%nat); [by right; right|left].
      rewrite (vvi_del_arr _ a), (vvi_del_arr v arr) by done.
      by rewrite (fill_lookup _ _ _ _ _ _ E), decide_False.
Qed.

Lemma hasAnyVersion_false arr i :
  hasAnyVersion arr = false → default INVALID_TRANSACTION (arr !! i) = INVALID_TRANSACTION.
Proof.
  intros E. destruct (arr !! i) as [x|] eqn:Ei; [|done]. simpl.
  destruct (decide (x = INVALID_TRANSACTION)); [done|]. exfalso.
  apply Bool.not_true_iff_false in E. apply E. unfold hasAnyVersion.
  apply existsb_exists. exists x. split.
  - apply list_elem_of_In. by eapply list_elem_of_lookup_2.
  - by rewrite bool_decide_false.
Qed.

(** Rolling back insertions.  When the vector is left with no insertion its status
    bytes are reset, so it must have no pending deletion then. *)
Lemma rollbackInsertions_spec tx s k v :
  vvi_wf v → proper_version tx → (s + k ≤ CAP)%nat → (0 < k)%nat →
  (∀ i, (s ≤ i < s + k)%nat → vvi_ins v i = tx ∨ vvi_ins v i = INVALID_TRANSACTION) →
  (deletionStatus v = NO_DELETED ∨
   ∃ i, ¬ (s ≤ i < s + k)%nat ∧ vvi_ins v i ≠ tx ∧ vvi_ins v i ≠ INVALID_TRANSACTION) →
  ∃ v', rollbackInsertions s k v = Ok v' ∧ vvi_wf v' ∧
    (∀ i, (s ≤ i < s + k)%nat → vvi_ins v' i = INVALID_TRANSACTION) ∧
    (∀ i, vvi_ins v' i = vvi_ins v i ∨
          vvi_ins v i = tx ∧ vvi_ins v' i = INVALID_TRANSACTION ∨ (s ≤ i < s + k)%nat) ∧
    (∀ i, vvi_del v' i = vvi_del v i).
Proof.
  intros Hwf Htx Hle Hk Hrange Hclean.
  assert (insertionStatus v ≠ ALWAYS_INSERTED) as Ena.
  { intros E. destruct (Hrange s) as [Er|Er]; [lia|..]; unfold vvi_ins in Er; rewrite E in Er;
      [|done]. by destruct Htx. }
  unfold rollbackInsertions. destruct (isSameInsertionVersion v) eqn:Es.
  - (* one version for the whole vector *)
    apply isSameInsertionVersion_true in Es. simpl.
    rewrite (wf_ins_excl _ Hwf Es).
    assert (insertionStatus v = INS_CHECK_VERSION) as Ec by (apply (wf_ins_check _ Hwf); by left).
    assert (sameInsertionVersion v = tx) as Hv.
    { rewrite <- (vvi_ins_same v s Ec Es). destruct (Hrange s) as [?|E]; [lia|done|].
      by rewrite (vvi_ins_same v s Ec Es) in E. }
    assert (deletionStatus v = NO_DELETED) as Ed.
    { destruct Hclean as [?|(i & _ & Hne & _)]; [done|]. by rewrite (vvi_ins_same v i Ec Es) in Hne. }
    eexists. split; [done|]. split_and!.
    + solve_wf Hwf; simpl; rewrite ?(wf_ins_excl _ Hwf Es).
      * split; [done|]. by intros [?|[? ?]].
      * rewrite <- Ed. apply (wf_del_check _ Hwf).
    + done.
    + intros i. right; left. by rewrite vvi_ins_same.
    + intros i. unfold vvi_del. simpl. by rewrite Ed.
  - apply isSameInsertionVersion_false in Es.
    destruct (insertedVersions v) as [arr|] eqn:Ea; simpl.
    + assert (insertionStatus v = INS_CHECK_VERSION) as Ec.
      { apply (wf_ins_check _ Hwf). right. by rewrite Ea. }
      destruct (array_fill_ok arr s k INVALID_TRANSACTION) as [a E];
        [by rewrite (wf_ins_len _ Hwf _ Ea)|].
      rewrite E. simpl. pose proof (array_fill_length _ _ _ _ _ E) as L.
      assert (∀ i, ¬ (s ≤ i < s + k)%nat →
        default INVALID_TRANSACTION (a !! i) = vvi_ins v i) as Hout.
      { intros i Hi. rewrite (vvi_ins_arr v arr) by done.
        by rewrite (fill_lookup _ _ _ _ _ _ E), decide_False. }
      destruct (hasAnyVersion a) eqn:Eany; simpl.
      * eexists. split; [done|]. split_and!; [| | |done].
        -- solve_wf Hwf. intros ? [= <-]. rewrite L. by apply (wf_ins_len _ Hwf).
        -- intros i Hi. rewrite (vvi_ins_arr _ a) by done.
           by rewrite (fill_lookup _ _ _ _ _ _ E), decide_True.
        -- intros i. destruct (decide (s ≤ i < s + k)%nat); [by right; right|left].
           rewrite (vvi_ins_arr _ a) by done. by apply Hout.
      * assert (deletionStatus v = NO_DELETED) as Ed.
        { destruct Hclean as [?|(i & Hi & _ & Hne)]; [done|]. exfalso. apply Hne.
          rewrite <- Hout by done. by apply hasAnyVersion_false. }
        eexists. split; [done|]. split_and!.
        -- solve_wf Hwf; simpl; [rewrite Es; split; [done|by intros [?|[? ?]]]|].
           rewrite <- Ed. apply (wf_del_check _ Hwf).
        -- done.
        -- intros i. destruct (decide (s ≤ i < s + k)%nat) as [?|Hi]; [by right; right|left].
           rewrite <- Hout by done. by rewrite hasAnyVersion_false.
        -- intros i. unfold vvi_del. simpl. by rewrite Ed.
    + rewrite Ea. assert (insertionStatus v = NO_INSERTED) as En.
      { destruct (insertionStatus v) eqn:E; [done| |done].
        apply (wf_ins_check _ Hwf) in E as [?|[? ?]]; congruence. }
      assert (deletionStatus v = NO_DELETED) as Ed.
      { destruct Hclean as [?|(i & _ & _ & Hne)]; [done|]. unfold vvi_ins in Hne.
        by rewrite En in Hne. }
      eexists. split; [done|]. split_and!.
      * destruct Hwf. constructor; simpl; try done.
        -- rewrite Ea, Es. split; [done|by intros [?|[? ?]]].
        -- by rewrite <- Ed.
      * done.
      * intros i. left. unfold vvi_ins. simpl. by rewrite En.
      * intros i. unfold vvi_del. simpl. by rewrite Ed.
Qed.

Lemma rollbackDeletions_spec tx s k v :
  vvi_wf v → tx ≠ INVALID_TRANSACTION → (s + k ≤ CAP)%nat → (0 < k)%nat →
  (∀ i, (s ≤ i < s + k)%nat → vvi_del v i = tx ∨ vvi_del v i = INVALID_TRANSACTION) →
  ∃ v', rollbackDeletions s k v = Ok v' ∧ vvi_wf v' ∧
    (∀ i, (s ≤ i < s + k)%nat → vvi_del v' i = INVALID_TRANSACTION) ∧
    (∀ i, vvi_del v' i = vvi_del v i ∨
          vvi_del v i = tx ∧ vvi_del v' i = INVALID_TRANSACTION ∨ (s ≤ i < s + k)%nat) ∧
    (∀ i, vvi_ins v' i = vvi_ins v i).
Proof.
  intros Hwf Htx Hle Hk Hrange.
  unfold rollbackDeletions. destruct (isSameDeletionVersion v) eqn:Es.
  - apply isSameDeletionVersion_true in Es. simpl.
    rewrite (wf_del_excl _ Hwf Es).
    assert (deletionStatus v = DEL_CHECK_VERSION) as Ec by (apply (wf_del_check _ Hwf); by left).
    assert (sameDeletionVersion v = tx) as Hv.
    { rewrite <- (vvi_del_same v s Ec Es). destruct (Hrange s) as [?|E]; [lia|done|].
      by rewrite (vvi_del_same v s Ec Es) in E. }
    eexists. split; [done|]. split_and!; [| | |done].
    + solve_wf Hwf. simpl. rewrite (wf_del_excl _ Hwf Es). split; [done|by intros [?|[? ?]]].
    + done.
    + intros i. right; left. by rewrite vvi_del_same.
  - apply isSameDeletionVersion_false in Es.
    destruct (deletedVersions v) as [arr|] eqn:Ea; simpl.
    + assert (deletionStatus v = DEL_CHECK_VERSION) as Ec.
      { apply (wf_del_check _ Hwf). right. by rewrite Ea. }
      destruct (array_fill_ok arr s k INVALID_TRANSACTION) as [a E];
        [by rewrite (wf_del_len _ Hwf _ Ea)|].
      rewrite E. simpl. pose proof (array_fill_length _ _ _ _ _ E) as L.
      assert (∀ i, ¬ (s ≤ i < s + k)%nat →
        default INVALID_TRANSACTION (a !! i) = vvi_del v i) as Hout.
      { intros i Hi. rewrite (vvi_del_arr v arr) by done.
        by rewrite (fill_lookup _ _ _ _ _ _ E), decide_False. }
      destruct (hasAnyVersion a) eqn:Eany; simpl.
      * eexists. split; [done|]. split_and!; [| | |done].
        -- solve_wf Hwf. intros ? [= <-]. rewrite L. by apply (wf_del_len _ Hwf).
        -- intros i Hi. rewrite (vvi_del_arr _ a) by done.
           by rewrite (fill_lookup _ _ _ _ _ _ E), decide_True.
        -- intros i. destruct (decide (s ≤ i < s + k)%nat); [by right; right|left].
           rewrite (vvi_del_arr _ a) by done. by apply Hout.
      * eexists. split; [done|]. split_and!; [| | |done].
        -- solve_wf Hwf. simpl. rewrite Es. split; [done|by intros [?|[? ?]]].
        -- done.
        -- intros i. destruct (decide (s ≤ i < s + k)%nat) as [?|Hi]; [by right; right|left].
           rewrite <- Hout by done. by rewrite hasAnyVersion_false.
    + rewrite Ea. assert (deletionStatus v = NO_DELETED) as En.
      { destruct (deletionStatus v) eqn:E; [done|].
        apply (wf_del_check _ Hwf) in E as [?|[? ?]]; congruence. }
      eexists. split; [done|]. split_and!; [| | |done].
      * solve_wf Hwf. simpl. rewrite Ea, Es. split; [done|by intros [?|[? ?]]].
      * done.
      * intros i. left. unfold vvi_del. simpl. by rewrite En.
Qed.
(** Deleting a row.  [delete_prepared] is the vector once the status byte is set and
    the array allocated: it still reads as the old one. *)
Definition delete_prepared (v : VectorVersionInfo) : VectorVersionInfo :=
  match deletedVersions v with
  | Some _ => set_deletionStatus DEL_CHECK_VERSION v
  | None => initDeletionVersionArray (set_deletionStatus DEL_CHECK_VERSION v)
  end.

Lemma delete_prepared_spec v :
  vvi_wf v → sameDeletionVersion v = INVALID_TRANSACTION →
  vvi_wf (delete_prepared v) ∧
  (∀ i, vvi_ins (delete_prepared v) i = vvi_ins v i) ∧
  deletionStatus (delete_prepared v) = DEL_CHECK_VERSION ∧
  sameDeletionVersion (delete_prepared v) = INVALID_TRANSACTION ∧
  ∃ arr, length arr = CAP ∧ deletedVersions (delete_prepared v) = Some arr ∧
    ∀ i, default INVALID_TRANSACTION (arr !! i) = vvi_del v i.
Proof.
  intros Hwf Es. unfold delete_prepared. destruct (deletedVersions v) as [arr|] eqn:Ea.
  - assert (deletionStatus v = DEL_CHECK_VERSION) as Ec.
    { apply (wf_del_check _ Hwf). right. rewrite Ea. eauto. }
    split_and!; [solve_wf Hwf|done..|].
    exists arr. split_and!; [by apply (wf_del_len _ Hwf)|done|].
    intros i. by rewrite (vvi_del_arr v arr).
  - assert (deletionStatus v = NO_DELETED) as En.
    { destruct (deletionStatus v) eqn:E; [done|].
      apply (wf_del_check _ Hwf) in E as [?|[? ?]]; congruence. }
    split_and!; [solve_wf Hwf|done..|].
    + intros ? [= <-]. apply length_replicate.
    + exists (replicate CAP INVALID_TRANSACTION).
      split_and!; [apply length_replicate|done|].
      intros i. unfold vvi_del. rewrite En.
      destruct (replicate _ _ !! i) eqn:E; [|done].
      by apply lookup_replicate in E as [-> _].
Qed.

(** The three outcomes of [delete_] on a row, by the row's deletion version. *)
Definition delete_outcome (tx d : Z) : result bool :=
  if decide (d = INVALID_TRANSACTION) then Ok true
  else if decide (d = tx) then Ok false
  else throw RuntimeException write_write_conflict.

Lemma vvi_delete_same tx r v :
  vvi_wf v → tx ≠ INVALID_TRANSACTION → sameDeletionVersion v ≠ INVALID_TRANSACTION →
  vvi_delete tx r v = (v, delete_outcome tx (vvi_del v r)).
Proof.
  intros Hwf Htx Es.
  assert (deletionStatus v = DEL_CHECK_VERSION) as Ec by (apply (wf_del_check _ Hwf); by left).
  assert (set_deletionStatus DEL_CHECK_VERSION v = v) as Ev by (rewrite <- Ec; by destruct v).
  unfold vvi_delete, delete_outcome. rewrite Ev, vvi_del_same by done.
  rewrite (proj2 (isSameDeletionVersion_true v) Es).
  case_bool_decide; [rewrite decide_False, decide_True by congruence; done|].
  by rewrite !decide_False by congruence.
Qed.

Lemma vvi_delete_spec tx r v :
  vvi_wf v → tx ≠ INVALID_TRANSACTION → (r < CAP)%nat →
  ∃ v', vvi_delete tx r v = (v', delete_outcome tx (vvi_del v r)) ∧ vvi_wf v' ∧
    (∀ i, vvi_ins v' i = vvi_ins v i) ∧
    (∀ i, vvi_del v' i = if decide (i = r ∧ vvi_del v r = INVALID_TRANSACTION)
                         then tx else vvi_del v i).
Proof.
  intros Hwf Htx Hr.
  destruct (decide (sameDeletionVersion v = INVALID_TRANSACTION)) as [Es|Es]; last first.
  { exists v. rewrite vvi_delete_same by done. split_and!; try done.
    intros i. rewrite decide_False; [done|]. intros [-> E].
    rewrite vvi_del_same in E; [done| |done]. apply (wf_del_check _ Hwf). by left. }
  destruct (delete_prepared_spec v Hwf Es) as (Hwf1 & Hins & D1 & D2 & arr & Hlen & Earr & Hval).
  unfold vvi_delete. simpl. rewrite bool_decide_false by congruence.
  unfold isSameDeletionVersion at 1. simpl. rewrite bool_decide_true by done. simpl.
  fold (delete_prepared v). rewrite Earr.
  destruct (lookup_lt_is_Some_2 arr r) as [d Ed]; [lia|]. rewrite Ed.
  assert (vvi_del v r = d) as Edv by (rewrite <- Hval, Ed; done).
  unfold delete_outcome. rewrite Edv.
  assert (d ≠ INVALID_TRANSACTION → ∀ i, vvi_del (delete_prepared v) i =
    if decide (i = r ∧ d = INVALID_TRANSACTION) then tx else vvi_del v i) as Hkeep.
  { intros ? i. rewrite decide_False by naive_solver.
    rewrite (vvi_del_arr _ arr) by done. apply Hval. }
  case_bool_decide as Edtx; [|case_bool_decide as Edinv]; simpl.
  - exists (delete_prepared v). rewrite decide_False, decide_True by congruence.
    split_and!; [done..|]. apply Hkeep. congruence.
  - eexists. rewrite decide_True by done. split; [done|]. split_and!.
    + solve_wf Hwf1. intros ? [= <-]. by rewrite length_insert.
    + done.
    + intros i. rewrite (vvi_del_arr _ (<[r:=tx]> arr)) by done.
      destruct (decide (i = r)) as [->|Hne].
      * rewrite list_lookup_insert_eq by lia. by rewrite decide_True.
      * rewrite list_lookup_insert_ne by done. rewrite decide_False by naive_solver.
        apply Hval.
  - exists (delete_prepared v). rewrite !decide_False by congruence.
    split_and!; [done..|]. by apply Hkeep.
Qed.
End Ops.
