(* ===== verification/VersionInfoSpec.v ===== *)
(** * Snapshot isolation of row versions

    Range updates over several vectors, whole transactions (the list of their
    insert and delete records, as the undo buffer replays it), and the scan.  The
    properties of the component come last. *)

From S2P Require Import Prelude.
From S2P Require Import SelVector.
From S2P Require Import VersionInfo.
From S2P Require Import VersionInfoFacts.
From S2P Require Import VersionInfoOps.

Section Spec.
Context `{SystemConfig}.
Local Abbreviation CAP := DEFAULT_VECTOR_CAPACITY.

Definition in_range (start n r : nat) : Prop := (start ≤ r < start + n)%nat.

(** Rows are appended at the end of the chunk: when the end falls inside a
    vector, that vector already checks versions. *)
Definition appendable (vi : VersionInfo) (n : nat) : Prop :=
  (n mod CAP)%nat ≠ 0%nat →
  ∃ v, getVectorVersionInfo (n / CAP)%nat vi = Some v ∧
       insertionStatus v = INS_CHECK_VERSION.

(** The undo buffer's records of a transaction on this chunk, in the order they
    were pushed: inserted and deleted runs of rows. *)
Inductive VersionRecordType : Type := INSERT_INFO | DELETE_INFO.

Record RowRecord : Type := mkRowRecord {
  rr_type : VersionRecordType;
  rr_startRow : nat;
  rr_numRows : nat;
}.

Definition commitRowRecord (ts : Z) (vi : VersionInfo) (rec : RowRecord) : result VersionInfo :=
  match rr_type rec with
  | INSERT_INFO => commitInsert (rr_startRow rec) (rr_numRows rec) ts vi
  | DELETE_INFO => commitDelete (rr_startRow rec) (rr_numRows rec) ts vi
  end.

Definition commitRowRecords (ts : Z) (recs : list RowRecord) (vi : VersionInfo) :
    result VersionInfo :=
  foldM (commitRowRecord ts) vi recs.

Definition covered (ty : VersionRecordType) (recs : list RowRecord) (r : nat) : Prop :=
  ∃ rec, rec ∈ recs ∧ rr_type rec = ty ∧ in_range (rr_startRow rec) (rr_numRows rec) r.

(** ** One range *)

Lemma getOrNew_Some idx vi v : getVectorVersionInfo idx vi = Some v → getOrNew idx vi = v.
Proof. unfold getOrNew. by intros ->. Qed.

Lemma row_versions_None vi idx i :
  (i < CAP)%nat → getVectorVersionInfo idx vi = None →
  row_versions vi (idx * CAP + i) = (DUMMY_START_TIMESTAMP, INVALID_TRANSACTION).
Proof.
  intros Hi E. unfold row_versions, ins_version, del_version.
  rewrite Nat.div_add_l, (Nat.div_small i), Nat.add_0_r by (apply CAP_neq_0 || done).
  by rewrite E.
Qed.

Lemma vec_of_row idx i : (i < CAP)%nat → ((idx * CAP + i) / CAP = idx)%nat.
Proof.
  intros Hi. rewrite Nat.div_add_l, (Nat.div_small i), Nat.add_0_r by (apply CAP_neq_0 || done).
  done.
Qed.

(** A vector of an appended range is entered at its first row, unless it holds the
    old end of the chunk. *)
Lemma append_entry n k vi idx s l :
  appendable vi n → (0 < l)%nat → (s + l ≤ CAP)%nat →
  (∀ i, (i < CAP)%nat → (s ≤ i < s + l)%nat ↔ (n ≤ idx * CAP + i < n + k)%nat) →
  s = 0%nat ∨ ∃ v, getVectorVersionInfo idx vi = Some v ∧ insertionStatus v = INS_CHECK_VERSION.
Proof.
  intros Happ Hl Hle Hiff. destruct (decide (s = 0)%nat) as [?|Hs0]; [by left|right].
  assert (n = idx * CAP + s)%nat as En.
  { pose proof (proj1 (Hiff s ltac:(lia)) ltac:(lia)).
    destruct (decide (n = idx * CAP + s)%nat) as [?|Hne]; [done|].
    pose proof (proj2 (Hiff (s - 1)%nat ltac:(lia)) ltac:(lia)). lia. }
  destruct Happ as (w & Ew & ?).
  - rewrite En, Nat.add_comm, Nat.Div0.mod_add, Nat.mod_small; lia.
  - rewrite En, vec_of_row in Ew by lia. eauto.
Qed.

Lemma append_range tx n k vi :
  vi_wf vi → proper_version tx → appendable vi n → (0 < k)%nat →
  ∃ vi', append tx n k vi = Ok vi' ∧ vi_wf vi' ∧
    (∀ r, (r < n)%nat → row_versions vi' r = row_versions vi r) ∧
    (∀ r, in_range n k r → ins_version vi' r = tx) ∧
    (∀ r, del_version vi' r = del_version vi r).
Proof.
  intros Hwf Htx Happ Hk.
  destruct (updateVectors_rows (vvi_append tx) n k vi
    (λ r x y, ((r < n)%nat → y.1 = x.1) ∧ (in_range n k r → y.1 = tx) ∧ y.2 = x.2))
    as (vi' & E & Hwf' & HR); [done..| | |].
  - intros r x Hr. split_and!; [done| |done]. intros Hin. exfalso. by apply Hr, row_in_range.
  - intros idx s l Hidx Er Hle Hl Hiff.
    pose proof (append_entry n k vi idx s l Happ Hl Hle Hiff) as Hs.
    destruct (vvi_append_spec tx s l (getOrNew idx vi)) as (v' & E & Hv' & H1 & H2 & H3);
      [by apply vvi_wf_getOrNew|by destruct Htx|done| |].
    { destruct Hs as [?|(v & Ev & ?)]; [by left|right]. by rewrite (getOrNew_Some _ _ _ Ev). }
    exists v'. split; [done|]. split; [done|]. intros i Hi. unfold in_range.
    assert (idx * CAP + i < n → i < s)%nat as Hbelow.
    { intros Hlt. destruct (decide (i < s)%nat) as [?|?]; [done|].
      pose proof (proj1 (Hiff s ltac:(lia)) ltac:(lia)).
      pose proof (proj1 (Hiff i Hi) ltac:(lia)). lia. }
    destruct (getVectorVersionInfo idx vi) as [v|] eqn:Ev.
    + rewrite (getOrNew_Some _ _ _ Ev) in *. rewrite (row_versions_vec _ _ _ _ Hi Ev). simpl.
      split_and!; [by intros Hlt; apply H1, Hbelow|intros; apply H2; apply Hiff; lia|done].
    + rewrite (row_versions_None _ _ _ Hi Ev). simpl.
      split_and!; [|intros; apply H2; apply Hiff; lia|].
      * intros Hlt%Hbelow. destruct Hs as [->|(? & ? & _)]; [lia|done].
      * rewrite H3. unfold getOrNew. by rewrite Ev.
  - exists vi'. split; [done|]. split; [done|]. split_and!.
    + intros r Hr. destruct (HR r) as (H1 & _ & H3). unfold row_versions in *. simpl in *.
      by rewrite H1, H3.
    + intros r Hr. by apply (HR r).
    + intros r. by apply (HR r).
Qed.

Lemma append_appendable tx n k vi' :
  proper_version tx → (0 < k)%nat →
  (∀ r, in_range n k r → ins_version vi' r = tx) → appendable vi' (n + k).
Proof.
  intros Htx Hk Hins Hmod.
  specialize (Hins (n + k - 1)%nat ltac:(unfold in_range; lia)).
  assert ((n + k - 1) / CAP = (n + k) / CAP)%nat as Ediv.
  { pose proof CAP_neq_0. pose proof (Nat.div_mod_eq (n + k) CAP).
    symmetry. apply (Nat.div_unique _ _ _ ((n + k) mod CAP - 1)); [|lia].
    pose proof (Nat.mod_upper_bound (n + k) CAP). lia. }
  unfold ins_version in Hins. rewrite Ediv in Hins.
  destruct (getVectorVersionInfo _ vi') as [v|] eqn:Ev.
  - exists v. split; [done|]. by eapply vvi_ins_proper.
  - destruct Htx. congruence.
Qed.

(** The four remaining range updates share their shape: rows of the range go from
    [tx] (or [new]) to [new]; a row outside it is untouched, or goes from [tx] to
    [new] too because its vector keeps one version for all its rows. *)
Definition moved (P : Prop) (old new x y : Z) : Prop :=
  (P → y = new) ∧ (y = x ∨ x = old ∧ y = new ∨ P).

Lemma range_vec_exists vi start n idx s l :
  (0 < l)%nat → (s + l ≤ CAP)%nat →
  (∀ i, (i < CAP)%nat → (s ≤ i < s + l)%nat ↔ (start ≤ idx * CAP + i < start + n)%nat) →
  (∀ r, in_range start n r → row_versions vi r ≠ (DUMMY_START_TIMESTAMP, INVALID_TRANSACTION)) →
  ∃ v, getVectorVersionInfo idx vi = Some v.
Proof.
  intros Hl Hle Hiff Hne. destruct (getVectorVersionInfo idx vi) eqn:Ev; [eauto|].
  exfalso. apply (Hne (idx * CAP + s)%nat).
  - apply Hiff; lia.
  - apply row_versions_None; [lia|done].
Qed.

Lemma ins_version_vec vi idx i v :
  (i < CAP)%nat → getVectorVersionInfo idx vi = Some v →
  ins_version vi (idx * CAP + i) = vvi_ins v i.
Proof. intros Hi Ev. pose proof (row_versions_vec vi idx i v Hi Ev). unfold row_versions in *. congruence. Qed.

Lemma del_version_vec vi idx i v :
  (i < CAP)%nat → getVectorVersionInfo idx vi = Some v →
  del_version vi (idx * CAP + i) = vvi_del v i.
Proof. intros Hi Ev. pose proof (row_versions_vec vi idx i v Hi Ev). unfold row_versions in *. congruence. Qed.

(** [π] picks the version that moves (insertion or deletion), [ρ] the other one. *)
Lemma moved_range f (π ρ : Z * Z → Z) old new start n vi :
  vi_wf vi →
  (∀ r, in_range start n r → row_versions vi r ≠ (DUMMY_START_TIMESTAMP, INVALID_TRANSACTION)) →
  (∀ idx s l v, idx ∈ vectorsOfRange start n → getVectorVersionInfo idx vi = Some v →
     vvi_wf v → (s + l ≤ CAP)%nat → (0 < l)%nat →
     (∀ i, (i < CAP)%nat → (s ≤ i < s + l)%nat ↔ in_range start n (idx * CAP + i)) →
     ∃ v', f s l v = Ok v' ∧ vvi_wf v' ∧ ∀ i, (i < CAP)%nat →
       moved (s ≤ i < s + l)%nat old new (π (vvi_ins v i, vvi_del v i))
         (π (vvi_ins v' i, vvi_del v' i)) ∧
       ρ (vvi_ins v' i, vvi_del v' i) = ρ (vvi_ins v i, vvi_del v i)) →
  ∃ vi', updateVectors f start n vi = Ok vi' ∧ vi_wf vi' ∧
    ∀ r, moved (in_range start n r) old new (π (row_versions vi r)) (π (row_versions vi' r)) ∧
         ρ (row_versions vi' r) = ρ (row_versions vi r).
Proof.
  intros Hwf Hne Hf. destruct (decide (n = 0)%nat) as [->|Hn].
  { exists vi. split; [done|]. split; [done|].
    intros r. unfold moved, in_range. split; [|done]. split; [lia|by left]. }
  apply (updateVectors_rows f start n vi
    (λ r x y, moved (in_range start n r) old new (π x) (π y) ∧ ρ y = ρ x)); [lia|done| |].
  - intros r x Hout. split; [|done]. unfold moved. split; [|by left].
    intros Hin. exfalso. by apply Hout, row_in_range.
  - intros idx s l Hidx Er Hle Hl Hiff.
    destruct (range_vec_exists vi start n idx s l Hl Hle Hiff Hne) as [v Ev].
    rewrite (getOrNew_Some _ _ _ Ev).
    destruct (Hf idx s l v) as (v' & E & Hv' & HR); [done|done|by eapply Hwf|done..|].
    exists v'. split; [done|]. split; [done|]. intros i Hi.
    rewrite (row_versions_vec _ _ _ _ Hi Ev). specialize (HR i Hi) as [[H1 H2] H3].
    split; [|done]. split; [intros Hin; by apply H1, Hiff|].
    destruct H2 as [?|[?|Hin]]; [by left|by right; left|right; right]. by apply Hiff.
Qed.

Lemma commitInsert_range tx ts start n vi :
  vi_wf vi → proper_version tx → proper_version ts →
  (∀ r, in_range start n r → ins_version vi r = tx ∨ ins_version vi r = ts) →
  ∃ vi', commitInsert start n ts vi = Ok vi' ∧ vi_wf vi' ∧
    ∀ r, moved (in_range start n r) tx ts (ins_version vi r) (ins_version vi' r) ∧
         del_version vi' r = del_version vi r.
Proof.
  intros Hwf Htx Hts Hr. apply (moved_range _ fst snd); [done| |].
  { intros r Hin [=E _]. destruct Htx, Hts, (Hr r Hin); congruence. }
  intros idx s l v Hidx Ev Hv Hle Hl Hiff.
  destruct (setInsertCommitTS_spec tx ts s l v) as (v' & E & Hv' & H1 & H2 & H3); [done..| |].
  { intros i Hi. rewrite <- (ins_version_vec vi idx i v) by (lia || done).
    apply Hr, Hiff; lia. }
  exists v'. unfold moved. naive_solver.
Qed.

Lemma commitDelete_range tx ts start n vi :
  vi_wf vi → proper_version tx → proper_version ts →
  (∀ r, in_range start n r → del_version vi r = tx ∨ del_version vi r = ts) →
  ∃ vi', commitDelete start n ts vi = Ok vi' ∧ vi_wf vi' ∧
    ∀ r, moved (in_range start n r) tx ts (del_version vi r) (del_version vi' r) ∧
         ins_version vi' r = ins_version vi r.
Proof.
  intros Hwf Htx Hts Hr. apply (moved_range _ snd fst); [done| |].
  { intros r Hin [=_ E]. destruct Htx, Hts, (Hr r Hin); congruence. }
  intros idx s l v Hidx Ev Hv Hle Hl Hiff.
  destruct (setDeleteCommitTS_spec tx ts s l v) as (v' & E & Hv' & H1 & H2 & H3); [done..| |].
  { intros i Hi. rewrite <- (del_version_vec vi idx i v) by (lia || done).
    apply Hr, Hiff; lia. }
  exists v'. unfold moved. naive_solver.
Qed.

(** A rolled-back vector must not keep deletions once its last insertion is gone. *)
Definition rollback_clean (tx : Z) (start n : nat) (vi : VersionInfo) : Prop :=
  ∀ idx v, idx ∈ vectorsOfRange start n → getVectorVersionInfo idx vi = Some v →
    deletionStatus v = NO_DELETED ∨
    ∃ i, ¬ in_range start n (idx * CAP + i) ∧ (i < CAP)%nat ∧
         vvi_ins v i ≠ tx ∧ vvi_ins v i ≠ INVALID_TRANSACTION.

Lemma rollbackInsert_range tx start n vi :
  vi_wf vi → proper_version tx → rollback_clean tx start n vi →
  (∀ r, in_range start n r → ins_version vi r = tx) →
  ∃ vi', rollbackInsert start n vi = Ok vi' ∧ vi_wf vi' ∧
    ∀ r, moved (in_range start n r) tx INVALID_TRANSACTION
           (ins_version vi r) (ins_version vi' r) ∧
         del_version vi' r = del_version vi r.
Proof.
  intros Hwf Htx Hclean Hr. apply (moved_range _ fst snd); [done| |].
  { intros r Hin [=E _]. destruct Htx. specialize (Hr r Hin). congruence. }
  intros idx s l v Hidx Ev Hv Hle Hl Hiff.
  destruct (rollbackInsertions_spec tx s l v) as (v' & E & Hv' & H1 & H2 & H3); [done..| | |].
  { intros i Hi. left. rewrite <- (ins_version_vec vi idx i v) by (lia || done).
    apply Hr, Hiff; lia. }
  { destruct (Hclean idx v Hidx Ev) as [?|(i & Hi & Hlt & ?)]; [by left|right].
    exists i. split; [|done]. intros Hin. by apply Hi, Hiff. }
  exists v'. unfold moved. naive_solver.
Qed.

Lemma rollbackDelete_range tx start n vi :
  vi_wf vi → proper_version tx →
  (∀ r, in_range start n r → del_version vi r = tx) →
  ∃ vi', rollbackDelete start n vi = Ok vi' ∧ vi_wf vi' ∧
    ∀ r, moved (in_range start n r) tx INVALID_TRANSACTION
           (del_version vi r) (del_version vi' r) ∧
         ins_version vi' r = ins_version vi r.
Proof.
  intros Hwf [Htx ?] Hr. apply (moved_range _ snd fst); [done| |].
  { intros r Hin [=_ E]. specialize (Hr r Hin). congruence. }
  intros idx s l v Hidx Ev Hv Hle Hl Hiff.
  destruct (rollbackDeletions_spec tx s l v) as (v' & E & Hv' & H1 & H2 & H3); [done..| |].
  { intros i Hi. left. rewrite <- (del_version_vec vi idx i v) by (lia || done).
    apply Hr, Hiff; lia. }
  exists v'. unfold moved. naive_solver.
Qed.

(** ** Whole transactions *)

(** The state of a version in the middle of the replay: still the old one, or
    already the commit timestamp. *)
Definition partly (tx ts x y : Z) : Prop := y = x ∨ x = tx ∧ y = ts.

Lemma moved_partly P tx ts x0 x y :
  partly tx ts x0 x → (P → x0 = tx) → moved P tx ts x y → partly tx ts x0 y ∧ (P → y = ts).
Proof. unfold partly, moved. naive_solver. Qed.

Lemma commitRowRecords_loop tx ts recs vi0 vi :
  proper_version tx → proper_version ts → vi_wf vi →
  (∀ r, covered INSERT_INFO recs r → ins_version vi0 r = tx) →
  (∀ r, covered DELETE_INFO recs r → del_version vi0 r = tx) →
  (∀ r, partly tx ts (ins_version vi0 r) (ins_version vi r)) →
  (∀ r, partly tx ts (del_version vi0 r) (del_version vi r)) →
  ∃ vi', commitRowRecords ts recs vi = Ok vi' ∧ vi_wf vi' ∧
    (∀ r, partly tx ts (ins_version vi0 r) (ins_version vi' r)) ∧
    (∀ r, partly tx ts (del_version vi0 r) (del_version vi' r)) ∧
    (∀ r, covered INSERT_INFO recs r ∨ ins_version vi r = ts → ins_version vi' r = ts) ∧
    (∀ r, covered DELETE_INFO recs r ∨ del_version vi r = ts → del_version vi' r = ts).
Proof.
  intros Htx Hts. revert vi. induction recs as [|rec recs IH]; intros vi Hwf HI HD Hpi Hpd.
  - exists vi. split; [done|]. split_and!; try done; intros r [(rec & Hrec & _)|?]; try done;
      by apply not_elem_of_nil in Hrec.
  - assert (∃ vi1, commitRowRecord ts vi rec = Ok vi1 ∧ vi_wf vi1 ∧
      (∀ r, partly tx ts (ins_version vi0 r) (ins_version vi1 r)) ∧
      (∀ r, partly tx ts (del_version vi0 r) (del_version vi1 r)) ∧
      (∀ r, (rr_type rec = INSERT_INFO ∧ in_range (rr_startRow rec) (rr_numRows rec) r) ∨
            ins_version vi r = ts → ins_version vi1 r = ts) ∧
      (∀ r, (rr_type rec = DELETE_INFO ∧ in_range (rr_startRow rec) (rr_numRows rec) r) ∨
            del_version vi r = ts → del_version vi1 r = ts))
      as (vi1 & E1 & Hwf1 & Hpi1 & Hpd1 & Hi1 & Hd1).
    { unfold commitRowRecord. destruct (rr_type rec) eqn:Et.
      - destruct (commitInsert_range tx ts (rr_startRow rec) (rr_numRows rec) vi)
          as (vi1 & E1 & Hwf1 & HR); [done..| |].
        { intros r Hin. assert (ins_version vi0 r = tx) as Hr.
          { apply HI. exists rec. split; [left|done]. }
          destruct (Hpi r) as [->|[_ ->]]; auto. }
        exists vi1. split; [done|]. split; [done|]. split_and!.
        + intros r. eapply moved_partly; [apply Hpi| |apply HR].
          intros Hin. apply HI. exists rec. split; [left|done].
        + intros r. destruct (HR r) as [_ ->]. apply Hpd.
        + intros r Hr. destruct (HR r) as [[M1 M2] _]. naive_solver.
        + intros r Hr. destruct (HR r) as [_ ->]. naive_solver.
      - destruct (commitDelete_range tx ts (rr_startRow rec) (rr_numRows rec) vi)
          as (vi1 & E1 & Hwf1 & HR); [done..| |].
        { intros r Hin. assert (del_version vi0 r = tx) as Hr.
          { apply HD. exists rec. split; [left|done]. }
          destruct (Hpd r) as [->|[_ ->]]; auto. }
        exists vi1. split; [done|]. split; [done|]. split_and!.
        + intros r. destruct (HR r) as [_ ->]. apply Hpi.
        + intros r. eapply moved_partly; [apply Hpd| |apply HR].
          intros Hin. apply HD. exists rec. split; [left|done].
        + intros r Hr. destruct (HR r) as [_ ->]. naive_solver.
        + intros r Hr. destruct (HR r) as [[M1 M2] _]. naive_solver. }
    destruct (IH vi1) as (vi' & E & Hwf' & Hpi' & Hpd' & Hi' & Hd'); try done.
    { intros r (rec' & Hin & ?). apply HI. exists rec'. split; [by right|done]. }
    { intros r (rec' & Hin & ?). apply HD. exists rec'. split; [by right|done]. }
    exists vi'. unfold commitRowRecords in *. simpl. rewrite E1. split; [done|].
    split_and!; [done..| |].
    + intros r [(rec' & Hin & Ht & Hr)|Hr]; apply Hi'; [|by right; apply Hi1; right].
      apply elem_of_cons in Hin as [->|Hin]; [right; apply Hi1; by left|left; by exists rec'].
    + intros r [(rec' & Hin & Ht & Hr)|Hr]; apply Hd'; [|by right; apply Hd1; right].
      apply elem_of_cons in Hin as [->|Hin]; [right; apply Hd1; by left|left; by exists rec'].
Qed.

(** ** Deleting a row *)

(** The insertion status [delete_] sets on a vector without versions: its rows are
    checkpointed ones. *)
Lemma mark_checkpointed idx vi i :
  vi_wf vi → (i < CAP)%nat → ins_version vi (idx * CAP + i) ≠ INVALID_TRANSACTION →
  let v := getOrNew idx vi in
  let v1 := if bool_decide (insertionStatus v = NO_INSERTED)
            then set_insertionStatus ALWAYS_INSERTED v else v in
  vvi_wf v1 ∧ ∀ j, (j < CAP)%nat →
    row_versions vi (idx * CAP + j) = (vvi_ins v1 j, vvi_del v1 j).
Proof.
  intros Hwf Hi Hvis v v1. unfold v1, v, getOrNew. clear v v1.
  destruct (getVectorVersionInfo idx vi) as [v|] eqn:Ev; simpl.
  - rewrite bool_decide_false.
    + split; [by eapply Hwf|]. intros j Hj. by apply row_versions_vec.
    + intros E. rewrite (ins_version_vec _ _ _ _ Hi Ev) in Hvis. unfold vvi_ins in Hvis.
      by rewrite E in Hvis.
  - split.
    + constructor; simpl; try done; (split; [done|by intros [?|[? ?]]]).
    + intros j Hj. by rewrite (row_versions_None _ _ _ Hj Ev).
Qed.
End Spec.
