(* ===== verification/VersionInfoScan.v ===== *)
(** * Scanning visible rows

    [getSelVectorToScan] and [getNumDeletions] against their specification: the
    rows of the range that the reader's snapshot contains. *)

From S2P Require Import Prelude.
From S2P Require Import SelVector.
From S2P Require Import VersionInfo.
From S2P Require Import VersionInfoFacts.
From S2P Require Import VersionInfoOps.
From S2P Require Import VersionInfoSpec.

Section Scan.
Context `{SystemConfig}.
Local Abbreviation CAP := DEFAULT_VECTOR_CAPACITY.

(** The positions below [pos] that pass [vis], in order. *)
Definition selected (vis : nat → bool) (pos : nat) : list nat :=
  filter (λ i, vis i = true) (seq 0 pos).

Lemma selected_app vis pos k :
  selected vis (pos + k) = selected vis pos ++ filter (λ i, vis i = true) (seq pos k).
Proof. unfold selected. by rewrite seq_app, filter_app. Qed.

Lemma filter_all_seq vis pos k :
  (∀ i, (i < k)%nat → vis (pos + i)%nat = true) →
  filter (λ i, vis i = true) (seq pos k) = seq pos k.
Proof.
  revert pos. induction k as [|k IH]; intros pos Hv; simpl; [done|].
  rewrite filter_cons_True by (rewrite <- (Nat.add_0_r pos); apply Hv; lia).
  f_equal. apply IH. intros i Hi. replace (S pos + i)%nat with (pos + S i)%nat by lia.
  apply Hv. lia.
Qed.

Lemma filter_none_seq vis pos k :
  (∀ i, (i < k)%nat → vis (pos + i)%nat = false) → filter (λ i, vis i = true) (seq pos k) = [].
Proof.
  revert pos. induction k as [|k IH]; intros pos Hv; simpl; [done|].
  rewrite filter_cons_False.
  - apply IH. intros i Hi. replace (S pos + i)%nat with (pos + S i)%nat by lia. apply Hv. lia.
  - rewrite <- (Nat.add_0_r pos), Hv by lia. done.
Qed.

Lemma selected_length vis pos : (length (selected vis pos) ≤ pos)%nat.
Proof. unfold selected. etrans; [apply length_filter|]. by rewrite length_seq. Qed.

(** What a scan lists whose selection vector was unfiltered up to position [u]: as many of
    the first positions as rows were selected there, then the positions selected after [u]. *)
Definition listed (vis : nat → bool) (u pos : nat) : list nat :=
  seq 0 (length (selected vis u)) ++ filter (λ i, vis i = true) (seq u (pos - u)).

Lemma listed_app vis u pos k :
  (u ≤ pos)%nat → listed vis u (pos + k) = listed vis u pos ++ filter (λ i, vis i = true) (seq pos k).
Proof.
  intros Hu. unfold listed. rewrite <- app_assoc, <- filter_app. do 2 f_equal.
  replace (pos + k - u)%nat with (pos - u + k)%nat by lia. rewrite seq_app. by replace (u + (pos - u))%nat with pos by lia.
Qed.

Lemma listed_now vis u : listed vis u u = seq 0 (length (selected vis u)).
Proof. unfold listed. by rewrite Nat.sub_diag, app_nil_r. Qed.

Lemma listed_length vis u pos : (u ≤ pos)%nat → length (listed vis u pos) = length (selected vis pos).
Proof.
  intros Hu. unfold listed. rewrite length_app, length_seq.
  replace pos with (u + (pos - u))%nat at 2 by lia. by rewrite selected_app, length_app.
Qed.

(** It is what it should be when no row before [u] is hidden. *)
Lemma listed_selected vis u pos :
  (u ≤ pos)%nat → (∀ i, (i < u)%nat → vis i = true) → listed vis u pos = selected vis pos.
Proof.
  intros Hu Hv. unfold listed. assert (selected vis u = seq 0 u) as E by (by apply filter_all_seq).
  rewrite E, length_seq. replace pos with (u + (pos - u))%nat at 2 by lia. by rewrite selected_app, E.
Qed.

(** The invariant of the scan at output position [pos]: the selection vector was unfiltered
    up to a position [u], where it passed only rows that are selected or that belong to a
    vector it skips ([skip]); it still is when it is static. *)
Definition scan_inv (vis : nat → bool) (skip : nat → Prop) (sv : SelectionVector) (pos : nat) : Prop :=
  sel_wf sv ∧ ∃ u, (u ≤ pos)%nat ∧ sel_list sv = listed vis u pos ∧
    (sel_state sv = STATIC → u = pos) ∧ (∀ i, (i < u)%nat → vis i = true ∨ skip i).

Lemma scan_inv_size vis skip sv pos :
  scan_inv vis skip sv pos → selectedSize sv = length (selected vis pos).
Proof.
  intros (Hwf & u & Hu & Hl & _). rewrite <- (listed_length vis u pos Hu), <- Hl. by rewrite sel_list_length.
Qed.

Lemma sel_list_dynamic sv :
  sel_wf sv → sel_state sv = DYNAMIC →
  sel_list sv = take (selectedSize sv) (selectedPositionsBuffer sv).
Proof. intros [_ Hp] E. rewrite E in Hp. unfold sel_list. by rewrite Hp. Qed.

Lemma sel_list_static sv : sel_wf sv → sel_state sv = STATIC → sel_list sv = seq 0 (selectedSize sv).
Proof. intros [_ Hp] E. rewrite E in Hp. unfold sel_list. by rewrite Hp. Qed.

(** A run of rows that are all visible. *)
Lemma scan_all_visible vis skip sv pos k :
  scan_inv vis skip sv pos → (pos + k ≤ sel_capacity sv)%nat →
  (∀ i, (i < k)%nat → vis (pos + i)%nat = true) →
  ∃ sv', (if isUnfiltered sv then Ok (setSelSize (getSelSize sv + k) sv)
          else push_all_rows k pos sv) = Ok sv' ∧
    scan_inv vis skip sv' (pos + k) ∧ sel_capacity sv' = sel_capacity sv.
Proof.
  intros Hinv Hcap Hvis. pose proof (scan_inv_size _ _ _ _ Hinv) as Hsize.
  destruct Hinv as (Hwf & u & Hu & Hl & Hst & Hskip). rewrite isUnfiltered_wf by done.
  pose proof (selected_length vis pos) as Hlen.
  destruct (sel_state sv) eqn:Es.
  - (* filtered: the run is pushed *)
    unfold push_all_rows, getSelSize.
    destruct (sel_push_all_spec (seq pos k) (selectedSize sv) sv)
      as (sv' & E & Hp & Hs & Hss & Hc & Hb); [rewrite length_seq; lia|].
    rewrite E. simpl. eexists. split; [done|]. split; [|done].
    split; [split; [|done]; simpl; unfold sel_capacity in *; simpl; lia|].
    exists u. split_and!; [lia| |done|done].
    unfold sel_list. simpl. rewrite length_seq in Hb. rewrite Hb.
    rewrite listed_app, filter_all_seq by done. f_equal.
    rewrite <- Hl. symmetry. by apply sel_list_dynamic.
  - eexists. split; [done|]. split; [|done]. specialize (Hst eq_refl). subst u.
    assert (sel_wf (setSelSize (getSelSize sv + k) sv)) as Hwf'.
    { destruct Hwf as [_ Hwf]. split; [|done]. unfold getSelSize, sel_capacity in *. simpl. lia. }
    split; [done|]. exists (pos + k)%nat. split_and!; [lia| |done|].
    + rewrite sel_list_static, listed_now by done. f_equal.
      rewrite selected_app, filter_all_seq, length_app, length_seq by done. unfold getSelSize. simpl. lia.
    + intros i Hi. destruct (decide (i < pos)%nat); [by apply Hskip|]. left.
      replace i with (pos + (i - pos))%nat by lia. apply Hvis. lia.
Qed.

(** A run of rows of a vector without any: nothing is written. *)
Lemma scan_skip vis skip sv pos k :
  scan_inv vis skip sv pos → (∀ i, (i < k)%nat → vis (pos + i)%nat = false ∧ skip (pos + i)%nat) →
  scan_inv vis skip sv (pos + k).
Proof.
  intros (Hwf & u & Hu & Hl & Hst & Hskip) Hrun.
  assert (filter (λ i, vis i = true) (seq pos k) = []) as E.
  { apply filter_none_seq. intros i Hi. by apply Hrun. }
  split; [done|]. destruct (sel_state sv) eqn:Es.
  - exists u. split_and!; [lia| |done|done]. by rewrite listed_app, E, app_nil_r by done.
  - specialize (Hst eq_refl). subst u. exists (pos + k)%nat. split_and!; [lia| |done|].
    + by rewrite Hl, !listed_now, selected_app, E, app_nil_r.
    + intros i Hi. destruct (decide (i < pos)%nat); [by apply Hskip|]. right.
      replace i with (pos + (i - pos))%nat by lia. apply Hrun. lia.
Qed.

(** The row-by-row loop of one vector, behind the positions [P] already listed. *)
Lemma scan_loop st id v vis s pos (P : list nat) :
  vvi_wf v → reader_wf st id → (length P ≤ pos)%nat → ∀ k i0 sv,
  (s + i0 + k ≤ CAP)%nat → (pos + i0 + k ≤ sel_capacity sv)%nat →
  (∀ i, (i < i0 + k)%nat → vis (pos + i)%nat =
     version_visible st id (vvi_ins v (s + i)) &&
     negb (version_visible st id (vvi_del v (s + i)))) →
  let sel j := P ++ filter (λ i, vis i = true) (seq pos j) in
  take (length (sel i0)) (selectedPositionsBuffer sv) = sel i0 →
  ∃ sv', foldM (scan_step st id s pos v) (sv, length (sel i0)) (seq i0 k) =
      Ok (sv', length (sel (i0 + k)%nat)) ∧
    sel_capacity sv' = sel_capacity sv ∧
    take (length (sel (i0 + k)%nat)) (selectedPositionsBuffer sv') = sel (i0 + k)%nat.
Proof.
  intros Hwf Hr HP k i0 sv Hcap Hcap' Hvis sel. revert i0 sv Hcap Hcap' Hvis.
  induction k as [|k IH]; intros i0 sv Hcap Hcap' Hvis Hbuf.
  { rewrite Nat.add_0_r. exists sv. done. }
  replace (i0 + S k)%nat with (S i0 + k)%nat by lia.
  assert (sel (S i0) = sel i0 ++ (if vis (pos + i0)%nat then [(pos + i0)%nat] else [])) as Hnext.
  { unfold sel. rewrite <- app_assoc. f_equal. replace (S i0) with (i0 + 1)%nat by lia.
    rewrite seq_app, filter_app. f_equal. simpl. destruct (vis (pos + i0)%nat) eqn:E.
    - by rewrite filter_cons_True.
    - by rewrite filter_cons_False by congruence. }
  assert (length (sel i0) ≤ pos + i0)%nat as Hm.
  { unfold sel. rewrite length_app. pose proof (length_filter (λ i, vis i = true) (seq pos i0)) as Hlf.
    rewrite length_seq in Hlf. lia. }
  set (m := length (sel i0)) in *. cbn [seq foldM]. unfold scan_step at 2. cbv beta iota.
  rewrite vvi_isInserted_ok by (done || lia). cbn [mbind result_bind].
  specialize (Hvis i0 ltac:(lia)) as Hi0.
  assert (∀ b : bool, (if b then del ← vvi_isDeleted st id (s + i0) v; Ok (negb del)
                 else Ok false) =
          Ok (b && negb (version_visible st id (vvi_del v (s + i0))))) as Esel.
  { intros []; [|done]. by rewrite vvi_isDeleted_ok by (done || lia). }
  rewrite Esel, <- Hi0. cbn [mbind result_bind]. destruct (vis (pos + i0)%nat) eqn:Ev.
  - unfold sel_write. rewrite decide_True by lia. cbn [mbind result_bind].
    set (sv1 := {| selectedPositions := selectedPositions sv; |}).
    assert (S m = length (sel (S i0))) as -> by (rewrite Hnext, length_app; simpl; unfold m; lia).
    destruct (IH (S i0) sv1) as (sv' & E & Hc & Hb).
    + lia.
    + unfold sv1, sel_capacity in *. simpl. rewrite length_insert. lia.
    + intros i Hi. apply Hvis. lia.
    + rewrite Hnext, length_app. unfold sv1. simpl. fold m. rewrite Nat.add_1_r.
      rewrite (take_S_r _ m (pos + i0)%nat).
      * rewrite take_insert_ge by lia. by rewrite Hbuf.
      * apply list_lookup_insert_eq. unfold sel_capacity in Hcap'. lia.
    + exists sv'. split; [done|]. split; [|done]. rewrite Hc. unfold sv1, sel_capacity. simpl.
      apply length_insert.
  - assert (m = length (sel (S i0))) as -> by (by rewrite Hnext, app_nil_r).
    apply IH; [lia|lia| |].
    + intros i Hi. apply Hvis. lia.
    + by rewrite Hbuf, Hnext, app_nil_r.
Qed.

(** The selection vector before the row-by-row loop. *)
Lemma make_dynamic_spec vis skip sv pos :
  scan_inv vis skip sv pos → (pos ≤ sel_capacity sv)%nat →
  ∃ sv1, (if isUnfiltered sv then makeDynamic sv else Ok sv) = Ok sv1 ∧
    sel_capacity sv1 = sel_capacity sv ∧
    take (length (sel_list sv)) (selectedPositionsBuffer sv1) = sel_list sv.
Proof.
  intros Hinv Hcap. pose proof (scan_inv_size _ _ _ _ Hinv) as Hsize.
  pose proof (selected_length vis pos) as Hlen. destruct Hinv as (Hsw & _).
  rewrite isUnfiltered_wf, sel_list_length by done. destruct (sel_state sv) eqn:Es.
  - exists sv. split_and!; [done|done|]. symmetry. by apply sel_list_dynamic.
  - unfold makeDynamic. rewrite decide_True by apply Hsw. eexists. split; [done|].
    split; [unfold sel_capacity; simpl; apply length_inserts|]. simpl.
    pose proof (sel_list_length sv Hsw) as Hl.
    apply list_eq. intros i. destruct (decide (i < selectedSize sv)%nat).
    + rewrite lookup_take_lt by done. rewrite list_lookup_inserts by (unfold sel_capacity in *; lia).
      by rewrite Nat.sub_0_r.
    + rewrite lookup_take_ge by lia. symmetry. apply lookup_ge_None. lia.
Qed.

(** One vector with version info. *)
Lemma getSelVectorForScan_spec st id v vis (skip : nat → Prop) s k pos sv :
  vvi_wf v → reader_wf st id →
  (insertionStatus v = NO_INSERTED → ∀ i, (i < k)%nat → skip (pos + i)%nat) →
  scan_inv vis skip sv pos → (s + k ≤ CAP)%nat → (pos + k ≤ sel_capacity sv)%nat →
  (∀ i, (i < k)%nat → vis (pos + i)%nat =
     version_visible st id (vvi_ins v (s + i)) &&
     negb (version_visible st id (vvi_del v (s + i)))) →
  ∃ sv', getSelVectorForScan st id s k pos v sv = Ok sv' ∧
    scan_inv vis skip sv' (pos + k) ∧ sel_capacity sv' = sel_capacity sv.
Proof.
  intros Hwf Hr Hni Hinv Hle Hcap Hvis. unfold getSelVectorForScan.
  case_match eqn:Eall.
  { apply andb_true_iff in Eall as [E1%bool_decide_eq_true E2%bool_decide_eq_true].
    apply scan_all_visible; [done..|]. intros i Hi. rewrite Hvis by done.
    unfold vvi_ins, vvi_del. rewrite E1, E2.
    by rewrite version_visible_start, version_visible_invalid. }
  destruct (decide (insertionStatus v = NO_INSERTED)) as [Hno|Hyes].
  { rewrite bool_decide_true by done. cbn [negb]. exists sv. split_and!; [done| |done].
    apply scan_skip; [done|]. intros i Hi. split; [|by apply Hni]. rewrite Hvis by done.
    unfold vvi_ins. by rewrite Hno, version_visible_invalid. }
  rewrite bool_decide_false by done. cbn [negb].
  destruct (make_dynamic_spec vis skip sv pos Hinv) as (sv1 & E1 & Hc1 & Hb1); [lia|].
  pose proof (scan_inv_size _ _ _ _ Hinv) as Hsize. pose proof (selected_length vis pos) as Hlen.
  destruct Hinv as (Hsw & u & Hu & Hl & Hst & Hskip).
  rewrite E1. cbn [mbind result_bind]. unfold getSelSize. rewrite <- (sel_list_length sv Hsw).
  rewrite (sel_list_length sv Hsw) in Hb1 at 1. rewrite <- (sel_list_length sv Hsw), Hl in Hsize, Hb1. rewrite Hl.
  destruct (scan_loop st id v vis s pos (listed vis u pos) Hwf Hr ltac:(lia) k 0%nat sv1) as (sv' & E & Hc & Hb);
    [lia|lia|done|by rewrite app_nil_r|].
  rewrite app_nil_r in E. rewrite E. cbn [mbind result_bind].
  eexists. split; [done|]. split; [|unfold sel_capacity in *; simpl; lia].
  rewrite <- listed_app in Hb |- * by done. cbn [Nat.add] in *. pose proof (selected_length vis (pos + k)).
  split.
  - split; [|done]. rewrite listed_length by lia. unfold sel_capacity in *. simpl. lia.
  - exists u. split_and!; [lia| |done|done]. unfold sel_list. simpl. exact Hb.
Qed.

(** ** All vectors of the scanned range *)

(** Walking over the vectors of a range, position by position: each vector covers
    the next run of rows, and the last one ends the range. *)
Lemma vectors_walk start n {A} (I : A → nat → Prop)
    (f : A → nat → result A) (a : A) :
  (0 < n)%nat → I a 0%nat →
  (∀ idx s k a pos, idx ∈ vectorsOfRange start n → rangeInVector start n idx = (s, k) →
     (s + k ≤ CAP)%nat → (0 < k)%nat → (start + pos = idx * CAP + s)%nat →
     (pos + k ≤ n)%nat → I a pos → ∃ a', f a idx = Ok a' ∧ I a' (pos + k)%nat) →
  ∃ a', foldM f a (vectorsOfRange start n) = Ok a' ∧ I a' n.
Proof.
  intros Hn HI Hstep. pose proof CAP_neq_0 as HC.
  set (qs := (start / CAP)%nat). set (qe := ((start + n - 1) / CAP)%nat).
  pose proof (Nat.div_mod_eq start CAP) as E1. fold qs in E1.
  pose proof (Nat.mod_upper_bound start CAP HC) as B1.
  pose proof (Nat.div_mod_eq (start + n - 1) CAP) as E2. fold qe in E2.
  pose proof (Nat.mod_upper_bound (start + n - 1) CAP HC) as B2.
  assert (qs ≤ qe)%nat as Hq by (apply Nat.Div0.div_le_mono; lia).
  assert (∀ j a pos, (j ≤ qe - qs + 1)%nat →
    (start + pos = Nat.max start (Nat.min (start + n) ((qe + 1 - j) * CAP)))%nat →
    I a pos → ∃ a', foldM f a (seq (qe + 1 - j) j) = Ok a' ∧ I a' n) as G.
  { induction j as [|j IH]; intros b pos Hj Hpos HIb.
    - exists b. split; [done|]. replace n with pos; [done|]. nia.
    - set (idx := (qe + 1 - S j)%nat) in *. cbn [seq foldM].
      assert (idx ∈ vectorsOfRange start n) as Hidx.
      { apply elem_of_vectorsOfRange. left. fold qs qe. unfold idx. lia. }
      destruct (rangeInVector start n idx) as [s k] eqn:Er.
      destruct (rangeInVector_spec _ _ _ _ _ Hn Hidx Er) as (Hle & Hk & Hiff).
      pose proof (proj1 (Hiff s ltac:(lia)) ltac:(lia)) as Hs.
      pose proof (proj1 (Hiff (s + k - 1)%nat ltac:(lia)) ltac:(lia)) as Hsk.
      assert (start + pos = idx * CAP + s)%nat as Hp.
      { destruct (decide (s = 0)%nat) as [->|Hs0]; [nia|].
        assert (¬ (start ≤ idx * CAP + (s - 1) < start + n)%nat) as Hno.
        { rewrite <- Hiff by lia. lia. }
        nia. }
      destruct (Hstep idx s k b pos) as (b1 & E & HI1); [done..|nia|done|].
      rewrite E. cbn [mbind result_bind].
      replace (S idx) with (qe + 1 - j)%nat by (unfold idx; lia).
      apply (IH b1 (pos + k)%nat); [lia| |done].
      destruct (decide (s + k < CAP)%nat) as [Hlt|Hge].
      + assert (¬ (start ≤ idx * CAP + (s + k) < start + n)%nat) as Hno.
        { rewrite <- Hiff by lia. lia. }
        unfold idx in *. nia.
      + unfold idx in *. nia. }
  unfold vectorsOfRange. fold qs qe.
  specialize (G (qe - qs + 1)%nat a 0%nat ltac:(lia)).
  replace (qe + 1 - (qe - qs + 1))%nat with qs in G by lia.
  apply G; [|done]. nia.
Qed.
End Scan.
