(* ===== verification/VersionInfoTheorems.v ===== *)
(** * Properties of row versions

    Snapshot isolation of the rows of a chunk: what each operation of
    storage/table/version_info.cpp promises to readers and writers. *)

From S2P Require Import Prelude.
From S2P Require Import SelVector.
From S2P Require Import VersionInfo.
From S2P Require Import VersionInfoFacts.
From S2P Require Import VersionInfoOps.
From S2P Require Import VersionInfoSpec.
From S2P Require Import VersionInfoScan.

Section Theorems.
Context `{SystemConfig}.
Local Abbreviation CAP := DEFAULT_VECTOR_CAPACITY.

Lemma isSelected_ok st id r vi :
  vi_wf vi → reader_wf st id → isSelected st id r vi = Ok (row_visible st id vi r).
Proof.
  intros Hwf Hr. unfold isSelected, row_visible, ins_version, del_version.
  destruct (getVectorVersionInfo _ vi) as [v|] eqn:Ev.
  - apply vvi_isSelected_ok; [by eapply Hwf|done|apply row_split].
  - by rewrite version_visible_start, version_visible_invalid.
Qed.

Lemma isDeleted_ok st id r vi :
  vi_wf vi → reader_wf st id →
  isDeleted st id r vi = Ok (version_visible st id (del_version vi r)).
Proof.
  intros Hwf Hr. unfold isDeleted, del_version.
  destruct (getVectorVersionInfo _ vi) as [v|] eqn:Ev.
  - apply vvi_isDeleted_ok; [by eapply Hwf|done|apply row_split].
  - by rewrite version_visible_invalid.
Qed.

(** The row belongs to a vector whose insertions were all rolled back. *)
Definition in_rolled_back_vector (vi : VersionInfo) (r : nat) : Prop :=
  ∃ v, getVectorVersionInfo (r / CAP) vi = Some v ∧ insertionStatus v = NO_INSERTED.

Lemma selVectorStep_spec st id start n vi sv idx s k pos :
  let inv := scan_inv (λ i, row_visible st id vi (start + i)) (λ i, in_rolled_back_vector vi (start + i)) in
  vi_wf vi → reader_wf st id → rangeInVector start n idx = (s, k) →
  (s + k ≤ CAP)%nat → (start + pos = idx * CAP + s)%nat → (pos + k ≤ sel_capacity sv)%nat →
  inv sv pos →
  ∃ sv', selVectorStep st id start n vi (sv, pos) idx = Ok (sv', pos + k)%nat ∧
    inv sv' (pos + k)%nat ∧ sel_capacity sv' = sel_capacity sv.
Proof.
  intros inv Hwf Hr Er Hle Hpos Hcap Hinv. unfold inv in *. clear inv. unfold selVectorStep. rewrite Er.
  assert (∀ i, (i < k)%nat → start + (pos + i) = idx * CAP + (s + i))%nat as Hrow by lia.
  destruct (getVectorVersionInfo idx vi) as [v|] eqn:Ev.
  - edestruct (getSelVectorForScan_spec st id v (λ i, row_visible st id vi (start + i))) as (sv' & E & Hinv' & Hc);
      [by eapply Hwf|done| |exact Hinv|done|done| |].
    { intros Hno i Hi. exists v. rewrite Hrow by done. split; [|done].
      rewrite Nat.div_add_l, (Nat.div_small (s + i)), Nat.add_0_r by lia. done. }
    { intros i Hi. simpl. unfold row_visible. rewrite Hrow by done.
      by rewrite (ins_version_vec _ _ _ v), (del_version_vec _ _ _ v) by (done || lia). }
    rewrite E. cbn [mbind result_bind]. eauto.
  - edestruct (scan_all_visible (λ i, row_visible st id vi (start + i))) as (sv' & E & Hinv' & Hc); [done..| |].
    { intros i Hi. simpl. unfold row_visible. rewrite Hrow by done.
      pose proof (row_versions_None vi idx (s + i) ltac:(lia) Ev) as Erow.
      unfold row_versions in Erow. injection Erow as -> ->.
      by rewrite version_visible_start, version_visible_invalid. }
    rewrite E. cbn [mbind result_bind]. eauto.
Qed.

Lemma vvi_getNumDeletions_spec st id s k v :
  vvi_wf v → reader_wf st id → (s + k ≤ CAP)%nat →
  vvi_getNumDeletions st id s k v =
  Ok (length (filter (λ i, version_visible st id (vvi_del v i) = true) (seq s k))).
Proof.
  intros Hwf Hr Hle. unfold vvi_getNumDeletions.
  assert (∀ k i0 acc, (s + i0 + k ≤ CAP)%nat →
    foldM (λ numDeletions i, d ← vvi_isDeleted st id (s + i) v;
             Ok (numDeletions + (if (d : bool) then 1 else 0))%nat) acc (seq i0 k) =
    Ok (acc + length (filter (λ i, version_visible st id (vvi_del v i) = true)
                        (seq (s + i0) k)))%nat) as G.
  { induction k0 as [|k0 IH]; intros i0 acc Hk; [simpl; by rewrite Nat.add_0_r|].
    cbn [seq foldM]. rewrite vvi_isDeleted_ok by (done || lia). cbn [mbind result_bind].
    rewrite IH by lia. replace (s + S i0)%nat with (S (s + i0)) by lia.
    destruct (version_visible st id (vvi_del v (s + i0))) eqn:Ev.
    - rewrite filter_cons_True by done. simpl. f_equal. lia.
    - rewrite filter_cons_False by congruence. f_equal. lia. }
  destruct (deletionStatus v) eqn:Ed.
  - rewrite filter_seq_none; [done|]. intros i _. unfold vvi_del. rewrite Ed.
    by rewrite version_visible_invalid.
  - rewrite G by lia. by rewrite Nat.add_0_r.
Qed.

Lemma commitRowRecords_atomic tx ts recs N vi :
  vi_wf vi → proper_version tx → proper_version ts →
  (∀ r, covered INSERT_INFO recs r → (r < N)%nat ∧ ins_version vi r = tx) →
  (∀ r, covered DELETE_INFO recs r → (r < N)%nat ∧ del_version vi r = tx) →
  (∀ r, (r < N)%nat → ins_version vi r = tx → covered INSERT_INFO recs r) →
  (∀ r, (r < N)%nat → del_version vi r = tx → covered DELETE_INFO recs r) →
  ∃ vi', commitRowRecords ts recs vi = Ok vi' ∧ vi_wf vi' ∧
    ∀ r, (r < N)%nat →
      ins_version vi' r = (if decide (ins_version vi r = tx) then ts else ins_version vi r) ∧
      del_version vi' r = (if decide (del_version vi r = tx) then ts else del_version vi r) ∧
      ∀ st id, reader_wf st id → id ≠ tx → id ≠ ts → st < ts → st < tx →
        isSelected st id r vi' = isSelected st id r vi.
Proof.
  intros Hwf Htx Hts HI HD HI' HD'.
  destruct (commitRowRecords_loop tx ts recs vi vi) as (vi' & E & Hwf' & Hpi & Hpd & Hi & Hd);
    try done; [naive_solver|naive_solver|by left|by left|].
  exists vi'. split; [done|]. split; [done|]. intros r HrN.
  assert (ins_version vi' r =
    if decide (ins_version vi r = tx) then ts else ins_version vi r) as Ei.
  { destruct (decide (ins_version vi r = tx)) as [Er|Er]; [apply Hi; left; by apply HI'|].
    destruct (Hpi r) as [?|[? _]]; done. }
  assert (del_version vi' r =
    if decide (del_version vi r = tx) then ts else del_version vi r) as Ed.
  { destruct (decide (del_version vi r = tx)) as [Er|Er]; [apply Hd; left; by apply HD'|].
    destruct (Hpd r) as [?|[? _]]; done. }
  split_and!; [done..|]. intros st id Hr Htx' Hts' Hst1 Hst2.
  rewrite !isSelected_ok by done. unfold row_visible. rewrite Ei, Ed.
  assert (version_visible st id tx = version_visible st id ts) as Eq.
  { unfold version_visible. by rewrite !bool_decide_false by lia. }
  destruct (decide (ins_version vi r = tx)) as [Er|Er], (decide (del_version vi r = tx)) as [Er'|Er'];
    by rewrite ?Er, ?Er', ?Eq.
Qed.

(** ** The properties *)

(** the snapshot rule.  A row is selected for a reader exactly when its
    insertion is visible to the reader (its own, or committed no later than its
    start) and its deletion is not; the test never has undefined behaviour. *)
Theorem isSelected_snapshot st id r vi :
  vi_wf vi → reader_wf st id →
  isSelected st id r vi =
  Ok (version_visible st id (ins_version vi r) &&
      negb (version_visible st id (del_version vi r))).
Proof. apply isSelected_ok. Qed.

(** appending rows at the end of a chunk stamps exactly the new rows with the
    transaction and leaves the versions of all older rows unchanged, across any
    number of vectors and whatever representation they use. *)
Theorem append_versions tx n k vi :
  vi_wf vi → proper_version tx → appendable vi n →
  ∃ vi', append tx n k vi = Ok vi' ∧ vi_wf vi' ∧ appendable vi' (n + k) ∧
    (∀ r, (r < n)%nat → row_versions vi' r = row_versions vi r) ∧
    (∀ r, in_range n k r → ins_version vi' r = tx) ∧
    (∀ r, del_version vi' r = del_version vi r).
Proof.
  intros Hwf Htx Happ. destruct (decide (k = 0)%nat) as [->|Hk].
  { exists vi. rewrite Nat.add_0_r. split_and!; try done. unfold in_range. lia. }
  destruct (append_range tx n k vi) as (vi' & E & Hwf' & H1 & H2 & H3); [done..|lia|].
  exists vi'. split_and!; try done. eapply append_appendable; [done|lia|done].
Qed.

(** C18: committing a transaction.  Replaying the insert and delete records of its
    [N] rows, in any order, replaces its ID by the commit timestamp in every version
    it wrote and changes nothing else; readers that started before the commit keep
    seeing exactly the rows they saw. *)
Theorem commit_atomic_for_readers tx ts recs N vi :
  vi_wf vi → proper_version tx → proper_version ts →
  (∀ r, covered INSERT_INFO recs r → (r < N)%nat ∧ ins_version vi r = tx) →
  (∀ r, covered DELETE_INFO recs r → (r < N)%nat ∧ del_version vi r = tx) →
  (∀ r, (r < N)%nat → ins_version vi r = tx → covered INSERT_INFO recs r) →
  (∀ r, (r < N)%nat → del_version vi r = tx → covered DELETE_INFO recs r) →
  ∃ vi', commitRowRecords ts recs vi = Ok vi' ∧ vi_wf vi' ∧
    ∀ r, (r < N)%nat →
      ins_version vi' r = (if decide (ins_version vi r = tx) then ts else ins_version vi r) ∧
      del_version vi' r = (if decide (del_version vi r = tx) then ts else del_version vi r) ∧
      ∀ st id, reader_wf st id → id ≠ tx → id ≠ ts → st < ts → st < tx →
        isSelected st id r vi' = isSelected st id r vi.
Proof. apply commitRowRecords_atomic. Qed.

(** C29: aborting an append.  Rolling back the rows a transaction appended restores
    the versions of every earlier row and leaves the appended rows without a
    version, invisible to every reader. *)
Theorem append_rollback_restores tx n k vi vi1 :
  vi_wf vi → proper_version tx → appendable vi n →
  (∀ r, (r < n)%nat → ins_version vi r ≠ tx) →
  append tx n k vi = Ok vi1 → rollback_clean tx n k vi1 →
  ∃ vi', rollbackInsert n k vi1 = Ok vi' ∧ vi_wf vi' ∧
    (∀ r, (r < n)%nat → row_versions vi' r = row_versions vi r) ∧
    (∀ r, in_range n k r → ins_version vi' r = INVALID_TRANSACTION) ∧
    (∀ st id r, reader_wf st id → in_range n k r → isSelected st id r vi' = Ok false).
Proof.
  intros Hwf Htx Happ Hfresh E1 Hclean. destruct (decide (k = 0)%nat) as [->|Hk].
  { unfold append, rollbackInsert, updateVectors in *. simpl in *. injection E1 as <-.
    exists vi. unfold in_range. split_and!; try done; intros; lia. }
  destruct (append_range tx n k vi) as (vi1' & E1' & Hwf1 & H1 & H2 & H3); [done..|lia|].
  assert (vi1' = vi1) as -> by congruence.
  destruct (rollbackInsert_range tx n k vi1) as (vi' & E & Hwf' & HR); [done..|].
  exists vi'. split; [done|]. split; [done|].
  assert (∀ r, in_range n k r → ins_version vi' r = INVALID_TRANSACTION) as Hinv
    by (intros r Hr; by apply HR).
  split_and!; [|done|].
  - intros r Hr. specialize (H1 r Hr). destruct (HR r) as [[_ M] Md].
    unfold row_versions in *. injection H1 as Hi Hd. f_equal; [|congruence].
    destruct M as [->|[[Ei _]|Hin]]; [done| |unfold in_range in Hin; lia].
    rewrite Hi in Ei. by apply Hfresh in Ei.
  - intros st id r Hr Hin. rewrite isSelected_ok by done. unfold row_visible.
    rewrite Hinv by done. by rewrite version_visible_invalid.
Qed.

(** C38: deleting a row.  The first transaction to delete a visible row stamps it;
    deleting it again in the same transaction is a no-op that reports [false]; any
    other transaction gets the write-write conflict.  No other row's versions
    change in any of the three cases. *)
Theorem delete_first_wins tx r vi :
  vi_wf vi → proper_version tx → ins_version vi r ≠ INVALID_TRANSACTION →
  ∃ vi', delete_ tx r vi = (vi', delete_outcome tx (del_version vi r)) ∧ vi_wf vi' ∧
    (∀ r', ins_version vi' r' = ins_version vi r') ∧
    (∀ r', del_version vi' r' =
       if decide (r' = r ∧ del_version vi r = INVALID_TRANSACTION) then tx
       else del_version vi r').
Proof.
  intros Hwf [Htx _] Hvis. destruct (row_split r) as [Er Hr].
  set (idx := (r / CAP)%nat) in *. set (i := (r mod CAP)%nat) in *.
  rewrite <- Er in Hvis.
  destruct (mark_checkpointed idx vi i Hwf Hr Hvis) as [Hwf1 Hrows].
  unfold delete_. fold idx i.
  destruct (getOrCreateVersionInfo idx vi) as [vi1 v] eqn:E1.
  destruct (getOrCreate_spec _ _ _ _ E1) as (-> & Hlen & Hother).
  set (v1 := if bool_decide _ then _ else _) in *.
  destruct (vvi_delete_spec tx i v1 Hwf1 Htx Hr) as (v' & Ed & Hwf' & Hins & Hdel).
  rewrite Ed. assert (del_version vi r = vvi_del v1 i) as Edr.
  { pose proof (Hrows i Hr) as Hrow. rewrite Er in Hrow. unfold row_versions in Hrow. congruence. }
  rewrite Edr. eexists. split; [done|].
  assert (∀ jdx, getVectorVersionInfo jdx (setVectorVersionInfo idx v' vi1) =
    if decide (idx = jdx) then Some v' else getVectorVersionInfo jdx vi) as Hget.
  { intros jdx. rewrite getVectorVersionInfo_set by done. destruct (decide (idx = jdx)); [done|by apply Hother]. }
  split; [|split].
  - intros jdx w. rewrite Hget.
    destruct (decide (idx = jdx)); [by intros [= <-]|apply Hwf].
  - intros r'. destruct (row_split r') as [Er' Hr']. unfold ins_version at 1. rewrite Hget.
    destruct (decide (idx = r' / CAP)%nat) as [Ej|Ej].
    + rewrite Hins. pose proof (Hrows _ Hr') as Hrow. rewrite Ej, Er' in Hrow.
      unfold row_versions in Hrow. congruence.
    + done.
  - intros r'. destruct (row_split r') as [Er' Hr']. unfold del_version at 1. rewrite Hget.
    destruct (decide (idx = r' / CAP)%nat) as [Ej|Ej].
    + rewrite Hdel. pose proof (Hrows _ Hr') as Hrow. rewrite Ej, Er' in Hrow.
      unfold row_versions in Hrow. injection Hrow as _ Hrow. rewrite <- Hrow.
      assert (r' mod CAP = i ↔ r' = r)%nat as Hiff.
      { split; [intros Em|by intros ->]. rewrite <- Er', <- Er, <- Ej. lia. }
      destruct (decide (r' mod CAP = i ∧ _)%nat), (decide (r' = r ∧ _)); naive_solver.
    + rewrite decide_False; [done|]. by intros [-> _].
Qed.


(** the number of deletions a reader is told about a range is the number of rows
    of the range that are deleted for it. *)
Theorem getNumDeletions_counts st id start n vi :
  vi_wf vi → reader_wf st id →
  getNumDeletions st id start n vi =
  Ok (length (filter (λ i, isDeleted st id (start + i) vi = Ok true) (seq 0 n))).
Proof.
  intros Hwf Hr. unfold getNumDeletions. case_bool_decide as Hn; [by subst|].
  set (D i := version_visible st id (del_version vi (start + i)) = true).
  assert (∀ l, length (filter (λ i, isDeleted st id (start + i) vi = Ok true) l) =
               length (filter D l)) as EqD.
  { intros l. f_equal. apply list_filter_iff. intros i. rewrite isDeleted_ok by done.
    unfold D. split; [by intros [= ->]|by intros ->]. }
  rewrite EqD.
  cbv zeta. match goal with |- foldM ?f _ _ = _ =>
    destruct (vectors_walk start n (λ c pos, c = length (filter D (seq 0 pos))) f 0%nat)
      as (c & E & Hc); [lia|done| |rewrite Hc in E; exact E] end.
  intros idx s k c pos Hidx Er Hle Hk Hp Hpk ->.
  unfold rangeInVector in Er. cbv beta.
  assert ((if bool_decide (idx = start / CAP)%nat then (start mod CAP)%nat else 0%nat) = s) as ->
    by congruence.
  assert ((if bool_decide (idx = (start + n - 1) / CAP)%nat
           then (start + n - 1) mod CAP - s + 1 else CAP - s)%nat = k) as ->.
  { injection Er as <- <-. pose proof CAP_neq_0.
    pose proof (Nat.mod_upper_bound start CAP ltac:(done)).
    repeat case_bool_decide; lia. }
  rewrite seq_app, filter_app, length_app.
  destruct (getVectorVersionInfo idx vi) as [v|] eqn:Ev.
  - rewrite vvi_getNumDeletions_spec by (done || by eapply Hwf). cbn [mbind result_bind].
    eexists. split; [done|]. f_equal. apply filter_seq_shift. intros i Hi. unfold D.
    replace (start + (0 + pos + i))%nat with (idx * CAP + (s + i))%nat by lia.
    by rewrite (del_version_vec _ _ _ v) by (done || lia).
  - eexists. split; [done|]. rewrite (filter_seq_none D (0 + pos)); [simpl; lia|].
    intros i Hi. unfold D. replace (start + i)%nat with (idx * CAP + (s + (i - pos)))%nat by lia.
    pose proof (row_versions_None vi idx (s + (i - pos)) ltac:(lia) Ev) as Erow.
    unfold row_versions in Erow. injection Erow as _ ->. by rewrite version_visible_invalid.
Qed.
End Theorems.

(** ** Witnesses, with vectors of four rows *)

Definition config4 : SystemConfig.
Proof. refine {| VECTOR_CAPACITY_LOG_2 := 2 |}. lia. Defined.
#[local] Existing Instance config4.

Definition T1 : Z := START_TRANSACTION_ID + 1.
Definition T2 : Z := START_TRANSACTION_ID + 2.

Definition get_ok {A} (d : A) (r : result A) : A := match r with Ok a => a | _ => d end.

(** Six rows committed at timestamp 3 and five more appended by [T1], which also
    deletes rows 1 and 7. *)
Definition ex_committed : VersionInfo :=
  get_ok newVersionInfo (@append config4 3 0 6 newVersionInfo).
Definition ex_appended : VersionInfo :=
  get_ok newVersionInfo (@append config4 T1 6 5 ex_committed).
Definition ex_deleted : VersionInfo :=
  fst (@delete_ config4 T1 7 (fst (@delete_ config4 T1 1 ex_appended))).
Definition ex_records : list RowRecord :=
  [mkRowRecord INSERT_INFO 6 5; mkRowRecord DELETE_INFO 1 1; mkRowRecord DELETE_INFO 7 1].

Lemma forall_below (P : nat → Prop) (N : nat) :
  Forall P (seq 0 N) → ∀ r, (r < N)%nat → P r.
Proof. intros HF r Hr. rewrite Forall_forall in HF. apply HF, elem_of_seq. lia. Qed.

(** [ex_records] names exactly the rows [T1] inserted and deleted. *)
Lemma ex_records_complete :
  (∀ r, covered INSERT_INFO ex_records r → (r < 11)%nat ∧ ins_version ex_deleted r = T1) ∧
  (∀ r, covered DELETE_INFO ex_records r → (r < 11)%nat ∧ del_version ex_deleted r = T1) ∧
  (∀ r, (r < 11)%nat → ins_version ex_deleted r = T1 → covered INSERT_INFO ex_records r) ∧
  (∀ r, (r < 11)%nat → del_version ex_deleted r = T1 → covered DELETE_INFO ex_records r).
Proof.
  split_and!.
  - intros r (rec & Hin & Hty & Hr). unfold ex_records in Hin.
    repeat (apply elem_of_cons in Hin as [->|Hin];
      [try discriminate Hty; unfold in_range in Hr; cbn in Hr|]); [|by apply not_elem_of_nil in Hin].
    split; [lia|]. apply (forall_below (λ r, (6 ≤ r)%nat → ins_version ex_deleted r = T1) 11); [|lia..].
    repeat constructor; intros ?; try lia; vm_compute; reflexivity.
  - intros r (rec & Hin & Hty & Hr). unfold ex_records in Hin.
    repeat (apply elem_of_cons in Hin as [->|Hin];
      [try discriminate Hty; unfold in_range in Hr; cbn in Hr|]); [| |by apply not_elem_of_nil in Hin].
    + assert (r = 1%nat) as -> by lia. split; [lia|]. vm_compute. reflexivity.
    + assert (r = 7%nat) as -> by lia. split; [lia|]. vm_compute. reflexivity.
  - apply (forall_below (λ r, ins_version ex_deleted r = T1 → covered INSERT_INFO ex_records r)).
    repeat constructor; intros E; try (vm_compute in E; discriminate E);
      (exists (mkRowRecord INSERT_INFO 6 5); split; [left|split; [reflexivity|split; cbn; lia]]).
  - apply (forall_below (λ r, del_version ex_deleted r = T1 → covered DELETE_INFO ex_records r)).
    repeat constructor; intros E; try (vm_compute in E; discriminate E);
      [exists (mkRowRecord DELETE_INFO 1 1)|exists (mkRowRecord DELETE_INFO 7 1)];
      (split; [unfold ex_records; repeat (left || right)|split; [reflexivity|split; cbn; lia]]).
Qed.

Lemma ex_deleted_wf : vi_wf ex_deleted.
Proof. apply vi_wfb_sound. vm_compute. reflexivity. Qed.

Lemma isSelected_snapshot_witness :
  @isSelected config4 3 T2 1 ex_deleted = Ok true ∧
  @isSelected config4 3 T1 1 ex_deleted = Ok false.
Proof.
  split.
  - rewrite (@isSelected_snapshot config4); [vm_compute; reflexivity| |].
    + apply vi_wfb_sound. vm_compute. reflexivity.
    + vm_compute. split; split; congruence.
  - vm_compute. reflexivity.
Defined.

Lemma append_versions_witness :
  ∃ vi', @append config4 T1 6 5 ex_committed = Ok vi' ∧
    @row_versions config4 vi' 5 = (3, INVALID_TRANSACTION) ∧
    @ins_version config4 vi' 10 = T1.
Proof.
  destruct (@append_versions config4 T1 6 5 ex_committed)
    as (vi' & E & _ & _ & H1 & H2 & _).
  - apply vi_wfb_sound. vm_compute. reflexivity.
  - split; vm_compute; congruence.
  - intros _. eexists. split; vm_compute; reflexivity.
  - exists vi'. split; [exact E|]. split.
    + rewrite H1 by lia. vm_compute. reflexivity.
    + apply H2. unfold in_range. lia.
Defined.

Lemma commit_atomic_for_readers_witness :
  ∃ vi', @commitRowRecords config4 9 ex_records ex_deleted = Ok vi' ∧
    @ins_version config4 vi' 8 = 9 ∧ @del_version config4 vi' 1 = 9 ∧
    @isSelected config4 5 T2 1 vi' = Ok true.
Proof.
  destruct (@commit_atomic_for_readers config4 T1 9 ex_records 11 ex_deleted)
    as (vi' & E & _ & HR).
  - apply vi_wfb_sound. vm_compute. reflexivity.
  - split; vm_compute; congruence.
  - split; vm_compute; congruence.
  - apply ex_records_complete.
  - apply ex_records_complete.
  - apply ex_records_complete.
  - apply ex_records_complete.
  - exists vi'. split; [exact E|]. destruct (HR 8%nat ltac:(lia)) as (Hi & _ & _).
    destruct (HR 1%nat ltac:(lia)) as (_ & Hd & Hs). split_and!.
    + rewrite Hi. vm_compute. reflexivity.
    + rewrite Hd. vm_compute. reflexivity.
    + rewrite (Hs 5 T2); [vm_compute; reflexivity|..]; vm_compute; try congruence.
      split; split; congruence.
Defined.

Lemma append_rollback_restores_witness :
  ∃ vi', @rollbackInsert config4 6 5 ex_appended = Ok vi' ∧
    @row_versions config4 vi' 5 = (3, INVALID_TRANSACTION) ∧
    @isSelected config4 100 T1 8 vi' = Ok false.
Proof.
  destruct (@append_rollback_restores config4 T1 6 5 ex_committed ex_appended)
    as (vi' & E & _ & H1 & _ & H3).
  - apply vi_wfb_sound. vm_compute. reflexivity.
  - split; vm_compute; congruence.
  - intros _. eexists. split; vm_compute; reflexivity.
  - apply (forall_below (λ r, ins_version ex_committed r ≠ T1)).
    repeat constructor; vm_compute; congruence.
  - vm_compute. reflexivity.
  - intros idx v Hidx.
    assert (@vectorsOfRange config4 6 5 = [1; 2]%nat) as El by (vm_compute; reflexivity).
    rewrite El in Hidx.
    repeat (apply elem_of_cons in Hidx as [->|Hidx]; [vm_compute; intros [= <-]; left; reflexivity|]).
    by apply not_elem_of_nil in Hidx.
  - exists vi'. split; [exact E|]. split.
    + rewrite H1 by lia. vm_compute. reflexivity.
    + apply H3; [vm_compute; split; split; congruence|unfold in_range; lia].
Defined.

(** [T2] cannot delete row 1, which [T1] deleted; [T1] can, and is told it already did. *)
Lemma delete_first_wins_witness :
  snd (@delete_ config4 T2 1 ex_deleted) = throw RuntimeException write_write_conflict ∧
  snd (@delete_ config4 T1 1 ex_deleted) = Ok false ∧
  snd (@delete_ config4 T2 2 ex_deleted) = Ok true.
Proof.
  assert (vi_wf ex_deleted) as Hwf by (apply vi_wfb_sound; vm_compute; reflexivity).
  split_and!; [destruct (@delete_first_wins config4 T2 1 ex_deleted) as (vi' & E & _)
              |destruct (@delete_first_wins config4 T1 1 ex_deleted) as (vi' & E & _)
              |destruct (@delete_first_wins config4 T2 2 ex_deleted) as (vi' & E & _)];
    try (rewrite E; vm_compute; reflexivity); try exact Hwf;
    first [split; vm_compute; congruence | vm_compute; congruence].
Defined.


Lemma getNumDeletions_counts_witness :
  @getNumDeletions config4 3 T1 0 11 ex_deleted = Ok 2%nat.
Proof.
  rewrite (@getNumDeletions_counts config4); [vm_compute; reflexivity| |].
  - apply vi_wfb_sound. vm_compute. reflexivity.
  - vm_compute. split; split; congruence.
Defined.

(** A rolled-back vector in front: a vector without version info behind it extends the
    still unfiltered selection vector, which then lists the first positions instead of its
    own.  Four rows, all the wrong ones. *)
Example scan_after_rolled_back_vector :
  let vi := get_ok newVersionInfo
              (vi ← @append config4 T1 0 4 newVersionInfo; @rollbackInsert config4 0 4 vi) in
  (sel_list <$> @getSelVectorToScan config4 3 T2 0 8 vi (newSelectionVector 16))
    = Ok [0; 1; 2; 3]%nat ∧
  filter (λ i, @isSelected config4 3 T2 i vi = Ok true) (seq 0 8) = [4; 5; 6; 7]%nat.
Proof. vm_compute. split; reflexivity. Qed.
