(* ===== verification/Transaction.v ===== *)
(** * Transactions and the storage they act on (transaction/transaction.{h,cpp})

    A [Transaction] object keeps its type, its ID, the timestamps of its snapshot
    and of its commit, and two flags.  What a commit or a rollback does to the data
    goes through the undo buffer, the local storage, the WAL and the catalog; this
    file states that boundary as the class [TransactionStorage], one operation per
    call of the code, each of which may throw and leave the store half changed.
    The manager and the connection contexts are verified against the class. *)

From S2P Require Import Prelude.

Inductive TransactionType : Type := READ_ONLY | WRITE | CHECKPOINT | DUMMY | RECOVERY.

#[export] Instance TransactionType_eq_dec : EqDecision TransactionType.
Proof. solve_decision. Defined.

Record Transaction : Type := mkTransaction {
  type : TransactionType;
  ID : Z;
  startTS : Z;
  commitTS : Z;
  forceCheckpoint : bool;
  hasCatalogChanges : bool;
}.

#[export] Instance Transaction_eq_dec : EqDecision Transaction.
Proof. solve_decision. Defined.

(** The constructor of user transactions; the two [noexcept] ones differ in the
    members that are null. *)
Definition newTransaction (ty : TransactionType) (transactionID start : Z) : Transaction :=
  {| type := ty; ID := transactionID; startTS := start; commitTS := INVALID_TRANSACTION;
     forceCheckpoint := false; hasCatalogChanges := false |}.

Definition DUMMY_TRANSACTION : Transaction :=
  newTransaction DUMMY DUMMY_TRANSACTION_ID DUMMY_START_TIMESTAMP.

Definition DUMMY_CHECKPOINT_TRANSACTION : Transaction :=
  newTransaction CHECKPOINT DUMMY_TRANSACTION_ID (START_TRANSACTION_ID - 1).

Definition set_commitTS (ts : Z) (t : Transaction) : Transaction :=
  mkTransaction (type t) (ID t) (startTS t) ts (forceCheckpoint t) (hasCatalogChanges t).
Definition setForceCheckpoint (t : Transaction) : Transaction :=
  mkTransaction (type t) (ID t) (startTS t) (commitTS t) true (hasCatalogChanges t).
Definition set_hasCatalogChanges (b : bool) (t : Transaction) : Transaction :=
  mkTransaction (type t) (ID t) (startTS t) (commitTS t) (forceCheckpoint t) b.

Definition isReadOnly (t : Transaction) : bool := bool_decide (type t = READ_ONLY).
Definition isWriteTransaction (t : Transaction) : bool := bool_decide (type t = WRITE).
Definition isDummy (t : Transaction) : bool := bool_decide (type t = DUMMY).
Definition isRecovery (t : Transaction) : bool := bool_decide (type t = RECOVERY).
Definition shouldAppendToUndoBuffer (t : Transaction) : bool :=
  isWriteTransaction t || isRecovery t.

(** The settings of the database and the connection that the code consults. *)
Record DBConfig : Type := mkDBConfig {
  isInMemory : bool;
  enableMultiWrites : bool;
  autoCheckpoint : bool;
  checkpointThreshold : Z;
}.

(** The storage calls of a commit, a rollback and a checkpoint. *)
Class TransactionStorage : Type := {
  store : Type;
  localStorage_commit : Z → stM store ();
  localStorage_rollback : Z → stM store ();
  undoBuffer_commit : Z → Z → stM store ();
  undoBuffer_rollback : Z → stM store ();
  localWAL_logBegin : Z → stM store ();
  localWAL_logCommit : Z → stM store ();
  wal_logCommittedWAL : Z → stM store ();
  localWAL_clear : Z → stM store ();
  localWAL_size : Z → store → Z;
  wal_fileSize : store → Z;
  catalog_incrementVersion : stM store ();
  checkpointer_begin : Z → stM store ();
  checkpointer_wasWalRotated : store → bool;
  checkpointer_storagePhase : stM store ();
  checkpointer_finish : stM store ();
  checkpointer_postCleanup : stM store ();
  checkpointer_rollback : stM store ();
}.

Section Transaction.
Context `{TransactionStorage}.

Definition shouldLogToWAL (cfg : DBConfig) (t : Transaction) : bool :=
  isWriteTransaction t && negb (isInMemory cfg).

Definition shouldForceCheckpoint (cfg : DBConfig) (t : Transaction) : bool :=
  negb (isInMemory cfg) && forceCheckpoint t.

(** [Transaction::commit].  The flag [hasCatalogChanges] is cleared at the end; the
    object is destroyed by the manager right after, so only the store matters. *)
Definition tx_commit (cfg : DBConfig) (t : Transaction) : stM store () :=
  _ ← localStorage_commit (ID t);
  _ ← undoBuffer_commit (ID t) (commitTS t);
  _ ← (if shouldLogToWAL cfg t then
         _ ← localWAL_logCommit (ID t);
         _ ← wal_logCommittedWAL (ID t);
         localWAL_clear (ID t)
       else mret ());
  if hasCatalogChanges t then catalog_incrementVersion else mret ().

(** [Transaction::rollback]: the undo buffer first, it may scan local pages. *)
Definition tx_rollback (t : Transaction) : stM store () :=
  _ ← undoBuffer_rollback (ID t);
  localStorage_rollback (ID t).

(** [Checkpointer::canAutoCheckpoint] (storage/checkpointer.cpp); the sum of the two
    sizes is a [uint64_t]. *)
Definition canAutoCheckpoint (cfg : DBConfig) (t : Transaction) (s : store) : bool :=
  if isInMemory cfg then false
  else if negb (autoCheckpoint cfg) then false
  else if isRecovery t then false
  else
    let expectedSize := wrap 64 (localWAL_size (ID t) s + wal_fileSize s) in
    bool_decide (checkpointThreshold cfg < expectedSize).

End Transaction.
