(* ===== verification/TransactionManager.v ===== *)
(** * The transaction manager (transaction/transaction_manager.{h,cpp})

    Begin, commit, rollback and checkpoint as state transformers.  Each of them runs
    under the mutex [mtxForSerializingPublicFunctionCalls], so a history of the
    manager is a sequence of these steps; what the other two mutexes do is the
    subject of TransactionConcurrency.v.  A [Transaction*] is the ID of the object
    it points to: a pointer whose object has left [activeTransactions] dangles, and
    using it is undefined behaviour. *)

From S2P Require Import Prelude.
From S2P Require Import Transaction.

Definition THREAD_SLEEP_TIME_WHEN_WAITING_IN_MICROS : Z := 500.
Definition DEFAULT_CHECKPOINT_WAIT_TIMEOUT_IN_MICROS : Z := 5000000.

Record TransactionManager : Type := mkTransactionManager {
  activeTransactions : list Transaction;
  lastTransactionID : Z;
  lastTimestamp : Z;
  activeWriteTransactionCount : Z;
  checkpointWaitTimeoutInMicros : Z;
}.

Definition newTransactionManager : TransactionManager :=
  {| activeTransactions := []; lastTransactionID := START_TRANSACTION_ID;
     lastTimestamp := 1; activeWriteTransactionCount := 0;
     checkpointWaitTimeoutInMicros := DEFAULT_CHECKPOINT_WAIT_TIMEOUT_IN_MICROS |}.

Definition set_activeTransactions l (m : TransactionManager) : TransactionManager :=
  mkTransactionManager l (lastTransactionID m) (lastTimestamp m)
    (activeWriteTransactionCount m) (checkpointWaitTimeoutInMicros m).
Definition set_lastTransactionID i (m : TransactionManager) : TransactionManager :=
  mkTransactionManager (activeTransactions m) i (lastTimestamp m)
    (activeWriteTransactionCount m) (checkpointWaitTimeoutInMicros m).
Definition set_lastTimestamp ts (m : TransactionManager) : TransactionManager :=
  mkTransactionManager (activeTransactions m) (lastTransactionID m) ts
    (activeWriteTransactionCount m) (checkpointWaitTimeoutInMicros m).
Definition set_activeWriteTransactionCount c (m : TransactionManager) : TransactionManager :=
  mkTransactionManager (activeTransactions m) (lastTransactionID m) (lastTimestamp m)
    c (checkpointWaitTimeoutInMicros m).

(** The atomic counter is a [uint32_t]. *)
Definition hasActiveWriteTransactionNoLock (m : TransactionManager) : bool :=
  bool_decide (0 < activeWriteTransactionCount m).
Definition countWriter (d : Z) (m : TransactionManager) : TransactionManager :=
  set_activeWriteTransactionCount (wrap 32 (activeWriteTransactionCount m + d)) m.

Definition hasNoActiveTransactions (m : TransactionManager) : bool :=
  match activeTransactions m with [] => true | _ => false end.

Definition findTransaction (i : Z) (m : TransactionManager) : option Transaction :=
  list_find (λ t, ID t = i) (activeTransactions m) ≫= λ p, Some (snd p).

(** [std::erase_if(activeTransactions, ID == transactionID)] *)
Definition clearTransactionNoLock (i : Z) (m : TransactionManager) : TransactionManager :=
  set_activeTransactions (filter (λ t, ID t ≠ i) (activeTransactions m)) m.

(** [transaction->commitTS = ts] through the pointer. *)
Definition updateTransaction (i : Z) (f : Transaction → Transaction) (m : TransactionManager) :
    TransactionManager :=
  set_activeTransactions
    (map (λ t, if decide (ID t = i) then f t else t) (activeTransactions m)) m.

Definition one_writer_only : string :=
  "Cannot start a new write transaction in the system. Only one write transaction at a time is allowed in the system.".
Definition drain_timeout : string :=
  "Timeout waiting for active write transactions to leave the system before checkpointing. If you have an open write transaction, please close it and try again.".

(** The drain loop of a checkpoint: [busy n] is what the poll number [n] reads from
    the atomic counter.  [fuel] bounds the polls; [drain_fuel] is always enough. *)
Fixpoint drain (timeout : Z) (busy : nat → bool) (fuel : nat) (numTimesWaited : Z) (poll : nat) :
    option (result ()) :=
  match fuel with
  | O => None
  | S fuel =>
      if negb (busy poll) then Some (Ok ())
      else
        let numTimesWaited := wrap 64 (numTimesWaited + 1) in
        if bool_decide (timeout <
             wrap 64 (numTimesWaited * THREAD_SLEEP_TIME_WHEN_WAITING_IN_MICROS))
        then Some (throw TransactionManagerException drain_timeout)
        else drain timeout busy fuel numTimesWaited (S poll)
  end.

Definition drain_fuel (timeout : Z) : nat :=
  Z.to_nat (timeout / THREAD_SLEEP_TIME_WHEN_WAITING_IN_MICROS + 2).

(** try / catch (std::exception&): undefined behaviour is not caught. *)
Definition st_catch {S A} (m : stM S A) (h : exn → stM S A) : stM S A := λ s,
  match m s with
  | (s', Throw e) => h e s'
  | r => r
  end.

Section TransactionManager.
Context `{TransactionStorage}.

(** What the manager's operations act on. *)
Record World : Type := mkWorld { tm : TransactionManager; db : store }.

Definition on_tm (f : TransactionManager → TransactionManager) : stM World () :=
  λ w, (mkWorld (f (tm w)) (db w), Ok ()).
Definition on_db {A} (m : stM store A) : stM World A :=
  λ w, let '(s, r) := m (db w) in (mkWorld (tm w) s, r).

(** The polls a drain makes when no other thread moves. *)
Definition stopNewWriteTransactionsAndWaitUntilAllWriteTransactionsLeave : stM World () :=
  λ w,
  (w, match drain (checkpointWaitTimeoutInMicros (tm w))
              (λ _, hasActiveWriteTransactionNoLock (tm w))
              (drain_fuel (checkpointWaitTimeoutInMicros (tm w))) 0 0 with
      | Some r => r
      | None => UB
      end).

Definition rollbackAndRethrow (e : exn) : stM World () :=
  _ ← on_db checkpointer_rollback;
  st_throw CheckpointException (what e).

Definition checkpointNoLock : stM World () :=
  _ ← st_catch stopNewWriteTransactionsAndWaitUntilAllWriteTransactionsLeave
        (λ e, st_throw CheckpointException (what e));
  w ← st_get;
  _ ← st_catch (on_db (checkpointer_begin (lastTimestamp (tm w)))) rollbackAndRethrow;
  _ ← st_catch (on_db checkpointer_storagePhase) rollbackAndRethrow;
  _ ← st_catch (on_db checkpointer_finish) rollbackAndRethrow;
  on_db checkpointer_postCleanup.

Definition checkpoint (cfg : DBConfig) : stM World () :=
  if isInMemory cfg then mret () else checkpointNoLock.

(** [tryCheckpoint]: [gotLock] is the outcome of [std::try_to_lock]. *)
Definition tryCheckpoint (cfg : DBConfig) (gotLock : bool) : stM World () :=
  if isInMemory cfg then mret ()
  else if negb gotLock then mret ()
  else checkpointNoLock.

(** [++lastTransactionID], and the object pushed to [activeTransactions]. *)
Definition newID : stM World Z := λ w,
  let i := wrap 64 (lastTransactionID (tm w) + 1) in
  (mkWorld (set_lastTransactionID i (tm w)) (db w), Ok i).
Definition pushTransaction (t : Transaction) : stM World () :=
  on_tm (λ m, set_activeTransactions (activeTransactions m ++ [t]) m).

Definition beginTransaction (cfg : DBConfig) (ty : TransactionType) : stM World Z :=
  match ty with
  | READ_ONLY =>
      i ← newID;
      w ← st_get;
      _ ← pushTransaction (newTransaction ty i (lastTimestamp (tm w)));
      mret i
  | RECOVERY | WRITE =>
      w ← st_get;
      if negb (enableMultiWrites cfg) && hasActiveWriteTransactionNoLock (tm w)
      then st_throw TransactionManagerException one_writer_only
      else
        i ← newID;
        let t := newTransaction ty i (lastTimestamp (tm w)) in
        _ ← (if shouldLogToWAL cfg t then on_db (localWAL_logBegin i) else mret ());
        _ ← on_tm (countWriter 1);
        _ ← pushTransaction t;
        mret i
  | _ => st_throw TransactionManagerException
           "Invalid transaction type to begin transaction."
  end.

(** Dereferencing the [Transaction*] argument of commit and rollback. *)
Definition getTransaction (i : Z) : stM World Transaction := λ w,
  (w, deref (findTransaction i (tm w))).

(** The part of [commit] under the lock; the result is [shouldCheckpoint]. *)
Definition commitLocked (cfg : DBConfig) (i : Z) : stM World bool :=
  t ← getTransaction i;
  match type t with
  | READ_ONLY => _ ← on_tm (clearTransactionNoLock i); mret false
  | RECOVERY | WRITE =>
      _ ← on_tm (λ m, set_lastTimestamp (wrap 64 (lastTimestamp m + 1)) m);
      w ← st_get;
      let t := set_commitTS (lastTimestamp (tm w)) t in
      _ ← on_tm (updateTransaction i (set_commitTS (lastTimestamp (tm w))));
      _ ← on_db (tx_commit cfg t);
      w ← st_get;
      let shouldCheckpoint := shouldForceCheckpoint cfg t || canAutoCheckpoint cfg t (db w) in
      _ ← on_tm (clearTransactionNoLock i);
      _ ← on_tm (countWriter (-1));
      mret shouldCheckpoint
  | _ => st_throw TransactionManagerException "Invalid transaction type to commit."
  end.

Definition commit (cfg : DBConfig) (gotLock : bool) (i : Z) : stM World () :=
  shouldCheckpoint ← commitLocked cfg i;
  if (shouldCheckpoint : bool) then tryCheckpoint cfg gotLock else mret ().

Definition rollback (i : Z) : stM World () :=
  t ← getTransaction i;
  match type t with
  | READ_ONLY => on_tm (clearTransactionNoLock i)
  | RECOVERY | WRITE =>
      _ ← on_db (tx_rollback t);
      _ ← on_tm (clearTransactionNoLock i);
      on_tm (countWriter (-1))
  | _ => st_throw TransactionManagerException "Invalid transaction type to rollback."
  end.

End TransactionManager.
