(* ===== verification/TransactionContext.v ===== *)
(** * Connections and their transactions

    [TransactionContext] (transaction/transaction_context.cpp), the statement
    runner [ClientContext::TransactionHelper] (main/client_context.cpp) and the
    physical operator of transaction statements (processor/operator/transaction.cpp).
    A connection's state is its mode and its [activeTransaction] pointer; the
    manager and the store are shared with the other connections. *)

From S2P Require Import Prelude.
From S2P Require Import Transaction.
From S2P Require Import TransactionManager.

Inductive TransactionMode : Type := AUTO | MANUAL.
Inductive TransactionAction : Type :=
  | ACTION_BEGIN_READ | ACTION_BEGIN_WRITE | ACTION_COMMIT | ACTION_ROLLBACK
  | ACTION_CHECKPOINT.
Inductive TransactionCommitAction : Type :=
  | COMMIT_IF_NEW | COMMIT_IF_AUTO | COMMIT_NEW_OR_AUTO | NOT_COMMIT.

#[export] Instance TransactionMode_eq_dec : EqDecision TransactionMode.
Proof. solve_decision. Defined.
#[export] Instance TransactionCommitAction_eq_dec : EqDecision TransactionCommitAction.
Proof. solve_decision. Defined.

Definition action_toString (a : TransactionAction) : string :=
  match a with
  | ACTION_BEGIN_READ => "BEGIN_READ"
  | ACTION_BEGIN_WRITE => "BEGIN_WRITE"
  | ACTION_COMMIT => "COMMIT"
  | ACTION_ROLLBACK => "ROLLBACK"
  | ACTION_CHECKPOINT => "CHECKPOINT"
  end.

Definition commitIfNew (a : TransactionCommitAction) : bool :=
  bool_decide (a = COMMIT_IF_NEW) || bool_decide (a = COMMIT_NEW_OR_AUTO).
Definition commitIfAuto (a : TransactionCommitAction) : bool :=
  bool_decide (a = COMMIT_IF_AUTO) || bool_decide (a = COMMIT_NEW_OR_AUTO).
Definition getAction (ifNew ifAuto : bool) : TransactionCommitAction :=
  if ifNew && ifAuto then COMMIT_NEW_OR_AUTO
  else if ifNew then COMMIT_IF_NEW
  else if ifAuto then COMMIT_IF_AUTO
  else NOT_COMMIT.

Definition exn_CheckpointException (e : exn) : bool :=
  bool_decide (exn_kind e = CheckpointException).

Section TransactionContext.
Context `{TransactionStorage}.
Context (cfg : DBConfig).

(** One connection and the part of the system it shares. *)
Record Connection : Type := mkConnection {
  mode : TransactionMode;
  activeTransaction : option Z;
  world : World;
}.

Definition set_mode (m : TransactionMode) : stM Connection () :=
  st_modify (λ c, mkConnection m (activeTransaction c) (world c)).
Definition set_activeTransaction (o : option Z) : stM Connection () :=
  st_modify (λ c, mkConnection (mode c) o (world c)).
Definition on_world {A} (m : stM World A) : stM Connection A := λ c,
  let '(w, r) := m (world c) in (mkConnection (mode c) (activeTransaction c) w, r).

Definition hasActiveTransaction (c : Connection) : bool :=
  bool_decide (activeTransaction c ≠ None).
Definition isAutoTransaction (c : Connection) : bool := bool_decide (mode c = AUTO).

Definition beginTransactionInternal (ty : TransactionType) : stM Connection () :=
  i ← on_world (beginTransaction cfg ty);
  set_activeTransaction (Some i).

Definition beginReadTransaction : stM Connection () :=
  _ ← set_mode MANUAL; beginTransactionInternal READ_ONLY.
Definition beginWriteTransaction : stM Connection () :=
  _ ← set_mode MANUAL; beginTransactionInternal WRITE.
Definition beginRecoveryTransaction : stM Connection () :=
  _ ← set_mode MANUAL; beginTransactionInternal RECOVERY.

Definition beginAutoTransaction (readOnlyStatement : bool) : stM Connection () :=
  c ← st_get;
  if hasActiveTransaction c then
    st_throw TransactionManagerException
      "Cannot start a new transaction while there is an active transaction."
  else beginTransactionInternal (if readOnlyStatement then READ_ONLY else WRITE).

(** [validateManualTransaction]: dereferences [activeTransaction]. *)
Definition validateManualTransaction (readOnlyStatement : bool) (c : Connection) : result () :=
  i ← deref (activeTransaction c);
  t ← deref (findTransaction i (tm (world c)));
  if isReadOnly t && negb readOnlyStatement then
    throw TransactionManagerException
      "Can not execute a write query inside a read-only transaction."
  else Ok ().

Definition clearTransaction : stM Connection () :=
  _ ← set_activeTransaction None; set_mode AUTO.

(** [TransactionContext::commit] and [rollback]; an exception skips the clearing. *)
Definition ctx_commit (gotLock : bool) : stM Connection () :=
  c ← st_get;
  match activeTransaction c with
  | None => mret ()
  | Some i => _ ← on_world (TransactionManager.commit cfg gotLock i); clearTransaction
  end.

Definition ctx_rollback : stM Connection () :=
  c ← st_get;
  match activeTransaction c with
  | None => mret ()
  | Some i => _ ← on_world (TransactionManager.rollback i); clearTransaction
  end.

(** [ClientContext::validateTransaction]; [canWrite] is [canExecuteWriteQuery()]. *)
Definition validateTransaction (canWrite readOnly requireTransaction : bool) (c : Connection) :
    result () :=
  if negb canWrite && negb readOnly then
    throw ConnectionException "Cannot execute write operations in a read-only database!"
  else if requireTransaction && hasActiveTransaction c then
    validateManualTransaction readOnly c
  else Ok ().

(** [TransactionHelper::runFuncInTransaction]: [fn] is the statement's body. *)
Definition runFuncInTransaction (gotLock : bool) (fn : stM Connection ())
    (readOnlyStatement isTransactionStatement : bool) (action : TransactionCommitAction) :
    stM Connection () :=
  c ← st_get;
  let requireNewTransaction :=
    isAutoTransaction c && negb (hasActiveTransaction c) && negb isTransactionStatement in
  _ ← (if requireNewTransaction then beginAutoTransaction readOnlyStatement else mret ());
  st_catch
    (_ ← fn;
     c ← st_get;
     if (requireNewTransaction && commitIfNew action) ||
        (isAutoTransaction c && commitIfAuto action)
     then ctx_commit gotLock else mret ())
    (λ e, _ ← (if exn_CheckpointException e then clearTransaction else ctx_rollback);
          st_lift (Throw e)).

(** The operator of BEGIN, COMMIT, ROLLBACK and CHECKPOINT statements. *)
Definition validateActiveTransaction (a : TransactionAction) (c : Connection) : result () :=
  match a with
  | ACTION_BEGIN_READ | ACTION_BEGIN_WRITE =>
      if hasActiveTransaction c then
        throw TransactionManagerException
          "Connection already has an active transaction. Cannot start a transaction within another one. For concurrent multiple transactions, please open other connections."
      else Ok ()
  | ACTION_COMMIT | ACTION_ROLLBACK =>
      if negb (hasActiveTransaction c) then
        throw TransactionManagerException
          ("No active transaction for " +:+ action_toString a +:+ ".")
      else Ok ()
  | ACTION_CHECKPOINT =>
      if hasActiveTransaction c then
        throw TransactionManagerException
          ("Found active transaction for " +:+ action_toString a +:+ ".")
      else Ok ()
  end.

(** [Transaction::getNextTuplesInternal]: the operator runs once; [hasExecuted] is
    its member, and the result says whether a tuple was produced. *)
Definition getNextTuplesInternal (gotLock : bool) (a : TransactionAction) (hasExecuted : bool) :
    stM Connection bool :=
  if hasExecuted then mret false
  else
    c ← st_get;
    _ ← st_lift (validateActiveTransaction a c);
    _ ← match a with
        | ACTION_BEGIN_READ => beginReadTransaction
        | ACTION_BEGIN_WRITE => beginWriteTransaction
        | ACTION_COMMIT => ctx_commit gotLock
        | ACTION_ROLLBACK => ctx_rollback
        | ACTION_CHECKPOINT => on_world (checkpoint cfg)
        end;
    mret true.

(** A transaction statement, as [executeNoLock] runs it. *)
Definition runTransactionStatement (gotLock : bool) (a : TransactionAction) :
    stM Connection () :=
  runFuncInTransaction gotLock
    (_ ← getNextTuplesInternal gotLock a false; mret ())
    true true (getAction true false).

End TransactionContext.
