(* ===== verification/TransactionFacts.v ===== *)
(** * Facts about the transaction manager

    The manager's invariant, and what each operation does to the manager's own
    state whatever the storage calls do. *)

From S2P Require Import Prelude.
From S2P Require Import Transaction.
From S2P Require Import TransactionManager.

(** ** The invariant *)

Definition is_writer (t : Transaction) : Prop := type t = WRITE ∨ type t = RECOVERY.
#[export] Instance is_writer_dec t : Decision (is_writer t).
Proof. unfold is_writer. apply _. Defined.

Definition writers (m : TransactionManager) : list Transaction :=
  filter is_writer (activeTransactions m).

(** What holds of an active transaction of a manager at clock [now], last ID [last]. *)
Definition tx_ok (last now : Z) (t : Transaction) : Prop :=
  START_TRANSACTION_ID < ID t ≤ last ∧ 1 ≤ startTS t ≤ now ∧
  (type t = READ_ONLY ∨ is_writer t) ∧
  (commitTS t = INVALID_TRANSACTION ∨ startTS t < commitTS t ≤ now).

Record tm_inv (m : TransactionManager) : Prop := {
  inv_nodup : NoDup (ID <$> activeTransactions m);
  inv_tx : Forall (tx_ok (lastTransactionID m) (lastTimestamp m)) (activeTransactions m);
  inv_count : activeWriteTransactionCount m = Z.of_nat (length (writers m));
  inv_ids : START_TRANSACTION_ID ≤ lastTransactionID m < INVALID_TRANSACTION;
  inv_clock : 1 ≤ lastTimestamp m < START_TRANSACTION_ID;
}.

(** Room for one more operation: no counter is about to wrap around. *)
Definition tm_room (m : TransactionManager) : Prop :=
  lastTransactionID m + 1 < INVALID_TRANSACTION ∧
  lastTimestamp m + 1 < START_TRANSACTION_ID ∧
  Z.of_nat (length (activeTransactions m)) + 1 < 2 ^ 32.

Lemma newTransactionManager_inv : tm_inv newTransactionManager.
Proof.
  split; simpl; [constructor|constructor|done| |];
    vm_compute; split; congruence.
Qed.

(** ** The list of active transactions *)

Lemma findTransaction_Some i m t :
  findTransaction i m = Some t → t ∈ activeTransactions m ∧ ID t = i.
Proof.
  unfold findTransaction. destruct (list_find _ _) as [[k t']|] eqn:E; [|done].
  intros [= <-]. apply list_find_Some in E as (Hk & Hid & _).
  split; [by eapply list_elem_of_lookup_2|done].
Qed.

Lemma findTransaction_elem t m :
  NoDup (ID <$> activeTransactions m) → t ∈ activeTransactions m →
  findTransaction (ID t) m = Some t.
Proof.
  intros Hnd Ht. unfold findTransaction.
  destruct (list_find_elem_of (λ x, ID x = ID t) (activeTransactions m) t) as [[k t'] E];
    [done|done|].
  rewrite E. simpl. f_equal. apply list_find_Some in E as (Hk & Hid & _).
  apply list_elem_of_lookup in Ht as [j Hj].
  assert (k = j) as ->.
  { eapply (NoDup_lookup _ _ _ (ID t) Hnd); rewrite list_lookup_fmap.
    - by rewrite Hk, <- Hid.
    - by rewrite Hj. }
  congruence.
Qed.

(** Distinct IDs: the object of ID [i] is the only one. *)
Lemma findTransaction_unique i m t t' :
  NoDup (ID <$> activeTransactions m) →
  findTransaction i m = Some t → t' ∈ activeTransactions m → ID t' = i → t' = t.
Proof.
  intros Hnd Hf Ht' <-. rewrite (findTransaction_elem t') in Hf by done. congruence.
Qed.

(** Clearing the object of ID [i]. *)
Lemma clear_inv_nodup i m :
  NoDup (ID <$> activeTransactions m) →
  NoDup (ID <$> activeTransactions (clearTransactionNoLock i m)).
Proof.
  intros Hnd. simpl. induction (activeTransactions m) as [|t l IH]; [done|].
  simpl in Hnd. apply NoDup_cons in Hnd as [Hni Hnd].
  destruct (decide (ID t ≠ i)) as [Ht|Ht].
  - rewrite filter_cons_True by done. simpl. apply NoDup_cons. split; [|by apply IH].
    intros Hin. apply Hni. apply list_elem_of_fmap in Hin as (t' & E & Hin).
    apply list_elem_of_filter in Hin as [_ Hin]. rewrite E. by apply list_elem_of_fmap_2.
  - rewrite filter_cons_False by tauto. by apply IH.
Qed.

Lemma writers_clear i m t :
  NoDup (ID <$> activeTransactions m) → findTransaction i m = Some t →
  length (writers m) =
  (length (writers (clearTransactionNoLock i m)) + if decide (is_writer t) then 1 else 0)%nat.
Proof.
  unfold writers, findTransaction. simpl.
  induction (activeTransactions m) as [|x l IH]; [done|].
  simpl. intros Hnd Hf. apply NoDup_cons in Hnd as [Hni Hnd].
  destruct (decide (ID x = i)) as [Hx|Hx].
  - simpl in Hf. injection Hf as <-.
    rewrite (filter_cons_False (λ t, ID t ≠ i)) by tauto.
    assert (filter (λ t, ID t ≠ i) l = l) as ->.
    { apply filter_all. intros y Hy Hyi. apply Hni.
      rewrite Hx, <- Hyi. by apply list_elem_of_fmap_2. }
    destruct (decide (is_writer x)) as [Hw|Hw].
    + rewrite filter_cons_True by done. simpl. lia.
    + rewrite filter_cons_False by done. lia.
  - rewrite (filter_cons_True (λ t, ID t ≠ i)) by done.
    destruct (list_find (λ t, ID t = i) l) as [[k y]|] eqn:E; [|done].
    specialize (IH Hnd). simpl in Hf, IH. specialize (IH Hf).
    destruct (decide (is_writer x)) as [Hw|Hw].
    + rewrite !filter_cons_True by done. simpl. lia.
    + rewrite !filter_cons_False by done. done.
Qed.

(** Through a pointer, only the pointee changes. *)
Lemma updateTransaction_ids i f m :
  (∀ t, ID (f t) = ID t) →
  ID <$> activeTransactions (updateTransaction i f m) = ID <$> activeTransactions m.
Proof.
  intros Hf. simpl. rewrite <- list_fmap_compose. apply list_fmap_ext.
  intros _ t _. simpl. by case_decide.
Qed.

Lemma updateTransaction_writers i f m :
  (∀ t, type (f t) = type t) →
  length (writers (updateTransaction i f m)) = length (writers m).
Proof.
  intros Hf. unfold writers. simpl. induction (activeTransactions m) as [|t l IH]; [done|].
  assert (is_writer (if decide (ID t = i) then f t else t) ↔ is_writer t) as Hw.
  { unfold is_writer. case_decide; by rewrite ?Hf. }
  simpl. destruct (decide (is_writer t)).
  - rewrite !filter_cons_True by tauto. simpl. by rewrite IH.
  - rewrite !filter_cons_False by tauto. done.
Qed.

Lemma findTransaction_update i j f m :
  (∀ t, ID (f t) = ID t) →
  findTransaction j (updateTransaction i f m) =
  (λ t, if decide (ID t = i) then f t else t) <$> findTransaction j m.
Proof.
  intros Hf. unfold findTransaction. simpl.
  induction (activeTransactions m) as [|t l IH]; [done|]. simpl.
  assert (ID (if decide (ID t = i) then f t else t) = ID t) as Hid by (case_decide; done).
  destruct (decide (ID t = j)) as [Ht|Ht].
  - rewrite decide_True by congruence. done.
  - rewrite decide_False by congruence.
    destruct (list_find _ l) as [[? ?]|], (list_find _ (map _ l)) as [[? ?]|]; simpl in *; done.
Qed.

Lemma findTransaction_clear i j m :
  findTransaction j (clearTransactionNoLock i m) =
  if decide (j = i) then None else findTransaction j m.
Proof.
  unfold findTransaction. simpl. induction (activeTransactions m) as [|t l IH]; simpl.
  { by case_decide. }
  destruct (decide (ID t ≠ i)) as [Ht|Ht].
  - rewrite filter_cons_True by done. simpl. destruct (decide (ID t = j)) as [Hj|Hj].
    + rewrite (decide_False (P := j = i)) by congruence. done.
    + destruct (list_find _ (filter _ l)) as [[? ?]|], (list_find _ l) as [[? ?]|], (decide (j = i));
        simpl in *; done.
  - rewrite filter_cons_False by tauto. rewrite IH. destruct (decide (j = i)); [done|].
    rewrite decide_False; [by destruct (list_find _ l) as [[? ?]|]|].
    intros Hj. apply Ht. congruence.
Qed.

(** ** The manager's invariant under the updates of the operations *)

Lemma tx_ok_mono last now last' now' t :
  last ≤ last' → now ≤ now' → tx_ok last now t → tx_ok last' now' t.
Proof. unfold tx_ok. intros ?? (? & ? & ? & [?|?]); split_and!; try lia; try done; first [by left|right; lia]. Qed.

Lemma clear_inv i m t :
  tm_inv m → findTransaction i m = Some t →
  tm_inv (set_activeWriteTransactionCount
            (activeWriteTransactionCount m - if decide (is_writer t) then 1 else 0)
            (clearTransactionNoLock i m)).
Proof.
  intros [Hnd Htx Hc Hi Ht] Hf.
  split; simpl; [by apply (clear_inv_nodup i m)| | |done|done].
  - rewrite Forall_forall in *. intros x Hx. apply list_elem_of_filter in Hx as [_ Hx]. auto.
  - pose proof (writers_clear i m t Hnd Hf) as E. unfold writers in *. simpl in *.
    rewrite Hc. case_decide; lia.
Qed.

Lemma writers_length m : (length (writers m) ≤ length (activeTransactions m))%nat.
Proof. apply length_filter. Qed.

(** The clock tick of a commit, and the commit timestamp written to the object. *)
Lemma tick_inv i m t :
  tm_inv m → tm_room m → findTransaction i m = Some t →
  tm_inv (updateTransaction i (set_commitTS (lastTimestamp m + 1))
            (set_lastTimestamp (lastTimestamp m + 1) m)).
Proof.
  intros [Hnd Htx Hc Hi Ht] (Hr1 & Hr2 & Hr3) Hf. split.
  - rewrite (updateTransaction_ids i (set_commitTS (lastTimestamp m + 1))) by done. done.
  - simpl. apply Forall_forall. intros x Hx.
    apply list_elem_of_fmap in Hx as (y & -> & Hy).
    rewrite Forall_forall in Htx. specialize (Htx y Hy). case_decide.
    + destruct Htx as (? & ? & ? & _). split_and!; simpl; try lia; done.
    + eapply tx_ok_mono; [| |exact Htx]; simpl; lia.
  - etransitivity; [exact Hc|]. f_equal. symmetry.
    apply (updateTransaction_writers i (set_commitTS (lastTimestamp m + 1))
             (set_lastTimestamp (lastTimestamp m + 1) m)). done.
  - done.
  - simpl. lia.
Qed.

(** A new transaction: the next ID, the current clock as its snapshot. *)
Lemma begin_inv ty m :
  tm_inv m → tm_room m → ty = READ_ONLY ∨ ty = WRITE ∨ ty = RECOVERY →
  tm_inv (set_activeTransactions
            (activeTransactions m ++ [newTransaction ty (lastTransactionID m + 1) (lastTimestamp m)])
            (set_activeWriteTransactionCount
               (activeWriteTransactionCount m + if decide (ty = READ_ONLY) then 0 else 1)
               (set_lastTransactionID (lastTransactionID m + 1) m))).
Proof.
  intros [Hnd Htx Hc Hi Ht] (Hr1 & Hr2 & Hr3) Hty. split; simpl.
  - rewrite fmap_app. apply NoDup_app. split_and!; [done| |apply NoDup_singleton].
    intros x Hx Hx'. apply list_elem_of_singleton in Hx' as ->. simpl in Hx.
    apply list_elem_of_fmap in Hx as (t & E & Hx). rewrite Forall_forall in Htx.
    destruct (Htx t Hx) as ((_ & ?) & _). lia.
  - apply Forall_app. split.
    + eapply Forall_impl; [exact Htx|]. intros t. apply tx_ok_mono; lia.
    + constructor; [|constructor]. unfold tx_ok, is_writer. simpl. split_and!; [lia..| |by left]. tauto.
  - unfold writers in *. simpl. rewrite filter_app, length_app, Hc. simpl.
    destruct Hty as [->|Hty]; [|rewrite decide_False by (destruct Hty; congruence)].
    + rewrite filter_cons_False by (unfold is_writer; simpl; naive_solver). simpl. lia.
    + rewrite filter_cons_True by done. simpl. lia.
  - lia.
  - lia.
Qed.

(** ** Operations that leave the manager's state alone *)

Section Preserving.
Context `{TransactionStorage}.

Definition tm_same {A} (m : stM World A) : Prop := ∀ w, tm (fst (m w)) = tm w.

Lemma tm_same_ret {A} (a : A) : tm_same (mret a).
Proof. by intros w. Qed.
Lemma tm_same_throw {A} c msg : tm_same (A := A) (st_throw c msg).
Proof. by intros w. Qed.
Lemma tm_same_on_db {A} (m : stM store A) : tm_same (on_db m).
Proof. intros w. unfold on_db. by destruct (m (db w)). Qed.
Lemma tm_same_get : tm_same st_get.
Proof. by intros w. Qed.
Lemma tm_same_bind {A B} (m : stM World A) (f : A → stM World B) :
  tm_same m → (∀ a, tm_same (f a)) → tm_same (m ≫= f).
Proof.
  intros Hm Hf w. specialize (Hm w). unfold mbind, stM_bind. destruct (m w) as [w' [a|e|]]; simpl in *.
  - by rewrite Hf.
  - done.
  - done.
Qed.
Lemma tm_same_catch {A} (m : stM World A) (h : exn → stM World A) :
  tm_same m → (∀ e, tm_same (h e)) → tm_same (st_catch m h).
Proof.
  intros Hm Hh w. specialize (Hm w). unfold st_catch. destruct (m w) as [w' [a|e|]]; simpl in *.
  - done.
  - by rewrite Hh.
  - done.
Qed.

Lemma tm_same_drain :
  tm_same stopNewWriteTransactionsAndWaitUntilAllWriteTransactionsLeave.
Proof. by intros w. Qed.

End Preserving.

#[export] Hint Resolve tm_same_ret tm_same_throw tm_same_on_db tm_same_get tm_same_bind
  tm_same_catch tm_same_drain : lbug.

Section Operations.
Context `{TransactionStorage}.

Lemma rollbackAndRethrow_same e : tm_same (rollbackAndRethrow e).
Proof. unfold rollbackAndRethrow. auto with lbug. Qed.
#[local] Hint Resolve rollbackAndRethrow_same : lbug.

Lemma checkpointNoLock_same : tm_same checkpointNoLock.
Proof. unfold checkpointNoLock. repeat (apply tm_same_bind; intros); auto with lbug. Qed.
#[local] Hint Resolve checkpointNoLock_same : lbug.

Lemma checkpoint_same cfg : tm_same (checkpoint cfg).
Proof. unfold checkpoint. destruct (isInMemory cfg); auto with lbug. Qed.

Lemma tryCheckpoint_same cfg got : tm_same (tryCheckpoint cfg got).
Proof. unfold tryCheckpoint. destruct (isInMemory cfg), got; simpl; auto with lbug. Qed.

(** [tm] after each operation: the cases of the code, storage failures included. *)
Definition after_begin (ty : TransactionType) (m : TransactionManager) : TransactionManager :=
  set_activeTransactions
    (activeTransactions m ++ [newTransaction ty (lastTransactionID m + 1) (lastTimestamp m)])
    (set_activeWriteTransactionCount
       (activeWriteTransactionCount m + if decide (ty = READ_ONLY) then 0 else 1)
       (set_lastTransactionID (lastTransactionID m + 1) m)).

Definition after_tick (i : Z) (m : TransactionManager) : TransactionManager :=
  updateTransaction i (set_commitTS (lastTimestamp m + 1))
    (set_lastTimestamp (lastTimestamp m + 1) m).

Definition after_clear (i : Z) (t : Transaction) (m : TransactionManager) : TransactionManager :=
  set_activeWriteTransactionCount
    (activeWriteTransactionCount m - if decide (is_writer t) then 1 else 0)
    (clearTransactionNoLock i m).

Lemma tm_count_range m :
  tm_inv m → tm_room m →
  0 ≤ activeWriteTransactionCount m ∧ activeWriteTransactionCount m + 1 < 2 ^ 32.
Proof.
  intros Hinv (_ & _ & Hr). rewrite (inv_count m Hinv). pose proof (writers_length m). lia.
Qed.

Lemma wrap64_succ z : 0 ≤ z → z + 1 < INVALID_TRANSACTION → wrap 64 (z + 1) = z + 1.
Proof. intros ??. apply wrap_id. split; [lia|]. unfold INVALID_TRANSACTION, UINT64_MAX in *. lia. Qed.

Lemma set_count_same (m : TransactionManager) :
  set_activeWriteTransactionCount (activeWriteTransactionCount m + 0) m = m.
Proof. destruct m. unfold set_activeWriteTransactionCount. simpl. f_equal. lia. Qed.

(** The result of a storage call inside an operation: the manager's state for each
    way the call can end. *)
Definition after_db {A B} (m : stM store A) (ok failed : TransactionManager)
    (ret : store → A → result B) (s : store) : World * result B :=
  match m s with
  | (s', Ok a) => (mkWorld ok s', ret s' a)
  | (s', Throw e) => (mkWorld failed s', Throw e)
  | (s', UB) => (mkWorld failed s', UB)
  end.

Lemma begin_user_eq cfg ty w :
  tm_inv (tm w) → tm_room (tm w) → ty = WRITE ∨ ty = RECOVERY →
  beginTransaction cfg ty w =
  if negb (enableMultiWrites cfg) && hasActiveWriteTransactionNoLock (tm w)
  then (w, throw TransactionManagerException one_writer_only)
  else
    after_db (if shouldLogToWAL cfg (newTransaction ty (lastTransactionID (tm w) + 1)
                                        (lastTimestamp (tm w)))
              then localWAL_logBegin (lastTransactionID (tm w) + 1) else mret ())
      (after_begin ty (tm w)) (set_lastTransactionID (lastTransactionID (tm w) + 1) (tm w))
      (λ _ _, Ok (lastTransactionID (tm w) + 1)) (db w).
Proof.
  intros Hinv Hroom Hty. pose proof (tm_count_range _ Hinv Hroom) as [Hc0 Hc1].
  destruct Hinv as [_ _ _ [Hid _] _], Hroom as (Hr & _ & _).
  assert (0 ≤ START_TRANSACTION_ID) by (vm_compute; discriminate).
  assert (newID w = (mkWorld (set_lastTransactionID (lastTransactionID (tm w) + 1) (tm w)) (db w),
                     Ok (lastTransactionID (tm w) + 1))) as En.
  { unfold newID. rewrite wrap64_succ by lia. done. }
  assert (beginTransaction cfg ty w =
    (if negb (enableMultiWrites cfg) && hasActiveWriteTransactionNoLock (tm w)
     then (w, throw TransactionManagerException one_writer_only)
     else (i ← newID;
        let t := newTransaction ty i (lastTimestamp (tm w)) in
        _ ← (if shouldLogToWAL cfg t then on_db (localWAL_logBegin i) else mret ());
        _ ← on_tm (countWriter 1);
        _ ← pushTransaction t;
        mret i) w)) as ->.
  { destruct Hty as [-> | ->]; unfold beginTransaction;
      unfold mbind at 1, stM_bind at 1, st_get; by destruct (negb _ && _). }
  destruct (negb _ && _); [done|].
  unfold mbind at 1, stM_bind at 1. rewrite En. cbv zeta.
  unfold after_db. set (i := lastTransactionID (tm w) + 1).
  set (t := newTransaction ty i (lastTimestamp (tm w))).
  set (w1 := mkWorld (set_lastTransactionID i (tm w)) (db w)).
  assert (∀ s, (_ ← on_tm (countWriter 1); _ ← pushTransaction t; mret i)
                 (mkWorld (set_lastTransactionID i (tm w)) s) =
               (mkWorld (after_begin ty (tm w)) s, Ok i)) as Ek.
  { intros s. assert (countWriter 1 (set_lastTransactionID i (tm w)) =
      set_activeWriteTransactionCount (activeWriteTransactionCount (tm w) + 1)
        (set_lastTransactionID i (tm w))) as Ec.
    { unfold countWriter. f_equal. apply wrap_id. split; simpl; lia. }
    unfold after_begin. rewrite decide_False by (destruct Hty; congruence).
    unfold mbind, stM_bind, on_tm, pushTransaction, on_tm. cbn [tm db]. by rewrite Ec. }
  destruct (shouldLogToWAL cfg t).
  - unfold mbind at 1, stM_bind at 1. unfold on_db. subst w1. simpl db. simpl tm.
    destruct (localWAL_logBegin i (db w)) as [s [[]|e|]]; [apply Ek|done|done].
  - unfold mbind at 1, stM_bind at 1. apply Ek.
Qed.

Lemma begin_read_eq cfg w :
  tm_inv (tm w) → tm_room (tm w) →
  beginTransaction cfg READ_ONLY w =
  (mkWorld (after_begin READ_ONLY (tm w)) (db w), Ok (lastTransactionID (tm w) + 1)).
Proof.
  intros [_ _ _ [Hid _] _] (Hr & _ & _).
  assert (0 ≤ START_TRANSACTION_ID) by (vm_compute; discriminate).
  unfold beginTransaction, mbind, stM_bind, newID, st_get, pushTransaction, on_tm.
  rewrite wrap64_succ by lia. cbn [tm db]. unfold after_begin. rewrite decide_True by done.
  by rewrite Z.add_0_r.
Qed.

Lemma getTransaction_eq i t w :
  findTransaction i (tm w) = Some t → getTransaction i w = (w, Ok t).
Proof. intros E. unfold getTransaction. by rewrite E. Qed.

Lemma after_clear_reader i t m : type t = READ_ONLY → after_clear i t m = clearTransactionNoLock i m.
Proof.
  intros Ht. unfold after_clear. rewrite decide_False by (unfold is_writer; rewrite Ht; naive_solver).
  rewrite Z.sub_0_r. by destruct m.
Qed.

Lemma count_down i t m :
  tm_inv m → tm_room m → findTransaction i m = Some t → is_writer t → ∀ m',
  activeWriteTransactionCount m' = activeWriteTransactionCount m →
  countWriter (-1) (clearTransactionNoLock i m') = after_clear i t m'.
Proof.
  intros Hinv Hroom Hf Hw m' Ec. pose proof (tm_count_range _ Hinv Hroom) as [Hc0 Hc1].
  pose proof (writers_clear i m t (inv_nodup _ Hinv) Hf) as El. rewrite decide_True in El by done.
  pose proof (inv_count _ Hinv). unfold countWriter, after_clear. f_equal. simpl.
  rewrite (decide_True (P := is_writer t)) by done. rewrite Ec. apply wrap_id. split; lia.
Qed.

Lemma commitLocked_eq cfg i t w :
  tm_inv (tm w) → tm_room (tm w) → findTransaction i (tm w) = Some t →
  commitLocked cfg i w =
  if decide (is_writer t) then
    let t' := set_commitTS (lastTimestamp (tm w) + 1) t in
    after_db (tx_commit cfg t') (after_clear i t (after_tick i (tm w))) (after_tick i (tm w))
      (λ s _, Ok (shouldForceCheckpoint cfg t' || canAutoCheckpoint cfg t' s)) (db w)
  else (mkWorld (after_clear i t (tm w)) (db w), Ok false).
Proof.
  intros Hinv Hroom Hf.
  assert (wrap 64 (lastTimestamp (tm w) + 1) = lastTimestamp (tm w) + 1) as Ew.
  { destruct Hinv as [_ _ _ _ Hcl], Hroom as (_ & Hr & _). apply wrap64_succ; [lia|].
    eapply Z.lt_trans; [exact Hr|]. vm_compute. done. }
  destruct (findTransaction_Some _ _ _ Hf) as [Hin _].
  assert (type t = READ_ONLY ∨ is_writer t) as Hty.
  { pose proof (inv_tx _ Hinv) as Htx. rewrite Forall_forall in Htx. by apply (Htx t Hin). }
  unfold commitLocked. unfold mbind at 1, stM_bind at 1. rewrite (getTransaction_eq i t) by done.
  destruct Hty as [Hty|Hw].
  { rewrite Hty. rewrite decide_False by (unfold is_writer; rewrite Hty; naive_solver).
    rewrite after_clear_reader by done. done. }
  rewrite decide_True by done.
  assert (∀ {A} (a b c d : A),
    match type t with READ_ONLY => a | WRITE => b | CHECKPOINT => c | DUMMY => d | RECOVERY => b end
    = b) as Em by (intros; destruct Hw as [-> | ->]; done).
  rewrite Em. clear Em.
  unfold mbind at 1, stM_bind at 1, on_tm at 1. cbn [fst]. rewrite Ew.
  unfold mbind at 1, stM_bind at 1, st_get at 1. cbn [tm db lastTimestamp set_lastTimestamp].
  unfold mbind at 1, stM_bind at 1, on_tm at 1. cbn [tm db].
  unfold mbind at 1, stM_bind at 1, on_db at 1. cbn [tm db]. unfold after_db. cbv zeta.
  destruct (tx_commit cfg _ (db w)) as [s [[]|e|]]; [|done|done].
  unfold mbind, stM_bind, st_get, on_tm, mret, stM_ret. cbn [tm db]. do 2 f_equal.
  by apply (count_down i t (tm w)).
Qed.

Lemma rollback_eq i t w :
  tm_inv (tm w) → tm_room (tm w) → findTransaction i (tm w) = Some t →
  rollback i w =
  if decide (is_writer t) then
    after_db (tx_rollback t) (after_clear i t (tm w)) (tm w) (λ _ _, Ok ()) (db w)
  else (mkWorld (after_clear i t (tm w)) (db w), Ok ()).
Proof.
  intros Hinv Hroom Hf. destruct (findTransaction_Some _ _ _ Hf) as [Hin _].
  assert (type t = READ_ONLY ∨ is_writer t) as Hty.
  { pose proof (inv_tx _ Hinv) as Htx. rewrite Forall_forall in Htx. by apply (Htx t Hin). }
  unfold rollback. unfold mbind at 1, stM_bind at 1. rewrite (getTransaction_eq i t) by done.
  destruct Hty as [Hty|Hw].
  { rewrite Hty. rewrite decide_False by (unfold is_writer; rewrite Hty; naive_solver).
    rewrite after_clear_reader by done. done. }
  rewrite decide_True by done.
  assert (∀ {A} (a b c d : A),
    match type t with READ_ONLY => a | WRITE => b | CHECKPOINT => c | DUMMY => d | RECOVERY => b end
    = b) as Em by (intros; destruct Hw as [-> | ->]; done).
  rewrite Em. clear Em.
  unfold mbind at 1, stM_bind at 1, on_db at 1. unfold after_db.
  destruct (tx_rollback t (db w)) as [s [[]|e|]]; [|done|done].
  unfold mbind, stM_bind, on_tm. cbn [tm db]. do 2 f_equal. by apply (count_down i t (tm w)).
Qed.

End Operations.
