(* ===== verification/TransactionTheorems.v ===== *)
(** * Properties of the transaction manager *)

From S2P Require Import Prelude.
From S2P Require Import SelVector.
From S2P Require Import VersionInfo.
From S2P Require Import VersionInfoFacts.
From S2P Require Import VersionInfoOps.
From S2P Require Import VersionInfoSpec.
From S2P Require Import VersionInfoTheorems.
From S2P Require Import Transaction.
From S2P Require Import TransactionManager.
From S2P Require Import TransactionFacts.

Section Theorems.
Context `{TransactionStorage}.

Lemma find_after_tick i m t :
  findTransaction i m = Some t →
  findTransaction i (after_tick i m) = Some (set_commitTS (lastTimestamp m + 1) t).
Proof.
  intros Hf. unfold after_tick. rewrite findTransaction_update by done.
  assert (findTransaction i (set_lastTimestamp (lastTimestamp m + 1) m) = Some t) as -> by done.
  simpl. by rewrite decide_True by by apply (findTransaction_Some _ m).
Qed.

Lemma commit_done_inv i t m :
  tm_inv m → tm_room m → findTransaction i m = Some t →
  tm_inv (after_clear i t (after_tick i m)).
Proof.
  intros Hinv Hroom Hf.
  apply (clear_inv i (after_tick i m) (set_commitTS (lastTimestamp m + 1) t)).
  - by eapply tick_inv.
  - by apply find_after_tick.
Qed.

(** ** Histories *)

(** One step of the system as the manager sees it: a public operation of any
    connection, or anything else that happens to the store and to the two flags of
    an active transaction. *)
Inductive mgr_step (cfg : DBConfig) (w : World) : World → Prop :=
| step_begin ty : mgr_step cfg w (fst (beginTransaction cfg ty w))
| step_commit got i : is_Some (findTransaction i (tm w)) → mgr_step cfg w (fst (commit cfg got i w))
| step_rollback i : is_Some (findTransaction i (tm w)) → mgr_step cfg w (fst (rollback i w))
| step_checkpoint : mgr_step cfg w (fst (checkpoint cfg w))
| step_store s : mgr_step cfg w (mkWorld (tm w) s)
| step_forceCheckpoint i :
    mgr_step cfg w (mkWorld (updateTransaction i setForceCheckpoint (tm w)) (db w))
| step_catalogChange i :
    mgr_step cfg w (mkWorld (updateTransaction i (set_hasCatalogChanges true) (tm w)) (db w)).

Inductive mgr_run (cfg : DBConfig) (s : store) : nat → World → Prop :=
| run_start : mgr_run cfg s 0 (mkWorld newTransactionManager s)
| run_step n w w' : mgr_run cfg s n w → mgr_step cfg w w' → mgr_run cfg s (S n) w'.

(** Counters after [n] steps. *)
Definition within (cfg : DBConfig) (n : nat) (m : TransactionManager) : Prop :=
  lastTransactionID m ≤ START_TRANSACTION_ID + Z.of_nat n ∧
  lastTimestamp m ≤ 1 + Z.of_nat n ∧
  (length (activeTransactions m) ≤ n)%nat ∧
  (enableMultiWrites cfg = false → activeWriteTransactionCount m ≤ 1).

Lemma within_room cfg n m :
  within cfg n m → Z.of_nat n < 2 ^ 32 - 1 → tm_room m.
Proof.
  intros (? & ? & ? & _) Hn.
  assert (START_TRANSACTION_ID + 2 ^ 32 < INVALID_TRANSACTION) by (vm_compute; done).
  assert (1 + 2 ^ 32 < START_TRANSACTION_ID) by (vm_compute; done).
  split_and!; lia.
Qed.

Definition step_ok cfg n (m' : TransactionManager) : Prop := tm_inv m' ∧ within cfg (S n) m'.

Lemma same_ok cfg n m : tm_inv m → within cfg n m → step_ok cfg n m.
Proof. intros Hinv (? & ? & ? & ?). split; [done|]. split_and!; [lia|lia|lia|done]. Qed.

Lemma after_clear_ok cfg n i t m :
  tm_inv m → within cfg (S n) m → findTransaction i m = Some t → step_ok cfg n (after_clear i t m).
Proof.
  intros Hinv (? & ? & ? & Hw) Hf. split; [by apply clear_inv|].
  split_and!; simpl; [done|done| |].
  - etransitivity; [apply length_filter|]. done.
  - intros Hm. specialize (Hw Hm). case_decide; lia.
Qed.

Lemma after_tick_ok cfg n i t m :
  tm_inv m → within cfg n m → tm_room m → findTransaction i m = Some t →
  step_ok cfg n (after_tick i m).
Proof.
  intros Hinv (? & ? & ? & Hw) Hroom Hf. split; [by eapply tick_inv|].
  split_and!; simpl; [lia|lia| |done]. rewrite length_map. lia.
Qed.

Lemma commitLocked_ok cfg n i t w :
  tm_inv (tm w) → within cfg n (tm w) → tm_room (tm w) → findTransaction i (tm w) = Some t →
  step_ok cfg n (tm (fst (commitLocked cfg i w))).
Proof.
  intros Hinv Hw Hroom Hf. rewrite (commitLocked_eq cfg i t) by done.
  destruct (after_tick_ok cfg n i t (tm w)) as [Hi1 Hw1]; [done..|].
  destruct (decide (is_writer t)).
  - unfold after_db. cbv zeta.
    destruct (tx_commit _ _ (db w)) as [s [[]|e|]]; simpl; [|done|done].
    destruct (after_clear_ok cfg n i (set_commitTS (lastTimestamp (tm w) + 1) t)
      (after_tick i (tm w))) as [? ?]; [done|done|by apply find_after_tick|]. done.
  - simpl. apply after_clear_ok; [done| |done]. by apply same_ok.
Qed.

Lemma flag_inv i f m :
  (∀ t, ID (f t) = ID t ∧ type (f t) = type t ∧ startTS (f t) = startTS t ∧
        commitTS (f t) = commitTS t) →
  tm_inv m → tm_inv (updateTransaction i f m).
Proof.
  intros Hf [Hnd Htx Hc Hi Ht]. split; [|simpl| |done|done].
  - rewrite updateTransaction_ids; [done|]. intros t. by destruct (Hf t) as (? & _).
  - apply Forall_forall. intros x Hx. apply list_elem_of_fmap in Hx as (y & -> & Hy).
    rewrite Forall_forall in Htx. specialize (Htx y Hy). case_decide; [|done].
    unfold tx_ok, is_writer. destruct (Hf y) as (-> & -> & -> & ->). done.
  - etransitivity; [exact Hc|]. f_equal. symmetry. apply updateTransaction_writers.
    intros t. by destruct (Hf t) as (_ & ? & _).
Qed.

(** Case analysis on how a storage call ends. *)
Ltac case_match_store :=
  match goal with |- context [match ?m with (_, _) => _ end] => destruct m as [? [?|?|]] end.

Lemma begin_ok cfg ty n w :
  tm_inv (tm w) → within cfg n (tm w) → tm_room (tm w) →
  step_ok cfg n (tm (fst (beginTransaction cfg ty w))).
Proof.
  intros Hinv Hw Hroom. pose proof Hw as (Hl & Ht & Hn & Hc).
  assert (∀ ty', ty' = READ_ONLY ∨ ty' = WRITE ∨ ty' = RECOVERY →
    (enableMultiWrites cfg = false → ty' = READ_ONLY ∨ activeWriteTransactionCount (tm w) ≤ 0) →
    step_ok cfg n (after_begin ty' (tm w))) as Hb.
  { intros ty' Hty Hm. split; [by apply begin_inv|]. split_and!; simpl; [lia|lia| |].
    - rewrite length_app. simpl. lia.
    - intros Hm'. specialize (Hc Hm'). destruct (Hm Hm') as [->|?]; [simpl|case_decide]; lia. }
  assert (step_ok cfg n (set_lastTransactionID (lastTransactionID (tm w) + 1) (tm w))) as Hid.
  { destruct Hinv as [? Htx ? ? ?]. destruct Hroom as (? & _). split; [|split_and!; simpl; [lia|lia|lia|done]].
    split; try done; simpl; [|lia]. eapply Forall_impl; [exact Htx|]. intros t. apply tx_ok_mono; lia. }
  destruct ty; try (by apply same_ok).
  1: { rewrite begin_read_eq by done. apply Hb; [by left|]. intros _. by left. }
  all: rewrite begin_user_eq by tauto;
    destruct (enableMultiWrites cfg) eqn:Em, (hasActiveWriteTransactionNoLock (tm w)) eqn:Eh;
    simpl; try (by apply same_ok);
    unfold after_db; try case_match_store; simpl; try done;
    apply Hb; try tauto; intros ?; try done; right;
    unfold hasActiveWriteTransactionNoLock in Eh; apply bool_decide_eq_false in Eh; lia.
Qed.

Lemma mgr_step_ok cfg n w w' :
  tm_inv (tm w) → within cfg n (tm w) → tm_room (tm w) → mgr_step cfg w w' →
  step_ok cfg n (tm w').
Proof.
  intros Hinv Hw Hroom Hs. destruct Hs as [ty|got i [t Hf]|i [t Hf]| |s|i|i].
  - by apply begin_ok.
  - pose proof (commitLocked_ok cfg n i t w Hinv Hw Hroom Hf) as Hc. unfold commit.
    unfold mbind, stM_bind. destruct (commitLocked cfg i w) as [w' [[]|e|]]; simpl in *;
      [by rewrite tryCheckpoint_same|done..].
  - rewrite (rollback_eq i t) by done. destruct (decide (is_writer t)).
    + unfold after_db. destruct (tx_rollback t (db w)) as [s [[]|e|]]; simpl;
        [|by apply same_ok..]. apply after_clear_ok; [done| |done]. by apply same_ok.
    + apply after_clear_ok; [done| |done]. by apply same_ok.
  - rewrite checkpoint_same. by apply same_ok.
  - by apply same_ok.
  - apply same_ok; simpl; [by apply flag_inv|]. destruct Hw as (? & ? & ? & ?).
    split_and!; simpl; rewrite ?length_map; done.
  - apply same_ok; simpl; [by apply flag_inv|]. destruct Hw as (? & ? & ? & ?).
    split_and!; simpl; rewrite ?length_map; done.
Qed.

(** C15: the manager's invariant holds after every history of fewer than 2^32 - 1
    steps, whatever the storage calls do or throw: active transactions have distinct
    IDs above every timestamp, their snapshots lie in the past, the atomic counter is
    the number of active writers, and without multi-writes it is at most one. *)
Theorem manager_invariant cfg s n w :
  mgr_run cfg s n w → Z.of_nat n < 2 ^ 32 ->
  tm_inv (tm w) ∧ (enableMultiWrites cfg = false → activeWriteTransactionCount (tm w) ≤ 1).
Proof.
  intros Hr Hn. enough (tm_inv (tm w) ∧ within cfg n (tm w)) as [? (_ & _ & _ & ?)] by done.
  induction Hr as [|n w w' Hr IH Hs].
  - split; [apply newTransactionManager_inv|]. split_and!; simpl; done.
  - destruct IH as [Hinv Hw]; [lia|]. eapply (mgr_step_ok cfg n w w'); [done..| |done].
    eapply within_room; [done|]. lia.
Qed.

(** C12: committing a write transaction isolates the other active transactions.  The
    commit timestamp is above every active snapshot, so once the transaction's
    insertions and deletions in a chunk carry it, each transaction that is still
    active selects exactly the rows it selected before, and the committed transaction
    has left the manager. *)
Theorem commit_isolates_active `{SystemConfig} cfg i t w w' b recs N vi vi' :
  tm_inv (tm w) → tm_room (tm w) → findTransaction i (tm w) = Some t → is_writer t →
  commitLocked cfg i w = (w', Ok b) →
  vi_wf vi →
  (∀ r, covered INSERT_INFO recs r → (r < N)%nat ∧ ins_version vi r = i) →
  (∀ r, covered DELETE_INFO recs r → (r < N)%nat ∧ del_version vi r = i) →
  (∀ r, (r < N)%nat → ins_version vi r = i → covered INSERT_INFO recs r) →
  (∀ r, (r < N)%nat → del_version vi r = i → covered DELETE_INFO recs r) →
  commitRowRecords (lastTimestamp (tm w')) recs vi = Ok vi' →
  findTransaction i (tm w') = None ∧
  ∀ t' r, t' ∈ activeTransactions (tm w') → (r < N)%nat →
    isSelected (startTS t') (ID t') r vi' = isSelected (startTS t') (ID t') r vi.
Proof.
  intros Hinv Hroom Hf Hw E Hwf HI HD HI' HD' Evi.
  rewrite (commitLocked_eq cfg i t) in E by done. rewrite decide_True in E by done.
  unfold after_db in E. destruct (tx_commit _ _ (db w)) as [s [[]|e|]]; simplify_eq/=.
  assert (is_Some (findTransaction i (tm w))) as Hs by eauto.
  destruct (findTransaction_Some _ _ _ Hf) as [Hin Hid].
  pose proof (inv_tx _ Hinv) as Htx. rewrite Forall_forall in Htx.
  destruct (Htx t Hin) as ((Hi1 & Hi2) & _). pose proof (inv_clock _ Hinv) as Hcl.
  pose proof (inv_ids _ Hinv) as Hids. destruct Hroom as (Hr1 & Hr2 & _).
  assert (0 < START_TRANSACTION_ID < INVALID_TRANSACTION) as Hc by (vm_compute; done).
  set (ts := lastTimestamp (tm w) + 1) in *.
  destruct (commitRowRecords_atomic i ts recs N vi) as (vi'' & E' & _ & HR); try done.
  { split; [|unfold DUMMY_START_TIMESTAMP]; lia. }
  { subst ts. split; [|unfold DUMMY_START_TIMESTAMP]; lia. }
  assert (vi'' = vi') as -> by congruence. split.
  { pose proof (findTransaction_clear i i (after_tick i (tm w))) as Ec.
    rewrite decide_True in Ec by done. exact Ec. }
  intros t' r Ht' Hr. apply list_elem_of_filter in Ht' as [Hne Ht'].
  apply list_elem_of_fmap in Ht' as (t0 & -> & Ht0).
  rewrite decide_False in * by (intros ?; apply Hne; by rewrite decide_True).
  destruct (Htx t0 Ht0) as ((? & ?) & ? & _).
  apply (HR r Hr); [split; lia|done|..]; subst ts; lia.
Qed.

(** beginning a transaction.  A new transaction gets the next ID and the current
    clock as its snapshot; a second writer is refused, with nothing changed, exactly
    when multi-writes are disabled; a failure to log the begin record leaves no
    active transaction behind. *)
Theorem begin_outcomes cfg ty w w' r :
  tm_inv (tm w) → tm_room (tm w) → beginTransaction cfg ty w = (w', r) →
  match r with
  | Ok i =>
      i = lastTransactionID (tm w) + 1 ∧ findTransaction i (tm w) = None ∧
      findTransaction i (tm w') = Some (newTransaction ty i (lastTimestamp (tm w))) ∧
      (ty = READ_ONLY → db w' = db w)
  | Throw e =>
      activeTransactions (tm w') = activeTransactions (tm w) ∧
      activeWriteTransactionCount (tm w') = activeWriteTransactionCount (tm w) ∧
      (ty = WRITE ∨ ty = RECOVERY → enableMultiWrites cfg = false →
       0 < activeWriteTransactionCount (tm w) →
       w' = w ∧ e = Exn TransactionManagerException one_writer_only)
  | UB => ty = WRITE ∧ isInMemory cfg = false ∧
          snd (localWAL_logBegin (lastTransactionID (tm w) + 1) (db w)) = UB
  end.
Proof.
  intros Hinv Hroom E.
  assert (findTransaction (lastTransactionID (tm w) + 1) (tm w) = None) as Hnone.
  { destruct (findTransaction _ (tm w)) as [t|] eqn:Ef; [|done].
    apply findTransaction_Some in Ef as [Hin Hid]. pose proof (inv_tx _ Hinv) as Htx.
    rewrite Forall_forall in Htx. destruct (Htx t Hin) as ((? & ?) & _). lia. }
  assert (∀ ty', ty' = READ_ONLY ∨ ty' = WRITE ∨ ty' = RECOVERY →
    findTransaction (lastTransactionID (tm w) + 1) (after_begin ty' (tm w)) =
    Some (newTransaction ty' (lastTransactionID (tm w) + 1) (lastTimestamp (tm w)))) as Hnew.
  { intros ty' Hty. pose proof (begin_inv ty' (tm w) Hinv Hroom Hty) as Hi.
    apply (findTransaction_elem (newTransaction ty' _ _) _ (inv_nodup _ Hi)).
    simpl. apply elem_of_app. right. left. }
  destruct ty; try (injection E as <- <-; split_and!; try done; by intros [?|?]).
  1: { rewrite begin_read_eq in E by done. simplify_eq/=. split_and!; try done. apply Hnew. by left. }
  all: rewrite begin_user_eq in E by tauto;
    destruct (enableMultiWrites cfg) eqn:Em, (hasActiveWriteTransactionNoLock (tm w)) eqn:Eh;
    unfold hasActiveWriteTransactionNoLock in Eh;
    (apply bool_decide_eq_true in Eh || apply bool_decide_eq_false in Eh);
    simpl in E; try (simplify_eq; by split_and!);
    unfold after_db, shouldLogToWAL in E; simpl in E;
    try destruct (isInMemory cfg) eqn:Emem; simpl in E;
    try (destruct (localWAL_logBegin _ (db w)) as [s [[]|e|]] eqn:El); simplify_eq/=;
    split_and!; try done; try (apply Hnew; tauto); lia.
Qed.

(** a commit whose storage work throws.  The clock has advanced, but the
    transaction stays active with everything else of the manager unchanged, and
    rolling it back afterwards removes it and releases its writer slot, as soon as
    the storage rollback succeeds. *)
Theorem failed_commit_can_roll_back cfg i t w w' e :
  tm_inv (tm w) → tm_room (tm w) → findTransaction i (tm w) = Some t →
  commitLocked cfg i w = (w', Throw e) →
  is_writer t ∧ tm_inv (tm w') ∧
  activeWriteTransactionCount (tm w') = activeWriteTransactionCount (tm w) ∧
  lastTimestamp (tm w') = lastTimestamp (tm w) + 1 ∧
  findTransaction i (tm w') = Some (set_commitTS (lastTimestamp (tm w')) t) ∧
  ∀ s', tx_rollback (set_commitTS (lastTimestamp (tm w')) t) (db w') = (s', Ok ()) →
    tm_room (tm w') →
    ∃ w'', rollback i w' = (w'', Ok ()) ∧ tm_inv (tm w'') ∧
      findTransaction i (tm w'') = None ∧
      activeWriteTransactionCount (tm w'') = activeWriteTransactionCount (tm w) - 1.
Proof.
  intros Hinv Hroom Hf E. rewrite (commitLocked_eq cfg i t) in E by done.
  destruct (decide (is_writer t)) as [Hw|]; [|done].
  unfold after_db in E. destruct (tx_commit _ _ (db w)) as [s [[]|e'|]]; simplify_eq/=.
  assert (tm_inv (after_tick i (tm w))) as Hi by (by eapply tick_inv).
  pose proof (find_after_tick i (tm w) t Hf) as Hf1.
  split_and!; try done. intros s' Er Hroom'.
  rewrite (rollback_eq i (set_commitTS (lastTimestamp (tm w) + 1) t)) by done.
  rewrite decide_True by done. unfold after_db. simpl db. rewrite Er.
  eexists. split; [done|]. split; [|split].
  - by apply (clear_inv i (after_tick i (tm w)) (set_commitTS (lastTimestamp (tm w) + 1) t)).
  - simpl. pose proof (findTransaction_clear i i (after_tick i (tm w))) as Ec.
    rewrite decide_True in Ec by done. exact Ec.
  - simpl. by rewrite decide_True.
Qed.

End Theorems.

(** ** The drain loop of a checkpoint *)

Lemma drain_spec timeout busy k n p :
  0 ≤ timeout < 2 ^ 64 - 500 → 0 ≤ n → n * 500 ≤ timeout →
  timeout / 500 + 2 - n ≤ Z.of_nat k →
  ∃ r, drain timeout busy k n p = Some r ∧
    ((r = Ok () ∧ ∃ j, Z.of_nat j ≤ timeout / 500 - n ∧ busy (p + j)%nat = false) ∨
     (r = throw TransactionManagerException drain_timeout ∧
      ∀ j, Z.of_nat j ≤ timeout / 500 - n → busy (p + j)%nat = true)).
Proof.
  intros Ht. revert n p. induction k as [|k IH]; intros n p Hn Hle Hk.
  { exfalso. assert (n ≤ timeout / 500) by (apply Z.div_le_lower_bound; lia). lia. }
  assert (n ≤ timeout / 500) as Hnq by (apply Z.div_le_lower_bound; lia).
  assert (timeout / 500 * 500 ≤ timeout) as Hq by (rewrite Z.mul_comm; apply Z.mul_div_le; lia).
  cbn [drain]. destruct (busy p) eqn:Eb; cbn [negb].
  2: { eexists. split; [done|]. left. split; [done|]. exists 0%nat. rewrite Nat.add_0_r. split; [lia|done]. }
  unfold THREAD_SLEEP_TIME_WHEN_WAITING_IN_MICROS.
  rewrite (wrap_id 64 (n + 1)) by (split; lia).
  rewrite (wrap_id 64 ((n + 1) * 500)) by (split; lia).
  case_bool_decide as Hc.
  - eexists. split; [done|]. right. split; [done|]. intros j Hj.
    assert (timeout / 500 < n + 1) by (apply Z.div_lt_upper_bound; lia).
    assert (j = 0%nat) as -> by lia. by rewrite Nat.add_0_r.
  - destruct (IH (n + 1) (S p)) as (r & E & HR); [lia..|].
    exists r. split; [done|]. destruct HR as [(-> & j & Hj & Hb)|[-> Hb]]; [left|right].
    + split; [done|]. exists (S j). rewrite <- Nat.add_succ_comm. split; [lia|done].
    + split; [done|]. intros [|j] Hj; [by rewrite Nat.add_0_r|].
      rewrite <- Nat.add_succ_comm. apply Hb. lia.
Qed.

(** C40: the wait of a checkpoint for the writers terminates after at most
    [timeout / 500 + 1] polls: it succeeds if one of them finds no active writer, and
    otherwise throws the timeout exception. *)
Theorem drain_terminates timeout busy :
  0 ≤ timeout < 2 ^ 64 - 500 →
  drain timeout busy (drain_fuel timeout) 0 0 =
  Some (if decide (Exists (λ j, busy j = false) (seq 0 (S (Z.to_nat (timeout / 500)))))
        then Ok () else throw TransactionManagerException drain_timeout).
Proof.
  intros Ht. assert (0 ≤ timeout / 500) by (apply Z.div_pos; lia).
  destruct (drain_spec timeout busy (drain_fuel timeout) 0 0) as (r & E & HR); [done|lia|lia| |].
  { unfold drain_fuel, THREAD_SLEEP_TIME_WHEN_WAITING_IN_MICROS. lia. }
  rewrite E. f_equal. destruct HR as [(-> & j & Hj & Hb)|[-> Hb]].
  - rewrite decide_True; [done|]. apply Exists_exists. exists j. split; [|done].
    apply elem_of_seq. lia.
  - rewrite decide_False; [done|]. intros (j & Hj & Hb')%Exists_exists.
    apply elem_of_seq in Hj. specialize (Hb j ltac:(lia)). simpl in Hb. congruence.
Qed.
