(* ===== verification/TransactionSafety.v ===== *)
(** * No dangling transactions: the connection never uses a freed [Transaction]

    A small Hoare logic for the state monad (normal and exceptional
    postconditions, undefined behaviour excluded), and with it the statement runner
    of main/client_context.cpp against the contexts and the manager. *)

From S2P Require Import Prelude.
From S2P Require Import Transaction.
From S2P Require Import TransactionManager.
From S2P Require Import TransactionContext.
From S2P Require Import TransactionFacts.
From S2P Require Import TransactionTheorems.

(** ** Triples *)

Definition safe {S A} (P : S → Prop) (m : stM S A) (Q : A → S → Prop) (E : exn → S → Prop) : Prop :=
  ∀ s, P s → match m s with
             | (s', Ok a) => Q a s'
             | (s', Throw e) => E e s'
             | (_, UB) => False
             end.

Section Rules.
Context {S : Type}.

Lemma safe_ret {A} (a : A) (P : S → Prop) Q E : (∀ s, P s → Q a s) → safe P (mret a) Q E.
Proof. intros HQ s HP. apply (HQ s HP). Qed.

Lemma safe_bind {A B} (m : stM S A) (f : A → stM S B) P R Q E :
  safe P m R E → (∀ a, safe (R a) (f a) Q E) → safe P (m ≫= f) Q E.
Proof.
  intros Hm Hf s HP. specialize (Hm s HP). unfold mbind, stM_bind.
  destruct (m s) as [s' [a|e|]]; [by apply Hf|done|done].
Qed.

Lemma safe_get (P : S → Prop) Q E : (∀ s, P s → Q s s) → safe P st_get Q E.
Proof. intros HQ s HP. apply (HQ s HP). Qed.

Lemma safe_get_bind {B} (f : S → stM S B) (P : S → Prop) Q E :
  (∀ s, P s → safe (λ s', s' = s) (f s) Q E) → safe P (st_get ≫= f) Q E.
Proof. intros Hf s HP. by apply (Hf s HP s). Qed.

Lemma safe_modify f (P : S → Prop) (Q : () → S → Prop) E :
  (∀ s, P s → Q () (f s)) → safe P (st_modify f) Q E.
Proof. intros HQ s HP. apply (HQ s HP). Qed.

Lemma safe_throw {A} c msg (P : S → Prop) (Q : A → S → Prop) (E : exn → S → Prop) :
  (∀ s, P s → E (Exn c msg) s) → safe P (st_throw c msg) Q E.
Proof. intros HE s HP. apply (HE s HP). Qed.

Lemma safe_catch {A} (m : stM S A) h P Q R E :
  safe P m Q R → (∀ e, safe (R e) (h e) Q E) → safe P (st_catch m h) Q E.
Proof.
  intros Hm Hh s HP. specialize (Hm s HP). unfold st_catch.
  destruct (m s) as [s' [a|e|]]; [done|by apply Hh|done].
Qed.

Lemma safe_conseq {A} (m : stM S A) (P P' : S → Prop) Q Q' E E' :
  safe P' m Q' E' → (∀ s, P s → P' s) → (∀ a s, Q' a s → Q a s) → (∀ e s, E' e s → E e s) →
  safe P m Q E.
Proof.
  intros Hm HP HQ HE s Hs. specialize (Hm s (HP s Hs)).
  destruct (m s) as [s' [a|e|]]; [by apply HQ|by apply HE|done].
Qed.

Lemma safe_pre {A} (m : stM S A) (P P' : S → Prop) Q E :
  safe P' m Q E → (∀ s, P s → P' s) → safe P m Q E.
Proof. intros Hm HP s Hs. by apply Hm, HP. Qed.

End Rules.

Section Safety.
Context `{TransactionStorage} (cfg : DBConfig).

(** What the manager relies on: no storage call has undefined behaviour. *)
Definition no_ub {A} (m : stM store A) : Prop := ∀ s, snd (m s) ≠ UB.
Definition no_throw {A} (m : stM store A) : Prop := ∀ s e, snd (m s) ≠ Throw e.

Record storage_safe : Prop := {
  safe_local_commit i : no_ub (localStorage_commit i);
  safe_local_rollback i : no_ub (localStorage_rollback i);
  safe_undo_commit i ts : no_ub (undoBuffer_commit i ts);
  safe_undo_rollback i : no_ub (undoBuffer_rollback i);
  safe_logBegin i : no_ub (localWAL_logBegin i);
  safe_logCommit i : no_ub (localWAL_logCommit i);
  safe_logCommitted i : no_ub (wal_logCommittedWAL i);
  safe_walClear i : no_ub (localWAL_clear i);
  safe_version : no_ub catalog_incrementVersion;
  safe_cp_begin ts : no_ub (checkpointer_begin ts);
  safe_cp_storage : no_ub checkpointer_storagePhase;
  safe_cp_finish : no_ub checkpointer_finish;
  safe_cp_cleanup : no_ub checkpointer_postCleanup;
  safe_cp_rollback : no_ub checkpointer_rollback;
}.

Context (Hsafe : storage_safe).

Lemma no_ub_bind {A B} (m : stM store A) (f : A → stM store B) :
  no_ub m → (∀ a, no_ub (f a)) → no_ub (m ≫= f).
Proof.
  intros Hm Hf s. specialize (Hm s). unfold mbind, stM_bind.
  destruct (m s) as [s' [a|e|]]; [apply Hf|done|done].
Qed.

Lemma no_ub_ret {A} (a : A) : no_ub (mret a).
Proof. done. Qed.

Lemma tx_commit_no_ub t : no_ub (tx_commit cfg t).
Proof.
  destruct Hsafe. unfold tx_commit.
  repeat (apply no_ub_bind; intros); try done; destruct (_ : bool); try done;
    repeat (apply no_ub_bind; intros); done.
Qed.

Lemma tx_rollback_no_ub t : no_ub (tx_rollback t).
Proof. destruct Hsafe. unfold tx_rollback. repeat (apply no_ub_bind; intros); done. Qed.

(** A storage call keeps every assertion about the manager. *)
Lemma safe_on_db {A} (m : stM store A) (P : TransactionManager → Prop) :
  no_ub m → safe (λ w, P (tm w)) (on_db m) (λ _ w, P (tm w)) (λ _ w, P (tm w)).
Proof.
  intros Hm w HP. unfold on_db. specialize (Hm (db w)). destruct (m (db w)) as [s [a|e|]]; done.
Qed.

(** ** The manager's operations *)

Definition timeout_ok (m : TransactionManager) : Prop :=
  0 ≤ checkpointWaitTimeoutInMicros m < 2 ^ 64 - 500.
Definition live (i : Z) (m : TransactionManager) : Prop := is_Some (findTransaction i m).

Lemma safe_begin ty :
  safe (λ w, timeout_ok (tm w)) (beginTransaction cfg ty)
    (λ i w, timeout_ok (tm w) ∧ live i (tm w)) (λ _ w, timeout_ok (tm w)).
Proof.
  assert (∀ i t, ID t = i →
    safe (λ w, timeout_ok (tm w)) (_ ← pushTransaction t; mret i)
      (λ i w, timeout_ok (tm w) ∧ live i (tm w)) (λ _ w, timeout_ok (tm w))) as Hpush.
  { intros i t Hid w Hw. split; [done|]. unfold live, findTransaction. simpl.
    destruct (list_find_elem_of (λ x, ID x = i) (activeTransactions (tm w) ++ [t]) t)
      as [[k x] E]; [apply elem_of_app; right; left|done|]. rewrite E. simpl. eauto. }
  assert (safe (λ w, timeout_ok (tm w)) newID (λ _ w, timeout_ok (tm w)) (λ _ w, timeout_ok (tm w)))
    as Hid by (intros w Hw; done).
  destruct ty; try (apply safe_throw; done); unfold beginTransaction.
  1: { eapply safe_bind; [apply Hid|]. intros i. apply safe_get_bind. intros w Hw _ ->. by apply Hpush. }
  all: apply safe_get_bind; intros w Hw; destruct (negb _ && _);
    [apply safe_throw; by intros _ ->|];
    apply (safe_pre _ _ (λ w, timeout_ok (tm w))); [|by intros _ ->];
    eapply safe_bind; [apply Hid|]; intros i; cbv zeta;
    (eapply (safe_bind _ _ _ (λ _ w, timeout_ok (tm w)));
      [destruct (shouldLogToWAL _ _); [apply safe_on_db, Hsafe|by apply safe_ret]|]);
    intros _; (eapply (safe_bind _ _ _ (λ _ w, timeout_ok (tm w))); [done|]); intros _;
    by apply Hpush.
Qed.

Lemma drain_not_ub w :
  timeout_ok (tm w) →
  snd (stopNewWriteTransactionsAndWaitUntilAllWriteTransactionsLeave w) ≠ UB.
Proof.
  intros Hw. unfold stopNewWriteTransactionsAndWaitUntilAllWriteTransactionsLeave. cbn [snd].
  set (to := checkpointWaitTimeoutInMicros (tm w)). unfold timeout_ok in Hw. fold to in Hw.
  destruct (drain_spec to (λ _, hasActiveWriteTransactionNoLock (tm w)) (drain_fuel to) 0 0)
    as (r & -> & [[-> _]|[-> _]]); [done|lia|lia| |done|done].
  unfold drain_fuel, THREAD_SLEEP_TIME_WHEN_WAITING_IN_MICROS.
  assert (0 ≤ to / 500) by (apply Z.div_pos; lia). lia.
Qed.

(** The two calls a checkpoint does not guard. *)
Definition cleanup_total : Prop :=
  no_throw checkpointer_rollback ∧ no_throw checkpointer_postCleanup.

Lemma safe_checkpointNoLock (P : TransactionManager → Prop) :
  cleanup_total → (∀ m, P m → timeout_ok m) →
  safe (λ w, P (tm w)) checkpointNoLock (λ _ w, P (tm w))
    (λ e w, exn_CheckpointException e = true ∧ P (tm w)).
Proof.
  intros [Hcr Hcc] HP.
  set (Pw := λ w : World, P (tm w)).
  assert (∀ e, safe Pw (rollbackAndRethrow e) (λ _, Pw) (λ e w, exn_CheckpointException e = true ∧ Pw w))
    as Hrr.
  { intros e. unfold rollbackAndRethrow. apply (safe_bind _ _ _ (λ _, Pw)); [|intros; by apply safe_throw].
    intros w Hw. unfold on_db. pose proof (safe_cp_rollback Hsafe (db w)) as Hu.
    specialize (Hcr (db w)). destruct (checkpointer_rollback (db w)) as [s [a|e'|]]; simpl in *;
      [done|by destruct (Hcr e')|done]. }
  assert (∀ m : stM store (), no_ub m →
    safe Pw (st_catch (on_db m) rollbackAndRethrow) (λ _, Pw)
      (λ e w, exn_CheckpointException e = true ∧ Pw w)) as Hphase.
  { intros m Hm. eapply safe_catch; [by apply (safe_on_db m P)|apply Hrr]. }
  unfold checkpointNoLock.
  eapply (safe_bind _ _ _ (λ _, Pw)).
  { eapply (safe_catch _ _ _ _ (λ _, Pw)).
    - intros w Hw. pose proof (drain_not_ub w (HP _ Hw)) as Hu.
      pose proof (tm_same_drain w) as Ht.
      destruct (stopNewWriteTransactionsAndWaitUntilAllWriteTransactionsLeave w) as [w' [a|e|]];
        simpl in *; unfold Pw in *; by rewrite ?Ht.
    - intros e. by apply safe_throw. }
  intros _. apply safe_get_bind. intros w0 Hw0.
  apply (safe_pre _ _ Pw); [|by intros _ ->].
  apply (safe_bind _ _ _ (λ _, Pw)); [apply Hphase, Hsafe|intros _].
  apply (safe_bind _ _ _ (λ _, Pw)); [apply Hphase, Hsafe|intros _].
  apply (safe_bind _ _ _ (λ _, Pw)); [apply Hphase, Hsafe|intros _].
  intros w Hw. unfold on_db. pose proof (safe_cp_cleanup Hsafe (db w)) as Hu.
  specialize (Hcc (db w)). destruct (checkpointer_postCleanup (db w)) as [s [a|e'|]]; simpl in *;
    [done|by destruct (Hcc e')|done].
Qed.

Lemma safe_on_tm f (P : TransactionManager → Prop) (Q : () → World → Prop) E :
  (∀ m s, P m → Q () (mkWorld (f m) s)) → safe (λ w, P (tm w)) (on_tm f) Q E.
Proof. intros HQ w HP. by apply HQ. Qed.

Lemma safe_getTransaction i :
  safe (λ w, timeout_ok (tm w) ∧ live i (tm w)) (getTransaction i)
    (λ _ w, timeout_ok (tm w) ∧ live i (tm w)) (λ _ _, False).
Proof. intros w [Hw [t Ht]]. unfold getTransaction. rewrite Ht. split; [done|]. by exists t. Qed.

(** The pointee stays allocated through a commit that fails. *)
Definition held (i : Z) (w : World) : Prop := timeout_ok (tm w) ∧ live i (tm w).

Lemma live_update i j f m : (∀ t, ID (f t) = ID t) → live i m → live i (updateTransaction j f m).
Proof. intros Hf [t Ht]. unfold live. rewrite findTransaction_update, Ht by done. simpl. eauto. Qed.

Lemma safe_commitLocked i :
  safe (held i) (commitLocked cfg i) (λ _ w, timeout_ok (tm w)) (λ _, held i).
Proof.
  unfold commitLocked. apply (safe_bind _ _ _ (λ _, held i)).
  { intros w Hw. pose proof (safe_getTransaction i w Hw). by destruct (getTransaction i w) as [? [?|?|]]. }
  intros t. destruct (type t); try (by apply safe_throw).
  1: { apply (safe_bind _ _ _ (λ _ w, timeout_ok (tm w))); [|intros _; by apply safe_ret].
       by intros w [Hw _]. }
  all: apply (safe_bind _ _ _ (λ _, held i)); [by intros w [Hw Hl]|intros _];
    apply safe_get_bind; intros w0 Hw0;
    apply (safe_pre _ _ (held i)); [|by intros _ ->]; cbv zeta;
    (apply (safe_bind _ _ _ (λ _, held i));
      [intros w [Hw Hl]; split; [done|by apply live_update]|intros _]);
    (apply (safe_bind _ _ _ (λ _, held i));
      [by apply (safe_on_db _ (λ m, timeout_ok m ∧ live i m)), tx_commit_no_ub|intros _]);
    apply safe_get_bind; intros w1 Hw1;
    apply (safe_pre _ _ (held i)); [|by intros _ ->]; cbv zeta;
    (apply (safe_bind _ _ _ (λ _ w, timeout_ok (tm w))); [by intros w [Hw _]|intros _]);
    (apply (safe_bind _ _ _ (λ _ w, timeout_ok (tm w))); [by intros w Hw|intros _]);
    by apply safe_ret.
Qed.

Lemma safe_tryCheckpoint got :
  cleanup_total →
  safe (λ w, timeout_ok (tm w)) (tryCheckpoint cfg got) (λ _ w, timeout_ok (tm w))
    (λ e w, exn_CheckpointException e = true ∧ timeout_ok (tm w)).
Proof.
  intros Hcl. unfold tryCheckpoint.
  destruct (isInMemory cfg); [by apply safe_ret|]. destruct got; [|by apply safe_ret].
  by apply safe_checkpointNoLock.
Qed.

Lemma safe_commit got i :
  cleanup_total →
  safe (held i) (commit cfg got i) (λ _ w, timeout_ok (tm w))
    (λ e w, timeout_ok (tm w) ∧ (exn_CheckpointException e = true ∨ live i (tm w))).
Proof.
  intros Hcl. unfold commit. apply (safe_bind _ _ _ (λ _ w, timeout_ok (tm w))).
  { eapply safe_conseq; [apply safe_commitLocked|done|done|]. intros e w [? ?]. auto. }
  intros [|]; [|by apply safe_ret].
  eapply safe_conseq; [by apply safe_tryCheckpoint|done|done|]. intros e w [? ?]. auto.
Qed.

Lemma safe_rollback i :
  safe (held i) (rollback i) (λ _ w, timeout_ok (tm w)) (λ _, held i).
Proof.
  unfold rollback. apply (safe_bind _ _ _ (λ _, held i)).
  { intros w Hw. pose proof (safe_getTransaction i w Hw). by destruct (getTransaction i w) as [? [?|?|]]. }
  intros t. destruct (type t); try (by apply safe_throw).
  1: by intros w [Hw _].
  all: (apply (safe_bind _ _ _ (λ _, held i));
      [by apply (safe_on_db _ (λ m, timeout_ok m ∧ live i m)), tx_rollback_no_ub|intros _]);
    (apply (safe_bind _ _ _ (λ _ w, timeout_ok (tm w))); [by intros w [Hw _]|intros _]);
    by intros w Hw.
Qed.

(** ** Connections *)

(** A connection between statements: its pointer, if set, points to a transaction
    the manager still holds. *)
Definition conn_ok (c : Connection) : Prop :=
  timeout_ok (tm (world c)) ∧ ∀ i, activeTransaction c = Some i → live i (tm (world c)).

(** What may be left behind by an exception: the pointer dangles only after a
    [CheckpointException]. *)
Definition conn_raised (e : exn) (c : Connection) : Prop :=
  timeout_ok (tm (world c)) ∧ (exn_CheckpointException e = true ∨ conn_ok c).

Definition conn_cleared (c : Connection) : Prop :=
  timeout_ok (tm (world c)) ∧ activeTransaction c = None ∧ mode c = AUTO.

Lemma conn_cleared_ok c : conn_cleared c → conn_ok c.
Proof. intros (Ht & Ha & _). split; [done|]. intros i Hi. congruence. Qed.

Lemma conn_ok_raised e c : conn_ok c → conn_raised e c.
Proof. intros Hc. split; [apply Hc|by right]. Qed.

Lemma safe_on_world {A} (m : stM World A) md o (P : World → Prop) Q E :
  safe P m Q E →
  safe (λ c, (mode c = md ∧ activeTransaction c = o) ∧ P (world c)) (on_world m)
    (λ a c, (mode c = md ∧ activeTransaction c = o) ∧ Q a (world c))
    (λ e c, (mode c = md ∧ activeTransaction c = o) ∧ E e (world c)).
Proof.
  intros Hm c [Hc HP]. unfold on_world. specialize (Hm (world c) HP).
  destruct (m (world c)) as [w [a|e|]]; done.
Qed.

Lemma safe_clearTransaction E :
  safe (λ c, timeout_ok (tm (world c))) clearTransaction (λ _, conn_cleared) E.
Proof. intros c Hc. done. Qed.

Lemma safe_ctx_commit got :
  cleanup_total →
  safe conn_ok (ctx_commit cfg got)
    (λ _ c, conn_ok c ∧ activeTransaction c = None) conn_raised.
Proof.
  intros Hcl. unfold ctx_commit. apply safe_get_bind. intros c0 [Ht Hl].
  destruct (activeTransaction c0) as [i|] eqn:Ea.
  2: { apply safe_ret. intros _ ->. split; [|done]. split; [done|]. intros i. congruence. }
  apply (safe_pre _ _ (λ c, (mode c = mode c0 ∧ activeTransaction c = Some i) ∧ held i (world c))).
  2: { intros _ ->. split_and!; [done..|]. split; [done|]. by apply Hl. }
  apply (safe_bind _ _ _ (λ _ c, timeout_ok (tm (world c)))).
  - eapply safe_conseq; [by apply (safe_on_world _ (mode c0) (Some i)), safe_commit|done|by intros _ c [_ ?]|].
    intros e c [[_ Hac] [Ht' Hd]]. split; [done|]. destruct Hd as [?|Hli]; [by left|right].
    split; [done|]. intros j Hj. rewrite Hac in Hj. by simplify_eq.
  - intros _ c Hc. split; [by apply conn_cleared_ok|done].
Qed.

Lemma safe_ctx_rollback :
  safe conn_ok ctx_rollback (λ _ c, conn_ok c ∧ activeTransaction c = None) (λ _, conn_ok).
Proof.
  unfold ctx_rollback. apply safe_get_bind. intros c0 [Ht Hl].
  destruct (activeTransaction c0) as [i|] eqn:Ea.
  2: { apply safe_ret. intros _ ->. split; [|done]. split; [done|]. intros i. congruence. }
  apply (safe_pre _ _ (λ c, (mode c = mode c0 ∧ activeTransaction c = Some i) ∧ held i (world c))).
  2: { intros _ ->. split_and!; [done..|]. split; [done|]. by apply Hl. }
  apply (safe_bind _ _ _ (λ _ c, timeout_ok (tm (world c)))).
  - eapply safe_conseq; [by apply (safe_on_world _ (mode c0) (Some i)), safe_rollback|done|by intros _ c [_ ?]|].
    intros e c [[_ Hac] [Ht' Hli]]. split; [done|]. intros j Hj. rewrite Hac in Hj. by simplify_eq.
  - intros _ c Hc. split; [by apply conn_cleared_ok|done].
Qed.

Lemma safe_beginInternal ty md :
  safe (λ c, timeout_ok (tm (world c)) ∧ mode c = md ∧ activeTransaction c = None)
    (beginTransactionInternal cfg ty)
    (λ _ c, conn_ok c ∧ mode c = md ∧ activeTransaction c ≠ None)
    (λ _ c, conn_ok c ∧ mode c = md ∧ activeTransaction c = None).
Proof.
  unfold beginTransactionInternal.
  apply (safe_bind _ _ _ (λ i c, (mode c = md ∧ activeTransaction c = None) ∧
           (timeout_ok (tm (world c)) ∧ live i (tm (world c))))).
  - eapply safe_conseq; [by apply (safe_on_world _ md None), safe_begin|naive_solver|done|].
    intros e c [[Hm Ha] Ht]. split; [|done]. split; [done|]. intros i. by rewrite Ha.
  - intros i c [[Hm _] [Ht Hl]]. split; [|done]. split; [done|]. by intros j [= <-].
Qed.

Lemma safe_validate a (c0 : Connection) (E : exn → Connection → Prop) :
  (∀ e, E e c0) → safe (λ c, c = c0) (st_lift (validateActiveTransaction a c0))
    (λ _ c, c = c0 ∧ validateActiveTransaction a c0 = Ok ()) E.
Proof.
  intros HE c ->. unfold st_lift.
  destruct (validateActiveTransaction a c0) as [[]|e|] eqn:Ev; [done|apply HE|].
  unfold validateActiveTransaction in Ev. by destruct a, (hasActiveTransaction c0).
Qed.

(** The operator of transaction statements keeps the contract of a body. *)
Lemma safe_getNextTuples got a executed :
  cleanup_total →
  safe conn_ok (getNextTuplesInternal cfg got a executed) (λ _, conn_ok) conn_raised.
Proof.
  intros Hcl. unfold getNextTuplesInternal. destruct executed; [by apply safe_ret|].
  apply safe_get_bind. intros c0 Hc0.
  eapply safe_bind; [apply safe_validate; intros; by apply conn_ok_raised|].
  intros u. apply (safe_bind _ _ _ (λ _, conn_ok)); [|intros _; by apply safe_ret].
  clear u.
  assert (∀ ty, validateActiveTransaction ACTION_BEGIN_READ c0 = Ok () →
    safe (λ c, c = c0) (_ ← set_mode MANUAL; beginTransactionInternal cfg ty)
      (λ _, conn_ok) conn_raised) as Hbegin.
  { intros ty Hv. assert (activeTransaction c0 = None) as Ha.
    { unfold validateActiveTransaction, hasActiveTransaction in Hv.
      case_bool_decide as Hd; [done|]. by destruct (activeTransaction c0); [destruct Hd|]. }
    apply (safe_bind _ _ _ (λ _ c, timeout_ok (tm (world c)) ∧ mode c = MANUAL ∧
                                   activeTransaction c = None)).
    - intros c ->. split; [apply Hc0|done].
    - intros _. eapply safe_conseq; [apply (safe_beginInternal ty MANUAL)|done|by intros _ c (? & _)|].
      intros e c (? & _). by apply conn_ok_raised. }
  destruct a.
  - intros c [-> Hv]. by apply (Hbegin READ_ONLY Hv c0).
  - intros c [-> Hv]. by apply (Hbegin WRITE Hv c0).
  - intros c [-> _]. pose proof (safe_ctx_commit got Hcl c0 Hc0) as Hs.
    destruct (ctx_commit cfg got c0) as [c' [[]|e|]]; [apply Hs|done|done].
  - intros c [-> _]. pose proof (safe_ctx_rollback c0 Hc0) as Hs.
    destruct (ctx_rollback c0) as [c' [[]|e|]]; [apply Hs|by apply conn_ok_raised|done].
  - intros c [-> _]. unfold on_world, checkpoint. destruct (isInMemory cfg).
    { simpl. by destruct c0. }
    destruct Hc0 as [Ht Hl].
    pose proof (safe_checkpointNoLock
      (λ m, timeout_ok m ∧ ∀ i, activeTransaction c0 = Some i → live i m) Hcl
      ltac:(naive_solver) (world c0) (conj Ht Hl)) as Hs.
    destruct (checkpointNoLock (world c0)) as [w [[]|e|]]; simpl; [done| |done].
    destruct Hs as (? & ? & ?). split; [done|]. by left.
Qed.

End Safety.

Section SafetyTheorems.
Context `{TransactionStorage}.

Lemma runFunc_ends_sound cfg got fn ro txStatement action c :
  storage_safe → cleanup_total →
  safe conn_ok fn (λ _, conn_ok) conn_raised →
  conn_ok c →
  match runFuncInTransaction cfg got fn ro txStatement action c with
  | (c', Ok _) => conn_ok c' ∧
      (mode c = AUTO → activeTransaction c = None → txStatement = false →
       commitIfNew action = true → activeTransaction c' = None)
  | (c', Throw _) => conn_ok c'
  | (_, UB) => False
  end.
Proof.
  intros Hs Hcl Hfn Hc.
  enough (safe (λ c', c' = c) (runFuncInTransaction cfg got fn ro txStatement action)
    (λ _ c', conn_ok c' ∧ (mode c = AUTO → activeTransaction c = None → txStatement = false →
       commitIfNew action = true → activeTransaction c' = None)) (λ _, conn_ok)) as Hg
    by exact (Hg c eq_refl).
  unfold runFuncInTransaction. apply safe_get_bind. intros ? ->. cbv zeta.
  set (new := isAutoTransaction c && negb (hasActiveTransaction c) && negb txStatement).
  assert (mode c = AUTO → activeTransaction c = None → txStatement = false → new = true) as Hnew.
  { intros Hm Ha ->. unfold new, isAutoTransaction, hasActiveTransaction. by rewrite Hm, Ha. }
  apply (safe_bind _ _ _ (λ _, conn_ok)).
  { destruct new eqn:En; [|by apply safe_ret; intros _ ->].
    unfold beginAutoTransaction. apply safe_get_bind. intros ? ->.
    assert (hasActiveTransaction c = false) as Ha.
    { unfold new in En. by destruct (isAutoTransaction c), (hasActiveTransaction c). }
    rewrite Ha. unfold hasActiveTransaction in Ha. apply bool_decide_eq_false in Ha.
    eapply safe_conseq; [by apply (safe_beginInternal cfg Hs _ (mode c))| |by intros _ ? (? & _)
      |by intros _ ? (? & _)].
    intros ? ->. split; [apply Hc|]. split; [done|]. by destruct (activeTransaction c); [destruct Ha|]. }
  intros _. apply (safe_catch _ _ _ _ conn_raised).
  - apply (safe_bind _ _ _ (λ _, conn_ok)); [done|]. intros _. apply safe_get_bind. intros c1 Hc1.
    apply (safe_pre _ _ conn_ok); [|by intros _ ->].
    destruct ((new && commitIfNew action) || (isAutoTransaction c1 && commitIfAuto action)) eqn:Eb.
    + eapply safe_conseq; [by apply safe_ctx_commit|done|by intros _ ? [? ?]|done].
    + apply safe_ret. intros c2 Hc2. split; [done|]. intros Hm Ha Ht Hcn.
      rewrite (Hnew Hm Ha Ht), Hcn in Eb. done.
  - intros e. apply (safe_bind _ _ _ (λ _, conn_ok)); [|intros ? c1 Hc1; exact Hc1].
    intros c1 [Ht1 Hd]. destruct (exn_CheckpointException e) eqn:Ee.
    + simpl. split; [done|]. intros i Hi. done.
    + destruct Hd as [?|Hok]; [done|]. pose proof (safe_ctx_rollback Hs c1 Hok) as Hr.
      destruct (ctx_rollback c1) as [c2 [[]|e'|]]; [apply Hr|done|done].
Qed.

(** C9: the statement runner never leaves a dangling transaction.  If the storage
    calls have no undefined behaviour and the unguarded checkpoint cleanup does not
    throw, then running any body that keeps the connection sound (an exception of
    the auto-checkpoint excepted) has no undefined behaviour and leaves the
    connection sound, whether the statement ends normally or throws; a statement that
    opened its own transaction and was to commit it ends with none. *)
Theorem runFuncInTransaction_safe cfg got fn ro txStatement action c :
  storage_safe → cleanup_total →
  safe conn_ok fn (λ _, conn_ok) conn_raised →
  conn_ok c →
  match runFuncInTransaction cfg got fn ro txStatement action c with
  | (c', Ok _) => conn_ok c' ∧
      (mode c = AUTO → activeTransaction c = None → txStatement = false →
       commitIfNew action = true → activeTransaction c' = None)
  | (c', Throw _) => conn_ok c'
  | (_, UB) => False
  end.
Proof. apply runFunc_ends_sound. Qed.

(** BEGIN, COMMIT, ROLLBACK and CHECKPOINT statements are sound bodies: after any
    of them, in any order and with any failures, the connection's pointer is null or
    points to a transaction the manager holds. *)
Theorem transaction_statements_safe cfg c (acts : list (bool * TransactionAction)) :
  storage_safe → cleanup_total → conn_ok c →
  conn_ok (foldl (λ c '(got, a), fst (runTransactionStatement cfg got a c)) c acts) ∧
  ∀ got a, snd (runTransactionStatement cfg got a
    (foldl (λ c '(got, a), fst (runTransactionStatement cfg got a c)) c acts)) ≠ UB.
Proof.
  intros Hs Hcl.
  assert (∀ c got a, conn_ok c → conn_ok (fst (runTransactionStatement cfg got a c)) ∧
    snd (runTransactionStatement cfg got a c) ≠ UB) as Hstep.
  { intros c1 got a Hc1. pose proof (runFunc_ends_sound cfg got
      (_ ← getNextTuplesInternal cfg got a false; mret ()) true true (getAction true false) c1
      Hs Hcl) as Hr.
    unfold runTransactionStatement.
    destruct (runFuncInTransaction _ _ _ _ _ _ c1) as [c2 [r|e|]]; simpl;
      (split; [|done]) || exfalso; apply Hr; try done;
      (eapply safe_bind; [by apply safe_getNextTuples|intros; by apply safe_ret]). }
  revert c. induction acts as [|[got a] acts IH]; intros c Hc; simpl; [|by apply IH, Hstep].
  split; [done|]. intros. by apply Hstep.
Qed.

End SafetyTheorems.
