(* ===== verification/TransactionExamples.v ===== *)
(** * Concrete histories of transactions

    A storage that records the calls it receives and fails those it is told to;
    the witnesses of the transaction theorems, and two histories that end badly. *)

From S2P Require Import Prelude.
From S2P Require Import SelVector.
From S2P Require Import VersionInfo.
From S2P Require Import VersionInfoFacts.
From S2P Require Import VersionInfoOps.
From S2P Require Import VersionInfoSpec.
From S2P Require Import VersionInfoTheorems.
From S2P Require Import Transaction.
From S2P Require Import TransactionManager.
From S2P Require Import TransactionContext.
From S2P Require Import TransactionFacts.
From S2P Require Import TransactionTheorems.
From S2P Require Import TransactionSafety.

(** The calls so far, latest first, and the names of the calls that throw. *)
Record TraceStore : Type := mkTraceStore {
  trace : list (string * Z);
  failing : list string;
}.

Definition traced (name : string) (i : Z) : stM TraceStore () := λ s,
  (mkTraceStore ((name, i) :: trace s) (failing s),
   if decide (name ∈ failing s) then throw RuntimeException name else Ok ()).

Definition recorded (name : string) (i : Z) : stM TraceStore () := λ s,
  (mkTraceStore ((name, i) :: trace s) (failing s), Ok ()).

(** [cleanup]: the calls a checkpoint makes without a handler of its own. *)
Definition traceStorageWith (cleanup : string → Z → stM TraceStore ()) : TransactionStorage := {|
  store := TraceStore;
  localStorage_commit := traced "localStorage.commit";
  localStorage_rollback := traced "localStorage.rollback";
  undoBuffer_commit i ts := traced "undoBuffer.commit" ts;
  undoBuffer_rollback := traced "undoBuffer.rollback";
  localWAL_logBegin := traced "localWAL.logBegin";
  localWAL_logCommit := traced "localWAL.logCommit";
  wal_logCommittedWAL := traced "wal.logCommittedWAL";
  localWAL_clear := traced "localWAL.clear";
  localWAL_size _ _ := 100;
  wal_fileSize _ := 100;
  catalog_incrementVersion := traced "catalog.incrementVersion" 0;
  checkpointer_begin := traced "checkpointer.begin";
  checkpointer_wasWalRotated _ := false;
  checkpointer_storagePhase := traced "checkpointer.storagePhase" 0;
  checkpointer_finish := traced "checkpointer.finish" 0;
  checkpointer_postCleanup := cleanup "checkpointer.postCleanup" 0;
  checkpointer_rollback := cleanup "checkpointer.rollback" 0;
|}.

Definition traceStorage : TransactionStorage := traceStorageWith recorded.
#[local] Existing Instance traceStorage.
#[local] Existing Instance config4.

Definition ex_cfg : DBConfig := mkDBConfig false false true 1000.
Definition ex_multi : DBConfig := mkDBConfig false true true 1000.
Definition quiet : store := mkTraceStore [] [].

(** A writer and a reader, begun in this order. *)
Definition ex_two : World :=
  fst ((_ ← beginTransaction ex_cfg WRITE; beginTransaction ex_cfg READ_ONLY)
         (mkWorld newTransactionManager quiet)).
Definition ex_writer : Transaction := newTransaction WRITE (START_TRANSACTION_ID + 1) 1.
Definition ex_failing (names : list string) : World :=
  mkWorld (tm ex_two) (mkTraceStore [] names).

Lemma ex_run : mgr_run ex_cfg quiet 2 ex_two.
Proof.
  eapply (run_step _ _ 1); [eapply (run_step _ _ 0); [constructor|apply (step_begin _ _ WRITE)]|].
  apply (step_begin _ _ READ_ONLY).
Qed.

Lemma ex_two_inv : tm_inv (tm ex_two) ∧ tm_room (tm ex_two).
Proof.
  assert (within ex_cfg 0 newTransactionManager) as H0 by (split_and!; simpl; done).
  destruct (mgr_step_ok ex_cfg 0 (mkWorld newTransactionManager quiet)
    (fst (beginTransaction ex_cfg WRITE (mkWorld newTransactionManager quiet)))) as [Hi1 H1];
    [apply newTransactionManager_inv|done|by eapply within_room|constructor|].
  destruct (mgr_step_ok ex_cfg 1
    (fst (beginTransaction ex_cfg WRITE (mkWorld newTransactionManager quiet))) ex_two) as [Hi2 H2];
    [done|done|by eapply within_room|apply (step_begin _ _ READ_ONLY)|].
  split; [done|]. by eapply within_room.
Qed.

Lemma manager_invariant_witness :
  tm_inv (tm ex_two) ∧ activeWriteTransactionCount (tm ex_two) = 1.
Proof.
  split; [|vm_compute; reflexivity].
  apply (manager_invariant ex_cfg quiet 2 ex_two ex_run). vm_compute. reflexivity.
Defined.

(** The writer of [ex_two] is the [T1] of the row examples; its commit makes the
    rows it appended carry timestamp 2, and the reader still does not see them. *)
Lemma commit_isolates_active_witness :
  ∃ vi', commitRowRecords 2 ex_records ex_deleted = Ok vi' ∧
    isSelected 1 (START_TRANSACTION_ID + 2) 8 vi' = Ok false ∧
    isSelected 1 (START_TRANSACTION_ID + 2) 8 ex_deleted = Ok false.
Proof.
  destruct ex_two_inv as [Hi Hr].
  destruct (commitRowRecords 2 ex_records ex_deleted) as [vi'|e|] eqn:E;
    [|vm_compute in E; discriminate E|vm_compute in E; discriminate E].
  exists vi'. split; [reflexivity|].
  destruct (commit_isolates_active ex_cfg T1 ex_writer ex_two
    (fst (commitLocked ex_cfg T1 ex_two)) false ex_records 11 ex_deleted vi') as [_ HR].
  - exact Hi.
  - exact Hr.
  - vm_compute. reflexivity.
  - left. reflexivity.
  - vm_compute. reflexivity.
  - exact ex_deleted_wf.
  - apply ex_records_complete.
  - apply ex_records_complete.
  - apply ex_records_complete.
  - apply ex_records_complete.
  - exact E.
  - assert (isSelected 1 (START_TRANSACTION_ID + 2) 8 ex_deleted = Ok false) as E0
      by (vm_compute; reflexivity).
    split; [|exact E0]. rewrite <- E0.
    apply (HR (newTransaction READ_ONLY (START_TRANSACTION_ID + 2) 1) 8%nat); [|lia].
    vm_compute. left.
Defined.

Lemma begin_outcomes_witness :
  snd (beginTransaction ex_cfg WRITE ex_two) =
    throw TransactionManagerException one_writer_only ∧
  snd (beginTransaction ex_multi WRITE ex_two) = Ok (START_TRANSACTION_ID + 3).
Proof.
  destruct ex_two_inv as [Hi Hr]. split.
  - destruct (beginTransaction ex_cfg WRITE ex_two) as [w' r] eqn:E.
    pose proof (begin_outcomes ex_cfg WRITE ex_two w' r Hi Hr E) as Ho.
    destruct r as [i|e|]; [vm_compute in E; discriminate E| |vm_compute in E; discriminate E].
    destruct Ho as (_ & _ & Ho). destruct Ho as [_ ->];
      [left; reflexivity|reflexivity|vm_compute; reflexivity|reflexivity].
  - vm_compute. reflexivity.
Defined.

(** The WAL write of the commit fails: the writer can still be rolled back. *)
Lemma failed_commit_can_roll_back_witness :
  ∃ w', commitLocked ex_cfg T1 (ex_failing ["wal.logCommittedWAL"]) =
          (w', throw RuntimeException "wal.logCommittedWAL") ∧
  ∃ w'', rollback T1 w' = (w'', Ok ()) ∧ findTransaction T1 (tm w'') = None ∧
    activeWriteTransactionCount (tm w'') = 0.
Proof.
  destruct ex_two_inv as [Hi Hr].
  destruct (commitLocked ex_cfg T1 (ex_failing ["wal.logCommittedWAL"])) as [w' r] eqn:E.
  assert (r = throw RuntimeException "wal.logCommittedWAL") as ->
    by (vm_compute in E; injection E as _ <-; reflexivity).
  exists w'. split; [reflexivity|].
  destruct (failed_commit_can_roll_back ex_cfg T1 ex_writer (ex_failing ["wal.logCommittedWAL"])
    w' _ Hi Hr eq_refl E) as (_ & _ & _ & _ & _ & HR).
  edestruct HR as (w'' & Ew & _ & Hf & Hc).
  - vm_compute in E. injection E as <-. vm_compute. reflexivity.
  - vm_compute in E. injection E as <-. vm_compute. repeat split; congruence.
  - exists w''. split; [exact Ew|]. split; [exact Hf|]. rewrite Hc. vm_compute. reflexivity.
Defined.

Lemma drain_terminates_witness :
  drain 5000000 (λ j, bool_decide (j < 7)%nat) (drain_fuel 5000000) 0 0 = Some (Ok ()).
Proof.
  rewrite drain_terminates by lia. rewrite decide_True; [reflexivity|].
  apply Exists_exists. exists 7%nat. split; [|reflexivity].
  apply elem_of_seq. split; [lia|]. vm_compute. lia.
Defined.

(** ** Connections *)

Lemma traced_no_ub name i s : snd (traced name i s) ≠ UB.
Proof. unfold traced. simpl. by case_decide. Qed.

Lemma traceStorage_safe : storage_safe.
Proof. split; intros; intros s; first [apply traced_no_ub|done]. Qed.

Lemma traceStorage_cleanup : cleanup_total.
Proof. split; intros s e; done. Qed.

(** A new connection to the system in state [w]. *)
Definition ex_conn (w : World) : Connection := mkConnection AUTO None w.

Lemma ex_conn_ok w : timeout_ok (tm w) → conn_ok (ex_conn w).
Proof. intros Hw. split; [done|]. intros i Hi. done. Qed.

Lemma ex_two_timeout : timeout_ok (tm ex_two).
Proof. vm_compute. split; congruence. Qed.

(** An auto-commit read whose body throws: the transaction is rolled back. *)
Lemma runFuncInTransaction_safe_witness :
  conn_ok (fst (runFuncInTransaction ex_cfg true (st_throw RuntimeException "boom") true false
                  COMMIT_NEW_OR_AUTO (ex_conn ex_two))).
Proof.
  pose proof (runFuncInTransaction_safe ex_cfg true (st_throw RuntimeException "boom") true false
    COMMIT_NEW_OR_AUTO (ex_conn ex_two) traceStorage_safe traceStorage_cleanup) as Hs.
  assert (safe conn_ok (st_throw (A := ()) RuntimeException "boom") (λ _, conn_ok) conn_raised)
    as Hb by (apply safe_throw; intros c Hc; by apply conn_ok_raised).
  specialize (Hs Hb (ex_conn_ok _ ex_two_timeout)).
  destruct (runFuncInTransaction _ _ _ _ _ _ _) as [c' [[]|e|]]; [apply Hs|exact Hs|destruct Hs].
Defined.

Lemma transaction_statements_safe_witness :
  snd (runTransactionStatement ex_cfg true ACTION_COMMIT
    (foldl (λ c '(got, a), fst (runTransactionStatement ex_cfg got a c)) (ex_conn ex_two)
       [(true, ACTION_BEGIN_WRITE); (true, ACTION_BEGIN_READ); (false, ACTION_CHECKPOINT)])) ≠ UB.
Proof.
  apply (transaction_statements_safe ex_cfg (ex_conn ex_two)
    [(true, ACTION_BEGIN_WRITE); (true, ACTION_BEGIN_READ); (false, ACTION_CHECKPOINT)]
    traceStorage_safe traceStorage_cleanup (ex_conn_ok _ ex_two_timeout)).
Defined.

Section Stranded.
Context `{TransactionStorage}.

Lemma begin_refused cfg w :
  enableMultiWrites cfg = false → 0 < activeWriteTransactionCount (tm w) →
  beginTransaction cfg WRITE w = (w, throw TransactionManagerException one_writer_only).
Proof.
  intros Hm Hw. unfold beginTransaction, mbind, stM_bind, st_get, hasActiveWriteTransactionNoLock.
  by rewrite Hm, bool_decide_true by done.
Qed.

Lemma getNextTuples_refused cfg got w :
  enableMultiWrites cfg = false → 0 < activeWriteTransactionCount (tm w) →
  getNextTuplesInternal cfg got ACTION_BEGIN_WRITE false (mkConnection AUTO None w) =
  (mkConnection MANUAL None w, throw TransactionManagerException one_writer_only).
Proof.
  intros Hm Hw. unfold getNextTuplesInternal, beginWriteTransaction, beginTransactionInternal,
    mbind, stM_bind, st_get, st_lift, set_mode, st_modify, on_world, validateActiveTransaction.
  unfold hasActiveTransaction. rewrite bool_decide_false by (simpl; tauto).
  cbn [world activeTransaction mode]. by rewrite begin_refused.
Qed.

(** a refused BEGIN strands the connection.  [beginWriteTransaction] switches to
    manual mode before the manager refuses the second writer, and the handler's
    rollback returns early because no transaction is active: the connection is left
    in manual mode without a transaction, and the runner then executes the body of the
    next statement without opening one. *)
Theorem refused_begin_strands_connection cfg got w :
  enableMultiWrites cfg = false → 0 < activeWriteTransactionCount (tm w) →
  let c := mkConnection AUTO None w in
  let stranded := mkConnection MANUAL None w in
  runTransactionStatement cfg got ACTION_BEGIN_WRITE c =
    (stranded, throw TransactionManagerException one_writer_only) ∧
  ∀ fn ro action c' , fn stranded = (c', Ok ()) → mode c' = MANUAL →
    runFuncInTransaction cfg got fn ro false action stranded = (c', Ok ()).
Proof.
  intros Hm Hw. cbv zeta. split.
  - unfold runTransactionStatement, runFuncInTransaction, st_catch, mbind, stM_bind, st_get.
    rewrite andb_false_r. cbn [mret stM_ret].
    by rewrite (getNextTuples_refused cfg got w Hm Hw).
  - intros fn ro action c' Ef Ec. unfold runFuncInTransaction, st_catch, mbind, stM_bind, st_get.
    assert (∀ c, mode c = MANUAL → isAutoTransaction c = false) as Em
      by (intros c0 E0; unfold isAutoTransaction; by rewrite E0).
    rewrite (Em (mkConnection MANUAL None w)) by done. cbn [andb mret stM_ret].
    by rewrite Ef, (Em c') by done.
Qed.

End Stranded.

Lemma refused_begin_strands_connection_witness :
  fst (runTransactionStatement ex_cfg true ACTION_BEGIN_WRITE (ex_conn ex_two)) =
    mkConnection MANUAL None ex_two.
Proof.
  pose proof (refused_begin_strands_connection ex_cfg true ex_two eq_refl) as Hs.
  destruct Hs as [Hs _]; [vm_compute; reflexivity|]. unfold ex_conn. rewrite Hs. reflexivity.
Defined.

(** When the cleanup after a checkpoint throws, the commit that triggered it has
    already freed the transaction; the handler takes the rollback path and passes the
    freed pointer to the manager. *)
Definition crashStorage : TransactionStorage := traceStorageWith traced.

Example cleanup_failure_uses_freed_transaction :
  let cfg := mkDBConfig false false true 10 in
  let w := @mkWorld crashStorage newTransactionManager
             (mkTraceStore [] ["checkpointer.postCleanup"]) in
  snd (@runFuncInTransaction crashStorage cfg true (mret ()) false false COMMIT_NEW_OR_AUTO
         (@mkConnection crashStorage AUTO None w)) = UB.
Proof. vm_compute. reflexivity. Qed.
