(* ===== verification/TransactionConcurrency.v ===== *)
(** * The mutexes of the transaction manager

    transaction/transaction_manager.cpp as an interleaving of threads.  A thread is
    at a program counter between two synchronisation points of [beginTransaction],
    [commit], [rollback] or [checkpointNoLock]; a step is the code up to the next
    point.  The three mutexes are [pub] (mtxForSerializingPublicFunctionCalls),
    [gate] (mtxForStartingNewTransactions) and [ckpt] (mtxForCheckpoint).  The data
    are the clock [lastTimestamp], the active write transactions (the thread that
    runs each, with its snapshot), whose number is the atomic counter, and the
    timestamp the running checkpoint captured. *)

From stdpp Require Import functions gmap.
From S2P Require Import Prelude.

Inductive PC : Type :=
| Idle
| Read_pub       (** begin of a reader: holds [pub] *)
| Begin_pub      (** begin of a writer: holds [pub], about to lock [gate] *)
| Begin_both     (** begin of a writer: holds [pub] and [gate] *)
| Commit_pub     (** commit: holds [pub] *)
| Commit_ticked  (** commit: the clock has advanced, the writer is still counted *)
| Rollback_pub   (** rollback: holds [pub] *)
| Ckpt_start     (** checkpoint: holds [ckpt], about to lock [gate] *)
| Ckpt_drain     (** polls the counter of active writers *)
| Ckpt_drained   (** the poll read zero; about to lock [pub] for the clock *)
| Ckpt_pub       (** holds [pub] *)
| Ckpt_begun     (** snapshot captured, [pub] released; [beginCheckpoint] *)
| Ckpt_phase.    (** [gate] released early because the WAL was rotated *)

#[export] Instance PC_eq_dec : EqDecision PC.
Proof. solve_decision. Defined.

Record State : Type := mkState {
  pub : option nat;
  gate : option nat;
  ckpt : option nat;
  clock : Z;
  active : gmap nat Z;
  snapshot : Z;
  pcs : nat → PC;
}.

Definition initial : State :=
  {| pub := None; gate := None; ckpt := None; clock := 1; active := ∅; snapshot := 0;
     pcs := λ _, Idle |}.

(** One step of thread [t]; [multi] is [enableMultiWrites]. *)
Inductive step (multi : bool) (t : nat) (s : State) : State → Prop :=
| s_read_lock :
    pcs s t = Idle → pub s = None →
    step multi t s (mkState (Some t) (gate s) (ckpt s) (clock s) (active s) (snapshot s)
                      (<[t := Read_pub]> (pcs s)))
| s_read_done :
    pcs s t = Read_pub →
    step multi t s (mkState None (gate s) (ckpt s) (clock s) (active s) (snapshot s)
                      (<[t := Idle]> (pcs s)))
| s_begin_pub :
    pcs s t = Idle → active s !! t = None → pub s = None →
    step multi t s (mkState (Some t) (gate s) (ckpt s) (clock s) (active s) (snapshot s)
                      (<[t := Begin_pub]> (pcs s)))
| s_begin_gate :
    pcs s t = Begin_pub → gate s = None →
    step multi t s (mkState (pub s) (Some t) (ckpt s) (clock s) (active s) (snapshot s)
                      (<[t := Begin_both]> (pcs s)))
| s_begin_refused :
    pcs s t = Begin_both → multi = false → (0 < size (active s))%nat →
    step multi t s (mkState None None (ckpt s) (clock s) (active s) (snapshot s)
                      (<[t := Idle]> (pcs s)))
| s_begin_done :
    pcs s t = Begin_both → multi = true ∨ size (active s) = 0%nat →
    step multi t s (mkState None None (ckpt s) (clock s) (<[t := clock s]> (active s)) (snapshot s)
                      (<[t := Idle]> (pcs s)))
| s_commit_lock :
    pcs s t = Idle → is_Some (active s !! t) → pub s = None →
    step multi t s (mkState (Some t) (gate s) (ckpt s) (clock s) (active s) (snapshot s)
                      (<[t := Commit_pub]> (pcs s)))
| s_commit_tick :
    pcs s t = Commit_pub →
    step multi t s (mkState (pub s) (gate s) (ckpt s) (clock s + 1) (active s) (snapshot s)
                      (<[t := Commit_ticked]> (pcs s)))
| s_commit_done :
    pcs s t = Commit_ticked →
    step multi t s (mkState None (gate s) (ckpt s) (clock s) (delete t (active s)) (snapshot s)
                      (<[t := Idle]> (pcs s)))
| s_rollback_lock :
    pcs s t = Idle → is_Some (active s !! t) → pub s = None →
    step multi t s (mkState (Some t) (gate s) (ckpt s) (clock s) (active s) (snapshot s)
                      (<[t := Rollback_pub]> (pcs s)))
| s_rollback_done :
    pcs s t = Rollback_pub →
    step multi t s (mkState None (gate s) (ckpt s) (clock s) (delete t (active s)) (snapshot s)
                      (<[t := Idle]> (pcs s)))
| s_ckpt_lock :
    pcs s t = Idle → ckpt s = None →
    step multi t s (mkState (pub s) (gate s) (Some t) (clock s) (active s) (snapshot s)
                      (<[t := Ckpt_start]> (pcs s)))
| s_ckpt_gate :
    pcs s t = Ckpt_start → gate s = None →
    step multi t s (mkState (pub s) (Some t) (ckpt s) (clock s) (active s) (snapshot s)
                      (<[t := Ckpt_drain]> (pcs s)))
| s_ckpt_timeout :
    pcs s t = Ckpt_drain → (0 < size (active s))%nat →
    step multi t s (mkState (pub s) None None (clock s) (active s) (snapshot s)
                      (<[t := Idle]> (pcs s)))
| s_ckpt_drained :
    pcs s t = Ckpt_drain → size (active s) = 0%nat →
    step multi t s (mkState (pub s) (gate s) (ckpt s) (clock s) (active s) (snapshot s)
                      (<[t := Ckpt_drained]> (pcs s)))
| s_ckpt_pub :
    pcs s t = Ckpt_drained → pub s = None →
    step multi t s (mkState (Some t) (gate s) (ckpt s) (clock s) (active s) (snapshot s)
                      (<[t := Ckpt_pub]> (pcs s)))
| s_ckpt_snapshot :
    pcs s t = Ckpt_pub →
    step multi t s (mkState None (gate s) (ckpt s) (clock s) (active s) (clock s)
                      (<[t := Ckpt_begun]> (pcs s)))
| s_ckpt_rotated :
    pcs s t = Ckpt_begun →
    step multi t s (mkState (pub s) None (ckpt s) (clock s) (active s) (snapshot s)
                      (<[t := Ckpt_phase]> (pcs s)))
| s_ckpt_finish_gate :  (** WAL not rotated, or a failure: both locks are released at the end *)
    pcs s t = Ckpt_begun →
    step multi t s (mkState (pub s) None None (clock s) (active s) (snapshot s)
                      (<[t := Idle]> (pcs s)))
| s_ckpt_finish :
    pcs s t = Ckpt_phase →
    step multi t s (mkState (pub s) (gate s) None (clock s) (active s) (snapshot s)
                      (<[t := Idle]> (pcs s)))
(** Logging the begin, the commit or the rollback of the data throws: the locks are
    released, and the transaction of a failed commit or rollback stays active. *)
| s_begin_fails :
    pcs s t = Begin_both →
    step multi t s (mkState None None (ckpt s) (clock s) (active s) (snapshot s)
                      (<[t := Idle]> (pcs s)))
| s_commit_fails :
    pcs s t = Commit_ticked →
    step multi t s (mkState None (gate s) (ckpt s) (clock s) (active s) (snapshot s)
                      (<[t := Idle]> (pcs s)))
| s_rollback_fails :
    pcs s t = Rollback_pub →
    step multi t s (mkState None (gate s) (ckpt s) (clock s) (active s) (snapshot s)
                      (<[t := Idle]> (pcs s))).

Inductive reachable (multi : bool) (s0 : State) : State → Prop :=
| reach_refl : reachable multi s0 s0
| reach_step t s s' : reachable multi s0 s → step multi t s s' → reachable multi s0 s'.

(** Who holds what, by program counter. *)
Definition holds_pub (p : PC) : bool :=
  match p with
  | Read_pub | Begin_pub | Begin_both | Commit_pub | Commit_ticked | Rollback_pub
  | Ckpt_pub => true
  | _ => false
  end.
Definition holds_gate (p : PC) : bool :=
  match p with
  | Begin_both | Ckpt_drain | Ckpt_drained | Ckpt_pub | Ckpt_begun => true
  | _ => false
  end.
Definition holds_ckpt (p : PC) : bool :=
  match p with
  | Ckpt_start | Ckpt_drain | Ckpt_drained | Ckpt_pub | Ckpt_begun | Ckpt_phase => true
  | _ => false
  end.
(** Past the drain with the gate still closed. *)
Definition past_drain (p : PC) : bool :=
  match p with Ckpt_drained | Ckpt_pub | Ckpt_begun => true | _ => false end.

Record inv (s : State) : Prop := {
  i_pub t : pub s = Some t ↔ holds_pub (pcs s t) = true;
  i_gate t : gate s = Some t ↔ holds_gate (pcs s t) = true;
  i_ckpt t : ckpt s = Some t ↔ holds_ckpt (pcs s t) = true;
  i_drained t : past_drain (pcs s t) = true → active s = ∅;
  i_begun t : pcs s t = Ckpt_begun → snapshot s = clock s;
  i_phase t : pcs s t = Ckpt_phase → snapshot s ≤ clock s ∧
    ∀ u ts, active s !! u = Some ts → snapshot s ≤ ts;
  i_commit t : pcs s t = Commit_pub ∨ pcs s t = Commit_ticked ∨ pcs s t = Rollback_pub →
    is_Some (active s !! t);
}.

Lemma inv_initial : inv initial.
Proof. split; intros t; simpl; first [done|by intros [?|[?|?]]]. Qed.

(** A lock field after thread [t] moved: [t] holds it or not, the others as before. *)
Lemma lock_update (f : PC → bool) (l l' : option nat) (pc : nat → PC) t p :
  (∀ u, l = Some u ↔ f (pc u) = true) →
  (∀ u, u ≠ t → (l' = Some u ↔ l = Some u)) → (l' = Some t ↔ f p = true) →
  ∀ u, l' = Some u ↔ f (<[t := p]> pc u) = true.
Proof.
  intros Hl Hne Ht u. destruct (decide (u = t)) as [->|Hu].
  - by rewrite fn_lookup_insert.
  - rewrite fn_lookup_insert_ne by done. rewrite Hne by done. apply Hl.
Qed.

(** Who can be where: a lock excludes the other holders. *)
Lemma inv_excl s t u :
  inv s →
  (holds_pub (pcs s t) = true → holds_pub (pcs s u) = true → t = u) ∧
  (holds_gate (pcs s t) = true → holds_gate (pcs s u) = true → t = u) ∧
  (holds_ckpt (pcs s t) = true → holds_ckpt (pcs s u) = true → t = u).
Proof.
  intros Hi. split_and!; intros Ht Hu.
  - apply (i_pub s Hi) in Ht, Hu. congruence.
  - apply (i_gate s Hi) in Ht, Hu. congruence.
  - apply (i_ckpt s Hi) in Ht, Hu. congruence.
Qed.

(** Splits on whether the inspected thread is the one that moved. *)
Ltac thread_cases :=
  match goal with
  | |- context [<[?t := _]> _ ?u] =>
      destruct (decide (u = t)) as [->|?];
      [rewrite fn_lookup_insert|rewrite fn_lookup_insert_ne by done]
  end.

Section Invariant.
Context (multi : bool).

Lemma step_locks t s s' :
  inv s → step multi t s s' →
  (∀ u, pub s' = Some u ↔ holds_pub (pcs s' u) = true) ∧
  (∀ u, gate s' = Some u ↔ holds_gate (pcs s' u) = true) ∧
  (∀ u, ckpt s' = Some u ↔ holds_ckpt (pcs s' u) = true).
Proof.
  intros Hi Hs. pose proof (i_pub s Hi t) as Hp. pose proof (i_gate s Hi t) as Hg.
  pose proof (i_ckpt s Hi t) as Hc.
  destruct Hs as [E ?|E|E ? ?|E ?|E ? ?|E ?|E ? ?|E|E|E ? ?|E|E ?|E ?|E ?|E ?|E ?|E|E|E|E|E|E|E];
    rewrite E in Hp, Hg, Hc; simpl in Hp, Hg, Hc;
    (split_and!; [eapply (lock_update holds_pub _ _ _ _ _ (i_pub s Hi))
                 |eapply (lock_update holds_gate _ _ _ _ _ (i_gate s Hi))
                 |eapply (lock_update holds_ckpt _ _ _ _ _ (i_ckpt s Hi))]);
    simpl; intros; intuition congruence.
Qed.

Lemma drained_no_writer s t u :
  inv s → past_drain (pcs s t) = true → is_Some (active s !! u) → False.
Proof. intros Hi Ht [ts Hu]. rewrite (i_drained s Hi t Ht) in Hu. done. Qed.

Lemma past_drain_gate p : past_drain p = true → holds_gate p = true.
Proof. by destruct p. Qed.

Lemma inv_step t s s' : inv s → step multi t s s' → inv s'.
Proof.
  intros Hi Hs. destruct (step_locks t s s' Hi Hs) as (Hp & Hg & Hc).
  assert (∀ u, pcs s t = Commit_pub ∨ pcs s t = Commit_ticked ∨ pcs s t = Rollback_pub →
    past_drain (pcs s u) = true → False) as Hnd.
  { intros u Ht Hu. by eapply drained_no_writer, (i_commit s Hi t). }
  assert (∀ u, holds_gate (pcs s t) = true → past_drain (pcs s u) = true → u = t) as Hgate.
  { intros u Ht Hu. destruct (inv_excl s u t Hi) as (_ & He & _).
    apply He; [by apply past_drain_gate|done]. }
  assert (∀ u, holds_ckpt (pcs s t) = true → holds_ckpt (pcs s u) = true → u = t) as Hck.
  { intros u Ht Hu. destruct (inv_excl s u t Hi) as (_ & _ & He). by apply He. }
  split; [done..| | | |]; clear Hp Hg Hc.
  - intros u. pose proof (i_drained s Hi u). pose proof (i_drained s Hi t).
    destruct Hs as [E ?|E|E ? ?|E ?|E ? ?|E ?|E ? ?|E|E|E ? ?|E|E ?|E ?|E ?|E ?|E ?|E|E|E|E|E|E|E];
      simpl; thread_cases; rewrite ?E in *; simpl in *; try done; auto;
      try (intros Hu; exfalso; apply (Hnd u); by auto);
      try (intros Hu; exfalso; by apply (Hgate u) in Hu).
    intros _. by apply map_size_empty_iff.
  - intros u. pose proof (i_begun s Hi u).
    destruct Hs as [E ?|E|E ? ?|E ?|E ? ?|E ?|E ? ?|E|E|E ? ?|E|E ?|E ?|E ?|E ?|E ?|E|E|E|E|E|E|E];
      simpl; thread_cases; rewrite ?E in *; simpl in *; try done; auto;
      try (intros Hu; exfalso; apply (Hnd u); rewrite ?Hu; by auto);
      try (intros Hu; exfalso; specialize (Hck u); rewrite Hu in Hck; by auto).
  - intros u. pose proof (i_phase s Hi u) as Hph. pose proof (i_begun s Hi t) as Hbt.
    pose proof (i_drained s Hi t) as Hdt.
    destruct Hs as [E ?|E|E ? ?|E ?|E ? ?|E ?|E ? ?|E|E|E ? ?|E|E ?|E ?|E ?|E ?|E ?|E|E|E|E|E|E|E];
      simpl; thread_cases; rewrite ?E in *; simpl in *; try done; auto;
      try (intros Hu; exfalso; specialize (Hck u); rewrite Hu in Hck; by auto).
    + intros Hu. destruct (Hph Hu) as [Hle Hall]. split; [done|]. intros v ts.
      rewrite lookup_insert_Some. intros [[_ <-]|[_ ?]]; [done|by eapply Hall].
    + intros Hu. destruct (Hph Hu) as [Hle Hall]. split; [lia|done].
    + intros Hu. destruct (Hph Hu) as [Hle Hall]. split; [done|]. intros v ts.
      rewrite lookup_delete_Some. intros [_ ?]. by eapply Hall.
    + intros Hu. destruct (Hph Hu) as [Hle Hall]. split; [done|]. intros v ts.
      rewrite lookup_delete_Some. intros [_ ?]. by eapply Hall.
    + intros _. rewrite Hbt, Hdt by done. split; [done|]. intros v ts. by rewrite lookup_empty.
  - intros u. pose proof (i_commit s Hi u). pose proof (i_commit s Hi t).
    destruct Hs as [E ?|E|E ? ?|E ?|E ? ?|E ?|E ? ?|E|E|E ? ?|E|E ?|E ?|E ?|E ?|E ?|E|E|E|E|E|E|E];
      simpl; thread_cases; rewrite ?E in *; simpl in *; try done; auto;
      try (intros [?|[?|?]]; done).
    + intros Hu. destruct (decide (t = u)) as [->|]; [rewrite lookup_insert_eq; eauto|].
      rewrite lookup_insert_ne by done. auto.
    + intros Hu. rewrite lookup_delete_ne by done. auto.
    + intros Hu. rewrite lookup_delete_ne by done. auto.
Qed.

Lemma inv_reachable s : reachable multi initial s → inv s.
Proof. induction 1; [apply inv_initial|by eapply inv_step]. Qed.

End Invariant.

(** A writer that is beginning holds [pub] and waits for [gate], which a checkpoint
    that has drained the writers holds while it waits for [pub]. *)
Definition crossed (a b : nat) (s : State) : Prop :=
  pcs s a = Begin_pub ∧ pcs s b = Ckpt_drained.

Lemma crossed_step multi a b t s s' :
  inv s → crossed a b s → step multi t s s' →
  crossed a b s' ∧ clock s' = clock s ∧ active s' = active s.
Proof.
  intros Hi [Ha Hb] Hs.
  assert (pub s = Some a) as Hp by (apply (i_pub s Hi); by rewrite Ha).
  assert (gate s = Some b) as Hg by (apply (i_gate s Hi); by rewrite Hb).
  assert (holds_pub (pcs s t) = true → t = a) as Hpt.
  { intros Ht. apply (i_pub s Hi) in Ht. congruence. }
  assert (t = a → False) as Hta.
  { intros ->. rewrite Ha in *. inversion Hs; congruence. }
  assert (t = b → False) as Htb.
  { intros ->. rewrite Hb in *. inversion Hs; congruence. }
  destruct Hs as [E ?|E|E ? ?|E ?|E ? ?|E ?|E ? ?|E|E|E ? ?|E|E ?|E ?|E ?|E ?|E ?|E|E|E|E|E|E|E];
    try congruence; try (exfalso; apply Hta, Hpt; by rewrite E);
    (split; [|done]); unfold crossed; simpl;
    rewrite !fn_lookup_insert_ne by (intros ->; auto); done.
Qed.

Lemma reachable_trans multi s1 s2 s3 :
  reachable multi s1 s2 → reachable multi s2 s3 → reachable multi s1 s3.
Proof. intros H12 H23. induction H23; [done|]. by eapply reach_step. Qed.

(** C37: the snapshot of a checkpoint.  When a checkpoint captures the clock, no write
    transaction is active, and none becomes active until the gate opens; after it has
    opened early (rotated WAL), every write transaction has a snapshot at or above the
    captured clock and so commits strictly later: the checkpoint's view is closed. *)
Theorem checkpoint_snapshot_closed multi s t :
  reachable multi initial s →
  (pcs s t = Ckpt_begun → active s = ∅ ∧ snapshot s = clock s) ∧
  (pcs s t = Ckpt_phase →
     (∀ u ts, active s !! u = Some ts → snapshot s ≤ ts) ∧
     ∀ u s', step multi u s s' → pcs s' u = Commit_ticked → snapshot s' < clock s').
Proof.
  intros Hr. apply inv_reachable in Hr. split; intros Ht.
  - split; [apply (i_drained s Hr t); by rewrite Ht|by apply (i_begun s Hr t)].
  - destruct (i_phase s Hr t Ht) as [Hle Hall]. split; [done|].
    intros u s' Hs Hu. destruct Hs; simpl in *;
      rewrite ?fn_lookup_insert in Hu; try discriminate Hu. lia.
Qed.

(** C14: begin and checkpoint can deadlock.  [beginTransaction] locks [pub] and then
    [gate]; [checkpointNoLock] holds [gate] when it locks [pub].  Once a beginning
    writer and a drained checkpoint have crossed, both wait forever, and since [pub]
    is never released no transaction begins, commits or rolls back any more. *)
Theorem begin_checkpoint_deadlock multi s a b :
  reachable multi initial s → crossed a b s →
  ∀ s', reachable multi s s' →
    crossed a b s' ∧ pub s' = Some a ∧ clock s' = clock s ∧ active s' = active s.
Proof.
  intros Hr Hc s' Hr'. apply inv_reachable in Hr.
  enough (inv s' ∧ crossed a b s' ∧ clock s' = clock s ∧ active s' = active s) as
    (Hi & Hc' & ? & ?).
  { split_and!; try done. apply (i_pub s' Hi). by rewrite (proj1 Hc'). }
  induction Hr' as [|t s1 s2 Hr1 (Hi & Hc1 & E1 & E2) Hs]; [done|].
  destruct (crossed_step multi a b t s1 s2 Hi Hc1 Hs) as (? & ? & ?).
  split_and!; [by eapply inv_step|done|congruence|congruence].
Qed.

(** Thread 2 drains an idle system, thread 1 begins a writer. *)
Definition ex_crossed : State :=
  mkState (Some 1%nat) (Some 2%nat) (Some 2%nat) 1 ∅ 0
    (<[1%nat := Begin_pub]> (<[2%nat := Ckpt_drained]> (<[2%nat := Ckpt_drain]>
       (<[2%nat := Ckpt_start]> (λ _, Idle))))).

Lemma ex_crossed_reachable multi : reachable multi initial ex_crossed.
Proof.
  eapply (reach_step _ _ 1%nat); [eapply (reach_step _ _ 2%nat);
    [eapply (reach_step _ _ 2%nat); [eapply (reach_step _ _ 2%nat); [apply reach_refl|]|]|]|].
  - by apply s_ckpt_lock.
  - by apply s_ckpt_gate.
  - by apply s_ckpt_drained.
  - by apply s_begin_pub.
Qed.

Lemma begin_checkpoint_deadlock_witness :
  reachable true initial ex_crossed ∧
  ∀ s', reachable true ex_crossed s' → pub s' = Some 1%nat ∧ pcs s' 1%nat = Begin_pub.
Proof.
  split; [apply ex_crossed_reachable|]. intros s' Hr.
  destruct (begin_checkpoint_deadlock true ex_crossed 1 2 (ex_crossed_reachable true)
    ltac:(split; reflexivity) s' Hr) as ((? & _) & ? & _). split; assumption.
Defined.

(** Thread 2's checkpoint of the idle system, up to the capture of the clock. *)
Definition ex_begun : State :=
  mkState None (Some 2%nat) (Some 2%nat) 1 ∅ 1
    (<[2%nat := Ckpt_begun]> (<[2%nat := Ckpt_pub]> (<[2%nat := Ckpt_drained]>
       (<[2%nat := Ckpt_drain]> (<[2%nat := Ckpt_start]> (λ _, Idle)))))).

Lemma ex_begun_reachable multi : reachable multi initial ex_begun.
Proof.
  eapply (reach_step _ _ 2%nat); [eapply (reach_step _ _ 2%nat); [eapply (reach_step _ _ 2%nat);
    [eapply (reach_step _ _ 2%nat); [eapply (reach_step _ _ 2%nat); [apply reach_refl|]|]|]|]|].
  - by apply s_ckpt_lock.
  - by apply s_ckpt_gate.
  - by apply s_ckpt_drained.
  - by apply s_ckpt_pub.
  - by apply s_ckpt_snapshot.
Qed.

Lemma checkpoint_snapshot_closed_witness : active ex_begun = ∅ ∧ snapshot ex_begun = 1.
Proof.
  apply (checkpoint_snapshot_closed true ex_begun 2 (ex_begun_reachable true)). reflexivity.
Defined.
