(* ===== verification/Interval.v ===== *)
(** * Intervals (common/types/interval_t.{h,cpp})

    An interval is a number of months, of days and of microseconds, each a signed
    machine integer.  The text parser [Interval::fromCString] is not modelled. *)

From S2P Require Import Prelude.

Definition MONTHS_PER_MILLENIUM : Z := 12000.
Definition MONTHS_PER_CENTURY : Z := 1200.
Definition MONTHS_PER_DECADE : Z := 120.
Definition MONTHS_PER_YEAR : Z := 12.
Definition MONTHS_PER_QUARTER : Z := 3.
Definition DAYS_PER_WEEK : Z := 7.
Definition DAYS_PER_MONTH : Z := 30.
Definition MSECS_PER_SEC : Z := 1000.
Definition SECS_PER_MINUTE : Z := 60.
Definition MINS_PER_HOUR : Z := 60.
Definition HOURS_PER_DAY : Z := 24.
Definition MICROS_PER_MSEC : Z := 1000.
Definition MICROS_PER_SEC : Z := MICROS_PER_MSEC * MSECS_PER_SEC.
Definition MICROS_PER_MINUTE : Z := MICROS_PER_SEC * SECS_PER_MINUTE.
Definition MICROS_PER_HOUR : Z := MICROS_PER_MINUTE * MINS_PER_HOUR.
Definition MICROS_PER_DAY : Z := MICROS_PER_HOUR * HOURS_PER_DAY.
Definition MICROS_PER_MONTH : Z := MICROS_PER_DAY * DAYS_PER_MONTH.
Definition NANOS_PER_MICRO : Z := 1000.

Inductive DatePartSpecifier : Type :=
  | YEAR | MONTH | DAY | DECADE | CENTURY | MILLENNIUM | QUARTER | MICROSECOND
  | MILLISECOND | SECOND | MINUTE | HOUR | WEEK.

#[export] Instance DatePartSpecifier_eq_dec : EqDecision DatePartSpecifier.
Proof. solve_decision. Defined.

Record interval_t : Type := mkInterval { months : Z; idays : Z; imicros : Z }.

#[export] Instance interval_eq_dec : EqDecision interval_t.
Proof. solve_decision. Defined.

(** The fields are an [int32_t], an [int32_t] and an [int64_t]. *)
Definition interval_wf (i : interval_t) : Prop :=
  in_s 32 (months i) ∧ in_s 32 (idays i) ∧ in_s 64 (imicros i).

(** ** Comparison *)

(** [normalizeIntervalEntries]: the input is a copy; the parameter's fields are
    assigned in place, the quotients are [int64_t]. *)
Definition normalizeIntervalEntries (input : interval_t) : Z * Z * Z :=
  let extra_months_d := Z.quot (idays input) DAYS_PER_MONTH in
  let extra_months_micros := Z.quot (imicros input) MICROS_PER_MONTH in
  let d := idays input - extra_months_d * DAYS_PER_MONTH in
  let us := imicros input - extra_months_micros * MICROS_PER_MONTH in
  let extra_days_micros := Z.quot us MICROS_PER_DAY in
  let us := us - extra_days_micros * MICROS_PER_DAY in
  (months input + extra_months_d + extra_months_micros, d + extra_days_micros, us).

Definition greaterThan (left right : interval_t) : bool :=
  let '(lMonths, lDays, lMicros) := normalizeIntervalEntries left in
  let '(rMonths, rDays, rMicros) := normalizeIntervalEntries right in
  if rMonths <? lMonths then true
  else if lMonths <? rMonths then false
  else if rDays <? lDays then true
  else if lDays <? rDays then false
  else rMicros <? lMicros.

Definition interval_eq (a b : interval_t) : bool :=
  (idays a =? idays b) && (months a =? months b) && (imicros a =? imicros b).
Definition interval_ne (a b : interval_t) : bool := negb (interval_eq a b).
Definition interval_gt (a b : interval_t) : bool := greaterThan a b.
Definition interval_le (a b : interval_t) : bool := negb (interval_gt a b).
Definition interval_ge (a b : interval_t) : bool := interval_gt a b || interval_eq a b.
Definition interval_lt (a b : interval_t) : bool := negb (interval_ge a b).

(** ** Arithmetic *)

Definition interval_add (a b : interval_t) : result interval_t :=
  m ← signed 32 (months a + months b);
  d ← signed 32 (idays a + idays b);
  us ← signed 64 (imicros a + imicros b);
  Ok (mkInterval m d us).

Definition interval_sub (a b : interval_t) : result interval_t :=
  m ← signed 32 (months a - months b);
  d ← signed 32 (idays a - idays b);
  us ← signed 64 (imicros a - imicros b);
  Ok (mkInterval m d us).

(** The negation the subtractions of the other types start with. *)
Definition interval_neg (a : interval_t) : result interval_t :=
  m ← signed 32 (- months a);
  d ← signed 32 (- idays a);
  us ← signed 64 (- imicros a);
  Ok (mkInterval m d us).

(** [operator/]: the divisor is a [uint64_t], so every dividend is converted to
    unsigned before the division, and the results back. *)
Definition interval_div (a : interval_t) (rhs : Z) : result interval_t :=
  if rhs =? 0 then UB
  else
    let monthsRemainder := swrap 32 (wrap 64 (months a) mod rhs) in
    let d := idays a + monthsRemainder * DAYS_PER_MONTH in
    let daysRemainder := swrap 32 (wrap 64 d mod rhs) in
    extra ← signed 64 (daysRemainder * MICROS_PER_DAY);
    us ← signed 64 (imicros a + extra);
    Ok (mkInterval (swrap 32 (wrap 64 (months a) / rhs))
                   (swrap 32 (wrap 64 d / rhs))
                   (swrap 64 (wrap 64 us / rhs))).

Definition getMicro (i : interval_t) : result Z :=
  m ← signed 64 (months i * MICROS_PER_MONTH);
  a ← signed 64 (imicros i + m);
  d ← signed 64 (idays i * MICROS_PER_DAY);
  signed 64 (a + d).

Definition getNanoseconds (i : interval_t) : result Z :=
  us ← getMicro i;
  signed 64 (us * NANOS_PER_MICRO).

Definition unreachable {A} : result A := throw InternalException "UNREACHABLE_CODE".

(** [getIntervalPart]: the result is an [int32_t]. *)
Definition microsecondPart (i : interval_t) : Z :=
  swrap 32 (Z.rem (imicros i) MICROS_PER_MINUTE).

Definition getIntervalPart (specifier : DatePartSpecifier) (i : interval_t) : result Z :=
  match specifier with
  | YEAR => Ok (Z.quot (months i) MONTHS_PER_YEAR)
  | MONTH => Ok (Z.rem (months i) MONTHS_PER_YEAR)
  | DAY => Ok (idays i)
  | DECADE => Ok (Z.quot (months i) MONTHS_PER_DECADE)
  | CENTURY => Ok (Z.quot (months i) MONTHS_PER_CENTURY)
  | MILLENNIUM => Ok (Z.quot (months i) MONTHS_PER_MILLENIUM)
  | QUARTER => Ok (Z.quot (Z.rem (months i) MONTHS_PER_YEAR) MONTHS_PER_QUARTER + 1)
  | MICROSECOND => Ok (microsecondPart i)
  | MILLISECOND => Ok (swrap 32 (Z.quot (microsecondPart i) MICROS_PER_MSEC))
  | SECOND => Ok (swrap 32 (Z.quot (microsecondPart i) MICROS_PER_SEC))
  | MINUTE => Ok (swrap 32 (Z.quot (Z.rem (imicros i) MICROS_PER_HOUR) MICROS_PER_MINUTE))
  | HOUR => Ok (swrap 32 (Z.quot (imicros i) MICROS_PER_HOUR))
  | WEEK => unreachable
  end.

(** ** Names of units; [toLower] (utf8proc) may throw on invalid UTF-8. *)
Section Names.
Context (toLower : string → result string).

Definition one_of (s : string) (names : list string) : bool := existsb (String.eqb s) names.

Definition unrecognized {A} (s : string) : result A :=
  throw ConversionException ("Unrecognized interval specifier string: " +:+ s +:+ ".").

Definition tryGetDatePartSpecifier (specifier : string) : result DatePartSpecifier :=
  specifier ← toLower specifier;
  if one_of specifier ["year"; "yr"; "y"; "years"; "yrs"] then Ok YEAR
  else if one_of specifier ["month"; "mon"; "months"; "mons"] then Ok MONTH
  else if one_of specifier ["day"; "days"; "d"; "dayofmonth"] then Ok DAY
  else if one_of specifier ["decade"; "dec"; "decades"; "decs"] then Ok DECADE
  else if one_of specifier ["century"; "cent"; "centuries"; "c"] then Ok CENTURY
  else if one_of specifier ["millennium"; "mil"; "millenniums"; "millennia"; "mils"; "millenium";
                            "milleniums"] then Ok MILLENNIUM
  else if one_of specifier ["microseconds"; "microsecond"; "us"; "usec"; "usecs"; "usecond";
                            "useconds"] then Ok MICROSECOND
  else if one_of specifier ["milliseconds"; "millisecond"; "ms"; "msec"; "msecs"; "msecond";
                            "mseconds"] then Ok MILLISECOND
  else if one_of specifier ["second"; "sec"; "seconds"; "secs"; "s"] then Ok SECOND
  else if one_of specifier ["minute"; "min"; "minutes"; "mins"; "m"] then Ok MINUTE
  else if one_of specifier ["hour"; "hr"; "hours"; "hrs"; "h"] then Ok HOUR
  else if one_of specifier ["week"; "weeks"; "w"; "weekofyear"] then Ok WEEK
  else if one_of specifier ["quarter"; "quarters"] then Ok QUARTER
  else unrecognized specifier.

(** [Interval::addition]: [number] is a [uint64_t], so the sums are unsigned and
    converted back to the width of the field. *)
Definition addition (i : interval_t) (number : Z) (specifierStr : string) : result interval_t :=
  s ← toLower specifierStr;
  let addMonths k := Ok (mkInterval (swrap 32 (months i + wrap 64 (number * k))) (idays i) (imicros i)) in
  let addDays := Ok (mkInterval (months i) (swrap 32 (idays i + number)) (imicros i)) in
  let addMicros k :=
    Ok (mkInterval (months i) (idays i) (swrap 64 (imicros i + wrap 64 (number * k)))) in
  if one_of s ["year"; "years"; "y"] then addMonths MONTHS_PER_YEAR
  else if one_of s ["month"; "months"; "mon"] then addMonths 1
  else if one_of s ["day"; "days"; "d"] then addDays
  else if one_of s ["hour"; "hours"; "h"] then addMicros MICROS_PER_HOUR
  else if one_of s ["minute"; "minutes"; "m"] then addMicros MICROS_PER_MINUTE
  else if one_of s ["second"; "seconds"; "s"] then addMicros MICROS_PER_SEC
  else if one_of s ["millisecond"; "milliseconds"; "ms"; "msec"] then addMicros MICROS_PER_MSEC
  else if one_of s ["microsecond"; "microseconds"; "us"] then addMicros 1
  else unrecognized s.

End Names.

(** * Properties of intervals

    [>] is a strict weak order that compares the total length on normalized intervals;
    [<] and [<=] are defined from it without regard to intervals that are different
    but of the same length.  Division of non-negative intervals divides the length. *)

(** The length in microseconds, months counted as 30 days. *)
Definition total (i : interval_t) : Z :=
  (months i * 30 + idays i) * 86400000000 + imicros i.

(** Days below a month and microseconds below a day. *)
Definition normalized (i : interval_t) : Prop :=
  0 ≤ idays i < 30 ∧ 0 ≤ imicros i < 86400000000.

Lemma normalize_normalized i :
  normalized i → normalizeIntervalEntries i = (months i, idays i, imicros i).
Proof.
  intros [Hd Hu]. unfold normalizeIntervalEntries.
  change DAYS_PER_MONTH with 30. change MICROS_PER_MONTH with 2592000000000.
  change MICROS_PER_DAY with 86400000000.
  rewrite (Z.quot_small (idays i)), (Z.quot_small (imicros i) 2592000000000) by lia.
  rewrite Z.mul_0_l, Z.sub_0_r. rewrite Z.quot_small by lia. f_equal; [f_equal|]; lia.
Qed.

(** Normalizing moves whole months and days up and keeps the length. *)
Lemma normalize_total i m d us :
  normalizeIntervalEntries i = (m, d, us) →
  (m * 30 + d) * 86400000000 + us = total i ∧ Z.abs us < 86400000000 ∧ Z.abs d < 60.
Proof.
  unfold normalizeIntervalEntries, total.
  change DAYS_PER_MONTH with 30. change MICROS_PER_MONTH with 2592000000000.
  change MICROS_PER_DAY with 86400000000. intros [= <- <- <-].
  pose proof (Z.quot_rem' (idays i) 30). pose proof (Z.rem_bound_abs (idays i) 30 ltac:(done)).
  pose proof (Z.quot_rem' (imicros i) 2592000000000).
  pose proof (Z.rem_bound_abs (imicros i) 2592000000000 ltac:(done)).
  remember (imicros i - Z.quot (imicros i) 2592000000000 * 2592000000000) as r eqn:Er.
  pose proof (Z.quot_rem' r 86400000000). pose proof (Z.rem_bound_abs r 86400000000 ltac:(done)).
  lia.
Qed.

Lemma greaterThan_spec a b :
  greaterThan a b = true ↔
  let '(m, d, us) := normalizeIntervalEntries a in
  let '(m', d', us') := normalizeIntervalEntries b in
  m' < m ∨ (m = m' ∧ (d' < d ∨ (d = d' ∧ us' < us))).
Proof.
  unfold greaterThan. destruct (normalizeIntervalEntries a) as [[m d] us].
  destruct (normalizeIntervalEntries b) as [[m' d'] us'].
  destruct (Z.ltb_spec m' m), (Z.ltb_spec m m'), (Z.ltb_spec d' d), (Z.ltb_spec d d'),
    (Z.ltb_spec us' us); split; intros; try done; lia.
Qed.

Lemma greaterThan_total a b :
  normalized a → normalized b → greaterThan a b = true ↔ total b < total a.
Proof.
  intros Ha Hb. rewrite greaterThan_spec, !normalize_normalized by done.
  unfold normalized, total in *. lia.
Qed.

Lemma total_inj a b : normalized a → normalized b → total a = total b → a = b.
Proof.
  destruct a as [m d us], b as [m' d' us']. unfold normalized, total. simpl. intros.
  f_equal; lia.
Qed.

Lemma interval_eq_spec a b : interval_eq a b = true ↔ a = b.
Proof.
  destruct a, b. unfold interval_eq. simpl. rewrite !andb_true_iff, !Z.eqb_eq.
  split; [intros [[-> ->] ->]; done|by intros [= -> -> ->]].
Qed.

(** [>] on intervals is a strict weak order, [<=] its complement, and [==] equality
    of the fields; [a < b] holds exactly when the intervals differ and [a > b] does
    not; so on normalized intervals the six comparisons are those of the lengths. *)
Theorem interval_order a b c :
  interval_gt a a = false ∧
  (interval_gt a b = true → interval_gt b c = true → interval_gt a c = true) ∧
  (interval_gt a c = true → interval_gt a b = true ∨ interval_gt b c = true) ∧
  (interval_lt a b = true ↔ a ≠ b ∧ interval_gt a b = false) ∧
  (normalized a → normalized b →
   (interval_gt a b = true ↔ total b < total a) ∧ (interval_ge a b = true ↔ total b ≤ total a) ∧
   (interval_lt a b = true ↔ total a < total b) ∧ (interval_le a b = true ↔ total a ≤ total b) ∧
   (interval_eq a b = true ↔ total a = total b) ∧ (interval_ne a b = true ↔ total a ≠ total b)).
Proof.
  assert (interval_lt a b = true ↔ a ≠ b ∧ interval_gt a b = false) as Hlt.
  { unfold interval_lt, interval_ge. rewrite negb_true_iff, orb_false_iff, <- not_true_iff_false.
    rewrite <- (not_true_iff_false (interval_eq a b)), interval_eq_spec. tauto. }
  split_and!.
  - apply not_true_iff_false. unfold interval_gt. rewrite greaterThan_spec.
    destruct (normalizeIntervalEntries a) as [[??]?]. lia.
  - unfold interval_gt. rewrite !greaterThan_spec.
    destruct (normalizeIntervalEntries a) as [[??]?], (normalizeIntervalEntries b) as [[??]?],
      (normalizeIntervalEntries c) as [[??]?]. lia.
  - unfold interval_gt. rewrite !greaterThan_spec.
    destruct (normalizeIntervalEntries a) as [[??]?], (normalizeIntervalEntries b) as [[??]?],
      (normalizeIntervalEntries c) as [[??]?]. lia.
  - done.
  - intros Ha Hb. pose proof (greaterThan_total a b Ha Hb) as Hgt.
    pose proof (total_inj a b Ha Hb) as Hinj.
    assert (interval_eq a b = true ↔ total a = total b) as Heq.
    { rewrite interval_eq_spec. split; [by intros ->|done]. }
    assert (a = b ↔ total a = total b) as Hab by (split; [by intros ->|done]).
    rewrite Hlt. unfold interval_ge, interval_le, interval_ne, interval_gt.
    rewrite orb_true_iff, !negb_true_iff, <- !not_true_iff_false, Hgt, Heq, Hab.
    split_and!; lia.
Qed.

(** 30 days and one month are each [<] the other: sorting by [<] is not an order. *)
Lemma interval_lt_not_asymmetric :
  interval_lt (mkInterval 0 30 0) (mkInterval 1 0 0) = true ∧
  interval_lt (mkInterval 1 0 0) (mkInterval 0 30 0) = true.
Proof. by vm_compute. Qed.

(** The days found in the microseconds are not carried into the months: 29 days and
    48 hours compare below one month, 31 days above. *)
Lemma interval_order_misses_carry :
  interval_gt (mkInterval 1 0 0) (mkInterval 0 29 (2 * MICROS_PER_DAY)) = true ∧
  interval_gt (mkInterval 0 31 0) (mkInterval 1 0 0) = true ∧
  total (mkInterval 0 29 (2 * MICROS_PER_DAY)) = total (mkInterval 0 31 0).
Proof. by vm_compute. Qed.

Lemma interval_order_witness :
  interval_lt (mkInterval 1 0 5) (mkInterval 1 2 0) = true ∧
  interval_ge (mkInterval 1 0 5) (mkInterval 1 0 5) = true.
Proof.
  split.
  - destruct (interval_order (mkInterval 1 0 5) (mkInterval 1 2 0) (mkInterval 0 0 0))
      as (_&_&_&_&H). apply H; unfold normalized, total; simpl; lia.
  - destruct (interval_order (mkInterval 1 0 5) (mkInterval 1 0 5) (mkInterval 0 0 0))
      as (_&_&_&_&H). apply H; unfold normalized, total; simpl; lia.
Defined.

(** ** Division *)

(** dividing an interval with no negative field divides its length, rounding down,
    with the remainders carried from months to days and from days to microseconds. *)
Theorem interval_div_total i rhs :
  0 ≤ months i < 2 ^ 31 → 0 ≤ idays i → 0 ≤ imicros i → 0 < rhs →
  idays i + 30 * months i < 2 ^ 31 →
  imicros i + Z.min rhs (idays i + 30 * months i) * 86400000000 < 2 ^ 63 →
  ∃ q, interval_div i rhs = Ok q ∧ total q = total i / rhs ∧
       0 ≤ months q ∧ 0 ≤ idays q ∧ 0 ≤ imicros q.
Proof.
  intros Hm Hd Hu Hr Hmd Hud. unfold interval_div.
  destruct (Z.eqb_spec rhs 0); [lia|]. change DAYS_PER_MONTH with 30.
  change MICROS_PER_DAY with 86400000000.
  change (2 ^ 31) with 2147483648 in *. change (2 ^ 63) with 9223372036854775808 in *.
  assert (Z.min rhs (idays i + 30 * months i) = rhs ∧ rhs ≤ idays i + 30 * months i ∨
    Z.min rhs (idays i + 30 * months i) = idays i + 30 * months i ∧
    idays i + 30 * months i ≤ rhs) as Hmin by (clear; lia).
  remember (Z.min rhs (idays i + 30 * months i)) as lim eqn:Elim. clear Elim.
  assert (∀ z, 0 ≤ z < 2147483648 → swrap 32 z = z) as W32.
  { intros z Hz. apply swrap_id; [done|]. unfold in_s. lia. }
  assert (∀ z, 0 ≤ z < 9223372036854775808 → wrap 64 z = z) as W64.
  { intros z Hz. apply wrap_id. unfold in_u. lia. }
  assert (∀ z, 0 ≤ z < 9223372036854775808 → signed 64 z = Ok z) as S64.
  { intros z Hz. apply signed_ok. unfold in_s. lia. }
  assert (∀ z, 0 ≤ z → 0 ≤ z / rhs ≤ z ∧ 0 ≤ z mod rhs ≤ z ∧ z = rhs * (z / rhs) + z mod rhs ∧
    z mod rhs < rhs) as Hdiv.
  { intros z Hz. pose proof (Z.mod_pos_bound z rhs ltac:(lia)).
    pose proof (Z.mod_le z rhs ltac:(lia) ltac:(lia)).
    pose proof (Z.div_pos z rhs ltac:(lia) ltac:(lia)). pose proof (Z.div_mod z rhs ltac:(lia)).
    pose proof (Z.div_le_upper_bound z rhs z ltac:(lia)). nia. }
  cbv zeta. rewrite !W64 by lia.
  pose proof (Hdiv (months i) ltac:(lia)) as (Q1 & R1 & E1 & L1).
  set (rm := months i mod rhs) in *. rewrite (W32 rm) by lia.
  set (d := idays i + rm * 30) in *.
  pose proof (Hdiv d ltac:(lia)) as (Q2 & R2 & E2 & L2).
  rewrite !(W64 d) by lia. set (rd := d mod rhs) in *. rewrite (W32 rd) by lia.
  rewrite S64 by lia. cbn [mbind result_bind]. rewrite S64 by lia. cbn [mbind result_bind].
  rewrite W64 by lia. set (us := imicros i + rd * 86400000000) in *.
  pose proof (Hdiv us ltac:(lia)) as (Q3 & R3 & E3 & L3).
  eexists. split; [reflexivity|]. unfold total. cbn [months idays imicros].
  rewrite !W32 by lia.
  rewrite swrap_id by (done || unfold in_s; lia).
  split; [|lia]. apply Z.div_unique_pos with (us mod rhs); [lia|].
  subst d us. nia.
Qed.

(** One month and one second over two is 15 days and half a second. *)
Lemma interval_div_total_witness :
  ∃ q, interval_div (mkInterval 1 0 1000000) 2 = Ok q ∧ total q = 1296000500000.
Proof.
  destruct (interval_div_total (mkInterval 1 0 1000000) 2) as (q & E & T & _);
    [cbn [months idays imicros]; lia..|].
  exists q. split; [exact E|]. rewrite T. reflexivity.
Defined.

(** A negative month is converted to an unsigned number before it is divided: the
    half of minus two months is not minus one month. *)
Lemma interval_div_negative :
  interval_div (mkInterval (-2) 0 0) 2 = Ok (mkInterval (-1) 0 0) ∧
  interval_div (mkInterval (-1) 0 0) 2 = Ok (mkInterval (-1) 15 0) ∧
  interval_div (mkInterval (-3) 0 0) 3 = Ok (mkInterval 1431655764 10 0).
Proof. by vm_compute. Qed.
