(* ===== verification/Date.v ===== *)
(** * Dates (common/types/date_t.{h,cpp})

    A [date_t] is a number of days since 1970-01-01 ([int32_t]).  The loops that
    shift a year by whole 400-year periods take fuel; [DateFacts.v] shows that the fuel
    chosen is enough for every [int32_t].  Sums that stay in range for every
    [int32_t] input are plain; the others use [signed].  Text is a list of
    characters, an index of it a natural number. *)

From Stdlib Require Import Ascii String.
From stdpp Require Import pretty.
From S2P Require Import Prelude.
From S2P Require Import Interval.

(** * Calendar tables (common/types/date_t.cpp)

    The constant arrays of class [Date], copied from the source. *)

Definition NORMAL_DAYS : list Z :=
  [0; 31; 28; 31; 30; 31; 30; 31; 31; 30; 31; 30; 31].

Definition LEAP_DAYS : list Z :=
  [0; 31; 29; 31; 30; 31; 30; 31; 31; 30; 31; 30; 31].

Definition CUMULATIVE_LEAP_DAYS : list Z :=
  [0; 31; 60; 91; 121; 152; 182; 213; 244; 274; 305; 335; 366].

Definition CUMULATIVE_DAYS : list Z :=
  [0; 31; 59; 90; 120; 151; 181; 212; 243; 273; 304; 334; 365].

Definition MONTH_PER_DAY_OF_YEAR : list Z :=
  [1; 1; 1; 1; 1; 1; 1; 1; 1; 1; 1; 1; 1; 1; 1; 1; 1; 1; 1; 1; 1; 1; 1; 1; 1; 1; 1; 1; 1; 1; 1;
   2; 2; 2; 2; 2; 2; 2; 2; 2; 2; 2; 2; 2; 2; 2; 2; 2; 2; 2; 2; 2; 2; 2; 2; 2; 2; 2; 2; 3; 3; 3;
   3; 3; 3; 3; 3; 3; 3; 3; 3; 3; 3; 3; 3; 3; 3; 3; 3; 3; 3; 3; 3; 3; 3; 3; 3; 3; 3; 3; 4; 4; 4;
   4; 4; 4; 4; 4; 4; 4; 4; 4; 4; 4; 4; 4; 4; 4; 4; 4; 4; 4; 4; 4; 4; 4; 4; 4; 4; 4; 5; 5; 5; 5;
   5; 5; 5; 5; 5; 5; 5; 5; 5; 5; 5; 5; 5; 5; 5; 5; 5; 5; 5; 5; 5; 5; 5; 5; 5; 5; 5; 6; 6; 6; 6;
   6; 6; 6; 6; 6; 6; 6; 6; 6; 6; 6; 6; 6; 6; 6; 6; 6; 6; 6; 6; 6; 6; 6; 6; 6; 6; 7; 7; 7; 7; 7;
   7; 7; 7; 7; 7; 7; 7; 7; 7; 7; 7; 7; 7; 7; 7; 7; 7; 7; 7; 7; 7; 7; 7; 7; 7; 7; 8; 8; 8; 8; 8;
   8; 8; 8; 8; 8; 8; 8; 8; 8; 8; 8; 8; 8; 8; 8; 8; 8; 8; 8; 8; 8; 8; 8; 8; 8; 8; 9; 9; 9; 9; 9;
   9; 9; 9; 9; 9; 9; 9; 9; 9; 9; 9; 9; 9; 9; 9; 9; 9; 9; 9; 9; 9; 9; 9; 9; 9; 10; 10; 10; 10;
   10; 10; 10; 10; 10; 10; 10; 10; 10; 10; 10; 10; 10; 10; 10; 10; 10; 10; 10; 10; 10; 10; 10;
   10; 10; 10; 10; 11; 11; 11; 11; 11; 11; 11; 11; 11; 11; 11; 11; 11; 11; 11; 11; 11; 11; 11;
   11; 11; 11; 11; 11; 11; 11; 11; 11; 11; 11; 12; 12; 12; 12; 12; 12; 12; 12; 12; 12; 12; 12;
   12; 12; 12; 12; 12; 12; 12; 12; 12; 12; 12; 12; 12; 12; 12; 12; 12; 12; 12].

Definition LEAP_MONTH_PER_DAY_OF_YEAR : list Z :=
  [1; 1; 1; 1; 1; 1; 1; 1; 1; 1; 1; 1; 1; 1; 1; 1; 1; 1; 1; 1; 1; 1; 1; 1; 1; 1; 1; 1; 1; 1; 1;
   2; 2; 2; 2; 2; 2; 2; 2; 2; 2; 2; 2; 2; 2; 2; 2; 2; 2; 2; 2; 2; 2; 2; 2; 2; 2; 2; 2; 2; 3; 3;
   3; 3; 3; 3; 3; 3; 3; 3; 3; 3; 3; 3; 3; 3; 3; 3; 3; 3; 3; 3; 3; 3; 3; 3; 3; 3; 3; 3; 3; 4; 4;
   4; 4; 4; 4; 4; 4; 4; 4; 4; 4; 4; 4; 4; 4; 4; 4; 4; 4; 4; 4; 4; 4; 4; 4; 4; 4; 4; 4; 5; 5; 5;
   5; 5; 5; 5; 5; 5; 5; 5; 5; 5; 5; 5; 5; 5; 5; 5; 5; 5; 5; 5; 5; 5; 5; 5; 5; 5; 5; 5; 6; 6; 6;
   6; 6; 6; 6; 6; 6; 6; 6; 6; 6; 6; 6; 6; 6; 6; 6; 6; 6; 6; 6; 6; 6; 6; 6; 6; 6; 6; 7; 7; 7; 7;
   7; 7; 7; 7; 7; 7; 7; 7; 7; 7; 7; 7; 7; 7; 7; 7; 7; 7; 7; 7; 7; 7; 7; 7; 7; 7; 7; 8; 8; 8; 8;
   8; 8; 8; 8; 8; 8; 8; 8; 8; 8; 8; 8; 8; 8; 8; 8; 8; 8; 8; 8; 8; 8; 8; 8; 8; 8; 8; 9; 9; 9; 9;
   9; 9; 9; 9; 9; 9; 9; 9; 9; 9; 9; 9; 9; 9; 9; 9; 9; 9; 9; 9; 9; 9; 9; 9; 9; 9; 10; 10; 10;
   10; 10; 10; 10; 10; 10; 10; 10; 10; 10; 10; 10; 10; 10; 10; 10; 10; 10; 10; 10; 10; 10; 10;
   10; 10; 10; 10; 10; 11; 11; 11; 11; 11; 11; 11; 11; 11; 11; 11; 11; 11; 11; 11; 11; 11; 11;
   11; 11; 11; 11; 11; 11; 11; 11; 11; 11; 11; 11; 12; 12; 12; 12; 12; 12; 12; 12; 12; 12; 12;
   12; 12; 12; 12; 12; 12; 12; 12; 12; 12; 12; 12; 12; 12; 12; 12; 12; 12; 12; 12].

Definition CUMULATIVE_YEAR_DAYS : list Z :=
  [0; 365; 730; 1096; 1461; 1826; 2191; 2557; 2922; 3287; 3652; 4018; 4383; 4748; 5113; 5479;
   5844; 6209; 6574; 6940; 7305; 7670; 8035; 8401; 8766; 9131; 9496; 9862; 10227; 10592; 10957;
   11323; 11688; 12053; 12418; 12784; 13149; 13514; 13879; 14245; 14610; 14975; 15340; 15706;
   16071; 16436; 16801; 17167; 17532; 17897; 18262; 18628; 18993; 19358; 19723; 20089; 20454;
   20819; 21184; 21550; 21915; 22280; 22645; 23011; 23376; 23741; 24106; 24472; 24837; 25202;
   25567; 25933; 26298; 26663; 27028; 27394; 27759; 28124; 28489; 28855; 29220; 29585; 29950;
   30316; 30681; 31046; 31411; 31777; 32142; 32507; 32872; 33238; 33603; 33968; 34333; 34699;
   35064; 35429; 35794; 36160; 36525; 36890; 37255; 37621; 37986; 38351; 38716; 39082; 39447;
   39812; 40177; 40543; 40908; 41273; 41638; 42004; 42369; 42734; 43099; 43465; 43830; 44195;
   44560; 44926; 45291; 45656; 46021; 46387; 46752; 47117; 47482; 47847; 48212; 48577; 48942;
   49308; 49673; 50038; 50403; 50769; 51134; 51499; 51864; 52230; 52595; 52960; 53325; 53691;
   54056; 54421; 54786; 55152; 55517; 55882; 56247; 56613; 56978; 57343; 57708; 58074; 58439;
   58804; 59169; 59535; 59900; 60265; 60630; 60996; 61361; 61726; 62091; 62457; 62822; 63187;
   63552; 63918; 64283; 64648; 65013; 65379; 65744; 66109; 66474; 66840; 67205; 67570; 67935;
   68301; 68666; 69031; 69396; 69762; 70127; 70492; 70857; 71223; 71588; 71953; 72318; 72684;
   73049; 73414; 73779; 74145; 74510; 74875; 75240; 75606; 75971; 76336; 76701; 77067; 77432;
   77797; 78162; 78528; 78893; 79258; 79623; 79989; 80354; 80719; 81084; 81450; 81815; 82180;
   82545; 82911; 83276; 83641; 84006; 84371; 84736; 85101; 85466; 85832; 86197; 86562; 86927;
   87293; 87658; 88023; 88388; 88754; 89119; 89484; 89849; 90215; 90580; 90945; 91310; 91676;
   92041; 92406; 92771; 93137; 93502; 93867; 94232; 94598; 94963; 95328; 95693; 96059; 96424;
   96789; 97154; 97520; 97885; 98250; 98615; 98981; 99346; 99711; 100076; 100442; 100807;
   101172; 101537; 101903; 102268; 102633; 102998; 103364; 103729; 104094; 104459; 104825;
   105190; 105555; 105920; 106286; 106651; 107016; 107381; 107747; 108112; 108477; 108842;
   109208; 109573; 109938; 110303; 110669; 111034; 111399; 111764; 112130; 112495; 112860;
   113225; 113591; 113956; 114321; 114686; 115052; 115417; 115782; 116147; 116513; 116878;
   117243; 117608; 117974; 118339; 118704; 119069; 119435; 119800; 120165; 120530; 120895;
   121260; 121625; 121990; 122356; 122721; 123086; 123451; 123817; 124182; 124547; 124912;
   125278; 125643; 126008; 126373; 126739; 127104; 127469; 127834; 128200; 128565; 128930;
   129295; 129661; 130026; 130391; 130756; 131122; 131487; 131852; 132217; 132583; 132948;
   133313; 133678; 134044; 134409; 134774; 135139; 135505; 135870; 136235; 136600; 136966;
   137331; 137696; 138061; 138427; 138792; 139157; 139522; 139888; 140253; 140618; 140983;
   141349; 141714; 142079; 142444; 142810; 143175; 143540; 143905; 144271; 144636; 145001;
   145366; 145732; 146097].

#[local] Open Scope Z_scope.

Definition MIN_YEAR : Z := -290307.
Definition MAX_YEAR : Z := 294247.
Definition EPOCH_YEAR : Z := 1970.
Definition YEAR_INTERVAL : Z := 400.
Definition DAYS_PER_YEAR_INTERVAL : Z := 146097.

Record date_t : Type := mkDate { days : Z }.

#[export] Instance date_eq_dec : EqDecision date_t.
Proof. solve_decision. Defined.

Definition date_wf (d : date_t) : Prop := in_s 32 (days d).

Definition date_eq (a b : date_t) : bool := days a =? days b.
Definition date_ne (a b : date_t) : bool := negb (days a =? days b).
Definition date_le (a b : date_t) : bool := days a <=? days b.
Definition date_lt (a b : date_t) : bool := days a <? days b.
Definition date_gt (a b : date_t) : bool := days b <? days a.
Definition date_ge (a b : date_t) : bool := days b <=? days a.

(** ** The calendar *)

Definition isLeapYear (year : Z) : bool :=
  (Z.rem year 4 =? 0) && (negb (Z.rem year 100 =? 0) || (Z.rem year 400 =? 0)).

Definition isValid (year month day : Z) : result bool :=
  if (month <? 1) || (12 <? month) then Ok false
  else if (year <? MIN_YEAR) || (MAX_YEAR <? year) then Ok false
  else if day <? 1 then Ok false
  else
    max ← tbl (if isLeapYear year then LEAP_DAYS else NORMAL_DAYS) month;
    Ok (day <=? max).

Definition monthDays (year month : Z) : result Z :=
  tbl (if isLeapYear year then LEAP_DAYS else NORMAL_DAYS) month.

(** The period loops: [while (n < 0)], [while (n >= 146097)] and, for [fromDate],
    [while (year < 1970)], [while (year >= 2370)]. *)
Fixpoint shift_up (fuel : nat) (below : Z → Z → bool) (dn dy : Z) (n year : Z) : option (Z * Z) :=
  match fuel with
  | O => None
  | S fuel => if below n year then shift_up fuel below dn dy (n + dn) (year + dy)
              else Some (n, year)
  end.

Definition period_fuel (z : Z) : nat := Z.to_nat (Z.abs z / YEAR_INTERVAL + 10).

(** [while (n < CUMULATIVE_YEAR_DAYS[year_offset]) year_offset--] *)
Fixpoint search_year (n : Z) (year_offset : nat) : result Z :=
  c ← tbl CUMULATIVE_YEAR_DAYS (Z.of_nat year_offset);
  if n <? c then
    match year_offset with
    | O => UB  (** reads before the array *)
    | S k => search_year n k
    end
  else Ok (Z.of_nat year_offset).

(** The final [n], the year and the year offset. *)
Definition extractYearOffset (n : Z) : result (Z * Z * Z) :=
  let fuel := period_fuel n in
  '(n, year) ← deref (shift_up fuel (λ n _, n <? 0)
                        DAYS_PER_YEAR_INTERVAL (- YEAR_INTERVAL) n EPOCH_YEAR);
  '(n, year) ← deref (shift_up fuel (λ n _, DAYS_PER_YEAR_INTERVAL <=? n)
                        (- DAYS_PER_YEAR_INTERVAL) YEAR_INTERVAL n year);
  year_offset ← search_year n (Z.to_nat (Z.quot n 365));
  Ok (n, year + year_offset, year_offset).

(** [DASSERT] (common/assert.h): checked in builds with runtime checks only. *)
Definition DASSERT (runtimeChecks : bool) (line : string) (condition : result bool) : result () :=
  if runtimeChecks then
    holds ← condition;
    if (holds : bool) then Ok ()
    else throw InternalException ("Assertion failed in file date_t.cpp on line " +:+ line)
  else Ok ().

(** [Date::convert]: year, month and day of a date. *)
Definition convert_build (runtimeChecks : bool) (date : date_t) : result (Z * Z * Z) :=
  '(n, out_year, year_offset) ← extractYearOffset (days date);
  c ← tbl CUMULATIVE_YEAR_DAYS year_offset;
  let out_day := n - c in
  _ ← DASSERT runtimeChecks "214" (Ok ((0 <=? out_day) && (out_day <=? 365)));
  c' ← tbl CUMULATIVE_YEAR_DAYS (year_offset + 1);
  let is_leap_year := c' - c =? 366 in
  out_month ← tbl (if is_leap_year then LEAP_MONTH_PER_DAY_OF_YEAR
                   else MONTH_PER_DAY_OF_YEAR) out_day;
  before ← tbl (if is_leap_year then CUMULATIVE_LEAP_DAYS else CUMULATIVE_DAYS)
               (out_month - 1);
  let out_day := out_day - before + 1 in
  _ ← DASSERT runtimeChecks "226"
        (max ← tbl (if is_leap_year then LEAP_DAYS else NORMAL_DAYS) out_month;
         Ok ((0 <? out_day) && (out_day <=? max)));
  _ ← DASSERT runtimeChecks "228" (Ok ((0 <? out_month) && (out_month <=? 12)));
  _ ← DASSERT runtimeChecks "229" (isValid out_year out_month out_day);
  Ok (out_year, out_month, out_day).

(** A release build. *)
Definition convert : date_t → result (Z * Z * Z) := convert_build false.

Definition fromDate (year month day : Z) : result date_t :=
  valid ← isValid year month day;
  if negb (valid : bool) then 
    throw ConversionException
      ("Date out of range: " +:+ pretty year +:+ "-" +:+ pretty month +:+ "-" +:+ pretty day +:+ ".")
  else
    let fuel := period_fuel year in
    '(n, year) ← deref (shift_up fuel (λ _ year, year <? 1970)
                          (- DAYS_PER_YEAR_INTERVAL) YEAR_INTERVAL 0 year);
    '(n, year) ← deref (shift_up fuel (λ _ year, 2370 <=? year)
                          DAYS_PER_YEAR_INTERVAL (- YEAR_INTERVAL) n year);
    c ← tbl CUMULATIVE_YEAR_DAYS (year - 1970);
    m ← tbl (if isLeapYear year then CUMULATIVE_LEAP_DAYS else CUMULATIVE_DAYS) (month - 1);
    Ok (mkDate (n + c + m + (day - 1))).

(** ** Arithmetic *)

Definition date_add_days (d : date_t) (k : Z) : result date_t :=
  s ← signed 32 (days d + k); Ok (mkDate s).
Definition date_sub_days (d : date_t) (k : Z) : result date_t :=
  s ← signed 32 (days d - k); Ok (mkDate s).
(** [date - date]: the subtraction is done in [int32_t]. *)
Definition date_diff (a b : date_t) : result Z := signed 32 (days a - days b).

(** Adding months: the day is capped at the end of the target month. *)
Definition date_add_months (d : date_t) (m : Z) : result date_t :=
  '(year, month, day) ← convert d;
  let year_diff := Z.quot m MONTHS_PER_YEAR in
  let year := year + year_diff in
  let month := month + (m - year_diff * MONTHS_PER_YEAR) in
  let '(year, month) :=
    if MONTHS_PER_YEAR <? month then (year + 1, month - MONTHS_PER_YEAR)
    else if month <=? 0 then (year - 1, month + MONTHS_PER_YEAR)
    else (year, month) in
  maxDayInMonth ← monthDays year month;
  fromDate year month (if maxDayInMonth <? day then maxDayInMonth else day).

Definition date_add (d : date_t) (i : interval_t) : result date_t :=
  result ← (if negb (months i =? 0) then date_add_months d (months i) else Ok d);
  result ← (if negb (idays i =? 0) then date_add_days result (idays i) else Ok result);
  if negb (imicros i =? 0) then
    date_add_days result (swrap 32 (Z.quot (imicros i) MICROS_PER_DAY))
  else Ok result.

Definition date_sub (d : date_t) (i : interval_t) : result date_t :=
  inverseRight ← interval_neg i; date_add d inverseRight.

(** ** Parts *)

Definition dayNames : list string :=
  ["Sunday"; "Monday"; "Tuesday"; "Wednesday"; "Thursday"; "Friday"; "Saturday"]%string.
Definition monthNames : list string :=
  ["January"; "February"; "March"; "April"; "May"; "June"; "July"; "August";
   "September"; "October"; "November"; "December"]%string.

Definition nth_name (names : list string) (i : Z) : result string :=
  if i <? 0 then UB else deref (names !! Z.to_nat i).

Definition getDayName (date : date_t) : result string :=
  i ← (if days date <? 0 then
         neg ← signed 32 (- days date); s ← signed 32 (neg + 3); Ok (7 - Z.rem s 7)
       else s ← signed 32 (days date + 3); Ok (Z.rem s 7 + 1));
  nth_name dayNames (Z.rem i 7).

Definition getMonthName (date : date_t) : result string :=
  '(_, month, _) ← convert date; nth_name monthNames (month - 1).

Definition getLastDay (date : date_t) : result date_t :=
  '(year, month, _) ← convert date;
  first ← fromDate (year + Z.quot month 12) (Z.rem month 12 + 1) 1;
  date_sub_days first 1.

Definition getDatePart (specifier : DatePartSpecifier) (date : date_t) : result Z :=
  '(year, month, day) ← convert date;
  match specifier with
  | YEAR => '(_, year, _) ← extractYearOffset (days date); Ok year
  | MONTH => Ok month
  | DAY => Ok day
  | DECADE => Ok (Z.quot year 10)
  | CENTURY => Ok (if 0 <? year then Z.quot (year - 1) 100 + 1 else Z.quot year 100 - 1)
  | MILLENNIUM => Ok (if 0 <? year then Z.quot (year - 1) 1000 + 1 else Z.quot year 1000 - 1)
  | QUARTER => Ok (Z.quot (month - 1) MONTHS_PER_QUARTER + 1)
  | _ => Ok 0
  end.

Definition date_trunc (specifier : DatePartSpecifier) (date : date_t) : result date_t :=
  match specifier with
  | YEAR => y ← getDatePart YEAR date; fromDate y 1 1
  | MONTH => y ← getDatePart YEAR date; m ← getDatePart MONTH date; fromDate y m 1
  | DAY => Ok date
  | DECADE => y ← getDatePart YEAR date; fromDate (Z.quot y 10 * 10) 1 1
  | CENTURY => y ← getDatePart YEAR date; fromDate (Z.quot y 100 * 100) 1 1
  | MILLENNIUM => y ← getDatePart YEAR date; fromDate (Z.quot y 1000 * 1000) 1 1
  | QUARTER =>
      '(year, month, _) ← convert date;
      fromDate year (1 + Z.quot (month - 1) 3 * 3) 1
  | _ => Ok date
  end.

(** [int64_t] product. *)
Definition date_getEpochNanoSeconds (date : date_t) : result Z :=
  signed 64 (days date * (MICROS_PER_DAY * NANOS_PER_MICRO)).

(** ** Text *)

(** [StringUtils::isSpace], [CharacterIsDigit] (common/string_utils.h). *)
Definition isSpace (c : ascii) : bool :=
  let k := nat_of_ascii c in ((k =? 32) || ((9 <=? k) && (k <=? 13)))%nat.
Definition CharacterIsDigit (c : ascii) : bool :=
  let k := nat_of_ascii c in ((48 <=? k) && (k <=? 57))%nat.
Definition digit_value (c : ascii) : Z := Z.of_nat (nat_of_ascii c) - 48.

(** The loop [while (pos < len && isSpace(buf[pos])) pos++], on the rest of the text. *)
Fixpoint skip_spaces (l : list ascii) : list ascii :=
  match l with
  | c :: l' => if isSpace c then skip_spaces l' else l
  | [] => []
  end.

(** [parseDoubleDigit]: one or two digits, and the text behind them. *)
Definition parseDoubleDigit (l : list ascii) : option (Z * list ascii) :=
  match l with
  | c :: l' =>
      if CharacterIsDigit c then
        match l' with
        | c' :: l'' => if CharacterIsDigit c' then Some (digit_value c' + digit_value c * 10, l'')
                       else Some (digit_value c, l')
        | [] => Some (digit_value c, l')
        end
      else None
  | [] => None
  end.

(** The year loop: stops at a non-digit, or on a digit that takes the year past
    [MAX_YEAR] (the digit is not consumed then). *)
Fixpoint parse_year (year : Z) (l : list ascii) : Z * list ascii :=
  match l with
  | c :: l' =>
      if CharacterIsDigit c then
        let year' := digit_value c + year * 10 in
        if MAX_YEAR <? year' then (year', l) else parse_year year' l'
      else (year, l)
  | [] => (year, [])
  end.

Definition isSeparator (c : ascii) : bool :=
  existsb (Ascii.eqb c) [" "; "-"; "/"; "\"]%char.

(** [tryConvertDate] on the text from [pos]; [Some (date, rest)] when the code
    returns true, [rest] being the text from the new [pos].  [len == 0] is the empty
    text; [fromDate]'s exception is caught. *)
Definition tryConvertDate (allowTrailing : bool) (buf : list ascii) :
    result (option (date_t * list ascii)) :=
  match skip_spaces buf with
  | [] => Ok None
  | (c :: _) as l =>
      if negb (CharacterIsDigit c) then Ok None
      else
        let '(year, l) := parse_year 0 l in
        match l with
        | [] => Ok None
        | sep :: l =>
            if negb (isSeparator sep) then Ok None
            else
              match parseDoubleDigit l with
              | None => Ok None
              | Some (month, l) =>
                  match l with
                  | [] | [_] => Ok None
                  | sep' :: l =>
                      if negb (Ascii.eqb sep' sep) then Ok None
                      else
                        match parseDoubleDigit l with
                        | None => Ok None
                        | Some (day, l) =>
                            let l := skip_spaces l in
                            match l, allowTrailing with
                            | _ :: _, false => Ok None
                            | _, _ =>
                                match fromDate year month day with
                                | Ok d => Ok (Some (d, l))
                                | Throw e =>
                                    if decide (exn_kind e = ConversionException)
                                    then Ok None else Throw e
                                | UB => UB
                                end
                            end
                        end
                  end
              end
        end
  end.

(** The double-quote character, which the messages put around the input. *)
Definition dquote : string := String (ascii_of_nat 34) EmptyString.

Definition date_fromCString (str : list ascii) : result date_t :=
  r ← tryConvertDate false str;
  match r with
  | Some (d, _) => Ok d
  | None => throw ConversionException
      ("Error occurred during parsing date. Given: " +:+ dquote +:+ string_of_list_ascii str +:+
       dquote +:+ ". Expected format: (YYYY-MM-DD)")
  end.
