(* ===== verification/DateFacts.v ===== *)
(** * Properties of dates

    The reference calendar (proleptic Gregorian, counted from 1970-01-01) and the
    proof that the table-driven conversions of common/types/date_t.cpp compute it. *)

From S2P Require Import Prelude.
From S2P Require Import Interval.
From S2P Require Import Date.

(** ** The reference calendar *)

(** Leap years in [(-oo, y]], up to a constant; days before 1 January of year [y]. *)
Definition leaps (y : Z) : Z := y / 4 - y / 100 + y / 400.
Definition days_before_year (y : Z) : Z := 365 * (y - 1970) + (leaps (y - 1) - leaps 1969).
Definition leap (y : Z) : bool :=
  (y mod 4 =? 0) && (negb (y mod 100 =? 0) || (y mod 400 =? 0)).

Definition month_lengths (is_leap : bool) : list Z :=
  [31; if is_leap then 29 else 28; 31; 30; 31; 30; 31; 31; 30; 31; 30; 31].
Definition month_length (y m : Z) : Z := nth (Z.to_nat (m - 1)) (month_lengths (leap y)) 0.
Definition days_before_month (y m : Z) : Z :=
  foldr Z.add 0 (take (Z.to_nat (m - 1)) (month_lengths (leap y))).

(** The day number of a calendar date, and the dates of the calendar. *)
Definition day_number (y m d : Z) : Z := days_before_year y + days_before_month y m + (d - 1).
Definition calendar_date (y m d : Z) : Prop := 1 ≤ m ≤ 12 ∧ 1 ≤ d ≤ month_length y m.

Lemma isLeapYear_leap y : isLeapYear y = leap y.
Proof.
  unfold isLeapYear, leap.
  assert (∀ k, 0 < k → (Z.rem y k =? 0) = (y mod k =? 0)) as E.
  { intros k Hk. apply eq_true_iff_eq. rewrite !Z.eqb_eq.
    rewrite Z.rem_divide, Z.mod_divide by lia. done. }
  by rewrite !E by lia.
Qed.

Lemma leap_period y : leap (y + 400) = leap y.
Proof.
  unfold leap.
  replace (y + 400) with (y + 100 * 4) at 1 by lia. rewrite Z.mod_add by lia.
  replace (y + 400) with (y + 4 * 100) at 1 by lia. rewrite Z.mod_add by lia.
  replace (y + 400) with (y + 1 * 400) at 1 by lia. rewrite Z.mod_add by lia. done.
Qed.

Lemma days_before_year_period y : days_before_year (y + 400) = days_before_year y + 146097.
Proof.
  unfold days_before_year, leaps. replace (y + 400 - 1) with (y - 1 + 400) by lia.
  replace ((y - 1 + 400) / 4) with ((y - 1) / 4 + 100)
    by (rewrite <- Z.div_add by lia; f_equal; lia).
  replace ((y - 1 + 400) / 100) with ((y - 1) / 100 + 4)
    by (rewrite <- Z.div_add by lia; f_equal; lia).
  replace ((y - 1 + 400) / 400) with ((y - 1) / 400 + 1)
    by (rewrite <- Z.div_add by lia; f_equal; lia).
  lia.
Qed.

Lemma days_before_month_period y m : days_before_month (y + 400) m = days_before_month y m.
Proof. unfold days_before_month. by rewrite leap_period. Qed.

Lemma month_length_period y m : month_length (y + 400) m = month_length y m.
Proof. unfold month_length. by rewrite leap_period. Qed.

(** A year has 365 or 366 days. *)
Lemma days_before_year_step y :
  days_before_year (y + 1) = days_before_year y + if leap y then 366 else 365.
Proof.
  unfold days_before_year, leaps. replace (y + 1 - 1) with y by lia.
  assert (∀ k, 0 < k → y / k = (y - 1) / k + if y mod k =? 0 then 1 else 0) as E.
  { intros k Hk. destruct (Z.eqb_spec (y mod k) 0) as [H0|H0].
    - apply Z.mod_divide in H0 as [q ->]; [|lia].
      rewrite Z.div_mul by lia. replace (q * k - 1) with (k - 1 + (q - 1) * k) by lia.
      rewrite Z.div_add, Z.div_small by lia. lia.
    - pose proof (Z.div_mod y k ltac:(lia)). pose proof (Z.mod_pos_bound y k Hk).
      rewrite Z.add_0_r. apply Z.div_unique with (r := y mod k - 1); lia. }
  rewrite (E 4), (E 100), (E 400) by lia. unfold leap.
  assert (y mod 400 = 0 → y mod 100 = 0) as H400.
  { intros Hm. apply Z.mod_divide in Hm as [q ->]; [|lia].
    replace (q * 400) with (q * 4 * 100) by lia. apply Z.mod_mul. lia. }
  assert (y mod 100 = 0 → y mod 4 = 0) as H100.
  { intros Hm. apply Z.mod_divide in Hm as [q ->]; [|lia].
    replace (q * 100) with (q * 25 * 4) by lia. apply Z.mod_mul. lia. }
  destruct (Z.eqb_spec (y mod 4) 0), (Z.eqb_spec (y mod 100) 0), (Z.eqb_spec (y mod 400) 0);
    simpl; lia.
Qed.

Lemma days_before_year_mono y y' : y ≤ y' → days_before_year y + 365 * (y' - y) ≤ days_before_year y'.
Proof.
  intros Hle. replace y' with (y + (y' - y)) by lia.
  assert (0 ≤ y' - y) as Hk by lia. revert Hk. generalize (y' - y). clear Hle y'.
  apply (natlike_ind (λ k, days_before_year y + 365 * (y + k - y) ≤ days_before_year (y + k))).
  - rewrite Z.add_0_r. lia.
  - intros k Hk IH. rewrite Z.add_succ_r, <- Z.add_1_r, days_before_year_step.
    destruct (leap (y + k)); lia.
Qed.

(** ** The tables hold the reference calendar *)

Lemma cumulative_years_table :
  forallb (λ k, nth k CUMULATIVE_YEAR_DAYS 0 =? days_before_year (1970 + Z.of_nat k)) (seq 0 401)
  = true.
Proof. vm_compute. reflexivity. Qed.

Definition month_tables_ok (is_leap : bool) (lengths cumulative by_day : list Z) : bool :=
  forallb (λ m, (nth m lengths 0 =? nth (m - 1) (month_lengths is_leap) 0) &&
                (nth (m - 1) cumulative 0 =? foldr Z.add 0 (take (m - 1) (month_lengths is_leap))) &&
                forallb (λ d, nth (Z.to_nat (nth (m - 1) cumulative 0) + d) by_day 0 =? Z.of_nat m)
                  (seq 0 (Z.to_nat (nth m lengths 0))))
    (seq 1 12).

Lemma month_tables :
  month_tables_ok false NORMAL_DAYS CUMULATIVE_DAYS MONTH_PER_DAY_OF_YEAR = true ∧
  month_tables_ok true LEAP_DAYS CUMULATIVE_LEAP_DAYS LEAP_MONTH_PER_DAY_OF_YEAR = true.
Proof. vm_compute. split; reflexivity. Qed.

Lemma tbl_years k :
  0 ≤ k ≤ 400 → tbl CUMULATIVE_YEAR_DAYS k = Ok (days_before_year (1970 + k)).
Proof.
  intros Hk. rewrite tbl_ok by (change (length CUMULATIVE_YEAR_DAYS) with 401%nat; lia).
  f_equal. pose proof cumulative_years_table as Ht. rewrite forallb_forall in Ht.
  specialize (Ht (Z.to_nat k)). rewrite Z.eqb_eq in Ht.
  rewrite Ht by (apply in_seq; lia). f_equal. lia.
Qed.

(** The per-month entries, for the calendar of year [y]. *)
Lemma month_tables_entry y (m : nat) :
  (1 ≤ m ≤ 12)%nat →
  nth m (if leap y then LEAP_DAYS else NORMAL_DAYS) 0 = month_length y (Z.of_nat m) ∧
  nth (m - 1) (if leap y then CUMULATIVE_LEAP_DAYS else CUMULATIVE_DAYS) 0
    = days_before_month y (Z.of_nat m) ∧
  (∀ d : nat, (d < Z.to_nat (month_length y (Z.of_nat m)))%nat →
    nth (Z.to_nat (days_before_month y (Z.of_nat m)) + d)
      (if leap y then LEAP_MONTH_PER_DAY_OF_YEAR else MONTH_PER_DAY_OF_YEAR) 0 = Z.of_nat m).
Proof.
  intros Hm. unfold month_length, days_before_month.
  replace (Z.to_nat (Z.of_nat m - 1)) with (m - 1)%nat by lia.
  assert (∀ b lens cum by_day, month_tables_ok b lens cum by_day = true →
    nth m lens 0 = nth (m - 1) (month_lengths b) 0 ∧
    nth (m - 1) cum 0 = foldr Z.add 0 (take (m - 1) (month_lengths b)) ∧
    (∀ d : nat, (d < Z.to_nat (nth (m - 1) (month_lengths b) 0%Z))%nat →
      nth (Z.to_nat (foldr Z.add 0 (take (m - 1) (month_lengths b))) + d) by_day 0 = Z.of_nat m)) as G.
  { intros b lens cum by_day Ht. unfold month_tables_ok in Ht. rewrite forallb_forall in Ht.
    specialize (Ht m ltac:(apply in_seq; lia)).
    apply andb_true_iff in Ht as [Ht Hd]. apply andb_true_iff in Ht as [H1 H2].
    apply Z.eqb_eq in H1, H2. split_and!; [done|done|]. intros d Hlt.
    rewrite forallb_forall in Hd. specialize (Hd d). rewrite H1, H2 in Hd.
    apply Z.eqb_eq, Hd, in_seq. lia. }
  destruct month_tables as [Hn Hl]. destruct (leap y); by apply G.
Qed.

Lemma month_length_pos y m : 1 ≤ m ≤ 12 → 28 ≤ month_length y m ≤ 31.
Proof.
  intros Hm. unfold month_length.
  assert (Z.to_nat (m - 1) < 12)%nat as Hk by lia. revert Hk.
  generalize (Z.to_nat (m - 1)). intros k Hk.
  do 12 (destruct k as [|k]; [destruct (leap y); vm_compute; split; congruence|]). lia.
Qed.

Definition year_length (y : Z) : Z := if leap y then 366 else 365.

(** Months partition the year. *)
Lemma days_before_month_step y m :
  1 ≤ m < 12 → days_before_month y (m + 1) = days_before_month y m + month_length y m.
Proof.
  intros Hm. unfold days_before_month, month_length.
  replace (Z.to_nat (m + 1 - 1)) with (S (Z.to_nat (m - 1))) by lia.
  assert (Z.to_nat (m - 1) < 11)%nat as Hk by lia. revert Hk.
  generalize (Z.to_nat (m - 1)). intros k Hk.
  do 11 (destruct k as [|k]; [destruct (leap y); reflexivity|]). lia.
Qed.

Lemma days_before_month_bounds y m :
  1 ≤ m ≤ 12 → 0 ≤ days_before_month y m ∧ days_before_month y m + month_length y m ≤ year_length y.
Proof.
  intros Hm. unfold days_before_month, month_length, year_length.
  assert (Z.to_nat (m - 1) < 12)%nat as Hk by lia. revert Hk.
  generalize (Z.to_nat (m - 1)). intros k Hk.
  do 12 (destruct k as [|k]; [destruct (leap y); vm_compute; split; congruence|]). lia.
Qed.

Lemma days_before_month_mono y m m' :
  1 ≤ m → m < m' ≤ 12 → days_before_month y m + month_length y m ≤ days_before_month y m'.
Proof.
  intros Hm Hm'. replace m' with (m + 1 + (m' - (m + 1))) by lia.
  assert (0 ≤ m' - (m + 1)) as Hk by lia. assert (m + 1 + (m' - (m + 1)) ≤ 12) as Hle by lia.
  revert Hk Hle. generalize (m' - (m + 1)).
  apply (natlike_ind (λ k, m + 1 + k ≤ 12 →
    days_before_month y m + month_length y m ≤ days_before_month y (m + 1 + k))).
  - intros _. rewrite Z.add_0_r, days_before_month_step by lia. lia.
  - intros k Hk IH Hle. rewrite Z.add_succ_r, <- Z.add_1_r.
    rewrite days_before_month_step by lia.
    pose proof (month_length_pos y (m + 1 + k) ltac:(lia)). lia.
Qed.

(** Every day of the year is a date of the year. *)
Definition day_table_ok (is_leap : bool) (by_day : list Z) (n : nat) : bool :=
  forallb (λ k, let m := nth k by_day 0 in
                let c := foldr Z.add 0 (take (Z.to_nat (m - 1)) (month_lengths is_leap)) in
                (1 <=? m) && (m <=? 12) && (c <=? Z.of_nat k) &&
                (Z.of_nat k <? c + nth (Z.to_nat (m - 1)) (month_lengths is_leap) 0)) (seq 0 n).

Lemma day_tables :
  day_table_ok false MONTH_PER_DAY_OF_YEAR 365 = true ∧
  day_table_ok true LEAP_MONTH_PER_DAY_OF_YEAR 366 = true.
Proof. vm_compute. split; reflexivity. Qed.

Lemma day_of_year_date y k :
  0 ≤ k < year_length y →
  ∃ m d, calendar_date y m d ∧ days_before_month y m + (d - 1) = k.
Proof.
  intros Hk. unfold calendar_date, days_before_month, month_length.
  assert (∀ b by_day n, day_table_ok b by_day n = true → (Z.to_nat k < n)%nat →
    ∃ m d, (1 ≤ m ≤ 12 ∧ 1 ≤ d ≤ nth (Z.to_nat (m - 1)) (month_lengths b) 0) ∧
      foldr Z.add 0 (take (Z.to_nat (m - 1)) (month_lengths b)) + (d - 1) = k) as G.
  { intros b by_day n Ht Hn. unfold day_table_ok in Ht. rewrite forallb_forall in Ht.
    specialize (Ht (Z.to_nat k) ltac:(apply in_seq; lia)). cbv zeta in Ht.
    rewrite !andb_true_iff, !Z.leb_le, Z.ltb_lt in Ht. rewrite Z2Nat.id in Ht by lia.
    set (mm := nth (Z.to_nat k) by_day 0) in *.
    set (cc := foldr Z.add 0 (take (Z.to_nat (mm - 1)) (month_lengths b))) in *.
    exists mm, (k - cc + 1). split; [|lia]. split; lia. }
  unfold year_length in Hk. destruct day_tables as [Hn Hl].
  destruct (leap y); [eapply (G true _ 366%nat)|eapply (G false _ 365%nat)]; first [eassumption|lia].
Qed.

(** ** The period loops *)

Lemma shift_up_spec (K : nat) : ∀ fuel below dn dy n y,
  (K < fuel)%nat → below (n + Z.of_nat K * dn) (y + Z.of_nat K * dy) = false →
  ∃ k : nat, (k ≤ K)%nat ∧
    shift_up fuel below dn dy n y = Some (n + Z.of_nat k * dn, y + Z.of_nat k * dy) ∧
    below (n + Z.of_nat k * dn) (y + Z.of_nat k * dy) = false ∧
    (k ≠ 0%nat → below (n + (Z.of_nat k - 1) * dn) (y + (Z.of_nat k - 1) * dy) = true).
Proof.
  induction K as [|K IH]; intros [|fuel] below dn dy n y Hf Hb; try lia; simpl.
  - exists 0%nat. rewrite Z.mul_0_l, !Z.add_0_r in *. rewrite Hb. split_and!; done || lia.
  - destruct (below n y) eqn:E.
    + destruct (IH fuel below dn dy (n + dn) (y + dy)) as (k & Hk & Es & Eb & Hp); [lia| |].
      { rewrite <- Hb. f_equal; rewrite Nat2Z.inj_succ; ring. }
      exists (S k). split; [lia|].
      replace (n + Z.of_nat (S k) * dn) with (n + dn + Z.of_nat k * dn) by (rewrite Nat2Z.inj_succ; ring).
      replace (y + Z.of_nat (S k) * dy) with (y + dy + Z.of_nat k * dy) by (rewrite Nat2Z.inj_succ; ring).
      split_and!; [done|done|]. intros _. destruct (decide (k = 0%nat)) as [->|Hk0].
      * rewrite <- E. f_equal; simpl; ring.
      * rewrite <- (Hp Hk0). f_equal; rewrite Nat2Z.inj_succ; ring.
    + exists 0%nat. rewrite Z.mul_0_l, !Z.add_0_r. split_and!; done || lia.
Qed.

Lemma search_year_spec n k :
  (k ≤ 400)%nat → 0 ≤ n < days_before_year (1970 + Z.of_nat k + 1) →
  ∃ o, search_year n k = Ok o ∧ 0 ≤ o ≤ Z.of_nat k ∧
    days_before_year (1970 + o) ≤ n < days_before_year (1970 + o + 1).
Proof.
  induction k as [|k IH]; intros Hk Hn; cbn [search_year]; rewrite tbl_years by lia;
    cbn [mbind result_bind].
  - assert (days_before_year (1970 + Z.of_nat 0) = 0) as E0 by reflexivity.
    rewrite E0. destruct (Z.ltb_spec n 0); [lia|]. exists 0. split; [done|]. split; [lia|].
    change (days_before_year (1970 + 0)) with 0. exact Hn.
  - destruct (Z.ltb_spec n (days_before_year (1970 + Z.of_nat (S k)))) as [Hlt|Hge].
    + destruct IH as (o & E & Ho & Hb); [lia| |exists o; split_and!; [done|lia|lia|lia|lia]].
      replace (1970 + Z.of_nat k + 1) with (1970 + Z.of_nat (S k)) by lia. lia.
    + exists (Z.of_nat (S k)). split; [done|]. lia.
Qed.

Lemma days_before_1970 : days_before_year 1970 = 0.
Proof. reflexivity. Qed.
Lemma days_before_2370 : days_before_year 2370 = 146097.
Proof. reflexivity. Qed.

Lemma period_fuel_enough z : (Z.to_nat (Z.abs z / 400 + 6) < period_fuel z)%nat.
Proof. unfold period_fuel, YEAR_INTERVAL. pose proof (Z.div_pos (Z.abs z) 400). lia. Qed.

(** [extractYearOffset] finds the 400-year period [q] and the year in it. *)
Lemma extractYearOffset_spec n :
  ∃ q o, extractYearOffset n = Ok (n - 146097 * q, 1970 + 400 * q + o, o) ∧ 0 ≤ o < 400 ∧
    days_before_year (1970 + o) ≤ n - 146097 * q < days_before_year (1970 + o + 1).
Proof.
  unfold extractYearOffset, DAYS_PER_YEAR_INTERVAL, YEAR_INTERVAL, EPOCH_YEAR.
  change (- (400)) with (-400). change (- (146097)) with (-146097).
  pose proof (period_fuel_enough n) as Hf.
  assert (0 ≤ Z.abs n / 400) as Hpos by (apply Z.div_pos; lia).
  assert (Z.abs n < 400 * (Z.abs n / 400 + 1)) as Hlt.
  { pose proof (Z.div_mod (Z.abs n) 400 ltac:(lia)). pose proof (Z.mod_pos_bound (Z.abs n) 400). lia. }
  set (K := Z.to_nat (Z.abs n / 400 + 6)) in *.
  destruct (shift_up_spec K (period_fuel n) (λ n _, n <? 0) 146097 (-400) n 1970)
    as (k1 & Hk1 & E1 & B1 & P1); [done|apply Z.ltb_ge; lia|].
  rewrite E1. cbn [deref mbind result_bind].
  apply Z.ltb_ge in B1.
  destruct (shift_up_spec K (period_fuel n) (λ n _, 146097 <=? n) (-146097) 400
    (n + Z.of_nat k1 * 146097) (1970 + Z.of_nat k1 * -400))
    as (k2 & Hk2 & E2 & B2 & P2); [done| |].
  { apply Z.leb_gt. destruct (decide (k1 = 0%nat)) as [->|Hk]; [lia|].
    apply P1, Z.ltb_lt in Hk. lia. }
  rewrite E2. cbn [deref mbind result_bind]. apply Z.leb_gt in B2.
  remember (Z.of_nat k2 - Z.of_nat k1) as q eqn:Hq.
  replace (n + Z.of_nat k1 * 146097 + Z.of_nat k2 * -146097) with (n - 146097 * q) in * by lia.
  assert (0 ≤ n - 146097 * q) as Hge.
  { destruct (decide (k2 = 0%nat)) as [->|Hk]; [lia|]. apply P2, Z.leb_le in Hk. lia. }
  set (n' := n - 146097 * q) in *.
  assert (0 ≤ n' / 365 ≤ 400) as Hd.
  { split; [apply Z.div_pos; lia|].
    assert (n' / 365 < 401) by (apply Z.div_lt_upper_bound; lia). lia. }
  assert (n' < 365 * (n' / 365 + 1)) as Hd'.
  { pose proof (Z.div_mod n' 365 ltac:(lia)). pose proof (Z.mod_pos_bound n' 365). lia. }
  rewrite Z.quot_div_nonneg by lia.
  destruct (search_year_spec n' (Z.to_nat (n' / 365))) as (o & Eo & Ho & Hb); [lia| |].
  { rewrite Z2Nat.id by lia. split; [lia|].
    pose proof (days_before_year_mono 1970 (1970 + n' / 365 + 1) ltac:(lia)) as Hm.
    rewrite days_before_1970 in Hm. lia. }
  rewrite Eo. cbn [mbind result_bind]. exists q, o. split; [|split; [|done]].
  - do 3 f_equal. lia.
  - split; [lia|]. destruct (decide (o = 400)) as [->|]; [|lia].
    change (1970 + 400) with 2370 in Hb. rewrite days_before_2370 in Hb. lia.
Qed.

Lemma days_before_year_shift y q :
  days_before_year (y + 400 * q) = days_before_year y + 146097 * q.
Proof.
  assert (∀ k, 0 ≤ k → ∀ y, days_before_year (y + 400 * k) = days_before_year y + 146097 * k) as G.
  { apply (natlike_ind (λ k, ∀ y, days_before_year (y + 400 * k) = days_before_year y + 146097 * k)).
    - intros y'. rewrite !Z.mul_0_r, !Z.add_0_r. done.
    - intros k Hk IH y'. replace (y' + 400 * Z.succ k) with (y' + 400 * k + 400) by lia.
      rewrite days_before_year_period, IH. lia. }
  destruct (Z.le_ge_cases 0 q) as [Hq|Hq]; [by apply G|].
  pose proof (G (- q) ltac:(lia) (y + 400 * q)) as E.
  replace (y + 400 * q + 400 * - q) with y in E by lia. lia.
Qed.

Lemma leap_shift y q : leap (y + 400 * q) = leap y.
Proof.
  assert (∀ k, 0 ≤ k → ∀ y, leap (y + 400 * k) = leap y) as G.
  { apply (natlike_ind (λ k, ∀ y, leap (y + 400 * k) = leap y)).
    - intros y'. by rewrite Z.mul_0_r, Z.add_0_r.
    - intros k Hk IH y'. replace (y' + 400 * Z.succ k) with (y' + 400 * k + 400) by lia.
      by rewrite leap_period. }
  destruct (Z.le_ge_cases 0 q) as [Hq|Hq]; [by apply G|].
  rewrite <- (G (- q) ltac:(lia)). f_equal. lia.
Qed.

Lemma days_before_month_shift y q m : days_before_month (y + 400 * q) m = days_before_month y m.
Proof. unfold days_before_month. by rewrite leap_shift. Qed.
Lemma month_length_shift y q m : month_length (y + 400 * q) m = month_length y m.
Proof. unfold month_length. by rewrite leap_shift. Qed.
