(* ===== verification/DateTheorems.v ===== *)
(** * Properties of dates: the conversions compute the reference calendar *)

From S2P Require Import Prelude.
From S2P Require Import Interval.
From S2P Require Import Date.
From S2P Require Import DateFacts.

(** ** Table reads *)

Lemma tbl_month_length y m :
  1 ≤ m ≤ 12 → tbl (if isLeapYear y then LEAP_DAYS else NORMAL_DAYS) m = Ok (month_length y m).
Proof.
  intros Hm. rewrite isLeapYear_leap. rewrite tbl_ok by (destruct (leap y); simpl; lia).
  destruct (month_tables_entry y (Z.to_nat m)) as (E & _ & _); [lia|].
  rewrite E. by rewrite Z2Nat.id by lia.
Qed.

Lemma tbl_before_month y m :
  1 ≤ m ≤ 12 →
  tbl (if leap y then CUMULATIVE_LEAP_DAYS else CUMULATIVE_DAYS) (m - 1) =
  Ok (days_before_month y m).
Proof.
  intros Hm. rewrite tbl_ok by (destruct (leap y); simpl; lia).
  destruct (month_tables_entry y (Z.to_nat m)) as (_ & E & _); [lia|].
  rewrite Z2Nat.id in E by lia. rewrite <- E. do 2 f_equal. lia.
Qed.

Lemma tbl_by_day y m d :
  calendar_date y m d →
  tbl (if leap y then LEAP_MONTH_PER_DAY_OF_YEAR else MONTH_PER_DAY_OF_YEAR)
    (days_before_month y m + (d - 1)) = Ok m.
Proof.
  intros [Hm Hd]. pose proof (days_before_month_bounds y m Hm) as [Hb0 Hb1].
  destruct (month_tables_entry y (Z.to_nat m)) as (_ & _ & E); [lia|].
  rewrite Z2Nat.id in E by lia.
  rewrite tbl_ok.
  - f_equal. etransitivity; [|apply (E (Z.to_nat (d - 1))); lia]. f_equal. lia.
  - unfold year_length in Hb1. destruct (leap y); simpl; lia.
Qed.

(** ** The two conversions *)

Definition in_years (y : Z) : Prop := MIN_YEAR ≤ y ≤ MAX_YEAR.

Lemma isValid_spec y m d :
  isValid y m d = Ok (bool_decide (calendar_date y m d ∧ in_years y)).
Proof.
  unfold isValid, in_years. destruct (Z.ltb_spec m 1), (Z.ltb_spec 12 m); simpl;
    try (rewrite bool_decide_false; [done|]; intros [[? _] _]; lia).
  destruct (Z.ltb_spec y MIN_YEAR), (Z.ltb_spec MAX_YEAR y); simpl;
    try (rewrite bool_decide_false; [done|]; intros [_ ?]; lia).
  destruct (Z.ltb_spec d 1).
  { rewrite bool_decide_false; [done|]. intros [[_ ?] _]; lia. }
  rewrite tbl_month_length by lia. cbn [mbind result_bind]. f_equal.
  apply eq_true_iff_eq. rewrite Z.leb_le, bool_decide_eq_true. unfold calendar_date.
  split; [intros ?; split_and!; lia|intros [[_ ?] _]; lia].
Qed.

(** The length the code gives a year of its table. *)
Lemma leap_year_test y : (days_before_year (y + 1) - days_before_year y =? 366) = leap y.
Proof.
  rewrite days_before_year_step. destruct (leap y); [apply Z.eqb_eq|apply Z.eqb_neq]; lia.
Qed.

Lemma DASSERT_holds checks line c : c = Ok true → DASSERT checks line c = Ok ().
Proof. intros ->. by destruct checks. Qed.

(** The conversion in both builds: with runtime checks, the last assertion holds for the
    supported years only, and the others always. *)
Lemma convert_build_spec checks n :
  ∃ y m d, calendar_date y m d ∧ day_number y m d = n ∧
    convert_build checks (mkDate n) =
    (if checks && negb (bool_decide (in_years y))
     then throw InternalException "Assertion failed in file date_t.cpp on line 229"
     else Ok (y, m, d)).
Proof.
  destruct (extractYearOffset_spec n) as (q & o & E & Ho & Hb).
  set (Y := 1970 + o) in *. unfold convert_build. cbn [days]. rewrite E. cbn [mbind result_bind].
  rewrite !tbl_years by lia. cbn [mbind result_bind]. fold Y.
  destruct (day_of_year_date Y (n - 146097 * q - days_before_year Y)) as (m & d & Hcal & Hk).
  { pose proof (days_before_year_step Y) as Hstep. fold (year_length Y) in Hstep.
    replace (1970 + o + 1) with (Y + 1) in Hb by lia. fold Y in Hb. lia. }
  pose proof Hcal as [Hm Hd]. pose proof (days_before_month_bounds Y m Hm) as [Hb0 Hb1].
  assert (calendar_date (Y + 400 * q) m d) as Hcal' by (split; [done|by rewrite month_length_shift]).
  rewrite <- Hk, (DASSERT_holds _ "214") by
    (f_equal; rewrite andb_true_iff, !Z.leb_le; unfold year_length in Hb1; destruct (leap Y); lia).
  cbn [mbind result_bind].
  replace (1970 + (o + 1)) with (Y + 1) by lia. rewrite leap_year_test, tbl_by_day by done.
  cbn [mbind result_bind]. rewrite tbl_before_month by done. cbn [mbind result_bind].
  replace (days_before_month Y m + (d - 1) - days_before_month Y m + 1) with d by lia.
  rewrite (DASSERT_holds _ "226") by (rewrite <- isLeapYear_leap, tbl_month_length by done; cbn [mbind result_bind];
    f_equal; rewrite andb_true_iff, Z.leb_le, Z.ltb_lt; lia).
  cbn [mbind result_bind]. rewrite (DASSERT_holds _ "228") by (f_equal; rewrite andb_true_iff, Z.leb_le, Z.ltb_lt; lia).
  cbn [mbind result_bind]. replace (1970 + 400 * q + o) with (Y + 400 * q) by lia.
  exists (Y + 400 * q), m, d. split; [done|]. split.
  { unfold day_number. rewrite days_before_year_shift, days_before_month_shift. lia. }
  rewrite isValid_spec. destruct checks; [|done]. cbn [DASSERT andb mbind result_bind].
  destruct (decide (in_years (Y + 400 * q))).
  - by rewrite !bool_decide_true.
  - by rewrite !bool_decide_false by tauto.
Qed.

Lemma convert_spec n :
  ∃ y m d, convert (mkDate n) = Ok (y, m, d) ∧ calendar_date y m d ∧ day_number y m d = n.
Proof. destruct (convert_build_spec false n) as (y & m & d & ? & ? & ?). by exists y, m, d. Qed.

Lemma fromDate_spec y m d :
  calendar_date y m d → in_years y → fromDate y m d = Ok (mkDate (day_number y m d)).
Proof.
  intros Hcal Hy. unfold fromDate. rewrite isValid_spec, bool_decide_true by done.
  cbn [mbind result_bind negb]. unfold DAYS_PER_YEAR_INTERVAL, YEAR_INTERVAL.
  change (- (400)) with (-400). change (- (146097)) with (-146097).
  pose proof (period_fuel_enough y) as Hf.
  assert (0 ≤ Z.abs y / 400) as Hpos by (apply Z.div_pos; lia).
  assert (Z.abs y < 400 * (Z.abs y / 400 + 1)) as Hlt.
  { pose proof (Z.div_mod (Z.abs y) 400 ltac:(lia)). pose proof (Z.mod_pos_bound (Z.abs y) 400). lia. }
  set (K := Z.to_nat (Z.abs y / 400 + 6)) in *.
  destruct (shift_up_spec K (period_fuel y) (λ _ year, year <? 1970) (-146097) 400 0 y)
    as (k1 & Hk1 & E1 & B1 & P1); [done|apply Z.ltb_ge; lia|].
  rewrite E1. cbn [deref mbind result_bind]. apply Z.ltb_ge in B1.
  destruct (shift_up_spec K (period_fuel y) (λ _ year, 2370 <=? year) 146097 (-400)
    (0 + Z.of_nat k1 * -146097) (y + Z.of_nat k1 * 400))
    as (k2 & Hk2 & E2 & B2 & P2); [done| |].
  { apply Z.leb_gt. destruct (decide (k1 = 0%nat)) as [->|Hk]; [lia|].
    apply P1, Z.ltb_lt in Hk. lia. }
  rewrite E2. cbn [deref mbind result_bind]. apply Z.leb_gt in B2.
  remember (Z.of_nat k1 - Z.of_nat k2) as q eqn:Hq.
  replace (y + Z.of_nat k1 * 400 + Z.of_nat k2 * -400) with (y + 400 * q) in * by lia.
  assert (1970 ≤ y + 400 * q) as Hge.
  { destruct (decide (k2 = 0%nat)) as [->|Hk]; [lia|]. apply P2, Z.leb_le in Hk. lia. }
  rewrite tbl_years by lia. cbn [mbind result_bind].
  rewrite isLeapYear_leap, leap_shift, tbl_before_month by apply Hcal. cbn [mbind result_bind].
  do 2 f_equal. unfold day_number.
  replace (1970 + (y + 400 * q - 1970)) with (y + 400 * q) by lia.
  rewrite days_before_year_shift. lia.
Qed.

(** ** The day number orders calendar dates lexicographically *)

Definition date_before (y m d y' m' d' : Z) : Prop :=
  y < y' ∨ y = y' ∧ (m < m' ∨ m = m' ∧ d < d').

Lemma day_number_before y m d y' m' d' :
  calendar_date y m d → calendar_date y' m' d' →
  date_before y m d y' m' d' → day_number y m d < day_number y' m' d'.
Proof.
  intros [Hm Hd] [Hm' Hd'] Hb. unfold day_number.
  pose proof (days_before_month_bounds y m Hm) as [Hb0 Hb1].
  pose proof (days_before_month_bounds y' m' Hm') as [Hb0' Hb1'].
  destruct Hb as [Hy|[-> [Hmm|[-> Hdd]]]].
  - pose proof (days_before_year_step y) as Hs. fold (year_length y) in Hs.
    pose proof (days_before_year_mono (y + 1) y' ltac:(lia)). lia.
  - pose proof (days_before_month_mono y' m m' ltac:(lia) ltac:(lia)). lia.
  - lia.
Qed.

Lemma day_number_order y m d y' m' d' :
  calendar_date y m d → calendar_date y' m' d' →
  day_number y m d < day_number y' m' d' ↔ date_before y m d y' m' d'.
Proof.
  intros Hc Hc'. split; [|by apply day_number_before]. intros Hlt.
  destruct (decide (y = y' ∧ m = m' ∧ d = d')) as [(-> & -> & ->)|Hne]; [lia|].
  unfold date_before.
  destruct (Z.lt_trichotomy y y') as [?|[->|Hy]]; [by left| |].
  2: { pose proof (day_number_before _ _ _ _ _ _ Hc' Hc (or_introl Hy)). lia. }
  destruct (Z.lt_trichotomy m m') as [?|[->|Hm]]; [auto| |].
  2: { pose proof (day_number_before _ _ _ _ _ _ Hc' Hc (or_intror (conj eq_refl (or_introl Hm)))). lia. }
  destruct (Z.lt_trichotomy d d') as [?|[->|Hd]]; [auto|naive_solver|].
  pose proof (day_number_before _ _ _ _ _ _ Hc' Hc
    (or_intror (conj eq_refl (or_intror (conj eq_refl Hd))))). lia.
Qed.

Lemma day_number_inj y m d y' m' d' :
  calendar_date y m d → calendar_date y' m' d' →
  day_number y m d = day_number y' m' d' → (y, m, d) = (y', m', d').
Proof.
  intros Hc Hc' E.
  pose proof (day_number_order _ _ _ _ _ _ Hc Hc') as H1.
  pose proof (day_number_order _ _ _ _ _ _ Hc' Hc) as H2.
  assert (¬ date_before y m d y' m' d') as N1 by (intros ?%H1; lia).
  assert (¬ date_before y' m' d' y m d) as N2 by (intros ?%H2; lia).
  unfold date_before in *. assert (y = y') as -> by lia. assert (m = m') as -> by lia.
  assert (d = d') as -> by lia. done.
Qed.

Lemma convert_day_number y m d :
  calendar_date y m d → convert (mkDate (day_number y m d)) = Ok (y, m, d).
Proof.
  intros Hc. destruct (convert_spec (day_number y m d)) as (y' & m' & d' & -> & Hc' & E).
  f_equal. by apply day_number_inj.
Qed.

(** ** Month arithmetic *)

Definition months_of (y m : Z) : Z := 12 * y + (m - 1).

Lemma date_add_months_spec y m d k :
  calendar_date y m d →
  let t := months_of y m + k in
  in_years (t / 12) →
  date_add_months (mkDate (day_number y m d)) k =
  Ok (mkDate (day_number (t / 12) (t mod 12 + 1)
                (Z.min d (month_length (t / 12) (t mod 12 + 1))))).
Proof.
  intros Hc t Hy. unfold date_add_months. rewrite convert_day_number by done.
  cbn [mbind result_bind]. unfold MONTHS_PER_YEAR.
  destruct Hc as [Hm Hd].
  pose proof (Z.quot_rem k 12 ltac:(lia)) as Hqr.
  assert (-11 ≤ Z.rem k 12 ≤ 11) as Hr.
  { pose proof (Z.rem_bound_abs k 12 ltac:(lia)). lia. }
  set (qd := Z.quot k 12) in *. set (r := Z.rem k 12) in *.
  replace (m + (k - qd * 12)) with (m + r) by lia.
  assert (∃ y2 m2, (if 12 <? m + r then (y + qd + 1, m + r - 12)
            else if m + r <=? 0 then (y + qd - 1, m + r + 12) else (y + qd, m + r)) = (y2, m2) ∧
            y2 = t / 12 ∧ m2 = t mod 12 + 1) as (y2 & m2 & -> & -> & ->).
  { assert (∀ y2 m2, 1 ≤ m2 ≤ 12 → t = 12 * y2 + (m2 - 1) → y2 = t / 12 ∧ m2 = t mod 12 + 1) as G.
    { intros y2 m2 H2 Ht. assert (y2 = t / 12) as E by (apply Z.div_unique with (m2 - 1); lia).
      split; [done|]. pose proof (Z.div_mod t 12 ltac:(lia)). lia. }
    unfold months_of in t. subst t.
    destruct (Z.ltb_spec 12 (m + r)), (Z.leb_spec (m + r) 0); try lia;
      (eexists _, _; split; [reflexivity|]; apply G; lia). }
  pose proof (Z.mod_pos_bound t 12 ltac:(lia)) as Hmod.
  unfold monthDays. rewrite tbl_month_length by lia. cbn [mbind result_bind].
  pose proof (month_length_pos (t / 12) (t mod 12 + 1) ltac:(lia)) as Hlen.
  set (len := month_length (t / 12) (t mod 12 + 1)) in *.
  assert ((if len <? d then len else d) = Z.min d len) as -> by (destruct (Z.ltb_spec len d); lia).
  apply fromDate_spec; [|done]. split; [lia|]. fold len. lia.
Qed.

(** ** Days of the week *)

(** 1970-01-01 was a Thursday, the fourth name after Sunday. *)
Lemma getDayName_spec n :
  in_s 32 n → n + 3 < 2 ^ 31 → - n + 3 < 2 ^ 31 →
  getDayName (mkDate n) = deref (dayNames !! Z.to_nat ((n + 4) mod 7)).
Proof.
  intros Hn H1 H2. unfold in_s in Hn. change (2 ^ (32 - 1)) with (2 ^ 31) in Hn.
  unfold getDayName. cbn [days].
  assert (∀ i, i mod 7 = (n + 4) mod 7 → 0 ≤ i →
    nth_name dayNames (Z.rem i 7) = deref (dayNames !! Z.to_nat ((n + 4) mod 7))) as G.
  { intros i E Hi. rewrite Z.rem_mod_nonneg by lia. unfold nth_name.
    pose proof (Z.mod_pos_bound i 7 ltac:(lia)).
    destruct (Z.ltb_spec (i mod 7) 0); [lia|]. by rewrite E. }
  destruct (Z.ltb_spec n 0) as [Hneg|Hpos].
  - rewrite signed_ok by (unfold in_s; change (2 ^ (32 - 1)) with (2 ^ 31); lia).
    cbn [mbind result_bind].
    rewrite signed_ok by (unfold in_s; change (2 ^ (32 - 1)) with (2 ^ 31); lia).
    cbn [mbind result_bind]. rewrite (Z.rem_mod_nonneg (- n + 3)) by lia.
    pose proof (Z.mod_pos_bound (- n + 3) 7 ltac:(lia)). apply G; [|lia].
    pose proof (Z.div_mod (- n + 3) 7 ltac:(lia)) as E.
    replace (n + 4) with (7 - (- n + 3) mod 7 + (- ((- n + 3) / 7)) * 7) by lia.
    by rewrite Z.mod_add by lia.
  - rewrite signed_ok by (unfold in_s; change (2 ^ (32 - 1)) with (2 ^ 31); lia).
    cbn [mbind result_bind]. rewrite (Z.rem_mod_nonneg (n + 3)) by lia.
    pose proof (Z.mod_pos_bound (n + 3) 7 ltac:(lia)). apply G; [|lia].
    pose proof (Z.div_mod (n + 3) 7 ltac:(lia)) as E.
    replace (n + 4) with ((n + 3) mod 7 + 1 + (n + 3) / 7 * 7) by lia.
    by rewrite Z.mod_add by lia.
Qed.

(** ** The properties *)

(** C19: from fields to a day number and back.  Every calendar date with a supported
    year converts to its day number in the proleptic Gregorian calendar, and that day
    number converts back to the same year, month and day; any other triple is
    rejected with a conversion exception. *)
Theorem fromDate_roundtrip y m d :
  if bool_decide (calendar_date y m d ∧ in_years y)
  then fromDate y m d = Ok (mkDate (day_number y m d)) ∧
       convert (mkDate (day_number y m d)) = Ok (y, m, d)
  else ∃ msg, fromDate y m d = throw ConversionException msg.
Proof.
  case_bool_decide as Hc.
  - split; [apply fromDate_spec|apply convert_day_number]; apply Hc.
  - unfold fromDate. rewrite isValid_spec, bool_decide_false by done. eauto.
Qed.

(** C20: from a day number to fields and back.  Every day number converts, with no read
    outside the tables and no loop left unfinished, to a calendar date whose number it
    is.  If its year is supported ([MIN_YEAR] to [MAX_YEAR]), rebuilding the date from the
    fields gives it back, and every assertion of a build with runtime checks holds.  If
    not (date plus interval reaches such dates), a release build returns the fields
    nevertheless, rebuilding the date throws, and the assertion of line 229 fails. *)
Theorem convert_roundtrip n :
  ∃ y m d, convert (mkDate n) = Ok (y, m, d) ∧ calendar_date y m d ∧ day_number y m d = n ∧
    if bool_decide (in_years y)
    then fromDate y m d = Ok (mkDate n) ∧ convert_build true (mkDate n) = Ok (y, m, d)
    else (∃ msg, fromDate y m d = throw ConversionException msg) ∧
         convert_build true (mkDate n) =
           throw InternalException "Assertion failed in file date_t.cpp on line 229".
Proof.
  destruct (convert_spec n) as (y & m & d & E & Hc & Hn). exists y, m, d.
  split_and!; [done..|].
  destruct (convert_build_spec true n) as (y' & m' & d' & Hc' & Hn' & Et).
  rewrite <- Hn in Hn'. apply day_number_inj in Hn' as [= -> -> ->]; [|done..].
  rewrite Et. case_bool_decide as Hy; cbn [andb negb].
  - rewrite fromDate_spec by done. by rewrite Hn.
  - split; [|done]. unfold fromDate. rewrite isValid_spec, bool_decide_false by tauto. eauto.
Qed.

(** Adding days goes past the last supported date: 294247-12-31 and one day. *)
Example date_past_the_last_year :
  fromDate 294247 12 31 = Ok (mkDate 106752346) ∧
  date_add (mkDate 106752346) (mkInterval 0 1 0) = Ok (mkDate 106752347) ∧
  convert (mkDate 106752347) = Ok (294248, 1, 1) ∧
  convert_build true (mkDate 106752347) =
    throw InternalException "Assertion failed in file date_t.cpp on line 229".
Proof. vm_compute. done. Qed.

(** comparing dates compares calendar dates. *)
Theorem date_order a b y m d y' m' d' :
  convert a = Ok (y, m, d) → convert b = Ok (y', m', d') →
  (date_lt a b = true ↔ date_before y m d y' m' d') ∧
  (date_eq a b = true ↔ (y, m, d) = (y', m', d')).
Proof.
  destruct a as [a], b as [b]. intros Ea Eb.
  destruct (convert_spec a) as (? & ? & ? & Ea' & Hca & <-).
  destruct (convert_spec b) as (? & ? & ? & Eb' & Hcb & <-).
  rewrite Ea' in Ea. rewrite Eb' in Eb. injection Ea as -> -> ->. injection Eb as -> -> ->.
  unfold date_lt, date_eq. cbn [days]. rewrite Z.ltb_lt, Z.eqb_eq. split.
  - by apply day_number_order.
  - split; [by apply day_number_inj|by intros [= -> -> ->]].
Qed.

(** adding months to a date moves the calendar month by that many months, across
    years in either direction, and caps the day at the length of the target month;
    subtracting the interval moves it back. *)
Theorem date_add_months_calendar y m d k :
  calendar_date y m d → in_years ((months_of y m + k) / 12) → in_s 32 k → k ≠ 0 →
  let t := months_of y m + k in
  date_add (mkDate (day_number y m d)) (mkInterval k 0 0) =
    Ok (mkDate (day_number (t / 12) (t mod 12 + 1)
                  (Z.min d (month_length (t / 12) (t mod 12 + 1))))) ∧
  (d ≤ 28 → in_years y → - k < 2 ^ 31 →
   ∀ d', date_add (mkDate (day_number y m d)) (mkInterval k 0 0) = Ok d' →
         date_sub d' (mkInterval k 0 0) = Ok (mkDate (day_number y m d))).
Proof.
  intros Hc Hy Hk Hk0 t.
  assert (∀ dt j, j ≠ 0 → date_add dt (mkInterval j 0 0) = date_add_months dt j) as Eadd.
  { intros dt j Hj. unfold date_add. cbn [months idays imicros].
    destruct (Z.eqb_spec j 0); [done|]. cbn [negb].
    destruct (date_add_months dt j); done. }
  rewrite Eadd by done. rewrite date_add_months_spec by done. split; [done|].
  intros Hd28 Hyy Hneg d' [= <-].
  pose proof (Z.mod_pos_bound t 12 ltac:(lia)) as Hmod.
  pose proof (month_length_pos (t / 12) (t mod 12 + 1) ltac:(lia)) as Hlen.
  fold t. rewrite Z.min_l by lia. unfold date_sub, interval_neg. cbn [months idays imicros].
  unfold in_s in Hk. change (2 ^ (32 - 1)) with (2 ^ 31) in Hk.
  rewrite (signed_ok 32 (- k)) by (unfold in_s; change (2 ^ (32 - 1)) with (2 ^ 31); lia).
  rewrite !signed_ok by done. cbn [mbind result_bind]. change (- 0) with 0.
  rewrite Eadd by lia. destruct Hc as [Hm Hd].
  pose proof (Z.div_mod t 12 ltac:(lia)) as Hdm.
  assert (months_of (t / 12) (t mod 12 + 1) + - k = months_of y m) as Eb.
  { unfold t, months_of in *. lia. }
  assert (months_of y m / 12 = y ∧ months_of y m mod 12 = m - 1) as [E1 E2].
  { unfold months_of. assert (y = (12 * y + (m - 1)) / 12) as Ey
      by (apply Z.div_unique with (m - 1); lia).
    pose proof (Z.div_mod (12 * y + (m - 1)) 12 ltac:(lia)). lia. }
  rewrite date_add_months_spec; rewrite ?Eb, ?E1, ?E2.
  - replace (m - 1 + 1) with m by lia. by rewrite Z.min_l by lia.
  - split; lia.
  - done.
Qed.

(** the name of the day of a date follows the week from Thursday 1970-01-01, on
    both sides of the epoch. *)
Theorem getDayName_week n :
  in_s 32 n → n + 3 < 2 ^ 31 → - n + 3 < 2 ^ 31 →
  getDayName (mkDate n) = deref (dayNames !! Z.to_nat ((n + 4) mod 7)) ∧
  is_ok (getDayName (mkDate n)) = true.
Proof.
  intros Hn H1 H2. rewrite getDayName_spec by done. split; [done|].
  pose proof (Z.mod_pos_bound (n + 4) 7 ltac:(lia)) as Hb.
  destruct (lookup_lt_is_Some_2 dayNames (Z.to_nat ((n + 4) mod 7))) as [s ->]; [simpl; lia|done].
Qed.

(** ** Witnesses *)

Lemma leap_day_2020 : calendar_date 2020 2 29 ∧ in_years 2020 ∧ day_number 2020 2 29 = 18321.
Proof. split_and!; vm_compute; repeat split; congruence. Qed.

Lemma date_order_witness :
  date_lt (mkDate (-1)) (mkDate 18321) = true ↔ date_before 1969 12 31 2020 2 29.
Proof.
  apply (date_order (mkDate (-1)) (mkDate 18321) 1969 12 31 2020 2 29);
    vm_compute; reflexivity.
Defined.

(** 2020-01-31 plus one month is 2020-02-29. *)
Lemma date_add_months_calendar_witness :
  date_add (mkDate (day_number 2020 1 31)) (mkInterval 1 0 0) = Ok (mkDate 18321).
Proof.
  destruct (date_add_months_calendar 2020 1 31 1) as [E _];
    [split; vm_compute; split; congruence|vm_compute; split; congruence
    |vm_compute; split; congruence|congruence|].
  rewrite E. vm_compute. reflexivity.
Defined.

Lemma getDayName_week_witness : getDayName (mkDate (-1)) = Ok "Wednesday"%string.
Proof.
  destruct (getDayName_week (-1)) as [E _]; [vm_compute; split; congruence|lia|lia|].
  rewrite E. vm_compute. reflexivity.
Defined.
