(* ===== verification/DTime.v ===== *)
(** * Times of day (common/types/dtime_t.{h,cpp})

    A [dtime_t] is a number of microseconds ([int64_t]); text is a list of
    characters, as in Date.v. *)

From S2P Require Import Prelude.
From S2P Require Import Interval.
From S2P Require Import Date.
From Stdlib Require Import Ascii String.
From stdpp Require Import pretty.
#[local] Open Scope Z_scope.

Record dtime_t : Type := mkTime { micros : Z }.

#[export] Instance dtime_eq_dec : EqDecision dtime_t.
Proof. solve_decision. Defined.

Definition dtime_eq (a b : dtime_t) : bool := micros a =? micros b.
Definition dtime_ne (a b : dtime_t) : bool := negb (micros a =? micros b).
Definition dtime_le (a b : dtime_t) : bool := micros a <=? micros b.
Definition dtime_lt (a b : dtime_t) : bool := micros a <? micros b.
Definition dtime_gt (a b : dtime_t) : bool := micros b <? micros a.
Definition dtime_ge (a b : dtime_t) : bool := micros b <=? micros a.

Definition time_isValid (hour minute second microseconds : Z) : bool :=
  negb ((23 <? hour) || (hour <? 0) || (59 <? minute) || (minute <? 0) || (59 <? second) ||
        (second <? 0) || (999999 <? microseconds) || (microseconds <? 0)).

(** [fromTimeInternal]: [int64_t] arithmetic, in range for [int32_t] fields. *)
Definition fromTimeInternal (hour minute second microseconds : Z) : result dtime_t :=
  a ← signed 64 (hour * MINS_PER_HOUR + minute);
  b ← signed 64 (a * SECS_PER_MINUTE + second);
  c ← signed 64 (b * MICROS_PER_SEC + microseconds);
  Ok (mkTime c).

Definition fromTime (hour minute second microseconds : Z) : result dtime_t :=
  if negb (time_isValid hour minute second microseconds) then
    throw ConversionException
      ("Time field value out of range: " +:+ pretty hour +:+ ":" +:+ pretty minute +:+ ":" +:+
       pretty second +:+ "[." +:+ pretty microseconds +:+ "].")
  else fromTimeInternal hour minute second microseconds.

(** [Time::convert]: hours, minutes, seconds, microseconds, each cut to [int32_t]. *)
Definition time_convert (t : dtime_t) : Z * Z * Z * Z :=
  let time := micros t in
  let hour := swrap 32 (Z.quot time MICROS_PER_HOUR) in
  let time := time - hour * MICROS_PER_HOUR in
  let min := swrap 32 (Z.quot time MICROS_PER_MINUTE) in
  let time := time - min * MICROS_PER_MINUTE in
  let sec := swrap 32 (Z.quot time MICROS_PER_SEC) in
  let time := time - sec * MICROS_PER_SEC in
  (hour, min, sec, swrap 32 time).

(** ** Text *)

(** The hour digits: at most nine, [None] on a tenth. *)
Fixpoint parse_hour (digits : nat) (hour : Z) (l : list ascii) : option (Z * list ascii) :=
  match l with
  | c :: l' =>
      if CharacterIsDigit c then
        match digits with
        | S k => parse_hour k (hour * 10 + digit_value c) l'
        | O => None
        end
      else Some (hour, l)
  | [] => Some (hour, [])
  end.

(** The fraction loop: [mult] is divided by ten after every digit. *)
Fixpoint parse_micros (mult us : Z) (l : list ascii) : Z * list ascii :=
  match l with
  | c :: l' =>
      if CharacterIsDigit c then
        parse_micros (Z.quot mult 10) (if 0 <? mult then us + digit_value c * mult else us) l'
      else (us, l)
  | [] => (us, [])
  end.

(** [tryConvertInternal]; [isspace] and [isdigit] agree with the two predicates of
    StringUtils on ASCII. *)
Definition time_tryConvertInternal (buf : list ascii) : result (option (dtime_t * list ascii)) :=
  match skip_spaces buf with
  | [] => Ok None
  | (c :: _) as l =>
      if negb (CharacterIsDigit c) then Ok None
      else
        match parse_hour 9 0 l with
        | None | Some (_, []) => Ok None
        | Some (hour, sep :: l) =>
            if negb (Ascii.eqb sep ":") then Ok None
            else
              match parseDoubleDigit l with
              | None => Ok None
              | Some (min, l) =>
                  if (min <? 0) || (60 <=? min) then Ok None
                  else
                    match l with
                    | [] => Ok None
                    | sep' :: l =>
                        if negb (Ascii.eqb sep' sep) then Ok None
                        else
                          match parseDoubleDigit l with
                          | None => Ok None
                          | Some (sec, l) =>
                              if (sec <? 0) || (60 <=? sec) then Ok None
                              else
                                let '(us, l) :=
                                  match l with
                                  | c :: l' => if Ascii.eqb c "." then parse_micros 100000 0 l'
                                               else (0, l)
                                  | [] => (0, [])
                                  end in
                                t ← fromTimeInternal hour min sec us;
                                Ok (Some (t, l))
                          end
                    end
              end
        end
  end.

Definition time_tryConvertInterval (buf : list ascii) : result (option (dtime_t * list ascii)) :=
  r ← time_tryConvertInternal buf;
  match r with
  | Some (t, l) => match skip_spaces l with [] => Ok (Some (t, [])) | _ :: _ => Ok None end
  | None => Ok None
  end.

Definition time_tryConvertTime (buf : list ascii) : result (option (dtime_t * list ascii)) :=
  r ← time_tryConvertInternal buf;
  match r with
  | Some (t, l) => Ok (if micros t <? MICROS_PER_DAY then Some (t, l) else None)
  | None => Ok None
  end.

Definition time_fromCString (buf : list ascii) : result dtime_t :=
  r ← time_tryConvertTime buf;
  match r with
  | Some (t, _) => Ok t
  | None => throw ConversionException
      ("Error occurred during parsing time. Given: " +:+ dquote +:+ string_of_list_ascii buf +:+
       dquote +:+ ". Expected format: (hh:mm:ss[.zzzzzz]).")
  end.
