(* ===== verification/Arithmetic.v ===== *)
(** * Checked integer arithmetic (function/arithmetic/*.cpp)

    The SQL operators on the eight machine integer types.  Each C++ template
    specialisation is the definition below at one [IntType]; a result that does not
    fit throws an [OverflowException].  On 64-bit signed integers the code uses a
    compiler builtin with GCC and Clang, and a hand-written check elsewhere: both are
    modelled. *)

From S2P Require Import Prelude.
From stdpp Require Import pretty.
#[local] Open Scope Z_scope.

Inductive IntType : Type := UINT8 | UINT16 | UINT32 | UINT64 | INT8 | INT16 | INT32 | INT64.
Inductive Toolchain : Type := GnuOrClang | OtherCompiler.

#[export] Instance IntType_eq_dec : EqDecision IntType.
Proof. solve_decision. Defined.

Definition bits (ty : IntType) : Z :=
  match ty with
  | UINT8 | INT8 => 8 | UINT16 | INT16 => 16 | UINT32 | INT32 => 32 | UINT64 | INT64 => 64
  end.
Definition isSigned (ty : IntType) : bool :=
  match ty with INT8 | INT16 | INT32 | INT64 => true | _ => false end.
Definition type_name (ty : IntType) : string :=
  match ty with
  | UINT8 => "UINT8" | UINT16 => "UINT16" | UINT32 => "UINT32" | UINT64 => "UINT64"
  | INT8 => "INT8" | INT16 => "INT16" | INT32 => "INT32" | INT64 => "INT64"
  end.

(** [NumericLimits<T>] and conversion to [T]. *)
Definition minimum (ty : IntType) : Z := if isSigned ty then - 2 ^ (bits ty - 1) else 0.
Definition maximum (ty : IntType) : Z :=
  if isSigned ty then 2 ^ (bits ty - 1) - 1 else 2 ^ bits ty - 1.
Definition cast_int (ty : IntType) (z : Z) : Z :=
  if isSigned ty then swrap (bits ty) z else wrap (bits ty) z.
Definition in_type (ty : IntType) (z : Z) : Prop := minimum ty ≤ z ≤ maximum ty.
#[export] Instance in_type_dec ty z : Decision (in_type ty z).
Proof. unfold in_type. apply _. Defined.

(** [DST_TYPE]: the type the checks compute in. *)
Definition wider (ty : IntType) : IntType :=
  match ty with
  | UINT8 => UINT16 | UINT16 => UINT32 | UINT32 => UINT64 | UINT64 => UINT64
  | INT8 => INT16 | INT16 => INT32 | INT32 => INT64 | INT64 => INT64
  end.

(** The [...WithOverflowCheck<SRC, DST>] templates: compute in [DST], compare with the
    limits of [SRC].  [None] is the code's [false]. *)
Definition checked (op : Z → Z → Z) (src : IntType) (left right : Z) : option Z :=
  let dst := wider src in
  let uresult := cast_int dst (op (cast_int dst left) (cast_int dst right)) in
  if (uresult <? minimum src) || (maximum src <? uresult) then None
  else Some (cast_int src uresult).

Definition addInPlaceWithOverflowCheck := checked Z.add.
Definition SubtractInPlaceWithOverflowCheck := checked Z.sub.
Definition tryMultiplyWithOverflowCheck := checked Z.mul.
Definition tryDivideWithOverflowCheck := checked Z.quot.

(** [__builtin_{add,sub,mul}_overflow] on [int64_t]. *)
Definition builtin_overflow (op : Z → Z → Z) (left right : Z) : option Z :=
  if decide (in_s 64 (op left right)) then Some (op left right) else None.

(** ** The portable [int64_t] checks *)

Definition add_int64_portable (left right : Z) : option Z :=
  let tmp := swrap 64 (wrap 64 (wrap 64 left + wrap 64 right)) in
  if ((left <? 0) && (right <? 0) && (0 <=? tmp)) ||
     ((0 <=? left) && (0 <=? right) && (tmp <? 0))
  then None else Some tmp.

(** Signed subtraction at the end: [None] inside the result is [false]. *)
Definition sub_int64_portable (left right : Z) : result (option Z) :=
  if right <? 0 then
    m ← signed 64 (INT64_MAX + right);
    if m <? left then Ok None else d ← signed 64 (left - right); Ok (Some d)
  else
    m ← signed 64 (INT64_MIN + right);
    if left <? m then Ok None else d ← signed 64 (left - right); Ok (Some d).

(** The mask of line 129, as written. *)
Definition high_bits_mask : Z := 0xffffff80000000.

Definition mul_int64_portable (left right : Z) : result (option Z) :=
  if left =? INT64_MIN then
    if right =? 0 then Ok (Some 0)
    else if right =? 1 then Ok (Some left) else Ok None
  else if right =? INT64_MIN then
    if left =? 0 then Ok (Some 0)
    else if left =? 1 then Ok (Some right) else Ok None
  else
    let left_non_negative := Z.abs left in
    let right_non_negative := Z.abs right in
    let left_high_bits := Z.shiftr left_non_negative 32 in
    let left_low_bits := Z.land left_non_negative 0xffffffff in
    let right_high_bits := Z.shiftr right_non_negative 32 in
    let right_low_bits := Z.land right_non_negative 0xffffffff in
    let overflows :=
      if left_high_bits =? 0 then
        if right_high_bits =? 0 then false
        else
          let low_low := wrap 64 (left_low_bits * right_low_bits) in
          let low_high := wrap 64 (left_low_bits * right_high_bits) in
          let high_bits := wrap 64 (low_high + Z.shiftr low_low 32) in
          negb (Z.land high_bits high_bits_mask =? 0)
      else if right_high_bits =? 0 then
        let low_low := wrap 64 (left_low_bits * right_low_bits) in
        let high_low := wrap 64 (left_high_bits * right_low_bits) in
        let high_bits := wrap 64 (high_low + Z.shiftr low_low 32) in
        negb (Z.land high_bits high_bits_mask =? 0)
      else true in
    if (overflows : bool) then Ok None
    else p ← signed 64 (left * right); Ok (Some p).

(** ** The operators *)

Definition AddInPlace (tc : Toolchain) (ty : IntType) (left right : Z) : option Z :=
  match ty with
  | UINT64 => if maximum UINT64 - left <? right then None
              else addInPlaceWithOverflowCheck UINT64 left right
  | INT64 => match tc with
             | GnuOrClang => builtin_overflow Z.add left right
             | OtherCompiler => add_int64_portable left right
             end
  | _ => addInPlaceWithOverflowCheck ty left right
  end.

Definition SubtractInPlace (tc : Toolchain) (ty : IntType) (left right : Z) :
    result (option Z) :=
  match ty with
  | UINT8 | UINT16 | UINT32 | UINT64 =>
      if left <? right then Ok None else Ok (SubtractInPlaceWithOverflowCheck ty left right)
  | INT64 => match tc with
             | GnuOrClang => Ok (builtin_overflow Z.sub left right)
             | OtherCompiler => sub_int64_portable left right
             end
  | _ => Ok (SubtractInPlaceWithOverflowCheck ty left right)
  end.

(** What a call that takes its operands by reference leaves: its outcome, and the two
    operands after it, which are cells of the caller's value vectors. *)
Definition by_reference (A : Type) : Type := result A * (Z * Z).

(** The [uint64_t] case swaps its operands so that the right one is the larger, in the
    caller's cells: they stay swapped. *)
Definition swap_operands (left right : Z) : Z * Z :=
  if right <? left then (right, left) else (left, right).

(** It then splits the larger factor in two 32-bit halves. *)
Definition tryMultiply_uint64 (left right : Z) : by_reference (option Z) :=
  let '(l, r) := swap_operands left right in
  (Ok (if UINT32_MAX <? l then None
       else
         let c := wrap 32 (Z.shiftr r 32) in
         let d := wrap 32 (Z.land UINT32_MAX r) in
         let high := wrap 64 (l * c) in
         let s := wrap 64 (l * d) in
         if UINT32_MAX <? high then None
         else
           let high := wrap 64 (Z.shiftl high 32) in
           if maximum UINT64 - s <? high then None
           else tryMultiplyWithOverflowCheck UINT64 l r), (l, r)).

Definition TryMultiply (tc : Toolchain) (ty : IntType) (left right : Z) :
    by_reference (option Z) :=
  match ty with
  | UINT64 => tryMultiply_uint64 left right
  | INT64 => (match tc with
              | GnuOrClang => Ok (builtin_overflow Z.mul left right)
              | OtherCompiler => mul_int64_portable left right
              end, (left, right))
  | _ => (Ok (tryMultiplyWithOverflowCheck ty left right), (left, right))
  end.

Definition TryDivide (ty : IntType) (left right : Z) : option Z :=
  match ty with
  | INT64 => if (left =? minimum INT64) && (right =? -1) then None
             else tryDivideWithOverflowCheck INT64 left right
  | _ => tryDivideWithOverflowCheck ty left right
  end.

Definition TryModulo (ty : IntType) (left right : Z) : option Z :=
  if (left =? minimum ty) && (right =? -1) then None
  else
    let dst := wider ty in
    Some (cast_int ty (cast_int dst (Z.rem (cast_int dst left) (cast_int dst right)))).

Definition overflow_message (op : string) (ty : IntType) (left right : Z) : string :=
  "Value " +:+ pretty left +:+ op +:+ pretty right +:+ " is not within " +:+ type_name ty +:+
  " range.".

Definition or_overflow (msg : string) (r : option Z) : result Z :=
  match r with Some z => Ok z | None => throw OverflowException msg end.

Definition Add (tc : Toolchain) (ty : IntType) (left right : Z) : result Z :=
  or_overflow (overflow_message " + " ty left right) (AddInPlace tc ty left right).

Definition Subtract (tc : Toolchain) (ty : IntType) (left right : Z) : result Z :=
  r ← SubtractInPlace tc ty left right;
  or_overflow (overflow_message " - " ty left right) r.

(** The message names the operands as [TryMultiply] left them. *)
Definition Multiply (tc : Toolchain) (ty : IntType) (left right : Z) : by_reference Z :=
  let '(product, (l, r)) := TryMultiply tc ty left right in
  (p ← product; or_overflow (overflow_message " * " ty l r) p, (l, r)).

(** The primary template of [Multiply::operation], which a call selects whose argument
    types are not exactly those of a specialisation (a [const int64_t], say): the plain
    C++ product, here of two [int64_t]. *)
Definition Multiply_unchecked (left right : Z) : result Z := signed 64 (left * right).

Definition Divide (ty : IntType) (left right : Z) : result Z :=
  if right =? 0 then throw RuntimeException "Divide by zero."
  else or_overflow (overflow_message " / " ty left right) (TryDivide ty left right).

Definition Modulo (ty : IntType) (left right : Z) : result Z :=
  if right =? 0 then throw RuntimeException "Modulo by zero."
  else if isSigned ty then
    or_overflow (overflow_message " % " ty left right) (TryModulo ty left right)
  else Ok (Z.rem left right).

(** [Negate] and [Abs] exist for the signed types; [-input] and [std::abs] are done in
    at least [int] and converted back. *)
Definition NegateInPlace (ty : IntType) (input : Z) : option Z :=
  if input =? minimum ty then None else Some (cast_int ty (- input)).
Definition Negate (ty : IntType) (input : Z) : result Z :=
  or_overflow ("Value " +:+ pretty input +:+ " cannot be negated within " +:+ type_name ty +:+
               " range.") (NegateInPlace ty input).

Definition AbsInPlace (ty : IntType) (input : Z) : option Z :=
  if input =? minimum ty then None else Some (cast_int ty (Z.abs input)).
Definition Abs (ty : IntType) (input : Z) : result Z :=
  or_overflow ("Cannot take the absolute value of " +:+ pretty input +:+ " within " +:+
               type_name ty +:+ " range.") (AbsInPlace ty input).

(** ** Whole vectors (binary_function_executor.h)

    [BinaryFunctionExecutor::executeOnSelectedValues], which calls an operator on the cells
    of two value vectors, by reference.  The vectors are different objects (of one vector
    with itself, no two different cells meet in one call). *)

Module Vectors.

Record NullMask : Type := mkNullMask { null_bits : list bool; mayContainNulls : bool }.
Record ValueVector : Type := mkVector { isFlat : bool; values : list Z; nullMask : NullMask }.

Definition setAllNonNull (m : NullMask) : NullMask :=
  if mayContainNulls m then mkNullMask (replicate (length (null_bits m)) false) false else m.
Definition setAllNull (m : NullMask) : NullMask := mkNullMask (replicate (length (null_bits m)) true) true.
Definition setNull (pos : nat) (isNull : bool) (m : NullMask) : result NullMask :=
  if decide (pos < length (null_bits m))%nat
  then Ok (mkNullMask (<[pos:=isNull]> (null_bits m)) (isNull || mayContainNulls m))
  else UB.
Definition isNull (v : ValueVector) (pos : nat) : result bool :=
  deref (null_bits (nullMask v) !! pos).

(** The operands and the result. *)
Record Args : Type := mkArgs { left : ValueVector; right : ValueVector; res : ValueVector }.

Definition write (pos : nat) (z : Z) (v : ValueVector) : ValueVector :=
  mkVector (isFlat v) (<[pos:=z]> (values v)) (nullMask v).
Definition set_nulls (m : NullMask) (v : ValueVector) : ValueVector :=
  mkVector (isFlat v) (values v) m.
Definition set_res (f : ValueVector → ValueVector) (a : Args) : Args :=
  mkArgs (left a) (right a) (f (res a)).

Section Executor.
Variable operation : Z → Z → by_reference Z.

Definition executeOnValue (lPos rPos resPos : nat) : stM Args () :=
  a ← st_get;
  l ← st_lift (deref (values (left a) !! lPos));
  r ← st_lift (deref (values (right a) !! rPos));
  _ ← st_lift (deref (values (res a) !! resPos));
  let '(out, (l', r')) := operation l r in
  _ ← st_put (mkArgs (write lPos l' (left a)) (write rPos r' (right a)) (res a));
  z ← st_lift out;
  st_modify (set_res (write resPos z)).

Section Selected.
Variables leftSelVector rightSelVector resultSelVector : list nat.

Definition getSelectedPositions (selPos : nat) (leftFlat rightFlat : bool) :
    result (nat * nat * nat) :=
  lPos ← deref (leftSelVector !! (if leftFlat then 0 else selPos)%nat);
  rPos ← deref (rightSelVector !! (if rightFlat then 0 else selPos)%nat);
  resPos ← deref (resultSelVector !! (if leftFlat && rightFlat then 0 else selPos)%nat);
  Ok (lPos, rPos, resPos).

(** One turn of the loop over the selected positions. *)
Definition execute_row (noNullsGuaranteed leftFlat rightFlat : bool) (selPos : nat) :
    stM Args () :=
  '(lPos, rPos, resPos) ← st_lift (getSelectedPositions selPos leftFlat rightFlat);
  if noNullsGuaranteed then executeOnValue lPos rPos resPos
  else
    a ← st_get;
    lNull ← st_lift (isNull (left a) lPos);
    rNull ← st_lift (if lNull : bool then Ok true else isNull (right a) rPos);
    m ← st_lift (setNull resPos rNull (nullMask (res a)));
    _ ← st_modify (set_res (set_nulls m));
    if rNull : bool then mret () else executeOnValue lPos rPos resPos.

Fixpoint execute_rows (noNullsGuaranteed leftFlat rightFlat : bool) (rows : list nat) :
    stM Args () :=
  match rows with
  | [] => mret ()
  | selPos :: rows =>
      _ ← execute_row noNullsGuaranteed leftFlat rightFlat selPos;
      execute_rows noNullsGuaranteed leftFlat rightFlat rows
  end.

Definition executeOnSelectedValues : stM Args () :=
  a ← st_get;
  let leftFlat := isFlat (left a) in
  let rightFlat := isFlat (right a) in
  rightNull ← st_lift (if rightFlat then p ← deref (rightSelVector !! 0%nat); isNull (right a) p
                       else Ok false);
  allNullsGuaranteed ←
    st_lift (if rightNull : bool then Ok true
             else if leftFlat then p ← deref (leftSelVector !! 0%nat); isNull (left a) p
             else Ok false);
  if allNullsGuaranteed : bool then st_modify (set_res (λ v, set_nulls (setAllNull (nullMask v)) v))
  else
    let noNullsGuaranteed :=
      (leftFlat || negb (mayContainNulls (nullMask (left a)))) &&
      (rightFlat || negb (mayContainNulls (nullMask (right a)))) in
    _ ← (if noNullsGuaranteed
         then st_modify (set_res (λ v, set_nulls (setAllNonNull (nullMask v)) v)) else mret ());
    execute_rows noNullsGuaranteed leftFlat rightFlat
      (seq 0 (length (if leftFlat then rightSelVector else leftSelVector))).
End Selected.
End Executor.

End Vectors.
