(* ===== verification/ArithmeticTheorems.v ===== *)
(** * Properties of checked integer arithmetic

    Every operator returns the mathematical result when it fits the type and throws
    otherwise, on every type, and with either way of checking 64-bit additions and
    subtractions; the portable check of 64-bit multiplications misses overflows. *)

From S2P Require Import Prelude.
From stdpp Require Import pretty.
From S2P Require Import Arithmetic.
#[local] Open Scope Z_scope.

(** The mathematical result, or the overflow exception. *)
Definition exact (ty : IntType) (msg : string) (z : Z) : result Z :=
  if decide (in_type ty z) then Ok z else throw OverflowException msg.

(** Evaluate the limits of a concrete type. *)
Ltac limits := unfold in_type, minimum, maximum, cast_int in *; cbn [bits isSigned wider] in *;
  repeat match goal with
  | |- context [2 ^ (?a - 1)] => let v := eval compute in (2 ^ (a - 1)) in change (2 ^ (a - 1)) with v
  | |- context [2 ^ ?a] => let v := eval compute in (2 ^ a) in change (2 ^ a) with v
  | H : context [2 ^ (?a - 1)] |- _ =>
      let v := eval compute in (2 ^ (a - 1)) in change (2 ^ (a - 1)) with v in H
  | H : context [2 ^ ?a] |- _ => let v := eval compute in (2 ^ a) in change (2 ^ a) with v in H
  end.

Lemma cast_int_id ty z : in_type ty z → cast_int ty z = z.
Proof.
  unfold in_type, cast_int, minimum, maximum. destruct (isSigned ty) eqn:E; intros Hz.
  - apply swrap_id; [by destruct ty|]. split; lia.
  - apply wrap_id. split; lia.
Qed.

Lemma in_type_wider ty z : in_type ty z → in_type (wider ty) z.
Proof. destruct ty; limits; lia. Qed.

(** A check that computes without wrapping in the wider type is exact. *)
Lemma checked_exact op ty l r :
  in_type ty l → in_type ty r → in_type (wider ty) (op l r) →
  checked op ty l r = if decide (in_type ty (op l r)) then Some (op l r) else None.
Proof.
  intros Hl Hr Hw. unfold checked.
  rewrite (cast_int_id (wider ty) l), (cast_int_id (wider ty) r) by by apply in_type_wider.
  rewrite cast_int_id by done. case_decide as Hd.
  - rewrite (cast_int_id ty) by done. unfold in_type in Hd.
    destruct (Z.ltb_spec (op l r) (minimum ty)), (Z.ltb_spec (maximum ty) (op l r)); done || lia.
  - unfold in_type in Hd.
    destruct (Z.ltb_spec (op l r) (minimum ty)), (Z.ltb_spec (maximum ty) (op l r)); done || lia.
Qed.

Lemma or_overflow_exact ty msg z r :
  r = (if decide (in_type ty z) then Some z else None) → or_overflow msg r = exact ty msg z.
Proof. intros ->. unfold exact. by case_decide. Qed.

Lemma in_type_int64 z : in_type INT64 z ↔ in_s 64 z.
Proof. unfold in_type, in_s, minimum, maximum. cbn [bits isSigned]. lia. Qed.

Lemma builtin_exact op l r :
  builtin_overflow op l r = if decide (in_type INT64 (op l r)) then Some (op l r) else None.
Proof.
  unfold builtin_overflow. pose proof (in_type_int64 (op l r)).
  destruct (decide (in_s 64 (op l r))), (decide (in_type INT64 (op l r))); tauto.
Qed.

Lemma swrap64_cases z :
  - 2 ^ 64 ≤ z < 2 ^ 64 →
  swrap 64 z = z + (if z <? - 2 ^ 63 then 2 ^ 64 else if 2 ^ 63 <=? z then - 2 ^ 64 else 0).
Proof.
  intros Hz. unfold swrap. change (2 ^ (64 - 1)) with (2 ^ 63).
  destruct (Z.ltb_spec z (- 2 ^ 63)) as [H1|H1]; [|destruct (Z.leb_spec (2 ^ 63) z) as [H2|H2]].
  - replace (z + 2 ^ 63) with (z + 2 ^ 63 + 2 ^ 64 + (-1) * 2 ^ 64) by lia.
    rewrite Z.mod_add, Z.mod_small by lia. lia.
  - replace (z + 2 ^ 63) with (z + 2 ^ 63 - 2 ^ 64 + 1 * 2 ^ 64) by lia.
    rewrite Z.mod_add, Z.mod_small by lia. lia.
  - rewrite Z.mod_small by lia. lia.
Qed.

Lemma swrap_wrap64 z : swrap 64 (wrap 64 z) = swrap 64 z.
Proof.
  unfold swrap, wrap. f_equal.
  rewrite Z.add_mod_idemp_l by done. done.
Qed.

Lemma add_portable_exact l r :
  in_type INT64 l → in_type INT64 r →
  add_int64_portable l r = if decide (in_type INT64 (l + r)) then Some (l + r) else None.
Proof.
  intros Hl Hr. unfold add_int64_portable. rewrite swrap_wrap64.
  assert (swrap 64 (wrap 64 l + wrap 64 r) = swrap 64 (l + r)) as ->.
  { rewrite <- swrap_wrap64, <- (swrap_wrap64 (l + r)). f_equal. unfold wrap.
    symmetry. apply Z.add_mod. done. }
  assert (in_type INT64 (l + r) ↔ swrap 64 (l + r) = l + r) as Hin.
  { limits. rewrite swrap64_cases by lia.
    destruct (Z.ltb_spec (l + r) (- 2 ^ 63)), (Z.leb_spec (2 ^ 63) (l + r)); lia. }
  assert ((l < 0 ∧ r < 0 ∧ 0 ≤ swrap 64 (l + r)) ∨ (0 ≤ l ∧ 0 ≤ r ∧ swrap 64 (l + r) < 0) ↔
          ¬ in_type INT64 (l + r)) as Hout.
  { limits. rewrite swrap64_cases by lia.
    destruct (Z.ltb_spec (l + r) (- 2 ^ 63)), (Z.leb_spec (2 ^ 63) (l + r)); lia. }
  case_decide as Hd; cbn zeta.
  - rewrite (proj1 Hin Hd) in *.
    destruct (Z.ltb_spec l 0), (Z.ltb_spec r 0), (Z.leb_spec 0 (l + r)), (Z.leb_spec 0 l),
      (Z.leb_spec 0 r), (Z.ltb_spec (l + r) 0); simpl; done || (exfalso; lia) || tauto.
  - apply Hout in Hd. set (t := swrap 64 (l + r)) in *. clearbody t.
    destruct (Z.ltb_spec l 0), (Z.ltb_spec r 0), (Z.leb_spec 0 t), (Z.leb_spec 0 l),
      (Z.leb_spec 0 r), (Z.ltb_spec t 0); simpl; done || (exfalso; lia).
Qed.

Lemma sub_portable_exact l r :
  in_type INT64 l → in_type INT64 r →
  sub_int64_portable l r = Ok (if decide (in_type INT64 (l - r)) then Some (l - r) else None).
Proof.
  rewrite !in_type_int64. intros Hl Hr. unfold sub_int64_portable, INT64_MAX, INT64_MIN, signed.
  assert (in_type INT64 (l - r) ↔ in_s 64 (l - r)) as E by apply in_type_int64.
  unfold in_s in *. change (64 - 1) with 63 in *.
  destruct (Z.ltb_spec r 0).
  - rewrite (decide_True (P := _ ≤ 2 ^ 63 - 1 + r < _)) by lia. cbn [mbind result_bind].
    destruct (Z.ltb_spec (2 ^ 63 - 1 + r) l); repeat case_decide; done || (exfalso; rewrite ?E in *; lia).
  - rewrite (decide_True (P := _ ≤ - 2 ^ 63 + r < _)) by lia. cbn [mbind result_bind].
    destruct (Z.ltb_spec l (- 2 ^ 63 + r)); repeat case_decide; done || (exfalso; rewrite ?E in *; lia).
Qed.

(** The split of the larger factor loses nothing. *)
Lemma tryMultiply_uint64_exact l r :
  in_type UINT64 l → in_type UINT64 r →
  tryMultiply_uint64 l r =
  (Ok (if decide (in_type UINT64 (l * r)) then Some (l * r) else None), swap_operands l r).
Proof.
  assert (∀ a b, in_type UINT64 a → in_type UINT64 b → a ≤ b →
    (if UINT32_MAX <? a then None
     else
       let high := wrap 64 (a * wrap 32 (Z.shiftr b 32)) in
       let s := wrap 64 (a * wrap 32 (Z.land UINT32_MAX b)) in
       if UINT32_MAX <? high then None
       else if maximum UINT64 - s <? wrap 64 (Z.shiftl high 32) then None
       else tryMultiplyWithOverflowCheck UINT64 a b) =
    if decide (in_type UINT64 (a * b)) then Some (a * b) else None) as G.
  { intros a b Ha Hb Hle. unfold UINT32_MAX.
    assert (Z.land (2 ^ 32 - 1) b = b mod 2 ^ 32) as ->.
    { rewrite Z.land_comm. change (2 ^ 32 - 1) with (Z.ones 32). by rewrite Z.land_ones. }
    rewrite Z.shiftr_div_pow2 by lia. rewrite Z.shiftl_mul_pow2 by lia.
    assert (0 ≤ b / 2 ^ 32 < 2 ^ 32) as Hh.
    { limits. split; [apply Z.div_pos; lia|apply Z.div_lt_upper_bound; lia]. }
    pose proof (Z.mod_pos_bound b (2 ^ 32) ltac:(done)) as Hlo.
    pose proof (Z.div_mod b (2 ^ 32) ltac:(done)) as Hb'.
    set (h := b / 2 ^ 32) in *. set (lo := b mod 2 ^ 32) in *.
    rewrite (wrap_id 32 h), (wrap_id 32 lo) by done. cbv zeta.
    limits. destruct (Z.ltb_spec (4294967296 - 1) a) as [Hbig|Hsmall].
    { rewrite decide_False; [done|]. nia. }
    rewrite (wrap_id 64 (a * h)), (wrap_id 64 (a * lo)) by (unfold in_u; limits; nia).
    destruct (Z.ltb_spec (4294967296 - 1) (a * h)) as [Hr|Hr].
    { rewrite decide_False; [done|]. nia. }
    rewrite (wrap_id 64 (a * h * 4294967296)) by (unfold in_u; limits; nia).
    assert (a * b = a * h * 4294967296 + a * lo) as Eab by nia.
    destruct (Z.ltb_spec (18446744073709551616 - 1 - a * lo) (a * h * 4294967296)).
    { rewrite decide_False; [done|]. lia. }
    unfold tryMultiplyWithOverflowCheck. rewrite checked_exact; limits; [|lia|lia|nia].
    rewrite !decide_True by nia. done. }
  intros Hl Hr. unfold tryMultiply_uint64, swap_operands. destruct (Z.ltb_spec r l) as [Hlt|Hge].
  - specialize (G r l Hr Hl ltac:(lia)). cbv zeta in *. rewrite G, (Z.mul_comm r l). done.
  - specialize (G l r Hl Hr Hge). cbv zeta in *. by rewrite G.
Qed.

(** ** Each operator against the mathematical one *)

Lemma AddInPlace_exact tc ty l r :
  in_type ty l → in_type ty r →
  AddInPlace tc ty l r = if decide (in_type ty (l + r)) then Some (l + r) else None.
Proof.
  intros Hl Hr. destruct ty; try (apply checked_exact; [done..|limits; lia]).
  - (* UINT64 *) cbn [AddInPlace]. unfold addInPlaceWithOverflowCheck.
    destruct (Z.ltb_spec (maximum UINT64 - l) r).
    + rewrite decide_False; [done|]. limits. lia.
    + apply checked_exact; [done..|]. limits. lia.
  - (* INT64 *) cbn [AddInPlace]. destruct tc; [apply builtin_exact|by apply add_portable_exact].
Qed.

Lemma SubtractInPlace_exact tc ty l r :
  in_type ty l → in_type ty r →
  SubtractInPlace tc ty l r = Ok (if decide (in_type ty (l - r)) then Some (l - r) else None).
Proof.
  intros Hl Hr. unfold SubtractInPlace, SubtractInPlaceWithOverflowCheck.
  destruct ty; try (f_equal; apply checked_exact; [done..|limits; lia]).
  5: { destruct tc; [f_equal; apply builtin_exact|by apply sub_portable_exact]. }
  all: destruct (Z.ltb_spec l r);
    [rewrite decide_False; [done|limits; lia]|f_equal; apply checked_exact; [done..|limits; lia]].
Qed.

(** The operands a multiplication leaves: those of [UINT64] in ascending order. *)
Definition mul_operands (ty : IntType) (l r : Z) : Z * Z :=
  if bool_decide (ty = UINT64) && (r <? l) then (r, l) else (l, r).

Lemma TryMultiply_exact tc ty l r :
  (tc = GnuOrClang ∨ ty ≠ INT64) → in_type ty l → in_type ty r →
  TryMultiply tc ty l r =
  (Ok (if decide (in_type ty (l * r)) then Some (l * r) else None), mul_operands ty l r).
Proof.
  intros Htc Hl Hr. unfold TryMultiply, mul_operands.
  destruct ty; cbn [bool_decide decide IntType_eq_dec andb].
  all: try by (do 2 f_equal; apply checked_exact; [done..|limits; nia]).
  - by rewrite tryMultiply_uint64_exact.
  - destruct Htc as [->|]; [|done]. do 2 f_equal. apply builtin_exact.
Qed.

(** Truncated division stays between the dividend and its opposite. *)
Lemma quot_bound l r : r ≠ 0 → Z.abs (Z.quot l r) ≤ Z.abs l.
Proof.
  intros Hr. rewrite <- Z.quot_abs by done. apply Z.quot_le_upper_bound; [lia|]. nia.
Qed.
Lemma quot_bound_2 l r : Z.abs r ≠ 1 → r ≠ 0 → 2 * Z.abs (Z.quot l r) ≤ Z.abs l.
Proof.
  intros H1 Hr. rewrite <- Z.quot_abs by done.
  pose proof (Z.mul_quot_le (Z.abs l) (Z.abs r) ltac:(lia) ltac:(lia)). nia.
Qed.
Lemma quot_nonneg l r : 0 ≤ l → 0 < r → 0 ≤ Z.quot l r.
Proof. intros. by apply Z.quot_pos. Qed.

Lemma quot_in_type ty l r :
  in_type ty l → in_type ty r → r ≠ 0 → ¬ (l = minimum ty ∧ r = -1) →
  in_type ty (Z.quot l r).
Proof.
  intros Hl Hr H0 Hm. pose proof (quot_bound l r H0).
  destruct (decide (r = -1)) as [->|H1].
  { change (-1) with (- (1)). rewrite Z.quot_opp_r, Z.quot_1_r by done.
    destruct ty; limits; lia. }
  destruct (decide (r = 1)) as [->|H2]; [by rewrite Z.quot_1_r|].
  pose proof (quot_bound_2 l r ltac:(lia) H0).
  destruct (isSigned ty) eqn:E.
  - destruct ty; try done; limits; lia.
  - assert (0 ≤ l ∧ 0 < r) as [] by (destruct ty; try done; limits; lia).
    pose proof (quot_nonneg l r ltac:(done) ltac:(done)). destruct ty; try done; limits; lia.
Qed.

Lemma TryDivide_exact ty l r :
  in_type ty l → in_type ty r → r ≠ 0 →
  TryDivide ty l r = if decide (in_type ty (Z.quot l r)) then Some (Z.quot l r) else None.
Proof.
  intros Hl Hr H0. unfold TryDivide, tryDivideWithOverflowCheck.
  assert (∀ t, t = ty → ¬ (l = minimum ty ∧ r = -1 ∧ ty = INT64) →
    checked Z.quot t l r = if decide (in_type ty (Z.quot l r)) then Some (Z.quot l r) else None) as G.
  { intros t -> Hn. apply checked_exact; [done..|].
    destruct (decide (l = minimum ty ∧ r = -1)) as [[-> ->]|Hm].
    - change (-1) with (- (1)). rewrite Z.quot_opp_r, Z.quot_1_r by done.
      destruct ty; limits; lia || tauto.
    - apply in_type_wider. by apply quot_in_type. }
  destruct ty; try (apply G; [done|intros (_&_&?); done]).
  destruct (Z.eqb_spec l (minimum INT64)) as [->|]; cbn [andb]; [|apply G; [done|tauto]].
  destruct (Z.eqb_spec r (-1)) as [->|]; [|apply G; [done|tauto]].
  rewrite decide_False; [done|]. vm_compute. intros [_ H]. by apply H.
Qed.

Lemma rem_in_type ty l r : in_type ty l → in_type ty r → r ≠ 0 → in_type ty (Z.rem l r).
Proof.
  intros Hl Hr H0.
  assert (Z.abs (Z.rem l r) ≤ Z.abs l).
  { rewrite <- Z.rem_abs by done. apply Z.rem_le; lia. }
  destruct (Z.le_gt_cases 0 l).
  - pose proof (Z.rem_nonneg l r H0 ltac:(done)). destruct ty; limits; lia.
  - pose proof (Z.rem_nonpos l r H0 ltac:(lia)). destruct ty; limits; lia.
Qed.

(** C26: with GCC or Clang on every integer type, and with any other compiler on every
    type for addition and subtraction and on every type but INT64 for multiplication:
    one call of the three operators returns the mathematical sum, difference or product
    when it fits the type, and throws the overflow exception that names the operands when
    not.  Multiplication leaves its operands as they were, except on UINT64, where the
    caller's two cells hold them in ascending order afterwards, also when it throws. *)
Theorem arithmetic_exact tc ty l r :
  in_type ty l → in_type ty r →
  Add tc ty l r = exact ty (overflow_message " + " ty l r) (l + r) ∧
  Subtract tc ty l r = exact ty (overflow_message " - " ty l r) (l - r) ∧
  (tc = GnuOrClang ∨ ty ≠ INT64 →
   Multiply tc ty l r =
   (exact ty (overflow_message " * " ty (mul_operands ty l r).1 (mul_operands ty l r).2) (l * r),
    mul_operands ty l r)).
Proof.
  intros Hl Hr. split_and!.
  - apply or_overflow_exact. by apply AddInPlace_exact.
  - unfold Subtract. rewrite SubtractInPlace_exact by done. by apply or_overflow_exact.
  - intros Htc. unfold Multiply. rewrite TryMultiply_exact by done.
    destruct (mul_operands ty l r) as [a b]. cbn [mbind result_bind fst snd]. f_equal.
    by apply or_overflow_exact.
Qed.

Example arithmetic_exact_witness :
  Add OtherCompiler INT64 INT64_MAX 1 =
    exact INT64 (overflow_message " + " INT64 INT64_MAX 1) (INT64_MAX + 1) ∧
  Subtract OtherCompiler UINT8 3 250 = throw OverflowException "Value 3 - 250 is not within UINT8 range." ∧
  Multiply OtherCompiler UINT64 5000000000 3 = (Ok 15000000000, (3, 5000000000)) ∧
  Multiply GnuOrClang UINT64 (2 ^ 63) 2 =
    (throw OverflowException "Value 2 * 9223372036854775808 is not within UINT64 range.", (2, 2 ^ 63)).
Proof.
  assert (in_type INT64 INT64_MAX ∧ in_type INT64 1 ∧ in_type UINT8 3 ∧ in_type UINT8 250 ∧
    in_type UINT64 5000000000 ∧ in_type UINT64 3 ∧ in_type UINT64 (2 ^ 63) ∧ in_type UINT64 2)
    as (?&?&?&?&?&?&?&?) by (vm_compute; intuition congruence).
  split_and!.
  - by apply arithmetic_exact.
  - destruct (arithmetic_exact OtherCompiler UINT8 3 250) as (_&->&_); done.
  - destruct (arithmetic_exact OtherCompiler UINT64 5000000000 3) as (_&_&Hmul); [done..|].
    rewrite Hmul by (right; done). reflexivity.
  - destruct (arithmetic_exact GnuOrClang UINT64 (2 ^ 63) 2) as (_&_&Hmul); [done..|].
    rewrite Hmul by (left; done). vm_compute. reflexivity.
Defined.

(** division and modulo by zero throw; otherwise division returns the quotient
    truncated towards zero, except that the smallest value divided by -1 overflows, as
    does its modulo (whose mathematical result, 0, would fit); negation and absolute
    value fail exactly on the smallest value. *)
Theorem division_exact ty l r :
  in_type ty l → in_type ty r →
  Divide ty l r = (if r =? 0 then throw RuntimeException "Divide by zero."
                   else exact ty (overflow_message " / " ty l r) (Z.quot l r)) ∧
  (r ≠ 0 → in_type ty (Z.quot l r) ↔ ¬ (l = minimum ty ∧ r = -1)) ∧
  Modulo ty l r = (if r =? 0 then throw RuntimeException "Modulo by zero."
                   else if (l =? minimum ty) && (r =? -1)
                   then throw OverflowException (overflow_message " % " ty l r)
                   else Ok (Z.rem l r)) ∧
  (isSigned ty = true →
   Negate ty l = exact ty ("Value " +:+ pretty l +:+ " cannot be negated within " +:+
                           type_name ty +:+ " range.") (- l) ∧
   Abs ty l = exact ty ("Cannot take the absolute value of " +:+ pretty l +:+ " within " +:+
                        type_name ty +:+ " range.") (Z.abs l)).
Proof.
  intros Hl Hr. split_and!.
  - unfold Divide. destruct (Z.eqb_spec r 0); [done|].
    apply or_overflow_exact. by apply TryDivide_exact.
  - intros H0. split; [|by apply quot_in_type]. intros Hq [-> ->].
    change (-1) with (- (1)) in Hq. rewrite Z.quot_opp_r, Z.quot_1_r in Hq by done.
    destruct ty; limits; lia.
  - unfold Modulo, TryModulo. destruct (Z.eqb_spec r 0) as [|H0]; [done|].
    pose proof (rem_in_type ty l r Hl Hr H0) as Hm.
    destruct (isSigned ty) eqn:E.
    + destruct ((l =? minimum ty) && (r =? -1)); [done|].
      rewrite (cast_int_id (wider ty) l), (cast_int_id (wider ty) r) by by apply in_type_wider.
      rewrite (cast_int_id (wider ty)) by by apply in_type_wider. by rewrite cast_int_id.
    + destruct (Z.eqb_spec r (-1)) as [->|]; [|by rewrite andb_false_r].
      exfalso. destruct ty; try done; limits; lia.
  - intros E. unfold Negate, Abs, NegateInPlace, AbsInPlace.
    split; apply or_overflow_exact; destruct (Z.eqb_spec l (minimum ty)) as [->|Hm].
    1, 3: rewrite decide_False; [done|]; destruct ty; try done; limits; lia.
    all: rewrite decide_True by (destruct ty; try done; limits; lia).
    all: rewrite cast_int_id; [done|]; destruct ty; try done; limits; lia.
Qed.

Example division_exact_witness :
  Divide INT8 (-128) (-1) = throw OverflowException "Value -128 / -1 is not within INT8 range." ∧
  Modulo INT8 (-7) 3 = Ok (-1) ∧ Divide INT32 (-7) 2 = Ok (-3).
Proof.
  split_and!.
  - by destruct (division_exact INT8 (-128) (-1)) as (->&_); [vm_compute; split; congruence..|].
  - by destruct (division_exact INT8 (-7) 3) as (_&_&->&_); [vm_compute; split; congruence..|].
  - by destruct (division_exact INT32 (-7) 2) as (->&_); [vm_compute; split; congruence..|].
Defined.

(** The portable check of 64-bit multiplications, whose mask has a zero where the
    highest eight bits should be tested, accepts products that do not fit: the
    multiplication that follows overflows, which is undefined behaviour. *)
Theorem portable_multiplication_misses_overflow :
  in_type INT64 (2 ^ 62) ∧ in_type INT64 (2 ^ 26) ∧ ¬ in_type INT64 (2 ^ 62 * 2 ^ 26) ∧
  (Multiply OtherCompiler INT64 (2 ^ 62) (2 ^ 26)).1 = UB ∧
  (Multiply GnuOrClang INT64 (2 ^ 62) (2 ^ 26)).1 =
    throw OverflowException (overflow_message " * " INT64 (2 ^ 62) (2 ^ 26)).
Proof. vm_compute. intuition congruence. Qed.

(** ** Whole vectors *)

Section Rows.
Import Vectors.

(** A computation that changes no operand vector. *)
Definition keeps {A} (m : stM Args A) : Prop :=
  ∀ a, left (m a).1 = left a ∧ right (m a).1 = right a.

Lemma keeps_bind {A B} (m : stM Args A) (f : A → stM Args B) :
  keeps m → (∀ x, keeps (f x)) → keeps (m ≫= f).
Proof.
  intros Hm Hf a. rewrite st_bind_run. pose proof (Hm a) as E.
  destruct (m a) as [b [x| |]]; [|done..]. cbn in E. destruct E as [<- <-]. apply Hf.
Qed.

Section Keeps.
Variable op : Z → Z → by_reference Z.
Hypothesis op_keeps : ∀ l r, (op l r).2 = (l, r).

Lemma executeOnValue_keeps lp rp p : keeps (executeOnValue op lp rp p).
Proof.
  intros [l r v]. unfold executeOnValue. rewrite st_bind_run. cbn [st_get left right res].
  rewrite !st_bind_run. destruct (values l !! lp) as [x|] eqn:El; [|done]. cbn [deref st_lift].
  rewrite !st_bind_run. destruct (values r !! rp) as [y|] eqn:Er; [|done]. cbn [deref st_lift].
  rewrite !st_bind_run. destruct (values v !! p); [|done]. cbn [deref st_lift].
  pose proof (op_keeps x y) as E. destruct (op x y) as [out q]. cbn in E. subst q.
  unfold write. rewrite !list_insert_id by done. by destruct l, r, out.
Qed.

Lemma execute_rows_keep ls rs rss n lf rf rows : keeps (execute_rows op ls rs rss n lf rf rows).
Proof.
  induction rows as [|i rows IH]; [done|]. cbn [execute_rows]. apply keeps_bind; [|done].
  apply keeps_bind; [done|]. intros [[lp rp] p]. destruct n; [apply executeOnValue_keeps|].
  do 2 (apply keeps_bind; [done|intros ?]). apply keeps_bind; [done|intros rNull].
  do 2 (apply keeps_bind; [done|intros ?]). destruct rNull; [done|apply executeOnValue_keeps].
Qed.

(** An operator that leaves its operands alone leaves the operand vectors alone, however
    far the loop gets: each row is computed from the cells it was given. *)
Lemma executeOnSelectedValues_keeps ls rs rss : keeps (executeOnSelectedValues op ls rs rss).
Proof.
  apply keeps_bind; [done|]. intros b. apply keeps_bind; [done|]. intros rNull. apply keeps_bind; [done|]. intros allNull.
  destruct allNull; [done|]. apply keeps_bind; [by destruct (_ && _)|].
  intros _. apply execute_rows_keep.
Qed.
End Keeps.

(** A flat operand times two rows: the second row reads the flat operand the first one
    swapped away.  [5 * [3, 4]] gives [15] and [12]; on INT64 it gives [15] and [20]. *)
Definition flat_times_rows (ty : IntType) : Args * result () :=
  let no_nulls := mkNullMask [false; false] false in
  executeOnSelectedValues (Multiply GnuOrClang ty) [0%nat] [0%nat; 1%nat] [0%nat; 1%nat]
    (mkArgs (mkVector true [5; 0] no_nulls) (mkVector false [3; 4] no_nulls)
            (mkVector false [0; 0] no_nulls)).

Example flat_multiply_swaps_rows :
  values (res (flat_times_rows UINT64).1) = [15; 12] ∧
  values (left (flat_times_rows UINT64).1) = [3; 0] ∧
  values (right (flat_times_rows UINT64).1) = [5; 4] ∧
  values (res (flat_times_rows INT64).1) = [15; 20] ∧
  values (left (flat_times_rows INT64).1) = [5; 0].
Proof. by vm_compute. Qed.
End Rows.
