(* ===== verification/Sequence.v ===== *)
(** * Sequences (catalog/catalog_entry/sequence_catalog_entry.{h,cpp})

    A sequence hands out the values [start], [start + increment], ... and throws at its
    bound, or starts again at the other one.  Its counters change at once and for
    everybody; rolling a transaction back writes the old ones into it.  The checks of
    CREATE SEQUENCE are those of [Binder::bindCreateSequence] (binder/bind/bind_ddl.cpp). *)

From stdpp Require Import pretty.
From S2P Require Import Prelude.
From S2P Require Import Arithmetic.
From S2P Require Import ArithmeticTheorems.

Record SequenceData : Type := mkSequence {
  usageCount : Z;
  seq_currVal : Z;
  increment : Z;
  startValue : Z;
  minValue : Z;
  maxValue : Z;
  cycle : bool;
}.
#[export] Instance SequenceData_eq_dec : EqDecision SequenceData.
Proof. solve_decision. Defined.

Record SequenceRollbackData : Type := mkRollback { rb_usageCount : Z; rb_currVal : Z }.

Record BoundCreateSequenceInfo : Type := mkSequenceInfo {
  startWith : Z;
  info_increment : Z;
  info_minValue : Z;
  info_maxValue : Z;
  info_cycle : bool;
}.

Definition newSequence (info : BoundCreateSequenceInfo) : SequenceData :=
  mkSequence 0 (startWith info) (info_increment info) (startWith info) (info_minValue info)
    (info_maxValue info) (info_cycle info).

(** The options of the statement, each the 64-bit integer it parses to. *)
Definition bindCreateSequence (inc : Z) (minV maxV start : option Z) (cyc : bool) : result BoundCreateSequenceInfo :=
  if decide (inc = 0) then throw BinderException "INCREMENT must be non-zero."
  else
    let minV := default (if bool_decide (inc > 0) then 1 else INT64_MIN) minV in
    let maxV := default (if bool_decide (inc > 0) then INT64_MAX else -1) maxV in
    let start := default (if bool_decide (inc > 0) then minV else maxV) start in
    if bool_decide (maxV < minV)
    then throw BinderException "SEQUENCE MAXVALUE should be greater than or equal to MINVALUE."
    else if bool_decide (start < minV) || bool_decide (start > maxV)
    then throw BinderException "SEQUENCE START value should be between MINVALUE and MAXVALUE."
    else mret (mkSequenceInfo start inc minV maxV cyc).

Definition dquote : string := String (Ascii.ascii_of_nat 34) EmptyString.

Section Sequence.
(** Which of the two additions the compiler provides, and the name of the entry. *)
Variable tc : Toolchain.
Variable name : string.

Definition currVal (d : SequenceData) : result Z :=
  if bool_decide (usageCount d = 0) then throw CatalogException
    ("currval: sequence " +:+ dquote +:+ name +:+ dquote +:+
     " is not yet defined. To define the sequence, call nextval first.")
  else mret (seq_currVal d).

Definition reached (what : string) (bound : Z) : result Z := throw CatalogException
  ("nextval: reached " +:+ what +:+ " value of sequence " +:+ dquote +:+ name +:+ dquote +:+ " " +:+ pretty bound).

(** The value after the current one.  Only an overflow of the addition is caught. *)
Definition next_value (d : SequenceData) : result Z :=
  let sum := Add tc INT64 (seq_currVal d) (increment d) in
  match sum with
  | UB => UB
  | Throw e =>
      if decide (exn_kind e = OverflowException) then
        if cycle d then mret (if bool_decide (increment d < 0) then maxValue d else minValue d)
        else if bool_decide (increment d < 0) then reached "minimum" (minValue d)
        else if bool_decide (increment d > 0) then reached "maximum" (maxValue d)
        else mret (seq_currVal d)
      else Throw e
  | Ok next =>
      if cycle d then
        if bool_decide (next < minValue d) then mret (maxValue d)
        else if bool_decide (next > maxValue d) then mret (minValue d)
        else mret next
      else if bool_decide (next < minValue d) then reached "minimum" (minValue d)
      else if bool_decide (next > maxValue d) then reached "maximum" (maxValue d)
      else mret next
  end.

Definition set_current (v u : Z) (d : SequenceData) : SequenceData :=
  mkSequence u v (increment d) (startValue d) (minValue d) (maxValue d) (cycle d).

(** The first use returns the value the sequence starts with. *)
Definition nextValNoLock : stM SequenceData () := λ d,
  if bool_decide (usageCount d = 0) then (set_current (seq_currVal d) 1 d, Ok ())
  else match next_value d with
       | Ok v => (set_current v (wrap 64 (usageCount d + 1)) d, Ok ())
       | Throw e => (d, Throw e)
       | UB => (d, UB)
       end.

(** The loop of [nextKVal], with the values that go into the result vector. *)
Fixpoint nextVals (count : nat) : stM SequenceData (list Z) :=
  match count with
  | O => mret []
  | S count => _ ← nextValNoLock; d ← st_get; vs ← nextVals count; mret (seq_currVal d :: vs)
  end.

(** The values, and what the transaction records to undo the call; an exception leaves
    before anything is recorded. *)
Definition nextKVal (count : nat) : stM SequenceData (list Z * SequenceRollbackData) :=
  d ← st_get; vs ← nextVals count; mret (vs, mkRollback (usageCount d) (seq_currVal d)).

Definition rollbackVal (r : SequenceRollbackData) (d : SequenceData) : SequenceData :=
  set_current (rb_currVal r) (rb_usageCount r) d.
End Sequence.

(** * What sequences hand out

    Whatever the bounds, the increment and the toolchain, a sequence that does not cycle
    hands out the arithmetic progression up to its bound, and then throws; one that cycles
    starts again at the other bound.  The reference is a closed form on integers without
    bound. *)

(** What the checks of CREATE SEQUENCE leave: bounds in order, the start between them,
    all of 64 bits. *)
Record sequence_wf (d : SequenceData) : Prop := {
  sw_bounds : INT64_MIN ≤ minValue d ∧ maxValue d ≤ INT64_MAX;
  sw_current : minValue d ≤ seq_currVal d ≤ maxValue d;
  sw_increment : INT64_MIN ≤ increment d ≤ INT64_MAX ∧ increment d ≠ 0;
}.

Definition in64 (o : option Z) : Prop := match o with Some z => INT64_MIN ≤ z ≤ INT64_MAX | None => True end.

Lemma bound_sequence_wf inc minV maxV start cyc info :
  INT64_MIN ≤ inc ≤ INT64_MAX → in64 minV → in64 maxV → in64 start →
  bindCreateSequence inc minV maxV start cyc = Ok info → sequence_wf (newSequence info).
Proof.
  intros Hi Hmin Hmax Hst. unfold bindCreateSequence. destruct (decide (inc = 0)) as [|Hn]; [done|].
  destruct (bool_decide (default _ maxV < _)) eqn:E1; [done|]. apply bool_decide_eq_false in E1.
  destruct (_ || _) eqn:E2; [done|]. apply orb_false_iff in E2 as [E2%bool_decide_eq_false E3%bool_decide_eq_false].
  intros [= <-]. unfold in64, INT64_MIN, INT64_MAX in *.
  assert (- 2 ^ 63 ≤ default (if bool_decide (inc > 0) then 1 else - 2 ^ 63) minV) as H1.
  { destruct minV; cbn in *; [lia|]. case_bool_decide; lia. }
  assert (default (if bool_decide (inc > 0) then 2 ^ 63 - 1 else -1) maxV ≤ 2 ^ 63 - 1) as H2.
  { destruct maxV; cbn in *; [lia|]. case_bool_decide; lia. }
  split; cbn; unfold INT64_MIN, INT64_MAX; lia.
Qed.

(** ** The reference *)

(** How many values there are from [v] to the bound ahead. *)
Definition values_from (d : SequenceData) (v : Z) : Z :=
  (if decide (0 < increment d) then maxValue d - v else v - minValue d) / Z.abs (increment d) + 1.

(** Where a sequence that cycles starts again. *)
Definition restart (d : SequenceData) : Z := if decide (0 < increment d) then minValue d else maxValue d.

(** The [i]-th value of a sequence, from 0. *)
Definition value_at (d : SequenceData) (i : Z) : Z :=
  let first := values_from d (startValue d) in
  if decide (i < first) then startValue d + increment d * i
  else restart d + increment d * ((i - first) mod values_from d (restart d)).

(** The sequence [d] after it handed out [n] values. *)
Definition after (d : SequenceData) (n : Z) : SequenceData := set_current (value_at d (Z.max 0 (n - 1))) n d.

Definition end_of (name : string) (d : SequenceData) : exn := Exn CatalogException
  ("nextval: reached " +:+ (if decide (increment d < 0) then "minimum" else "maximum") +:+
   " value of sequence " +:+ dquote +:+ name +:+ dquote +:+ " " +:+
   pretty (if decide (increment d < 0) then minValue d else maxValue d)).

(** The sum if it is between the bounds. *)
Definition following (d : SequenceData) (v : Z) : option Z :=
  let n := v + increment d in
  if decide (minValue d ≤ n ≤ maxValue d) then Some n
  else if cycle d then Some (restart d) else None.

(** ** One step *)

Lemma next_value_following tc name d : sequence_wf d →
  next_value tc name d =
    match following d (seq_currVal d) with Some v => Ok v | None => Throw (end_of name d) end.
Proof.
  intros [Hb Hc [Hi Hn]]. unfold next_value, following, restart, end_of, Add.
  rewrite AddInPlace_exact by
    (unfold in_type, minimum, maximum; cbn; unfold INT64_MIN, INT64_MAX in *; lia).
  unfold in_type, minimum, maximum. cbn [bits isSigned]. unfold INT64_MIN, INT64_MAX in *.
  unfold reached, throw, or_overflow.
  set (n := seq_currVal d + increment d).
  destruct (decide (- 2 ^ (64 - 1) ≤ n ≤ _)) as [Hin|Hin].
  - destruct (decide (minValue d ≤ n ≤ maxValue d)) as [Hw|Hw].
    + rewrite (bool_decide_eq_false_2 (n < _)), (bool_decide_eq_false_2 (n > _)) by lia. by destruct (cycle d).
    + destruct (decide (0 < increment d)) as [Hp|Hp].
      * rewrite (bool_decide_eq_false_2 (n < _)), (bool_decide_eq_true_2 (n > _)) by (unfold n in *; lia).
        rewrite !(decide_False (P := increment d < 0)) by lia. by destruct (cycle d).
      * rewrite (bool_decide_eq_true_2 (n < _)) by (unfold n in *; lia).
        rewrite !(decide_True (P := increment d < 0)) by lia. by destruct (cycle d).
  - rewrite (decide_False (P := _ ∧ n ≤ _)) by lia. cbn [throw exn_kind]. rewrite decide_True by done.
    destruct (decide (0 < increment d)) as [Hp|Hp].
    + rewrite bool_decide_eq_false_2, bool_decide_eq_true_2, !(decide_False (P := increment d < 0)) by lia.
      by destruct (cycle d).
    + rewrite bool_decide_eq_true_2, !(decide_True (P := increment d < 0)) by lia. by destruct (cycle d).
Qed.

Section Progression.
Context (d : SequenceData) (Hwf : sequence_wf d).

(** From [b] the values stay within the bounds exactly as long as they are counted. *)
Lemma run_within b r : minValue d ≤ b ≤ maxValue d → 0 ≤ r < values_from d b →
  minValue d ≤ b + increment d * r ≤ maxValue d.
Proof.
  destruct Hwf as [_ _ [_ Hn]]. intros Hb Hr. unfold values_from in Hr. case_decide.
  - rewrite Z.abs_eq in Hr by lia. pose proof (Z.mul_div_le (maxValue d - b) (increment d)). nia.
  - rewrite Z.abs_neq in Hr by lia. pose proof (Z.mul_div_le (b - minValue d) (- increment d)). nia.
Qed.

Lemma run_ends b : minValue d ≤ b ≤ maxValue d →
  ¬ (minValue d ≤ b + increment d * values_from d b ≤ maxValue d).
Proof.
  destruct Hwf as [_ _ [_ Hn]]. intros Hb. unfold values_from. case_decide.
  - rewrite Z.abs_eq by lia. pose proof (Z.mul_succ_div_gt (maxValue d - b) (increment d)). nia.
  - rewrite Z.abs_neq by lia. pose proof (Z.mul_succ_div_gt (b - minValue d) (- increment d)). nia.
Qed.

Lemma values_from_pos b : minValue d ≤ b ≤ maxValue d → 0 < values_from d b.
Proof.
  destruct Hwf as [_ _ [_ Hn]]. intros Hb. unfold values_from.
  enough (0 ≤ (if decide (0 < increment d) then maxValue d - b else b - minValue d) / Z.abs (increment d)) by lia.
  apply Z.div_pos; [case_decide; lia|lia].
Qed.

Lemma restart_within : minValue d ≤ restart d ≤ maxValue d.
Proof. destruct Hwf as [_ Hc _]. unfold restart. case_decide; lia. Qed.

(** A value inside a run is followed by the next, the last one by the other bound. *)
Lemma following_run b r : minValue d ≤ b ≤ maxValue d → 0 ≤ r < values_from d b →
  following d (b + increment d * r) =
    if decide (r + 1 < values_from d b) then Some (b + increment d * (r + 1))
    else if cycle d then Some (restart d) else None.
Proof.
  intros Hb Hr. unfold following. replace (_ + _ + _) with (b + increment d * (r + 1)) by lia.
  destruct (decide (r + 1 < _)) as [Hlt|Hlt].
  - rewrite decide_True by (apply run_within; [done|lia]). done.
  - rewrite decide_False; [done|]. replace (r + 1) with (values_from d b) by lia. by apply run_ends.
Qed.

Hypothesis Hstart : seq_currVal d = startValue d.

Lemma start_within : minValue d ≤ startValue d ≤ maxValue d.
Proof. destruct Hwf as [_ Hc _]. by rewrite <- Hstart. Qed.

Lemma restart_mod i : 0 < values_from d (restart d) → 0 ≤ i mod values_from d (restart d) < values_from d (restart d).
Proof. intros. by apply Z.mod_pos_bound. Qed.

Lemma value_at_within i : 0 ≤ i → minValue d ≤ value_at d i ≤ maxValue d.
Proof.
  intros Hi. unfold value_at. case_decide.
  - apply run_within; [apply start_within|lia].
  - apply run_within; [apply restart_within|]. apply restart_mod, values_from_pos, restart_within.
Qed.

Lemma following_value_at i : 0 ≤ i → (cycle d = true ∨ i < values_from d (startValue d)) →
  following d (value_at d i) =
    if decide (cycle d = true ∨ i + 1 < values_from d (startValue d)) then Some (value_at d (i + 1)) else None.
Proof.
  intros Hi Hlive. unfold value_at. set (first := values_from d (startValue d)) in *.
  set (lap := values_from d (restart d)).
  assert (0 < lap) as Hlap by (apply values_from_pos, restart_within).
  destruct (decide (i < first)).
  - rewrite following_run by (apply start_within || (fold first; lia)). fold first.
    destruct (decide (i + 1 < first)).
    + rewrite decide_True by tauto. done.
    + replace (i + 1 - first) with 0 by lia. rewrite Z.mod_0_l, Z.mul_0_r, Z.add_0_r by lia.
      destruct (cycle d); [rewrite decide_True by tauto|rewrite decide_False by naive_solver lia]; done.
  - destruct Hlive as [Hc|]; [|lia]. rewrite (decide_True (P := _ ∨ _)) by tauto.
    pose proof (restart_mod (i - first) Hlap) as Hr. fold lap in Hr.
    rewrite following_run by (apply restart_within || done). fold lap. rewrite Hc.
    rewrite (decide_False (P := i + 1 < first)) by lia. replace (i + 1 - first) with (i - first + 1) by lia.
    destruct (decide (_ < lap)) as [Hlt|Hlt].
    + rewrite <- (Zplus_mod_idemp_l (i - first)), (Z.mod_small (_ + 1)) by lia. done.
    + rewrite <- (Zplus_mod_idemp_l (i - first)). replace (_ mod lap + 1) with lap by lia.
      rewrite Z.mod_same, Z.mul_0_r, Z.add_0_r by lia. done.
Qed.

(** ** Calls *)

Lemma after_0 : usageCount d = 0 → after d 0 = d.
Proof.
  intros Hu. unfold after, value_at. rewrite decide_True; [|apply values_from_pos, start_within].
  rewrite Z.mul_0_r, Z.add_0_r, <- Hstart. destruct d; cbn in *. by subst.
Qed.

(** Whether [n] values can be had from the sequence in all. *)
Definition enough (n : Z) : Prop := cycle d = true ∨ n ≤ values_from d (startValue d).
#[export] Instance enough_dec n : Decision (enough n).
Proof. unfold enough. apply _. Defined.

Lemma after_wf n : sequence_wf (after d n).
Proof. destruct Hwf as [Hb _ Hi]. split; cbn; [done| |done]. apply value_at_within. lia. Qed.

Lemma nextVal_after tc name n : 0 ≤ n → n + 1 < 2 ^ 64 → enough n →
  nextValNoLock tc name (after d n) =
    if decide (enough (n + 1)) then (after d (n + 1), Ok ()) else (after d n, Throw (end_of name d)).
Proof.
  intros Hn Hmax He. unfold nextValNoLock. cbn [usageCount after set_current].
  destruct (decide (n = 0)) as [->|H0].
  - rewrite bool_decide_eq_true_2, decide_True; [done| |done].
    right. pose proof (values_from_pos _ start_within). lia.
  - rewrite bool_decide_eq_false_2 by done.
    rewrite next_value_following by apply after_wf.
    change (following (after d n)) with (following d). cbn [seq_currVal after set_current].
    rewrite Z.max_r, following_value_at by (unfold enough in He; naive_solver lia).
    replace (n - 1 + 1) with n by lia.
    unfold enough. destruct (decide (_ ∨ n < _)) as [Hc|Hc].
    + rewrite decide_True by naive_solver lia. unfold after, set_current. cbn.
      rewrite Z.max_r by lia. replace (n + 1 - 1) with n by lia. rewrite wrap_id by (unfold in_u; lia). done.
    + rewrite decide_False by naive_solver lia. done.
Qed.

Lemma nextVals_after tc name count : ∀ n, 0 ≤ n → n + Z.of_nat count < 2 ^ 64 → enough n →
  nextVals tc name count (after d n) =
    if decide (enough (n + Z.of_nat count))
    then (after d (n + Z.of_nat count), Ok (value_at d <$> seqZ n (Z.of_nat count)))
    else (after d (values_from d (startValue d)), Throw (end_of name d)).
Proof.
  induction count as [|count IH]; intros n Hn Hmax He; cbn [nextVals].
  - rewrite Z.add_0_r, decide_True by done. done.
  - st_run. rewrite nextVal_after by (done || lia).
    destruct (decide (enough (n + 1))) as [He1|He1].
    + st_run. rewrite IH by (done || lia).
      replace (n + 1 + Z.of_nat count) with (n + Z.of_nat (S count)) by lia.
      destruct (decide (enough _)); [|done]. st_run. do 2 f_equal.
      rewrite (seqZ_cons n) by lia. cbn. rewrite Z.max_r by lia.
      replace (n + 1 - 1) with n by lia. replace (Z.pred (Z.of_nat (S count))) with (Z.of_nat count) by lia.
      done.
    + rewrite decide_False by (unfold enough in *; naive_solver lia).
      clear IH. do 2 f_equal. unfold enough in *. destruct (cycle d); [naive_solver|].
      destruct He as [|He]; [done|]. lia.
Qed.
End Progression.

(** C30: A sequence that CREATE SEQUENCE accepted, asked for [count] values after [n] were
    handed out, returns values number [n] to [n + count - 1] of the closed form, all
    between its bounds, with the record that takes it back to where it was; a sequence that
    does not cycle and has fewer left throws and stays at its last value.  It does not
    matter how the values are split over calls, which is what the replay of the logged
    counts relies on, nor which addition the compiler provides. *)
Theorem sequence_values tc name inc minV maxV start cyc info n count :
  INT64_MIN ≤ inc ≤ INT64_MAX → in64 minV → in64 maxV → in64 start →
  bindCreateSequence inc minV maxV start cyc = Ok info →
  let d := newSequence info in
  let undo := mkRollback n (seq_currVal (after d n)) in
  0 ≤ n → n + Z.of_nat count < 2 ^ 64 → enough d n →
  after d 0 = d ∧
  nextKVal tc name count (after d n) =
    (if decide (enough d (n + Z.of_nat count))
     then (after d (n + Z.of_nat count), Ok (value_at d <$> seqZ n (Z.of_nat count), undo))
     else (after d (values_from d (startWith info)), Throw (end_of name d))) ∧
  Forall (λ v, minValue d ≤ v ≤ maxValue d) (value_at d <$> seqZ n (Z.of_nat count)) ∧
  rollbackVal undo (after d (n + Z.of_nat count)) = after d n.
Proof.
  intros Hi Hmin Hmax Hst Hbind d undo Hn Hcount He.
  assert (sequence_wf d) as Hwf by exact (bound_sequence_wf _ _ _ _ _ _ Hi Hmin Hmax Hst Hbind).
  split_and!.
  - by apply after_0.
  - unfold nextKVal. st_run. rewrite nextVals_after by done.
    by destruct (decide _); st_run.
  - apply Forall_fmap, Forall_forall. intros i Hin%elem_of_seqZ.
    apply value_at_within; [done..|lia].
  - done.
Qed.

(** A sequence of five steps of -3 that cycles, asked for four values after the second. *)
Lemma sequence_values_witness :
  let d := newSequence (mkSequenceInfo 7 (-3) 0 10 true) in
  (nextKVal OtherCompiler "s" 4 (after d 2)).2 = Ok ([1; 10; 7; 4], mkRollback 2 4) ∧
  value_at d <$> seqZ 0 6 = [7; 4; 1; 10; 7; 4].
Proof.
  set (info := mkSequenceInfo 7 (-3) 0 10 true). intros d.
  assert (bindCreateSequence (-3) (Some 0) (Some 10) (Some 7) true = Ok info) as Hbind by reflexivity.
  destruct (sequence_values OtherCompiler "s" (-3) (Some 0) (Some 10) (Some 7) true info 2 4)
    as (_ & Hcall & _); [by vm_compute..|exact Hbind|done|done|by left|].
  split; [|reflexivity]. unfold d. rewrite Hcall, decide_True by (by left). reflexivity.
Defined.

(** ** Rolling back *)

Definition counter : SequenceData := newSequence (mkSequenceInfo 1 1 1 3 false).

(** Two transactions take a value each, the first rolls back: its record also takes back
    the value of the second, which is handed out again. *)
Example rollback_hands_out_again :
  let '(d1, r1) := nextKVal GnuOrClang "s" 1 counter in
  let '(d2, r2) := nextKVal GnuOrClang "s" 1 d1 in
  (fst <$> r2 = Ok [2]) ∧
  match r1 with
  | Ok (_, undo) => fst <$> (nextKVal GnuOrClang "s" 2 (rollbackVal undo d2)).2 = Ok [1; 2]
  | _ => False
  end.
Proof. by vm_compute. Qed.

(** A call that asks for more values than are left throws, and has used up the rest
    without leaving a record to undo. *)
Example failed_call_uses_up :
  let '(d, r) := nextKVal GnuOrClang "s" 5 counter in
  (∃ e, r = Throw e) ∧ usageCount d = 3 ∧ seq_currVal d = 3.
Proof. vm_compute. eauto. Qed.
