(* ===== verification/Timestamp.v ===== *)
(** * Timestamps (common/types/timestamp_t.{h,cpp})

    A [timestamp_t] is a number of microseconds since 1970-01-01 ([int64_t]).  The
    comparisons of dates with timestamps (common/types/date_t.cpp) are here too. *)

From S2P Require Import Prelude.
From S2P Require Import Interval.
From S2P Require Import Date.
From S2P Require Import DTime.
From S2P Require Import Arithmetic.
From Stdlib Require Import Ascii String.
From stdpp Require Import pretty.
#[local] Open Scope Z_scope.

Record timestamp_t : Type := mkTimestamp { value : Z }.

#[export] Instance timestamp_eq_dec : EqDecision timestamp_t.
Proof. solve_decision. Defined.

Definition ts_eq (a b : timestamp_t) : bool := value a =? value b.
Definition ts_ne (a b : timestamp_t) : bool := negb (value a =? value b).
Definition ts_le (a b : timestamp_t) : bool := value a <=? value b.
Definition ts_lt (a b : timestamp_t) : bool := value a <? value b.
Definition ts_gt (a b : timestamp_t) : bool := value b <? value a.
Definition ts_ge (a b : timestamp_t) : bool := value b <=? value a.

(** ** Splitting into a date and a time of day *)

Definition b2z (b : bool) : Z := if b then 1 else 0.

(** [getDate]: truncating division turned into flooring by the two corrections. *)
Definition getDate (t : timestamp_t) : date_t :=
  let neg := b2z (value t <? 0) in
  mkDate (swrap 32 (Z.quot (value t + neg) MICROS_PER_DAY - neg)).

Definition getTime (t : timestamp_t) : result dtime_t :=
  p ← signed 64 (days (getDate t) * MICROS_PER_DAY);
  us ← signed 64 (value t - p);
  Ok (mkTime us).

Definition ts_convert (t : timestamp_t) : result (date_t * dtime_t) :=
  time ← getTime t; Ok (getDate t, time).

(** [fromDateTime]: the fields it extracts are not used, but extracting them reads
    the calendar tables. *)
Definition fromDateTime (date : date_t) (time : dtime_t) : result timestamp_t :=
  _ ← convert date;
  p ← signed 64 (days date * MICROS_PER_DAY);
  v ← signed 64 (p + micros time);
  Ok (mkTimestamp v).

(** ** Arithmetic *)

Definition ts_add (t : timestamp_t) (i : interval_t) : result timestamp_t :=
  '(date, time) ← ts_convert t;
  date ← date_add date i;
  let diff := imicros i - Z.quot (imicros i) MICROS_PER_DAY * MICROS_PER_DAY in
  let us := micros time + diff in
  if MICROS_PER_DAY <=? us then
    date ← date_add_days date 1; fromDateTime date (mkTime (us - MICROS_PER_DAY))
  else if us <? 0 then
    date ← date_sub_days date 1; fromDateTime date (mkTime (us + MICROS_PER_DAY))
  else fromDateTime date (mkTime us).

Definition ts_sub (t : timestamp_t) (i : interval_t) : result timestamp_t :=
  inverseRight ← interval_neg i; ts_add t inverseRight.

(** [timestamp - timestamp]: [std::abs] of an [int64_t], stored as unsigned. *)
Definition ts_diff (a b : timestamp_t) : result interval_t :=
  d ← signed 64 (value a - value b);
  diff ← signed 64 (Z.abs d);
  let ds := swrap 32 (diff / MICROS_PER_DAY) in
  let us := diff mod MICROS_PER_DAY in
  Ok (if value a <? value b then mkInterval 0 (- ds) (- us) else mkInterval 0 ds us).

(** ** Comparison with dates *)

Definition date_eq_ts (d : date_t) (t : timestamp_t) : result bool :=
  x ← fromDateTime d (mkTime 0); Ok (value x =? value t).
Definition date_ne_ts (d : date_t) (t : timestamp_t) : result bool :=
  b ← date_eq_ts d t; Ok (negb b).
Definition date_lt_ts (d : date_t) (t : timestamp_t) : result bool :=
  x ← fromDateTime d (mkTime 0); Ok (value x <? value t).
Definition date_le_ts (d : date_t) (t : timestamp_t) : result bool :=
  lt ← date_lt_ts d t; if (lt : bool) then Ok true else date_eq_ts d t.
Definition date_gt_ts (d : date_t) (t : timestamp_t) : result bool :=
  b ← date_le_ts d t; Ok (negb b).
Definition date_ge_ts (d : date_t) (t : timestamp_t) : result bool :=
  b ← date_lt_ts d t; Ok (negb b).

Definition ts_eq_date (t : timestamp_t) (d : date_t) : result bool := date_eq_ts d t.
Definition ts_ne_date (t : timestamp_t) (d : date_t) : result bool :=
  b ← date_eq_ts d t; Ok (negb b).
Definition ts_lt_date (t : timestamp_t) (d : date_t) : result bool := date_gt_ts d t.
Definition ts_le_date (t : timestamp_t) (d : date_t) : result bool := date_ge_ts d t.
Definition ts_gt_date (t : timestamp_t) (d : date_t) : result bool := date_lt_ts d t.
Definition ts_ge_date (t : timestamp_t) (d : date_t) : result bool := date_le_ts d t.

(** ** Epochs *)

(** The second factor is a [const int64_t]: the calls below select the primary template of
    [Multiply::operation], which does not check for overflow. *)
Definition fromEpochMicroSeconds (us : Z) : timestamp_t := mkTimestamp us.
Definition fromEpochMilliSeconds (ms : Z) : result timestamp_t :=
  us ← Multiply_unchecked ms MICROS_PER_MSEC; Ok (fromEpochMicroSeconds us).
Definition fromEpochSeconds (sec : Z) : result timestamp_t :=
  us ← Multiply_unchecked sec MICROS_PER_SEC; Ok (fromEpochMicroSeconds us).
Definition fromEpochNanoSeconds (ns : Z) : timestamp_t :=
  fromEpochMicroSeconds (Z.quot ns 1000).

Definition ts_getEpochNanoSeconds (t : timestamp_t) : result Z :=
  Multiply_unchecked (value t) NANOS_PER_MICRO.
Definition getEpochMilliSeconds (t : timestamp_t) : Z := Z.quot (value t) MICROS_PER_MSEC.
Definition getEpochSeconds (t : timestamp_t) : Z := Z.quot (value t) MICROS_PER_SEC.

(** ** Parts *)

Definition getTimestampPart (specifier : DatePartSpecifier) (t : timestamp_t) : result Z :=
  let part f := time ← getTime t; Ok (swrap 32 (f (micros time))) in
  match specifier with
  | MICROSECOND => part (λ us, Z.rem us MICROS_PER_MINUTE)
  | MILLISECOND =>
      us ← part (λ us, Z.rem us MICROS_PER_MINUTE); Ok (Z.quot us MICROS_PER_MSEC)
  | SECOND => us ← part (λ us, Z.rem us MICROS_PER_MINUTE); Ok (Z.quot us MICROS_PER_SEC)
  | MINUTE => part (λ us, Z.quot (Z.rem us MICROS_PER_HOUR) MICROS_PER_MINUTE)
  | HOUR => part (λ us, Z.quot us MICROS_PER_HOUR)
  | _ => getDatePart specifier (getDate t)
  end.

Definition ts_trunc (specifier : DatePartSpecifier) (t : timestamp_t) : result timestamp_t :=
  '(date, time) ← ts_convert t;
  let '(hour, min, sec, us) := time_convert time in
  let at_time h m s u := x ← fromTime h m s u; fromDateTime date x in
  match specifier with
  | MICROSECOND => Ok t
  | MILLISECOND => at_time hour min sec (us - Z.rem us MICROS_PER_MSEC)
  | SECOND => at_time hour min sec 0
  | MINUTE => at_time hour min 0 0
  | HOUR => at_time hour 0 0 0
  | _ => d ← date_trunc specifier (getDate t); fromDateTime d (mkTime 0)
  end.

(** ** Text *)

(** [tryParseUTCOffset] on the text from [pos]: hours, minutes and the rest. *)
Definition tryParseUTCOffset (l : list ascii) : option (Z * Z * list ascii) :=
  match l with
  | sign_char :: h1 :: h2 :: l =>
      if negb (Ascii.eqb sign_char "+") && negb (Ascii.eqb sign_char "-") then None
      else if negb (CharacterIsDigit h1) || negb (CharacterIsDigit h2) then None
      else
        let neg z := if Ascii.eqb sign_char "-" then - z else z in
        let hour_offset := neg (digit_value h1 * 10 + digit_value h2) in
        match l with
        | [] => Some (hour_offset, 0, [])
        | c :: l' =>
            let l := if Ascii.eqb c ":" then l' else l in
            match l with
            | m1 :: m2 :: l' =>
                if negb (CharacterIsDigit m1) || negb (CharacterIsDigit m2)
                then Some (hour_offset, 0, l)
                else Some (hour_offset, neg (digit_value m1 * 10 + digit_value m2), l')
            | _ => Some (hour_offset, 0, l)
            end
        end
  | _ => None
  end.

Definition tryConvertTimestamp (str : list ascii) : result (option timestamp_t) :=
  r ← tryConvertDate true str;
  match r with
  | None => Ok None
  | Some (date, l) =>
      match l with
      | [] => t ← fromDateTime date (mkTime 0); Ok (Some t)
      | c :: l' =>
          let l := if Ascii.eqb c " " || Ascii.eqb c "T" then l' else l in
          r ← time_tryConvertTime l;
          match r with
          | None => Ok None
          | Some (time, l) =>
              t ← fromDateTime date time;
              match l with
              | [] => Ok (Some t)
              | c :: l' =>
                  let l := if Ascii.eqb c "Z" then l' else l in
                  '(t, l) ← match tryParseUTCOffset l with
                            | Some (hour_offset, minute_offset, l) =>
                                v ← signed 64 (value t - (hour_offset * MICROS_PER_HOUR +
                                                          minute_offset * MICROS_PER_MINUTE));
                                Ok (mkTimestamp v, l)
                            | None => Ok (t, l)
                            end;
                  match skip_spaces l with
                  | [] => Ok (Some t)
                  | _ :: _ => Ok None
                  end
              end
          end
      end
  end.

Definition ts_fromCString (str : list ascii) : result timestamp_t :=
  r ← tryConvertTimestamp str;
  match r with
  | Some t => Ok t
  | None => throw ConversionException
      ("Error occurred during parsing TIMESTAMP. Given: " +:+ dquote +:+
       string_of_list_ascii str +:+ dquote +:+
       ". Expected format: (YYYY-MM-DD hh:mm:ss[.zzzzzz][+-TT[:tt]])")
  end.
