(* ===== verification/TimestampTheorems.v ===== *)
(** * Properties of times of day and timestamps

    A timestamp is a day number and a time of day, counted by flooring division, on
    both sides of the epoch; differences and additions are exact. *)

From S2P Require Import Prelude.
From S2P Require Import Interval.
From S2P Require Import Date.
From S2P Require Import DateFacts.
From S2P Require Import DateTheorems.
From S2P Require Import DTime.
From S2P Require Import Timestamp.

(** Evaluate the unit constants and the machine ranges. *)
Ltac units :=
  change MICROS_PER_DAY with 86400000000 in *; change MICROS_PER_HOUR with 3600000000 in *;
  change MICROS_PER_MINUTE with 60000000 in *; change MICROS_PER_SEC with 1000000 in *;
  change MICROS_PER_MONTH with 2592000000000 in *; change MICROS_PER_MSEC with 1000 in *;
  change MINS_PER_HOUR with 60 in *; change SECS_PER_MINUTE with 60 in *;
  unfold in_s in *; change (2 ^ (64 - 1)) with 9223372036854775808 in *;
  change (2 ^ (32 - 1)) with 2147483648 in *.

(** The timestamps whose day starts in the range of the type. *)
Definition ts_range (v : Z) : Prop := -106751991 * 86400000000 ≤ v < 2 ^ 63.
Definition time_range (us : Z) : Prop := 0 ≤ us < 86400000000.

Lemma signed64_ok z : - 9223372036854775808 ≤ z < 9223372036854775808 → signed 64 z = Ok z.
Proof. intros Hz. apply signed_ok. units. lia. Qed.
Lemma signed32_ok z : - 2147483648 ≤ z < 2147483648 → signed 32 z = Ok z.
Proof. intros Hz. apply signed_ok. units. lia. Qed.
Lemma swrap32_id z : - 2147483648 ≤ z < 2147483648 → swrap 32 z = z.
Proof. intros Hz. apply swrap_id; [done|]. units. lia. Qed.

(** ** Splitting *)

Lemma day_split v : 86400000000 * (v / 86400000000) ≤ v < 86400000000 * (v / 86400000000) + 86400000000.
Proof.
  pose proof (Z.div_mod v 86400000000 ltac:(done)). pose proof (Z.mod_pos_bound v 86400000000 ltac:(done)).
  lia.
Qed.

Lemma getDate_floor v : in_s 64 v → getDate (mkTimestamp v) = mkDate (v / 86400000000).
Proof.
  intros Hv. unfold getDate, b2z. cbn [value]. units. pose proof (day_split v).
  assert (Z.quot (v + (if v <? 0 then 1 else 0)) 86400000000 - (if v <? 0 then 1 else 0) =
          v / 86400000000) as ->.
  { destruct (Z.ltb_spec v 0).
    - assert (Z.quot (v + 1) 86400000000 = v / 86400000000 + 1); [|lia].
      rewrite <- (Z.opp_involutive (v + 1)), Z.quot_opp_l by done. rewrite Z.quot_div_nonneg by lia.
      assert (- (v + 1) / 86400000000 = - (v / 86400000000) - 1); [|lia].
      symmetry. apply Z.div_unique with (86400000000 - 1 - v mod 86400000000).
      + pose proof (Z.mod_pos_bound v 86400000000 ltac:(done)). lia.
      + pose proof (Z.div_mod v 86400000000 ltac:(done)). lia.
    - rewrite Z.add_0_r, Z.sub_0_r. by rewrite Z.quot_div_nonneg by lia. }
  rewrite swrap32_id; [done|]. lia.
Qed.

Lemma ts_convert_spec v :
  ts_range v →
  ts_convert (mkTimestamp v) = Ok (mkDate (v / 86400000000), mkTime (v mod 86400000000)).
Proof.
  unfold ts_range. intros Hv. unfold ts_convert, getTime.
  rewrite getDate_floor by (units; lia). cbn [days value]. units.
  pose proof (day_split v). pose proof (Z.div_mod v 86400000000 ltac:(done)) as E.
  rewrite signed64_ok by lia. cbn [mbind result_bind]. rewrite signed64_ok by lia.
  cbn [mbind result_bind]. do 3 f_equal. lia.
Qed.

Lemma fromDateTime_spec n us :
  in_s 64 (n * 86400000000) → in_s 64 (n * 86400000000 + us) →
  fromDateTime (mkDate n) (mkTime us) = Ok (mkTimestamp (n * 86400000000 + us)).
Proof.
  intros H1 H2. unfold fromDateTime.
  destruct (convert_spec n) as (y & m & d & -> & _). cbn [mbind result_bind days micros].
  units. do 2 (rewrite signed64_ok by done; cbn [mbind result_bind]). done.
Qed.

Lemma fromDateTime_range n us :
  time_range us → ts_range (n * 86400000000 + us) →
  fromDateTime (mkDate n) (mkTime us) = Ok (mkTimestamp (n * 86400000000 + us)).
Proof. unfold time_range, ts_range. intros. apply fromDateTime_spec; units; lia. Qed.

(** ** Times of day *)

Definition time_fields (h mi s us : Z) : Prop :=
  0 ≤ h < 24 ∧ 0 ≤ mi < 60 ∧ 0 ≤ s < 60 ∧ 0 ≤ us < 1000000.
Definition time_number (h mi s us : Z) : Z := ((h * 60 + mi) * 60 + s) * 1000000 + us.

#[export] Instance time_fields_dec h mi s us : Decision (time_fields h mi s us).
Proof. unfold time_fields. apply _. Defined.

Lemma time_isValid_spec h mi s us : time_isValid h mi s us = bool_decide (time_fields h mi s us).
Proof.
  apply eq_true_iff_eq. rewrite bool_decide_eq_true. unfold time_isValid, time_fields.
  rewrite negb_true_iff, !orb_false_iff, !Z.ltb_ge. lia.
Qed.

Lemma fromTimeInternal_spec h mi s us :
  0 ≤ h < 2000000000 → 0 ≤ mi < 60 → 0 ≤ s < 60 → 0 ≤ us < 1000000 →
  fromTimeInternal h mi s us = Ok (mkTime (time_number h mi s us)).
Proof.
  intros. unfold fromTimeInternal, time_number. units.
  do 3 (rewrite signed64_ok by lia; cbn [mbind result_bind]). done.
Qed.

Lemma time_convert_spec h mi s us :
  0 ≤ h < 2000000000 → 0 ≤ mi < 60 → 0 ≤ s < 60 → 0 ≤ us < 1000000 →
  time_convert (mkTime (time_number h mi s us)) = (h, mi, s, us).
Proof.
  intros. unfold time_convert, time_number. cbn [micros]. units.
  assert (∀ q d r, 0 < d → 0 ≤ q → 0 ≤ r < d → Z.quot (q * d + r) d = q) as Q.
  { intros q d r Hd Hq Hr. rewrite Z.quot_div_nonneg by nia. symmetry.
    apply Z.div_unique with r; lia. }
  replace (((h * 60 + mi) * 60 + s) * 1000000 + us)
    with (h * 3600000000 + ((mi * 60 + s) * 1000000 + us)) by lia.
  rewrite (Q h) by lia. rewrite swrap32_id by lia.
  replace (h * 3600000000 + ((mi * 60 + s) * 1000000 + us) - h * 3600000000)
    with (mi * 60000000 + (s * 1000000 + us)) by lia.
  rewrite (Q mi) by lia. rewrite swrap32_id by lia.
  replace (mi * 60000000 + (s * 1000000 + us) - mi * 60000000) with (s * 1000000 + us) by lia.
  rewrite (Q s) by lia. rewrite !swrap32_id by lia. repeat f_equal. lia.
Qed.

(** Every microsecond of the day has fields. *)
Lemma time_number_surj t :
  time_range t → ∃ h mi s us, time_fields h mi s us ∧ t = time_number h mi s us.
Proof.
  unfold time_range, time_fields, time_number. intros Ht.
  exists (t / 1000000 / 60 / 60), (t / 1000000 / 60 mod 60), (t / 1000000 mod 60), (t mod 1000000).
  pose proof (Z.div_mod t 1000000 ltac:(done)) as E1.
  pose proof (Z.div_mod (t / 1000000) 60 ltac:(done)) as E2.
  pose proof (Z.div_mod (t / 1000000 / 60) 60 ltac:(done)) as E3.
  pose proof (Z.mod_pos_bound t 1000000 ltac:(done)).
  pose proof (Z.mod_pos_bound (t / 1000000) 60 ltac:(done)).
  pose proof (Z.mod_pos_bound (t / 1000000 / 60) 60 ltac:(done)).
  lia.
Qed.

Lemma time_number_range h mi s us : time_fields h mi s us → time_range (time_number h mi s us).
Proof. unfold time_fields, time_range, time_number. lia. Qed.

Lemma fromTime_spec h mi s us :
  time_fields h mi s us → fromTime h mi s us = Ok (mkTime (time_number h mi s us)).
Proof.
  intros Hf. unfold fromTime. rewrite time_isValid_spec, bool_decide_true by done. cbn [negb].
  unfold time_fields in Hf. apply fromTimeInternal_spec; lia.
Qed.

Lemma day_of n us : time_range us → (n * 86400000000 + us) / 86400000000 = n.
Proof. unfold time_range. intros. symmetry. apply Z.div_unique with us; lia. Qed.
Lemma time_of n us : time_range us → (n * 86400000000 + us) mod 86400000000 = us.
Proof. unfold time_range. intros. symmetry. apply Z.mod_unique with n; lia. Qed.

(** ** Addition *)

Lemma quot_rem_day us : Z.quot us 86400000000 * 86400000000 + (us - Z.quot us 86400000000 * 86400000000) = us.
Proof. lia. Qed.

Lemma rem_day_bound us :
  -86400000000 < us - Z.quot us 86400000000 * 86400000000 < 86400000000.
Proof.
  pose proof (Z.quot_rem' us 86400000000). pose proof (Z.rem_bound_abs us 86400000000 ltac:(done)).
  lia.
Qed.

(** Adding whole days, in the three guarded steps of the code. *)
Lemma date_add_day_part n d us :
  in_s 32 n → in_s 32 (n + d) → in_s 32 (n + d + Z.quot us 86400000000) →
  in_s 32 (Z.quot us 86400000000) →
  date_add (mkDate n) (mkInterval 0 d us) = Ok (mkDate (n + d + Z.quot us 86400000000)).
Proof.
  intros Hn Hd Hs Hq. unfold date_add. cbn [months idays imicros]. rewrite Z.eqb_refl.
  cbn [negb mbind result_bind]. unfold date_add_days. cbn [days].
  assert ((if negb (d =? 0) then s ← signed 32 (n + d); Ok (mkDate s) else Ok (mkDate n)) =
          Ok (mkDate (n + d))) as ->.
  { destruct (Z.eqb_spec d 0) as [->|]; cbn [negb]; [by rewrite Z.add_0_r|].
    by rewrite signed_ok by done. }
  cbn [mbind result_bind days]. destruct (Z.eqb_spec us 0) as [->|]; cbn [negb].
  - rewrite Z.quot_0_l by done. by rewrite Z.add_0_r.
  - units. rewrite swrap32_id by done. by rewrite signed32_ok by done.
Qed.

Lemma ts_add_days_micros v d us :
  ts_range v → in_s 32 d → in_s 64 us → ts_range (v + d * 86400000000 + us) →
  ts_add (mkTimestamp v) (mkInterval 0 d us) = Ok (mkTimestamp (v + d * 86400000000 + us)).
Proof.
  intros Hv Hd Hus Hr. unfold ts_add. rewrite ts_convert_spec by done.
  pose proof (day_split v) as Hs. pose proof (Z.div_mod v 86400000000 ltac:(done)) as Hdm.
  pose proof (Z.mod_pos_bound v 86400000000 ltac:(done)) as Hmb.
  pose proof (rem_day_bound us) as Hrem. units. cbn [mbind result_bind imicros].
  remember (v / 86400000000) as n eqn:En. remember (v mod 86400000000) as tm eqn:Et.
  remember (Z.quot us 86400000000) as q eqn:Eq.
  unfold ts_range in *. change (2 ^ 63) with 9223372036854775808 in *.
  rewrite date_add_day_part; rewrite <- ?Eq; try (units; lia). cbn [mbind result_bind micros].
  clear En Et Eq.
  destruct (Z.leb_spec 86400000000 (tm + (us - q * 86400000000))).
  - unfold date_add_days. cbn [days]. rewrite signed32_ok by lia. cbn [mbind result_bind].
    rewrite fromDateTime_range; [do 2 f_equal|unfold time_range|unfold ts_range]; lia.
  - destruct (Z.ltb_spec (tm + (us - q * 86400000000)) 0).
    + unfold date_sub_days. cbn [days]. rewrite signed32_ok by lia. cbn [mbind result_bind].
      rewrite fromDateTime_range; [do 2 f_equal|unfold time_range|unfold ts_range]; lia.
    + rewrite fromDateTime_range; [do 2 f_equal|unfold time_range|unfold ts_range]; lia.
Qed.

Lemma ts_diff_spec a b :
  in_s 64 (a - b) → - 2 ^ 63 < a - b →
  ts_diff (mkTimestamp a) (mkTimestamp b) =
  Ok (mkInterval 0 (Z.quot (a - b) 86400000000) (Z.rem (a - b) 86400000000)).
Proof.
  intros H1 H2. unfold ts_diff. cbn [value].
  assert (- 9223372036854775808 < a - b < 9223372036854775808) as Hb by (units; lia).
  clear H1 H2. rewrite signed64_ok by lia. cbn [mbind result_bind].
  rewrite signed64_ok by lia. cbn [mbind result_bind]. units.
  pose proof (day_split (Z.abs (a - b))).
  rewrite swrap32_id by lia. destruct (Z.ltb_spec a b).
  - rewrite <- (Z.opp_involutive (a - b)), Z.quot_opp_l, Z.rem_opp_l by done.
    rewrite Z.abs_opp, Z.abs_eq, Z.quot_div_nonneg, Z.rem_mod_nonneg by lia. done.
  - by rewrite Z.abs_eq, Z.quot_div_nonneg, Z.rem_mod_nonneg by lia.
Qed.

(** ** Truncation *)

Lemma mod_of_day v u k :
  0 < u → 86400000000 = u * k → 0 < k → (v mod 86400000000) mod u = v mod u.
Proof.
  intros Hu Hk Hk0. pose proof (Z.div_mod v 86400000000 ltac:(done)) as E.
  assert (∀ q, k * q * u = 86400000000 * q) as F by (intros q; rewrite Hk; lia).
  replace v with (v mod 86400000000 + k * (v / 86400000000) * u) at 2 by (rewrite F; lia).
  by rewrite Z.mod_add by lia.
Qed.

(** The units of [Timestamp::trunc] at most a day long. *)
Definition trunc_unit (p : DatePartSpecifier) : option Z :=
  match p with
  | MICROSECOND => Some 1 | MILLISECOND => Some 1000 | SECOND => Some 1000000
  | MINUTE => Some 60000000 | HOUR => Some 3600000000 | DAY => Some 86400000000
  | _ => None
  end.

Lemma time_trunc_mod h mi s us :
  time_fields h mi s us →
  time_number h mi s us mod 1000 = us - (us - us mod 1000) ∧
  time_number h mi s us mod 1000000 = us ∧
  time_number h mi s us mod 60000000 = s * 1000000 + us ∧
  time_number h mi s us mod 3600000000 = (mi * 60 + s) * 1000000 + us.
Proof.
  unfold time_fields, time_number. intros Hf. pose proof (Z.div_mod us 1000 ltac:(done)).
  pose proof (Z.mod_pos_bound us 1000 ltac:(done)). split_and!; symmetry.
  - apply Z.mod_unique with (((h * 60 + mi) * 60 + s) * 1000 + us / 1000); lia.
  - apply Z.mod_unique with ((h * 60 + mi) * 60 + s); lia.
  - apply Z.mod_unique with (h * 60 + mi); lia.
  - apply Z.mod_unique with h; lia.
Qed.

(** The year of [extractYearOffset] is the one of [convert]. *)
Lemma getDatePart_year date y m d :
  convert date = Ok (y, m, d) → getDatePart YEAR date = Ok y.
Proof.
  intros Ec. unfold getDatePart. rewrite Ec. cbn [mbind result_bind]. unfold convert, convert_build in Ec.
  destruct (extractYearOffset (days date)) as [[[n y'] k]| |]; try done.
  cbn [mbind result_bind] in *.
  repeat (match type of Ec with context [tbl ?l ?i] => destruct (tbl l i); [|done..] end;
          cbn [DASSERT mbind result_bind] in Ec).
  by injection Ec as -> _ _.
Qed.

(** The type holds the timestamps up to 294247-01-10 04:00:54.775807: building one of a
    later date of that year, which [fromDate] accepts, overflows. *)
Example last_timestamp :
  fromDate 294247 1 10 = Ok (mkDate 106751991) ∧
  fromDateTime (mkDate 106751991) (mkTime 14454775807) = Ok (mkTimestamp INT64_MAX) ∧
  fromDateTime (mkDate 106751991) (mkTime 14454775808) = UB ∧
  fromDate 294247 1 11 = Ok (mkDate 106751992) ∧
  fromDateTime (mkDate 106751992) (mkTime 0) = UB.
Proof. vm_compute. done. Qed.

(** ** The properties *)

(** C23: a timestamp built from a calendar date and a time of day is their number of
    microseconds, before or after 1970, and splits back into the same date, time of
    day and fields, which are also the parts it reports. *)
Theorem timestamp_calendar y m d h mi s us :
  calendar_date y m d → in_years y → time_fields h mi s us →
  let v := day_number y m d * 86400000000 + time_number h mi s us in
  ts_range v →
  ∃ date time,
    fromDate y m d = Ok date ∧ fromTime h mi s us = Ok time ∧
    fromDateTime date time = Ok (mkTimestamp v) ∧
    ts_convert (mkTimestamp v) = Ok (date, time) ∧
    convert date = Ok (y, m, d) ∧ time_convert time = (h, mi, s, us) ∧
    getTimestampPart YEAR (mkTimestamp v) = Ok y ∧
    getTimestampPart MONTH (mkTimestamp v) = Ok m ∧
    getTimestampPart DAY (mkTimestamp v) = Ok d ∧
    getTimestampPart HOUR (mkTimestamp v) = Ok h ∧
    getTimestampPart MINUTE (mkTimestamp v) = Ok mi ∧
    getTimestampPart SECOND (mkTimestamp v) = Ok s.
Proof.
  intros Hc Hy Hf v Hv. pose proof (time_number_range _ _ _ _ Hf) as Ht.
  exists (mkDate (day_number y m d)), (mkTime (time_number h mi s us)).
  pose proof (ts_convert_spec v Hv) as Ev. unfold v in Ev at 2 3.
  rewrite day_of, time_of in Ev by done.
  assert (getDate (mkTimestamp v) = mkDate (day_number y m d)) as Ed.
  { rewrite getDate_floor; [unfold v; by rewrite day_of|]. unfold ts_range in Hv. units. lia. }
  assert (getTime (mkTimestamp v) = Ok (mkTime (time_number h mi s us))) as Et.
  { unfold ts_convert in Ev. destruct (getTime (mkTimestamp v)); try done. by injection Ev as _ ->. }
  pose proof (convert_day_number y m d Hc) as Ec.
  pose proof (time_convert_spec h mi s us) as Etc. pose proof (time_trunc_mod h mi s us Hf) as (_&_&M1&M2).
  unfold time_fields in Hf. unfold getTimestampPart. rewrite Ed, Et. cbn [mbind result_bind micros].
  assert (0 ≤ time_number h mi s us) by (unfold time_number; lia). units.
  rewrite !Z.rem_mod_nonneg, M1, M2 by lia.
  rewrite (swrap32_id (s * 1000000 + us)) by lia.
  split_and!; try done.
  - by apply fromDate_spec.
  - by apply fromTime_spec.
  - by apply fromDateTime_range.
  - apply Etc; lia.
  - by apply (getDatePart_year _ _ m d).
  - unfold getDatePart. by rewrite Ec.
  - unfold getDatePart. by rewrite Ec.
  - unfold time_number. rewrite Z.quot_div_nonneg by lia. rewrite swrap32_id.
    + f_equal. symmetry. apply Z.div_unique with ((mi * 60 + s) * 1000000 + us); lia.
    + assert (((((h * 60 + mi) * 60 + s) * 1000000 + us) / 3600000000) < 24)
        by (apply Z.div_lt_upper_bound; lia).
      assert (0 ≤ ((((h * 60 + mi) * 60 + s) * 1000000 + us) / 3600000000)) by (apply Z.div_pos; lia).
      lia.
  - assert (Z.quot ((mi * 60 + s) * 1000000 + us) 60000000 = mi) as ->;
      [|by rewrite swrap32_id by lia].
    rewrite Z.quot_div_nonneg by lia. symmetry. apply Z.div_unique with (s * 1000000 + us); lia.
  - rewrite Z.quot_div_nonneg by lia. f_equal. symmetry. apply Z.div_unique with us; lia.
Qed.

(** C25: adding days and microseconds to a timestamp moves it by exactly that many
    microseconds, whatever carry or borrow between the time of day and the date;
    subtracting the interval moves it back, and adding the difference of two
    timestamps to the second gives the first. *)
Theorem timestamp_add_exact v d us :
  ts_range v → in_s 32 d → in_s 64 us → ts_range (v + d * 86400000000 + us) →
  ts_add (mkTimestamp v) (mkInterval 0 d us) = Ok (mkTimestamp (v + d * 86400000000 + us)) ∧
  (- d < 2 ^ 31 → - us < 2 ^ 63 →
   ts_sub (mkTimestamp (v + d * 86400000000 + us)) (mkInterval 0 d us) = Ok (mkTimestamp v)) ∧
  (∀ w i, ts_range w → ts_diff (mkTimestamp w) (mkTimestamp v) = Ok i →
   ts_add (mkTimestamp v) i = Ok (mkTimestamp w)).
Proof.
  intros Hv Hd Hus Hr. split_and!.
  - by apply ts_add_days_micros.
  - intros H1 H2. unfold ts_sub, interval_neg. cbn [months idays imicros]. units.
    rewrite !signed32_ok by lia. cbn [mbind result_bind].
    rewrite signed64_ok by lia. cbn [mbind result_bind]. change (- 0) with 0.
    rewrite ts_add_days_micros; [do 2 f_equal; lia|done|units; lia|units; lia|].
    replace (v + d * 86400000000 + us + - d * 86400000000 + - us) with v by lia. done.
  - intros w i Hw Hi.
    assert (in_s 64 (w - v)) as Hwv.
    { revert Hi. unfold ts_diff, signed. cbn [value]. by case_decide. }
    destruct (decide (- 2 ^ 63 < w - v)) as [Hlt|Hge].
    + rewrite ts_diff_spec in Hi by done. injection Hi as <-.
      pose proof (Z.quot_rem' (w - v) 86400000000) as E.
      pose proof (Z.rem_bound_abs (w - v) 86400000000 ltac:(done)) as B.
      rewrite ts_add_days_micros; [do 2 f_equal; lia|done|units; lia|units; lia|].
      by replace (v + Z.quot (w - v) 86400000000 * 86400000000 + Z.rem (w - v) 86400000000)
        with w by lia.
    + exfalso. revert Hi. unfold ts_diff. cbn [value]. rewrite signed_ok by done.
      cbn [mbind result_bind]. unfold signed at 1. rewrite decide_False; [done|]. units. lia.
Qed.

(** truncating a timestamp to a unit of at most a day rounds it down to a multiple
    of that unit since the epoch, before 1970 too. *)
Theorem timestamp_trunc_floor p u v :
  trunc_unit p = Some u → ts_range v →
  ts_trunc p (mkTimestamp v) = Ok (mkTimestamp (v - v mod u)).
Proof.
  intros Hu Hv. unfold ts_trunc. pose proof (ts_convert_spec v Hv) as Ev. rewrite Ev.
  pose proof (day_split v) as Hs. pose proof (Z.div_mod v 86400000000 ltac:(done)) as E.
  pose proof (Z.mod_pos_bound v 86400000000 ltac:(done)) as Hmb.
  destruct (time_number_surj (v mod 86400000000) Hmb) as (h & mi & s & us & Hf & Et).
  pose proof Hf as Hf'. unfold time_fields in Hf'.
  pose proof (time_trunc_mod h mi s us Hf) as (M1&M2&M3&M4). rewrite <- Et in M1, M2, M3, M4.
  cbn [mbind result_bind]. rewrite Et. rewrite time_convert_spec by lia. unfold ts_range in Hv.
  assert (∀ h' mi' s' us' w, time_fields h' mi' s' us' → 0 ≤ w →
    time_number h' mi' s' us' = v mod 86400000000 - w → 
    (x ← fromTime h' mi' s' us'; fromDateTime (mkDate (v / 86400000000)) x) =
    Ok (mkTimestamp (v - w))) as G.
  { intros h' mi' s' us' w Hf2 Hw E2. rewrite fromTime_spec by done. cbn [mbind result_bind].
    pose proof (time_number_range _ _ _ _ Hf2) as Hr2. unfold time_range in Hr2.
    rewrite fromDateTime_range; [do 2 f_equal; lia|done|unfold ts_range in *; lia]. }
  pose proof (mod_of_day v 1000 86400000 ltac:(done) ltac:(done) ltac:(done)) as D1.
  pose proof (mod_of_day v 1000000 86400 ltac:(done) ltac:(done) ltac:(done)) as D2.
  pose proof (mod_of_day v 60000000 1440 ltac:(done) ltac:(done) ltac:(done)) as D3.
  pose proof (mod_of_day v 3600000000 24 ltac:(done) ltac:(done) ltac:(done)) as D4.
  rewrite D1 in M1. rewrite D2 in M2. rewrite D3 in M3. rewrite D4 in M4.
  unfold time_fields, time_number in *.
  pose proof (Z.div_mod us 1000 ltac:(done)). pose proof (Z.mod_pos_bound us 1000 ltac:(done)).
  destruct p; try done; injection Hu as <-.
  - (* DAY *) cbn [date_trunc mbind result_bind]. rewrite getDate_floor by (units; lia).
    rewrite fromDateTime_range; [do 2 f_equal|unfold time_range|unfold ts_range]; lia.
  - (* MICROSECOND *) rewrite Z.mod_1_r. by rewrite Z.sub_0_r.
  - (* MILLISECOND *) units. rewrite Z.rem_mod_nonneg by lia. apply G; rewrite ?M1; lia.
  - (* SECOND *) apply G; rewrite ?M2; lia.
  - (* MINUTE *) apply G; rewrite ?M3; lia.
  - (* HOUR *) apply G; rewrite ?M4; lia.
Qed.

(** building a time of day from fields and splitting it are inverse, and fields out
    of range are rejected. *)
Theorem time_roundtrip :
  (∀ h mi s us,
    if bool_decide (time_fields h mi s us)
    then fromTime h mi s us = Ok (mkTime (time_number h mi s us)) ∧
         time_range (time_number h mi s us) ∧
         time_convert (mkTime (time_number h mi s us)) = (h, mi, s, us)
    else ∃ msg, fromTime h mi s us = throw ConversionException msg) ∧
  (∀ t, if bool_decide (time_range t)
        then let '(h, mi, s, us) := time_convert (mkTime t) in fromTime h mi s us = Ok (mkTime t)
        else True).
Proof.
  split.
  - intros h mi s us. case_bool_decide as Hf.
    + split_and!; [by apply fromTime_spec|by apply time_number_range|].
      unfold time_fields in Hf. apply time_convert_spec; lia.
    + unfold fromTime. rewrite time_isValid_spec, bool_decide_false by done. eauto.
  - intros t. case_bool_decide as Ht; [|done].
    destruct (time_number_surj t Ht) as (h & mi & s & us & Hf & ->).
    rewrite time_convert_spec by (unfold time_fields in Hf; lia). by apply fromTime_spec.
Qed.

(** ** Witnesses *)

(** 1969-12-31 23:59:58.5 *)
Lemma timestamp_calendar_witness :
  ∃ date time, ts_convert (mkTimestamp (-1500000)) = Ok (date, time) ∧
    convert date = Ok (1969, 12, 31) ∧ time_convert time = (23, 59, 58, 500000).
Proof.
  destruct (timestamp_calendar 1969 12 31 23 59 58 500000) as (d & t & _ & _ & _ & E & Ed & Et & _).
  - split; vm_compute; split; congruence.
  - vm_compute; split; congruence.
  - unfold time_fields. lia.
  - vm_compute; split; congruence.
  - exists d, t. split_and!; [exact E|exact Ed|exact Et].
Defined.

Lemma timestamp_add_exact_witness :
  ts_add (mkTimestamp (-1500000)) (mkInterval 0 (-1) 2000000) = Ok (mkTimestamp (-86399500000)) ∧
  ts_sub (mkTimestamp (-86399500000)) (mkInterval 0 (-1) 2000000) = Ok (mkTimestamp (-1500000)).
Proof.
  destruct (timestamp_add_exact (-1500000) (-1) 2000000) as (E1 & E2 & _);
    [split; vm_compute; congruence..|].
  split; [exact E1|apply E2; lia].
Defined.

Lemma timestamp_trunc_floor_witness :
  ts_trunc MINUTE (mkTimestamp (-1500000)) = Ok (mkTimestamp (-60000000)).
Proof.
  apply (timestamp_trunc_floor MINUTE 60000000 (-1500000)); [reflexivity|].
  split; vm_compute; congruence.
Defined.
