(* ===== verification/DateText.v ===== *)
(** * Text of dates, times and timestamps (common/types/cast_helpers.h)

    The formatters write into a buffer whose length they computed first: a field that
    does not fit its place writes before the buffer, which is [UB] here.  Text is a list
    of characters. *)

From Stdlib Require Import Ascii String.
From S2P Require Import Prelude.
From S2P Require Import Interval.
From S2P Require Import Date.
From S2P Require Import DateFacts.
From S2P Require Import DateTheorems.
From S2P Require Import DTime.
From S2P Require Import Timestamp.
From S2P Require Import TimestampTheorems.

#[local] Open Scope Z_scope.

(** The table of two-digit groups. *)
Definition digits : list ascii := list_ascii_of_string (
  "0001020304050607080910111213141516171819" ++
  "2021222324252627282930313233343536373839" ++
  "4041424344454647484950515253545556575859" ++
  "6061626364656667686970717273747576777879" ++
  "8081828384858687888990919293949596979899")%string.

Definition BC_SUFFIX : list ascii := list_ascii_of_string " (BC)".

(** ['0' + value], and the two characters of the table for a value below 100. *)
Definition digit_char (value : Z) : ascii := ascii_of_nat (Z.to_nat (48 + value)).
Definition digits_at (i : Z) : result ascii :=
  if i <? 0 then UB else deref (digits !! Z.to_nat i).
Definition digit_pair (value : Z) : result (list ascii) :=
  c1 ← digits_at (value * 2); c2 ← digits_at (value * 2 + 1); Ok [c1; c2].

(** [FormatUnsigned] writes backwards from [ptr]: [acc] is the text from [ptr] on.  A
    machine integer has at most ten groups of two digits. *)
Definition format_fuel : nat := 11.

Fixpoint format_unsigned (fuel : nat) (value : Z) (acc : list ascii) : result (list ascii) :=
  if 100 <=? value then
    match fuel with
    | O => UB
    | S fuel =>
        p ← digit_pair (Z.rem value 100);
        format_unsigned fuel (Z.quot value 100) (p ++ acc)
    end
  else if value <? 10 then Ok (digit_char value :: acc)
  else p ← digit_pair value; Ok (p ++ acc).

Definition FormatUnsigned (value : Z) (acc : list ascii) : result (list ascii) :=
  format_unsigned format_fuel value acc.

(** [FormatUnsigned] at the end of a field of [width] characters, and the leading
    zeros the callers add: [while (endptr > data) *--endptr = '0']. *)
Definition format_padded (width : nat) (value : Z) : result (list ascii) :=
  l ← FormatUnsigned value [];
  if (width <? List.length l)%nat then UB
  else Ok (replicate (width - List.length l) "0"%char ++ l).

Definition FormatTwoDigits (value : Z) : result (list ascii) :=
  if value <? 10 then Ok ["0"%char; digit_char value] else digit_pair value.

(** ** Dates *)

(** [DateToStringCast::Length]: the year as printed, its width, and the BC flag. *)
Definition date_Length (year : Z) : result (Z * nat * bool) :=
  '(year, addBC) ← (if year <=? 0
                    then neg ← signed 32 (- year); y ← signed 32 (neg + 1); Ok (y, true)
                    else Ok (year, false));
  let atLeast (k : Z) : nat := if k <=? year then 1%nat else 0%nat in
  Ok (year, (4 + atLeast 10000%Z + atLeast 100000%Z + atLeast 1000000%Z + atLeast 10000000%Z)%nat,
      addBC).

Definition date_Format (year month day : Z) (yearLen : nat) (addBC : bool) :
    result (list ascii) :=
  y ← format_padded yearLen year;
  m ← FormatTwoDigits month;
  d ← FormatTwoDigits day;
  Ok (y ++ "-"%char :: m ++ "-"%char :: d ++ (if addBC then BC_SUFFIX else [])).

Definition date_toString (date : date_t) : result (list ascii) :=
  '(year, month, day) ← convert date;
  '(year, yearLength, addBC) ← date_Length year;
  date_Format year month day yearLength addBC.

(** ** Times *)

(** The trailing zeros [FormatMicros] counts, from index 5 down to 1. *)
Fixpoint trailing_zeros (k : nat) (buffer : list ascii) : nat :=
  match k with
  | O => O
  | S k' => match buffer !! k with
            | Some c => if Ascii.eqb c "0" then S (trailing_zeros k' buffer) else O
            | None => O
            end
  end.

Definition FormatMicros (microseconds : Z) : result (list ascii * nat) :=
  l ← format_padded 6 microseconds; Ok (l, trailing_zeros 5 l).

(** [TimeToStringCast::Length] and [Format]. *)
Definition time_Format (hour min sec us : Z) : result (list ascii) :=
  '(micro_buffer, length) ←
    (if us =? 0 then Ok ([], 8%nat)
     else '(b, z) ← FormatMicros us; Ok (b, (15 - z)%nat));
  h ← FormatTwoDigits hour;
  m ← FormatTwoDigits min;
  s ← FormatTwoDigits sec;
  Ok (h ++ ":"%char :: m ++ ":"%char :: s ++
      (if (8 <? length)%nat then "."%char :: take (length - 9) micro_buffer else [])).

Definition time_toString (t : dtime_t) : result (list ascii) :=
  let '(hour, min, sec, us) := time_convert t in time_Format hour min sec us.

(** ** Timestamps *)

Definition ts_toString (t : timestamp_t) : result (list ascii) :=
  '(date, time) ← ts_convert t;
  d ← date_toString date;
  s ← time_toString time;
  Ok (d ++ " "%char :: s).

(** * Text round trips

    What the formatters of dates, times of day and timestamps write, the parsers read
    back; the suffix of years before 1, which the formatter writes, is not read. *)

#[local] Open Scope Z_scope.

(** ** Decimal numbers *)

Definition is_digit (c : ascii) : Prop := CharacterIsDigit c = true.

(** Reading digits from the left, starting with [a]. *)
Definition dec (a : Z) (l : list ascii) : Z := foldl (λ a c, a * 10 + digit_value c) a l.

(** A field of [w] digits for [v]. *)
Definition field (w : nat) (v : Z) (l : list ascii) : Prop :=
  List.length l = w ∧ Forall is_digit l ∧ ∀ a, dec a l = a * 10 ^ Z.of_nat w + v.

Lemma digit_value_range c : is_digit c → 0 ≤ digit_value c < 10.
Proof.
  unfold is_digit, CharacterIsDigit, digit_value. rewrite andb_true_iff, !Nat.leb_le. lia.
Qed.

Lemma digit_not_space c : is_digit c → isSpace c = false.
Proof.
  unfold is_digit, CharacterIsDigit, isSpace. rewrite andb_true_iff, !Nat.leb_le.
  intros. apply not_true_iff_false. rewrite orb_true_iff, andb_true_iff, Nat.eqb_eq, !Nat.leb_le.
  lia.
Qed.

Lemma dec_app a l1 l2 : dec a (l1 ++ l2) = dec (dec a l1) l2.
Proof. apply foldl_app. Qed.

Lemma field_nil : field 0 0 [].
Proof. split_and!; [done..|]. intros a. simpl. lia. Qed.

Lemma field_app w1 v1 l1 w2 v2 l2 :
  field w1 v1 l1 → field w2 v2 l2 → field (w1 + w2) (v1 * 10 ^ Z.of_nat w2 + v2) (l1 ++ l2).
Proof.
  intros (L1 & F1 & D1) (L2 & F2 & D2). split_and!.
  - rewrite length_app. lia.
  - by apply Forall_app_2.
  - intros a. rewrite dec_app, D1, D2, Nat2Z.inj_add, Z.pow_add_r by lia. ring.
Qed.

Lemma field_zeros k : field k 0 (replicate k "0"%char).
Proof.
  induction k as [|k IH]; [apply field_nil|].
  change (replicate (S k) "0"%char) with (["0"%char] ++ replicate k "0"%char).
  change (S k) with (1 + k)%nat. replace 0 with (0 * 10 ^ Z.of_nat k + 0) by lia.
  apply field_app; [|done]. split_and!; [done|by repeat constructor|].
  intros a. unfold dec. simpl. change (digit_value "0") with 0. lia.
Qed.

Lemma digit_char_field v : 0 ≤ v < 10 → field 1 v [digit_char v].
Proof.
  intros Hv. assert (CharacterIsDigit (digit_char v) = true ∧ digit_value (digit_char v) = v) as [H1 H2].
  { assert (v = 0 ∨ v = 1 ∨ v = 2 ∨ v = 3 ∨ v = 4 ∨ v = 5 ∨ v = 6 ∨ v = 7 ∨ v = 8 ∨ v = 9)
      as Hc by lia.
    by repeat destruct Hc as [->|Hc]; subst. }
  split_and!; [done|by repeat constructor|]. intros a. unfold dec. simpl. rewrite H2. lia.
Qed.

(** The table of pairs, entry by entry. *)
Lemma digits_table :
  Forall (λ k, match digit_pair (Z.of_nat k) with
               | Ok [c1; c2] => CharacterIsDigit c1 = true ∧ CharacterIsDigit c2 = true ∧
                                digit_value c1 * 10 + digit_value c2 = Z.of_nat k
               | _ => False
               end) (seq 0 100).
Proof.
  cbn [seq]. repeat constructor.
Qed.

Lemma digit_pair_field (v : Z) : 0 ≤ v < 100 → ∃ l, digit_pair v = Ok l ∧ field 2 v l.
Proof.
  intros Hv. pose proof digits_table as H. rewrite Forall_forall in H.
  specialize (H (Z.to_nat v) ltac:(apply elem_of_seq; lia)). rewrite Z2Nat.id in H by lia.
  destruct (digit_pair v) as [[|c1 [|c2 [|]]]| |]; try done. destruct H as (H1 & H2 & H3).
  exists [c1; c2]. split; [done|]. split_and!; [done|by repeat constructor|].
  intros a. unfold dec. simpl. lia.
Qed.

Lemma FormatTwoDigits_field v : 0 ≤ v < 100 → ∃ l, FormatTwoDigits v = Ok l ∧ field 2 v l.
Proof.
  intros Hv. unfold FormatTwoDigits. destruct (Z.ltb_spec v 10); [|by apply digit_pair_field].
  eexists. split; [done|].
  change ["0"%char; digit_char v] with (replicate 1 "0"%char ++ [digit_char v]).
  replace v with (0 * 10 ^ Z.of_nat 1 + v) at 1 by lia. change 2%nat with (1 + 1)%nat.
  apply field_app; [apply field_zeros|apply digit_char_field; lia].
Qed.

(** [FormatUnsigned] writes the digits, no leading zero, and its fuel is enough for
    every 64-bit value. *)
Lemma format_unsigned_field fuel v acc :
  0 ≤ v < 100 ^ (Z.of_nat fuel + 1) →
  ∃ w l, format_unsigned fuel v acc = Ok (l ++ acc) ∧ field (S w) v l ∧
         (w = 0%nat ∨ 10 ^ Z.of_nat w ≤ v).
Proof.
  revert v acc. induction fuel as [|fuel IH]; intros v acc Hv;
    (assert (v < 100 → ∃ w l,
       (if v <? 10 then Ok (digit_char v :: acc) else p ← digit_pair v; Ok (p ++ acc)) =
       Ok (l ++ acc) ∧ field (S w) v l ∧ (w = 0%nat ∨ 10 ^ Z.of_nat w ≤ v)) as Hbase;
     [intros H100; destruct (Z.ltb_spec v 10);
      [exists 0%nat, [digit_char v]; split_and!; [done|apply digit_char_field; lia|by left]
      |destruct (digit_pair_field v) as (l & -> & Hl); [lia|];
       exists 1%nat, l; split_and!; [done..|right; lia]]|]).
  - cbn [format_unsigned]. change (100 ^ (Z.of_nat 0 + 1)) with 100 in Hv.
    destruct (Z.leb_spec 100 v); [lia|]. by apply Hbase; lia.
  - cbn [format_unsigned]. destruct (Z.leb_spec 100 v); [|by apply Hbase].
    rewrite Z.rem_mod_nonneg, Z.quot_div_nonneg by lia.
    pose proof (Z.div_mod v 100 ltac:(done)) as E.
    pose proof (Z.mod_pos_bound v 100 ltac:(done)) as Hm.
    destruct (digit_pair_field (v mod 100) Hm) as (p & -> & Hp). cbn [mbind result_bind].
    assert (0 ≤ v / 100 < 100 ^ (Z.of_nat fuel + 1)) as Hq.
    { split; [apply Z.div_pos; lia|]. apply Z.div_lt_upper_bound; [done|].
      rewrite <- Z.pow_succ_r by lia.
      replace (Z.succ (Z.of_nat fuel + 1)) with (Z.of_nat (S fuel) + 1) by lia. apply Hv. }
    destruct (IH (v / 100) (p ++ acc) Hq) as (w & l & -> & Hl & Hw).
    exists (S w + 1)%nat, (l ++ p). split_and!.
    + by rewrite <- app_assoc.
    + replace v with (v / 100 * 10 ^ Z.of_nat 2 + v mod 100) by (change (10 ^ Z.of_nat 2) with 100; lia).
      replace (S (S w + 1)) with (S w + 2)%nat by lia. by apply field_app.
    + right. replace (Z.of_nat (S w + 1)) with (2 + Z.of_nat w) by lia.
      rewrite Z.pow_add_r by lia. change (10 ^ 2) with 100.
      assert (10 ^ Z.of_nat w ≤ v / 100); [|lia].
      destruct Hw as [->|]; [change (10 ^ Z.of_nat 0) with 1; lia|done].
Qed.

Lemma format_padded_field (w : nat) (v : Z) :
  (0 < w ≤ 20)%nat → 0 ≤ v < 10 ^ Z.of_nat w → ∃ l, format_padded w v = Ok l ∧ field w v l.
Proof.
  intros Hw Hv. unfold format_padded, FormatUnsigned.
  destruct (format_unsigned_field format_fuel v []) as (k & l & -> & Hl & Hk).
  { split; [lia|]. apply Z.lt_le_trans with (10 ^ Z.of_nat w); [lia|].
    change (100 ^ (Z.of_nat format_fuel + 1)) with (10 ^ 24). apply Z.pow_le_mono_r; lia. }
  cbn [mbind result_bind]. rewrite app_nil_r. pose proof Hl as (Hlen & _). rewrite Hlen.
  assert (k < w)%nat as Hkw.
  { destruct Hk as [->|Hk]; [lia|]. apply Nat2Z.inj_lt. apply (Z.pow_lt_mono_r_iff 10); lia. }
  destruct (Nat.ltb_spec w (S k)); [lia|]. eexists. split; [done|].
  replace v with (0 * 10 ^ Z.of_nat (S k) + v) by lia.
  replace w with (w - S k + S k)%nat at 1 by lia. apply field_app; [apply field_zeros|done].
Qed.

(** ** Parsing *)

Lemma dec_ge (l : list ascii) a : 0 ≤ a → Forall is_digit l → a ≤ dec a l.
Proof.
  revert a. induction l as [|c l IH]; intros a Ha Hl; [unfold dec; simpl; lia|].
  apply Forall_cons in Hl as [Hc Hl]. apply digit_value_range in Hc.
  change (dec a (c :: l)) with (dec (a * 10 + digit_value c) l).
  specialize (IH (a * 10 + digit_value c) ltac:(lia) Hl). lia.
Qed.

Lemma parse_year_digits l c rest a :
  0 ≤ a → Forall is_digit l → dec a l ≤ MAX_YEAR → CharacterIsDigit c = false →
  parse_year a (l ++ c :: rest) = (dec a l, c :: rest).
Proof.
  revert a. induction l as [|d l IH]; intros a Ha Hl Hmax Hc; [simpl; by rewrite Hc|].
  apply Forall_cons in Hl as [Hd Hl]. pose proof (digit_value_range _ Hd) as Hr.
  change (dec a (d :: l)) with (dec (a * 10 + digit_value d) l) in *.
  pose proof (dec_ge l (a * 10 + digit_value d) ltac:(lia) Hl).
  simpl. unfold is_digit in Hd. rewrite Hd.
  replace (digit_value d + a * 10) with (a * 10 + digit_value d) by lia.
  destruct (Z.ltb_spec MAX_YEAR (a * 10 + digit_value d)); [lia|]. apply IH; [lia|done..].
Qed.

(** A year past the last one: the loop stops before a digit, which is no separator. *)
Lemma parse_year_over l rest a :
  0 ≤ a ≤ MAX_YEAR → Forall is_digit l → MAX_YEAR < dec a l →
  ∃ y c r, parse_year a (l ++ rest) = (y, c :: r) ∧ is_digit c.
Proof.
  revert a. induction l as [|d l IH]; intros a Ha Hl Hmax; [unfold dec in Hmax; simpl in Hmax; lia|].
  apply Forall_cons in Hl as [Hd Hl]. pose proof (digit_value_range _ Hd) as Hr.
  change (dec a (d :: l)) with (dec (a * 10 + digit_value d) l) in *.
  cbn [app parse_year]. rewrite (Hd : CharacterIsDigit d = true).
  replace (digit_value d + a * 10) with (a * 10 + digit_value d) by lia.
  destruct (Z.ltb_spec MAX_YEAR (a * 10 + digit_value d)); [by eexists _, _, _|]. apply IH; [lia|done..].
Qed.

Lemma digit_not_separator c : is_digit c → isSeparator c = false.
Proof.
  intros Hc. apply not_true_iff_false. unfold isSeparator. rewrite existsb_exists.
  intros (x & Hx & ->%Ascii.eqb_eq). revert Hx Hc. simpl. by intros [<-|[<-|[<-|[<-|[]]]]].
Qed.

Lemma field_2 v l :
  field 2 v l → ∃ c1 c2, l = [c1; c2] ∧ is_digit c1 ∧ is_digit c2 ∧
                         digit_value c1 * 10 + digit_value c2 = v.
Proof.
  intros (Hl & Hd & Hv). destruct l as [|c1 [|c2 [|]]]; try done.
  apply Forall_cons in Hd as [H1 Hd]. apply Forall_cons in Hd as [H2 _].
  exists c1, c2. split_and!; [done..|]. specialize (Hv 0). unfold dec in Hv. simpl in Hv. lia.
Qed.

Lemma parseDoubleDigit_field v l rest :
  field 2 v l → parseDoubleDigit (l ++ rest) = Some (v, rest).
Proof.
  intros (c1 & c2 & -> & H1 & H2 & <-)%field_2. unfold is_digit in *. simpl. rewrite H1, H2.
  do 2 f_equal. lia.
Qed.

(** The weight of the next fraction digit, [k] digits before the end. *)
Definition weight (k : nat) : Z := match k with O => 0 | S k => 10 ^ Z.of_nat k end.

Lemma weight_quot k : Z.quot (weight (S k)) 10 = weight k.
Proof.
  destruct k as [|k]; [done|]. cbn [weight]. rewrite Nat2Z.inj_succ, Z.pow_succ_r by lia.
  rewrite Z.mul_comm. by apply Z.quot_mul.
Qed.

Lemma parse_micros_digits l k us :
  Forall is_digit l → (List.length l ≤ k)%nat →
  parse_micros (weight k) us l = (us + dec 0 l * 10 ^ Z.of_nat (k - List.length l), []).
Proof.
  revert k us. induction l as [|c l IH]; intros k us Hl Hk.
  - simpl. unfold dec. simpl. f_equal. lia.
  - apply Forall_cons in Hl as [Hc Hl]. unfold is_digit in Hc. simpl in Hk.
    destruct k as [|k]; [lia|]. cbn [parse_micros]. rewrite Hc, weight_quot.
    assert (0 < weight (S k)) by (simpl; apply Z.pow_pos_nonneg; lia).
    destruct (Z.ltb_spec 0 (weight (S k))); [|lia]. rewrite IH by (done || lia). f_equal.
    change (dec 0 (c :: l)) with (dec (0 * 10 + digit_value c) l).
    assert (∀ a, dec a l = a * 10 ^ Z.of_nat (List.length l) + dec 0 l) as Hdec.
    { clear. induction l as [|c l IH]; intros a; [unfold dec; simpl; lia|].
      change (dec a (c :: l)) with (dec (a * 10 + digit_value c) l).
      change (dec 0 (c :: l)) with (dec (0 * 10 + digit_value c) l).
      rewrite IH, (IH (0 * 10 + digit_value c)). cbn [List.length].
      rewrite Nat2Z.inj_succ, Z.pow_succ_r by lia. ring. }
    rewrite (Hdec (0 * 10 + digit_value c)). cbn [weight List.length].
    replace (S k - S (List.length l))%nat with (k - List.length l)%nat by lia.
    replace (10 ^ Z.of_nat k)
      with (10 ^ Z.of_nat (List.length l) * 10 ^ Z.of_nat (k - List.length l)); [ring|].
    rewrite <- Z.pow_add_r by lia. f_equal. lia.
Qed.

(** Dropping trailing zeros. *)
Lemma trailing_zeros_split (l : list ascii) :
  List.length l = 6%nat →
  (trailing_zeros 5 l ≤ 5)%nat ∧
  l = take (6 - trailing_zeros 5 l) l ++ replicate (trailing_zeros 5 l) "0"%char.
Proof.
  intros Hl. destruct l as [|a [|b [|c [|d [|e [|f [|]]]]]]]; try done.
  cbn [trailing_zeros lookup list_lookup].
  destruct (Ascii.eqb_spec f "0"); [subst|by split; [lia|]].
  destruct (Ascii.eqb_spec e "0"); [subst|by split; [lia|]].
  destruct (Ascii.eqb_spec d "0"); [subst|by split; [lia|]].
  destruct (Ascii.eqb_spec c "0"); [subst|by split; [lia|]].
  destruct (Ascii.eqb_spec b "0"); [subst|by split; [lia|]].
  by split; [lia|].
Qed.

(** ** Times of day *)

(** The text of a time of day. *)
Definition time_text (h mi s us : Z) (l : list ascii) : Prop :=
  ∃ hl ml sl tail, l = hl ++ ":"%char :: ml ++ ":"%char :: sl ++ tail ∧
    field 2 h hl ∧ field 2 mi ml ∧ field 2 s sl ∧
    (tail = [] ∧ us = 0 ∨
     ∃ fr, tail = "."%char :: fr ∧ Forall is_digit fr ∧ (List.length fr ≤ 6)%nat ∧
           dec 0 fr * 10 ^ Z.of_nat (6 - List.length fr) = us).

Lemma time_Format_text h mi s us :
  time_fields h mi s us → ∃ l, time_Format h mi s us = Ok l ∧ time_text h mi s us l.
Proof.
  unfold time_fields. intros Hf. unfold time_Format.
  destruct (FormatTwoDigits_field h) as (hl & -> & Hh); [lia|].
  destruct (FormatTwoDigits_field mi) as (ml & -> & Hm); [lia|].
  destruct (FormatTwoDigits_field s) as (sl & -> & Hs); [lia|].
  destruct (Z.eqb_spec us 0) as [->|Hus].
  { cbn. eexists. split; [done|]. exists hl, ml, sl, []. split_and!; [done..|by left]. }
  destruct (format_padded_field 6 us) as (b & Eb & Hb); [lia|change (10 ^ Z.of_nat 6) with 1000000; lia|].
  unfold FormatMicros. rewrite Eb. cbn [mbind result_bind].
  pose proof Hb as (Hlen & Hd & Hv). destruct (trailing_zeros_split b Hlen) as [Hz Hsplit].
  set (z := trailing_zeros 5 b) in *. destruct (Nat.ltb_spec 8 (15 - z)); [|lia].
  replace (15 - z - 9)%nat with (6 - z)%nat by lia.
  assert (List.length (take (6 - z) b) = 6 - z)%nat as Hlt by (rewrite length_take; lia).
  eexists. split; [done|]. exists hl, ml, sl, ("."%char :: take (6 - z) b).
  split_and!; [done..|right]. exists (take (6 - z) b). split_and!; [done|by apply Forall_take|lia|].
  specialize (Hv 0). rewrite Hsplit, dec_app in Hv.
  destruct (field_zeros z) as (_ & _ & Hzv). rewrite Hzv in Hv.
  rewrite Hlt. replace (6 - (6 - z))%nat with z by lia. lia.
Qed.

Lemma time_text_parse h mi s us l :
  time_fields h mi s us → time_text h mi s us l →
  time_tryConvertTime l = Ok (Some (mkTime (time_number h mi s us), [])).
Proof.
  intros Hf (hl & ml & sl & tail & -> & Hh & Hm & Hs & Ht).
  pose proof (time_number_range _ _ _ _ Hf) as Hr.
  unfold time_tryConvertTime, time_tryConvertInternal.
  apply field_2 in Hh as (c1 & c2 & -> & H1 & H2 & Hh). cbn [app skip_spaces].
  rewrite (digit_not_space c1) by done. unfold is_digit in H1, H2. rewrite H1. cbn [negb].
  cbn [parse_hour]. rewrite H1, H2. change (CharacterIsDigit ":") with false. cbv iota.
  change (negb (":" =? ":")%char) with false. cbv iota.
  rewrite parseDoubleDigit_field with (v := mi) by done.
  unfold time_fields, time_range in *.
  destruct (Z.ltb_spec mi 0), (Z.leb_spec 60 mi); try lia. cbn [orb].
  change (negb (":" =? ":")%char) with false. cbv iota.
  rewrite parseDoubleDigit_field with (v := s) by done.
  destruct (Z.ltb_spec s 0), (Z.leb_spec 60 s); try lia. cbn [orb].
  assert (match tail with
          | c :: l' => if (c =? ".")%char then parse_micros 100000 0 l' else (0, tail)
          | [] => (0, [])
          end = (us, [])) as ->.
  { destruct Ht as [[-> ->]|(fr & -> & Hd & Hl & Hus)]; [done|].
    change ("." =? ".")%char with true. cbv iota. change 100000 with (weight 6).
    rewrite parse_micros_digits by done. f_equal. lia. }
  cbv iota beta. replace ((0 * 10 + digit_value c1) * 10 + digit_value c2) with h by lia.
  rewrite fromTimeInternal_spec by lia. cbn [mbind result_bind micros].
  change MICROS_PER_DAY with 86400000000.
  destruct (Z.ltb_spec (time_number h mi s us) 86400000000); [done|lia].
Qed.

(** ** Dates *)

(** The text of a date: a year of at least four digits, a suffix for years before 1. *)
Definition date_text (y m d : Z) (l : list ascii) : Prop :=
  ∃ w yl ml dl, (0 < w)%nat ∧ l = yl ++ "-"%char :: ml ++ "-"%char :: dl ++
                  (if y <=? 0 then BC_SUFFIX else []) ∧
    field w (if y <=? 0 then 1 - y else y) yl ∧ field 2 m ml ∧ field 2 d dl.

Lemma date_Format_text y m d :
  - 10 ^ 7 < y < 10 ^ 7 → 0 ≤ m < 100 → 0 ≤ d < 100 →
  ∃ l, ('(year, yearLength, addBC) ← date_Length y; date_Format year m d yearLength addBC) = Ok l ∧
       date_text y m d l.
Proof.
  intros Hy Hm Hd. change (10 ^ 7) with 10000000 in Hy.
  destruct (FormatTwoDigits_field m Hm) as (ml & Em & Hml).
  destruct (FormatTwoDigits_field d Hd) as (dl & Ed & Hdl).
  set (y' := if y <=? 0 then 1 - y else y).
  assert (1 ≤ y' ≤ 10000000) as Hy' by (unfold y'; destruct (Z.leb_spec y 0); lia).
  assert (∃ w, (4 ≤ w ≤ 20)%nat ∧ y' < 10 ^ Z.of_nat w ∧
          date_Length y = Ok (y', w, y <=? 0)) as (w & Hw & Hyw & EL).
  { unfold date_Length.
    assert ((if y <=? 0 then neg ← signed 32 (- y); y ← signed 32 (neg + 1); Ok (y, true)
             else Ok (y, false)) = Ok (y', y <=? 0)) as ->.
    { unfold y'. destruct (Z.leb_spec y 0); [|done]. rewrite signed32_ok by lia.
      cbn [mbind result_bind]. rewrite signed32_ok by lia. cbn [mbind result_bind].
      do 2 f_equal. lia. }
    cbn [mbind result_bind]. eexists. split; [|split; [|done]].
    - repeat case_match; lia.
    - destruct (Z.leb_spec 10000 y'), (Z.leb_spec 100000 y'), (Z.leb_spec 1000000 y'),
        (Z.leb_spec 10000000 y'); try lia; simpl; lia. }
  rewrite EL. cbn [mbind result_bind]. unfold date_Format.
  destruct (format_padded_field w y') as (yl & -> & Hyl); [lia..|].
  rewrite Em, Ed. cbn [mbind result_bind]. eexists. split; [done|].
  exists w, yl, ml, dl. split_and!; [lia|done|done..].
Qed.

(** The parser on the three fields, whatever follows them. *)
Lemma date_fields_parse w y m d yl ml dl rest tr :
  (0 < w)%nat → 0 ≤ y ≤ MAX_YEAR → field w y yl → field 2 m ml → field 2 d dl →
  tryConvertDate tr (yl ++ "-"%char :: ml ++ "-"%char :: dl ++ rest) =
  match skip_spaces rest, tr with
  | _ :: _, false => Ok None
  | l, _ => match fromDate y m d with
            | Ok x => Ok (Some (x, l))
            | Throw e => if decide (exn_kind e = ConversionException) then Ok None else Throw e
            | UB => UB
            end
  end.
Proof.
  intros Hw Hy (Hlen & Hyl & Hyv) Hm Hd. unfold tryConvertDate.
  destruct yl as [|c yl]; [simpl in Hlen; lia|].
  pose proof (Forall_inv Hyl) as Hc. cbn [app skip_spaces]. rewrite digit_not_space by done.
  unfold is_digit in Hc. rewrite Hc. cbn [negb].
  specialize (Hyv 0). rewrite Z.mul_0_l, Z.add_0_l in Hyv.
  rewrite (app_comm_cons yl _ c).
  rewrite parse_year_digits, Hyv by (rewrite ?Hyv; done || lia).
  change (negb (isSeparator "-")) with false. cbv iota.
  rewrite parseDoubleDigit_field with (v := m) by done.
  pose proof (parseDoubleDigit_field d dl rest Hd) as Ep.
  apply field_2 in Hd as (d1 & d2 & -> & _). cbn [app] in *.
  change (negb ("-" =? "-")%char) with false. cbv iota. rewrite Ep.
  destruct (skip_spaces rest), tr; done.
Qed.

Lemma month_day_small y m d : calendar_date y m d → 0 ≤ m < 100 ∧ 0 ≤ d < 100.
Proof. intros [Hm Hd]. pose proof (month_length_pos y m Hm). lia. Qed.

Lemma date_text_parse y m d l rest tr :
  calendar_date y m d → in_years y → 0 < y → date_text y m d l → (tr = false → rest = []) →
  (∀ c r, rest = c :: r → c = " "%char ∧ skip_spaces r = r) →
  tryConvertDate tr (l ++ rest) =
  Ok (Some (mkDate (day_number y m d), match rest with [] => [] | _ :: r => r end)).
Proof.
  intros Hc Hy Hpos (w & yl & ml & dl & Hw & -> & Hyl & Hml & Hdl) Htr Hrest.
  destruct (Z.leb_spec y 0); [lia|]. rewrite app_nil_r.
  replace ((yl ++ "-"%char :: ml ++ "-"%char :: dl) ++ rest)
    with (yl ++ "-"%char :: ml ++ "-"%char :: dl ++ rest)
    by (rewrite <- !app_assoc; simpl; rewrite <- !app_assoc; done).
  rewrite (date_fields_parse w y m d) by (done || unfold in_years in Hy; lia).
  rewrite fromDate_spec by done. destruct rest as [|c r]; [done|].
  destruct (Hrest c r eq_refl) as [-> Hr]. cbn [skip_spaces].
  change (isSpace " ") with true. cbv iota. rewrite Hr.
  destruct tr; [by destruct r|]. by specialize (Htr eq_refl).
Qed.

(** The text of a timestamp: a date, a space and a time of day. *)
Lemma timestamp_text_parse y m d h mi s us dl tl :
  calendar_date y m d → in_years y → 0 < y → time_fields h mi s us → date_text y m d dl →
  time_text h mi s us tl → ts_range (day_number y m d * 86400000000 + time_number h mi s us) →
  ts_fromCString (dl ++ " "%char :: tl) =
  Ok (mkTimestamp (day_number y m d * 86400000000 + time_number h mi s us)).
Proof.
  intros Hc Hy Hpos Hf Hdl Htl Hv. pose proof (time_text_parse _ _ _ _ _ Hf Htl) as Ept.
  destruct Htl as (hl & ml & sl & tail & Etext & Hh & _).
  pose proof (field_2 _ _ Hh) as (c1 & c2 & Ehl & H1 & _). rewrite Ehl in Etext.
  unfold ts_fromCString, tryConvertTimestamp. rewrite (date_text_parse y m d); try done.
  2: { intros c r [= <- <-]. split; [done|]. rewrite Etext. cbn [app skip_spaces].
       by rewrite digit_not_space. }
  cbn [mbind result_bind]. rewrite Etext in Ept |- *. cbn [app] in Ept |- *.
  assert ((Ascii.eqb c1 " " || Ascii.eqb c1 "T") = false) as ->.
  { apply not_true_iff_false. rewrite orb_true_iff, !Ascii.eqb_eq. unfold is_digit in H1.
    by intros [-> | ->]. }
  rewrite Ept. cbn [mbind result_bind]. rewrite fromDateTime_range; [done| |done].
  by apply time_number_range.
Qed.

(** The years whose text the parser reads. *)
Definition readable (y : Z) : Prop := 1 ≤ y ≤ MAX_YEAR.

(** Years before 1 leave the suffix over, years past the last one a digit. *)
Lemma date_text_unreadable y m d l :
  ¬ readable y → date_text y m d l → tryConvertDate false l = Ok None.
Proof.
  intros Hy (w & yl & ml & dl & Hw & -> & Hyl & Hml & Hdl). unfold readable in Hy.
  set (y' := if y <=? 0 then 1 - y else y) in *.
  assert (0 ≤ y') as H0 by (unfold y'; destruct (Z.leb_spec y 0); lia).
  destruct (decide (y' ≤ MAX_YEAR)) as [Hle|Hgt].
  - assert (y ≤ 0) as Hneg by (unfold y' in *; destruct (Z.leb_spec y 0); lia).
    rewrite (date_fields_parse w y' m d) by done. destruct (Z.leb_spec y 0); [done|lia].
  - destruct Hyl as (Hlen & Hdig & Hv). specialize (Hv 0). rewrite Z.mul_0_l, Z.add_0_l in Hv.
    destruct (parse_year_over yl ("-"%char :: ml ++ "-"%char :: dl ++ (if y <=? 0 then BC_SUFFIX else [])) 0)
      as (z & c & r & E & Hc); [vm_compute; split; congruence|done|rewrite Hv; lia|].
    unfold tryConvertDate. destruct yl as [|c0 yl]; [simpl in Hlen; lia|].
    pose proof (Forall_inv Hdig) as H1. cbn [app skip_spaces] in *. rewrite digit_not_space by done.
    rewrite (H1 : CharacterIsDigit c0 = true), E. cbn [negb]. by rewrite digit_not_separator.
Qed.

(** The years a 32-bit day number reaches have at most seven digits. *)
Lemma day_number_year y m d :
  calendar_date y m d → in_s 32 (day_number y m d) → - 10 ^ 7 < y < 10 ^ 7.
Proof.
  intros [Hm Hd] [Hlo Hhi]. pose proof (days_before_month_bounds y m Hm) as [Hb0 Hb1].
  unfold day_number in *. change (2 ^ (32 - 1)) with 2147483648 in *. change (10 ^ 7) with 10000000.
  assert (year_length y ≤ 366) by (unfold year_length; destruct (leap y); lia).
  pose proof days_before_1970 as E. split.
  - destruct (decide (1970 ≤ y)); [lia|]. pose proof (days_before_year_mono y 1970). lia.
  - destruct (decide (y ≤ 1970)); [lia|]. pose proof (days_before_year_mono 1970 y). lia.
Qed.

(** C21: a time of day that is printed and then parsed is the one printed.  Every date that
    its 32-bit day number can hold is printed; the text of a date or timestamp whose year is
    from 1 to 294247 parses back to it, and the parser throws on the text of every other
    date: the suffix of the years before 1 is not read, and later years, which adding days
    reaches, are out of its range. *)
Theorem text_roundtrip y m d t :
  calendar_date y m d → in_s 32 (day_number y m d) → time_range t →
  (∃ s, time_toString (mkTime t) = Ok s ∧ time_fromCString s = Ok (mkTime t)) ∧
  (readable y →
   (∃ s, date_toString (mkDate (day_number y m d)) = Ok s ∧
         date_fromCString s = Ok (mkDate (day_number y m d))) ∧
   (let v := day_number y m d * 86400000000 + t in
    ts_range v → ∃ s, ts_toString (mkTimestamp v) = Ok s ∧ ts_fromCString s = Ok (mkTimestamp v))) ∧
  (¬ readable y → ∃ s msg, date_toString (mkDate (day_number y m d)) = Ok s ∧
                           date_fromCString s = throw ConversionException msg).
Proof.
  intros Hc Hn Ht. pose proof (day_number_year y m d Hc Hn) as Hy7.
  destruct (time_number_surj t Ht) as (h & mi & sec & us & Hf & ->).
  destruct (time_Format_text _ _ _ _ Hf) as (ts & Ets & Hts).
  pose proof (time_text_parse _ _ _ _ _ Hf Hts) as Ept.
  destruct (month_day_small _ _ _ Hc) as [Hm Hd].
  destruct (date_Format_text y m d Hy7 Hm Hd) as (ds & Eds & Hds).
  assert (time_toString (mkTime (time_number h mi sec us)) = Ok ts) as Etime.
  { unfold time_toString. unfold time_fields in Hf. by rewrite time_convert_spec by lia. }
  assert (date_toString (mkDate (day_number y m d)) = Ok ds) as Edate.
  { unfold date_toString. by rewrite convert_day_number by done. }
  split_and!.
  - exists ts. split; [done|]. unfold time_fromCString. by rewrite Ept.
  - intros [Hpos Hmax]. assert (in_years y) as Hy by (unfold in_years, MIN_YEAR in *; lia).
    split; [exists ds; split; [done|]|].
    + unfold date_fromCString. rewrite <- (app_nil_r ds) at 1. by rewrite (date_text_parse y m d) by (done || lia).
    + intros v Hv. exists (ds ++ " "%char :: ts). split.
      * unfold ts_toString. rewrite ts_convert_spec by done. unfold v.
        rewrite day_of, time_of by done. cbn [mbind result_bind].
        rewrite Edate. cbn [mbind result_bind]. by rewrite Etime.
      * apply (timestamp_text_parse y m d h mi sec us); done || lia.
  - intros H0. eexists ds, _. split; [done|]. unfold date_fromCString.
    by rewrite (date_text_unreadable y m d).
Qed.

Lemma text_roundtrip_witness :
  (∃ s, ts_toString (mkTimestamp (18321 * 86400000000 + 43200500000)) = Ok s ∧
        ts_fromCString s = Ok (mkTimestamp (18321 * 86400000000 + 43200500000))) ∧
  (∃ s msg, date_toString (mkDate (day_number (-43) 3 15)) = Ok s ∧
            date_fromCString s = throw ConversionException msg) ∧
  (∃ s msg, date_toString (mkDate (day_number 303140 11 12)) = Ok s ∧
        date_fromCString s = throw ConversionException msg).
Proof.
  split_and!.
  - destruct (text_roundtrip 2020 2 29 43200500000) as (_ & H & _);
      [apply leap_day_2020|split; vm_compute; congruence|split; vm_compute; congruence|].
    destruct H as [_ H]; [split; vm_compute; congruence|]. apply H. split; vm_compute; congruence.
  - destruct (text_roundtrip (-43) 3 15 0) as (_ & _ & H);
      [split; vm_compute; split; congruence|split; vm_compute; congruence..|]. apply H. intros [? _]. lia.
  - destruct (text_roundtrip 303140 11 12 0) as (_ & _ & H);
      [split; vm_compute; split; congruence|split; vm_compute; congruence..|]. apply H.
    intros [_ Hm]. by vm_compute in Hm.
Defined.
