(* ===== verification/UpdateInfo.v ===== *)
(** * Versioned updates of a column chunk (storage/table/update_info.{h,cpp})

    Updates of committed rows are kept beside the column, in a chain of versions per
    vector of rows, newest first.  A chain is owned through [prev]; [next] is the
    neighbour on the other side, so a chain is a list here, and a
    [VectorUpdateInfo*] kept elsewhere (in the undo buffer) is the address of an
    element.  [rowsInVector] and [data] are filled together: entry [i] of [updated] is
    [rowsInVector[i]] with the value at [i] of [data], for [i < numRowsUpdated]. *)

From stdpp Require Import pretty.
From S2P Require Import Prelude.
From S2P Require Import Transaction.

#[local] Open Scope nat_scope.

Section UpdateInfo.
Context `{SystemConfig} {V : Type}.

Record VectorUpdateInfo : Type := mkVectorUpdateInfo {
  vaddr : nat;
  version : Z;
  updated : list (nat * V);
}.

Record UpdateInfo : Type := mkUpdateInfo {
  updates : list (list VectorUpdateInfo);  (** [UpdateNode]s: [info] is null when the chain is empty *)
  nextAddr : nat;  (** the allocator: addresses from here on are unused *)
}.

Definition emptyUpdateInfo : UpdateInfo := mkUpdateInfo [] 0.

Definition set_version (ts : Z) (info : VectorUpdateInfo) : VectorUpdateInfo :=
  mkVectorUpdateInfo (vaddr info) ts (updated info).

Definition numRowsUpdated (info : VectorUpdateInfo) : nat := length (updated info).

(** The position of a row in [rowsInVector]. *)
Fixpoint find_row (row : nat) (l : list (nat * V)) : option nat :=
  match l with
  | [] => None
  | (r, _) :: l => if decide (r = row) then Some 0 else S <$> find_row row l
  end.

(** Overwriting the value of a row, or appending it; the array has one cell per row of
    a vector. *)
Definition write_row (row : nat) (v : V) (l : list (nat * V)) : result (list (nat * V)) :=
  match find_row row l with
  | Some i => Ok (<[i := (row, v)]> l)
  | None => if decide (length l < DEFAULT_VECTOR_CAPACITY) then Ok (l ++ [(row, v)]) else UB
  end.

Definition conflict_message : string := "Write-write conflict of updating the same row.".

(** The traversal of [UpdateInfo::update]: the transaction's own version, if any, and
    the check of every version it does not see. *)
Fixpoint find_own (t : Transaction) (row : nat) (own : option nat) (chain : list VectorUpdateInfo) :
    result (option nat) :=
  match chain with
  | [] => Ok own
  | current :: chain =>
      if bool_decide (version current = ID t) then find_own t row (Some (vaddr current)) chain
      else if bool_decide (startTS t < version current)%Z && bool_decide (row ∈ (updated current).*1)
      then throw RuntimeException conflict_message
      else find_own t row own chain
  end.

Fixpoint write_at (addr : nat) (row : nat) (v : V) (chain : list VectorUpdateInfo) : result (list VectorUpdateInfo) :=
  match chain with
  | [] => UB
  | info :: chain =>
      if decide (vaddr info = addr) then
        l ← write_row row v (updated info);
        Ok (mkVectorUpdateInfo addr (version info) l :: chain)
      else chain' ← write_at addr row v chain; Ok (info :: chain')
  end.

(** [getOrCreateUpdateNode]: the vector of nodes grows to the index. *)
Definition getOrCreateUpdateNode (vectorIdx : nat) (ui : UpdateInfo) : UpdateInfo :=
  mkUpdateInfo (updates ui ++ replicate (S vectorIdx - length (updates ui)) []) (nextAddr ui).

(** [UpdateInfo::update]: the address of the version written. *)
Definition update (t : Transaction) (vectorIdx row : nat) (v : V) : stM UpdateInfo nat := λ ui,
  let ui := getOrCreateUpdateNode vectorIdx ui in
  match updates ui !! vectorIdx with
  | None => (ui, UB)
  | Some chain =>
      match find_own t row None chain with
      | Throw e => (ui, Throw e)
      | UB => (ui, UB)
      | Ok own =>
          let '(addr, chain, next) :=
            match own with
            | Some a => (a, chain, nextAddr ui)
            | None => (nextAddr ui, mkVectorUpdateInfo (nextAddr ui) (ID t) [] :: chain,
                       S (nextAddr ui))
            end in
          match write_at addr row v chain with
          | Ok chain => (mkUpdateInfo (<[vectorIdx := chain]> (updates ui)) next, Ok addr)
          | Throw e => (ui, Throw e)
          | UB => (ui, UB)
          end
      end
  end.

(** ** Reading *)

Definition visible (t : Transaction) (info : VectorUpdateInfo) : bool :=
  bool_decide (version info = ID t) || bool_decide (version info ≤ startTS t)%Z.

(** [iterateVectorInfo]: the versions the function is called on, in order. *)
Definition iterateVectorInfo (t : Transaction) (idx : nat) (ui : UpdateInfo) :
    list VectorUpdateInfo :=
  match updates ui !! idx with
  | Some chain => filter (λ info, visible t info = true) chain
  | None => []
  end.

(** One version in [iterateScan]: the reads it makes, with their output positions, and
    the rows done so far (the bitset). *)
Fixpoint scan_rows (startOff endOff pos : nat) (done : gset nat) (l : list (nat * V)) :
    list (nat * V) * gset nat :=
  match l with
  | [] => ([], done)
  | (row, v) :: l =>
      if decide (row < startOff ∨ endOff ≤ row) then scan_rows startOff endOff pos done l
      else if decide (row - startOff ∈ done) then scan_rows startOff endOff pos done l
      else
        let '(out, done) := scan_rows startOff endOff pos ({[row - startOff]} ∪ done) l in
        ((pos + (row - startOff), v) :: out, done)
  end.

Fixpoint scan_infos (startOff endOff pos : nat) (done : gset nat)
    (infos : list VectorUpdateInfo) : list (nat * V) :=
  match infos with
  | [] => []
  | info :: infos =>
      if decide (numRowsUpdated info = 0) then scan_infos startOff endOff pos done infos
      else if decide (size done = endOff - startOff) then scan_infos startOff endOff pos done infos
      else
        let '(out, done) := scan_rows startOff endOff pos done (updated info) in
        out ++ scan_infos startOff endOff pos done infos
  end.

(** The loop over the vectors from [idx] to [endIdx], [n] of them left. *)
Fixpoint scan_vectors (t : Transaction) (ui : UpdateInfo) (startIdx startOff endIdx endOff : nat)
    (n idx pos : nat) : list (nat * V) :=
  match n with
  | O => []
  | S n =>
      let s := if decide (idx = startIdx) then startOff else 0 in
      let e := if decide (idx = endIdx) then endOff else DEFAULT_VECTOR_CAPACITY in
      scan_infos s e pos ∅ (iterateVectorInfo t idx ui) ++
      scan_vectors t ui startIdx startOff endIdx endOff n (S idx) (pos + (e - s))
  end.

(** [iterateScan]: every read, as the output position and the value. *)
Definition iterateScan (t : Transaction) (ui : UpdateInfo)
    (startOffsetToScan numRowsToScan startPosInOutput : nat) : list (nat * V) :=
  match updates ui with
  | [] => []
  | _ :: _ =>
      let cap := DEFAULT_VECTOR_CAPACITY in
      let startIdx := startOffsetToScan / cap in
      let endIdx := (startOffsetToScan + numRowsToScan) / cap in
      scan_vectors t ui startIdx (startOffsetToScan mod cap) endIdx
        ((startOffsetToScan + numRowsToScan) mod cap) (S (endIdx - startIdx)) startIdx
        startPosInOutput
  end.

(** Writing the reads to the output vector, in order. *)
Fixpoint write_all (reads : list (nat * V)) (output : list V) : result (list V) :=
  match reads with
  | [] => Ok output
  | (pos, v) :: reads =>
      if decide (pos < length output) then write_all reads (<[pos := v]> output) else UB
  end.

Definition scan (t : Transaction) (ui : UpdateInfo) (output : list V) (offsetInChunk len : nat) :
    result (list V) :=
  write_all (iterateScan t ui offsetInChunk len 0) output.

Definition scanCommitted (t : Transaction) (ui : UpdateInfo) (output : list V)
    (startOffsetInOutput startRowScanned numRows : nat) : result (list V) :=
  write_all (iterateScan t ui startRowScanned numRows startOffsetInOutput) output.

Definition hasUpdates (t : Transaction) (ui : UpdateInfo) (startRow numRows : nat) : bool :=
  match iterateScan t ui startRow numRows 0 with [] => false | _ :: _ => true end.

(** The first value of a row in a version, and in a list of versions. *)
Definition row_value (row : nat) (info : VectorUpdateInfo) : option V :=
  i ← find_row row (updated info); snd <$> updated info !! i.
Fixpoint first_value (row : nat) (infos : list VectorUpdateInfo) : option V :=
  match infos with
  | [] => None
  | info :: infos =>
      match row_value row info with Some v => Some v | None => first_value row infos end
  end.

Definition lookup (t : Transaction) (ui : UpdateInfo) (rowInChunk : nat) (output : list V)
    (posInOutputVector : nat) : result (list V) :=
  match updates ui with
  | [] => Ok output
  | _ :: _ =>
      match first_value (rowInChunk mod DEFAULT_VECTOR_CAPACITY)
              (iterateVectorInfo t (rowInChunk / DEFAULT_VECTOR_CAPACITY) ui) with
      | Some v => write_all [(posInOutputVector, v)] output
      | None => Ok output
      end
  end.

(** The set has the positions in the vectors, without the vector. *)
Definition getNumUpdatedRows (t : Transaction) (ui : UpdateInfo) : nat :=
  size (list_to_set (concat ((λ idx, concat ((λ info, (updated info).*1) <$> iterateVectorInfo t idx ui))
                             <$> seq 0 (length (updates ui)))) : gset nat).

(** ** Commit and rollback *)

Fixpoint commit_at (addr : nat) (ts : Z) (chain : list VectorUpdateInfo) : result (list VectorUpdateInfo) :=
  match chain with
  | [] => UB
  | info :: chain =>
      if decide (vaddr info = addr) then Ok (set_version ts info :: chain)
      else chain' ← commit_at addr ts chain; Ok (info :: chain')
  end.

Definition commit (vectorIdx addr : nat) (commitTS : Z) (ui : UpdateInfo) : result UpdateInfo :=
  match updates ui !! vectorIdx with
  | None => throw InternalException 
      ("UpdateInfo does not have update node for vector index: " +:+ pretty vectorIdx)
  | Some chain =>
      chain' ← commit_at addr commitTS chain;
      Ok (mkUpdateInfo (<[vectorIdx := chain']> (updates ui)) (nextAddr ui))
  end.

(** The first version with the number is unlinked. *)
Fixpoint remove_version (ver : Z) (chain : list VectorUpdateInfo) : list VectorUpdateInfo :=
  match chain with
  | [] => []
  | info :: chain =>
      if decide (version info = ver) then chain else info :: remove_version ver chain
  end.

Definition rollback (vectorIdx : nat) (ver : Z) (ui : UpdateInfo) : result UpdateInfo :=
  match updates ui !! vectorIdx with
  | None => UB
  | Some chain =>
      Ok (mkUpdateInfo (<[vectorIdx := remove_version ver chain]> (updates ui)) (nextAddr ui))
  end.

End UpdateInfo.

Arguments VectorUpdateInfo V : clear implicits.
Arguments UpdateInfo V : clear implicits.

(** * Snapshot isolation of updates: the abstract machine and the concrete one

    The abstract machine keeps one map of writes per version: the number of the writing
    transaction while it runs, the commit timestamp afterwards.  The concrete one runs
    the code of UpdateInfo.v and replays the undo log of a transaction the way
    storage/undo_buffer.cpp does: forwards to commit it, backwards to roll it back. *)

#[local] Open Scope nat_scope.

Section UpdateSpec.
Context `{SystemConfig} {V : Type}.

(** A row: its vector and its position in it. *)
Definition Row : Type := nat * nat.

(** ** The abstract machine *)

Record Spec : Type := mkSpec {
  writes : gmap Z (gmap Row V);
  active : gmap Z Z;  (** the snapshot of every running transaction *)
  clock : Z;
  nextID : Z;
}.

Definition wrote (sp : Spec) (ver : Z) (k : Row) (v : V) : Prop :=
  ∃ m, writes sp !! ver = Some m ∧ m !! k = Some v.

(** What a reader with number [id] and snapshot [s] must see in a row: its own write,
    or else the write with the largest commit timestamp up to the snapshot, or none. *)
Definition reads_as (sp : Spec) (id s : Z) (k : Row) (o : option V) : Prop :=
  match o with
  | Some v => wrote sp id k v ∨
              (∀ v', ¬ wrote sp id k v') ∧
              ∃ ver, (ver ≤ s)%Z ∧ wrote sp ver k v ∧
                     ∀ ver' v', (ver' ≤ s)%Z → wrote sp ver' k v' → (ver' ≤ ver)%Z
  | None => (∀ v', ¬ wrote sp id k v') ∧ ∀ ver v', (ver ≤ s)%Z → ¬ wrote sp ver k v'
  end.

(** Another transaction has written the row and [id], with snapshot [s], does not see it. *)
Definition conflicts (sp : Spec) (id s : Z) (k : Row) : Prop :=
  ∃ ver v, ver ≠ id ∧ (s < ver)%Z ∧ wrote sp ver k v.

Definition spec_begin (sp : Spec) : Spec :=
  mkSpec (writes sp) (<[nextID sp := clock sp]> (active sp)) (clock sp) (nextID sp + 1).
Definition spec_write (id : Z) (k : Row) (v : V) (sp : Spec) : Spec :=
  mkSpec (<[id := <[k := v]> (default ∅ (writes sp !! id))]> (writes sp)) (active sp) (clock sp)
    (nextID sp).
Definition spec_commit (id : Z) (sp : Spec) : Spec :=
  let ts := (clock sp + 1)%Z in
  mkSpec (match writes sp !! id with
          | Some m => <[ts := m]> (delete id (writes sp))
          | None => writes sp
          end) (delete id (active sp)) ts (nextID sp).
Definition spec_rollback (id : Z) (sp : Spec) : Spec :=
  mkSpec (delete id (writes sp)) (delete id (active sp)) (clock sp) (nextID sp).

(** ** The concrete machine *)

Record World : Type := mkWorld {
  ui : UpdateInfo V;
  wactive : gmap Z Z;
  wclock : Z;
  wnextID : Z;
  undo : gmap Z (list (nat * nat));  (** records: vector and address of the version *)
}.

Definition undo_log (w : World) (id : Z) : list (nat * nat) := default [] (undo w !! id).

(** [UndoBuffer::commit] and [rollback] on update records. *)
Definition undo_commit (ts : Z) (log : list (nat * nat)) (u : UpdateInfo V) :
    result (UpdateInfo V) :=
  foldM (λ u '(vec, addr), commit vec addr ts u) u log.
Definition undo_rollback (id : Z) (log : list (nat * nat)) (u : UpdateInfo V) :
    result (UpdateInfo V) :=
  foldM (λ u '(vec, _), rollback vec id u) u (rev log).

Inductive label : Type :=
| LBegin
| LUpdate (id : Z) (k : Row) (v : V)
| LCommit (id : Z)
| LRollback (id : Z).

(** One operation; [None] when its result is undefined behaviour or the transaction
    does not run.  [true] is success, [false] the exception of a conflict. *)
Definition wstep (w : World) (l : label) : option (World * bool) :=
  match l with
  | LBegin =>
      Some (mkWorld (ui w) (<[wnextID w := wclock w]> (wactive w)) (wclock w) (wnextID w + 1)
              (undo w), true)
  | LUpdate id k v =>
      s ← wactive w !! id;
      match update (newTransaction WRITE id s) k.1 k.2 v (ui w) with
      | (u, Ok addr) =>
          Some (mkWorld u (wactive w) (wclock w) (wnextID w)
                  (<[id := undo_log w id ++ [(k.1, addr)]]> (undo w)), true)
      | (u, Throw _) => Some (mkWorld u (wactive w) (wclock w) (wnextID w) (undo w), false)
      | (_, UB) => None
      end
  | LCommit id =>
      _ ← wactive w !! id;
      match undo_commit (wclock w + 1) (undo_log w id) (ui w) with
      | Ok u => Some (mkWorld u (delete id (wactive w)) (wclock w + 1) (wnextID w)
                        (delete id (undo w)), true)
      | _ => None
      end
  | LRollback id =>
      _ ← wactive w !! id;
      match undo_rollback id (undo_log w id) (ui w) with
      | Ok u => Some (mkWorld u (delete id (wactive w)) (wclock w) (wnextID w)
                        (delete id (undo w)), true)
      | _ => None
      end
  end.

Definition world0 (cl next : Z) : World := mkWorld emptyUpdateInfo ∅ cl next ∅.
Definition spec0 (cl next : Z) : Spec := mkSpec ∅ ∅ cl next.

(** The abstract step of a label. *)
Definition sstep (sp : Spec) (l : label) (sp' : Spec) (ok : bool) : Prop :=
  match l with
  | LBegin => sp' = spec_begin sp ∧ ok = true
  | LUpdate id k v =>
      ∃ s, active sp !! id = Some s ∧
        (conflicts sp id s k ∧ ok = false ∧ sp' = sp ∨
         ¬ conflicts sp id s k ∧ ok = true ∧ sp' = spec_write id k v sp)
  | LCommit id => is_Some (active sp !! id) ∧ sp' = spec_commit id sp ∧ ok = true
  | LRollback id => is_Some (active sp !! id) ∧ sp' = spec_rollback id sp ∧ ok = true
  end.

(** The operations that may be asked for: of running transactions, on rows of a vector,
    with numbers and timestamps that stay apart. *)
Definition enabled (w : World) (l : label) : Prop :=
  match l with
  | LBegin => True
  | LUpdate id k _ => is_Some (wactive w !! id) ∧ k.2 < DEFAULT_VECTOR_CAPACITY
  | LCommit id => is_Some (wactive w !! id) ∧ (wclock w + 1 < START_TRANSACTION_ID)%Z
  | LRollback id => is_Some (wactive w !! id)
  end.

(** ** The relation between the two *)

Definition chain (u : UpdateInfo V) (vec : nat) : list (VectorUpdateInfo V) := default [] (updates u !! vec).

Definition has_row (row : nat) (info : VectorUpdateInfo V) : Prop := row ∈ (updated info).*1.

(** [x] lies above [y] in a chain: [x] is committed, if at all, after the snapshot of a
    running [y]; and if both write a row, [y] was committed before [x] was (or, while
    [x] runs, before its snapshot). *)
Definition newer (act : gmap Z Z) (x y : VectorUpdateInfo V) : Prop :=
  (∀ s, act !! version y = Some s → (s < version x)%Z) ∧
  ∀ row, has_row row x → has_row row y →
    (version y < START_TRANSACTION_ID)%Z ∧
    match act !! version x with Some s => version y ≤ s | None => version y < version x end%Z.

Definition info_ok (sp : Spec) (vec : nat) (info : VectorUpdateInfo V) : Prop :=
  NoDup (updated info).*1 ∧ Forall (λ row, row < DEFAULT_VECTOR_CAPACITY) (updated info).*1 ∧
  ∀ row v, (row, v) ∈ updated info ↔ wrote sp (version info) (vec, row) v.

Record related (w : World) (sp : Spec) : Prop := {
  rel_active : wactive w = active sp;
  rel_clock : wclock w = clock sp;
  rel_next : wnextID w = nextID sp;
  (** numbers and timestamps *)
  rel_ids : ∀ id s, active sp !! id = Some s →
              (START_TRANSACTION_ID ≤ id < nextID sp ∧ s ≤ clock sp)%Z;
  rel_clock_range : (0 ≤ clock sp < START_TRANSACTION_ID)%Z ∧ (START_TRANSACTION_ID ≤ nextID sp)%Z;
  rel_versions : ∀ ver, is_Some (writes sp !! ver) →
                   is_Some (active sp !! ver) ∨ (0 < ver ≤ clock sp)%Z;
  (** chains *)
  rel_info : ∀ vec info, info ∈ chain (ui w) vec →
               info_ok sp vec info ∧ vaddr info < nextAddr (ui w) ∧
               is_Some (writes sp !! version info);
  rel_complete : ∀ ver vec row v, wrote sp ver (vec, row) v →
                   ∃ info, info ∈ chain (ui w) vec ∧ version info = ver;
  rel_addrs : ∀ vec, NoDup (vaddr <$> chain (ui w) vec);
  rel_nodup : ∀ vec, NoDup (version <$> chain (ui w) vec);
  rel_order : ∀ vec, StronglySorted (newer (active sp)) (chain (ui w) vec);
  (** undo logs *)
  rel_log : ∀ id vec addr, is_Some (active sp !! id) → (vec, addr) ∈ undo_log w id →
              ∃ info, info ∈ chain (ui w) vec ∧ vaddr info = addr ∧ version info = id;
  rel_undo : ∀ id, active sp !! id = None → undo_log w id = [];
  rel_logged : ∀ id vec info, is_Some (active sp !! id) → info ∈ chain (ui w) vec →
                 version info = id → (vec, vaddr info) ∈ undo_log w id;
}.

End UpdateSpec.

Arguments Spec V : clear implicits.
Arguments World V : clear implicits.
Arguments label V : clear implicits.
