(* ===== verification/UpdateFacts.v ===== *)
(** * Lemmas on update chains

    The lists the operations of UpdateInfo.v build: rows of a version, versions of a
    chain, chains of a chunk, and the replay of an undo log. *)

From S2P Require Import Prelude.
From S2P Require Import Transaction.
From S2P Require Import UpdateInfo.

#[local] Open Scope nat_scope.

(** Mapping a function over a sorted list. *)
Lemma StronglySorted_map {A B} (R : A → A → Prop) (R' : B → B → Prop) (f : A → B) (l : list A) :
  StronglySorted R l → (∀ x y, x ∈ l → y ∈ l → R x y → R' (f x) (f y)) →
  StronglySorted R' (f <$> l).
Proof.
  induction 1 as [|x l Hl IH Hx]; intros HR; [constructor|]. simpl. constructor.
  - apply IH. intros. apply HR; [by right..|done].
  - rewrite Forall_forall in Hx. apply Forall_forall. intros y (y' & -> & Hy)%list_elem_of_fmap.
    apply HR; [left|by right|by apply Hx].
Qed.

Lemma StronglySorted_filter_sub {A} (R : A → A → Prop) (P : A → Prop) `{∀ x, Decision (P x)}
    (l : list A) :
  StronglySorted R l → StronglySorted R (filter P l).
Proof.
  induction 1 as [|x l Hl IH Hx]; [constructor|]. rewrite filter_cons. case_decide; [|done].
  constructor; [done|]. rewrite Forall_forall in Hx. apply Forall_forall.
  intros y [_ Hy]%list_elem_of_filter. by apply Hx.
Qed.

(** An element of a sorted list and the elements before it. *)
Lemma StronglySorted_split {A} (R : A → A → Prop) (l1 l2 : list A) x y :
  StronglySorted R (l1 ++ x :: l2) → y ∈ l1 → R y x.
Proof.
  induction l1 as [|z l1 IH]; [by intros _ ?%elem_of_nil|]. simpl. intros HS Hy.
  inversion HS as [|? ? HS' HF]; subst. apply elem_of_cons in Hy as [->|Hy]; [|by apply IH].
  rewrite Forall_forall in HF. apply HF. apply elem_of_app. right. left.
Qed.

Lemma StronglySorted_after {A} (R : A → A → Prop) (l1 l2 : list A) x y :
  StronglySorted R (l1 ++ x :: l2) → y ∈ l2 → R x y.
Proof.
  induction l1 as [|z l1 IH]; simpl; intros HS Hy; inversion HS as [|? ? HS' HF]; subst.
  - rewrite Forall_forall in HF. by apply HF.
  - by apply IH.
Qed.

Lemma StronglySorted_replace {A} (R : A → A → Prop) (l1 l2 : list A) x x' :
  StronglySorted R (l1 ++ x :: l2) → (∀ y, y ∈ l1 → R y x → R y x') →
  (∀ y, y ∈ l2 → R x y → R x' y) → StronglySorted R (l1 ++ x' :: l2).
Proof.
  induction l1 as [|z l1 IH]; simpl; intros HS H1 H2; inversion HS as [|? ? HS' HF]; subst.
  - constructor; [done|]. rewrite Forall_forall in *. eauto.
  - constructor; [apply IH; [done|intros; apply H1; [by right|done]|done]|].
    rewrite !Forall_app, !Forall_cons in *. destruct HF as (HF1 & Hzx & HF2).
    split_and!; [done| |done]. apply H1; [left|done].
Qed.

Lemma NoDup_fmap_eq {A B} (f : A → B) (l : list A) x y :
  NoDup (f <$> l) → x ∈ l → y ∈ l → f x = f y → x = y.
Proof.
  induction l as [|z l IH]; [by intros _ ?%elem_of_nil|]. simpl.
  intros [Hz Hl]%NoDup_cons Hx Hy E.
  apply elem_of_cons in Hx as [->|Hx], Hy as [->|Hy]; [done|..|by apply IH].
  - exfalso. apply Hz. rewrite E. by apply list_elem_of_fmap_2.
  - exfalso. apply Hz. rewrite <- E. by apply list_elem_of_fmap_2.
Qed.

Section UpdateFacts.
Context `{SystemConfig} {V : Type}.
Implicit Types (row : nat) (info : VectorUpdateInfo V).

(** ** Rows of a version *)

Lemma find_row_None row (l : list (nat * V)) : find_row row l = None ↔ row ∉ l.*1.
Proof.
  induction l as [|[r v] l IH]; simpl.
  - split; [intros _; apply not_elem_of_nil|done].
  - rewrite not_elem_of_cons. case_decide; [split; [done|intros []; congruence]|].
    rewrite fmap_None, IH. intuition congruence.
Qed.

Lemma find_row_Some row (l : list (nat * V)) i : find_row row l = Some i → ∃ v, l !! i = Some (row, v).
Proof.
  revert i. induction l as [|[r v] l IH]; intros i; simpl; [done|].
  case_decide as Hd; [intros [= <-]; subst; eauto|].
  intros (j & Hj & ->)%fmap_Some. apply IH in Hj as [x Hx]. by exists x.
Qed.

Lemma row_value_spec row info v :
  NoDup (updated info).*1 → row_value row info = Some v ↔ (row, v) ∈ updated info.
Proof.
  unfold row_value. set (l := updated info). intros HN. split.
  - destruct (find_row row l) as [i|] eqn:E; [|done]. simpl.
    apply find_row_Some in E as [x Hx]. rewrite Hx. simpl. intros [= ->].
    by eapply list_elem_of_lookup_2.
  - intros Hv. destruct (find_row row l) as [i|] eqn:E.
    + simpl. apply find_row_Some in E as [x Hx]. rewrite Hx. simpl. f_equal.
      apply list_elem_of_lookup_2 in Hx.
      pose proof (NoDup_fmap_eq fst l (row, v) (row, x) HN Hv Hx eq_refl). congruence.
    + exfalso. apply find_row_None in E. apply E. by apply (list_elem_of_fmap_2 fst) in Hv.
Qed.

Lemma row_value_None row info : row_value row info = None ↔ ¬ has_row row info.
Proof.
  unfold row_value, has_row. destruct (find_row row (updated info)) as [i|] eqn:E; simpl.
  - apply find_row_Some in E as [v Hv]. rewrite Hv. split; [done|]. intros Hn. destruct Hn.
    by apply list_elem_of_lookup_2, (list_elem_of_fmap_2 fst) in Hv.
  - split; [intros _|done]. by apply find_row_None.
Qed.

Lemma has_row_value row info : has_row row info → ∃ v, (row, v) ∈ updated info.
Proof. unfold has_row. intros ([r v] & -> & Hv)%list_elem_of_fmap. by exists v. Qed.
Lemma value_has_row row info v : (row, v) ∈ updated info → has_row row info.
Proof. intros Hv. by apply (list_elem_of_fmap_2 fst) in Hv. Qed.

(** Writing keeps one cell per row and never leaves the array. *)
Lemma write_row_spec row v (l : list (nat * V)) :
  NoDup l.*1 → Forall (λ r, r < DEFAULT_VECTOR_CAPACITY) l.*1 → row < DEFAULT_VECTOR_CAPACITY →
  ∃ l', write_row row v l = Ok l' ∧ NoDup l'.*1 ∧
    Forall (λ r, r < DEFAULT_VECTOR_CAPACITY) l'.*1 ∧
    ∀ r x, (r, x) ∈ l' ↔ (r = row ∧ x = v) ∨ (r ≠ row ∧ (r, x) ∈ l).
Proof.
  intros HN HF Hrow. unfold write_row. destruct (find_row row l) as [i|] eqn:E.
  - apply find_row_Some in E as [x0 Hi]. eexists. split; [done|].
    assert ((<[i:=(row, v)]> l).*1 = l.*1) as E1.
    { rewrite list_fmap_insert. simpl. apply list_insert_id. by rewrite list_lookup_fmap, Hi. }
    rewrite E1. split_and!; [done..|]. intros r x. split.
    + intros (j & Hj)%list_elem_of_lookup. destruct (decide (i = j)) as [->|Hij].
      * rewrite list_lookup_insert_eq in Hj by (by eapply lookup_lt_Some).
        injection Hj as <- <-. by left.
      * rewrite list_lookup_insert_ne in Hj by done. right.
        split; [|by eapply list_elem_of_lookup_2]. intros ->. apply Hij.
        eapply (NoDup_lookup l.*1 i j row HN); by rewrite list_lookup_fmap, ?Hi, ?Hj.
    + intros [[-> ->]|[Hr Hx]].
      * apply list_elem_of_lookup_2 with i. apply list_lookup_insert_eq. by eapply lookup_lt_Some.
      * apply list_elem_of_lookup in Hx as [j Hj]. apply list_elem_of_lookup_2 with j.
        rewrite list_lookup_insert_ne; [done|]. intros <-. congruence.
  - apply find_row_None in E.
    assert (length (row :: l.*1) ≤ length (seq 0 DEFAULT_VECTOR_CAPACITY)) as Hlen.
    { apply submseteq_length, NoDup_submseteq; [by constructor|]. intros r Hr.
      apply elem_of_seq. rewrite Forall_forall in HF.
      apply elem_of_cons in Hr as [->|Hr]; [lia|]. apply HF in Hr. lia. }
    rewrite length_seq in Hlen. simpl in Hlen. rewrite length_fmap in Hlen.
    rewrite decide_True by lia. eexists. split; [done|]. rewrite fmap_app. simpl. split_and!.
    + apply NoDup_app. split_and!; [done| |apply NoDup_singleton].
      intros r Hr ->%list_elem_of_singleton. done.
    + apply Forall_app_2; [done|]. by repeat constructor.
    + intros r x. rewrite elem_of_app, list_elem_of_singleton. split.
      * intros [Hx|[= -> ->]]; [|by left]. right. split; [|done]. intros ->.
        apply E. by apply (list_elem_of_fmap_2 fst) in Hx.
      * intros [[-> ->]|[_ Hx]]; [by right|by left].
Qed.

(** ** Reading a chain *)

Lemma first_value_Some row (infos : list (VectorUpdateInfo V)) v :
  first_value row infos = Some v →
  ∃ l1 info l2, infos = l1 ++ info :: l2 ∧ row_value row info = Some v ∧
                ∀ x, x ∈ l1 → ¬ has_row row x.
Proof.
  induction infos as [|x infos IH]; simpl; [done|].
  destruct (row_value row x) as [v'|] eqn:E.
  - intros [= ->]. exists [], x, infos. split_and!; [done..|]. by intros ? ?%elem_of_nil.
  - intros (l1 & info & l2 & -> & Hv & Hl)%IH. exists (x :: l1), info, l2.
    split_and!; [done..|]. intros y [->|Hy]%elem_of_cons; [by apply row_value_None|by apply Hl].
Qed.

Lemma first_value_None row (infos : list (VectorUpdateInfo V)) :
  first_value row infos = None → ∀ x, x ∈ infos → ¬ has_row row x.
Proof.
  induction infos as [|x infos IH]; simpl; [by intros _ ? ?%elem_of_nil|].
  destruct (row_value row x) eqn:E; [done|]. intros Hn y [->|Hy]%elem_of_cons; [|by apply IH].
  by apply row_value_None.
Qed.

(** ** The operations on a chain *)

Lemma find_own_ok t row own (c : list (VectorUpdateInfo V)) :
  (∀ x, x ∈ c → version x ≠ ID t → (startTS t < version x)%Z → ¬ has_row row x) →
  ∃ o, find_own t row own c = Ok o ∧
    ((∃ x, x ∈ c ∧ version x = ID t ∧ o = Some (vaddr x)) ∨
     ((∀ x, x ∈ c → version x ≠ ID t) ∧ o = own)).
Proof.
  revert own. induction c as [|y c IH]; intros own Hc.
  - exists own. split; [done|right]. split; [|done]. by intros ? ?%elem_of_nil.
  - assert (∀ x, x ∈ c → version x ≠ ID t → (startTS t < version x)%Z → ¬ has_row row x) as Hc'
      by (intros; apply Hc; [by right|done..]).
    simpl. case_bool_decide as Hy.
    + destruct (IH (Some (vaddr y)) Hc') as (o & -> & [(x & Hx & E & ->)|[Hn ->]]);
        (eexists; split; [done|left]).
      * exists x. split_and!; [by right|done..].
      * exists y. split_and!; [left|done..].
    + assert ((bool_decide (startTS t < version y)%Z && bool_decide (row ∈ (updated y).*1)) = false)
        as ->.
      { apply not_true_iff_false. rewrite andb_true_iff, !bool_decide_eq_true. intros [H1 H2].
        by apply (Hc y); [left|..]. }
      destruct (IH own Hc') as (o & -> & [(x & Hx & E & ->)|[Hn ->]]);
        (eexists; split; [done|]).
      * left. exists x. split_and!; [by right|done..].
      * right. split; [|done]. intros x [->|Hx]%elem_of_cons; [done|by apply Hn].
Qed.

Lemma find_own_conflict t row own (c : list (VectorUpdateInfo V)) x :
  x ∈ c → version x ≠ ID t → (startTS t < version x)%Z → has_row row x →
  find_own t row own c = throw RuntimeException conflict_message.
Proof.
  revert own. induction c as [|y c IH]; intros own Hx Hv Hs Hr; [by apply elem_of_nil in Hx|].
  simpl. apply elem_of_cons in Hx as [<-|Hx].
  - rewrite bool_decide_false by done. by rewrite !bool_decide_true by done.
  - case_bool_decide; [by apply IH|]. case_match; [done|by apply IH].
Qed.

Lemma write_at_spec row v (c1 c2 : list (VectorUpdateInfo V)) info l :
  vaddr info ∉ vaddr <$> c1 → write_row row v (updated info) = Ok l →
  write_at (vaddr info) row v (c1 ++ info :: c2) =
  Ok (c1 ++ mkVectorUpdateInfo (vaddr info) (version info) l :: c2).
Proof.
  intros Hn Hl. induction c1 as [|y c1 IH]; simpl.
  - by rewrite decide_True, Hl by done.
  - rewrite fmap_cons, not_elem_of_cons in Hn. destruct Hn as [Hy Hn].
    rewrite decide_False by congruence. by rewrite IH by done.
Qed.

Lemma commit_at_spec addr ts (c : list (VectorUpdateInfo V)) :
  NoDup (vaddr <$> c) → addr ∈ vaddr <$> c →
  commit_at addr ts c =
  Ok ((λ x, if decide (vaddr x = addr) then set_version ts x else x) <$> c).
Proof.
  induction c as [|y c IH]; simpl; [by intros _ ?%elem_of_nil|].
  rewrite NoDup_cons, elem_of_cons. intros [Hy HN] Hin. case_decide as Hd.
  - f_equal. f_equal. symmetry. rewrite <- (list_fmap_id c) at 2.
    apply list_fmap_ext. intros i x Hx. rewrite decide_False; [done|].
    intros E. apply Hy. rewrite Hd, <- E. apply list_elem_of_fmap_2.
    by eapply list_elem_of_lookup_2.
  - rewrite IH; [done|done|]. destruct Hin as [->|]; done.
Qed.

Lemma remove_version_spec ver (c : list (VectorUpdateInfo V)) :
  NoDup (version <$> c) → remove_version ver c = filter (λ x, version x ≠ ver) c.
Proof.
  induction c as [|y c IH]; [done|]. rewrite fmap_cons, NoDup_cons. intros [Hy HN].
  rewrite filter_cons. cbn [remove_version]. destruct (decide (version y = ver)) as [E|E].
  - rewrite decide_False by naive_solver. rewrite filter_all; [done|].
    intros x Hx Ex. apply Hy. rewrite E, <- Ex. by apply list_elem_of_fmap_2.
  - rewrite decide_True by done. by rewrite IH.
Qed.

Lemma NoDup_fmap_filter {A B} (f : A → B) (P : A → Prop) `{∀ x, Decision (P x)} (l : list A) :
  NoDup (f <$> l) → NoDup (f <$> filter P l).
Proof.
  intros HN. eapply sublist_NoDup; [exact HN|]. apply fmap_sublist, sublist_filter.
Qed.

(** ** Chains of a chunk *)

Lemma chain_insert (us : list (list (VectorUpdateInfo V))) vec c n vec' :
  vec < length us →
  chain (mkUpdateInfo (<[vec := c]> us) n) vec' =
  if decide (vec' = vec) then c else default [] (us !! vec').
Proof.
  intros Hv. unfold chain. simpl. case_decide as E; [subst; by rewrite list_lookup_insert_eq|].
  by rewrite list_lookup_insert_ne.
Qed.

Lemma chain_getOrCreate vec (u : UpdateInfo V) vec' :
  chain (getOrCreateUpdateNode vec u) vec' = chain u vec'.
Proof.
  unfold chain, getOrCreateUpdateNode. simpl.
  destruct (decide (vec' < length (updates u))); [by rewrite lookup_app_l|].
  rewrite lookup_app_r by lia. rewrite (lookup_ge_None_2 (updates u)) by lia. simpl.
  destruct (replicate _ _ !! _) eqn:E; [|done]. by apply lookup_replicate in E as [-> _].
Qed.

Lemma getOrCreate_length vec (u : UpdateInfo V) : vec < length (updates (getOrCreateUpdateNode vec u)).
Proof. unfold getOrCreateUpdateNode. simpl. rewrite length_app, length_replicate. lia. Qed.

Lemma chain_lookup (u : UpdateInfo V) vec info :
  info ∈ chain u vec → vec < length (updates u) ∧ updates u !! vec = Some (chain u vec).
Proof.
  unfold chain. destruct (updates u !! vec) as [c|] eqn:E; simpl; [|by intros ?%elem_of_nil].
  intros _. split; [by eapply lookup_lt_Some|done].
Qed.

(** ** Replaying an undo log *)

Definition stamp (log : list (nat * nat)) (ts : Z) (vec : nat) (x : VectorUpdateInfo V) :=
  if decide ((vec, vaddr x) ∈ log) then set_version ts x else x.

Lemma stamp_vaddr log ts vec x : vaddr (stamp log ts vec x) = vaddr x.
Proof. unfold stamp. by case_decide. Qed.

Lemma undo_commit_spec ts log (u : UpdateInfo V) :
  (∀ vec, NoDup (vaddr <$> chain u vec)) →
  (∀ vec addr, (vec, addr) ∈ log → addr ∈ vaddr <$> chain u vec) →
  ∃ u', undo_commit ts log u = Ok u' ∧ nextAddr u' = nextAddr u ∧
        ∀ vec, chain u' vec = stamp log ts vec <$> chain u vec.
Proof.
  revert u. induction log as [|[vec addr] log IH]; intros u HN Hlog.
  - exists u. split_and!; [done..|]. intros vec. rewrite <- (list_fmap_id (chain u vec)) at 1.
    apply list_fmap_ext. intros i x _. unfold stamp. rewrite decide_False; [done|].
    apply not_elem_of_nil.
  - assert (addr ∈ vaddr <$> chain u vec) as Ha by (apply Hlog; left).
    apply list_elem_of_fmap in Ha as Hx. destruct Hx as (x0 & _ & Hx0).
    apply chain_lookup in Hx0 as [Hlen Hlk].
    set (c' := (λ x, if decide (vaddr x = addr) then set_version ts x else x) <$> chain u vec).
    set (u1 := mkUpdateInfo (<[vec := c']> (updates u)) (nextAddr u)).
    assert (commit vec addr ts u = Ok u1) as E1.
    { unfold commit. rewrite Hlk. by rewrite commit_at_spec by auto. }
    assert (∀ v, chain u1 v = stamp [(vec, addr)] ts v <$> chain u v) as Ec.
    { intros v. unfold u1. rewrite chain_insert by done. case_decide as Ev; [subst v|].
      - apply list_fmap_ext. intros i x _. unfold stamp. apply decide_ext.
        rewrite list_elem_of_singleton. naive_solver.
      - change (default [] (updates u !! v)) with (chain u v).
        rewrite <- (list_fmap_id (chain u v)) at 1. apply list_fmap_ext. intros i x _.
        unfold stamp. rewrite decide_False; [done|]. rewrite list_elem_of_singleton. naive_solver. }
    assert (∀ v, vaddr <$> chain u1 v = vaddr <$> chain u v) as Ea.
    { intros v. rewrite Ec, <- list_fmap_compose. apply list_fmap_ext. intros. apply stamp_vaddr. }
    destruct (IH u1) as (u' & E' & En & Ec').
    { intros v. by rewrite Ea. }
    { intros v a Hva. rewrite Ea. apply Hlog. by right. }
    exists u'. split_and!.
    + unfold undo_commit in *. simpl. by rewrite E1.
    + by rewrite En.
    + intros v. rewrite Ec', Ec, <- list_fmap_compose. apply list_fmap_ext. intros i x _.
      simpl. unfold stamp. simpl. destruct (decide ((v, vaddr x) ∈ [(vec, addr)])) as [Hd|Hd].
      * rewrite (decide_True (P := _ ∈ _ :: _)) by (apply list_elem_of_singleton in Hd; rewrite Hd; left).
        simpl. by case_decide.
      * apply decide_ext. rewrite elem_of_cons. rewrite list_elem_of_singleton in Hd. tauto.
Qed.

Lemma undo_rollback_spec id log (u : UpdateInfo V) :
  (∀ vec, NoDup (version <$> chain u vec)) →
  (∀ vec addr, (vec, addr) ∈ log → vec < length (updates u)) →
  ∃ u', undo_rollback id log u = Ok u' ∧ nextAddr u' = nextAddr u ∧
        ∀ vec, chain u' vec = if decide (vec ∈ log.*1) then filter (λ x, version x ≠ id) (chain u vec)
                              else chain u vec.
Proof.
  assert (∀ (log : list (nat * nat)) (u : UpdateInfo V), (∀ vec, NoDup (version <$> chain u vec)) →
    (∀ vec addr, (vec, addr) ∈ log → vec < length (updates u)) →
    ∃ u', foldM (λ u '(vec, _), rollback vec id u) u log = Ok u' ∧ nextAddr u' = nextAddr u ∧
      ∀ vec, chain u' vec = if decide (vec ∈ log.*1) then filter (λ x, version x ≠ id) (chain u vec)
                            else chain u vec) as G.
  { clear log u. intros log. induction log as [|[vec addr] log IH]; intros u HN Hlog.
    - exists u. split_and!; [done..|]. intros vec. rewrite decide_False; [done|]. apply not_elem_of_nil.
    - assert (vec < length (updates u)) as Hlen by (apply (Hlog vec addr); left).
      destruct (lookup_lt_is_Some_2 (updates u) vec Hlen) as [c Hc].
      set (u1 := mkUpdateInfo (<[vec := remove_version id c]> (updates u)) (nextAddr u)).
      assert (chain u vec = c) as Ecu by (unfold chain; by rewrite Hc).
      assert (∀ v, chain u1 v = if decide (v = vec) then filter (λ x, version x ≠ id) (chain u v)
                                else chain u v) as Ec.
      { intros v. unfold u1. rewrite chain_insert by done. case_decide as Ev; [subst v|done].
        rewrite Ecu. apply remove_version_spec. rewrite <- Ecu. apply HN. }
      destruct (IH u1) as (u' & E' & En & Ec').
      { intros v. rewrite Ec. case_decide; [|done]. by apply NoDup_fmap_filter. }
      { intros v a Hva. simpl. rewrite length_insert. apply (Hlog v a). by right. }
      exists u'. split_and!; [|done|].
      + simpl. unfold rollback. rewrite Hc. done.
      + intros v. rewrite Ec', Ec.
        assert (v ∈ ((vec, addr) :: log).*1 ↔ v = vec ∨ v ∈ log.*1) as Hiff
          by (rewrite fmap_cons, elem_of_cons; done).
        destruct (decide (v ∈ log.*1)), (decide (v = vec)),
          (decide (v ∈ ((vec, addr) :: log).*1)); try tauto.
        apply filter_all. by intros x [? _]%list_elem_of_filter. }
  intros HN Hlog. unfold undo_rollback. destruct (G (rev log) u HN) as (u' & E & En & Ec).
  { intros vec addr Hin. apply (Hlog vec addr).
    apply list_elem_of_In, in_rev. by apply list_elem_of_In. }
  exists u'. split_and!; [done..|]. intros vec. rewrite Ec. apply decide_ext.
  assert (∀ x, x ∈ rev log ↔ x ∈ log) as Hrev.
  { intros x. rewrite !list_elem_of_In. symmetry. apply in_rev. }
  rewrite !list_elem_of_fmap. by setoid_rewrite Hrev.
Qed.

End UpdateFacts.
