(* ===== verification/UpdateScan.v ===== *)
(** * Scanning updates

    The scan of a range of rows, which merges the visible versions of each vector with
    a bitset of the rows already done, writes what looking up each row would. *)

From S2P Require Import Prelude.
From S2P Require Import Transaction.
From S2P Require Import UpdateInfo.
From S2P Require Import UpdateFacts.

#[local] Open Scope nat_scope.

Section UpdateScan.
Context `{SystemConfig} {V : Type}.

(** The first value of a row in the cells of one version. *)
Definition cell (row : nat) (l : list (nat * V)) : option V :=
  i ← find_row row l; snd <$> l !! i.

Lemma cell_cons row r (v : V) l :
  cell row ((r, v) :: l) = if decide (r = row) then Some v else cell row l.
Proof.
  unfold cell. simpl. case_decide; [done|]. by destruct (find_row row l).
Qed.

Lemma cell_None row (l : list (nat * V)) : cell row l = None ↔ row ∉ l.*1.
Proof.
  unfold cell. destruct (find_row row l) as [i|] eqn:E; simpl.
  - apply find_row_Some in E as [v Hv]. rewrite Hv. split; [done|]. intros Hn. destruct Hn.
    by apply list_elem_of_lookup_2, (list_elem_of_fmap_2 fst) in Hv.
  - split; [intros _|done]. by apply find_row_None.
Qed.

(** A list of reads is exact: distinct positions, and the pairs [P] describes. *)
Definition exactly (reads : list (nat * V)) (P : nat → V → Prop) : Prop :=
  NoDup reads.*1 ∧ ∀ p v, (p, v) ∈ reads ↔ P p v.

Lemma exactly_app r1 r2 P1 P2 :
  exactly r1 P1 → exactly r2 P2 → (∀ p v w, P1 p v → P2 p w → False) →
  exactly (r1 ++ r2) (λ p v, P1 p v ∨ P2 p v).
Proof.
  intros [N1 E1] [N2 E2] Hdisj. split.
  - rewrite fmap_app. apply NoDup_app. split_and!; [done| |done].
    intros p ([? v] & -> & Hv)%list_elem_of_fmap ([? w] & Ep & Hw)%list_elem_of_fmap. simpl in *.
    subst. apply E1 in Hv. apply E2 in Hw. eauto.
  - intros p v. rewrite elem_of_app, E1, E2. done.
Qed.

Lemma exactly_ext reads P Q :
  (∀ p v, P p v ↔ Q p v) → exactly reads P → exactly reads Q.
Proof. intros HPQ [N E]. split; [done|]. intros p v. by rewrite E, HPQ. Qed.

(** The rows of one version that are not done. *)
Definition rows_read (s e pos : nat) (done : gset nat) (val : nat → option V) (p : nat) (v : V) :=
  ∃ r, s ≤ r < e ∧ r - s ∉ done ∧ p = pos + (r - s) ∧ val r = Some v.

Lemma scan_rows_spec s e pos done (l : list (nat * V)) :
  let '(out, done') := scan_rows s e pos done l in
  exactly out (rows_read s e pos done (λ r, cell r l)) ∧
  ∀ x, x ∈ done' ↔ x ∈ done ∨ ∃ r, s ≤ r < e ∧ r ∈ l.*1 ∧ x = r - s.
Proof.
  revert done. induction l as [|[row v] l IH]; intros done; cbn [scan_rows].
  - split.
    + split; [constructor|]. intros p v. split; [by intros ?%elem_of_nil|].
      intros (r & _ & _ & _ & E). done.
    + intros x. split; [tauto|]. intros [?|(r & _ & []%elem_of_nil & _)]; done.
  - assert (∀ r, r ∈ ((row, v) :: l).*1 ↔ r = row ∨ r ∈ l.*1) as Hin
      by (intros r; rewrite fmap_cons, elem_of_cons; done).
    assert ((row < s ∨ e ≤ row ∨ row - s ∈ done) → 
      let '(out, done') := scan_rows s e pos done l in
      exactly out (rows_read s e pos done (λ r, cell r ((row, v) :: l))) ∧
      ∀ x, x ∈ done' ↔ x ∈ done ∨ ∃ r, s ≤ r < e ∧ r ∈ ((row, v) :: l).*1 ∧ x = r - s) as Hskip.
    { intros Hs. specialize (IH done). destruct (scan_rows s e pos done l) as [out done'].
      destruct IH as [IH1 IH2]. split.
      - eapply exactly_ext; [|done]. intros p w. unfold rows_read.
        split; intros (r & Hr & Hd & Hp & Hc); exists r; (split_and!; [lia|lia|done|done|]);
          revert Hc; rewrite cell_cons; case_decide; try done; subst; exfalso;
          (destruct Hs as [|[|]]; [lia|lia|done]).
      - intros x. rewrite IH2. setoid_rewrite Hin. split.
        + intros [?|(r & ? & ? & ?)]; eauto 10.
        + intros [?|(r & Hr & [->|?] & ->)]; [tauto| |eauto 10]. left.
          destruct Hs as [|[|]]; [lia|lia|done]. }
    destruct (decide (row < s ∨ e ≤ row)) as [Ho|Ho]; [apply Hskip; tauto|].
    destruct (decide (row - s ∈ done)) as [Hd|Hd]; [apply Hskip; tauto|]. clear Hskip.
    specialize (IH ({[row - s]} ∪ done)).
    destruct (scan_rows s e pos ({[row - s]} ∪ done) l) as [out done'].
    destruct IH as [[HN HE] IH2]. split.
    + split.
      * rewrite fmap_cons. apply NoDup_cons. split; [|done]. simpl.
        intros ([p w] & Ep & Hw)%list_elem_of_fmap. simpl in Ep. apply HE in Hw.
        destruct Hw as (r & Hr & Hnd & Hp & _). apply Hnd. assert (r = row) by lia. set_solver.
      * intros p w. rewrite elem_of_cons, HE. unfold rows_read. split.
        -- intros [[= -> ->]|(r & Hr & Hnd & Hp & Hc)].
           ++ exists row. split_and!; [lia|lia|done|done|]. rewrite cell_cons. by rewrite decide_True.
           ++ exists r. split_and!; [lia|lia|set_solver|done|]. rewrite cell_cons.
              rewrite decide_False; [done|]. intros ->. set_solver.
        -- intros (r & Hr & Hnd & Hp & Hc). rewrite cell_cons in Hc. case_decide as Er.
           ++ left. subst r. injection Hc as ->. by rewrite Hp.
           ++ right. exists r. split_and!; [lia|lia| |done|done].
              rewrite elem_of_union, elem_of_singleton. intros [?|?]; [lia|done].
    + intros x. rewrite IH2, elem_of_union, elem_of_singleton. setoid_rewrite Hin. split.
      * intros [[->|?]|(r & ? & ? & ?)]; [|tauto|eauto 10]. right. exists row. split_and!; [lia|lia|by left|done].
      * intros [?|(r & Hr & [->|?] & ->)]; [tauto|tauto|eauto 10].
Qed.

Lemma first_value_cell row (infos : list (VectorUpdateInfo V)) :
  first_value row infos =
  match infos with
  | [] => None
  | info :: infos => match cell row (updated info) with
                     | Some v => Some v | None => first_value row infos end
  end.
Proof. by destruct infos. Qed.

(** When as many rows are done as there are in the range, every row of it is. *)
Lemma done_all s e (done : gset nat) :
  (∀ x, x ∈ done → x < e - s) → size done = e - s → ∀ r, s ≤ r < e → r - s ∈ done.
Proof.
  intros Hsub Hsize r Hr. assert (done ≡ list_to_set (seq 0 (e - s))) as E.
  { apply set_subseteq_size_equiv.
    - intros x Hx. apply elem_of_list_to_set, elem_of_seq. specialize (Hsub x Hx). lia.
    - rewrite size_list_to_set by apply NoDup_seq. rewrite length_seq. lia. }
  rewrite E. apply elem_of_list_to_set, elem_of_seq. lia.
Qed.

Lemma scan_infos_spec s e pos done (infos : list (VectorUpdateInfo V)) :
  (∀ x, x ∈ done → x < e - s) →
  exactly (scan_infos s e pos done infos) (rows_read s e pos done (λ r, first_value r infos)).
Proof.
  revert done. induction infos as [|info infos IH]; intros done Hsub.
  - split; [constructor|]. intros p v. split; [by intros ?%elem_of_nil|].
    intros (r & _ & _ & _ & E). done.
  - cbn [scan_infos]. case_decide as H0; [|case_decide as Hsz].
    + eapply exactly_ext; [|by apply IH]. intros p v. unfold rows_read.
      apply length_zero_iff_nil in H0. setoid_rewrite (first_value_cell _ (info :: infos)).
      rewrite H0. done.
    + eapply exactly_ext; [|by apply IH]. intros p v. unfold rows_read.
      split; intros (r & Hr & Hnd & _); exfalso; apply Hnd; by eapply done_all.
    + pose proof (scan_rows_spec s e pos done (updated info)) as Hrows.
      destruct (scan_rows s e pos done (updated info)) as [out done'].
      destruct Hrows as [Hout Hdone].
      eapply exactly_ext; [|apply exactly_app; [exact Hout|apply (IH done')|]].
      * intros p v. unfold rows_read. setoid_rewrite (first_value_cell _ (info :: infos)). split.
        -- intros [(r & Hr & Hnd & Hp & Hc)|(r & Hr & Hnd & Hp & Hc)]; exists r.
           ++ split_and!; [lia|lia|done|done|]. by rewrite Hc.
           ++ rewrite Hdone in Hnd. split_and!; [lia|lia|tauto|done|].
              destruct (cell r (updated info)) eqn:Ec; [|done]. exfalso. apply Hnd. right.
              exists r. split_and!; [lia|lia| |done].
              destruct (decide (r ∈ (updated info).*1)); [done|].
              apply (cell_None r) in n. congruence.
        -- intros (r & Hr & Hnd & Hp & Hc). destruct (cell r (updated info)) eqn:Ec.
           ++ left. exists r. split_and!; [lia|lia|done|done|congruence].
           ++ right. exists r. split_and!; [lia|lia| |done|done]. rewrite Hdone.
              intros [?|(r' & Hr' & Hin & E)]; [done|]. assert (r' = r) as -> by lia.
              by apply cell_None in Ec.
      * intros x [Hx|(r & Hr & _ & ->)]%Hdone; [by apply Hsub|lia].
      * intros p v w (r & Hr & Hnd & Hp & Hc) (r' & Hr' & Hnd' & Hp' & Hc').
        assert (r' = r) as -> by lia. apply Hnd', Hdone. right. exists r.
        split_and!; [lia|lia| |done]. destruct (decide (r ∈ (updated info).*1)); [done|].
        apply (cell_None r) in n. congruence.
Qed.

(** ** Several vectors *)

(** The value a transaction sees in a row of the chunk. *)
Definition value_at (t : Transaction) (u : UpdateInfo V) (r : nat) : option V :=
  first_value (r mod DEFAULT_VECTOR_CAPACITY) (iterateVectorInfo t (r / DEFAULT_VECTOR_CAPACITY) u).

(** The reads of the rows from [lo] to [hi], the first one at [pos]. *)
Definition range_read (t : Transaction) (u : UpdateInfo V) (lo hi pos p : nat) (v : V) : Prop :=
  ∃ r, lo ≤ r < hi ∧ p = pos + (r - lo) ∧ value_at t u r = Some v.

Lemma div_mod_cap j x :
  x < DEFAULT_VECTOR_CAPACITY →
  (j * DEFAULT_VECTOR_CAPACITY + x) / DEFAULT_VECTOR_CAPACITY = j ∧
  (j * DEFAULT_VECTOR_CAPACITY + x) mod DEFAULT_VECTOR_CAPACITY = x.
Proof.
  intros Hx. split.
  - symmetry. apply Nat.div_unique with x; lia.
  - symmetry. apply Nat.mod_unique with j; lia.
Qed.

Lemma vector_range_read t u j s e pos :
  e ≤ DEFAULT_VECTOR_CAPACITY →
  exactly (scan_infos s e pos ∅ (iterateVectorInfo t j u))
    (range_read t u (j * DEFAULT_VECTOR_CAPACITY + s) (j * DEFAULT_VECTOR_CAPACITY + e) pos).
Proof.
  intros He. eapply exactly_ext; [|apply scan_infos_spec; set_solver].
  intros p v. unfold rows_read, range_read, value_at. split.
  - intros (r & Hr & _ & Hp & Hv). exists (j * DEFAULT_VECTOR_CAPACITY + r).
    destruct (div_mod_cap j r) as [-> ->]; [lia|]. split_and!; [lia|lia|lia|done].
  - intros (r & Hr & Hp & Hv). exists (r - j * DEFAULT_VECTOR_CAPACITY).
    destruct (div_mod_cap j (r - j * DEFAULT_VECTOR_CAPACITY)) as [E1 E2]; [lia|].
    replace (j * DEFAULT_VECTOR_CAPACITY + (r - j * DEFAULT_VECTOR_CAPACITY)) with r in E1, E2 by lia.
    rewrite E1, E2 in Hv. split_and!; [lia|lia|set_solver|lia|done].
Qed.

Lemma scan_vectors_spec t u startIdx startOff endIdx endOff n idx pos :
  startIdx ≤ idx ≤ endIdx → n = S (endIdx - idx) → startOff < DEFAULT_VECTOR_CAPACITY →
  endOff < DEFAULT_VECTOR_CAPACITY → (startIdx = endIdx → startOff ≤ endOff) →
  exactly (scan_vectors t u startIdx startOff endIdx endOff n idx pos)
    (range_read t u (idx * DEFAULT_VECTOR_CAPACITY + if decide (idx = startIdx) then startOff else 0)
       (endIdx * DEFAULT_VECTOR_CAPACITY + endOff) pos).
Proof.
  revert idx pos. induction n as [|n IH]; intros idx pos Hidx Hn Hs He Hse; [lia|].
  cbn [scan_vectors]. set (s := if decide (idx = startIdx) then startOff else 0).
  assert (s < DEFAULT_VECTOR_CAPACITY) as Hs' by (unfold s; case_decide; lia).
  destruct (decide (idx = endIdx)) as [->|Hne].
  - assert (n = 0) as -> by lia. cbn [scan_vectors]. rewrite app_nil_r.
    apply vector_range_read. lia.
  - eapply exactly_ext; [|apply exactly_app;
      [by apply vector_range_read|apply IH; [lia|lia|done..]|]].
    + intros p v. rewrite (decide_False (P := S idx = startIdx)) by lia. unfold range_read.
      rewrite Nat.add_0_r. simpl. split.
      * intros [(r & Hr & Hp & Hv)|(r & Hr & Hp & Hv)]; exists r.
        -- split_and!; [lia| |lia|done]. nia.
        -- split_and!; [lia|lia|lia|done].
      * intros (r & Hr & Hp & Hv).
        destruct (decide (r < idx * DEFAULT_VECTOR_CAPACITY + DEFAULT_VECTOR_CAPACITY)).
        -- left. exists r. split_and!; [lia|lia|lia|done].
        -- right. exists r. split_and!; [lia|lia|lia|done].
    + intros p v w (r & Hr & Hp & _) (r' & Hr' & Hp' & _). revert Hr'.
      rewrite (decide_False (P := S idx = startIdx)) by lia. simpl. lia.
Qed.

Lemma iterateScan_spec t u off len pos :
  exactly (iterateScan t u off len pos) (range_read t u off (off + len) pos).
Proof.
  unfold iterateScan. pose proof DEFAULT_VECTOR_CAPACITY_pos as Hc.
  destruct (updates u) as [|c us] eqn:E.
  - split; [constructor|]. intros p v. split; [by intros ?%elem_of_nil|].
    intros (r & _ & _ & Hv). unfold value_at, iterateVectorInfo in Hv. by rewrite E in Hv.
  - pose proof (Nat.div_mod_eq off DEFAULT_VECTOR_CAPACITY) as D1.
    pose proof (Nat.div_mod_eq (off + len) DEFAULT_VECTOR_CAPACITY) as D2.
    pose proof (Nat.mod_upper_bound off DEFAULT_VECTOR_CAPACITY ltac:(lia)) as B1.
    pose proof (Nat.mod_upper_bound (off + len) DEFAULT_VECTOR_CAPACITY ltac:(lia)) as B2.
    pose proof (Nat.Div0.div_le_mono off (off + len) DEFAULT_VECTOR_CAPACITY ltac:(lia)) as Hle.
    eapply exactly_ext; [|apply scan_vectors_spec; [lia|lia|done|done|]].
    + intros p v. rewrite decide_True by done. unfold range_read.
      replace (off / DEFAULT_VECTOR_CAPACITY * DEFAULT_VECTOR_CAPACITY + off mod DEFAULT_VECTOR_CAPACITY)
        with off by lia.
      replace ((off + len) / DEFAULT_VECTOR_CAPACITY * DEFAULT_VECTOR_CAPACITY +
               (off + len) mod DEFAULT_VECTOR_CAPACITY) with (off + len) by lia. done.
    + intros Eq. rewrite Eq in D1. lia.
Qed.

(** ** Writing the reads *)

Lemma write_all_spec reads (output : list V) :
  NoDup reads.*1 → (∀ p v, (p, v) ∈ reads → p < length output) →
  ∃ out, write_all reads output = Ok out ∧ length out = length output ∧
    (∀ p v, (p, v) ∈ reads → out !! p = Some v) ∧ (∀ p, p ∉ reads.*1 → out !! p = output !! p).
Proof.
  revert output. induction reads as [|[p v] reads IH]; intros output HN Hlen.
  - exists output. split_and!; [done..| |done]. by intros ? ? ?%elem_of_nil.
  - rewrite fmap_cons, NoDup_cons in HN. destruct HN as [Hp HN]. simpl in Hp. cbn [write_all].
    rewrite decide_True by (apply (Hlen p v); left).
    destruct (IH (<[p:=v]> output)) as (out & E & El & E1 & E2); [done| |].
    { intros q w Hw. rewrite length_insert. apply (Hlen q w). by right. }
    rewrite length_insert in El. exists out. split_and!; [done..| |].
    + intros q w [[= -> ->]|Hw]%elem_of_cons; [|by apply E1].
      rewrite E2 by done. apply list_lookup_insert_eq. apply (Hlen p v). left.
    + intros q Hq. rewrite fmap_cons, not_elem_of_cons in Hq. destruct Hq as [Hne Hq].
      rewrite E2 by done. by rewrite list_lookup_insert_ne.
Qed.

(** The output of a scan: row by row, the visible update or else what was there. *)
Lemma scan_output t u (output : list V) off len pos :
  pos + len ≤ length output →
  ∃ out, write_all (iterateScan t u off len pos) output = Ok out ∧ length out = length output ∧
    ∀ i, out !! i = if decide (pos ≤ i < pos + len)
                    then match value_at t u (off + (i - pos)) with
                         | Some v => Some v
                         | None => output !! i
                         end
                    else output !! i.
Proof.
  intros Hlen. destruct (iterateScan_spec t u off len pos) as [HN HE].
  destruct (write_all_spec (iterateScan t u off len pos) output HN) as (out & E & El & E1 & E2).
  { intros p v (r & Hr & Hp & _)%HE. lia. }
  exists out. split_and!; [done..|]. intros i. case_decide as Hi.
  - destruct (value_at t u (off + (i - pos))) as [v|] eqn:Ev.
    + apply E1, HE. exists (off + (i - pos)). split_and!; [lia|lia|lia|done].
    + apply E2. intros ([p v] & -> & Hv)%list_elem_of_fmap. apply HE in Hv as (r & Hr & Hp & Hv).
      simpl in *. replace (off + (p - pos)) with r in Ev by lia. congruence.
  - apply E2. intros ([p v] & -> & Hv)%list_elem_of_fmap. apply HE in Hv as (r & Hr & Hp & Hv).
    simpl in *. lia.
Qed.

Lemma lookup_output t u (output : list V) r pos :
  pos < length output →
  lookup t u r output pos = Ok (match value_at t u r with Some v => <[pos := v]> output | None => output end).
Proof.
  intros Hpos. unfold lookup, value_at. destruct (updates u) as [|c us] eqn:E.
  - unfold iterateVectorInfo. by rewrite E.
  - destruct (first_value _ _); [|done]. simpl. by rewrite decide_True.
Qed.

End UpdateScan.
