(* ===== verification/UpdateRefinement.v ===== *)
(** * The update chains implement snapshot isolation

    Every operation of the concrete machine is one of the abstract machine, and what a
    reader finds in a chain is what the abstract machine says it must see. *)

From S2P Require Import Prelude.
From S2P Require Import Transaction.
From S2P Require Import UpdateInfo.
From S2P Require Import UpdateFacts.
From S2P Require Import UpdateScan.

#[local] Open Scope nat_scope.

Section UpdateRefinement.
Context `{SystemConfig} {V : Type}.
Implicit Types (w : World V) (sp : Spec V) (info : VectorUpdateInfo V).

Lemma value_has_row' row info v : row_value row info = Some v → has_row row info.
Proof.
  intros Hv. destruct (decide (row ∈ (updated info).*1)) as [|Hn]; [done|].
  apply row_value_None in Hn. congruence.
Qed.

Lemma wrote_versions w sp ver k v :
  related w sp → wrote sp ver k v → is_Some (active sp !! ver) ∨ (0 < ver ≤ clock sp)%Z.
Proof. intros R (m & Hm & _). by apply (rel_versions _ _ R). Qed.

(** A version of a chain with a row has written it, and the converse. *)
Lemma chain_wrote w sp vec info row :
  related w sp → info ∈ chain (ui w) vec → has_row row info →
  ∃ v, row_value row info = Some v ∧ wrote sp (version info) (vec, row) v.
Proof.
  intros R Hin Hrow. destruct (rel_info _ _ R _ _ Hin) as ((HN & _ & HW) & _).
  destruct (has_row_value _ _ Hrow) as [v Hv]. exists v.
  split; [by apply row_value_spec|by apply HW].
Qed.

Lemma wrote_chain w sp ver vec row v :
  related w sp → wrote sp ver (vec, row) v →
  ∃ info, info ∈ chain (ui w) vec ∧ version info = ver ∧ has_row row info ∧
          row_value row info = Some v.
Proof.
  intros R Hw. destruct (rel_complete _ _ R _ _ _ _ Hw) as (info & Hin & <-).
  destruct (rel_info _ _ R _ _ Hin) as ((HN & _ & HW) & _). apply HW in Hw.
  exists info. split_and!; [done..|by eapply value_has_row|by apply row_value_spec].
Qed.

Lemma active_not_committed w sp id s :
  related w sp → active sp !! id = Some s → (clock sp < id)%Z.
Proof. intros R Ha. pose proof (rel_ids _ _ R _ _ Ha). pose proof (rel_clock_range _ _ R). lia. Qed.

(** ** Reading *)

Lemma visible_reads w sp t vec row :
  related w sp → (startTS t < START_TRANSACTION_ID)%Z →
  (active sp !! ID t = Some (startTS t) ∨ writes sp !! ID t = None) →
  reads_as sp (ID t) (startTS t) (vec, row) (first_value row (iterateVectorInfo t vec (ui w))).
Proof.
  intros R Hs Hid.
  assert (iterateVectorInfo t vec (ui w) = filter (λ x, visible t x = true) (chain (ui w) vec)) as ->.
  { unfold iterateVectorInfo, chain. by destruct (updates (ui w) !! vec). }
  pose proof (StronglySorted_filter_sub _ (λ x, visible t x = true) _ (rel_order _ _ R vec)) as HS.
  set (fl := filter _ _) in *.
  assert (∀ x, x ∈ fl ↔ x ∈ chain (ui w) vec ∧ (version x = ID t ∨ (version x ≤ startTS t)%Z)) as Hfl.
  { intros x. unfold fl. rewrite list_elem_of_filter. unfold visible.
    rewrite orb_true_iff, !bool_decide_eq_true. tauto. }
  assert (∀ ver v, wrote sp ver (vec, row) v → ver = ID t ∨ (ver ≤ startTS t)%Z →
    ∃ x, x ∈ fl ∧ version x = ver ∧ has_row row x) as Hin.
  { intros ver v Hw Hv. destruct (wrote_chain _ _ _ _ _ _ R Hw) as (x & Hx & Ev & Hr & _).
    exists x. split_and!; [|done..]. apply Hfl. by rewrite Ev. }
  assert (∀ ver, (ver ≤ startTS t)%Z → active sp !! ver = None) as Hold.
  { intros ver Hver. destruct (active sp !! ver) as [s|] eqn:E; [|done].
    pose proof (rel_ids _ _ R _ _ E). lia. }
  destruct (first_value row fl) as [v|] eqn:Ev.
  - apply first_value_Some in Ev as (l1 & x & l2 & El & Hx & Hl1). rewrite El in HS.
    assert (x ∈ fl) as Hxfl by (rewrite El; apply elem_of_app; right; left).
    apply Hfl in Hxfl as [Hxc Hxv].
    assert (has_row row x) as Hxr by by eapply value_has_row'.
    assert (∀ y, y ∈ fl → has_row row y → y = x ∨ newer (active sp) x y) as Hafter.
    { intros y Hy Hyr. rewrite El in Hy. apply elem_of_app in Hy as [Hy|Hy]; [by destruct (Hl1 y)|].
      apply elem_of_cons in Hy as [->|Hy]; [by left|right]. by eapply StronglySorted_after. }
    destruct (chain_wrote _ _ _ _ _ R Hxc Hxr) as (v' & Hv' & Hw').
    rewrite Hx in Hv'. injection Hv' as <-.
    destruct (decide (version x = ID t)) as [Eid|Hne]; [left; by rewrite <- Eid|right].
    destruct Hxv as [|Hle]; [done|]. split.
    + intros u Hu. destruct (Hin _ _ Hu (or_introl eq_refl)) as (y & Hy & Ey & Hyr).
      destruct (Hafter y Hy Hyr) as [->|[_ Hn]]; [done|]. destruct (Hn row Hxr Hyr) as [Hlt _].
      destruct Hid as [Ha|Hnone].
      * pose proof (rel_ids _ _ R _ _ Ha). lia.
      * destruct Hu as (m & Hm & _). congruence.
    + exists (version x). split_and!; [done..|]. intros ver u Hver Hu.
      destruct (Hin _ _ Hu (or_intror Hver)) as (y & Hy & <- & Hyr).
      destruct (Hafter y Hy Hyr) as [->|[_ Hn]]; [lia|]. destruct (Hn row Hxr Hyr) as [_ Hn'].
      rewrite (Hold (version x)) in Hn' by done. lia.
  - pose proof (first_value_None _ _ Ev) as Hno. split.
    + intros u Hu. destruct (Hin _ _ Hu (or_introl eq_refl)) as (y & Hy & _ & Hyr). by apply (Hno y).
    + intros ver u Hver Hu. destruct (Hin _ _ Hu (or_intror Hver)) as (y & Hy & _ & Hyr).
      by apply (Hno y).
Qed.

(** ** Beginning *)

Lemma related_begin w sp :
  related w sp →
  related (mkWorld (ui w) (<[wnextID w := wclock w]> (wactive w)) (wclock w) (wnextID w + 1) (undo w))
    (spec_begin sp).
Proof.
  intros R. pose proof (rel_clock_range _ _ R) as Hc. pose proof (rel_next _ _ R) as Hn.
  assert (active sp !! nextID sp = None) as Hfresh.
  { destruct (active sp !! nextID sp) as [s|] eqn:E; [|done].
    pose proof (rel_ids _ _ R _ _ E). lia. }
  assert (writes sp !! nextID sp = None) as Hfreshw.
  { destruct (writes sp !! nextID sp) eqn:E; [|done]. exfalso.
    destruct (rel_versions _ _ R (nextID sp)) as [[s Hs]|]; [by rewrite E|congruence|lia]. }
  assert (∀ vec info, info ∈ chain (ui w) vec → version info ≠ nextID sp) as Hvn.
  { intros vec info Hin E. destruct (rel_info _ _ R _ _ Hin) as (_ & _ & [m Hm]). congruence. }
  split; simpl; try apply R.
  - rewrite (rel_active _ _ R), Hn. by rewrite (rel_clock _ _ R).
  - by rewrite Hn.
  - intros id s [[<- <-]|[Hne Hs]]%lookup_insert_Some; [lia|].
    pose proof (rel_ids _ _ R _ _ Hs). lia.
  - lia.
  - intros ver Hv. destruct (rel_versions _ _ R ver Hv) as [Ha|]; [left|by right].
    apply lookup_insert_is_Some'. by right.
  - intros vec. rewrite <- (list_fmap_id (chain (ui w) vec)).
    eapply StronglySorted_map; [apply (rel_order _ _ R)|]. intros x y Hx Hy [H1 H2].
    unfold newer. simpl. split.
    + intros s Hs. rewrite lookup_insert_ne in Hs by (intros E; by apply (Hvn vec y Hy)).
      by apply H1.
    + intros row Hrx Hry. rewrite lookup_insert_ne by (intros E; by apply (Hvn vec x Hx)).
      exact (H2 row Hrx Hry).
  - intros id vec addr Ha Hl. destruct (decide (nextID sp = id)) as [<-|Hne].
    + change (undo_log _ _) with (undo_log w (nextID sp)) in Hl.
      rewrite (rel_undo _ _ R) in Hl by done. by apply elem_of_nil in Hl.
    + rewrite lookup_insert_ne in Ha by done. by apply (rel_log _ _ R id vec addr).
  - intros id Hid. apply lookup_insert_None in Hid as [Hid _]. by apply (rel_undo _ _ R).
  - intros id vec info Ha Hin Hv. rewrite lookup_insert_ne in Ha.
    + by apply (rel_logged _ _ R id vec info).
    + intros E. apply (Hvn vec info Hin). congruence.
Qed.

(** ** Writing *)

(** Growing the vector of nodes changes no chain. *)
Lemma related_same_chains w sp u :
  related w sp → (∀ vec, chain u vec = chain (ui w) vec) → nextAddr u = nextAddr (ui w) →
  related (mkWorld u (wactive w) (wclock w) (wnextID w) (undo w)) sp.
Proof.
  intros [] Ec En.
  split; simpl; try done; intros *; rewrite ?Ec, ?En; setoid_rewrite Ec || idtac; eauto.
Qed.

(** The chain of the vector written: the version of the transaction is new, or is the
    one that was there, with the row added. *)
Lemma update_chain w sp id s vec row v :
  related w sp → active sp !! id = Some s → ¬ conflicts sp id s (vec, row) →
  row < DEFAULT_VECTOR_CAPACITY →
  ∃ u addr c1 old c2 l,
    update (newTransaction WRITE id s) vec row v (ui w) = (u, Ok addr) ∧
    (chain (ui w) vec = c1 ++ old :: c2 ∧ nextAddr u = nextAddr (ui w) ∨
     chain (ui w) vec = c2 ∧ c1 = [] ∧ old = mkVectorUpdateInfo addr id [] ∧
     addr = nextAddr (ui w) ∧ nextAddr u = S (nextAddr (ui w)) ∧
     (∀ x, x ∈ c2 → version x ≠ id)) ∧
    version old = id ∧ vaddr old = addr ∧
    chain u vec = c1 ++ mkVectorUpdateInfo addr id l :: c2 ∧
    (∀ vec', vec' ≠ vec → chain u vec' = chain (ui w) vec') ∧
    NoDup l.*1 ∧ Forall (λ r, r < DEFAULT_VECTOR_CAPACITY) l.*1 ∧
    (∀ r x, (r, x) ∈ l ↔ (r = row ∧ x = v) ∨ (r ≠ row ∧ (r, x) ∈ updated old)).
Proof.
  intros R Ha Hnc Hrow. unfold update.
  set (u0 := getOrCreateUpdateNode vec (ui w)).
  pose proof (getOrCreate_length vec (ui w)) as Hlen. fold u0 in Hlen.
  destruct (lookup_lt_is_Some_2 (updates u0) vec Hlen) as [c Hc]. rewrite Hc.
  assert (chain (ui w) vec = c) as Ec.
  { rewrite <- (chain_getOrCreate vec). unfold chain. fold u0. by rewrite Hc. }
  destruct (find_own_ok (newTransaction WRITE id s) row None c) as (o & -> & Ho).
  { simpl. intros x Hx Hv Hsx Hr. apply Hnc. rewrite <- Ec in Hx.
    destruct (chain_wrote _ _ _ _ _ R Hx Hr) as (v' & _ & Hw). by exists (version x), v'. }
  simpl in Ho.
  assert (∀ c' n vec', vec' ≠ vec →
    chain (mkUpdateInfo (<[vec:=c']> (updates u0)) n) vec' = chain (ui w) vec') as Hother.
  { intros c' n vec' Hne. rewrite chain_insert by done. rewrite decide_False by done.
    change (default [] (updates u0 !! vec')) with (chain u0 vec'). apply chain_getOrCreate. }
  destruct Ho as [(x & Hx & Ex & ->)|[Hn ->]].
  - apply list_elem_of_split in Hx as (c1 & c2 & ->).
    assert (vaddr x ∉ vaddr <$> c1) as Hn1.
    { pose proof (rel_addrs _ _ R vec) as HN. rewrite Ec, fmap_app, fmap_cons in HN.
      apply NoDup_app in HN as (_ & HN & _). intros Hin. apply (HN _ Hin). left. }
    destruct (rel_info _ _ R vec x) as ((HNr & HFr & _) & _).
    { rewrite Ec. apply elem_of_app. right. left. }
    destruct (write_row_spec row v (updated x) HNr HFr Hrow) as (l & El & Hl1 & Hl2 & Hl3).
    rewrite (write_at_spec row v c1 c2 x l Hn1 El).
    eexists _, (vaddr x), c1, x, c2, l. split_and!; try done.
    + left. by split.
    + rewrite chain_insert by done. by rewrite decide_True, Ex.
    + intros vec' Hne. by apply Hother.
  - destruct (write_row_spec row v [] (NoDup_nil_2 (A:=nat)) (Forall_nil_2 _) Hrow)
      as (l & El & Hl1 & Hl2 & Hl3).
    pose proof (write_at_spec row v [] c (mkVectorUpdateInfo (nextAddr u0) id []) l) as Ew.
    cbn [app version vaddr updated] in Ew. cbn [ID newTransaction].
    rewrite Ew; [|apply not_elem_of_nil|done].
    eexists _, (nextAddr u0), [], (mkVectorUpdateInfo (nextAddr u0) id []), c, l.
    split_and!; try done.
    + right. by split_and!.
    + rewrite chain_insert by done. by rewrite decide_True.
    + intros vec' Hne. by apply Hother.
Qed.

Lemma update_conflict w sp id s vec row v :
  related w sp → conflicts sp id s (vec, row) →
  ∃ u, update (newTransaction WRITE id s) vec row v (ui w) =
       (u, throw RuntimeException conflict_message) ∧
       (∀ vec', chain u vec' = chain (ui w) vec') ∧ nextAddr u = nextAddr (ui w).
Proof.
  intros R (ver & v' & Hne & Hlt & Hw). unfold update.
  set (u0 := getOrCreateUpdateNode vec (ui w)).
  pose proof (getOrCreate_length vec (ui w)) as Hlen. fold u0 in Hlen.
  destruct (lookup_lt_is_Some_2 (updates u0) vec Hlen) as [c Hc]. rewrite Hc.
  assert (chain (ui w) vec = c) as Ec.
  { rewrite <- (chain_getOrCreate vec). unfold chain. fold u0. by rewrite Hc. }
  destruct (wrote_chain _ _ _ _ _ _ R Hw) as (x & Hx & <- & Hr & _). rewrite Ec in Hx.
  rewrite (find_own_conflict _ row None c x) by done.
  exists u0. split_and!; [done| |done]. intros vec'. apply chain_getOrCreate.
Qed.

Lemma wrote_spec_write sp id k v ver k' v' :
  wrote (spec_write id k v sp) ver k' v' ↔
  (ver = id ∧ k' = k ∧ v' = v) ∨ ((ver ≠ id ∨ k' ≠ k) ∧ wrote sp ver k' v').
Proof.
  unfold wrote, spec_write. simpl. split.
  - intros (m & [[<- <-]|[Hne Hm]]%lookup_insert_Some & Hv).
    + apply lookup_insert_Some in Hv as [[<- <-]|[Hk Hv]]; [by left|right].
      split; [by right|]. destruct (writes sp !! id) as [m|] eqn:E; [by exists m|done].
    + right. split; [by left|]. by exists m.
  - intros [(-> & -> & ->)|[Hne (m & Hm & Hv)]].
    + eexists. split; [apply lookup_insert_eq|]. apply lookup_insert_eq.
    + destruct (decide (ver = id)) as [->|Hv'].
      * eexists. split; [apply lookup_insert_eq|]. destruct Hne as [|Hk]; [done|].
        rewrite lookup_insert_ne by done. by rewrite Hm.
      * exists m. split; [|done]. by rewrite lookup_insert_ne.
Qed.

(** The chain after a write, and the facts the relation needs about it. *)
Section Write.
Context w sp (id s : Z) (vec row : nat) (v : V) (u : UpdateInfo V) (addr : nat)
  (c1 c2 : list (VectorUpdateInfo V)) (old : VectorUpdateInfo V) (l : list (nat * V)).
Context (R : related w sp) (Ha : active sp !! id = Some s) (Hnc : ¬ conflicts sp id s (vec, row)).
Context (Hcase :
    chain (ui w) vec = c1 ++ old :: c2 ∧ nextAddr u = nextAddr (ui w) ∨
    chain (ui w) vec = c2 ∧ c1 = [] ∧ old = mkVectorUpdateInfo addr id [] ∧
    addr = nextAddr (ui w) ∧ nextAddr u = S (nextAddr (ui w)) ∧ (∀ x, x ∈ c2 → version x ≠ id)).
Context (Eid : version old = id) (Eaddr : vaddr old = addr).
Let new := mkVectorUpdateInfo addr id l.
Context (Ech : chain u vec = c1 ++ new :: c2)
  (Eother : ∀ vec', vec' ≠ vec → chain u vec' = chain (ui w) vec').
Context (HN : NoDup l.*1) (HF : Forall (λ r, r < DEFAULT_VECTOR_CAPACITY) l.*1)
  (Hl : ∀ r x, (r, x) ∈ l ↔ (r = row ∧ x = v) ∨ (r ≠ row ∧ (r, x) ∈ updated old)).
Let sp' := spec_write id (vec, row) v sp.
Let log' := <[id := undo_log w id ++ [(vec, addr)]]> (undo w).

Lemma write_ids : (START_TRANSACTION_ID ≤ id)%Z ∧ (s ≤ clock sp < START_TRANSACTION_ID)%Z.
Proof.
  destruct (rel_ids _ _ R _ _ Ha) as [[? _] ?], (rel_clock_range _ _ R) as [[_ ?] _]. by split.
Qed.

(** The other versions of the chain were there. *)
Lemma write_others x :
  x ∈ c1 ∨ x ∈ c2 → x ∈ chain (ui w) vec ∧ version x ≠ id ∧ vaddr x ≠ addr.
Proof.
  pose proof (rel_nodup _ _ R vec) as HNv. pose proof (rel_addrs _ _ R vec) as HNa.
  intros Hx. destruct Hcase as [[E _]|(E & -> & _ & Ead & _ & Hne)].
  - assert (x ∈ chain (ui w) vec) as Hxc by (rewrite E, elem_of_app, elem_of_cons; tauto).
    assert (old ∈ chain (ui w) vec) as Hoc by (rewrite E, elem_of_app, elem_of_cons; tauto).
    assert (x ≠ old) as Hxo.
    { intros ->. rewrite E, fmap_app, fmap_cons in HNv. apply NoDup_app in HNv as (_ & H1 & H2).
      apply NoDup_cons in H2 as [H2 _]. destruct Hx as [Hx|Hx];
        apply (list_elem_of_fmap_2 version) in Hx; [|done]. apply (H1 _ Hx). left. }
    split_and!; [done|intros Ev|intros Ev]; apply Hxo; [eapply (NoDup_fmap_eq version)|
      eapply (NoDup_fmap_eq vaddr)]; try done; congruence.
  - destruct Hx as [[]%elem_of_nil|Hx]. rewrite E. split_and!; [done|by apply Hne|].
    rewrite <- E in Hx. pose proof (rel_info _ _ R _ _ Hx) as (_ & Hlt & _). lia.
Qed.

Lemma write_back x : x ∈ chain (ui w) vec → version x ≠ id → x ∈ c1 ∨ x ∈ c2.
Proof.
  intros Hx Hv. destruct Hcase as [[E _]|(E & _)]; rewrite E in Hx; [|by right].
  apply elem_of_app in Hx as [?|[->|?]%elem_of_cons]; [by left|done|by right].
Qed.

Lemma write_old_rows r x : (r, x) ∈ updated old ↔ wrote sp id (vec, r) x.
Proof.
  destruct Hcase as [[E _]|(E & _ & Eo & _ & _ & Hne)].
  - destruct (rel_info _ _ R vec old) as ((_ & _ & HW) & _); [|by rewrite <- Eid].
    rewrite E. apply elem_of_app. right. left.
  - rewrite Eo. simpl. split; [by intros ?%elem_of_nil|]. intros Hw.
    destruct (wrote_chain _ _ _ _ _ _ R Hw) as (y & Hy & Ey & _).
    exfalso. apply (Hne y); [by rewrite <- E|done].
Qed.

Lemma write_old_sorted : StronglySorted (newer (active sp)) (c1 ++ old :: c2).
Proof.
  pose proof write_ids as Hids.
  destruct Hcase as [[E _]|(E & -> & -> & _)]; [rewrite <- E; apply (rel_order _ _ R)|].
  simpl. constructor; [rewrite <- E; apply (rel_order _ _ R)|]. apply Forall_forall.
  intros y _. split; simpl; [|by intros r []%elem_of_nil].
  intros sy Hy. pose proof (rel_ids _ _ R _ _ Hy). lia.
Qed.

Lemma write_addr : addr < nextAddr u ∧ nextAddr (ui w) ≤ nextAddr u.
Proof.
  destruct Hcase as [[E En]|(_ & _ & _ & -> & -> & _)]; [|lia]. rewrite En. split; [|lia].
  rewrite <- Eaddr. apply (rel_info _ _ R vec). rewrite E. apply elem_of_app. right. left.
Qed.

Lemma write_in x : x ∈ chain u vec ↔ x = new ∨ x ∈ c1 ∨ x ∈ c2.
Proof. rewrite Ech, elem_of_app, elem_of_cons. tauto. Qed.

(** Who else wrote the row is seen by the transaction. *)
Lemma write_seen x :
  x ∈ chain (ui w) vec → version x ≠ id → has_row row x → (version x ≤ s)%Z.
Proof.
  intros Hx Hv Hr. destruct (chain_wrote _ _ _ _ _ R Hx Hr) as (v' & _ & Hw).
  destruct (decide (version x ≤ s)%Z) as [|Hgt]; [done|]. exfalso. apply Hnc.
  exists (version x), v'. split_and!; [done|lia|done].
Qed.

Lemma write_info vec' x :
  x ∈ chain u vec' →
  info_ok sp' vec' x ∧ vaddr x < nextAddr u ∧ is_Some (writes sp' !! version x).
Proof.
  assert (x ∈ chain (ui w) vec' → (vec' = vec → version x ≠ id) →
    info_ok sp' vec' x ∧ vaddr x < nextAddr u ∧ is_Some (writes sp' !! version x)) as G.
  { intros Hxc Hne. destruct (rel_info _ _ R _ _ Hxc) as ((HN' & HF' & HW) & Hlt & Hw).
    pose proof write_addr.
    split_and!; [split_and!; [done..|]|lia|apply lookup_insert_is_Some'; by right].
    intros r x'. unfold sp'. rewrite wrote_spec_write, HW. split.
    - intros Hwr. right. split; [|done]. destruct (decide (vec' = vec)); [left; auto|right]. congruence.
    - intros [(E1 & E2 & _)|[_ ?]]; [|done]. injection E2 as -> ->. by destruct Hne. }
  intros Hx. destruct (decide (vec' = vec)) as [->|Hvec]; [|rewrite Eother in Hx by done; by apply G].
  apply write_in in Hx as [->|Hx]; [|apply write_others in Hx as (Hxc & Hne & _); by apply G].
  split_and!; [split_and!; [done..|]|apply write_addr|apply lookup_insert_is_Some'; by left].
  intros r x. simpl. unfold sp'. rewrite wrote_spec_write, Hl, write_old_rows. split.
  - intros [[-> ->]|[Hr Hw]]; [by left|right]. split; [right; congruence|done].
  - intros [(_ & [= ->] & ->)|[[|Hk] Hw]]; [by left|done|]. right. split; [congruence|done].
Qed.

Lemma write_complete ver vec' r x :
  wrote sp' ver (vec', r) x → ∃ y, y ∈ chain u vec' ∧ version y = ver.
Proof.
  intros Hw. apply wrote_spec_write in Hw as [(-> & [= -> ->] & ->)|[_ Hw]].
  - exists new. split; [apply write_in; by left|done].
  - destruct (rel_complete _ _ R _ _ _ _ Hw) as (y & Hy & Ey).
    destruct (decide (vec' = vec)) as [->|Hvec]; [|exists y; by rewrite Eother].
    destruct (decide (ver = id)) as [->|Hne]; [exists new; split; [apply write_in; by left|done]|].
    exists y. split; [|done]. apply write_in. right. apply write_back; congruence.
Qed.

Lemma write_nodup {B} (f : VectorUpdateInfo V → B) vec' :
  f new = f old → (∀ x, x ∈ c1 ∨ x ∈ c2 → f x ≠ f new) →
  NoDup (f <$> chain (ui w) vec') → NoDup (f <$> chain u vec').
Proof.
  intros Ef Hf HNf. destruct (decide (vec' = vec)) as [->|Hvec]; [|by rewrite Eother].
  rewrite Ech, fmap_app, fmap_cons. destruct Hcase as [[E _]|(E & -> & _)]; rewrite E in HNf.
  - rewrite fmap_app, fmap_cons in HNf. by rewrite Ef.
  - simpl. constructor; [|done]. intros (y & Ey & Hy)%list_elem_of_fmap.
    apply (Hf y); [by right|done].
Qed.

Lemma write_order vec' : StronglySorted (newer (active sp)) (chain u vec').
Proof.
  pose proof write_ids as [Hid Hs].
  destruct (decide (vec' = vec)) as [->|Hvec]; [|rewrite Eother by done; apply (rel_order _ _ R)].
  rewrite Ech. eapply StronglySorted_replace; [exact write_old_sorted| |].
  - intros y Hy [H1 H2]. destruct (write_others y) as (Hyc & Hyv & _); [by left|]. split.
    + simpl. rewrite <- Eid. exact H1.
    + intros r Hry Hrn. exfalso. simpl in Hrn.
      destruct (has_row_value _ _ Hrn) as [v' [[-> ->]|[Hr Hv']]%Hl].
      * pose proof (write_seen y Hyc Hyv Hry). rewrite Eid in H1. specialize (H1 s Ha). lia.
      * destruct (H2 r Hry) as [Hlt _]; [by eapply value_has_row|]. rewrite Eid in Hlt. lia.
  - intros y Hy [H1 H2]. destruct (write_others y) as (Hyc & Hyv & _); [by right|].
    rewrite Eid in H1, H2. split; [exact H1|]. intros r Hrn Hry. simpl in *.
    destruct (has_row_value _ _ Hrn) as [v' [[-> ->]|[Hr Hv']]%Hl].
    + pose proof (write_seen y Hyc Hyv Hry). rewrite Ha. lia.
    + apply (H2 r); [by eapply value_has_row|done].
Qed.

Lemma write_log id' vec' a :
  is_Some (active sp !! id') → (vec', a) ∈ default [] (log' !! id') →
  ∃ x, x ∈ chain u vec' ∧ vaddr x = a ∧ version x = id'.
Proof.
  intros Ha' Hlog. assert ((vec', a) ∈ undo_log w id' ∨ (id' = id ∧ vec' = vec ∧ a = addr))
    as [Hlg|(-> & -> & ->)].
  { unfold log' in Hlog. destruct (decide (id' = id)) as [->|Hne];
      [|left; by rewrite lookup_insert_ne in Hlog]. rewrite lookup_insert_eq in Hlog. simpl in Hlog.
    apply elem_of_app in Hlog as [?|[= -> ->]%list_elem_of_singleton]; [by left|by right]. }
  2: { exists new. split_and!; [apply write_in; by left|done..]. }
  destruct (rel_log _ _ R _ _ _ Ha' Hlg) as (x & Hx & Ex & Ev).
  destruct (decide (vec' = vec)) as [->|Hvec]; [|exists x; by rewrite Eother].
  destruct (decide (id' = id)) as [->|Hne].
  - exists new. split_and!; [apply write_in; by left| |done]. simpl.
    destruct Hcase as [[E _]|(E & _ & _ & _ & _ & Hn)].
    + assert (x = old) as ->; [|congruence].
      apply (NoDup_fmap_eq version _ _ _ (rel_nodup _ _ R vec)); [done| |congruence].
      rewrite E. apply elem_of_app. right. left.
    + exfalso. apply (Hn x); [by rewrite <- E|done].
  - exists x. split_and!; [|done..]. apply write_in. right. apply write_back; congruence.
Qed.

Lemma write_logged id' vec' x :
  is_Some (active sp !! id') → x ∈ chain u vec' → version x = id' →
  (vec', vaddr x) ∈ default [] (log' !! id').
Proof.
  intros Ha' Hx Hv. unfold log'.
  assert ((vec', vaddr x) ∈ undo_log w id' ∨ id' = id ∧ vec' = vec ∧ x = new) as Hlg.
  { destruct (decide (vec' = vec)) as [->|Hvec].
    - apply write_in in Hx as [->|Hx]; [right; by subst|]. left.
      apply write_others in Hx as (Hxc & _). by apply (rel_logged _ _ R).
    - left. rewrite Eother in Hx by done. by apply (rel_logged _ _ R). }
  destruct (decide (id' = id)) as [->|Hne].
  - rewrite lookup_insert_eq. simpl. apply elem_of_app.
    destruct Hlg as [?|(_ & -> & ->)]; [by left|right]. by apply list_elem_of_singleton.
  - rewrite lookup_insert_ne by done. by destruct Hlg as [?|(? & _)].
Qed.

Lemma related_write : related (mkWorld u (wactive w) (wclock w) (wnextID w) log') sp'.
Proof.
  split; simpl; try apply R.
  - intros ver Hv. destruct (decide (ver = id)) as [->|Hne]; [left; eauto|].
    apply (rel_versions _ _ R). by rewrite lookup_insert_ne in Hv.
  - apply write_info.
  - apply write_complete.
  - intros vec'. apply write_nodup; [done|apply write_others|apply (rel_addrs _ _ R)].
  - intros vec'. apply write_nodup; [done|apply write_others|apply (rel_nodup _ _ R)].
  - apply write_order.
  - apply write_log.
  - intros id' Ha'. unfold undo_log, log'. simpl. rewrite lookup_insert_ne by congruence.
    by apply (rel_undo _ _ R).
  - apply write_logged.
Qed.

End Write.

Lemma related_update w sp id s vec row v :
  related w sp → active sp !! id = Some s → ¬ conflicts sp id s (vec, row) →
  row < DEFAULT_VECTOR_CAPACITY →
  ∃ u addr, update (newTransaction WRITE id s) vec row v (ui w) = (u, Ok addr) ∧
    related (mkWorld u (wactive w) (wclock w) (wnextID w)
               (<[id := undo_log w id ++ [(vec, addr)]]> (undo w)))
      (spec_write id (vec, row) v sp).
Proof.
  intros R Ha Hnc Hrow.
  destruct (update_chain w sp id s vec row v R Ha Hnc Hrow)
    as (u & addr & c1 & old & c2 & l & Eu & Hcase & Eid & Eaddr & Ech & Eother & HN & HF & Hl).
  exists u, addr. split; [done|]. by eapply related_write.
Qed.

(** ** Committing *)

(** Committing stamps the versions of the transaction, and those only. *)
Definition restamp (id ts : Z) info : VectorUpdateInfo V :=
  if decide (version info = id) then set_version ts info else info.

Lemma restamp_updated id ts info : updated (restamp id ts info) = updated info.
Proof. unfold restamp. by case_decide. Qed.
Lemma restamp_vaddr id ts info : vaddr (restamp id ts info) = vaddr info.
Proof. unfold restamp. by case_decide. Qed.
Lemma restamp_version id ts info :
  version (restamp id ts info) = if decide (version info = id) then ts else version info.
Proof. unfold restamp. by case_decide. Qed.
Lemma restamp_has_row id ts info row : has_row row (restamp id ts info) ↔ has_row row info.
Proof. unfold has_row. by rewrite restamp_updated. Qed.

Lemma commit_chains w sp id ts :
  related w sp → is_Some (active sp !! id) →
  ∃ u, undo_commit ts (undo_log w id) (ui w) = Ok u ∧ nextAddr u = nextAddr (ui w) ∧
       ∀ vec, chain u vec = restamp id ts <$> chain (ui w) vec.
Proof.
  intros R Ha. destruct (undo_commit_spec ts (undo_log w id) (ui w)) as (u & E & En & Ec).
  - apply (rel_addrs _ _ R).
  - intros vec addr Hl. destruct (rel_log _ _ R _ _ _ Ha Hl) as (x & Hx & <- & _).
    by apply list_elem_of_fmap_2.
  - exists u. split_and!; [done..|]. intros vec. rewrite Ec. apply list_fmap_ext.
    intros i x Hx%list_elem_of_lookup_2. unfold stamp, restamp. apply decide_ext. split.
    + intros Hl. destruct (rel_log _ _ R _ _ _ Ha Hl) as (y & Hy & Ey & Ev).
      by rewrite (NoDup_fmap_eq vaddr _ x y (rel_addrs _ _ R vec)).
    + intros Ev. by apply (rel_logged _ _ R).
Qed.

Lemma wrote_spec_commit sp id ver k v :
  writes sp !! (clock sp + 1)%Z = None →
  wrote (spec_commit id sp) ver k v ↔
  (ver = clock sp + 1 ∧ wrote sp id k v)%Z ∨ (ver ≠ id ∧ wrote sp ver k v).
Proof.
  intros Hts. unfold wrote, spec_commit. simpl. destruct (writes sp !! id) as [m|] eqn:E.
  - split.
    + intros (m' & [[<- <-]|[Hne [Hid Hm]%lookup_delete_Some]]%lookup_insert_Some & Hv); [left; eauto|].
      right. split; [done|]. by exists m'.
    + intros [(-> & m' & [= ->] & Hv)|(Hid & m' & Hm & Hv)].
      * exists m'. by rewrite lookup_insert_eq.
      * exists m'. rewrite lookup_insert_ne by congruence. by rewrite lookup_delete_ne.
  - split.
    + intros (m & Hm & Hv). right. split; [congruence|]. by exists m.
    + intros [(_ & m & ? & _)|(_ & m & Hm & Hv)]; [done|by exists m].
Qed.

Lemma wrote_spec_commit_ne sp id ver k v :
  writes sp !! (clock sp + 1)%Z = None → ver ≠ id → ver ≠ (clock sp + 1)%Z →
  wrote (spec_commit id sp) ver k v ↔ wrote sp ver k v.
Proof. intros Hts H1 H2. rewrite wrote_spec_commit by done. tauto. Qed.

Lemma newer_restamp sp id s ts x y :
  active sp !! id = Some s → (s < ts < START_TRANSACTION_ID)%Z → active sp !! ts = None →
  (START_TRANSACTION_ID ≤ id)%Z → (∀ i s', active sp !! i = Some s' → (s' < ts)%Z) →
  newer (active sp) x y → newer (delete id (active sp)) (restamp id ts x) (restamp id ts y).
Proof.
  intros Ha Hts Hn Hid Hall [H1 H2]. unfold newer. setoid_rewrite restamp_has_row.
  rewrite !restamp_version. split.
  - intros sy Hy. apply lookup_delete_Some in Hy as [Hne Hy].
    destruct (decide (version y = id)); [congruence|].
    destruct (decide (version x = id)); [by eapply Hall|by apply H1].
  - intros row Hrx Hry. destruct (H2 row Hrx Hry) as [Hlt Hle].
    rewrite (decide_False (P := version y = id)) by lia. split; [done|].
    destruct (decide (version x = id)) as [E|E].
    + rewrite lookup_delete_ne, Hn by (intros ->; congruence). rewrite E, Ha in Hle. lia.
    + by rewrite lookup_delete_ne by done.
Qed.

Lemma related_commit w sp id s :
  related w sp → active sp !! id = Some s → (clock sp + 1 < START_TRANSACTION_ID)%Z →
  ∃ u, undo_commit (clock sp + 1) (undo_log w id) (ui w) = Ok u ∧
    related (mkWorld u (delete id (wactive w)) (wclock w + 1) (wnextID w) (delete id (undo w)))
      (spec_commit id sp).
Proof.
  intros R Ha Hc. set (ts := (clock sp + 1)%Z) in *.
  destruct (commit_chains w sp id ts R) as (u & Eu & En & Ec); [eauto|]. exists u. split; [done|].
  pose proof (rel_ids _ _ R _ _ Ha) as [Hid Hs]. pose proof (rel_clock_range _ _ R) as [Hclk Hnx].
  assert (active sp !! ts = None) as Hats.
  { destruct (active sp !! ts) eqn:E; [|done]. pose proof (rel_ids _ _ R _ _ E). lia. }
  assert (writes sp !! ts = None) as Hwts.
  { destruct (writes sp !! ts) eqn:E; [|done].
    destruct (rel_versions _ _ R ts) as [[? ?]|]; [by rewrite E|congruence|lia]. }
  assert (∀ vec x, x ∈ chain (ui w) vec → version x ≠ ts) as Hvts.
  { intros vec x Hx E. destruct (rel_info _ _ R _ _ Hx) as (_ & _ & [m Hm]). congruence. }
  assert (∀ vec x, x ∈ chain u vec ↔ ∃ y, x = restamp id ts y ∧ y ∈ chain (ui w) vec) as Hin.
  { intros vec x. rewrite Ec. apply list_elem_of_fmap. }
  split; simpl.
  - by rewrite (rel_active _ _ R).
  - by rewrite (rel_clock _ _ R).
  - apply (rel_next _ _ R).
  - intros i si [_ Hi]%lookup_delete_Some. pose proof (rel_ids _ _ R _ _ Hi). lia.
  - lia.
  - (* rel_versions *) intros ver Hv. destruct (decide (ver = ts)) as [->|Hne]; [right; lia|].
    assert (ver ≠ id ∧ is_Some (writes sp !! ver)) as [Hvi Hw].
    { destruct (writes sp !! id) as [m|] eqn:E.
      - rewrite lookup_insert_ne in Hv by done. by apply lookup_delete_is_Some in Hv as [].
      - split; [|done]. intros ->. rewrite E in Hv. by destruct Hv. }
    destruct (rel_versions _ _ R ver Hw); [left|right; lia]. by apply lookup_delete_is_Some.
  - (* rel_info *) intros vec x (y & -> & Hy)%Hin.
    destruct (rel_info _ _ R _ _ Hy) as ((HN & HF & HW) & Hlt & [m Hm]).
    unfold info_ok. rewrite restamp_updated, restamp_vaddr, restamp_version, En. split_and!; [done..| |done|].
    + intros r v. rewrite HW. case_decide as Ev; [|by rewrite wrote_spec_commit_ne by (done || by eapply Hvts)].
      rewrite wrote_spec_commit, Ev by done. split; [by left|]. intros [[_ ?]|[_ (m' & Hm' & _)]]; [done|congruence].
    + case_decide as Ev; [rewrite <- Ev, Hm; rewrite lookup_insert_eq; eauto|].
      destruct (writes sp !! id); [|eauto]. rewrite lookup_insert_ne by (intros E; by eapply Hvts).
      rewrite lookup_delete_ne by done. eauto.
  - (* rel_complete *) intros ver vec r v Hw. apply wrote_spec_commit in Hw; [|done].
    setoid_rewrite Hin. destruct Hw as [[-> Hw]|[Hvi Hw]];
      destruct (rel_complete _ _ R _ _ _ _ Hw) as (y & Hy & Ey);
      exists (restamp id ts y); (split; [by exists y|]); rewrite restamp_version;
      [by rewrite decide_True|by rewrite decide_False by congruence].
  - (* rel_addrs *) intros vec. rewrite Ec, <- list_fmap_compose.
    erewrite list_fmap_ext; [apply (rel_addrs _ _ R)|]. intros i x _. apply restamp_vaddr.
  - (* rel_nodup *) intros vec. rewrite Ec, <- list_fmap_compose. pose proof (rel_nodup _ _ R vec) as HN.
    apply NoDup_fmap_2_strong; [|by eapply NoDup_fmap_1].
    intros x y Hx Hy. simpl. rewrite !restamp_version. intros E.
    apply (NoDup_fmap_eq version _ x y HN Hx Hy). pose proof (Hvts _ _ Hx). pose proof (Hvts _ _ Hy).
    by repeat case_decide; congruence.
  - (* rel_order *) intros vec. rewrite Ec. eapply StronglySorted_map; [apply (rel_order _ _ R)|].
    intros x y _ _. apply newer_restamp with s; [done|lia|done|lia|].
    intros i si Hi. pose proof (rel_ids _ _ R _ _ Hi). lia.
  - (* rel_log *) intros i vec a [Hne Hi]%lookup_delete_is_Some Hl. unfold undo_log in Hl. simpl in Hl.
    rewrite lookup_delete_ne in Hl by done.
    destruct (rel_log _ _ R _ _ _ Hi Hl) as (y & Hy & Ey & Ev). exists (restamp id ts y).
    split_and!; [apply Hin; eauto|by rewrite restamp_vaddr|].
    rewrite restamp_version, decide_False; congruence.
  - (* rel_undo *) intros i Hi. unfold undo_log. simpl. destruct (decide (id = i)) as [<-|Hne].
    + by rewrite lookup_delete_eq.
    + apply lookup_delete_None in Hi as [?|Hi]; [done|].
      rewrite lookup_delete_ne by done. by apply (rel_undo _ _ R).
  - (* rel_logged *) intros i vec x [Hne Hi]%lookup_delete_is_Some (y & -> & Hy)%Hin.
    rewrite restamp_vaddr, restamp_version. unfold undo_log. simpl.
    rewrite lookup_delete_ne by done. case_decide as Ev; [|intros E; by apply (rel_logged _ _ R)].
    intros E. rewrite <- E in Hi. rewrite Hats in Hi. by destruct Hi.
Qed.

(** ** Rolling back *)

Lemma rollback_chains w sp id :
  related w sp → is_Some (active sp !! id) →
  ∃ u, undo_rollback id (undo_log w id) (ui w) = Ok u ∧ nextAddr u = nextAddr (ui w) ∧
       ∀ vec, chain u vec = filter (λ x, version x ≠ id) (chain (ui w) vec).
Proof.
  intros R Ha. destruct (undo_rollback_spec id (undo_log w id) (ui w)) as (u & E & En & Ec).
  - apply (rel_nodup _ _ R).
  - intros vec addr Hl. destruct (rel_log _ _ R _ _ _ Ha Hl) as (x & Hx & _).
    by apply chain_lookup in Hx as [].
  - exists u. split_and!; [done..|]. intros vec. rewrite Ec. case_decide as Hv; [done|].
    symmetry. apply filter_all. intros x Hx Ev. apply Hv.
    pose proof (rel_logged _ _ R id vec x Ha Hx Ev) as Hl.
    by apply (list_elem_of_fmap_2 fst) in Hl.
Qed.

Lemma wrote_spec_rollback sp id ver k v :
  wrote (spec_rollback id sp) ver k v ↔ ver ≠ id ∧ wrote sp ver k v.
Proof.
  unfold wrote, spec_rollback. simpl. setoid_rewrite lookup_delete_Some. naive_solver.
Qed.

Lemma related_rollback w sp id s :
  related w sp → active sp !! id = Some s →
  ∃ u, undo_rollback id (undo_log w id) (ui w) = Ok u ∧
    related (mkWorld u (delete id (wactive w)) (wclock w) (wnextID w) (delete id (undo w)))
      (spec_rollback id sp).
Proof.
  intros R Ha. destruct (rollback_chains w sp id R) as (u & Eu & En & Ec); [eauto|].
  exists u. split; [done|].
  assert (∀ vec x, x ∈ chain u vec ↔ version x ≠ id ∧ x ∈ chain (ui w) vec) as Hin.
  { intros vec x. rewrite Ec. by rewrite list_elem_of_filter. }
  split; simpl; try apply R.
  - by rewrite (rel_active _ _ R).
  - intros i si [_ Hi]%lookup_delete_Some. by apply (rel_ids _ _ R).
  - intros ver [Hne Hv]%lookup_delete_is_Some.
    destruct (rel_versions _ _ R ver Hv); [left|by right]. by apply lookup_delete_is_Some.
  - intros vec x [Hne Hx]%Hin. destruct (rel_info _ _ R _ _ Hx) as ((HN & HF & HW) & Hlt & Hw).
    rewrite En. split_and!; [split_and!; [done..|]|done|by apply lookup_delete_is_Some].
    intros r v. rewrite HW, wrote_spec_rollback. tauto.
  - intros ver vec r v [Hne Hw]%wrote_spec_rollback.
    destruct (rel_complete _ _ R _ _ _ _ Hw) as (y & Hy & Ey). exists y. split; [|done].
    apply Hin. by rewrite Ey.
  - intros vec. rewrite Ec. apply NoDup_fmap_filter, (rel_addrs _ _ R).
  - intros vec. rewrite Ec. apply NoDup_fmap_filter, (rel_nodup _ _ R).
  - intros vec. rewrite Ec. rewrite <- (list_fmap_id (filter _ _)).
    eapply StronglySorted_map; [apply StronglySorted_filter_sub, (rel_order _ _ R)|].
    intros x y [Hx _]%list_elem_of_filter [Hy _]%list_elem_of_filter [H1 H2]. split; simpl.
    + intros sy [_ Hs]%lookup_delete_Some. by apply H1.
    + intros row Hrx Hry. rewrite lookup_delete_ne by done. exact (H2 row Hrx Hry).
  - intros i vec a [Hne Hi]%lookup_delete_is_Some Hl. unfold undo_log in Hl. simpl in Hl.
    rewrite lookup_delete_ne in Hl by done.
    destruct (rel_log _ _ R _ _ _ Hi Hl) as (y & Hy & Ey & Ev). exists y.
    split_and!; [|done..]. apply Hin. split; [congruence|done].
  - intros i Hi. unfold undo_log. simpl. destruct (decide (id = i)) as [<-|Hne].
    + by rewrite lookup_delete_eq.
    + apply lookup_delete_None in Hi as [?|Hi]; [done|].
      rewrite lookup_delete_ne by done. by apply (rel_undo _ _ R).
  - intros i vec x [Hne Hi]%lookup_delete_is_Some [Hv Hx]%Hin E. unfold undo_log. simpl.
    rewrite lookup_delete_ne by done. by apply (rel_logged _ _ R).
Qed.

End UpdateRefinement.
