(* ===== verification/UpdateTheorems.v ===== *)
(** * Properties of versioned updates

    Any interleaving of transactions that begin, update rows, commit and roll back is a
    run of the snapshot-isolation machine of UpdateInfo.v, and scans and lookups read
    what that machine prescribes. *)

From S2P Require Import Prelude.
From S2P Require Import Transaction.
From S2P Require Import UpdateInfo.
From S2P Require Import UpdateFacts.
From S2P Require Import UpdateScan.
From S2P Require Import UpdateRefinement.

#[local] Open Scope nat_scope.

Section UpdateTheorems.
Context `{SystemConfig} {V : Type}.
Implicit Types (w : World V) (sp : Spec V).

(** The two machines side by side, from an empty chunk. *)
Inductive run : World V → Spec V → Prop :=
| run_start cl next :
    (0 ≤ cl < START_TRANSACTION_ID)%Z → (START_TRANSACTION_ID ≤ next)%Z →
    run (world0 cl next) (spec0 cl next)
| run_step w sp l w' ok sp' :
    run w sp → enabled w l → wstep w l = Some (w', ok) → sstep sp l sp' ok → run w' sp'.

Lemma related0 cl next :
  (0 ≤ cl < START_TRANSACTION_ID)%Z → (START_TRANSACTION_ID ≤ next)%Z →
  related (V := V) (world0 cl next) (spec0 cl next).
Proof.
  intros Hc Hn. split; simpl; try done.
  - intros ver Hv. rewrite lookup_empty in Hv. by destruct Hv.
  - intros vec info Hin. unfold chain in Hin. simpl in Hin. by apply elem_of_nil in Hin.
  - intros ver vec row v (m & Hm & _). simpl in Hm; by rewrite lookup_empty in Hm.
  - intros vec. apply NoDup_nil_2.
  - intros vec. apply NoDup_nil_2.
  - intros vec. constructor.
  - intros id vec addr Ha. rewrite lookup_empty in Ha. by destruct Ha.
  - intros id vec info Ha. rewrite lookup_empty in Ha. by destruct Ha.
Qed.

(** Whether a row conflicts can be decided: look for its writers. *)
Lemma conflicts_dec w sp id s k : related w sp → conflicts sp id s k ∨ ¬ conflicts sp id s k.
Proof.
  intros R. destruct k as [vec row].
  destruct (decide (Exists (λ x, version x ≠ id ∧ (s < version x)%Z ∧ row ∈ (updated x).*1)
              (chain (ui w) vec))) as [He|Hn].
  - left. apply Exists_exists in He as (x & Hx & Hv & Hs & Hr).
    destruct (chain_wrote _ _ _ _ _ R Hx Hr) as (v & _ & Hw). by exists (version x), v.
  - right. intros (ver & v & Hne & Hlt & Hw).
    destruct (wrote_chain _ _ _ _ _ _ R Hw) as (x & Hx & <- & Hr & _).
    apply Hn, Exists_exists. by exists x.
Qed.

Lemma step_simulated w sp l :
  related w sp → enabled w l →
  ∃ w' ok sp', wstep w l = Some (w', ok) ∧ sstep sp l sp' ok ∧ related w' sp'.
Proof.
  intros R He. pose proof (rel_active _ _ R) as Ea. pose proof (rel_clock _ _ R) as Ec.
  destruct l as [|id [vec row] v|id|id]; simpl in *.
  - eexists _, _, _. split_and!; [done..|]. by apply related_begin.
  - destruct He as [[s Hs] Hrow]. rewrite Hs. rewrite Ea in Hs. simpl.
    destruct (conflicts_dec w sp id s (vec, row) R) as [Hc|Hc].
    + destruct (update_conflict w sp id s vec row v R Hc) as (u & -> & Hch & Hn).
      eexists _, _, sp. split_and!; [done| |by apply related_same_chains].
      exists s. split; [done|by left].
    + destruct (related_update w sp id s vec row v R Hs Hc Hrow) as (u & addr & -> & R').
      eexists _, _, _. split_and!; [done| |done]. exists s. split; [done|by right].
  - destruct He as [[s Hs] Hcl]. rewrite Hs. rewrite Ea in Hs. rewrite Ec in Hcl. simpl.
    destruct (related_commit w sp id s R Hs Hcl) as (u & Eu & R'). rewrite <- Ec in Eu. rewrite Eu.
    eexists _, _, _. split_and!; [done|eauto|done..].
  - destruct He as [s Hs]. rewrite Hs. rewrite Ea in Hs. simpl.
    destruct (related_rollback w sp id s R Hs) as (u & -> & R').
    eexists _, _, _. split_and!; [done|eauto|done..].
Qed.

(** The abstract step is a function of the state and the label. *)
Lemma sstep_det sp l sp1 ok1 sp2 ok2 :
  sstep sp l sp1 ok1 → sstep sp l sp2 ok2 → sp1 = sp2 ∧ ok1 = ok2.
Proof.
  destruct l; simpl; [naive_solver| |naive_solver|naive_solver].
  intros (s & Hs & H1) (s' & Hs' & H2). rewrite Hs in Hs'. injection Hs' as <-. naive_solver.
Qed.

Lemma run_related w sp : run w sp → related w sp.
Proof.
  induction 1 as [cl next Hc Hn|w sp l w' ok sp' Hrun IH He Hw Hs]; [by apply related0|].
  destruct (step_simulated w sp l IH He) as (w1 & ok1 & sp1 & E1 & S1 & R1).
  rewrite Hw in E1. injection E1 as <- <-. by destruct (sstep_det _ _ _ _ _ _ Hs S1) as [-> _].
Qed.

(** What must be seen is determined. *)
Lemma reads_as_det sp id s k o1 o2 : reads_as sp id s k o1 → reads_as sp id s k o2 → o1 = o2.
Proof.
  assert (∀ ver v v', wrote sp ver k v → wrote sp ver k v' → v = v') as Hfun.
  { intros ver v v' (m & Hm & Hv) (m' & Hm' & Hv'). congruence. }
  destruct o1 as [v1|], o2 as [v2|]; simpl; [|naive_solver..|done].
  intros [H1|(N1 & ver1 & L1 & W1 & M1)] [H2|(N2 & ver2 & L2 & W2 & M2)].
  - f_equal. by eapply Hfun.
  - by apply N2 in H1.
  - by apply N1 in H2.
  - f_equal. assert (ver1 = ver2) as ->; [|by eapply Hfun].
    pose proof (M1 _ _ L2 W2). pose proof (M2 _ _ L1 W1). lia.
Qed.

(** The number of the transaction a label is about. *)
Definition label_id (l : label V) : option Z :=
  match l with LBegin => None | LUpdate id _ _ | LCommit id | LRollback id => Some id end.

(** Steps of others do not change what a running transaction must see. *)
Lemma reads_as_stable w sp l sp' ok id s k o :
  related w sp → sstep sp l sp' ok → enabled w l → active sp !! id = Some s →
  label_id l ≠ Some id → reads_as sp id s k o → reads_as sp' id s k o.
Proof.
  intros R Hstep He Ha Hl.
  pose proof (rel_ids _ _ R _ _ Ha) as [Hid Hs]. pose proof (rel_clock_range _ _ R) as [Hclk _].
  assert ((∀ v, wrote sp' id k v ↔ wrote sp id k v) ∧
          ∀ ver v, (ver ≤ s)%Z → wrote sp' ver k v ↔ wrote sp ver k v) as [E1 E2].
  { destruct l as [|i k' v'|i|i]; simpl in *.
    - destruct Hstep as [-> _]. done.
    - destruct Hstep as (si & Hi & [(_ & _ & ->)|(_ & _ & ->)]); [done|].
      pose proof (rel_ids _ _ R _ _ Hi) as [Hir _].
      split; intros; rewrite wrote_spec_write; split; try naive_solver lia.
    - destruct Hstep as ([si Hi] & -> & _). destruct He as [_ Hcl]. rewrite (rel_clock _ _ R) in Hcl.
      pose proof (rel_ids _ _ R _ _ Hi) as [Hir _].
      assert (writes sp !! (clock sp + 1)%Z = None) as Hts.
      { destruct (writes sp !! (clock sp + 1)%Z) eqn:E; [|done].
        destruct (rel_versions _ _ R (clock sp + 1)%Z) as [[? Hx]|]; [by rewrite E| |lia].
        pose proof (rel_ids _ _ R _ _ Hx). lia. }
      split; intros; apply wrote_spec_commit_ne; try done; congruence || lia.
    - destruct Hstep as ([si Hi] & -> & _). pose proof (rel_ids _ _ R _ _ Hi) as [Hir _].
      split; intros; rewrite wrote_spec_rollback; split; try tauto; intros Hw; split; try done;
        congruence || lia. }
  destruct o as [v|]; simpl.
  - intros [Hw|(Hn & ver & Hle & Hw & Hmax)]; [left; by apply E1|right]. split.
    + intros v' Hv'. apply (Hn v'). by apply E1.
    + exists ver. split_and!; [done|by apply E2|]. intros ver' v' Hle' Hw'.
      apply (Hmax ver' v'); [done|by apply E2].
  - intros [Hn Hno]. split; [intros v' Hv'; apply (Hn v'); by apply E1|].
    intros ver v' Hle Hw. apply (Hno ver v'); [done|by apply E2].
Qed.

Lemma active_after w sp l sp' ok id s :
  related w sp → sstep sp l sp' ok → active sp !! id = Some s → label_id l ≠ Some id →
  active sp' !! id = Some s.
Proof.
  intros R Hstep Ha Hl. destruct l as [|i k' v'|i|i]; simpl in *.
  - destruct Hstep as [-> _]. simpl. rewrite lookup_insert_ne; [done|].
    intros E. pose proof (rel_ids _ _ R _ _ Ha). lia.
  - destruct Hstep as (si & Hi & [(_ & _ & ->)|(_ & _ & ->)]); done.
  - destruct Hstep as (_ & -> & _). simpl. rewrite lookup_delete_ne; congruence.
  - destruct Hstep as (_ & -> & _). simpl. rewrite lookup_delete_ne; congruence.
Qed.

(** The row of the abstract machine for a row of the chunk. *)
Definition row_of (r : nat) : Row := (r / DEFAULT_VECTOR_CAPACITY, r mod DEFAULT_VECTOR_CAPACITY).

(** A reader: a running transaction at its snapshot, or one that never writes. *)
Definition reader sp (t : Transaction) : Prop :=
  (startTS t < START_TRANSACTION_ID)%Z ∧
  (active sp !! ID t = Some (startTS t) ∨ writes sp !! ID t = None).

Lemma value_reads_as w sp t r :
  related w sp → reader sp t → reads_as sp (ID t) (startTS t) (row_of r) (value_at t (ui w) r).
Proof. intros R [Hs Hr]. by apply visible_reads. Qed.

(** ** The properties *)

(** C5: after any interleaving of begins, updates, commits and rollbacks, every further
    operation of a running transaction is defined (no dangling version, no undo record
    without its version, no overfull version), changes the state as the
    snapshot-isolation machine does, and fails exactly when a transaction that the
    writer does not see has written the row. *)
Theorem update_refines_snapshot_isolation w sp l :
  run w sp → enabled w l →
  ∃ w' ok sp', wstep w l = Some (w', ok) ∧ sstep sp l sp' ok ∧ run w' sp' ∧
    (∀ id k v, l = LUpdate id k v →
       ok = false ↔ ∃ s, active sp !! id = Some s ∧ conflicts sp id s k).
Proof.
  intros Hrun He. destruct (step_simulated w sp l (run_related _ _ Hrun) He)
    as (w' & ok & sp' & Hw & Hs & _).
  exists w', ok, sp'. split_and!; [done..|by eapply run_step|]. intros id k v ->.
  simpl in Hs. destruct Hs as (s & Ha & [(Hc & -> & _)|(Hc & -> & _)]).
  - split; [|done]. intros _. by exists s.
  - split; [done|]. intros (s' & Ha' & Hc'). rewrite Ha in Ha'. by injection Ha' as <-.
Qed.

(** C7: a scan or a lookup by any reader, over any range of rows and vectors, replaces
    each row by the value the snapshot-isolation machine prescribes and leaves the
    rows without a visible update alone; it never writes outside the range. *)
Theorem update_scan_snapshot w sp t output off len pos :
  run w sp → reader sp t → pos + len ≤ length output →
  ∃ out, scanCommitted t (ui w) output pos off len = Ok out ∧ length out = length output ∧
    (∀ i, i < len → ∃ o, reads_as sp (ID t) (startTS t) (row_of (off + i)) o ∧
       out !! (pos + i) = match o with Some v => Some v | None => output !! (pos + i) end ∧
       lookup t (ui w) (off + i) output (pos + i) =
         Ok (match o with Some v => <[pos + i := v]> output | None => output end)) ∧
    (∀ i, i < pos ∨ pos + len ≤ i → out !! i = output !! i).
Proof.
  intros Hrun Hr Hlen. pose proof (run_related _ _ Hrun) as R.
  destruct (scan_output t (ui w) output off len pos Hlen) as (out & E & El & Eo).
  exists out. split_and!; [done..| |].
  - intros i Hi. exists (value_at t (ui w) (off + i)). split_and!.
    + by apply value_reads_as.
    + rewrite Eo, decide_True by lia. by replace (off + (pos + i - pos)) with (off + i) by lia.
    + apply lookup_output. lia.
  - intros i Hi. rewrite Eo, decide_False by lia. done.
Qed.

(** Whatever other transactions do next (update rows, commit, roll back, begin),
    what a running transaction reads in any row stays the same. *)
Theorem update_snapshot_stable w sp l w' ok sp' id s r :
  run w sp → enabled w l → wstep w l = Some (w', ok) → sstep sp l sp' ok →
  active sp !! id = Some s → label_id l ≠ Some id →
  value_at (newTransaction WRITE id s) (ui w') r = value_at (newTransaction WRITE id s) (ui w) r.
Proof.
  intros Hrun He Hw Hs Ha Hl. pose proof (run_related _ _ Hrun) as R.
  assert (run w' sp') as Hrun' by by eapply run_step. pose proof (run_related _ _ Hrun') as R'.
  pose proof (rel_ids _ _ R _ _ Ha) as [_ Hsc]. pose proof (rel_clock_range _ _ R) as [Hclk _].
  pose proof (active_after _ _ _ _ _ _ _ R Hs Ha Hl) as Ha'.
  eapply (reads_as_det sp' id s (row_of r)).
  - apply (value_reads_as w' sp' (newTransaction WRITE id s)); [done|]. split; simpl; [lia|by left].
  - apply (reads_as_stable w sp l sp' ok); [done..|].
    apply (value_reads_as w sp (newTransaction WRITE id s)); [done|]. split; simpl; [lia|by left].
Qed.

End UpdateTheorems.

(** ** Witnesses: two rows per vector, two transactions *)

#[local] Instance small_config : SystemConfig :=
  {| VECTOR_CAPACITY_LOG_2 := 1;
     VECTOR_CAPACITY_LOG_2_le := proj1 (Nat.leb_le 1 12) eq_refl |}.

Definition T1 : Z := START_TRANSACTION_ID.
Definition T2 : Z := START_TRANSACTION_ID + 1.

(** Running a list of labels, all of them enabled. *)
Fixpoint exec (ls : list (label nat)) (w : World nat) : option (World nat) :=
  match ls with
  | [] => Some w
  | l :: ls => '(w, _) ← wstep w l; exec ls w
  end.
Fixpoint all_enabled (ls : list (label nat)) (w : World nat) : Prop :=
  match ls with
  | [] => True
  | l :: ls => enabled w l ∧ match wstep w l with Some (w, _) => all_enabled ls w | None => False end
  end.

Lemma exec_run ls : ∀ w sp, run w sp → all_enabled ls w →
  ∃ w' sp', exec ls w = Some w' ∧ run w' sp'.
Proof.
  induction ls as [|l ls IH]; intros w sp Hrun He; [by exists w, sp|].
  destruct He as [He Hls].
  destruct (step_simulated w sp l (run_related _ _ Hrun) He) as (w1 & ok & sp1 & E & Hs & _).
  rewrite E in Hls. destruct (IH w1 sp1) as (w' & sp' & E' & Hrun'); [by eapply run_step|done|].
  exists w', sp'. split; [|done]. simpl. by rewrite E.
Qed.

(** T1 has written row 3 while T2 runs; both began at clock 0. *)
Definition history : list (label nat) := [LBegin; LBegin; LUpdate T1 (1, 1) 7].
Definition after_history : World nat := default (world0 0 START_TRANSACTION_ID) (exec history (world0 0 START_TRANSACTION_ID)).

Lemma history_run : ∃ sp, run after_history sp.
Proof.
  destruct (exec_run history (world0 0 START_TRANSACTION_ID) (spec0 0 START_TRANSACTION_ID))
    as (w & sp & E & Hrun).
  - apply run_start; vm_compute; intuition congruence.
  - vm_compute. repeat split; try (eexists; reflexivity); lia.
  - exists sp. unfold after_history. by rewrite E.
Qed.

(** T2 is refused the row T1 has written. *)
Lemma update_refines_snapshot_isolation_witness :
  ∃ w', wstep after_history (LUpdate T2 (1, 1) 8) = Some (w', false).
Proof.
  destruct history_run as [sp Hrun].
  destruct (update_refines_snapshot_isolation after_history sp (LUpdate T2 (1, 1) 8) Hrun)
    as (w' & ok & sp' & Hw & _).
  - split; [vm_compute; eexists; reflexivity|vm_compute; lia].
  - assert (ok = false) as -> by (vm_compute in Hw; congruence). exists w'. exact Hw.
Defined.

(** T1 scans its write; T2 scans the old value. *)
Lemma update_scan_snapshot_witness :
  ∃ out, scanCommitted (newTransaction WRITE T1 0) (ui after_history) [0; 0; 0; 0] 0 0 4 = Ok out ∧
         out = [0; 0; 0; 7].
Proof.
  destruct history_run as [sp Hrun].
  destruct (update_scan_snapshot after_history sp (newTransaction WRITE T1 0) [0; 0; 0; 0] 0 4 0 Hrun)
    as (out & E & _).
  - split; [vm_compute; congruence|left]. rewrite <- (rel_active _ _ (run_related _ _ Hrun)).
    vm_compute. reflexivity.
  - simpl. lia.
  - exists out. split; [exact E|]. vm_compute in E. congruence.
Defined.

(** T2 does not see T1's commit. *)
Lemma update_snapshot_stable_witness :
  ∃ w', wstep after_history (LCommit T1) = Some (w', true) ∧
        value_at (newTransaction WRITE T2 0) (ui w') 3 =
        value_at (newTransaction WRITE T2 0) (ui after_history) 3.
Proof.
  destruct history_run as [sp Hrun].
  assert (enabled after_history (LCommit T1)) as He
    by (split; [vm_compute; eexists; reflexivity|vm_compute; congruence]).
  destruct (step_simulated after_history sp (LCommit T1) (run_related _ _ Hrun) He)
    as (w' & ok & sp' & Hw & Hs & _).
  assert (ok = true) as -> by (vm_compute in Hw; congruence).
  exists w'. split; [exact Hw|].
  apply (update_snapshot_stable after_history sp (LCommit T1) w' true sp' T2 0 3 Hrun He Hw Hs).
  - rewrite <- (rel_active _ _ (run_related _ _ Hrun)). vm_compute. reflexivity.
  - vm_compute. congruence.
Defined.

(** The count of updated rows has the positions in the vectors, not the rows: row 1 of
    vector 0 and row 1 of vector 1 count once. *)
Lemma getNumUpdatedRows_collides :
  match exec [LBegin; LUpdate T1 (0, 1) 5; LUpdate T1 (1, 1) 7] (world0 0 START_TRANSACTION_ID) with
  | Some w => getNumUpdatedRows (newTransaction WRITE T1 0) (ui w) = 1 ∧
              value_at (newTransaction WRITE T1 0) (ui w) 1 = Some 5 ∧
              value_at (newTransaction WRITE T1 0) (ui w) 3 = Some 7
  | None => False
  end.
Proof. vm_compute. done. Qed.
