(* ===== verification/ConcurrentVector.v ===== *)
(** * Vectors that do not move when they grow (include/common/concurrent_vector.h)

    The template parameters are section variables.  A [Block*] is the number of the
    block in [blocks], a [BlockIndex] the list of its first [numBlocks] pointers, and
    [nextIndex] leads to the following element of [indices]: the class only ever appends
    to both vectors.  A default-constructed element is the parameter [dflt]. *)

From S2P Require Import Prelude.
#[local] Open Scope nat_scope.

Section ConcurrentVector.
Context {T : Type} (dflt : T) (BLOCK_SIZE INDEX_SIZE : nat).

Record ConcurrentVector : Type := mkCV {
  numElements : nat;
  initialBlock : list T;
  blocks : list (list T);
  indices : list (list nat);
}.

Definition cv_new (initialNumElements initialBlockSize : nat) : ConcurrentVector :=
  mkCV initialNumElements (replicate initialBlockSize dflt) [] [].

(** One round of the loop of [resize]: a block, and its pointer in the last index if
    that has room, else in a new index. *)
Definition addPointer (newBlock : nat) (l : list (list nat)) : list (list nat) :=
  match last l with
  | None => [[newBlock]]
  | Some index =>
      if decide (length index < INDEX_SIZE)
      then <[length l - 1 := index ++ [newBlock]]> l
      else l ++ [[newBlock]]
  end.

Definition addBlock (cv : ConcurrentVector) : ConcurrentVector :=
  mkCV (numElements cv) (initialBlock cv) (blocks cv ++ [replicate BLOCK_SIZE dflt])
    (addPointer (length (blocks cv)) (indices cv)).

Definition allocated (cv : ConcurrentVector) : nat :=
  length (initialBlock cv) + length (blocks cv) * BLOCK_SIZE.

Fixpoint grow (fuel newSize : nat) (cv : ConcurrentVector) : ConcurrentVector :=
  match fuel with
  | 0 => cv
  | S fuel =>
      if decide (allocated cv < newSize) then grow fuel newSize (addBlock cv) else cv
  end.

(** Every round adds at least one cell, so [newSize] rounds are enough. *)
Definition resize (newSize : nat) (cv : ConcurrentVector) : ConcurrentVector :=
  let cv := grow newSize newSize cv in
  mkCV newSize (initialBlock cv) (blocks cv) (indices cv).

(** [operator[]]: where the element is. *)
Inductive slot : Type :=
| InInitial (pos : nat)
| InBlock (block pos : nat).

(** The walk along [nextIndex]. *)
Fixpoint walk (indexNum : nat) (l : list (list nat)) : option (list nat) :=
  match l, indexNum with
  | [], _ => None
  | index :: _, 0 => Some index
  | _ :: l, S indexNum => walk indexNum l
  end.

Definition locate (cv : ConcurrentVector) (elemPos : nat) : result slot :=
  if decide (elemPos < length (initialBlock cv)) then Ok (InInitial elemPos)
  else
    let blockNum := (elemPos - length (initialBlock cv)) / BLOCK_SIZE in
    let posInBlock := (elemPos - length (initialBlock cv)) mod BLOCK_SIZE in
    index ← deref (walk (blockNum / INDEX_SIZE) (indices cv));
    block ← deref (index !! (blockNum mod INDEX_SIZE));
    Ok (InBlock block posInBlock).

Definition cv_get (cv : ConcurrentVector) (elemPos : nat) : result T :=
  s ← locate cv elemPos;
  match s with
  | InInitial pos => deref (initialBlock cv !! pos)
  | InBlock block pos => b ← deref (blocks cv !! block); deref (b !! pos)
  end.

Definition cv_set (cv : ConcurrentVector) (elemPos : nat) (value : T) : result ConcurrentVector :=
  s ← locate cv elemPos;
  match s with
  | InInitial pos =>
      _ ← deref (initialBlock cv !! pos);
      Ok (mkCV (numElements cv) (<[pos := value]> (initialBlock cv)) (blocks cv) (indices cv))
  | InBlock block pos =>
      b ← deref (blocks cv !! block);
      _ ← deref (b !! pos);
      Ok (mkCV (numElements cv) (initialBlock cv) (<[block := <[pos := value]> b]> (blocks cv))
            (indices cv))
  end.

Definition push_back (value : T) (cv : ConcurrentVector) : result ConcurrentVector :=
  cv_set (resize (numElements cv + 1) cv) (numElements cv) value.

(** ** The plain vector it implements *)

Definition cells (cv : ConcurrentVector) : list T := initialBlock cv ++ concat (blocks cv).

(** Pointer [i] of index [k] is the block [k * INDEX_SIZE + i], and only the last index
    has room. *)
Record indices_ok (numBlocks : nat) (l : list (list nat)) : Prop := {
  ix_index k index : l !! k = Some index →
    length index = INDEX_SIZE `min` (numBlocks - k * INDEX_SIZE) ∧
    0 < length index ∧
    (∀ i, i < length index → index !! i = Some (k * INDEX_SIZE + i));
  ix_all : numBlocks ≤ length l * INDEX_SIZE;
}.

Record cv_ok (cv : ConcurrentVector) : Prop := {
  cv_blocks : Forall (λ b, length b = BLOCK_SIZE) (blocks cv);
  cv_indices : indices_ok (length (blocks cv)) (indices cv);
}.

Hypothesis (HB : 0 < BLOCK_SIZE) (HI : 0 < INDEX_SIZE).

Lemma length_concat_blocks l :
  Forall (λ b : list T, length b = BLOCK_SIZE) l → length (concat l) = length l * BLOCK_SIZE.
Proof. induction 1; simpl; [done|]. rewrite length_app. lia. Qed.

Lemma allocated_cells cv : cv_ok cv → allocated cv = length (cells cv).
Proof.
  intros [? _]. unfold allocated, cells. by rewrite length_app, length_concat_blocks.
Qed.

Lemma cv_new_ok n k : cv_ok (cv_new n k) ∧ cells (cv_new n k) = replicate k dflt.
Proof.
  split; [|unfold cells; simpl; by rewrite app_nil_r].
  constructor; [constructor|constructor; simpl; [done|lia]].
Qed.

Lemma walk_lookup l k : walk k l = l !! k.
Proof. revert k. by induction l as [|x l IH]; intros [|k]; simpl. Qed.

Lemma concat_lookup l k p :
  Forall (λ b : list T, length b = BLOCK_SIZE) l → p < BLOCK_SIZE →
  concat l !! (k * BLOCK_SIZE + p) = (b ← l !! k; b !! p).
Proof.
  intros Hl Hp. revert k. induction Hl as [|b l Hb Hl IH]; intros k; [done|].
  simpl. destruct k as [|k]; simpl.
  - by rewrite lookup_app_l by lia.
  - rewrite lookup_app_r by lia. rewrite Hb.
    replace (BLOCK_SIZE + k * BLOCK_SIZE + p - BLOCK_SIZE) with (k * BLOCK_SIZE + p) by lia.
    apply IH.
Qed.

Lemma cv_get_cells cv p : cv_ok cv → cv_get cv p = deref (cells cv !! p).
Proof.
  intros [Hb [Hi Hn]]. unfold cv_get, locate, cells.
  case_decide as Hp; simpl; [by rewrite lookup_app_l by lia|].
  rewrite lookup_app_r by lia. set (q := p - _).
  rewrite walk_lookup.
  assert (concat (blocks cv) !! q = (b ← blocks cv !! (q / BLOCK_SIZE); b !! (q mod BLOCK_SIZE))) as ->.
  { rewrite <-concat_lookup by (try done; apply Nat.mod_upper_bound; lia).
    f_equal. pose proof (Nat.div_mod_eq q BLOCK_SIZE). lia. }
  set (n := q / BLOCK_SIZE). pose proof (Nat.div_mod_eq n INDEX_SIZE) as Hdm.
  pose proof (Nat.mod_upper_bound n INDEX_SIZE ltac:(lia)).
  destruct (indices cv !! (n / INDEX_SIZE)) as [index|] eqn:E; simpl.
  - destruct (Hi _ _ E) as (Hlen & _ & Hat).
    destruct (decide (n mod INDEX_SIZE < length index)) as [Hlt|Hge].
    + rewrite Hat by done. simpl.
      replace (n / INDEX_SIZE * INDEX_SIZE + n mod INDEX_SIZE) with n by lia.
      by destruct (blocks cv !! n).
    + rewrite (lookup_ge_None_2 index) by lia. simpl.
      by rewrite (lookup_ge_None_2 (blocks cv)) by lia.
  - apply lookup_ge_None in E. simpl.
    rewrite (lookup_ge_None_2 (blocks cv) n); [done|].
    assert (length (indices cv) * INDEX_SIZE ≤ n / INDEX_SIZE * INDEX_SIZE)
      by (apply Nat.mul_le_mono_r; lia). lia.
Qed.

Lemma locate_lookup cv p :
  cv_ok cv → p < length (cells cv) →
  (p < length (initialBlock cv) ∧ locate cv p = Ok (InInitial p)) ∨
  (∃ k i b, p = length (initialBlock cv) + (k * BLOCK_SIZE + i) ∧ i < BLOCK_SIZE ∧
     blocks cv !! k = Some b ∧ locate cv p = Ok (InBlock k i)).
Proof.
  intros [Hb [Hi Hn]] Hp. unfold locate. case_decide as Hp'; [by left|right].
  set (q := p - _). unfold cells in Hp. rewrite length_app, length_concat_blocks in Hp by done.
  pose proof (Nat.div_mod_eq q BLOCK_SIZE).
  pose proof (Nat.mod_upper_bound q BLOCK_SIZE ltac:(lia)).
  assert (q / BLOCK_SIZE < length (blocks cv)) as Hk by (apply Nat.Div0.div_lt_upper_bound; lia).
  set (k := q / BLOCK_SIZE) in *. destruct (lookup_lt_is_Some_2 _ _ Hk) as [b Eb].
  pose proof (Nat.div_mod_eq k INDEX_SIZE).
  pose proof (Nat.mod_upper_bound k INDEX_SIZE ltac:(lia)).
  assert (k / INDEX_SIZE < length (indices cv)) as Hidx by (apply Nat.Div0.div_lt_upper_bound; lia).
  destruct (lookup_lt_is_Some_2 _ _ Hidx) as [index E]. rewrite walk_lookup, E. simpl.
  destruct (Hi _ _ E) as (Hlen & _ & Hat). rewrite Hat by lia. simpl.
  replace (k / INDEX_SIZE * INDEX_SIZE + k mod INDEX_SIZE) with k by lia.
  exists k, (q mod BLOCK_SIZE), b. split_and!; [lia|done..].
Qed.

Lemma cells_set_block cv k i b v :
  cv_ok cv → blocks cv !! k = Some b → i < BLOCK_SIZE →
  initialBlock cv ++ concat (<[k := <[i := v]> b]> (blocks cv)) =
  <[length (initialBlock cv) + (k * BLOCK_SIZE + i) := v]> (cells cv).
Proof.
  intros [Hb _] E Hi. unfold cells. rewrite insert_app_r. f_equal. clear -Hb E Hi.
  revert k E. induction Hb as [|b0 l Hb0 Hl IH]; intros k E; [done|].
  destruct k as [|k]; simpl in *.
  - injection E as ->. by rewrite insert_app_l by lia.
  - rewrite IH by done.
    replace (BLOCK_SIZE + k * BLOCK_SIZE + i) with (length b0 + (k * BLOCK_SIZE + i)) by lia.
    by rewrite insert_app_r.
Qed.

Lemma cv_set_cells cv p v :
  cv_ok cv → p < length (cells cv) →
  ∃ cv', cv_set cv p v = Ok cv' ∧ cv_ok cv' ∧ cells cv' = <[p := v]> (cells cv) ∧
    numElements cv' = numElements cv.
Proof.
  intros Hok Hp. unfold cv_set.
  destruct (locate_lookup cv p Hok Hp) as [[Hlt ->]|(k & i & b & -> & Hi & Eb & ->)]; simpl.
  - destruct (lookup_lt_is_Some_2 _ _ Hlt) as [x ->]. simpl. eexists. split; [done|].
    destruct Hok. split_and!; [by constructor| |done].
    unfold cells. simpl. by rewrite insert_app_l.
  - rewrite Eb. simpl. pose proof (cells_set_block cv k i b v Hok Eb Hi) as Ecells.
    destruct Hok as [Hb Hx]. pose proof Hb as Hb'.
    rewrite Forall_lookup in Hb'. pose proof (Hb' _ _ Eb) as Lb.
    destruct (lookup_lt_is_Some_2 b i ltac:(lia)) as [x ->]. simpl. eexists. split; [done|].
    split_and!; [|exact Ecells|done].
    constructor; simpl; [|by rewrite length_insert].
    apply Forall_insert; [done|]. by rewrite length_insert.
Qed.

Lemma addPointer_ok n l : indices_ok n l → indices_ok (S n) (addPointer n l).
Proof.
  intros [Hi Hn]. unfold addPointer. destruct l as [|lst pre _] using rev_ind.
  { simpl in *. assert (n = 0) as -> by lia. constructor; [|simpl; lia].
    intros [|k] index E; [|done]. injection E as <-. simpl. split_and!; [lia..|].
    intros [|i] ?; [done|lia]. }
  rewrite last_snoc, length_app, Nat.add_sub in *. simpl in *.
  assert (∀ k index, pre !! k = Some index → length index = INDEX_SIZE ∧
    length index = INDEX_SIZE `min` (S n - k * INDEX_SIZE) ∧ 0 < length index ∧
    (∀ i, i < length index → index !! i = Some (k * INDEX_SIZE + i))) as Hpre.
  { intros k index E. pose proof (lookup_lt_Some _ _ _ E).
    destruct (Hi k index) as (? & ? & ?); [by apply lookup_app_l_Some|].
    destruct (Hi (length pre) lst) as (? & ? & _); [by apply list_lookup_middle|].
    assert (S k * INDEX_SIZE ≤ length pre * INDEX_SIZE) by (apply Nat.mul_le_mono_r; lia).
    split_and!; [lia..|done]. }
  destruct (Hi (length pre) lst) as (Llst & Lpos & Hlst); [by apply list_lookup_middle|].
  case_decide as Hroom.
  - rewrite insert_app_r_alt by lia. rewrite Nat.sub_diag.
    constructor; [|rewrite length_app; simpl; lia].
    intros k index [Hk|[Hk1 Hk2]]%lookup_app_Some; [by apply Hpre|].
    apply list_lookup_singleton_Some in Hk2 as [Hk0 <-].
    assert (k = length pre) as -> by lia. rewrite length_app. simpl. split_and!; [lia..|].
    intros i Hlt. destruct (decide (i < length lst)).
    + rewrite lookup_app_l by lia. by apply Hlst.
    + rewrite lookup_app_r by lia. replace (i - length lst) with 0 by lia. simpl. f_equal. lia.
  - constructor; [|rewrite !length_app; simpl; lia].
    intros k index [Hk|[Hk1 Hk2]]%lookup_app_Some.
    + apply lookup_app_Some in Hk as [Hk|[Hk1 Hk2]]; [by apply Hpre|].
      apply list_lookup_singleton_Some in Hk2 as [Hk0 <-].
      assert (k = length pre) as -> by lia. split_and!; [lia..|done].
    + rewrite length_app in Hk1, Hk2. simpl in Hk1, Hk2.
      apply list_lookup_singleton_Some in Hk2 as [Hk0 <-].
      assert (k = length pre + 1) as -> by lia. simpl. split_and!; [lia..|].
      intros [|i] ?; [|lia]. simpl. f_equal. lia.
Qed.

Lemma addBlock_ok cv :
  cv_ok cv →
  cv_ok (addBlock cv) ∧ cells (addBlock cv) = cells cv ++ replicate BLOCK_SIZE dflt.
Proof.
  intros [Hb Hi]. split.
  - constructor; simpl.
    + apply Forall_app_2; [done|]. constructor; [apply length_replicate|constructor].
    + rewrite length_app, Nat.add_1_r. by apply addPointer_ok.
  - unfold cells, addBlock. simpl. rewrite concat_app. simpl. by rewrite app_nil_r, (assoc_L (++)).
Qed.

Lemma resize_ok n cv :
  cv_ok cv →
  cv_ok (resize n cv) ∧ numElements (resize n cv) = n ∧ n ≤ length (cells (resize n cv)) ∧
  ∃ k, cells (resize n cv) = cells cv ++ replicate k dflt.
Proof.
  intros Hok. unfold resize.
  assert (∀ fuel cv, cv_ok cv → n ≤ length (cells cv) + fuel →
    let cv' := grow fuel n cv in
    cv_ok cv' ∧ n ≤ length (cells cv') ∧ ∃ k, cells cv' = cells cv ++ replicate k dflt) as H.
  { clear -HB HI. induction fuel as [|fuel IH]; intros cv Hok Hn; simpl.
    - split_and!; [done|lia|]. exists 0. by rewrite app_nil_r.
    - rewrite (allocated_cells cv Hok). case_decide as Hlt.
      + destruct (addBlock_ok cv Hok) as [Hok' Ec].
        destruct (IH (addBlock cv) Hok') as (H1 & H2 & k & H3).
        { rewrite Ec, length_app, length_replicate. lia. }
        split_and!; [done..|]. exists (BLOCK_SIZE + k).
        by rewrite H3, Ec, <-(assoc_L (++)), replicate_add.
      + split_and!; [done|lia|]. exists 0. by rewrite app_nil_r. }
  destruct (H n cv Hok ltac:(lia)) as (H1 & H2 & H3).
  destruct H1. split_and!; [by constructor|done|done|done].
Qed.

(** Appending past the elements: the vector of elements grows by one, and no element
    moves. *)
Lemma push_back_ok v cv :
  cv_ok cv → numElements cv ≤ length (cells cv) →
  ∃ cv', push_back v cv = Ok cv' ∧ cv_ok cv' ∧ numElements cv' = numElements cv + 1 ∧
    numElements cv' ≤ length (cells cv') ∧
    take (numElements cv') (cells cv') = take (numElements cv) (cells cv) ++ [v].
Proof.
  intros Hok Hn. unfold push_back.
  destruct (resize_ok (numElements cv + 1) cv Hok) as (Hok' & En & Hlen & k & Ec).
  destruct (cv_set_cells (resize (numElements cv + 1) cv) (numElements cv) v Hok' ltac:(lia))
    as (cv' & E & Hok2 & Ec2 & En2).
  set (r := resize _ cv) in *. exists cv'. rewrite E, En2, En, Ec2, length_insert. split_and!; [done..|].
  rewrite Nat.add_1_r, (take_S_r _ _ v) by (apply list_lookup_insert_eq; lia).
  rewrite take_insert_ge by lia. rewrite Ec, take_app_le by lia. done.
Qed.
End ConcurrentVector.
Arguments numElements {T}.
#[global] Arguments cv_get : simpl never.
#[global] Arguments cv_set : simpl never.
#[global] Arguments resize : simpl never.
#[global] Arguments push_back : simpl never.
