(* ===== verification/PageState.v ===== *)
(** * The state word of a page (include/storage/buffer_manager/page_state.h)

    One atomic 64-bit word per page: the state in the highest byte, the dirty bit below
    it, and a version.  The functions here are on the value of the word; the atomic
    operations around them are steps of [BufferPool] and calls of [FileHandle]. *)

From S2P Require Import Prelude.

Definition DIRTY_MASK : Z := 0x0080000000000000.
Definition STATE_MASK : Z := 0xFF00000000000000.
Definition VERSION_MASK : Z := 0x00FFFFFFFFFFFFFF.
Definition NUM_BITS_TO_SHIFT_FOR_STATE : Z := 56.

Definition UNLOCKED : Z := 0.
Definition LOCKED : Z := 1.
Definition MARKED : Z := 2.
Definition EVICTED : Z := 3.

(** The constructor. *)
Definition initialPageState : Z := wrap 64 (Z.shiftl EVICTED NUM_BITS_TO_SHIFT_FOR_STATE).

Definition getState (stateAndVersion : Z) : Z :=
  Z.shiftr (Z.land stateAndVersion STATE_MASK) NUM_BITS_TO_SHIFT_FOR_STATE.

Definition getVersion (stateAndVersion : Z) : Z := Z.land stateAndVersion VERSION_MASK.

Definition updateStateWithSameVersion (oldStateAndVersion newState : Z) : Z :=
  Z.lor (Z.shiftr (wrap 64 (Z.shiftl oldStateAndVersion 8)) 8)
    (wrap 64 (Z.shiftl newState NUM_BITS_TO_SHIFT_FOR_STATE)).

Definition updateStateAndIncrementVersion (oldStateAndVersion newState : Z) : Z :=
  Z.lor (wrap 64 (Z.shiftr (wrap 64 (Z.shiftl oldStateAndVersion 8)) 8 + 1))
    (wrap 64 (Z.shiftl newState NUM_BITS_TO_SHIFT_FOR_STATE)).

(** What the mutating operations store. *)
Definition unlock (w : Z) : Z := updateStateAndIncrementVersion w UNLOCKED.
Definition unlockUnchanged (w : Z) : Z := updateStateWithSameVersion w UNLOCKED.
Definition resetToEvicted (w : Z) : Z := updateStateAndIncrementVersion w EVICTED.
Definition setDirty (w : Z) : Z := Z.lor w DIRTY_MASK.
Definition clearDirty (w : Z) : Z := Z.land w (UINT64_MAX - DIRTY_MASK).
Definition isDirty (w : Z) : bool := negb (Z.land w DIRTY_MASK =? 0).

(** [compare_exchange_strong]: whether the word is the expected one, and the word after. *)
Definition compare_exchange (w expected desired : Z) : bool * Z :=
  if w =? expected then (true, desired) else (false, w).

Definition tryLock (w oldStateAndVersion : Z) : bool * Z :=
  compare_exchange w oldStateAndVersion (updateStateWithSameVersion oldStateAndVersion LOCKED).
Definition tryClearMark (w oldStateAndVersion : Z) : bool * Z :=
  compare_exchange w oldStateAndVersion (updateStateWithSameVersion oldStateAndVersion UNLOCKED).
Definition tryMark (w oldStateAndVersion : Z) : bool * Z :=
  compare_exchange w oldStateAndVersion (updateStateWithSameVersion oldStateAndVersion MARKED).

(** One round of [spinLock].  A failed exchange writes the word it found into
    [oldStateAndVersion], so the next round expects whatever was there. *)
Definition spinLock_round (w oldStateAndVersion : Z) : bool * Z * Z :=
  let '(locked, w') :=
    compare_exchange w oldStateAndVersion (updateStateWithSameVersion oldStateAndVersion LOCKED) in
  (locked, w', if locked then oldStateAndVersion else w).

(** ** Words as a state, a dirty bit and a version *)

Definition word (state : Z) (dirty : bool) (version : Z) : Z :=
  state * 2 ^ 56 + (if dirty then 2 ^ 55 else 0) + version.

Definition page_word (w state : Z) (dirty : bool) (version : Z) : Prop :=
  w = word state dirty version ∧ 0 ≤ state ≤ 3 ∧ 0 ≤ version < 2 ^ 55.

Lemma lor_shift x s : 0 ≤ x < 2 ^ 56 → 0 ≤ s → Z.lor x (Z.shiftl s 56) = s * 2 ^ 56 + x.
Proof.
  intros Hx Hs. rewrite <-Z.add_nocarry_lor; [rewrite Z.shiftl_mul_pow2 by lia; lia|].
  apply Z.bits_inj'. intros i Hi. rewrite Z.land_spec, Z.bits_0.
  destruct (decide (i < 56)) as [Hlt|Hge].
  - rewrite Z.shiftl_spec_low by lia. apply andb_false_r.
  - replace x with (x mod 2 ^ 56) by (apply Z.mod_small; lia).
    by rewrite Z.mod_pow2_bits_high by lia.
Qed.

Lemma drop_state w : Z.shiftr (wrap 64 (Z.shiftl w 8)) 8 = w mod 2 ^ 56.
Proof.
  unfold wrap. rewrite Z.shiftl_mul_pow2, Z.shiftr_div_pow2 by lia.
  change (2 ^ 64) with (2 ^ 56 * 2 ^ 8). rewrite Z.mul_mod_distr_r by lia.
  by rewrite Z.div_mul by lia.
Qed.

Lemma low_word s d v : 0 ≤ v < 2 ^ 55 → word s d v mod 2 ^ 56 = (if d then 2 ^ 55 else 0) + v.
Proof.
  intros Hv. unfold word. rewrite <-Z.add_assoc, Z.add_comm, Z.mod_add by lia.
  apply Z.mod_small. destruct d; lia.
Qed.

Lemma shift_state s : 0 ≤ s ≤ 3 → wrap 64 (Z.shiftl s 56) = Z.shiftl s 56.
Proof. intros Hs. apply wrap_id. unfold in_u. rewrite Z.shiftl_mul_pow2 by lia. lia. Qed.

Lemma updateSame_word w s d v s' :
  page_word w s d v → 0 ≤ s' ≤ 3 → updateStateWithSameVersion w s' = word s' d v.
Proof.
  intros (-> & Hs & Hv) Hs'. unfold updateStateWithSameVersion, NUM_BITS_TO_SHIFT_FOR_STATE.
  rewrite drop_state, low_word, shift_state by done.
  rewrite lor_shift by (destruct d; lia). unfold word. lia.
Qed.

Lemma updateIncrement_word w s d v s' :
  page_word w s d v → v + 1 < 2 ^ 55 → 0 ≤ s' ≤ 3 →
  updateStateAndIncrementVersion w s' = word s' d (v + 1).
Proof.
  intros (-> & Hs & Hv) Hv' Hs'. unfold updateStateAndIncrementVersion, NUM_BITS_TO_SHIFT_FOR_STATE.
  rewrite drop_state, low_word, shift_state by done.
  rewrite wrap_id by (unfold in_u; destruct d; lia).
  rewrite lor_shift by (destruct d; lia). unfold word. lia.
Qed.

Lemma getState_word w s d v : page_word w s d v → getState w = s.
Proof.
  intros (-> & Hs & Hv). unfold getState, NUM_BITS_TO_SHIFT_FOR_STATE.
  rewrite Z.shiftr_land. change (Z.shiftr STATE_MASK 56) with (Z.ones 8).
  rewrite Z.land_ones, Z.shiftr_div_pow2 by lia. unfold word.
  rewrite <-Z.add_assoc, Z.add_comm, Z.div_add by lia.
  rewrite (Z.div_small (_ + v)) by (destruct d; lia). apply Z.mod_small. lia.
Qed.

Lemma testbit_dirty s d v : 0 ≤ v < 2 ^ 55 → Z.testbit (word s d v) 55 = d.
Proof.
  intros Hv. rewrite Z.testbit_odd, Z.shiftr_div_pow2 by lia. unfold word.
  replace (s * 2 ^ 56 + (if d then 2 ^ 55 else 0) + v) with (v + (2 * s + (if d then 1 else 0)) * 2 ^ 55)
    by (destruct d; lia).
  rewrite Z.div_add, Z.div_small by lia.
  replace (0 + (2 * s + (if d then 1 else 0))) with ((if d then 1 else 0) + 2 * s) by lia.
  rewrite Z.odd_add_mul_2. by destruct d.
Qed.

Lemma isDirty_word w s d v : page_word w s d v → isDirty w = d.
Proof.
  intros (-> & Hs & Hv). unfold isDirty.
  assert (Z.land (word s d v) DIRTY_MASK = if d then 2 ^ 55 else 0) as ->; [|by destruct d].
  apply Z.bits_inj'. intros i Hi. rewrite Z.land_spec. change DIRTY_MASK with (2 ^ 55).
  rewrite Z.pow2_bits_eqb by lia. destruct (Z.eqb_spec 55 i) as [<-|Hne].
  - rewrite testbit_dirty, andb_true_r by done. by destruct d.
  - rewrite andb_false_r. destruct d; [|by rewrite Z.bits_0].
    rewrite Z.pow2_bits_eqb by lia. by destruct (Z.eqb_spec 55 i).
Qed.

Lemma setDirty_word w s d v : page_word w s d v → setDirty w = word s true v.
Proof.
  intros (-> & Hs & Hv). unfold setDirty. change DIRTY_MASK with (2 ^ 55).
  destruct d.
  - apply Z.bits_inj'. intros i Hi. rewrite Z.lor_spec, Z.pow2_bits_eqb by lia.
    destruct (Z.eqb_spec 55 i) as [<-|]; [by rewrite testbit_dirty|by rewrite orb_false_r].
  - rewrite <-Z.add_nocarry_lor; [unfold word; lia|].
    apply Z.bits_inj'. intros i Hi. rewrite Z.land_spec, Z.bits_0, Z.pow2_bits_eqb by lia.
    destruct (Z.eqb_spec 55 i) as [<-|]; [by rewrite testbit_dirty|by rewrite andb_false_r].
Qed.

Lemma clearDirty_word w s d v : page_word w s d v → clearDirty w = word s false v.
Proof.
  intros (Hw & Hs & Hv).
  assert (0 ≤ word s false v < 2 ^ 64) as Hrange by (unfold word; lia).
  assert (w = Z.lor (word s false v) (if d then 2 ^ 55 else 0)) as ->.
  { rewrite Hw. destruct d; [|by rewrite Z.lor_0_r].
    symmetry. apply (setDirty_word _ s false v). done. }
  unfold clearDirty. change DIRTY_MASK with (2 ^ 55). change UINT64_MAX with (Z.ones 64).
  assert (Z.ones 64 - 2 ^ 55 = Z.ldiff (Z.ones 64) (2 ^ 55)) as -> by reflexivity.
  apply Z.bits_inj'. intros i Hi. rewrite Z.land_spec, Z.lor_spec, Z.ldiff_spec, Z.testbit_ones by lia.
  rewrite Z.pow2_bits_eqb by lia.
  destruct (Z.eqb_spec 55 i) as [<-|Hne].
  - rewrite testbit_dirty by done. simpl. by rewrite andb_false_r.
  - assert (Z.testbit (if d then 2 ^ 55 else 0) i = false) as ->.
    { destruct d; [|by rewrite Z.bits_0]. rewrite Z.pow2_bits_eqb by lia.
      by destruct (Z.eqb_spec 55 i). }
    rewrite orb_false_r. destruct (Z.ltb_spec i 64).
    + rewrite (proj2 (Z.leb_le 0 i)) by lia. simpl. by rewrite andb_true_r.
    + replace (word s false v) with (word s false v mod 2 ^ 64) by (apply Z.mod_small; lia).
      by rewrite Z.mod_pow2_bits_high by lia.
Qed.

Lemma page_word_intro s d v : 0 ≤ s ≤ 3 → 0 ≤ v < 2 ^ 55 → page_word (word s d v) s d v.
Proof. done. Qed.

Lemma page_word_inj w s d v s' d' v' :
  page_word w s d v → page_word w s' d' v' → s = s' ∧ d = d' ∧ v = v'.
Proof.
  intros Hw Hw'. assert (s = s') as <-.
  { by rewrite <-(getState_word _ _ _ _ Hw), (getState_word _ _ _ _ Hw'). }
  assert (d = d') as <-.
  { by rewrite <-(isDirty_word _ _ _ _ Hw), (isDirty_word _ _ _ _ Hw'). }
  destruct Hw as (E & _ & ?), Hw' as (E' & _ & ?). unfold word in *. split_and!; [done..|lia].
Qed.
