(* ===== verification/BufferPool.v ===== *)
(** * One page of the buffer pool, shared by threads
    (storage/buffer_manager/buffer_manager.cpp)

    [pin], [unpin], [optimisticRead], [evictPages] with [tryEvictPage], and
    [updateFrameIfPageIsInFrame], as an interleaving of threads over one page: its state
    word, its frame, the page of the file, and the slots of the eviction queue that hold
    its candidate.  A step is one access to memory that other threads can see.  A thread
    runs one operation; its program counter holds its local variables.

    Frames of other pages are disjoint (FileHandleFacts, [getFrameIdx]), and a slot that
    holds another page's candidate counts as one that does not hold this one's.  Accesses
    are sequentially consistent, as the atomics of the code are by default. *)

From stdpp Require Import functions gmap.
From S2P Require Import Prelude.
From S2P Require Import PageState.

Record Page : Type := mkPage {
  stateAndVersion : Z;
  frame : list Z;
  file : list Z;
  slots : gset nat;
}.

Definition set_word (w : Z) (p : Page) : Page := mkPage w (frame p) (file p) (slots p).
Definition set_frame (l : list Z) (p : Page) : Page := mkPage (stateAndVersion p) l (file p) (slots p).
Definition set_file (l : list Z) (p : Page) : Page := mkPage (stateAndVersion p) (frame p) l (slots p).
Definition set_slots (x : gset nat) (p : Page) : Page := mkPage (stateAndVersion p) (frame p) (file p) x.

(** Who called [pin] or releases the page: a client, [optimisticRead], an eviction, or
    [updateFrameIfPageIsInFrame]. *)
Inductive Caller : Type := Client | Reader | Evictor | Updater.

(** The three ways to give up the lock, each a load and a store of the word. *)
Inductive Release : Type := Unlock | UnlockUnchanged | ResetToEvicted.
Definition released (o : Release) (w : Z) : Z :=
  match o with Unlock => unlock w | UnlockUnchanged => unlockUnchanged w | ResetToEvicted => resetToEvicted w end.

Inductive PC : Type :=
| Idle
| Pin_start (k : Caller) (read : bool)        (** [pin]: about to load the word *)
| Pin_switch (k : Caller) (read : bool) (currStateAndVersion : Z)
| Pin_locked (k : Caller) (read : bool)       (** [claimAFrame]: about to reserve memory *)
| Pin_reserved (k : Caller) (read : bool)     (** [cachePageIntoFrame]: about to clear the dirty bit *)
| Pin_cleared (k : Caller) (read : bool)      (** about to read the page from the file *)
| Pin_framed (k : Caller) (read : bool)       (** about to insert the eviction candidate *)
| Pinned (fresh dirtied : bool)               (** the client uses the frame *)
| Releasing (o : Release) (k : Caller)
| Storing (o : Release) (k : Caller) (loaded : Z)
| Read_start                                  (** [optimisticRead]: about to load the word *)
| Read_switch (currStateAndVersion : Z)
| Read_func (currStateAndVersion : Z) (log : list (nat * Z))  (** cells read so far *)
| Evict_start (slot : nat)                    (** [evictPages]: about to load a candidate *)
| Evict_word (slot : nat)
| Evict_switch (slot : nat) (pageStateAndVersion : Z)
| Evict_clear (slot : nat)
| Try_start (slot : nat)                      (** [tryEvictPage] *)
| Try_word (slot : nat)
| Try_switch (slot : nat) (currStateAndVersion : Z)
| Try_locked (slot : nat)
| Try_flush (slot : nat)
| Try_write (slot : nat)
| Try_clean (slot : nat)
| Try_release (slot : nat)
| Try_unqueue (slot : nat)
| Update_start (newPage : list Z)
| Update_switch (newPage : list Z) (currentStateAndVersion : Z)
| Update_copy (newPage : list Z)
| Thrown                                      (** an exception has left the page locked *)
| Unreachable                                 (** [UNREACHABLE_CODE] in [EvictionQueue::clear] *)
| Done.

(** What a client sees. *)
Inductive Label : Type :=
| Tau
| Acquired (t : nat)
| AcquiredFresh (t : nat) (contents : list Z)
| Wrote (t i : nat) (v : Z)
| Released (t : nat)
| ReadAll (t : nat) (log : list (nat * Z)).

Definition acquired (t : nat) (k : Caller) (fresh : bool) (contents : list Z) : Label * PC :=
  match k with
  | Client => (if fresh then AcquiredFresh t contents else Acquired t, Pinned fresh false)
  | _ => (Tau, Releasing Unlock Reader)
  end.
Definition after_release (t : nat) (o : Release) (k : Caller) : Label * PC :=
  match o, k with
  | Unlock, Client => (Released t, Done)
  | Unlock, Reader => (Tau, Read_start)
  | _, _ => (Tau, Done)
  end.

Section Steps.
(** [isInMemoryMode] of the file; whether reads, writes and [madvise] may fail and the
    eviction queue may be full; whether a checkpoint may update the frame. *)
Variable inMemoryMode faults updates : bool.

(** An operation starts. *)
Inductive start_step (t : nat) (p : Page) : PC → Label * PC → Page → Prop :=
| begin_pin read : start_step t p Idle (Tau, Pin_start Client read) p
| begin_read : start_step t p Idle (Tau, Read_start) p
| begin_evict i : start_step t p Idle (Tau, Evict_start i) p
| begin_update l : updates = true → start_step t p Idle (Tau, Update_start l) (set_file l p).

(** [pin], [claimAFrame], [cachePageIntoFrame] *)
Inductive pin_step (t : nat) (p : Page) : PC → Label * PC → Page → Prop :=
| pin_load k read : pin_step t p (Pin_start k read) (Tau, Pin_switch k read (stateAndVersion p)) p
| pin_spin k read e : getState e = LOCKED → pin_step t p (Pin_switch k read e) (Tau, Pin_start k read) p
| pin_failed k read e w :
    getState e ≠ LOCKED → tryLock (stateAndVersion p) e = (false, w) →
    pin_step t p (Pin_switch k read e) (Tau, Pin_start k read) p
| pin_cached k read e w :
    getState e = UNLOCKED ∨ getState e = MARKED → tryLock (stateAndVersion p) e = (true, w) →
    pin_step t p (Pin_switch k read e) (acquired t k false (frame p)) (set_word w p)
| pin_evicted k read e w :
    getState e = EVICTED → tryLock (stateAndVersion p) e = (true, w) →
    pin_step t p (Pin_switch k read e) (Tau, Pin_locked k read) (set_word w p)
| pin_reserve k read : pin_step t p (Pin_locked k read) (Tau, Pin_reserved k read) p
| pin_full k read :  (** no memory can be freed: the caller gets an exception *)
    pin_step t p (Pin_locked k read) (Tau, Releasing ResetToEvicted k) p
| pin_clear k read :
    pin_step t p (Pin_reserved k read) (Tau, Pin_cleared k read) (set_word (clearDirty (stateAndVersion p)) p)
| pin_read k : pin_step t p (Pin_cleared k true) (Tau, Pin_framed k true) (set_frame (file p) p)
| pin_no_read k : pin_step t p (Pin_cleared k false) (Tau, Pin_framed k false) p
| pin_read_fails k l : faults = true → pin_step t p (Pin_cleared k true) (Tau, Thrown) (set_frame l p)
| pin_insert k read i :
    i ∉ slots p →
    pin_step t p (Pin_framed k read) (acquired t k (negb read) (frame p)) (set_slots ({[i]} ∪ slots p) p)
| pin_queue_full k read : faults = true → pin_step t p (Pin_framed k read) (Tau, Thrown) p.

(** A client marks the page dirty before it writes to the frame, and does not leave a
    page clean that it did not read. *)
Inductive client_step (t : nat) (p : Page) : PC → Label * PC → Page → Prop :=
| client_dirty fresh dirtied :
    client_step t p (Pinned fresh dirtied) (Tau, Pinned fresh true) (set_word (setDirty (stateAndVersion p)) p)
| client_write fresh i v :
    (i < length (frame p))%nat →
    client_step t p (Pinned fresh true) (Wrote t i v, Pinned fresh true) (set_frame (<[i := v]> (frame p)) p)
| client_unpin fresh dirtied :
    fresh = false ∨ dirtied = true →
    client_step t p (Pinned fresh dirtied) (Tau, Releasing Unlock Client) p.

(** [unlock], [unlockUnchanged], [resetToEvicted] *)
Inductive release_step (t : nat) (p : Page) : PC → Label * PC → Page → Prop :=
| release_load o k : release_step t p (Releasing o k) (Tau, Storing o k (stateAndVersion p)) p
| release_store o k e : release_step t p (Storing o k e) (after_release t o k) (set_word (released o e) p).

(** [optimisticRead] *)
Inductive read_step (t : nat) (p : Page) : PC → Label * PC → Page → Prop :=
| read_load : read_step t p Read_start (Tau, Read_switch (stateAndVersion p)) p
| read_unlocked e : getState e = UNLOCKED → read_step t p (Read_switch e) (Tau, Read_func e []) p
| read_cell e log i v :
    frame p !! i = Some v → read_step t p (Read_func e log) (Tau, Read_func e (log ++ [(i, v)])) p
| read_valid e log : stateAndVersion p = e → read_step t p (Read_func e log) (ReadAll t log, Done) p
| read_retry e log : stateAndVersion p ≠ e → read_step t p (Read_func e log) (Tau, Read_start) p
| read_marked e :
    getState e = MARKED →
    read_step t p (Read_switch e) (Tau, Read_start) (set_word (tryClearMark (stateAndVersion p) e).2 p)
| read_evicted e : getState e = EVICTED → read_step t p (Read_switch e) (Tau, Pin_start Reader true) p
| read_locked e : getState e = LOCKED → read_step t p (Read_switch e) (Tau, Read_start) p.

(** [evictPages], for one candidate *)
Inductive evict_step (t : nat) (p : Page) : PC → Label * PC → Page → Prop :=
| evict_empty i : i ∉ slots p → evict_step t p (Evict_start i) (Tau, Done) p
| evict_load i : i ∈ slots p → evict_step t p (Evict_start i) (Tau, Evict_word i) p
| evict_word i : evict_step t p (Evict_word i) (Tau, Evict_switch i (stateAndVersion p)) p
| evict_mark i e :
    getState e = UNLOCKED →
    evict_step t p (Evict_switch i e) (Tau, Done) (set_word (tryMark (stateAndVersion p) e).2 p)
| evict_evicted i e w :
    getState e = EVICTED → tryLock (stateAndVersion p) e = (true, w) →
    evict_step t p (Evict_switch i e) (Tau, Evict_clear i) (set_word w p)
| evict_evicted_failed i e w :
    getState e = EVICTED → tryLock (stateAndVersion p) e = (false, w) → evict_step t p (Evict_switch i e) (Tau, Done) p
| evict_locked i e : getState e = LOCKED → evict_step t p (Evict_switch i e) (Tau, Done) p
| evict_marked i e : getState e = MARKED → evict_step t p (Evict_switch i e) (Tau, Try_start i) p
| evict_tryClear i :
    evict_step t p (Evict_clear i) (Tau, Releasing ResetToEvicted Evictor) (set_slots (slots p ∖ {[i]}) p).

(** [tryEvictPage] *)
Inductive try_step (t : nat) (p : Page) : PC → Label * PC → Page → Prop :=
| try_gone i : i ∉ slots p → try_step t p (Try_start i) (Tau, Done) p
| try_load i : i ∈ slots p → try_step t p (Try_start i) (Tau, Try_word i) p
| try_word i : try_step t p (Try_word i) (Tau, Try_switch i (stateAndVersion p)) p
| try_not_evictable i e : getState e ≠ MARKED → try_step t p (Try_switch i e) (Tau, Done) p
| try_failed i e w : tryLock (stateAndVersion p) e = (false, w) → try_step t p (Try_switch i e) (Tau, Done) p
| try_lock i e w :
    getState e = MARKED → tryLock (stateAndVersion p) e = (true, w) →
    try_step t p (Try_switch i e) (Tau, Try_locked i) (set_word w p)
| try_changed i : i ∉ slots p → try_step t p (Try_locked i) (Tau, Releasing UnlockUnchanged Evictor) p
| try_in_memory i :
    i ∈ slots p → inMemoryMode = true → try_step t p (Try_locked i) (Tau, Releasing UnlockUnchanged Evictor) p
| try_go i : i ∈ slots p → inMemoryMode = false → try_step t p (Try_locked i) (Tau, Try_flush i) p
| try_dirty i : isDirty (stateAndVersion p) = true → try_step t p (Try_flush i) (Tau, Try_write i) p
| try_not_dirty i : isDirty (stateAndVersion p) = false → try_step t p (Try_flush i) (Tau, Try_release i) p
| try_write i : try_step t p (Try_write i) (Tau, Try_clean i) (set_file (frame p) p)
| try_write_fails i l : faults = true → try_step t p (Try_write i) (Tau, Thrown) (set_file l p)
| try_clean i :
    try_step t p (Try_clean i) (Tau, Try_release i) (set_word (clearDirty (stateAndVersion p)) p)
| try_release i :  (** MADV_DONTNEED *)
    try_step t p (Try_release i) (Tau, Try_unqueue i) (set_frame (replicate (length (frame p)) 0) p)
| try_release_fails i : faults = true → try_step t p (Try_release i) (Tau, Thrown) p
| try_unqueue i :
    i ∈ slots p →
    try_step t p (Try_unqueue i) (Tau, Releasing ResetToEvicted Evictor) (set_slots (slots p ∖ {[i]}) p)
| try_unreachable i : i ∉ slots p → try_step t p (Try_unqueue i) (Tau, Unreachable) p.

(** [updateFrameIfPageIsInFrame], after the page of the file has been written *)
Inductive update_step (t : nat) (p : Page) : PC → Label * PC → Page → Prop :=
| update_load l : update_step t p (Update_start l) (Tau, Update_switch l (stateAndVersion p)) p
| update_evicted l e : getState e = EVICTED → update_step t p (Update_switch l e) (Tau, Done) p
| update_failed l e w :
    getState e ≠ EVICTED → tryLock (stateAndVersion p) e = (false, w) →
    update_step t p (Update_switch l e) (Tau, Update_start l) p
| update_lock l e w :
    getState e ≠ EVICTED → tryLock (stateAndVersion p) e = (true, w) →
    update_step t p (Update_switch l e) (Tau, Update_copy l) (set_word w p)
| update_copy l : update_step t p (Update_copy l) (Tau, Releasing Unlock Updater) (set_frame l p).

(** A step of thread [t]. *)
Inductive tstep (t : nat) (p : Page) (pc : PC) (r : Label * PC) (p' : Page) : Prop :=
| t_begin : start_step t p pc r p' → tstep t p pc r p'
| t_pin : pin_step t p pc r p' → tstep t p pc r p'
| t_client : client_step t p pc r p' → tstep t p pc r p'
| t_release : release_step t p pc r p' → tstep t p pc r p'
| t_read : read_step t p pc r p' → tstep t p pc r p'
| t_evict : evict_step t p pc r p' → tstep t p pc r p'
| t_try : try_step t p pc r p' → tstep t p pc r p'
| t_update : update_step t p pc r p' → tstep t p pc r p'.

Record Pool : Type := mkPool { page : Page; pcs : nat → PC }.

Definition initial (contents garbage : list Z) : Pool :=
  mkPool (mkPage initialPageState garbage contents ∅) (λ _, Idle).

Inductive step : Pool → Label → Pool → Prop :=
| thread_step t s l pc p : tstep t (page s) (pcs s t) (l, pc) p → step s l (mkPool p (<[t := pc]> (pcs s))).

(** The labels are those of the steps, first to last. *)
Inductive exec (s0 : Pool) : list Label → Pool → Prop :=
| exec_nil : exec s0 [] s0
| exec_snoc ls s l s' : exec s0 ls s → step s l s' → exec s0 (ls ++ [l]) s'.
End Steps.

(** Case analysis of a step. *)
Ltac inv_tstep H := destruct H as [H|H|H|H|H|H|H|H]; inversion H.

(** ** The specification: a page with a lock *)

Record Spec : Type := mkSpec { contents : list Z; owner : option nat }.

(** A client that has the page reads and writes it; a read of many cells happens at once,
    while no client has the page. *)
Inductive spec_step : Spec → Label → Spec → Prop :=
| spec_acquire t c : spec_step (mkSpec c None) (Acquired t) (mkSpec c (Some t))
| spec_fresh t c c' : spec_step (mkSpec c None) (AcquiredFresh t c') (mkSpec c' (Some t))
| spec_write t i v c : (i < length c)%nat → spec_step (mkSpec c (Some t)) (Wrote t i v) (mkSpec (<[i := v]> c) (Some t))
| spec_release t c : spec_step (mkSpec c (Some t)) (Released t) (mkSpec c None)
| spec_read t log c :
    Forall (λ '(i, v), c !! i = Some v) log → spec_step (mkSpec c None) (ReadAll t log) (mkSpec c None).

Inductive spec_exec (a0 : Spec) : list Label → Spec → Prop :=
| spec_nil : spec_exec a0 [] a0
| spec_tau ls a : spec_exec a0 ls a → spec_exec a0 (ls ++ [Tau]) a
| spec_snoc ls a l a' : spec_exec a0 ls a → spec_step a l a' → spec_exec a0 (ls ++ [l]) a'.
