(* ===== verification/BufferPoolFacts.v ===== *)
(** * The invariant of a page of the buffer pool, and its steps by their effect on the lock *)

From stdpp Require Import functions gmap.
From S2P Require Import Prelude.
From S2P Require Import PageState.
From S2P Require Import BufferPool.

(** ** The state word under its operations *)

Lemma getState_of w s d v : page_word w s d v → getState w = s.
Proof. apply getState_word. Qed.

Lemma compare_exchange_true w e x w' : compare_exchange w e x = (true, w') → w = e ∧ w' = x.
Proof. unfold compare_exchange. destruct (Z.eqb_spec w e); by intros [= <-]. Qed.

Lemma updateSame_page w s d v s' :
  page_word w s d v → 0 ≤ s' ≤ 3 → page_word (updateStateWithSameVersion w s') s' d v.
Proof. intros Hw Hs. rewrite (updateSame_word _ _ _ _ _ Hw Hs). by destruct Hw as (_ & _ & ?). Qed.
Lemma updateIncrement_page w s d v s' :
  page_word w s d v → v + 1 < 2 ^ 55 → 0 ≤ s' ≤ 3 → page_word (updateStateAndIncrementVersion w s') s' d (v + 1).
Proof.
  intros Hw Hv Hs. rewrite (updateIncrement_word _ _ _ _ _ Hw Hv Hs). destruct Hw as (_ & _ & ?).
  apply page_word_intro; lia.
Qed.

Lemma tryLock_true w e w' s d v :
  page_word w s d v → tryLock w e = (true, w') → e = w ∧ page_word w' LOCKED d v.
Proof. intros Hw E%compare_exchange_true. destruct E as [<- ->]. split; [done|]. by eapply updateSame_page. Qed.

(** Marking and clearing a mark: the exchange happens only on the word that was loaded. *)
Lemma mark_word w e s d v :
  page_word w s d v → getState e = UNLOCKED →
  ∃ s', page_word (tryMark w e).2 s' d v ∧ (s' = s ∨ s = UNLOCKED ∧ s' = MARKED).
Proof.
  intros Hw He. unfold tryMark, compare_exchange. destruct (Z.eqb_spec w e) as [<-|]; simpl; [|by exists s; auto].
  exists MARKED. rewrite (getState_of _ _ _ _ Hw) in He. split; [by eapply updateSame_page|by auto].
Qed.
Lemma unmark_word w e s d v :
  page_word w s d v → getState e = MARKED →
  ∃ s', page_word (tryClearMark w e).2 s' d v ∧ (s' = s ∨ s = MARKED ∧ s' = UNLOCKED).
Proof.
  intros Hw He. unfold tryClearMark, compare_exchange. destruct (Z.eqb_spec w e) as [<-|]; simpl; [|by exists s; auto].
  exists UNLOCKED. rewrite (getState_of _ _ _ _ Hw) in He. split; [by eapply updateSame_page|by auto].
Qed.

Lemma setDirty_page w s d v : page_word w s d v → page_word (setDirty w) s true v.
Proof. intros Hw. rewrite (setDirty_word _ _ _ _ Hw). by destruct Hw as (_ & ? & ?). Qed.
Lemma clearDirty_page w s d v : page_word w s d v → page_word (clearDirty w) s false v.
Proof. intros Hw. rewrite (clearDirty_word _ _ _ _ Hw). by destruct Hw as (_ & ? & ?). Qed.

Definition released_state (o : Release) : Z :=
  match o with Unlock | UnlockUnchanged => UNLOCKED | ResetToEvicted => EVICTED end.
Definition released_version (o : Release) (v : Z) : Z :=
  match o with UnlockUnchanged => v | _ => v + 1 end.
Lemma released_word o w s d v :
  page_word w s d v → v + 1 < 2 ^ 55 →
  page_word (released o w) (released_state o) d (released_version o v).
Proof.
  intros Hw Hv. destruct o; cbn [released released_state released_version].
  - refine (updateIncrement_page w s d v UNLOCKED Hw Hv _). unfold UNLOCKED. lia.
  - refine (updateSame_page w s d v UNLOCKED Hw _). unfold UNLOCKED. lia.
  - refine (updateIncrement_page w s d v EVICTED Hw Hv _). unfold EVICTED. lia.
Qed.

(** ** Program counters *)

(** Who holds the lock of the page; for whom a client has it; whose release will raise
    the version. *)
Definition holds (pc : PC) : bool :=
  match pc with
  | Pin_locked _ _ | Pin_reserved _ _ | Pin_cleared _ _ | Pin_framed _ _ | Pinned _ _
  | Releasing _ _ | Storing _ _ _ | Evict_clear _ | Try_locked _ | Try_flush _ | Try_write _
  | Try_clean _ | Try_release _ | Try_unqueue _ | Update_copy _ | Thrown | Unreachable => true
  | _ => false
  end.
Definition owns (pc : PC) : bool :=
  match pc with Pinned _ _ | Releasing Unlock Client | Storing Unlock Client _ => true | _ => false end.
Definition bumps (pc : PC) : bool :=
  match pc with
  | Try_locked _ | Releasing UnlockUnchanged _ | Storing UnlockUnchanged _ _ => false
  | pc => holds pc
  end.

Lemma owns_holds pc : owns pc = true → holds pc = true.
Proof. by destruct pc. Qed.
Lemma bumps_holds pc : bumps pc = true → holds pc = true.
Proof. by destruct pc. Qed.

(** Where the contents [c] of the page are while [pc] holds the lock; [d] is the dirty bit. *)
Definition in_file (p : Page) (c : list Z) : Prop := file p = c.
Definition in_frame (p : Page) (d : bool) (c : list Z) : Prop := frame p = c ∧ (d = false → file p = c).

Definition pins (k : Caller) (read : bool) : Prop := k = Client ∨ read = true.
Definition holder_ok (pc : PC) (p : Page) (d : bool) (c : list Z) : Prop :=
  match pc with
  | Pin_locked k read | Pin_reserved k read => pins k read ∧ in_file p c
  | Pin_cleared k read => pins k read ∧ in_file p c ∧ d = false
  | Pin_framed k read => pins k read ∧ in_file p c ∧ (read = true → in_frame p d c)
  | Pinned fresh dirtied =>
      frame p = c ∧ (dirtied = true → d = true) ∧ (d = false → fresh = false → file p = c)
  | Releasing ResetToEvicted _ => in_file p c
  | Storing ResetToEvicted _ e => e = stateAndVersion p ∧ in_file p c
  | Releasing _ _ => in_frame p d c
  | Storing _ _ e => e = stateAndVersion p ∧ in_frame p d c
  | Evict_clear _ => in_file p c
  | Try_locked _ => in_frame p d c
  | Try_flush i => i ∈ slots p ∧ in_frame p d c
  | Try_write i => i ∈ slots p ∧ frame p = c
  | Try_clean i | Try_release i | Try_unqueue i => i ∈ slots p ∧ in_file p c
  | Update_copy _ | Unreachable => False
  | _ => True
  end.

(** What a thread without the lock knows, at version [v]; [B]: the holder will raise it. *)
Definition free_ok (pc : PC) (v : Z) (B : Prop) (fr : list Z) : Prop :=
  match pc with
  | Pin_start k read | Pin_switch k read _ => pins k read
  | Read_switch e => ∃ s d ve, page_word e s d ve ∧ ve ≤ v
  | Read_func e log =>
      ∃ d ve, page_word e UNLOCKED d ve ∧ ve ≤ v ∧
        (ve = v → B ∨ Forall (λ '(i, x), fr !! i = Some x) log)
  | Update_start _ | Update_switch _ _ => False
  | _ => True
  end.

Lemma free_ok_mono pc v v' (B B' : Prop) fr fr' :
  free_ok pc v B fr → v ≤ v' → (v = v' → (B → B') ∧ (B' ∨ fr = fr')) → free_ok pc v' B' fr'.
Proof.
  intros H Hv HB. destruct pc; simpl in *; try done.
  - destruct H as (s & d & ve & Hw & Hle). exists s, d, ve. split; [done|lia].
  - destruct H as (d & ve & Hw & Hle & Hl). exists d, ve. split_and!; [done|lia|].
    intros ->. assert (v = v') as -> by lia. destruct (HB eq_refl) as [H1 [H2|<-]]; [by left|].
    destruct (Hl eq_refl); auto.
Qed.
Lemma free_ok_holder pc v B fr : holds pc = true → free_ok pc v B fr.
Proof. by destruct pc. Qed.

(** ** The invariant *)

(** [a] is the abstract page; [st], [d] and [v] are the parts of the word. *)
Record inv (s : Pool) (st : Z) (d : bool) (v : Z) (a : Spec) : Prop := {
  i_word : page_word (stateAndVersion (page s)) st d v;
  i_locked : st = LOCKED ↔ ∃ t, holds (pcs s t) = true;
  i_unique : ∀ t t', holds (pcs s t) = true → holds (pcs s t') = true → t = t';
  i_holder : ∀ t, holds (pcs s t) = true → holder_ok (pcs s t) (page s) d (contents a);
  i_free : st ≠ LOCKED →
    if decide (st = EVICTED) then in_file (page s) (contents a) else in_frame (page s) d (contents a);
  i_threads : ∀ t, free_ok (pcs s t) v (∃ t', bumps (pcs s t') = true) (frame (page s));
  i_owner : ∀ t, owner a = Some t ↔ owns (pcs s t) = true;
}.

Lemma no_holder s st d v a t : inv s st d v a → st ≠ LOCKED → holds (pcs s t) = false.
Proof.
  intros Hi Hst. destruct (holds (pcs s t)) eqn:E; [|done]. destruct Hst. apply (i_locked _ _ _ _ _ Hi). eauto.
Qed.
Lemma no_owner s st d v a : inv s st d v a → (∀ t, owns (pcs s t) = false) → owner a = None.
Proof.
  intros Hi Ho. destruct (owner a) as [t|] eqn:E; [|done]. apply (i_owner _ _ _ _ _ Hi) in E. by rewrite Ho in E.
Qed.
Lemma other_free s st d v a t t' :
  inv s st d v a → holds (pcs s t) = true → t' ≠ t → holds (pcs s t') = false.
Proof.
  intros Hi Ht Hne. destruct (holds (pcs s t')) eqn:E; [|done]. by destruct Hne; apply (i_unique _ _ _ _ _ Hi).
Qed.

Section Effects.
Context (s : Pool) (st : Z) (d : bool) (v : Z) (a : Spec) (t : nat).
Hypothesis Hi : inv s st d v a.

Lemma fn_eq (pc : PC) t' : <[t:=pc]> (pcs s) t' = if decide (t' = t) then pc else pcs s t'.
Proof. destruct (decide (t' = t)) as [->|]; [by rewrite fn_lookup_insert|by rewrite fn_lookup_insert_ne]. Qed.

(** A thread without the lock only marks the page. *)
Lemma free_step pc w' st' :
  holds (pcs s t) = false → holds pc = false →
  page_word w' st' d v → (st' = st ∨ (st = UNLOCKED ∧ st' = MARKED) ∨ (st = MARKED ∧ st' = UNLOCKED)) →
  free_ok pc v (∃ t', bumps (pcs s t') = true) (frame (page s)) →
  inv (mkPool (set_word w' (page s)) (<[t := pc]> (pcs s))) st' d v a.
Proof.
  intros Hpc Hpc' Hw Hst Hfree.
  assert (∀ t', holds (<[t:=pc]> (pcs s) t') = holds (pcs s t')) as Hh.
  { intros t'. rewrite fn_eq. case_decide; [subst; congruence|done]. }
  assert (∀ t', bumps (<[t:=pc]> (pcs s) t') = true ↔ bumps (pcs s t') = true) as Hb.
  { intros t'. rewrite fn_eq. case_decide as E; [|done]. subst t'. split; intros X%bumps_holds; congruence. }
  constructor; simpl.
  - done.
  - setoid_rewrite Hh. rewrite <-(i_locked _ _ _ _ _ Hi). destruct Hst as [->|[[-> ->]|[-> ->]]]; done.
  - setoid_rewrite Hh. apply (i_unique _ _ _ _ _ Hi).
  - intros t' Ht'. rewrite Hh in Ht'. pose proof (i_holder _ _ _ _ _ Hi t' Ht') as Ho.
    rewrite fn_eq. case_decide; [congruence|].
    assert (st = LOCKED) by (apply (i_locked _ _ _ _ _ Hi); eauto).
    destruct Hst as [->|[[-> _]|[-> _]]]; [|done..].
    replace w' with (stateAndVersion (page s)); [|destruct (i_word _ _ _ _ _ Hi) as [-> _]; by destruct Hw].
    by destruct (page s).
  - intros Hst'. assert (st ≠ LOCKED) as Hn by (destruct Hst as [->|[[-> ->]|[-> ->]]]; done).
    pose proof (i_free _ _ _ _ _ Hi Hn) as Hf. destruct Hst as [->|[[-> ->]|[-> ->]]]; done.
  - intros t'. assert ((∃ t', bumps (<[t:=pc]> (pcs s) t') = true) ↔ ∃ t', bumps (pcs s t') = true) as HB.
    { by setoid_rewrite Hb. }
    rewrite fn_eq. case_decide; eapply free_ok_mono; [exact Hfree|lia|..];
      [|apply (i_threads _ _ _ _ _ Hi)|lia|]; intros _; (split; [by rewrite HB|by right]).
  - intros t'. rewrite (i_owner _ _ _ _ _ Hi), fn_eq. case_decide as E; [|done]. subst t'.
    split; intros X%owns_holds; congruence.
Qed.

Lemma set_word_id : set_word (stateAndVersion (page s)) (page s) = page s.
Proof. by destruct (page s). Qed.

Lemma free_step_same pc :
  holds (pcs s t) = false → holds pc = false →
  free_ok pc v (∃ t', bumps (pcs s t') = true) (frame (page s)) →
  inv (mkPool (page s) (<[t := pc]> (pcs s))) st d v a.
Proof.
  intros ???. rewrite <-set_word_id. apply free_step; [done..|apply (i_word _ _ _ _ _ Hi)|by left|done].
Qed.

(** Every step with the lock before or after it: the thread is the only one concerned. *)
Lemma lock_step pc p' st' d' v' c' o' :
  (∀ t', t' ≠ t → holds (pcs s t') = false) →
  page_word (stateAndVersion p') st' d' v' → v ≤ v' →
  (st' = LOCKED ↔ holds pc = true) →
  (holds pc = true → holder_ok pc p' d' c') →
  (st' ≠ LOCKED → if decide (st' = EVICTED) then in_file p' c' else in_frame p' d' c') →
  free_ok pc v' (bumps pc = true) (frame p') →
  (v = v' → bumps pc = true ∨ bumps (pcs s t) = false ∧ frame p' = frame (page s)) →
  o' = (if owns pc then Some t else None) →
  inv (mkPool p' (<[t := pc]> (pcs s))) st' d' v' (mkSpec c' o').
Proof.
  intros Hoth Hw Hv Hl Hh Hf Hfree Hb ->.
  assert (∀ t', t' ≠ t → bumps (pcs s t') = false) as Hob.
  { intros t' Ht'. destruct (bumps (pcs s t')) eqn:E; [|done]. apply bumps_holds in E. by rewrite Hoth in E. }
  assert (∀ t', t' ≠ t → owns (pcs s t') = false) as Hoo.
  { intros t' Ht'. destruct (owns (pcs s t')) eqn:E; [|done]. apply owns_holds in E. by rewrite Hoth in E. }
  constructor; simpl.
  - done.
  - rewrite Hl. split; [intros Hp; exists t; by rewrite fn_eq, decide_True|].
    intros (t' & Ht'). rewrite fn_eq in Ht'. destruct (decide (t' = t)); [done|]. by rewrite Hoth in Ht'.
  - intros t1 t2. rewrite !fn_eq. destruct (decide (t1 = t)), (decide (t2 = t)); subst; try done; intros X Y;
      first [by rewrite Hoth in X|by rewrite Hoth in Y].
  - intros t'. rewrite fn_eq. destruct (decide (t' = t)); [exact Hh|]. intros X. by rewrite Hoth in X.
  - done.
  - intros t'. rewrite fn_eq. destruct (decide (t' = t)) as [E|E].
    + eapply free_ok_mono; [exact Hfree|lia|]. intros _. split; [|by right].
      intros Hp. exists t. by rewrite fn_eq, decide_True.
    + eapply free_ok_mono; [apply (i_threads _ _ _ _ _ Hi)|lia|]. intros Hvv.
      destruct (Hb Hvv) as [Hp|[Hp ->]].
      * assert (∃ t', bumps (<[t:=pc]> (pcs s) t') = true) by (exists t; by rewrite fn_eq, decide_True). auto.
      * split; [|by right]. intros (t'' & Ht''). destruct (decide (t'' = t)) as [->|]; [congruence|].
        by rewrite Hob in Ht''.
  - intros t'. rewrite fn_eq. destruct (decide (t' = t)) as [E|E].
    + subst t'. by destruct (owns pc).
    + rewrite Hoo by done. split; [|done]. destruct (owns pc); [|done]. intros [= ->]. done.
Qed.
End Effects.

Section Cases.
Context (s : Pool) (st : Z) (d : bool) (v : Z) (c : list Z) (o : option nat) (t : nat).
Hypothesis Hi : inv s st d v (mkSpec c o).

Lemma holder_state : holds (pcs s t) = true → st = LOCKED.
Proof. intros Hp. apply (i_locked _ _ _ _ _ Hi). eauto. Qed.
Lemma holder_owner : holds (pcs s t) = true → o = if owns (pcs s t) then Some t else None.
Proof.
  intros Hp. destruct (owns (pcs s t)) eqn:E; [by apply (i_owner _ _ _ _ _ Hi) in E|].
  apply (no_owner _ _ _ _ _ Hi). intros t'. destruct (decide (t' = t)) as [->|Hne]; [done|].
  destruct (owns (pcs s t')) eqn:E'; [|done]. apply owns_holds in E'.
  by rewrite (other_free _ _ _ _ _ _ _ Hi Hp Hne) in E'.
Qed.
Lemma unlocked_owner : st ≠ LOCKED → o = None.
Proof.
  intros Hst. apply (no_owner _ _ _ _ _ Hi). intros t'. destruct (owns (pcs s t')) eqn:E; [|done].
  apply owns_holds in E. by rewrite (no_holder _ _ _ _ _ t' Hi Hst) in E.
Qed.

(** A thread takes the lock. *)
Lemma acquire_step pc e w :
  tryLock (stateAndVersion (page s)) e = (true, w) → getState e ≠ LOCKED → holds pc = true →
  (∀ p, frame p = frame (page s) → file p = file (page s) → slots p = slots (page s) → holder_ok pc p d c) →
  inv (mkPool (set_word w (page s)) (<[t := pc]> (pcs s))) LOCKED d v (mkSpec c (if owns pc then Some t else None)).
Proof.
  intros Hl He Hp Hok. pose proof (i_word _ _ _ _ _ Hi) as Hw.
  destruct (tryLock_true _ _ _ _ _ _ Hw Hl) as [-> Hw']. rewrite (getState_of _ _ _ _ Hw) in He.
  apply (lock_step _ _ _ _ _ _ Hi); try done.
  - intros t' _. by apply (no_holder _ _ _ _ _ _ Hi).
  - intros _. by apply Hok.
  - by apply free_ok_holder.
  - intros _. right. split; [|done]. destruct (bumps (pcs s t)) eqn:E; [|done]. apply bumps_holds in E.
    by rewrite (no_holder _ _ _ _ _ _ Hi He) in E.
Qed.

Lemma acquire_free e w :
  tryLock (stateAndVersion (page s)) e = (true, w) → getState e ≠ LOCKED →
  o = None ∧ (getState e = EVICTED → in_file (page s) c) ∧ (getState e ≠ EVICTED → in_frame (page s) d c).
Proof.
  intros Hl He. pose proof (i_word _ _ _ _ _ Hi) as Hw. destruct (tryLock_true _ _ _ _ _ _ Hw Hl) as [-> _].
  rewrite (getState_of _ _ _ _ Hw) in *. split; [by apply unlocked_owner|].
  pose proof (i_free _ _ _ _ _ Hi He) as Hf. simpl in Hf. by case_decide.
Qed.

(** The holder keeps the lock. *)
Lemma hold_step pc p' d' c' :
  holds (pcs s t) = true → holds pc = true → page_word (stateAndVersion p') LOCKED d' v →
  holder_ok pc p' d' c' → (bumps pc = true ∨ bumps (pcs s t) = false ∧ frame p' = frame (page s)) →
  inv (mkPool p' (<[t := pc]> (pcs s))) LOCKED d' v (mkSpec c' (if owns pc then Some t else None)).
Proof.
  intros Hp Hp' Hw Hok Hb. apply (lock_step _ _ _ _ _ _ Hi); try done.
  - intros t' Hne. by apply (other_free _ _ _ _ _ _ _ Hi Hp).
  - by apply free_ok_holder.
Qed.

(** The holder gives it up. *)
Lemma release_step pc op k e :
  pcs s t = Storing op k e → v + 1 < 2 ^ 55 → holds pc = false →
  (∀ B fr, free_ok pc (released_version op v) B fr) →
  inv (mkPool (set_word (released op e) (page s)) (<[t := pc]> (pcs s))) (released_state op) d (released_version op v)
    (mkSpec c None).
Proof.
  intros Ep Hv Hp Hfree. assert (holds (pcs s t) = true) as Hh by by rewrite Ep.
  pose proof (i_holder _ _ _ _ _ Hi t Hh) as Hok. rewrite Ep in Hok.
  assert (e = stateAndVersion (page s)) as -> by (destruct op; apply Hok).
  pose proof (released_word op _ _ _ _ (i_word _ _ _ _ _ Hi) Hv) as Hw.
  apply (lock_step _ _ _ _ _ _ Hi); try done.
  - intros t' Hne. by apply (other_free _ _ _ _ _ _ _ Hi Hh).
  - destruct op; unfold released_version; lia.
  - rewrite Hp. by destruct op.
  - by rewrite Hp.
  - intros _. destruct op; apply Hok.
  - destruct op; unfold released_version; [lia| |lia]. intros _. right. rewrite Ep. by split.
  - destruct (owns pc) eqn:E; [|done]. apply owns_holds in E. congruence.
Qed.
End Cases.

(** ** Every step keeps the invariant and is a step of the abstract page *)

Definition simulated (s' : Pool) (v : Z) (a : Spec) (l : Label) : Prop :=
  ∃ st' d' v' a', inv s' st' d' v' a' ∧ v' ≤ v + 1 ∧ (l = Tau ∧ a' = a ∨ spec_step a l a').

Lemma simulated_tau s' st' d' v' v a : inv s' st' d' v' a → v' ≤ v + 1 → simulated s' v a Tau.
Proof. intros. exists st', d', v', a. auto. Qed.
Lemma simulated_step s' st' d' v' v a a' l :
  inv s' st' d' v' a' → v' ≤ v + 1 → spec_step a l a' → simulated s' v a l.
Proof. intros. exists st', d', v', a'. auto. Qed.

Section Simulation.
Context (s : Pool) (st : Z) (d : bool) (v : Z) (c : list Z) (o : option nat) (t : nat).
Hypothesis Hi : inv s st d v (mkSpec c o).
Variable inMemoryMode faults : bool.

#[local] Abbreviation tstep := (tstep inMemoryMode faults false t (page s)).
#[local] Abbreviation result pc := (λ p, mkPool p (<[t := pc]> (pcs s))).

Lemma free_tau pc0 pc :
  pcs s t = pc0 → holds pc0 = false → holds pc = false →
  free_ok pc v (∃ t', bumps (pcs s t') = true) (frame (page s)) →
  simulated (mkPool (page s) (<[t := pc]> (pcs s))) v (mkSpec c o) Tau.
Proof. intros <- ???. eapply simulated_tau; [by apply (free_step_same _ _ _ _ _ _ Hi)|lia]. Qed.

Lemma hold_tau pc0 pc p' d' :
  pcs s t = pc0 → holds pc0 = true → holds pc = true → owns pc = owns pc0 →
  page_word (stateAndVersion p') LOCKED d' v → holder_ok pc p' d' c →
  (bumps pc = true ∨ bumps pc0 = false ∧ frame p' = frame (page s)) →
  simulated (mkPool p' (<[t := pc]> (pcs s))) v (mkSpec c o) Tau.
Proof.
  intros <- Hp Hp' Ho Hw Hok Hb. rewrite (holder_owner _ _ _ _ _ _ _ Hi Hp), <-Ho.
  eapply simulated_tau; [by apply (hold_step _ _ _ _ _ _ _ Hi)|lia].
Qed.

(** A thread without the lock. *)
Lemma sim_free pc0 l pc p :
  pcs s t = pc0 → holds pc0 = false → holds pc = false → tstep pc0 (l, pc) p →
  simulated (mkPool p (<[t := pc]> (pcs s))) v (mkSpec c o) l.
Proof.
  pose proof (i_threads _ _ _ _ _ Hi t) as Hfr. pose proof (i_word _ _ _ _ _ Hi) as Hw.
  intros Epc H0 H1 Ht. revert Epc. inv_tstep Ht; subst; try discriminate;
    try (match goal with H : acquired _ ?k _ _ = _ |- _ => destruct k; simplify_eq/= end);
    intros Epc; rewrite Epc in Hfr; cbn [free_ok] in Hfr; try done;
    try (eapply free_tau; [exact Epc|done..|]; cbn [free_ok]; first [exact Hfr|done|by right|by left|idtac]).
  - eexists _, _, _. split; [exact Hw|lia].
  - destruct Hfr as (s' & d' & ve & Hw' & Hle). rewrite (getState_of _ _ _ _ Hw') in *. subst s'.
    exists d', ve. split_and!; [done|done|]. intros _. right. constructor.
  - destruct Hfr as (d' & ve & Hw' & Hle & Hl). exists d', ve. split_and!; [done|done|].
    intros E. destruct (Hl E) as [HB|HF]; [by left|right]. apply Forall_app. split; [done|]. by constructor.
  - destruct Hfr as (d' & ve & Hw' & Hle & Hl).
    destruct (page_word_inj _ _ _ _ _ _ _ Hw Hw') as (-> & <- & <-).
    pose proof (unlocked_owner _ _ _ _ _ _ Hi ltac:(done)) as Eo. subst o.
    eapply (simulated_step _ _ _ v); [|lia|apply spec_read].
    + apply (free_step_same _ _ _ _ _ _ Hi); [by rewrite Epc|done|done].
    + destruct (Hl eq_refl) as [(t' & Hb)|HF].
      * apply bumps_holds in Hb. by rewrite (no_holder _ _ _ _ _ t' Hi) in Hb.
      * pose proof (i_free _ _ _ _ _ Hi) as Hf. simpl in Hf. destruct Hf as [Hf _]; [done|]. by rewrite <-Hf.
  - destruct (unmark_word _ e _ _ _ Hw) as (s' & Hw' & Hs'); [done|].
    eapply (simulated_tau _ _ _ v); [|lia]. apply (free_step _ _ _ _ _ _ Hi); [by rewrite Epc|done|done| |done].
    destruct Hs' as [->|[-> ->]]; auto.
  - destruct (mark_word _ e _ _ _ Hw) as (s' & Hw' & Hs'); [done|].
    eapply (simulated_tau _ _ _ v); [|lia]. apply (free_step _ _ _ _ _ _ Hi); [by rewrite Epc|done|done| |done].
    destruct Hs' as [->|[-> ->]]; auto.
Qed.

Ltac acquire :=
  lazymatch goal with
  | Hl : tryLock _ _ = _ |- inv {| page := set_word ?w _; pcs := <[_:=?pc]> _ |} _ _ _ _ =>
      refine (acquire_step _ _ _ _ _ _ _ Hi pc _ w Hl _ _ _); [done|done|]
  end; let p' := fresh in let Ef := fresh in let Es := fresh in
  intros p' Ef Es _; cbn [holder_ok]; unfold in_file, in_frame in *; rewrite ?Ef, ?Es; naive_solver.

(** A thread that takes it. *)
Lemma sim_acquire pc0 l pc p :
  pcs s t = pc0 → holds pc0 = false → holds pc = true → tstep pc0 (l, pc) p →
  simulated (mkPool p (<[t := pc]> (pcs s))) v (mkSpec c o) l.
Proof.
  pose proof (i_threads _ _ _ _ _ Hi t) as Hfr. intros Epc H0 H1 Ht. revert Epc.
  inv_tstep Ht; subst; try discriminate;
    try (match goal with H : after_release _ ?o ?k = _ |- _ => destruct o, k; simplify_eq/= end);
    intros Epc; rewrite Epc in Hfr; cbn [free_ok] in Hfr; try done;
    match goal with
    | H : getState ?e = UNLOCKED ∨ getState ?e = MARKED |- _ =>
        assert (getState e ≠ LOCKED) as He by (by destruct H as [-> | ->]);
        assert (getState e ≠ EVICTED) by (by destruct H as [-> | ->])
    | H : getState ?e = _ |- _ => assert (getState e ≠ LOCKED) as He by (by rewrite H)
    end;
    match goal with Hl : tryLock _ _ = _ |- _ =>
      destruct (acquire_free _ _ _ _ _ _ Hi _ _ Hl He) as (-> & Hf1 & Hf2)
    end.
  - destruct k; simplify_eq/=;
      [eapply (simulated_step _ _ _ v); [|lia|apply spec_acquire]|eapply (simulated_tau _ _ _ v); [|lia]..]; acquire.
  - eapply (simulated_tau _ _ _ v); [|lia]. acquire.
  - eapply (simulated_tau _ _ _ v); [|lia]. acquire.
  - eapply (simulated_tau _ _ _ v); [|lia]. assert (getState e ≠ EVICTED) by (by match goal with H : getState e = _ |- _ => rewrite H end). acquire.
Qed.

(** The holder. *)
Lemma sim_hold pc0 l pc p :
  pcs s t = pc0 → holds pc0 = true → holds pc = true → tstep pc0 (l, pc) p →
  simulated (mkPool p (<[t := pc]> (pcs s))) v (mkSpec c o) l.
Proof.
  intros Epc H0 H1 Ht. assert (holds (pcs s t) = true) as Hh by by rewrite Epc.
  pose proof (i_holder _ _ _ _ _ Hi t Hh) as Hok. pose proof (holder_state _ _ _ _ _ _ _ Hi Hh) as Hst.
  pose proof (i_word _ _ _ _ _ Hi) as Hw. rewrite Hst in Hw. clear Hst. rewrite Epc in Hok. revert Epc.
  inv_tstep Ht; subst; try discriminate;
    try (match goal with H : after_release _ ?o ?k = _ |- _ => destruct o, k; simplify_eq/= end);
    intros Epc; cbn [holder_ok contents] in Hok; try done.
  all: try (eapply hold_tau; [exact Epc|done..| | |first [by left|by right]]; [first [exact Hw|by eapply clearDirty_page|by eapply setDirty_page]|];
            cbn [holder_ok]; unfold in_file, in_frame in *; naive_solver).
  - pose proof (holder_owner _ _ _ _ _ _ _ Hi Hh) as Ho. rewrite Epc in Ho. simpl in Ho. destruct Hok as (Hk & Hf & Hr).
    destruct k; cbn [acquired] in H; injection H as <- <-.
    + subst o. destruct read; simpl.
      * eapply (simulated_step _ _ _ v); [|lia|apply spec_acquire].
        refine (hold_step _ _ _ _ _ _ _ Hi (Pinned false false) _ d c Hh eq_refl _ _ _); [exact Hw| |by left].
        destruct (Hr eq_refl). split_and!; naive_solver.
      * eapply (simulated_step _ _ _ v); [|lia|apply spec_fresh].
        refine (hold_step _ _ _ _ _ _ _ Hi (Pinned true false) _ d (frame (page s)) Hh eq_refl _ _ _); [exact Hw| |by left].
        by split_and!.
    + eapply hold_tau; [exact Epc|done..|exact Hw| |by left]. destruct Hk as [|Hk]; [done|]. destruct (Hr Hk). by split.
    + eapply hold_tau; [exact Epc|done..|exact Hw| |by left]. destruct Hk as [|Hk]; [done|]. destruct (Hr Hk). by split.
    + eapply hold_tau; [exact Epc|done..|exact Hw| |by left]. destruct Hk as [|Hk]; [done|]. destruct (Hr Hk). by split.
  - pose proof (holder_owner _ _ _ _ _ _ _ Hi Hh) as Ho. rewrite Epc in Ho. simpl in Ho. subst o.
    destruct Hok as (<- & Hd & Hf). eapply (simulated_step _ _ _ v); [|lia|by apply spec_write].
    refine (hold_step _ _ _ _ _ _ _ Hi (Pinned fresh true) _ d _ Hh eq_refl _ _ _); [exact Hw| |by left].
    rewrite (Hd eq_refl) in *. by split_and!.
  - eapply hold_tau; [exact Epc|done|done| |exact Hw| |]; destruct o0, k; simpl in *; auto.
  - assert (d = false) as Hd by by rewrite <-(isDirty_word _ _ _ _ Hw). destruct Hok as (Hs & _ & Hf).
    eapply hold_tau; [exact Epc|done..|exact Hw| |by left]. split; [done|by apply Hf].
Qed.

Lemma sim_release pc0 l pc p :
  v + 1 < 2 ^ 55 → pcs s t = pc0 → holds pc0 = true → holds pc = false → tstep pc0 (l, pc) p →
  simulated (mkPool p (<[t := pc]> (pcs s))) v (mkSpec c o) l.
Proof.
  intros Hv Epc H0 H1 Ht. assert (holds (pcs s t) = true) as Hh by by rewrite Epc.
  pose proof (holder_owner _ _ _ _ _ _ _ Hi Hh) as Ho. rewrite Epc in Ho. revert Epc.
  inv_tstep Ht; try subst l; try subst pc; try subst pc0; try discriminate; intros Epc;
    try (match goal with H : acquired _ ?k _ _ = _ |- _ => destruct k; simplify_eq/= end).
  match goal with H : after_release _ _ _ = _ |- _ => rename H into Hl end.
  assert (∀ B fr, free_ok pc (released_version o0 v) B fr) as Hfree.
  { intros B fr. destruct o0, k; by injection Hl as <- <-. }
  pose proof (release_step _ _ _ _ _ _ _ Hi pc o0 k e Epc Hv H1 Hfree) as Hn.
  assert (released_version o0 v ≤ v + 1) by (destruct o0; simpl; lia).
  assert (o0 = Unlock ∧ k = Client ∧ l = Released t ∧ o = Some t ∨ l = Tau ∧ o = None) as [(_ & _ & -> & Eo)|(-> & Eo)].
  { clear -Hl Ho. destruct o0, k; injection Hl as <- <-; simpl in Ho; auto. }
  - rewrite Eo. eapply simulated_step; [exact Hn|done|apply spec_release].
  - rewrite Eo. eapply simulated_tau; [exact Hn|done].
Qed.
End Simulation.

(** Without updates of frames by a checkpoint. *)
Lemma page_inv_step inMemoryMode faults s st d v a l s' :
  inv s st d v a → v + 1 < 2 ^ 55 → step inMemoryMode faults false s l s' → simulated s' v a l.
Proof.
  intros Hi Hv Hs. destruct a as [c o]. destruct Hs as [t s l pc p Ht].
  destruct (holds (pcs s t)) eqn:E0, (holds pc) eqn:E1.
  - by eapply sim_hold.
  - by eapply sim_release.
  - by eapply sim_acquire.
  - by eapply sim_free.
Qed.

Lemma page_inv_initial c garbage : inv (initial c garbage) EVICTED false 0 (mkSpec c None).
Proof.
  constructor; simpl; try done.
  split; [done|]. by intros (t & ?).
Qed.

(** The abstract run of a run, and the invariant at its end. *)
Lemma exec_simulated inMemoryMode faults c garbage ls s :
  exec inMemoryMode faults false (initial c garbage) ls s → Z.of_nat (length ls) < 2 ^ 55 →
  ∃ st d v a, inv s st d v a ∧ v ≤ Z.of_nat (length ls) ∧ spec_exec (mkSpec c None) ls a.
Proof.
  intros He. induction He as [|ls s l s' He IH Hs]; intros Hn.
  - exists EVICTED, false, 0, (mkSpec c None). split; [apply page_inv_initial|]. split; [done|constructor].
  - rewrite length_app in *. simpl in *. destruct IH as (st & d & v & a & Hi & Hv & Ha); [lia|].
    destruct (page_inv_step _ _ _ _ _ _ _ _ _ Hi ltac:(lia) Hs) as (st' & d' & v' & a' & Hi' & Hv' & Hl).
    exists st', d', v', a'. split; [done|]. split; [lia|].
    destruct Hl as [[-> ->]|Hl]; [by constructor|by econstructor].
Qed.

Lemma read_returns inMemoryMode faults updates s t log s' :
  step inMemoryMode faults updates s (ReadAll t log) s' → pcs s t = Read_func (stateAndVersion (page s)) log.
Proof.
  intros Hs. remember (ReadAll t log) as l eqn:El. destruct Hs as [t' s l pc p Ht].
  remember (pcs s t') as pc0 eqn:E0. inv_tstep Ht; subst; try discriminate; try congruence;
    match goal with
    | H : acquired _ ?k ?f _ = _ |- _ => destruct k, f; discriminate H
    | H : after_release _ ?o ?k = _ |- _ => destruct o, k; discriminate H
    end.
Qed.
