(* ===== verification/BufferPoolTheorems.v ===== *)
(** * A page of the buffer pool: what pins, optimistic reads and evictions guarantee

    Runs of any number of threads are runs of a page with a lock; a reader can always
    finish; an exception under the lock locks the page for good; the update of a frame by
    a checkpoint breaks the lock. *)

From stdpp Require Import functions gmap.
From S2P Require Import Prelude.
From S2P Require Import PageState.
From S2P Require Import BufferPool.
From S2P Require Import BufferPoolFacts.

(** * A page of the buffer pool: whoever holds the lock can finish, and then a reader can *)

Lemma exec_app inMemoryMode faults updates s ls s1 ls' s2 :
  exec inMemoryMode faults updates s ls s1 → exec inMemoryMode faults updates s1 ls' s2 →
  exec inMemoryMode faults updates s (ls ++ ls') s2.
Proof.
  intros H1 H2. induction H2 as [|ls' s2 l s3 He IH Hs]; [by rewrite app_nil_r|].
  rewrite (assoc_L (++)). by econstructor.
Qed.

Section Progress.
Variable inMemoryMode : bool.
#[local] Abbreviation exec := (exec inMemoryMode false false).
#[local] Abbreviation step := (step inMemoryMode false false).
#[local] Abbreviation tstep := (tstep inMemoryMode false false).

Lemma exec_cons s l s1 ls s2 : step s l s1 → exec s1 ls s2 → exec s (l :: ls) s2.
Proof.
  intros Hs He. induction He as [|ls s2 l' s3 He IH Hs'].
  - rewrite <-(app_nil_l [l]). econstructor; [constructor|done].
  - rewrite app_comm_cons. by econstructor.
Qed.
(** Thread [t] alone goes from [s] to [s'], in at most [n] steps. *)
Definition solo (t n : nat) (s s' : Pool) : Prop :=
  ∃ ls, exec s ls s' ∧ (length ls ≤ n)%nat ∧ ∀ t', t' ≠ t → pcs s' t' = pcs s t'.
Lemma solo_refl t s : solo t 0 s s.
Proof. exists []. split; [constructor|]. by split. Qed.
Lemma solo_step t n s pc l p s' :
  tstep t (page s) (pcs s t) (l, pc) p → solo t n (mkPool p (<[t := pc]> (pcs s))) s' → solo t (S n) s s'.
Proof.
  intros Ht (ls & He & Hn & Ho). exists (l :: ls). split_and!.
  - eapply exec_cons; [by constructor|done].
  - simpl. lia.
  - intros t' Hne. rewrite Ho by done. simpl. by rewrite fn_lookup_insert_ne.
Qed.
Lemma solo_mono t n m s s' : solo t n s s' → (n ≤ m)%nat → solo t m s s'.
Proof. intros (ls & He & Hn & Ho) ?. exists ls. split; [done|]. split; [lia|done]. Qed.
Lemma solo_trans t n m s s1 s2 : solo t n s s1 → solo t m s1 s2 → solo t (n + m) s s2.
Proof.
  intros (l1 & H1 & N1 & O1) (l2 & H2 & N2 & O2). exists (l1 ++ l2). split_and!.
  - by eapply exec_app.
  - rewrite length_app. lia.
  - intros t' Hne. by rewrite O2, O1.
Qed.

(** A holder gives up the lock. *)
Definition frees (t n : nat) (s : Pool) : Prop :=
  ∃ s', solo t n s s' ∧ (pcs s' t = Done ∨ pcs s' t = Read_start).
Lemma frees_step t n s pc l p :
  tstep t (page s) (pcs s t) (l, pc) p → frees t n (mkPool p (<[t := pc]> (pcs s))) → frees t (S n) s.
Proof. intros Ht (s' & Hs & Hp). exists s'. split; [by eapply solo_step|done]. Qed.
Lemma frees_mono t n m s : frees t n s → (n ≤ m)%nat → frees t m s.
Proof. intros (s' & Hs & Hp) ?. exists s'. split; [by eapply solo_mono|done]. Qed.

Lemma storing_frees t s o k e : pcs s t = Storing o k e → frees t 1 s.
Proof.
  intros E. destruct (after_release t o k) as [l pc] eqn:Er.
  eapply frees_step; [rewrite E, <-Er; apply t_release, release_store|].
  eexists. split; [apply solo_refl|]. simpl. rewrite fn_lookup_insert. destruct o, k; injection Er as <- <-; auto.
Qed.
Lemma releasing_frees t s o k : pcs s t = Releasing o k → frees t 2 s.
Proof.
  intros E. eapply frees_step; [rewrite E; apply t_release, release_load|]. eapply storing_frees. simpl. by rewrite fn_lookup_insert.
Qed.
Lemma pinned_frees t s fresh dirtied : pcs s t = Pinned fresh dirtied → frees t 4 s.
Proof.
  intros E. eapply frees_step; [rewrite E; apply t_client, client_dirty|].
  eapply frees_step; [simpl; rewrite fn_lookup_insert; apply t_client, client_unpin; by right|].
  eapply releasing_frees. simpl. by rewrite fn_lookup_insert.
Qed.
Lemma framed_frees t s k read : pcs s t = Pin_framed k read → frees t 5 s.
Proof.
  intros E. destruct (acquired t k (negb read) (frame (page s))) as [l pc] eqn:Ea.
  eapply frees_step; [rewrite E, <-Ea; apply t_pin, (pin_insert _ _ _ _ _ (fresh (slots (page s)))), is_fresh|].
  destruct k; injection Ea as <- <-; [eapply pinned_frees; simpl; by rewrite fn_lookup_insert|..];
    (eapply (frees_mono _ 2); [|lia]); eapply releasing_frees; simpl; by rewrite fn_lookup_insert.
Qed.
Lemma cleared_frees t s k read : pcs s t = Pin_cleared k read → frees t 6 s.
Proof.
  intros E. destruct read; (eapply frees_step; [rewrite E; apply t_pin; constructor|]); eapply framed_frees; simpl; by rewrite fn_lookup_insert.
Qed.
Lemma unqueue_frees t s i : i ∈ slots (page s) → pcs s t = Try_unqueue i → frees t 3 s.
Proof.
  intros Hi E. eapply frees_step; [rewrite E; by apply t_try, try_unqueue|].
  eapply releasing_frees. simpl. by rewrite fn_lookup_insert.
Qed.
Lemma try_release_frees t s i : i ∈ slots (page s) → pcs s t = Try_release i → frees t 4 s.
Proof.
  intros Hi E. eapply frees_step; [rewrite E; apply t_try, try_release|].
  eapply (unqueue_frees _ _ i); simpl; [done|by rewrite fn_lookup_insert].
Qed.
Lemma clean_frees t s i : i ∈ slots (page s) → pcs s t = Try_clean i → frees t 5 s.
Proof.
  intros Hi E. eapply frees_step; [rewrite E; apply t_try, try_clean|].
  eapply (try_release_frees _ _ i); simpl; [done|by rewrite fn_lookup_insert].
Qed.
Lemma write_frees t s i : i ∈ slots (page s) → pcs s t = Try_write i → frees t 6 s.
Proof.
  intros Hi E. eapply frees_step; [rewrite E; apply t_try, try_write|].
  eapply (clean_frees _ _ i); simpl; [done|by rewrite fn_lookup_insert].
Qed.
Lemma flush_frees t s i : i ∈ slots (page s) → pcs s t = Try_flush i → frees t 7 s.
Proof.
  intros Hi E. destruct (isDirty (stateAndVersion (page s))) eqn:Ed.
  - eapply frees_step; [rewrite E; by apply t_try, try_dirty|].
    eapply (write_frees _ _ i); simpl; [done|by rewrite fn_lookup_insert].
  - eapply frees_step; [rewrite E; by apply t_try, try_not_dirty|]. eapply (frees_mono _ 4); [|lia].
    eapply (try_release_frees _ _ i); simpl; [done|by rewrite fn_lookup_insert].
Qed.
Lemma try_locked_frees t s i : pcs s t = Try_locked i → frees t 8 s.
Proof.
  intros E. destruct (decide (i ∈ slots (page s))) as [Hi|Hi]; [destruct inMemoryMode eqn:Em|].
  - eapply frees_step; [rewrite E; by apply t_try, try_in_memory|]. eapply (frees_mono _ 2); [|lia].
    eapply releasing_frees; simpl; by rewrite fn_lookup_insert.
  - eapply frees_step; [rewrite E; by apply t_try, try_go|].
    eapply (flush_frees _ _ i); simpl; [done|by rewrite fn_lookup_insert].
  - eapply frees_step; [rewrite E; by apply t_try, try_changed|]. eapply (frees_mono _ 2); [|lia].
    eapply releasing_frees; simpl; by rewrite fn_lookup_insert.
Qed.

Lemma holder_frees s st d v a t :
  inv s st d v a → holds (pcs s t) = true → pcs s t ≠ Thrown → frees t 8 s.
Proof.
  intros Hi Hh Hne. pose proof (i_holder _ _ _ _ _ Hi t Hh) as Hok.
  destruct (pcs s t) eqn:E; try done; cbn [holder_ok] in Hok; destruct_and?;
    try solve [eapply frees_mono;
      [first [by eapply storing_frees|by eapply releasing_frees|by eapply pinned_frees|by eapply framed_frees
             |by eapply cleared_frees|by eapply flush_frees|by eapply write_frees|by eapply clean_frees
             |by eapply try_release_frees|by eapply unqueue_frees|by eapply try_locked_frees]|lia]].
  - eapply frees_step; [rewrite E; apply t_pin, pin_reserve|]. eapply frees_step; [simpl; rewrite fn_lookup_insert; apply t_pin, pin_clear|].
    eapply cleared_frees. simpl. by rewrite fn_lookup_insert.
  - eapply (frees_mono _ 7); [|lia]. eapply frees_step; [rewrite E; apply t_pin, pin_clear|].
    eapply cleared_frees. simpl. by rewrite fn_lookup_insert.
  - eapply (frees_mono _ 3); [|lia]. eapply frees_step; [rewrite E; apply t_evict, evict_tryClear|].
    eapply releasing_frees. simpl. by rewrite fn_lookup_insert.
Qed.

(** ** A reader *)

(** Thread [t] alone reads the whole page and returns. *)
Definition reads_page (t : nat) (s : Pool) : Prop :=
  ∃ ls s' log, exec s (ls ++ [ReadAll t log]) s' ∧ Forall (eq Tau) ls ∧
    log.*2 = frame (page s') ∧ ∀ t', t' ≠ t → pcs s' t' = pcs s t'.

Lemma reads_step t s pc p :
  tstep t (page s) (pcs s t) (Tau, pc) p → reads_page t (mkPool p (<[t := pc]> (pcs s))) → reads_page t s.
Proof.
  intros Ht (ls & s' & log & He & Hl & Hf & Ho). exists (Tau :: ls), s', log. split_and!; [|by constructor|done|].
  - eapply exec_cons; [by constructor|done].
  - intros t' Hne. rewrite Ho by done. simpl. by rewrite fn_lookup_insert_ne.
Qed.

(** Reading what is left of the frame, and the final check. *)
Lemma cells_read t s log rest :
  pcs s t = Read_func (stateAndVersion (page s)) log → frame (page s) = log.*2 ++ rest → reads_page t s.
Proof.
  revert s log. induction rest as [|x rest IH]; intros s log E Hf.
  - rewrite app_nil_r in Hf. exists [], (mkPool (page s) (<[t := Done]> (pcs s))), log. split_and!; [|done|done|].
    + apply (exec_snoc _ _ _ _ [] s); [constructor|]. constructor. rewrite E. by apply t_read, read_valid.
    + intros t' Hne. simpl. by rewrite fn_lookup_insert_ne.
  - eapply reads_step; [rewrite E; apply t_read, (read_cell _ _ _ _ (length log) x)|].
    + rewrite Hf, lookup_app_r by (rewrite length_fmap; lia). by rewrite length_fmap, Nat.sub_diag.
    + apply (IH _ (log ++ [(length log, x)])); simpl; [by rewrite fn_lookup_insert|].
      rewrite fmap_app, <-(assoc_L (++)). done.
Qed.

Lemma unlocked_read t s d v :
  page_word (stateAndVersion (page s)) UNLOCKED d v → pcs s t = Read_start → reads_page t s.
Proof.
  intros Hw E. eapply reads_step; [rewrite E; apply t_read, read_load|].
  eapply reads_step; [simpl; rewrite fn_lookup_insert; apply t_read, read_unlocked; by apply (getState_of _ _ _ _ Hw)|].
  apply (cells_read t _ [] (frame (page s))); [simpl; by rewrite fn_lookup_insert|done].
Qed.

Lemma tryLock_same w s d v : page_word w s d v → ∃ w', tryLock w w = (true, w') ∧ page_word w' LOCKED d v.
Proof.
  intros Hw. unfold tryLock, compare_exchange. rewrite Z.eqb_refl. eexists. split; [done|].
  eapply updateSame_page; [done|unfold LOCKED; lia].
Qed.

Lemma marked_read t s d v :
  page_word (stateAndVersion (page s)) MARKED d v → pcs s t = Read_start → reads_page t s.
Proof.
  intros Hw E. eapply reads_step; [rewrite E; apply t_read, read_load|].
  eapply reads_step; [simpl; rewrite fn_lookup_insert; apply t_read, read_marked; by apply (getState_of _ _ _ _ Hw)|].
  eapply (unlocked_read t _ d v); simpl; [|by rewrite fn_lookup_insert].
  unfold tryClearMark, compare_exchange. rewrite Z.eqb_refl.
  eapply updateSame_page; [done|unfold UNLOCKED; lia].
Qed.

(** Program counter of [t], which has just been set. *)
Ltac now_at := simpl; rewrite fn_lookup_insert.

Lemma evicted_read t s d v :
  page_word (stateAndVersion (page s)) EVICTED d v → v + 1 < 2 ^ 55 → pcs s t = Read_start → reads_page t s.
Proof.
  intros Hw Hv E. pose proof (getState_of _ _ _ _ Hw) as Hg.
  destruct (tryLock_same _ _ _ _ Hw) as (w' & Hl & Hw'). apply clearDirty_page in Hw'.
  eapply reads_step; [rewrite E; apply t_read, read_load|].
  eapply reads_step; [now_at; by apply t_read, read_evicted|].
  eapply reads_step; [now_at; apply t_pin, pin_load|].
  eapply reads_step; [now_at; by apply t_pin, pin_evicted|].
  eapply reads_step; [now_at; apply t_pin, pin_reserve|].
  eapply reads_step; [now_at; apply t_pin, pin_clear|].
  eapply reads_step; [now_at; apply t_pin, pin_read|].
  eapply reads_step; [now_at; apply t_pin, (pin_insert _ _ _ Reader true (fresh (slots (page s)))), is_fresh|].
  eapply reads_step; [now_at; apply t_release, release_load|].
  eapply reads_step; [now_at; apply t_release, (release_store _ _ Unlock Reader)|].
  eapply (unlocked_read t _ false (v + 1)); [|by now_at]. exact (released_word Unlock _ _ _ _ Hw' Hv).
Qed.

Lemma free_page_read t s st d v a :
  inv s st d v a → v + 1 < 2 ^ 55 → st ≠ LOCKED → pcs s t = Read_start → reads_page t s.
Proof.
  intros Hi Hv Hst E. pose proof (i_word _ _ _ _ _ Hi) as Hw.
  pose proof Hw as (_ & Hs & _). unfold LOCKED in Hst.
  assert (st = UNLOCKED ∨ st = MARKED ∨ st = EVICTED) as [-> |[-> | ->]] by (unfold UNLOCKED, MARKED, EVICTED; lia);
    [by eapply unlocked_read|by eapply marked_read|by eapply evicted_read].
Qed.

Lemma never_thrown c garbage ls s t : exec (initial c garbage) ls s → pcs s t ≠ Thrown.
Proof.
  intros He. revert t. induction He as [|ls s l s' He IH Hs]; [done|]. destruct Hs as [t s l pc p Ht]. intros t'. simpl.
  destruct (decide (t' = t)) as [->|]; [rewrite fn_lookup_insert|by rewrite fn_lookup_insert_ne].
  inv_tstep Ht; subst; try done;
    match goal with
    | H : acquired _ ?k _ _ = _ |- _ => by destruct k; injection H as <- <-
    | H : after_release _ ?o ?k = _ |- _ => by destruct o, k; injection H as <- <-
    end.
Qed.
End Progress.

(** C8: Whatever the interleaving of pins, unpins, optimistic reads and evictions, with
    failing reads and writes, clients see a page with a lock: a pin returns only when no
    other client has the page, what it writes stays until the next write although the
    frame is evicted and reloaded, and an optimistic read that returns has read all its
    cells at one moment when no client had the page.  No two threads hold the lock, and
    [EvictionQueue::clear] is never called on an empty slot.  The version has 55 bits,
    which bounds the number of steps. *)
Theorem page_linearizable inMemoryMode faults c garbage ls s :
  exec inMemoryMode faults false (initial c garbage) ls s → Z.of_nat (length ls) < 2 ^ 55 →
  (∃ a, spec_exec (mkSpec c None) ls a ∧ (∀ t, owner a = Some t ↔ owns (pcs s t) = true)) ∧
  (∀ t t', holds (pcs s t) = true → holds (pcs s t') = true → t = t') ∧
  (∀ t, pcs s t ≠ Unreachable).
Proof.
  intros He Hn. destruct (exec_simulated _ _ _ _ _ _ He Hn) as (st & d & v & a & Hi & _ & Ha).
  split; [exists a; split; [done|apply (i_owner _ _ _ _ _ Hi)]|]. split; [apply (i_unique _ _ _ _ _ Hi)|].
  intros t E. pose proof (i_holder _ _ _ _ _ Hi t) as Ho. rewrite E in Ho. by destruct Ho.
Qed.

(** C16: From every reachable state without a pending exception, a thread about to read a page
    optimistically can finish: at most the thread that holds the lock has to take up to
    eight steps first, then the reader alone reads the whole page and returns. *)
Theorem optimistic_read_completes inMemoryMode c garbage ls s t :
  exec inMemoryMode false false (initial c garbage) ls s → Z.of_nat (length ls) + 16 < 2 ^ 55 →
  pcs s t = Read_start →
  ∃ ls1 ls2 s1 s' log,
    exec inMemoryMode false false s ls1 s1 ∧ (length ls1 ≤ 8)%nat ∧
    (∀ t', holds (pcs s t') = false → pcs s1 t' = pcs s t') ∧
    exec inMemoryMode false false s1 (ls2 ++ [ReadAll t log]) s' ∧ log.*2 = frame (page s') ∧
    (∀ t', t' ≠ t → pcs s' t' = pcs s1 t').
Proof.
  intros He Hn Et. destruct (exec_simulated _ _ _ _ _ _ He ltac:(lia)) as (st & d & v & a & Hi & Hv & _).
  destruct (decide (st = LOCKED)) as [->|Hst].
  - assert (∃ t', holds (pcs s t') = true) as [t' Ht'] by by apply (i_locked _ _ _ _ _ Hi).
    destruct (holder_frees inMemoryMode _ _ _ _ _ _ Hi Ht' (never_thrown _ _ _ _ _ _ He))
      as (s1 & (ls1 & He1 & Hl1 & Ho1) & Hp1).
    assert (exec inMemoryMode false false (initial c garbage) (ls ++ ls1) s1) as He' by by eapply exec_app.
    destruct (exec_simulated _ _ _ _ _ _ He') as (st1 & d1 & v1 & a1 & Hi1 & Hv1 & _); [rewrite length_app; lia|].
    rewrite length_app in Hv1. assert (t ≠ t') as Hne by (intros ->; by rewrite Et in Ht').
    assert (∀ t0, holds (pcs s1 t0) = false) as Hno.
    { intros t0. destruct (decide (t0 = t')) as [->|Hne0]; [by destruct Hp1 as [-> | ->]|].
      rewrite Ho1 by done. by apply (other_free _ _ _ _ _ _ _ Hi Ht'). }
    destruct (free_page_read inMemoryMode t s1 st1 d1 v1 a1 Hi1) as (ls2 & s' & log & He2 & _ & Hf & Ho2);
      [lia| |by rewrite Ho1|].
    { intros ->. destruct (proj1 (i_locked _ _ _ _ _ Hi1) eq_refl) as [t0 Ht0]. by rewrite Hno in Ht0. }
    exists ls1, ls2, s1, s', log. split_and!; try done.
    intros t0 Ht0. apply Ho1. intros ->. congruence.
  - destruct (free_page_read inMemoryMode t s st d v a Hi) as (ls2 & s' & log & He2 & _ & Hf & Ho2); [lia|done|done|].
    exists [], ls2, s, s', log. split_and!; [constructor|simpl; lia|done..].
Qed.

(** Nobody gets the page, or reads it. *)
Definition unseen (l : Label) : Prop :=
  match l with Acquired _ | AcquiredFresh _ _ | ReadAll _ _ => False | _ => True end.

(** C34: When reading the page from the file, writing it back or releasing its frame throws,
    the page stays locked: no later pin returns and no later optimistic read finishes. *)
Theorem exception_locks_page inMemoryMode c garbage ls s t ls' s' :
  exec inMemoryMode true false (initial c garbage) ls s → pcs s t = Thrown →
  exec inMemoryMode true false s ls' s' → Z.of_nat (length ls) + Z.of_nat (length ls') < 2 ^ 55 →
  pcs s' t = Thrown ∧ getState (stateAndVersion (page s')) = LOCKED ∧ Forall unseen ls'.
Proof.
  intros He Et He'. induction He' as [|ls' s1 l s' He' IH Hs]; intros Hn.
  - destruct (exec_simulated _ _ _ _ _ _ He ltac:(simpl in Hn; lia)) as (st & d & v & a & Hi & _).
    split_and!; [done| |constructor]. rewrite (getState_of _ _ _ _ (i_word _ _ _ _ _ Hi)).
    apply (i_locked _ _ _ _ _ Hi). exists t. by rewrite Et.
  - rewrite length_app in Hn. simpl in Hn. destruct IH as (Et1 & Hst1 & Hun); [lia|].
    assert (exec inMemoryMode true false (initial c garbage) (ls ++ ls') s1) as He1 by by eapply exec_app.
    destruct (exec_simulated _ _ _ _ _ _ He1) as (st & d & v & a & Hi & Hv & _); [rewrite length_app; lia|].
    rewrite length_app in Hv.
    destruct (page_inv_step _ _ _ _ _ _ _ _ _ Hi ltac:(lia) Hs) as (st' & d' & v' & a' & Hi' & _ & Hl).
    assert (pcs s' t = Thrown) as Et'.
    { clear -Et1 Hs. destruct Hs as [t1 s1 l pc p Ht]. simpl. destruct (decide (t1 = t)) as [->|].
      - rewrite Et1 in Ht. inv_tstep Ht.
      - by rewrite fn_lookup_insert_ne. }
    split; [done|]. split.
    { rewrite (getState_of _ _ _ _ (i_word _ _ _ _ _ Hi')). apply (i_locked _ _ _ _ _ Hi'). exists t. by rewrite Et'. }
    apply Forall_app. split; [done|]. constructor; [|done].
    assert (∀ t', owner a' ≠ Some t') as Hno.
    { intros t' Ho. apply (i_owner _ _ _ _ _ Hi') in Ho. pose proof (owns_holds _ Ho) as Hh.
      assert (t' = t) as -> by (apply (i_unique _ _ _ _ _ Hi'); [done|by rewrite Et']). by rewrite Et' in Ho. }
    destruct l as [|t'|t' c'| | |t' log]; try done.
    + destruct Hl as [[? _]|Hl]; [done|]. inversion Hl; subst. by destruct (Hno t').
    + destruct Hl as [[? _]|Hl]; [done|]. inversion Hl; subst. by destruct (Hno t').
    + apply read_returns in Hs. pose proof (i_threads _ _ _ _ _ Hi t') as Hthr. rewrite Hs in Hthr.
      destruct Hthr as (d0 & ve & Hw & _). rewrite (getState_of _ _ _ _ Hw) in Hst1. done.
Qed.

(** * Concrete runs over a page of the buffer pool *)

Section Runs.
Variable inMemoryMode faults updates : bool.

Definition reaches (s : Pool) (P : list Label → Pool → Prop) : Prop :=
  ∃ ls s', exec inMemoryMode faults updates s ls s' ∧ P ls s'.
Lemma page_reaches_now s (P : list Label → Pool → Prop) : P [] s → reaches s P.
Proof. intros Hp. exists [], s. split; [constructor|done]. Qed.
(** Thread [t] takes a step. *)
Lemma page_reaches_step t s (P : list Label → Pool → Prop) l pc p :
  tstep inMemoryMode faults updates t (page s) (pcs s t) (l, pc) p →
  reaches (mkPool p (<[t := pc]> (pcs s))) (λ ls, P (l :: ls)) → reaches s P.
Proof.
  intros Ht (ls & s' & He & Hp). exists (l :: ls), s'. split; [|done].
  apply (exec_app _ _ _ _ [l] (mkPool p (<[t:=pc]> (pcs s)))); [|done].
  apply (exec_snoc _ _ _ _ [] s); [constructor|by constructor].
Qed.
End Runs.

(** The rules that are not determined by the state. *)
Section Choices.
Context {inMemoryMode faults updates : bool} (t : nat) (p : Page).
#[local] Abbreviation tstep := (tstep inMemoryMode faults updates t p).
Lemma pin_and_read : tstep Idle (Tau, Pin_start Client true) p.
Proof. repeat constructor. Qed.
Lemma evict_slot_0 : tstep Idle (Tau, Evict_start 0) p.
Proof. repeat constructor. Qed.
Lemma insert_in_slot_0 k read l pc :
  0%nat ∉ slots p → acquired t k (negb read) (frame p) = (l, pc) →
  tstep (Pin_framed k read) (l, pc) (set_slots ({[0%nat]} ∪ slots p) p).
Proof. intros ? <-. by apply t_pin, pin_insert. Qed.
Lemma release_now o k e l pc :
  after_release t o k = (l, pc) → tstep (Storing o k e) (l, pc) (set_word (released o e) p).
Proof. intros <-. apply t_release. constructor. Qed.
Lemma read_cell_0 e log v :
  frame p !! 0%nat = Some v → tstep (Read_func e log) (Tau, Read_func e (log ++ [(0%nat, v)])) p.
Proof. intros. by apply t_read, read_cell. Qed.
Lemma write_8 fresh :
  (0 < length (frame p))%nat → tstep (Pinned fresh true) (Wrote t 0 8, Pinned fresh true) (set_frame (<[0%nat := 8]> (frame p)) p).
Proof. intros. by apply t_client, client_write. Qed.
Lemma unpin_dirty fresh : tstep (Pinned fresh true) (Tau, Releasing Unlock Client) p.
Proof. apply t_client, client_unpin. by right. Qed.
Lemma update_to_9 : updates = true → tstep Idle (Tau, Update_start [9]) (set_file [9] p).
Proof. intros. by apply t_begin, begin_update. Qed.
End Choices.

(** Steps of thread [t] by the rules [cs]; words and program counters are evaluated. *)
Ltac at_pc := cbn [pcs page initial]; repeat first [rewrite fn_lookup_insert|rewrite fn_lookup_insert_ne by done].
Ltac tidy :=
  unfold set_word, set_frame, set_file, set_slots;
  cbn [page pcs stateAndVersion frame file slots initial length replicate app];
  repeat match goal with
  | |- context [mkPage ?w _ _ _] =>
      lazymatch w with
      | Z0 => fail | Zpos _ => fail | Zneg _ => fail
      | _ => let w' := eval vm_compute in w in change w with w'
      end
  end.
Ltac rule c :=
  first [eapply c|eapply t_begin, c|eapply t_pin, c|eapply t_client, c|eapply t_release, c|eapply t_read, c|eapply t_evict, c
        |eapply t_try, c|eapply t_update, c].
Ltac run t c := eapply (page_reaches_step _ _ _ t); [at_pc; rule c; (vm_compute; reflexivity) || set_solver || done|]; tidy.
Ltac runs t cs := lazymatch cs with (?cs, ?c) => runs t cs; run t c | ?c => run t c end.

Definition visible (ls : list Label) : list Label :=
  List.filter (λ l, match l with Tau => false | _ => true end) ls.

(** A page [[7]]: client 0 pins it, writes 8 and unpins it; thread 1 reads it. *)
Lemma written_then_read :
  reaches false false false (initial [7] [0]) (λ ls s,
    (length ls < 32)%nat ∧ visible ls = [Acquired 0; Wrote 0 0 8; Released 0; ReadAll 1 [(0%nat, 8)]]).
Proof.
  runs 0%nat (@pin_and_read, pin_load, pin_evicted, pin_reserve, pin_clear, pin_read, @insert_in_slot_0,
    client_dirty, @write_8, @unpin_dirty, release_load, @release_now).
  runs 1%nat (begin_read, read_load, read_unlocked, @read_cell_0, read_valid).
  apply page_reaches_now. split; [simpl; lia|done].
Qed.

Lemma page_linearizable_witness :
  ∃ a, spec_exec (mkSpec [7] None) [Acquired 0; Wrote 0 0 8; Released 0; ReadAll 1 [(0%nat, 8)]] a.
Proof.
  destruct written_then_read as (ls & s & He & Hn & Hv).
  destruct (page_linearizable _ _ _ _ _ _ He ltac:(lia)) as [(a & Ha & _) _].
  exists a. rewrite <-Hv. clear -Ha. unfold visible. induction Ha as [|ls a Ha IH|ls a l a' Ha IH Hs]; [constructor| |].
  - rewrite List.filter_app. simpl. by rewrite app_nil_r.
  - rewrite List.filter_app. destruct l; simpl; first [by econstructor|inversion Hs].
Defined.

(** A reader of a page that a client has pinned. *)
Lemma optimistic_read_completes_witness :
  ∃ s, pcs s 0%nat = Pinned false false ∧ pcs s 1%nat = Read_start ∧
    ∃ ls1 ls2 s1 s' log, exec false false false s ls1 s1 ∧ exec false false false s1 (ls2 ++ [ReadAll 1 log]) s'.
Proof.
  assert (reaches false false false (initial [7] [0]) (λ ls s,
    (length ls < 32)%nat ∧ pcs s 0%nat = Pinned false false ∧ pcs s 1%nat = Read_start)) as (ls & s & He & Hn & E0 & E1).
  { runs 0%nat (@pin_and_read, pin_load, pin_evicted, pin_reserve, pin_clear, pin_read, @insert_in_slot_0).
    runs 1%nat begin_read. apply page_reaches_now. split_and!; [simpl; lia|done|done]. }
  exists s. split; [done|]. split; [done|].
  destruct (optimistic_read_completes _ _ _ _ _ _ He ltac:(lia) E1) as (ls1 & ls2 & s1 & s' & log & H1 & _ & _ & H2 & _).
  by exists ls1, ls2, s1, s', log.
Defined.

(** The file cannot be read; a second pin waits for ever. *)
Lemma exception_locks_page_witness :
  ∃ s, pcs s 0%nat = Thrown ∧
    ∀ ls' s', exec false true false s ls' s' → (length ls' < 1000)%nat → Forall unseen ls'.
Proof.
  assert (reaches false true false (initial [7] [0]) (λ ls s, (length ls < 32)%nat ∧ pcs s 0%nat = Thrown))
    as (ls & s & He & Hn & E0).
  { runs 0%nat (@pin_and_read, pin_load, pin_evicted, pin_reserve, pin_clear).
    eapply (page_reaches_step _ _ _ 0%nat); [at_pc; by apply t_pin, (pin_read_fails _ _ _ _ [0])|]. tidy.
    apply page_reaches_now. split; [simpl; lia|done]. }
  exists s. split; [done|]. intros ls' s' He' Hl.
  by destruct (exception_locks_page _ _ _ _ _ _ _ _ He E0 He' ltac:(lia)) as (_ & _ & ?).
Defined.

(** *** The update of a frame by a checkpoint *)
Section Update.
Variable inMemoryMode faults : bool.
#[local] Abbreviation reaches := (reaches inMemoryMode faults true).

Lemma update_unlocks s d v t l :
  page_word (stateAndVersion (page s)) LOCKED d v → v + 1 < 2 ^ 55 → pcs s t = Idle →
  reaches s (λ _ s', frame (page s') = l ∧ page_word (stateAndVersion (page s')) UNLOCKED d (v + 1) ∧
    ∀ u, u ≠ t → pcs s' u = pcs s u).
Proof.
  intros Hw Hv Ht. pose proof (updateSame_page _ _ _ _ LOCKED Hw ltac:(unfold LOCKED; lia)) as Hw'.
  eapply (page_reaches_step _ _ _ t); [rewrite Ht; by apply t_begin, (begin_update _ _ _ l)|].
  eapply (page_reaches_step _ _ _ t); [at_pc; apply t_update, update_load|].
  eapply (page_reaches_step _ _ _ t); [at_pc; apply t_update, update_lock|].
  { cbn. by rewrite (getState_of _ _ _ _ Hw). }
  { unfold tryLock, compare_exchange. cbn. by rewrite Z.eqb_refl. }
  eapply (page_reaches_step _ _ _ t); [at_pc; apply t_update, update_copy|].
  eapply (page_reaches_step _ _ _ t); [at_pc; apply t_release, release_load|].
  eapply (page_reaches_step _ _ _ t); [at_pc; by apply release_now|].
  apply page_reaches_now. cbn. split_and!; [done|eapply (released_word Unlock); [exact Hw'|done]|].
  intros u Hu. by rewrite !fn_lookup_insert_ne by done.
Qed.

Lemma unlocked_pinned s d v t :
  page_word (stateAndVersion (page s)) UNLOCKED d v → pcs s t = Idle →
  reaches s (λ ls s', ls = [Tau; Tau; Acquired t] ∧ pcs s' t = Pinned false false ∧ ∀ u, u ≠ t → pcs s' u = pcs s u).
Proof.
  intros Hw Ht. eapply (page_reaches_step _ _ _ t); [rewrite Ht; apply pin_and_read|].
  eapply (page_reaches_step _ _ _ t); [at_pc; apply t_pin, pin_load|].
  eapply (page_reaches_step _ _ _ t); [at_pc; apply t_pin; refine (pin_cached _ _ _ Client true _ _ _ _)|].
  { left. cbn. by rewrite (getState_of _ _ _ _ Hw). }
  { unfold tryLock, compare_exchange. cbn. by rewrite Z.eqb_refl. }
  apply page_reaches_now. cbn. split_and!; [done|by rewrite fn_lookup_insert|].
  intros u Hu. by rewrite !fn_lookup_insert_ne by done.
Qed.
End Update.

(** While thread 0 loads the page for a read, a checkpoint updates the frame and unlocks the
    page under it; the page is evicted; then thread 0 unlocks it again, and a reader gets the
    zeros of the released frame. *)
Lemma update_then_zeros :
  reaches false false true (initial [7] [0]) (λ ls s, ReadAll 4 [(0%nat, 0)] ∈ ls ∧ file (page s) = [9]).
Proof.
  runs 0%nat (begin_read, read_load, read_evicted, pin_load, pin_evicted, pin_reserve, pin_clear, pin_read, @insert_in_slot_0).
  runs 1%nat (@update_to_9, update_load, update_lock, update_copy, release_load, @release_now).
  runs 2%nat (@evict_slot_0, evict_load, evict_word, evict_mark).
  runs 3%nat (@evict_slot_0, evict_load, evict_word, evict_marked, try_load, try_word, try_lock, try_go,
    try_not_dirty, try_release, try_unqueue, release_load, @release_now).
  runs 0%nat (release_load, @release_now).
  runs 4%nat (begin_read, read_load, read_unlocked, @read_cell_0, read_valid).
  apply page_reaches_now. split; [set_solver|done].
Qed.

(** C17: [updateFrameIfPageIsInFrame] takes the lock of a page that is LOCKED, because the
    exchange it tries does not change such a word: from every state in which the page is
    locked, whoever has it, the update runs through without waiting, replaces the frame and
    leaves the page unlocked, while every other thread is where it was; a further client
    then pins the page at once.  There is a run from a fresh page in which a reader ends up
    with zeros for a page whose file holds 9. *)
Theorem checkpoint_update_breaks_lock inMemoryMode faults :
  (∀ s d v t t' l, page_word (stateAndVersion (page s)) LOCKED d v → v + 1 < 2 ^ 55 →
    pcs s t = Idle → pcs s t' = Idle → t ≠ t' →
    ∃ ls s1 s2, exec inMemoryMode faults true s ls s1 ∧
      frame (page s1) = l ∧ getState (stateAndVersion (page s1)) = UNLOCKED ∧ (∀ u, u ≠ t → pcs s1 u = pcs s u) ∧
      exec inMemoryMode faults true s1 [Tau; Tau; Acquired t'] s2 ∧
      pcs s2 t' = Pinned false false ∧ (∀ u, u ≠ t → u ≠ t' → pcs s2 u = pcs s u)) ∧
  (∃ ls s, exec false false true (initial [7] [0]) ls s ∧ ReadAll 4 [(0%nat, 0)] ∈ ls ∧ file (page s) = [9]).
Proof.
  split; [|exact update_then_zeros].
  intros s d v t t' l Hw Hv Ht Ht' Hne.
  destruct (update_unlocks inMemoryMode faults s d v t l Hw Hv Ht) as (ls & s1 & He & Hf & Hw1 & Hu).
  destruct (unlocked_pinned inMemoryMode faults s1 d (v + 1) t' Hw1) as (ls' & s2 & He' & -> & Hp & Hu'); [by rewrite Hu|].
  exists ls, s1, s2. split_and!; try done; [by apply (getState_of _ _ _ _ Hw1)|].
  intros u H1 H2. by rewrite Hu', Hu.
Qed.

(** A client has pinned the page; after an update another one has it, too. *)
Lemma checkpoint_update_breaks_lock_witness :
  ∃ ls s, exec false false true (initial [7] [0]) ls s ∧ pcs s 0%nat = Pinned false false ∧ pcs s 2%nat = Pinned false false.
Proof.
  assert (reaches false false true (initial [7] [0]) (λ ls s, pcs s 0%nat = Pinned false false ∧ pcs s 1%nat = Idle ∧
    pcs s 2%nat = Idle ∧ page_word (stateAndVersion (page s)) LOCKED false 0)) as (ls & s & He & E0 & E1 & E2 & Hw).
  { runs 0%nat (@pin_and_read, pin_load, pin_evicted, pin_reserve, pin_clear, pin_read, @insert_in_slot_0).
    apply page_reaches_now. split_and!; try done. }
  destruct (proj1 (checkpoint_update_breaks_lock false false) s false 0 1%nat 2%nat [9] Hw ltac:(lia) E1 E2 ltac:(lia))
    as (ls1 & s1 & s2 & H1 & _ & _ & _ & H2 & Hp & Hu).
  exists (ls ++ (ls1 ++ [Tau; Tau; Acquired 2])), s2. split; [|split; [rewrite Hu by lia; exact E0|exact Hp]].
  eapply exec_app; [exact He|]. eapply exec_app; [exact H1|exact H2].
Defined.
