(* ===== verification/BufferMemory.v ===== *)
(** * The memory of the buffer pool (storage/buffer_manager/buffer_manager.cpp, memory_manager.cpp)

    [reserve], the frees, and the two counters they share, as an interleaving of threads.
    A step is one access to a counter, or the release of memory.  The evictions and the
    spilling that [reserve] calls appear as the bytes they release; like the read of a
    page for which memory has been reserved, they may throw. *)

From S2P Require Import Prelude.

(** The local variables of a thread in [reserve]: the size to reserve, what has been
    claimed, how much of it was not evictable, and the failed rounds. *)
Record Locals : Type := mkLocals {
  sizeToReserve : Z;
  totalClaimedMemory : Z;
  nonEvictableClaimedMemory : Z;
  failedCount : Z;
}.

Inductive PC : Type :=
| Idle
| Check (l : Locals)                    (** the condition of the loop *)
| Claim (l : Locals)                    (** the body: about to load [usedMemory] *)
| Choose (l : Locals) (used : Z)        (** about to load [nonEvictableMemory] *)
| Spilling (l : Locals)
| Spilled (l : Locals) (memoryClaimed nowEvictableMemory : Z)
| Evicting (l : Locals) (memoryClaimed : Z)
| Claimed (l : Locals) (memoryClaimed : Z)
| NoneLeft (l : Locals)                 (** nothing was claimed, and more is needed *)
| Refusing (l : Locals)                 (** [usedMemory] has been reduced *)
| Finish (l : Locals)                   (** the loop has ended *)
| Finishing (l : Locals)
| Granted (size : Z)                    (** [reserve] has returned true *)
| Refused                               (** false *)
| Thrown                                (** an exception leaves [reserve] or its caller *)
| Freeing (size : Z)                    (** the memory is released, the counter not yet reduced *)
| Freeing_buffer (size : Z).

(** The counters; the bytes that are really in use; the bytes released, and the bytes
    reserved but not in use, that no thread will subtract from [usedMemory] any more. *)
Record Counters : Type := mkCounters {
  usedMemory : Z;
  nonEvictableMemory : Z;
  resident : Z;
  lost : Z;
  leaked : Z;
}.

Section Reserve.
Variable bufferPoolSize : Z.
Variable spiller : bool.
(** A bound on the sizes that are reserved. *)
Variable maxSize : Z.
(** Whether evictions, spilling and reading may throw. *)
Variable failing : bool.

Definition needMoreMemory (used : Z) (l : Locals) : bool :=
  bool_decide (sizeToReserve l > totalClaimedMemory l) &&
  bool_decide (used > wrap 64 (bufferPoolSize - totalClaimedMemory l)).

Definition add_claimed (m : Z) (l : Locals) : Locals :=
  mkLocals (sizeToReserve l) (totalClaimedMemory l + m) (nonEvictableClaimedMemory l) (failedCount l).
Definition add_spilled (m : Z) (l : Locals) : Locals :=
  mkLocals (sizeToReserve l) (totalClaimedMemory l) (nonEvictableClaimedMemory l + m) (failedCount l).
Definition add_failed (l : Locals) : Locals :=
  mkLocals (sizeToReserve l) (totalClaimedMemory l) (nonEvictableClaimedMemory l) (failedCount l + 1).

Inductive mstep (s : Counters) : PC → PC → Counters → Prop :=
| m_reserve size :
    0 ≤ size ≤ maxSize →
    mstep s Idle (Check (mkLocals size 0 0 0)) (mkCounters (wrap 64 (usedMemory s + size)) (nonEvictableMemory s) (resident s) (lost s) (leaked s))
| m_more l : needMoreMemory (usedMemory s) l = true → mstep s (Check l) (Claim l) s
| m_enough l : needMoreMemory (usedMemory s) l = false → mstep s (Check l) (Finish l) s
| m_load l : mstep s (Claim l) (Choose l (usedMemory s)) s
| m_evict l u :
    spiller = false ∨ wrap 64 (u - nonEvictableMemory s) > bufferPoolSize / 2 → mstep s (Choose l u) (Evicting l 0) s
| m_spill l u :
    spiller = true → wrap 64 (u - nonEvictableMemory s) ≤ bufferPoolSize / 2 → mstep s (Choose l u) (Spilling l) s
| m_claimNextGroup l freed now :
    0 ≤ freed ≤ resident s → 0 ≤ now →
    mstep s (Spilling l) (Spilled (add_spilled freed l) freed now)
      (mkCounters (usedMemory s) (nonEvictableMemory s) (resident s - freed) (lost s) (leaked s))
| m_spilled l freed now :
    freed ≠ 0 → now = 0 →
    mstep s (Spilled l freed now) (Claimed l freed)
      (mkCounters (usedMemory s) (wrap 64 (nonEvictableMemory s - now)) (resident s) (lost s) (leaked s))
| m_spilled_evict l freed now :  (** [memoryClaimed = evictPages()] forgets what was freed *)
    freed = 0 ∨ 0 < now →
    mstep s (Spilled l freed now) (Evicting l 0)
      (mkCounters (usedMemory s) (wrap 64 (nonEvictableMemory s - now)) (resident s) (lost s + freed) (leaked s))
| m_evict_page l m size :
    0 ≤ size ≤ resident s →
    mstep s (Evicting l m) (Evicting l (m + size)) (mkCounters (usedMemory s) (nonEvictableMemory s) (resident s - size) (lost s) (leaked s))
| m_spill_throws l freed :
    failing = true → 0 ≤ freed ≤ resident s →
    mstep s (Spilling l) Thrown (mkCounters (usedMemory s) (nonEvictableMemory s) (resident s - freed)
      (lost s + totalClaimedMemory l + freed) (leaked s + sizeToReserve l))
| m_evict_throws l m :
    failing = true →
    mstep s (Evicting l m) Thrown (mkCounters (usedMemory s) (nonEvictableMemory s) (resident s)
      (lost s + totalClaimedMemory l + m) (leaked s + sizeToReserve l))
| m_evicted l m : mstep s (Evicting l m) (Claimed l m) s
| m_claimed l m :
    m ≠ 0 ∨ needMoreMemory (usedMemory s) l = false → mstep s (Claimed l m) (Check (add_claimed m l)) s
| m_none l : needMoreMemory (usedMemory s) l = true → mstep s (Claimed l 0) (NoneLeft l) s
| m_sleep l : failedCount l < 2 → mstep s (NoneLeft l) (Check (add_failed l)) s
| m_give_up l :
    2 ≤ failedCount l →
    mstep s (NoneLeft l) (Refusing l)
      (mkCounters (wrap 64 (usedMemory s - (sizeToReserve l + totalClaimedMemory l))) (nonEvictableMemory s)
         (resident s) (lost s) (leaked s))
| m_refused l :
    mstep s (Refusing l) Refused
      (mkCounters (usedMemory s) (wrap 64 (nonEvictableMemory s - nonEvictableClaimedMemory l)) (resident s) (lost s) (leaked s))
| m_finish l :
    0 < totalClaimedMemory l →
    mstep s (Finish l) (Finishing l) (mkCounters (wrap 64 (usedMemory s - totalClaimedMemory l)) (nonEvictableMemory s) (resident s) (lost s) (leaked s))
| m_finished l :
    mstep s (Finishing l) (Granted (sizeToReserve l))
      (mkCounters (usedMemory s) (wrap 64 (nonEvictableMemory s - nonEvictableClaimedMemory l)) (resident s + sizeToReserve l) (lost s) (leaked s))
| m_finish_none l :
    totalClaimedMemory l = 0 →
    mstep s (Finish l) (Granted (sizeToReserve l)) (mkCounters (usedMemory s) (nonEvictableMemory s) (resident s + sizeToReserve l) (lost s) (leaked s))
(** The caller keeps the memory as a page, or counts it as a buffer ([mallocBuffer]). *)
| m_page size : mstep s (Granted size) Idle s
| m_buffer size : mstep s (Granted size) Idle (mkCounters (usedMemory s) (wrap 64 (nonEvictableMemory s + size)) (resident s) (lost s) (leaked s))
| m_failed : mstep s Refused Idle s
(** The page cannot be read into its frame; [rest] bytes of the frame are not in use. *)
| m_read_throws size rest :
    failing = true → 0 ≤ rest ≤ size → rest ≤ resident s →
    mstep s (Granted size) Thrown (mkCounters (usedMemory s) (nonEvictableMemory s) (resident s - rest) (lost s) (leaked s + rest))
| m_thrown : mstep s Thrown Idle s
(** [removePageFromFrame], and the destructor of a buffer. *)
| m_free size : 0 ≤ size ≤ resident s → mstep s Idle (Freeing size) (mkCounters (usedMemory s) (nonEvictableMemory s) (resident s - size) (lost s) (leaked s))
| m_freed size : mstep s (Freeing size) Idle (mkCounters (wrap 64 (usedMemory s - size)) (nonEvictableMemory s) (resident s) (lost s) (leaked s))
| m_free_buffer size :
    0 ≤ size ≤ resident s →
    mstep s Idle (Freeing_buffer size) (mkCounters (usedMemory s) (nonEvictableMemory s) (resident s - size) (lost s) (leaked s))
| m_freed_buffer size :
    mstep s (Freeing_buffer size) Idle (mkCounters (wrap 64 (usedMemory s - size)) (wrap 64 (nonEvictableMemory s - size)) (resident s) (lost s) (leaked s)).

Record Memory : Type := mkMemory { counters : Counters; threads : list PC }.

Inductive step : Memory → Memory → Prop :=
| thread_step i m pc pc' s :
    threads m !! i = Some pc → mstep (counters m) pc pc' s → step m (mkMemory s (<[i := pc']> (threads m))).

(** [n] threads, and a pool in which the eviction queue takes [base] bytes. *)
Definition start (base : Z) (n : nat) : Memory := mkMemory (mkCounters base 0 base 0 0) (replicate n Idle).

Inductive reachable (m0 : Memory) : Memory → Prop :=
| reach_start : reachable m0 m0
| reach_step m m' : reachable m0 m → step m m' → reachable m0 m'.
End Reserve.

(** ** The memory of the buffer pool never exceeds its size *)

(** ** What a thread accounts for *)

(** Bytes in [usedMemory] beyond those that are in use: the size being reserved, what has
    been released for it, and what a freeing thread has not subtracted yet. *)
Definition pending (pc : PC) : Z :=
  match pc with
  | Check l | Claim l | Choose l _ | Spilling l | NoneLeft l | Finish l => sizeToReserve l + totalClaimedMemory l
  | Spilled l m _ | Evicting l m | Claimed l m => sizeToReserve l + totalClaimedMemory l + m
  | Finishing l => sizeToReserve l
  | Freeing size | Freeing_buffer size => size
  | _ => 0
  end.

(** Bytes of the pool that are spoken for: released by this thread, or granted to it. *)
Definition claim (pc : PC) : Z :=
  match pc with
  | Check l | Claim l | Choose l _ | Spilling l | NoneLeft l => totalClaimedMemory l
  | Spilled l m _ | Evicting l m | Claimed l m => totalClaimedMemory l + m
  | Finish l => Z.max (sizeToReserve l) (totalClaimedMemory l)
  | Finishing l => sizeToReserve l
  | Freeing size | Freeing_buffer size => size
  | _ => 0
  end.

Definition locals_ok (maxSize : Z) (l : Locals) : Prop :=
  0 ≤ sizeToReserve l ≤ maxSize ∧ 0 ≤ totalClaimedMemory l.
Definition pc_ok (spiller : bool) (maxSize : Z) (pc : PC) : Prop :=
  match pc with
  | Spilling l => spiller = true ∧ locals_ok maxSize l
  | Spilled l m _ => spiller = true ∧ locals_ok maxSize l ∧ 0 ≤ m
  | Check l | Claim l | Choose l _ | NoneLeft l | Finish l | Finishing l | Refusing l => locals_ok maxSize l
  | Evicting l m | Claimed l m => locals_ok maxSize l ∧ 0 ≤ m
  | Granted size => 0 ≤ size
  | Freeing size | Freeing_buffer size => 0 ≤ size
  | _ => True
  end.

Fixpoint total (f : PC → Z) (l : list PC) : Z :=
  match l with [] => 0 | pc :: l => f pc + total f l end.

Lemma total_insert f l i pc pc' : l !! i = Some pc → total f (<[i := pc']> l) = total f l - f pc + f pc'.
Proof.
  revert i. induction l as [|x l IH]; intros [|i] Hi; simpl in *; [done|done|injection Hi as ->; lia|].
  rewrite (IH i Hi). lia.
Qed.
Lemma total_le f g l c : Forall (λ pc, f pc ≤ g pc + c) l → total f l ≤ total g l + Z.of_nat (length l) * c.
Proof. induction 1; simpl; lia. Qed.
Lemma total_nonneg f l : Forall (λ pc, 0 ≤ f pc) l → 0 ≤ total f l.
Proof. induction 1; simpl; lia. Qed.
Lemma total_part f l i pc : Forall (λ pc, 0 ≤ f pc) l → l !! i = Some pc → 0 ≤ f pc ≤ total f l.
Proof.
  intros Hl. revert i. induction Hl as [|x l Hx Hl IH]; intros [|i] Hi; simpl in *; try done.
  - injection Hi as ->. pose proof (total_nonneg f l Hl). lia.
  - specialize (IH i Hi). lia.
Qed.
Lemma total_idle f k : f Idle = 0 → total f (replicate k Idle) = 0.
Proof. intros Hf. induction k as [|k IH]; simpl; [done|]. rewrite Hf. lia. Qed.

Lemma pc_ok_bounds spiller maxSize pc :
  pc_ok spiller maxSize pc → 0 ≤ claim pc ≤ pending pc ∧ pending pc ≤ claim pc + Z.max 0 maxSize.
Proof. destruct pc; simpl; unfold locals_ok; intros; lia. Qed.

(** *** The sizes of a thread, whatever the counters *)
Lemma pcs_step bufferPoolSize spiller maxSize failing s pc pc' s' :
  mstep bufferPoolSize spiller maxSize failing s pc pc' s' → pc_ok spiller maxSize pc →
  pc_ok spiller maxSize pc' ∧ leaked s ≤ leaked s'.
Proof.
  intros Hs Hok. destruct Hs;
    cbn [pc_ok leaked sizeToReserve totalClaimedMemory add_claimed add_spilled add_failed] in *;
    unfold locals_ok in *; cbn [sizeToReserve totalClaimedMemory add_claimed add_spilled add_failed] in *;
    split_and?; try done; try lia; naive_solver.
Qed.

Lemma pcs_reachable bufferPoolSize spiller maxSize failing base n m :
  reachable bufferPoolSize spiller maxSize failing (start base n) m → Forall (pc_ok spiller maxSize) (threads m).
Proof.
  induction 1 as [|m m' _ IH Hst]; [by apply Forall_replicate|]. destruct Hst as [i m pc pc' s Hpc Hs]. cbn [threads].
  apply Forall_insert; [done|]. eapply pcs_step; [done|]. by eapply Forall_lookup_1.
Qed.

Section Bound.
Variable bufferPoolSize maxSize : Z.
Variable spiller failing : bool.
Variable n : nat.
Hypothesis sizes : 0 ≤ maxSize ∧ 0 ≤ bufferPoolSize.

(** The counter does not wrap around: the sizes that are being reserved, and those that
    exceptions have leaked, are small. *)
Definition fits (m : Memory) : Prop :=
  bufferPoolSize + Z.of_nat n * maxSize + maxSize + leaked (counters m) < 2 ^ 64.

Record inv (m : Memory) : Prop := {
  i_len : length (threads m) = n;
  i_pcs : Forall (pc_ok spiller maxSize) (threads m);
  i_res : 0 ≤ resident (counters m);
  i_lost : 0 ≤ lost (counters m) ∧ (spiller = false → failing = false → lost (counters m) = 0);
  i_leaked : 0 ≤ leaked (counters m) ∧ (failing = false → leaked (counters m) = 0);
  i_used : usedMemory (counters m) = resident (counters m) + lost (counters m) + leaked (counters m) + total pending (threads m);
  i_bound : resident (counters m) + lost (counters m) + total claim (threads m) ≤ bufferPoolSize;
}.

Lemma used_bounds m : inv m → 0 ≤ usedMemory (counters m) ≤ bufferPoolSize + Z.of_nat n * maxSize + leaked (counters m).
Proof.
  intros [Hlen Hp Hr [Hl _] [Hk _] Hu Hb]. rewrite Hu.
  assert (0 ≤ total pending (threads m)) by (apply total_nonneg; eapply Forall_impl; [exact Hp|]; intros pc ?%pc_ok_bounds; lia).
  assert (total pending (threads m) ≤ total claim (threads m) + Z.of_nat (length (threads m)) * maxSize).
  { apply total_le. eapply Forall_impl; [exact Hp|]. intros pc ?%pc_ok_bounds. lia. }
  rewrite Hlen in *. lia.
Qed.

Lemma enough u l :
  bufferPoolSize < 2 ^ 64 → 0 ≤ totalClaimedMemory l ≤ bufferPoolSize → needMoreMemory bufferPoolSize u l = false →
  sizeToReserve l ≤ totalClaimedMemory l ∨ u ≤ bufferPoolSize - totalClaimedMemory l.
Proof.
  intros Hs Hc Hn. unfold needMoreMemory in Hn. apply andb_false_iff in Hn as [Hn|Hn]; apply bool_decide_eq_false in Hn; [lia|].
  rewrite wrap_id in Hn by (unfold in_u; lia). lia.
Qed.

(** [P] and [K] are what the other threads have pending and claim. *)
Lemma counters_step s pc pc' s' P K :
  mstep bufferPoolSize spiller maxSize failing s pc pc' s' → pc_ok spiller maxSize pc → 0 ≤ P → 0 ≤ K →
  0 ≤ usedMemory s → usedMemory s + maxSize < 2 ^ 64 → bufferPoolSize < 2 ^ 64 → K ≤ P →
  0 ≤ resident s → 0 ≤ lost s ∧ (spiller = false → failing = false → lost s = 0) →
  0 ≤ leaked s ∧ (failing = false → leaked s = 0) →
  usedMemory s = resident s + lost s + leaked s + (P + pending pc) → resident s + lost s + (K + claim pc) ≤ bufferPoolSize →
  0 ≤ resident s' ∧ (0 ≤ lost s' ∧ (spiller = false → failing = false → lost s' = 0)) ∧
  (0 ≤ leaked s' ∧ (failing = false → leaked s' = 0)) ∧
  usedMemory s' = resident s' + lost s' + leaked s' + (P + pending pc') ∧
  resident s' + lost s' + (K + claim pc') ≤ bufferPoolSize.
Proof.
  intros Hs Hok HP HK Hu0 Hfit Hpool HPK Hr [Hl Hsp] [Hlk Hf] Hu Hb.
  destruct Hs as [| |l Hn| | | | | | | | | | |l m Hn| | | | | | | | | | | | | | | |];
    cbn [pc_ok pending claim usedMemory resident lost leaked sizeToReserve totalClaimedMemory add_claimed add_spilled add_failed] in *;
    unfold locals_ok in *; cbn [sizeToReserve totalClaimedMemory add_claimed add_spilled add_failed] in *;
    try (rewrite !wrap_id by (unfold in_u; lia)); split_and?; try lia; try naive_solver lia.
  destruct (enough (usedMemory s) l); [lia|lia|done|lia|lia].
Qed.

Lemma memory_inv_step m m' : inv m → fits m → step bufferPoolSize spiller maxSize failing m m' → inv m'.
Proof.
  intros Hi Hfit Hs. pose proof (used_bounds m Hi) as Hub. destruct Hi as [Hlen Hp Hr Hl Hlk Hu Hb]. unfold fits in Hfit.
  destruct Hs as [i m pc pc' s Hpc Hs]. pose proof (Forall_lookup_1 _ _ _ _ Hp Hpc) as Hok.
  assert (∀ f : PC → Z, (∀ pc, pc_ok spiller maxSize pc → 0 ≤ f pc) → 0 ≤ f pc ≤ total f (threads m)) as Hpart.
  { intros f Hf. apply (total_part _ _ i); [|done]. by eapply Forall_impl. }
  destruct (Hpart claim) as [_ Hc1]; [intros ? ?%pc_ok_bounds; lia|].
  destruct (Hpart pending) as [_ Hp1]; [intros ? ?%pc_ok_bounds; lia|].
  destruct (Hpart (λ pc, pending pc - claim pc)) as [_ Hd]; [intros ? ?%pc_ok_bounds; lia|].
  assert (total (λ pc, pending pc - claim pc) (threads m) = total pending (threads m) - total claim (threads m)) as Ed.
  { clear. induction (threads m); simpl; lia. }
  destruct (counters_step _ _ _ _ (total pending (threads m) - pending pc) (total claim (threads m) - claim pc) Hs Hok)
    as (H2 & H3 & H4 & H5 & H6); try done; try lia.
  destruct (pcs_step _ _ _ _ _ _ _ _ Hs Hok) as [H1 _].
  constructor; simpl; [by rewrite length_insert|by apply Forall_insert|done|done|done|..]; erewrite total_insert by done; lia.
Qed.

Lemma memory_inv_reachable base m :
  0 ≤ base ≤ bufferPoolSize → reachable bufferPoolSize spiller maxSize failing (start base n) m → fits m → inv m.
Proof.
  intros Hbase Hr. induction Hr as [|m m' Hr IH Hs]; intros Hfit.
  - constructor; simpl; try done.
    + apply length_replicate.
    + by apply Forall_replicate.
    + lia.
    + rewrite total_idle by done. lia.
    + rewrite total_idle by done. lia.
  - assert (fits m) as Hfm.
    { pose proof (pcs_reachable _ _ _ _ _ _ _ Hr) as Hp. destruct Hs as [i m pc pc' s Hpc Hs]. unfold fits in *. cbn [counters] in Hfit.
      destruct (pcs_step _ _ _ _ _ _ _ _ Hs (Forall_lookup_1 _ _ _ _ Hp Hpc)) as [_ ?]. lia. }
    by eapply memory_inv_step; [apply IH|..].
Qed.
End Bound.

(** C13: However many threads reserve and free memory, whatever evictions and spilling
    release and wherever they or the reading of a page throw, the bytes in use never exceed
    the size of the pool: the check of the counter and the bytes a thread has released for
    itself make sure of it without a lock.  When no thread is in between, the counter is
    the bytes in use and those that exceptions and spilling have left in it; without a
    spiller and exceptions it is exact, so what is refused is given back. *)
Theorem pool_memory_bounded bufferPoolSize spiller maxSize failing n base m :
  0 ≤ maxSize → 0 ≤ base ≤ bufferPoolSize →
  reachable bufferPoolSize spiller maxSize failing (start base n) m →
  bufferPoolSize + Z.of_nat n * maxSize + maxSize + leaked (counters m) < 2 ^ 64 →
  0 ≤ resident (counters m) ≤ bufferPoolSize ∧
  0 ≤ usedMemory (counters m) < 2 ^ 64 ∧
  (threads m = replicate n Idle →
    usedMemory (counters m) = resident (counters m) + lost (counters m) + leaked (counters m) ∧
    0 ≤ lost (counters m) ∧ 0 ≤ leaked (counters m) ∧
    (spiller = false → failing = false → usedMemory (counters m) = resident (counters m))).
Proof.
  intros Hm Hbase Hr Hsize. assert (inv bufferPoolSize maxSize spiller failing n m) as Hi.
  { eapply memory_inv_reachable; [lia|exact Hbase|done..]. }
  pose proof (used_bounds bufferPoolSize maxSize spiller failing n ltac:(lia) m Hi).
  destruct Hi as [Hlen Hp Hres [Hl Hsp] [Hlk Hf] Hu Hb].
  assert (0 ≤ total claim (threads m)).
  { apply total_nonneg. eapply Forall_impl; [exact Hp|]. intros ? ?%pc_ok_bounds. lia. }
  split; [lia|]. split; [lia|]. intros Hidle. rewrite Hidle, total_idle in Hu by done. split_and!; [lia..|].
  intros Hs Hf'. rewrite (Hsp Hs Hf'), (Hf Hf') in Hu. lia.
Qed.

(** ** Examples *)

Definition reaches (pool : Z) (spiller : bool) (maxSize : Z) (failing : bool) (m : Memory) (Q : Memory → Prop) : Prop :=
  ∃ m', reachable pool spiller maxSize failing m m' ∧ Q m'.
Lemma memory_reaches_now pool spiller maxSize failing m (Q : Memory → Prop) : Q m → reaches pool spiller maxSize failing m Q.
Proof. intros Hq. exists m. split; [constructor|done]. Qed.
Lemma memory_reaches_step pool spiller maxSize failing i m pc pc' s Q :
  threads m !! i = Some pc → mstep pool spiller maxSize failing (counters m) pc pc' s →
  reaches pool spiller maxSize failing (mkMemory s (<[i := pc']> (threads m))) Q → reaches pool spiller maxSize failing m Q.
Proof.
  intros Hi Hs (m' & Hr & Hq). exists m'. split; [|done]. clear Hq. induction Hr as [|m' m'' Hr IH Hs']; [|by econstructor].
  eapply reach_step; [constructor|by econstructor].
Qed.
(** Steps of thread [i] by the rules [cs]. *)
Ltac run i c :=
  eapply (memory_reaches_step _ _ _ _ i); [reflexivity|eapply c; (vm_compute; reflexivity) || (vm_compute; discriminate) || (simpl; lia) || (right; vm_compute; reflexivity)|];
  cbn [counters threads usedMemory nonEvictableMemory resident lost leaked insert list_insert];
  repeat match goal with |- context [wrap 64 ?x] => let y := eval vm_compute in (wrap 64 x) in change (wrap 64 x) with y end.
Ltac runs i cs := lazymatch cs with (?cs, ?c) => runs i cs; run i c | ?c => run i c end.

Lemma reserve_bytes n pool spiller failing s : 0 ≤ n ≤ 80 → mstep pool spiller 80 failing s Idle (Check (mkLocals n 0 0 0))
  (mkCounters (wrap 64 (usedMemory s + n)) (nonEvictableMemory s) (resident s) (lost s) (leaked s)).
Proof. apply m_reserve. Qed.
Lemma evict_bytes n pool spiller maxSize failing s l : 0 ≤ n ≤ resident s →
  mstep pool spiller maxSize failing s (Evicting l 0) (Evicting l n)
  (mkCounters (usedMemory s) (nonEvictableMemory s) (resident s - n) (lost s) (leaked s)).
Proof. intros. by apply (m_evict_page _ _ _ _ _ l 0 n). Qed.

(** A pool of 100 bytes, of which 10 are the queue's: one thread gets 60; the other has to
    evict 60 before it gets 60 as well.  Or writing back a page throws when it has evicted
    20: these and the 60 it wanted stay in the counter, which is beyond the pool then. *)
Lemma pool_memory_bounded_witness :
  (∃ m, reachable 100 false 80 false (start 10 2) m ∧ threads m = replicate 2 Idle ∧ resident (counters m) = 70 ∧
    usedMemory (counters m) = resident (counters m)) ∧
  (∃ m, reachable 100 false 80 true (start 10 2) m ∧ resident (counters m) = 50 ∧
    usedMemory (counters m) = resident (counters m) + lost (counters m) + leaked (counters m) ∧ leaked (counters m) = 60).
Proof.
  split.
  - assert (reaches 100 false 80 false (start 10 2)
      (λ m, threads m = replicate 2 Idle ∧ resident (counters m) = 70 ∧ leaked (counters m) = 0)) as (m & Hr & Ht & Hm & Hl).
    { runs 0%nat ((reserve_bytes 60), m_enough, m_finish_none, m_page).
      runs 1%nat ((reserve_bytes 60), m_more, m_load, m_evict, (evict_bytes 60), m_evicted, m_claimed, m_enough, m_finish, m_finished, m_page).
      apply memory_reaches_now. split_and!; reflexivity. }
    exists m. split; [exact Hr|]. split; [done|]. split; [done|].
    apply (pool_memory_bounded 100 false 80 false 2 10 m); [lia|lia|exact Hr|rewrite Hl; lia|exact Ht|reflexivity|reflexivity].
  - assert (reaches 100 false 80 true (start 10 2)
      (λ m, threads m = replicate 2 Idle ∧ resident (counters m) = 50 ∧ leaked (counters m) = 60)) as (m & Hr & Ht & Hm & Hl).
    { runs 0%nat ((reserve_bytes 60), m_enough, m_finish_none, m_page).
      runs 1%nat ((reserve_bytes 60), m_more, m_load, m_evict, (evict_bytes 20), m_evict_throws, m_thrown).
      apply memory_reaches_now. split_and!; reflexivity. }
    exists m. split; [exact Hr|]. split; [done|]. split; [|done].
    apply (pool_memory_bounded 100 false 80 true 2 10 m); [lia|lia|exact Hr|rewrite Hl; lia|exact Ht].
Defined.

(** The condition of the loop compares the counter, which still includes what the thread
    has released, with the size of the pool less what it has released: a thread for which
    enough has been released goes on, and is refused when there is nothing left to evict.
    Here 30 bytes are in use, and 60 more would fit. *)
Example refused_with_room :
  reaches 100 false 80 false (start 10 2) (λ m, threads m = [Idle; Refused] ∧ resident (counters m) + 60 ≤ 100).
Proof.
  runs 0%nat ((reserve_bytes 60), m_enough, m_finish_none, m_page).
  runs 1%nat ((reserve_bytes 60), m_more, m_load, m_evict, (evict_bytes 40), m_evicted, m_claimed).
  do 2 runs 1%nat (m_more, m_load, m_evict, m_evicted, m_none, m_sleep).
  runs 1%nat (m_more, m_load, m_evict, m_evicted, m_none, m_give_up, m_refused).
  apply memory_reaches_now. by split.
Qed.

(** A group whose buffers are partly of the size of a page: spilling it releases 40 bytes
    and makes 20 evictable.  Nobody subtracts the 40 bytes from the counter. *)
Lemma spill_40_20 pool spiller maxSize failing s l : 40 ≤ resident s →
  mstep pool spiller maxSize failing s (Spilling l) (Spilled (add_spilled 40 l) 40 20)
    (mkCounters (usedMemory s) (nonEvictableMemory s) (resident s - 40) (lost s) (leaked s)).
Proof. intros. by apply m_claimNextGroup. Qed.
Lemma forget pool spiller maxSize failing s l : mstep pool spiller maxSize failing s (Spilled l 40 20) (Evicting l 0)
  (mkCounters (usedMemory s) (wrap 64 (nonEvictableMemory s - 20)) (resident s) (lost s + 40) (leaked s)).
Proof. apply m_spilled_evict. by right. Qed.

Example spilling_leaks :
  reaches 100 true 80 false (start 10 2)
    (λ m, threads m = [Idle; Idle] ∧ usedMemory (counters m) = resident (counters m) + 40).
Proof.
  runs 0%nat ((reserve_bytes 80), m_enough, m_finish_none, m_buffer).
  runs 1%nat ((reserve_bytes 30), m_more, m_load, m_spill, @spill_40_20, @forget, (evict_bytes 20), m_evicted, m_claimed,
    m_more, m_load, m_evict, (evict_bytes 10), m_evicted, m_claimed, m_enough, m_finish, m_finished, m_page).
  apply memory_reaches_now. by split.
Qed.
