(* ===== verification/FileHandle.v ===== *)
(** * Pages of a file and their frames (storage/file_handle.{h,cpp})

    A [FileHandle] counts the pages of its file and keeps, in vectors that only grow, a
    state word per page and a frame group of the memory region per group of 1024 pages.
    The part of the buffer manager that changes with them (the region's counter of frame
    groups, the memory accounted) is kept beside it in [PageFile].  Pinning the pages of an
    in-memory database is the parameter [pin], and [madvise] the system call that
    returns a frame's memory. *)

From S2P Require Import Prelude.
From S2P Require Import ConcurrentVector.
From S2P Require Import PageState.

Definition PAGE_GROUP_SIZE_LOG2 : Z := 10.
Definition PAGE_GROUP_SIZE : Z := 2 ^ 10.
Definition PAGE_IDX_IN_GROUP_MASK : Z := 2 ^ 10 - 1.
Definition INVALID_PAGE_IDX : Z := UINT32_MAX.

Class PageConfig : Type := {
  LBUG_PAGE_SIZE : Z;      (** a power of two, 4 KB by default *)
  LBUG_PAGE_SIZE_pos : 0 < LBUG_PAGE_SIZE;
  VECTOR_CAPACITY : nat;   (** the default block size of [ConcurrentVector] *)
  VECTOR_CAPACITY_pos : (0 < VECTOR_CAPACITY)%nat;
}.

Definition TEMP_PAGE_SIZE : Z := 2 ^ 18.

(** [ConcurrentVector<PageState, PAGE_GROUP_SIZE, TEMP_PAGE_SIZE / sizeof(void* )>] and
    [ConcurrentVector<page_group_idx_t>]. *)
Definition PAGE_STATES_BLOCK : nat := Z.to_nat PAGE_GROUP_SIZE.
Definition PAGE_STATES_INDEX : nat := Z.to_nat (TEMP_PAGE_SIZE / 8).

Record FileHandle : Type := mkFH {
  isLargePaged : bool;
  isNewTmpFile : bool;
  fhNumPages : Z;
  pageCapacity : Z;
  pageStates : ConcurrentVector (T := Z);
  frameGroupIdxes : ConcurrentVector (T := Z);
}.

Record VMRegion : Type := mkVM { numFrameGroups : Z; maxNumFrameGroups : Z }.

Record PageFile : Type := mkPF {
  fh : FileHandle;
  vm : VMRegion;       (** the region of the file's page size class *)
  usedMemory : Z;
}.

Definition set_fh (f : FileHandle → FileHandle) (pf : PageFile) : PageFile :=
  mkPF (f (fh pf)) (vm pf) (usedMemory pf).
Definition set_numPages (n : Z) (h : FileHandle) : FileHandle :=
  mkFH (isLargePaged h) (isNewTmpFile h) n (pageCapacity h) (pageStates h) (frameGroupIdxes h).
Definition set_pageCapacity (n : Z) (h : FileHandle) : FileHandle :=
  mkFH (isLargePaged h) (isNewTmpFile h) (fhNumPages h) n (pageStates h) (frameGroupIdxes h).
Definition set_pageStates v (h : FileHandle) : FileHandle :=
  mkFH (isLargePaged h) (isNewTmpFile h) (fhNumPages h) (pageCapacity h) v (frameGroupIdxes h).
Definition set_frameGroupIdxes v (h : FileHandle) : FileHandle :=
  mkFH (isLargePaged h) (isNewTmpFile h) (fhNumPages h) (pageCapacity h) (pageStates h) v.

Definition isInMemoryMode (h : FileHandle) : bool := negb (isLargePaged h) && isNewTmpFile h.

Section FileHandle.
Context `{PageConfig}.
Variable pin : Z → stM PageFile ().
Variable madvise : Z → result ().

Definition getPageSize (h : FileHandle) : Z :=
  if isLargePaged h then TEMP_PAGE_SIZE else LBUG_PAGE_SIZE.

(** [ceil(numPages / 1024.0)]: the division is exact in [double]. *)
Definition getNumPageGroups (h : FileHandle) : Z :=
  (fhNumPages h + PAGE_GROUP_SIZE - 1) / PAGE_GROUP_SIZE.

(** The state of page [p] through [operator[]], and a store to it. *)
Definition getPageState (p : Z) : stM PageFile Z :=
  pf ← st_get;
  st_lift (cv_get PAGE_STATES_BLOCK PAGE_STATES_INDEX (pageStates (fh pf)) (Z.to_nat p)).

Definition setPageState (p : Z) (w : Z) : stM PageFile () :=
  pf ← st_get;
  v ← st_lift (cv_set PAGE_STATES_BLOCK PAGE_STATES_INDEX (pageStates (fh pf)) (Z.to_nat p) w);
  st_modify (set_fh (set_pageStates v)).

(** VMRegion::addNewFrameGroup *)
Definition addNewFrameGroup : stM PageFile Z :=
  pf ← st_get;
  if maxNumFrameGroups (vm pf) <=? numFrameGroups (vm pf)
  then st_throw BufferManagerException "No more frame groups can be added to the allocator."
  else
    _ ← st_put (mkPF (fh pf) (mkVM (numFrameGroups (vm pf) + 1) (maxNumFrameGroups (vm pf)))
                  (usedMemory pf));
    mret (wrap 32 (numFrameGroups (vm pf))).

Definition addNewPageGroupWithoutLock : stM PageFile () :=
  pf ← st_get;
  let pageCapacity' := wrap 32 (pageCapacity (fh pf) + PAGE_GROUP_SIZE) in
  _ ← st_modify (set_fh (set_pageCapacity pageCapacity'));
  _ ← st_modify (set_fh (λ h, set_pageStates
        (resize initialPageState PAGE_STATES_BLOCK PAGE_STATES_INDEX (Z.to_nat pageCapacity')
           (pageStates h)) h));
  g ← addNewFrameGroup;
  pf ← st_get;
  v ← st_lift (push_back 0 VECTOR_CAPACITY VECTOR_CAPACITY g (frameGroupIdxes (fh pf)));
  st_modify (set_fh (set_frameGroupIdxes v)).

Definition addNewPageWithoutLock : stM PageFile Z :=
  pf ← st_get;
  _ ← (if fhNumPages (fh pf) =? pageCapacity (fh pf) then addNewPageGroupWithoutLock else mret ());
  w ← getPageState (fhNumPages (fh pf));
  _ ← setPageState (fhNumPages (fh pf)) (resetToEvicted w);
  let pageIdx := fhNumPages (fh pf) in
  _ ← st_modify (set_fh (set_numPages (wrap 32 (pageIdx + 1))));
  _ ← (if isInMemoryMode (fh pf) then pin pageIdx else mret ());
  mret pageIdx.

Fixpoint addPages (numNewPages : nat) : stM PageFile () :=
  match numNewPages with
  | O => mret ()
  | S n => _ ← addNewPageWithoutLock; addPages n
  end.

Definition addNewPages (numNewPages : Z) : stM PageFile Z :=
  pf ← st_get;
  _ ← addPages (Z.to_nat numNewPages);
  mret (fhNumPages (fh pf)).

Definition addNewPage : stM PageFile Z := addNewPages 1.

Definition removePageIdxAndTruncateIfNecessary (pageIdx : Z) : stM PageFile () :=
  pf ← st_get;
  if fhNumPages (fh pf) <=? pageIdx then mret ()
  else
    _ ← st_modify (set_fh (λ h, set_pageStates
          (resize initialPageState PAGE_STATES_BLOCK PAGE_STATES_INDEX (Z.to_nat pageIdx) (pageStates h))
          (set_numPages pageIdx h)));
    pf ← st_get;
    let numPageGroups := getNumPageGroups (fh pf) in
    if numPageGroups =? Z.of_nat (numElements (frameGroupIdxes (fh pf))) then mret ()
    else
      st_modify (set_fh (λ h, set_pageCapacity (wrap 32 (numPageGroups * PAGE_GROUP_SIZE))
        (set_frameGroupIdxes
           (resize 0 VECTOR_CAPACITY VECTOR_CAPACITY (Z.to_nat numPageGroups) (frameGroupIdxes h)) h))).

Definition getFrameIdx (h : FileHandle) (pageIdx : Z) : result Z :=
  g ← cv_get VECTOR_CAPACITY VECTOR_CAPACITY (frameGroupIdxes h)
        (Z.to_nat (Z.shiftr pageIdx PAGE_GROUP_SIZE_LOG2));
  Ok (Z.lor (wrap 32 (Z.shiftl g PAGE_GROUP_SIZE_LOG2)) (Z.land pageIdx PAGE_IDX_IN_GROUP_MASK)).

(** VMRegion::releaseFrame, BufferManager::freeUsedMemory, removePageFromFrame and
    removePageFromFrameIfNecessary, when no other thread touches the page. *)
Definition freeUsedMemory (size : Z) : stM PageFile () :=
  st_modify (λ pf, mkPF (fh pf) (vm pf) (wrap 64 (usedMemory pf - size))).

Definition removePageFromFrame (pageIdx : Z) : stM PageFile () :=
  w ← getPageState pageIdx;
  if getState w =? EVICTED then mret ()
  else
    let '(_, w, _) := spinLock_round w w in
    _ ← setPageState pageIdx w;
    pf ← st_get;
    frame ← st_lift (getFrameIdx (fh pf) pageIdx);
    _ ← st_lift (madvise frame);
    _ ← freeUsedMemory (getPageSize (fh pf));
    w ← getPageState pageIdx;
    setPageState pageIdx (resetToEvicted w).

Definition removePageFromFrameIfNecessary (pageIdx : Z) : stM PageFile () :=
  pf ← st_get;
  if fhNumPages (fh pf) <=? pageIdx then mret () else removePageFromFrame pageIdx.
End FileHandle.
