(* ===== verification/FileHandleFacts.v ===== *)
(** * Facts about file handles

    The invariant that ties the page count, the page states and the frame groups
    together, that every operation keeps it without undefined behaviour, and that
    different pages have different frames. *)

From S2P Require Import Prelude.
From S2P Require Import ConcurrentVector.
From S2P Require Import PageState.
From S2P Require Import FileHandle.

Section Facts.
Context `{PageConfig}.
Variable pin : Z → stM PageFile ().
Variable madvise : Z → result ().
Hypothesis madvise_ok : ∀ frame, madvise frame ≠ UB.

Definition groups (h : FileHandle) : list Z :=
  take (numElements (frameGroupIdxes h)) (cells (frameGroupIdxes h)).

(** The frame groups whose pages 32-bit numbers can count. *)
Definition MAX_GROUPS : Z := 2 ^ 22 - 1.

Record handle_ok (pf : PageFile) : Prop := {
  ho_states : cv_ok PAGE_STATES_BLOCK PAGE_STATES_INDEX (pageStates (fh pf));
  ho_groups : cv_ok VECTOR_CAPACITY VECTOR_CAPACITY (frameGroupIdxes (fh pf));
  ho_room : (numElements (frameGroupIdxes (fh pf)) ≤ length (cells (frameGroupIdxes (fh pf))))%nat;
  ho_capacity : pageCapacity (fh pf) = Z.of_nat (numElements (frameGroupIdxes (fh pf))) * PAGE_GROUP_SIZE;
  ho_pages : 0 ≤ fhNumPages (fh pf) ≤ pageCapacity (fh pf);
  ho_cells : pageCapacity (fh pf) ≤ Z.of_nat (length (cells (pageStates (fh pf))));
  ho_nodup : NoDup (groups (fh pf));
  ho_bound : Forall (λ g, 0 ≤ g < numFrameGroups (vm pf)) (groups (fh pf));
  ho_region : 0 ≤ numFrameGroups (vm pf) ≤ maxNumFrameGroups (vm pf);
  ho_max : maxNumFrameGroups (vm pf) ≤ MAX_GROUPS;
}.

(** Nothing changed but page states and the memory accounted. *)
Definition same_pages (pf pf' : PageFile) : Prop :=
  fhNumPages (fh pf') = fhNumPages (fh pf) ∧ pageCapacity (fh pf') = pageCapacity (fh pf) ∧
  frameGroupIdxes (fh pf') = frameGroupIdxes (fh pf) ∧ vm pf' = vm pf ∧
  isLargePaged (fh pf') = isLargePaged (fh pf) ∧ isNewTmpFile (fh pf') = isNewTmpFile (fh pf) ∧
  length (cells (pageStates (fh pf'))) = length (cells (pageStates (fh pf))) ∧
  (cv_ok PAGE_STATES_BLOCK PAGE_STATES_INDEX (pageStates (fh pf)) →
   cv_ok PAGE_STATES_BLOCK PAGE_STATES_INDEX (pageStates (fh pf'))).

Lemma same_pages_refl pf : same_pages pf pf.
Proof. done. Qed.

Lemma same_pages_trans a b c : same_pages a b → same_pages b c → same_pages a c.
Proof.
  intros (?&?&?&?&?&?&?&?) (?&?&?&?&?&?&?&?). unfold same_pages. split_and!; try congruence. auto.
Qed.

Lemma same_pages_ok pf pf' : same_pages pf pf' → handle_ok pf → handle_ok pf'.
Proof.
  intros (E1&E2&E3&E4&E5&E6&E7&E8) []. constructor; unfold groups in *; rewrite ?E1, ?E2, ?E3, ?E4, ?E7; auto.
Qed.

Lemma block_pos : (0 < PAGE_STATES_BLOCK)%nat ∧ (0 < PAGE_STATES_INDEX)%nat.
Proof. by split; apply (Z2Nat.inj_lt 0). Qed.

Lemma setPageState_ok pf p w :
  cv_ok PAGE_STATES_BLOCK PAGE_STATES_INDEX (pageStates (fh pf)) →
  (Z.to_nat p < length (cells (pageStates (fh pf))))%nat →
  ∃ pf', setPageState p w pf = (pf', Ok ()) ∧ same_pages pf pf' ∧
    cells (pageStates (fh pf')) = <[Z.to_nat p := w]> (cells (pageStates (fh pf))).
Proof.
  intros Hok Hp. destruct block_pos as [HB HI].
  destruct (cv_set_cells _ _ HB HI _ _ w Hok Hp) as (v & E & Hok' & Ec & En).
  exists (set_fh (set_pageStates v) pf). unfold setPageState. st_run. rewrite E. simpl.
  split_and!; [done| |done]. unfold same_pages. simpl. rewrite Ec, length_insert. split_and!; done.
Qed.

Lemma getPageState_ok pf p :
  cv_ok PAGE_STATES_BLOCK PAGE_STATES_INDEX (pageStates (fh pf)) →
  (Z.to_nat p < length (cells (pageStates (fh pf))))%nat →
  ∃ w, getPageState p pf = (pf, Ok w) ∧ cells (pageStates (fh pf)) !! Z.to_nat p = Some w.
Proof.
  intros Hok Hp. destruct block_pos as [HB HI]. destruct (lookup_lt_is_Some_2 _ _ Hp) as [w E].
  exists w. split; [|done]. unfold getPageState. st_run.
  by rewrite (cv_get_cells _ _ HB HI _ _ Hok), E.
Qed.

Lemma page_cell pf p :
  handle_ok pf → 0 ≤ p < pageCapacity (fh pf) → (Z.to_nat p < length (cells (pageStates (fh pf))))%nat.
Proof. intros [] ?. lia. Qed.

(** ** Frames *)

Lemma getFrameIdx_spec h p :
  cv_ok VECTOR_CAPACITY VECTOR_CAPACITY (frameGroupIdxes h) → 0 ≤ p →
  (Z.to_nat (p / PAGE_GROUP_SIZE) < numElements (frameGroupIdxes h) ≤ length (cells (frameGroupIdxes h)))%nat →
  ∃ g, groups h !! Z.to_nat (p / PAGE_GROUP_SIZE) = Some g ∧
    (0 ≤ g < MAX_GROUPS → getFrameIdx h p = Ok (g * PAGE_GROUP_SIZE + p mod PAGE_GROUP_SIZE)).
Proof.
  intros Hok Hp [Hlt Hle]. pose proof VECTOR_CAPACITY_pos as Hv.
  destruct (lookup_lt_is_Some_2 (cells (frameGroupIdxes h)) (Z.to_nat (p / PAGE_GROUP_SIZE)) ltac:(lia))
    as [g Eg].
  exists g. split; [unfold groups; by rewrite lookup_take, decide_True by done|]. intros Hg.
  unfold getFrameIdx, PAGE_GROUP_SIZE_LOG2. rewrite (cv_get_cells _ _ Hv Hv _ _ Hok).
  rewrite Z.shiftr_div_pow2 by lia. change (2 ^ 10) with PAGE_GROUP_SIZE. rewrite Eg. simpl. f_equal.
  change PAGE_IDX_IN_GROUP_MASK with (Z.ones 10). rewrite Z.land_ones by lia.
  unfold MAX_GROUPS, PAGE_GROUP_SIZE in *. rewrite Z.shiftl_mul_pow2 by lia.
  rewrite wrap_id by (unfold in_u; lia).
  pose proof (Z.mod_pos_bound p (2 ^ 10) ltac:(lia)).
  rewrite <-Z.add_nocarry_lor; [done|]. rewrite <-Z.shiftl_mul_pow2 by lia.
  apply Z.bits_inj'. intros i Hi. rewrite Z.land_spec, Z.bits_0.
  destruct (decide (i < 10)); [by rewrite Z.shiftl_spec_low by lia|].
  by rewrite Z.mod_pow2_bits_high, andb_false_r by lia.
Qed.

Lemma handle_group pf p :
  handle_ok pf → 0 ≤ p < pageCapacity (fh pf) →
  ∃ g, groups (fh pf) !! Z.to_nat (p / PAGE_GROUP_SIZE) = Some g ∧
    getFrameIdx (fh pf) p = Ok (g * PAGE_GROUP_SIZE + p mod PAGE_GROUP_SIZE).
Proof.
  intros [] Hp. pose proof (Z.div_pos p PAGE_GROUP_SIZE).
  assert (p / PAGE_GROUP_SIZE < Z.of_nat (numElements (frameGroupIdxes (fh pf)))).
  { apply Z.div_lt_upper_bound; unfold PAGE_GROUP_SIZE in *; lia. }
  destruct (getFrameIdx_spec (fh pf) p) as (g & Eg & E); [done|lia|unfold PAGE_GROUP_SIZE in *; lia|].
  exists g. split; [done|]. apply E. rewrite Forall_lookup in ho_bound0.
  specialize (ho_bound0 _ _ Eg). lia.
Qed.

(** ** Removing a page from its frame *)

(** The only failure is that of the system call. *)
Definition evict_result (r : result ()) : Prop :=
  match r with
  | Ok _ => True
  | Throw e => ∃ frame, madvise frame = Throw e
  | UB => False
  end.

Lemma removePageFromFrameIfNecessary_ok pf p :
  handle_ok pf → 0 ≤ p →
  ∃ pf' r, removePageFromFrameIfNecessary madvise p pf = (pf', r) ∧ evict_result r ∧ same_pages pf pf'.
Proof.
  intros Hok Hp. unfold removePageFromFrameIfNecessary. st_run.
  destruct (Z.leb_spec (fhNumPages (fh pf)) p); [by eexists _, _|].
  pose proof (ho_pages _ Hok). pose proof (page_cell pf p Hok ltac:(lia)) as Hc.
  destruct (getPageState_ok pf p (ho_states _ Hok) Hc) as (w & E & _).
  unfold removePageFromFrame. st_run. rewrite E.
  destruct (getState w =? EVICTED); [by eexists _, _|].
  unfold spinLock_round, compare_exchange. rewrite Z.eqb_refl. st_run.
  destruct (setPageState_ok pf p (updateStateWithSameVersion w LOCKED) (ho_states _ Hok) Hc)
    as (pf1 & E1 & Hs1 & _). rewrite E1. st_run.
  destruct (handle_group pf1 p) as (g & _ & Eg);
    [by eapply same_pages_ok|destruct Hs1 as (_ & -> & _); lia|].
  rewrite Eg. st_run.
  destruct (madvise _) eqn:Em; [|eexists _, _; split_and!; [done|by eexists|done..]|by destruct (madvise_ok _ Em)].
  unfold freeUsedMemory. st_run. set (pf2 := mkPF _ _ _).
  assert (same_pages pf pf2) as Hs2 by (destruct Hs1 as (?&?&?&?&?&?&?&?); done).
  pose proof (same_pages_ok _ _ Hs2 Hok) as Hok2.
  assert (Z.to_nat p < length (cells (pageStates (fh pf2))))%nat as Hc2
    by (destruct Hs2 as (_&_&_&_&_&_&->&_); done).
  destruct (getPageState_ok pf2 p (ho_states _ Hok2) Hc2) as (w2 & E2 & _). st_run. rewrite E2.
  destruct (setPageState_ok pf2 p (resetToEvicted w2) (ho_states _ Hok2) Hc2) as (pf3 & E3 & Hs3 & _).
  rewrite E3. eexists _, _. split_and!; [done..|]. by eapply same_pages_trans.
Qed.

(** ** Growing *)

Lemma nodup_below (l : list Z) n : NoDup l → Forall (λ g, 0 ≤ g < n) l → Z.of_nat (length l) ≤ Z.max 0 n.
Proof.
  intros Hnd Hl. assert (l ⊆+ seqZ 0 n) as Hsub.
  { apply NoDup_submseteq; [done|]. intros x Hx. rewrite Forall_forall in Hl.
    apply elem_of_seqZ. specialize (Hl x Hx). lia. }
  apply submseteq_length in Hsub. rewrite length_seqZ in Hsub. lia.
Qed.

Lemma groups_count pf :
  handle_ok pf → Z.of_nat (numElements (frameGroupIdxes (fh pf))) ≤ numFrameGroups (vm pf).
Proof.
  intros []. pose proof (nodup_below _ _ ho_nodup0 ho_bound0) as Hn.
  unfold groups in Hn. rewrite length_take in Hn. lia.
Qed.

(** The state a page group leaves when the region has no frame group for it: the
    capacity has grown, the groups have not. *)
Lemma addNewPageGroup_spec pf :
  handle_ok pf →
  ∃ pf', (if numFrameGroups (vm pf) <? maxNumFrameGroups (vm pf)
          then addNewPageGroupWithoutLock pf = (pf', Ok ()) ∧ handle_ok pf' ∧
            pageCapacity (fh pf') = pageCapacity (fh pf) + PAGE_GROUP_SIZE
          else addNewPageGroupWithoutLock pf =
            (pf', Throw (Exn BufferManagerException "No more frame groups can be added to the allocator."))) ∧
    fhNumPages (fh pf') = fhNumPages (fh pf) ∧ isInMemoryMode (fh pf') = isInMemoryMode (fh pf) ∧
    maxNumFrameGroups (vm pf') = maxNumFrameGroups (vm pf).
Proof.
  intros Hok. pose proof (groups_count _ Hok) as Hcount. destruct block_pos as [HB HI].
  pose proof VECTOR_CAPACITY_pos as Hv. destruct Hok. unfold addNewPageGroupWithoutLock. st_run.
  unfold addNewFrameGroup. st_run. cbn [vm set_fh].
  destruct (Z.ltb_spec (numFrameGroups (vm pf)) (maxNumFrameGroups (vm pf))) as [Hlt|Hge].
  2:{ rewrite (proj2 (Z.leb_le _ _)) by lia. st_run. eexists. split; [reflexivity|done]. }
  rewrite (proj2 (Z.leb_gt _ _)) by lia. st_run. cbn [fh vm set_fh].
  assert (wrap 32 (pageCapacity (fh pf) + PAGE_GROUP_SIZE) = pageCapacity (fh pf) + PAGE_GROUP_SIZE) as ->.
  { apply wrap_id. unfold in_u, PAGE_GROUP_SIZE, MAX_GROUPS in *. lia. }
  set (n := pageCapacity (fh pf) + PAGE_GROUP_SIZE).
  destruct (resize_ok initialPageState _ _ HB HI (Z.to_nat n) _ ho_states0) as (Hs' & _ & Hlen & _).
  destruct (push_back_ok 0 _ _ Hv Hv (wrap 32 (numFrameGroups (vm pf))) _ ho_groups0 ho_room0)
    as (v & E & Hv' & En & Hroom & Etake).
  cbn [frameGroupIdxes set_pageStates set_pageCapacity]. rewrite E. st_run. eexists.
  split; [split; [reflexivity|split; [|done]]|done].
  rewrite wrap_id in Etake by (unfold in_u, MAX_GROUPS in *; lia).
  assert (groups (set_frameGroupIdxes v (fh pf)) = groups (fh pf) ++ [numFrameGroups (vm pf)]) as Eg by done.
  constructor; cbn [fh vm set_fh pageStates frameGroupIdxes set_frameGroupIdxes pageCapacity fhNumPages
    set_pageStates set_pageCapacity numFrameGroups maxNumFrameGroups]; try done; try lia.
  - unfold n, PAGE_GROUP_SIZE. lia.
  - change (NoDup (groups (set_frameGroupIdxes v (fh pf)))). rewrite Eg. apply NoDup_app. split_and!; [done| |apply NoDup_singleton].
    intros x Hx ->%list_elem_of_singleton. rewrite Forall_forall in ho_bound0. specialize (ho_bound0 _ Hx). lia.
  - change (Forall (λ g, 0 ≤ g < numFrameGroups (vm pf) + 1) (groups (set_frameGroupIdxes v (fh pf)))).
    rewrite Eg. apply Forall_app_2; [|constructor; [lia|constructor]].
    eapply Forall_impl; [done|]. simpl. lia.
Qed.

Definition region_full : exn :=
  Exn BufferManagerException "No more frame groups can be added to the allocator.".

Lemma touchPage_ok pf p :
  handle_ok pf → 0 ≤ p < pageCapacity (fh pf) →
  ∃ w pf', getPageState p pf = (pf, Ok w) ∧ setPageState p (resetToEvicted w) pf = (pf', Ok ()) ∧
    same_pages pf pf'.
Proof.
  intros Hok Hp. pose proof (page_cell pf p Hok Hp) as Hc.
  destruct (getPageState_ok pf p (ho_states _ Hok) Hc) as (w & E & _).
  destruct (setPageState_ok pf p (resetToEvicted w) (ho_states _ Hok) Hc) as (pf' & E' & Hs & _).
  by exists w, pf'.
Qed.

Lemma addNewPageWithoutLock_ok pf :
  handle_ok pf → isInMemoryMode (fh pf) = false →
  ∃ pf', isInMemoryMode (fh pf') = false ∧ maxNumFrameGroups (vm pf') = maxNumFrameGroups (vm pf) ∧
   ((addNewPageWithoutLock pin pf = (pf', Ok (fhNumPages (fh pf))) ∧ handle_ok pf' ∧
     fhNumPages (fh pf') = fhNumPages (fh pf) + 1) ∨
    (addNewPageWithoutLock pin pf = (pf', Throw region_full) ∧ fhNumPages (fh pf') = fhNumPages (fh pf) ∧
     numFrameGroups (vm pf) = maxNumFrameGroups (vm pf))).
Proof.
  intros Hok Hmem. unfold addNewPageWithoutLock. st_run.
  assert (∀ pf1, handle_ok pf1 → fhNumPages (fh pf1) = fhNumPages (fh pf) →
    fhNumPages (fh pf) < pageCapacity (fh pf1) → isInMemoryMode (fh pf1) = false →
    maxNumFrameGroups (vm pf1) = maxNumFrameGroups (vm pf) →
    ∃ pf', isInMemoryMode (fh pf') = false ∧ maxNumFrameGroups (vm pf') = maxNumFrameGroups (vm pf) ∧
      handle_ok pf' ∧ fhNumPages (fh pf') = fhNumPages (fh pf) + 1 ∧
      (w ← getPageState (fhNumPages (fh pf));
       _ ← setPageState (fhNumPages (fh pf)) (resetToEvicted w);
       _ ← st_modify (set_fh (set_numPages (wrap 32 (fhNumPages (fh pf) + 1))));
       _ ← (mret () : stM PageFile ()); (mret (fhNumPages (fh pf)) : stM PageFile Z)) pf1
         = (pf', Ok (fhNumPages (fh pf)))) as Hrest.
  { intros pf1 Hok1 En Hlt Hm1 Hx1.
    destruct (touchPage_ok pf1 (fhNumPages (fh pf)) Hok1) as (w & pf2 & E & E' & Hs).
    { pose proof (ho_pages _ Hok). lia. }
    st_run. rewrite E. st_run. rewrite E'. st_run.
    pose proof (same_pages_ok _ _ Hs Hok1) as Hok2.
    destruct Hs as (S1&S2&S3&S4&S5&S6&S7&S8).
    pose proof (groups_count _ Hok2). pose proof (ho_region _ Hok2). pose proof (ho_max _ Hok2).
    pose proof (ho_capacity _ Hok2). pose proof (ho_pages _ Hok).
    assert (wrap 32 (fhNumPages (fh pf) + 1) = fhNumPages (fh pf) + 1) as Ew.
    { apply wrap_id. unfold in_u, MAX_GROUPS, PAGE_GROUP_SIZE in *. lia. }
    eexists. split_and!; [..|reflexivity]; cbn [fh vm set_fh set_numPages fhNumPages]; rewrite ?Ew; try done.
    - unfold isInMemoryMode in *. cbn [set_numPages isLargePaged isNewTmpFile]. by rewrite S5, S6.
    - by rewrite S4.
    - destruct Hok2. constructor; cbn [fh vm set_fh set_numPages pageStates frameGroupIdxes pageCapacity fhNumPages];
        try done. lia. }
  destruct (Z.eqb_spec (fhNumPages (fh pf)) (pageCapacity (fh pf))) as [Efull|Hne].
  - destruct (addNewPageGroup_spec pf Hok) as (pf1 & Hg & En & Em & Ex).
    destruct (Z.ltb_spec (numFrameGroups (vm pf)) (maxNumFrameGroups (vm pf))) as [Hlt|Hge].
    + destruct Hg as (Eg & Hok1 & Ecap). rewrite Eg. st_run. rewrite Hmem in *.
      destruct (Hrest pf1) as (pf' & ? & ? & ? & ? & E); try done; [unfold PAGE_GROUP_SIZE in *; lia|].
      exists pf'. split_and!; [done..|left]. split_and!; [exact E|done..].
    + rewrite Hg. st_run. exists pf1. rewrite Em. split_and!; [done..|]. right.
      pose proof (ho_region _ Hok). split_and!; [done..|lia].
  - st_run. rewrite Hmem. pose proof (ho_pages _ Hok).
    destruct (Hrest pf) as (pf' & ? & ? & ? & ? & E); try done; [lia|].
    exists pf'. split_and!; [done..|left]. split_and!; [exact E|done..].
Qed.

Lemma addPages_ok n pf :
  handle_ok pf → isInMemoryMode (fh pf) = false →
  ∃ pf', isInMemoryMode (fh pf') = false ∧
   ((addPages pin n pf = (pf', Ok ()) ∧ handle_ok pf' ∧
     fhNumPages (fh pf') = fhNumPages (fh pf) + Z.of_nat n) ∨
    (addPages pin n pf = (pf', Throw region_full) ∧
     fhNumPages (fh pf) ≤ fhNumPages (fh pf') < fhNumPages (fh pf) + Z.of_nat n)).
Proof.
  revert pf. induction n as [|n IH]; intros pf Hok Hm.
  { exists pf. split; [done|]. left. split_and!; [done..|lia]. }
  cbn [addPages]. st_run.
  destruct (addNewPageWithoutLock_ok pf Hok Hm) as (pf1 & Hm1 & _ & [(E & Hok1 & En)|(E & En & _)]).
  - rewrite E. destruct (IH pf1 Hok1 Hm1) as (pf' & Hm' & [(E' & Hok' & En')|(E' & En')]);
      rewrite E'; exists pf'; (split; [done|]); [left|right]; split_and!; try done; lia.
  - rewrite E. exists pf1. split; [done|]. right. split; [done|]. lia.
Qed.

(** [addNewPages] returns the page count from before and adds the pages, or throws when
    the region has no frame group left. *)
Lemma addNewPages_ok n pf :
  handle_ok pf → isInMemoryMode (fh pf) = false → 0 ≤ n →
  ∃ pf', isInMemoryMode (fh pf') = false ∧
   ((addNewPages pin n pf = (pf', Ok (fhNumPages (fh pf))) ∧ handle_ok pf' ∧
     fhNumPages (fh pf') = fhNumPages (fh pf) + n) ∨
    (addNewPages pin n pf = (pf', Throw region_full) ∧
     fhNumPages (fh pf) ≤ fhNumPages (fh pf') < fhNumPages (fh pf) + n)).
Proof.
  intros Hok Hm Hn. unfold addNewPages. st_run.
  destruct (addPages_ok (Z.to_nat n) pf Hok Hm) as (pf' & Hm' & [(E & ? & ?)|(E & ?)]);
    rewrite E; exists pf'; (split; [done|]); [left|right]; split_and!; try done; lia.
Qed.

(** ** Truncating *)

Lemma removePageIdxAndTruncateIfNecessary_ok pf p :
  handle_ok pf → 0 ≤ p →
  ∃ pf', removePageIdxAndTruncateIfNecessary p pf = (pf', Ok ()) ∧ handle_ok pf' ∧
    fhNumPages (fh pf') = Z.min p (fhNumPages (fh pf)) ∧
    isInMemoryMode (fh pf') = isInMemoryMode (fh pf).
Proof.
  intros Hok Hp. destruct block_pos as [HB HI]. pose proof VECTOR_CAPACITY_pos as Hv.
  unfold removePageIdxAndTruncateIfNecessary. st_run.
  destruct (Z.leb_spec (fhNumPages (fh pf)) p) as [Hge|Hlt]; [exists pf; split_and!; try done; lia|].
  pose proof (groups_count _ Hok) as Hcount.
  destruct Hok. st_run. unfold getNumPageGroups.
  cbn [fh vm set_fh set_numPages set_pageStates pageStates frameGroupIdxes pageCapacity fhNumPages].
  destruct (resize_ok initialPageState _ _ HB HI (Z.to_nat p) _ ho_states0) as (Hs' & _ & Hlen & k & Ec).
  set (st := resize initialPageState _ _ _ _) in *.
  assert (length (cells (pageStates (fh pf))) ≤ length (cells st))%nat as Hcells
    by (rewrite Ec, length_app; lia).
  set (ng := (p + PAGE_GROUP_SIZE - 1) / PAGE_GROUP_SIZE).
  assert (p ≤ ng * PAGE_GROUP_SIZE < p + PAGE_GROUP_SIZE) as Hng.
  { unfold ng, PAGE_GROUP_SIZE. pose proof (Z.div_mod (p + 2 ^ 10 - 1) (2 ^ 10)).
    pose proof (Z.mod_pos_bound (p + 2 ^ 10 - 1) (2 ^ 10)). lia. }
  destruct (Z.eqb_spec ng (Z.of_nat (numElements (frameGroupIdxes (fh pf))))) as [Eng|Hne].
  - eexists. split; [done|]. split_and!; [|simpl; lia|done].
    constructor; cbn [fh vm set_fh set_numPages set_pageStates pageStates frameGroupIdxes pageCapacity fhNumPages];
      fold st; try done; lia.
  - eexists. split; [done|]. split_and!; [|simpl; lia|done].
    set (n := numElements _) in *.
    assert (Z.to_nat ng ≤ n)%nat as Hngn by (unfold PAGE_GROUP_SIZE in *; lia).
    assert (ng * PAGE_GROUP_SIZE ≤ pageCapacity (fh pf)) as Hcap
      by (rewrite ho_capacity0; fold n; unfold PAGE_GROUP_SIZE in *; lia).
    destruct (resize_ok 0 _ _ Hv Hv (Z.to_nat ng) _ ho_groups0) as (Hg' & En & Hglen & kg & Ecg).
    cbn [fh vm set_fh set_numPages set_pageStates set_pageCapacity set_frameGroupIdxes pageStates
      frameGroupIdxes pageCapacity fhNumPages].
    assert (wrap 32 (ng * PAGE_GROUP_SIZE) = ng * PAGE_GROUP_SIZE) as Ew.
    { apply wrap_id. unfold in_u, MAX_GROUPS, PAGE_GROUP_SIZE in *. lia. }
    set (gs := resize 0 _ _ _ _) in *.
    assert (groups (set_frameGroupIdxes gs (fh pf)) = take (Z.to_nat ng) (groups (fh pf))) as Eg.
    { unfold groups. cbn [frameGroupIdxes set_frameGroupIdxes].
      rewrite En, Ecg, take_take, take_app_le by (unfold n in *; lia). f_equal. unfold n in *. lia. }
    constructor; cbn [fh vm set_fh set_numPages set_pageStates set_pageCapacity set_frameGroupIdxes pageStates
      frameGroupIdxes pageCapacity fhNumPages]; fold st gs; try done; rewrite ?Ew, ?En;
      try (unfold PAGE_GROUP_SIZE in *; lia).
    + change (NoDup (groups (set_frameGroupIdxes gs (fh pf)))). rewrite Eg.
      eapply sublist_NoDup; [exact ho_nodup0|apply sublist_take].
    + change (Forall (λ g, 0 ≤ g < numFrameGroups (vm pf)) (groups (set_frameGroupIdxes gs (fh pf)))).
      rewrite Eg. by apply Forall_take.
Qed.

(** ** Pages have frames of their own *)

Lemma getFrameIdx_inj pf p q f :
  handle_ok pf → 0 ≤ p < fhNumPages (fh pf) → 0 ≤ q < fhNumPages (fh pf) →
  getFrameIdx (fh pf) p = Ok f → getFrameIdx (fh pf) q = Ok f → p = q.
Proof.
  intros Hok Hp Hq Ep Eq. pose proof (ho_pages _ Hok).
  destruct (handle_group pf p Hok ltac:(lia)) as (g & Hg & E).
  destruct (handle_group pf q Hok ltac:(lia)) as (g' & Hg' & E').
  rewrite Ep in E. rewrite Eq in E'. injection E as E. injection E' as E'.
  pose proof (Z.mod_pos_bound p PAGE_GROUP_SIZE ltac:(done)).
  pose proof (Z.mod_pos_bound q PAGE_GROUP_SIZE ltac:(done)).
  assert (g = g' ∧ p mod PAGE_GROUP_SIZE = q mod PAGE_GROUP_SIZE) as [<- Em].
  { unfold PAGE_GROUP_SIZE in *. lia. }
  pose proof (NoDup_lookup _ _ _ _ (ho_nodup _ Hok) Hg Hg') as Ed.
  pose proof (Z.div_pos p PAGE_GROUP_SIZE ltac:(lia) ltac:(done)).
  pose proof (Z.div_pos q PAGE_GROUP_SIZE ltac:(lia) ltac:(done)).
  pose proof (Z.div_mod p PAGE_GROUP_SIZE ltac:(done)).
  pose proof (Z.div_mod q PAGE_GROUP_SIZE ltac:(done)).
  assert (p / PAGE_GROUP_SIZE = q / PAGE_GROUP_SIZE) as Eq' by (apply Z2Nat.inj; done).
  congruence.
Qed.
End Facts.
