(* ===== verification/FreeSpace.v ===== *)
(** * The free space manager (storage/free_space_manager.{h,cpp}, storage/page_range.h)

    Free page ranges are kept in one [std::set] per power of two, ordered by length and
    then by start; a set is the list of its elements in order.  Ranges freed since the
    last checkpoint wait in [uncheckpointedFreePageRanges].  Page numbers are 32-bit. *)

From S2P Require Import Prelude.
From S2P Require Import FileHandle.

Record PageRange : Type := mkRange { startPageIdx : Z; numPages : Z }.

#[export] Instance PageRange_eq_dec : EqDecision PageRange.
Proof. solve_decision. Defined.

Definition subrange (r : PageRange) (newStartPage : Z) : PageRange :=
  mkRange (wrap 32 (startPageIdx r + newStartPage)) (wrap 32 (numPages r - newStartPage)).

Record FreeSpaceManager : Type := mkFSM {
  freeLists : list (list PageRange);
  uncheckpointedFreePageRanges : list PageRange;
  numEntries : Z;
  needClearEvictedEntries : bool;
}.

Definition emptyFSM : FreeSpaceManager := mkFSM [] [] 0 false.

Definition entryCmp (a b : PageRange) : bool :=
  if numPages a =? numPages b then startPageIdx a <? startPageIdx b else numPages a <? numPages b.

(** ** [std::set] ordered by [entryCmp] *)

Definition equivalent (a b : PageRange) : bool := negb (entryCmp a b) && negb (entryCmp b a).
Definition set_contains (l : list PageRange) (e : PageRange) : bool := existsb (equivalent e) l.

Fixpoint set_insert (e : PageRange) (l : list PageRange) : list PageRange :=
  match l with
  | [] => [e]
  | x :: l' =>
      if entryCmp x e then x :: set_insert e l'
      else if entryCmp e x then e :: x :: l' else x :: l'
  end.

(** [lower_bound]: the first element not before [e], with the set it is erased from. *)
Fixpoint lower_bound_erase (e : PageRange) (l : list PageRange) : option (PageRange * list PageRange) :=
  match l with
  | [] => None
  | x :: l' =>
      if entryCmp x e then (λ '(y, r), (y, x :: r)) <$> lower_bound_erase e l' else Some (x, l')
  end.

(** ** Levels *)

Definition bit_floor (n : Z) : Z := if n =? 0 then 0 else 2 ^ Z.log2 n.

Fixpoint countr_zero (bits : nat) (n : Z) : nat :=
  match bits with
  | O => O
  | S bits => if Z.odd n then O else S (countr_zero bits (Z.shiftr n 1))
  end.

Definition getLevel (numPages : Z) : nat := countr_zero 32 (bit_floor numPages).

(** [getFreeList]: the vector is resized to reach the level. *)
Definition with_level (level : nat) (fl : list (list PageRange)) : list (list PageRange) :=
  if decide (length fl ≤ level)%nat then fl ++ replicate (level + 1 - length fl) [] else fl.

Definition set_freeLists fl n (m : FreeSpaceManager) : FreeSpaceManager :=
  mkFSM fl (uncheckpointedFreePageRanges m) n (needClearEvictedEntries m).
Definition set_uncheckpointed l (m : FreeSpaceManager) : FreeSpaceManager :=
  mkFSM (freeLists m) l (numEntries m) (needClearEvictedEntries m).
Definition set_needClear b (m : FreeSpaceManager) : FreeSpaceManager :=
  mkFSM (freeLists m) (uncheckpointedFreePageRanges m) (numEntries m) b.

Definition addFreePages (entry : PageRange) (m : FreeSpaceManager) : FreeSpaceManager :=
  let entryLevel := getLevel (numPages entry) in
  let fl := with_level entryLevel (freeLists m) in
  let freeList := default [] (fl !! entryLevel) in
  if set_contains freeList entry then set_freeLists fl (numEntries m) m
  else set_freeLists (<[entryLevel := set_insert entry freeList]> fl) (wrap 64 (numEntries m + 1)) m.

Definition addUncheckpointedFreePages (entry : PageRange) (m : FreeSpaceManager) : FreeSpaceManager :=
  set_uncheckpointed (uncheckpointedFreePageRanges m ++ [entry]) m.

Definition rollbackCheckpoint (m : FreeSpaceManager) : FreeSpaceManager := set_uncheckpointed [] m.

Definition splitPageRange (chunk : PageRange) (numRequiredPages : Z) (m : FreeSpaceManager) :
    PageRange * FreeSpaceManager :=
  let ret := mkRange (startPageIdx chunk) numRequiredPages in
  if numRequiredPages <? numPages chunk then
    (ret, addFreePages (mkRange (wrap 32 (startPageIdx chunk + numRequiredPages))
                          (wrap 32 (numPages chunk - numRequiredPages))) m)
  else (ret, m).

(** The loop of [popFreePages] over the levels from [level] on, [rest] being the lists
    from there: the entry found, and all lists without it. *)
Fixpoint pop_levels (e : PageRange) (rest : list (list PageRange)) :
    option (PageRange * list (list PageRange)) :=
  match rest with
  | [] => None
  | curList :: rest =>
      match lower_bound_erase e curList with
      | Some (entry, curList') => Some (entry, curList' :: rest)
      | None => (λ '(entry, rest'), (entry, curList :: rest')) <$> pop_levels e rest
      end
  end.

Definition popFreePages (n : Z) (m : FreeSpaceManager) : option PageRange * FreeSpaceManager :=
  if 0 <? n then
    let levelToSearch := getLevel n in
    match pop_levels (mkRange 0 n) (drop levelToSearch (freeLists m)) with
    | Some (entry, rest) =>
        let m := set_freeLists (take levelToSearch (freeLists m) ++ rest) (wrap 64 (numEntries m - 1)) m in
        let '(r, m) := splitPageRange entry n m in (Some r, m)
    | None => (None, m)
    end
  else (None, m).

(** ** Merging *)

(** The loop of [mergePageRanges] over the entries sorted by start: the ranges it adds
    and the last one. *)
Definition merge_end (prevEntry entry : PageRange) : PageRange :=
  let prevEnd := wrap 32 (startPageIdx prevEntry + numPages prevEntry) in
  let entryEnd := wrap 32 (startPageIdx entry + numPages entry) in
  mkRange (startPageIdx prevEntry)
    (wrap 32 ((if entryEnd <=? prevEnd then prevEnd else entryEnd) - startPageIdx prevEntry)).

Fixpoint merge_entries (prevEntry : PageRange) (l : list PageRange) (m : FreeSpaceManager) :
    PageRange * FreeSpaceManager :=
  match l with
  | [] => (prevEntry, m)
  | entry :: l =>
      if startPageIdx entry <=? wrap 32 (startPageIdx prevEntry + numPages prevEntry)
      then merge_entries (merge_end prevEntry entry) l m
      else merge_entries entry l (addFreePages prevEntry m)
  end.

(** [std::sort] leaves the order of entries with one start open; the result of the
    merge does not depend on it. *)
Definition startsBefore (a b : PageRange) : Prop := startPageIdx a ≤ startPageIdx b.
#[export] Instance startsBefore_dec a b : Decision (startsBefore a b).
Proof. unfold startsBefore. apply _. Defined.

Definition resetFreeLists (m : FreeSpaceManager) : FreeSpaceManager := set_freeLists [] 0 m.

(** ** Operations on the file *)

Definition FsState : Type := FreeSpaceManager * PageFile.

Definition on_file {A} (f : stM PageFile A) : stM FsState A :=
  λ '(m, pf), let '(pf', r) := f pf in ((m, pf'), r).
Definition on_fsm (f : FreeSpaceManager → FreeSpaceManager) : stM FsState () :=
  λ '(m, pf), ((f m, pf), Ok ()).

Section WithFile.
Context `{PageConfig}.
Variable madvise : Z → result ().

Fixpoint evict_from (page : Z) (n : nat) : stM FsState () :=
  match n with
  | O => mret ()
  | S n =>
      _ ← on_file (removePageFromFrameIfNecessary madvise (wrap 32 page));
      evict_from (page + 1) n
  end.

Definition evictPages (entry : PageRange) : stM FsState () :=
  _ ← on_fsm (set_needClear true);
  evict_from (startPageIdx entry) (Z.to_nat (numPages entry)).

Definition evictAndAddFreePages (entry : PageRange) : stM FsState () :=
  _ ← evictPages entry; on_fsm (addFreePages entry).

Definition handleLastPageRange (pageRange : PageRange) : stM FsState () :=
  s ← st_get;
  if wrap 32 (startPageIdx pageRange + numPages pageRange) =? fhNumPages (fh s.2)
  then on_file (removePageIdxAndTruncateIfNecessary (startPageIdx pageRange))
  else on_fsm (addFreePages pageRange).

Definition mergePageRanges (newInitialEntries : list PageRange) : stM FsState () :=
  s ← st_get;
  match merge_sort startsBefore (newInitialEntries ++ concat (freeLists s.1)) with
  | [] => mret ()
  | first :: rest =>
      let '(prevEntry, m) := merge_entries first rest (resetFreeLists s.1) in
      _ ← on_fsm (λ _, m);
      handleLastPageRange prevEntry
  end.

Fixpoint evict_all (l : list PageRange) : stM FsState () :=
  match l with
  | [] => mret ()
  | entry :: l => _ ← evictPages entry; evict_all l
  end.

Definition finalizeCheckpoint : stM FsState () :=
  s ← st_get;
  _ ← evict_all (uncheckpointedFreePageRanges s.1);
  _ ← on_fsm (set_uncheckpointed []);
  _ ← mergePageRanges (uncheckpointedFreePageRanges s.1);
  on_fsm (set_uncheckpointed []).

(** The body is the same text as [finalizeCheckpoint]. *)
Definition mergeFreePages : stM FsState () :=
  s ← st_get;
  _ ← evict_all (uncheckpointedFreePageRanges s.1);
  _ ← on_fsm (set_uncheckpointed []);
  _ ← mergePageRanges (uncheckpointedFreePageRanges s.1);
  on_fsm (set_uncheckpointed []).
End WithFile.

(** ** Iterating over the entries *)

(** A [FreeEntryIterator]: the list it is in and the position in it. *)
Record FreeEntryIterator : Type := mkIt { freeListIdx : nat; freeListIt : nat }.

Fixpoint first_nonempty (idx : nat) (rest : list (list PageRange)) : nat :=
  match rest with
  | [] => idx
  | [] :: rest => first_nonempty (S idx) rest
  | _ :: _ => idx
  end.

Definition advanceFreeListIdx (fl : list (list PageRange)) (it : FreeEntryIterator) : FreeEntryIterator :=
  mkIt (first_nonempty (freeListIdx it) (drop (freeListIdx it) fl)) 0.

Definition it_begin (fl : list (list PageRange)) : FreeEntryIterator := advanceFreeListIdx fl (mkIt 0 0).

Definition it_done (fl : list (list PageRange)) (it : FreeEntryIterator) : bool :=
  bool_decide (length fl ≤ freeListIdx it)%nat.

Definition it_deref (fl : list (list PageRange)) (it : FreeEntryIterator) : result PageRange :=
  l ← deref (fl !! freeListIdx it); deref (l !! freeListIt it).

Definition it_next (fl : list (list PageRange)) (it : FreeEntryIterator) : result FreeEntryIterator :=
  l ← deref (fl !! freeListIdx it);
  let pos := S (freeListIt it) in
  Ok (if decide (pos = length l) then advanceFreeListIdx fl (mkIt (S (freeListIdx it)) 0)
      else mkIt (freeListIdx it) pos).

Fixpoint it_advance (fl : list (list PageRange)) (n : nat) (it : FreeEntryIterator) :
    result FreeEntryIterator :=
  match n with
  | O => Ok it
  | S n => it ← it_next fl it; it_advance fl n it
  end.

Definition getNumEntries (m : FreeSpaceManager) : Z := numEntries m.

Fixpoint read_entries (fl : list (list PageRange)) (n : nat) (it : FreeEntryIterator) :
    result (list PageRange) :=
  match n with
  | O => Ok []
  | S n => e ← it_deref fl it; it ← it_next fl it; l ← read_entries fl n it; Ok (e :: l)
  end.

Definition getEntries (startOffset endOffset : nat) (m : FreeSpaceManager) : result (list PageRange) :=
  it ← it_advance (freeLists m) startOffset (it_begin (freeLists m));
  read_entries (freeLists m) (endOffset - startOffset) it.
