(* ===== verification/FreeSpaceFacts.v ===== *)
(** * Facts about the free space manager

    How many ranges of a list cover a page ([cover]), the invariant of the free lists
    ([fsm_ok]), and what adding, popping and merging ranges do to the coverage. *)

From stdpp Require Import sorting.
From S2P Require Import Prelude.
From S2P Require Import FileHandle.
From S2P Require Import FreeSpace.

(** ** Coverage *)

Definition range_end (r : PageRange) : Z := startPageIdx r + numPages r.
Definition covers (p : Z) (r : PageRange) : bool := (startPageIdx r <=? p) && (p <? range_end r).
Definition cover (p : Z) (l : list PageRange) : nat :=
  foldr (λ r n, (if covers p r then 1 else 0) + n)%nat 0%nat l.

(** A range of a file of [N] pages, not empty. *)
Definition range_in (N : Z) (r : PageRange) : Prop :=
  0 ≤ startPageIdx r ∧ 0 < numPages r ∧ range_end r ≤ N.

Lemma covers_true p r : covers p r = true ↔ startPageIdx r ≤ p < range_end r.
Proof. unfold covers. rewrite andb_true_iff, Z.leb_le, Z.ltb_lt. done. Qed.

Lemma covers_false p r : covers p r = false ↔ ¬ (startPageIdx r ≤ p < range_end r).
Proof. rewrite <-not_true_iff_false, covers_true. done. Qed.

Lemma cover_cons p r l : cover p (r :: l) = ((if covers p r then 1 else 0) + cover p l)%nat.
Proof. done. Qed.

Lemma cover_app p l1 l2 : cover p (l1 ++ l2) = (cover p l1 + cover p l2)%nat.
Proof. induction l1 as [|r l1 IH]; [done|]. simpl. rewrite IH. lia. Qed.

#[export] Instance cover_perm p : Proper ((≡ₚ) ==> (=)) (cover p).
Proof. induction 1; simpl; lia. Qed.

Lemma cover_zero p l : (∀ r, r ∈ l → ¬ (startPageIdx r ≤ p < range_end r)) → cover p l = 0%nat.
Proof.
  induction l as [|r l IH]; intros Hl; [done|]. rewrite cover_cons, IH.
  - rewrite (proj2 (covers_false p r)); [done|]. apply Hl. left.
  - intros ??. apply Hl. by right.
Qed.

Lemma cover_pos p r l : r ∈ l → startPageIdx r ≤ p < range_end r → (1 ≤ cover p l)%nat.
Proof.
  intros (l1 & l2 & ->)%list_elem_of_split Hp. rewrite cover_app, cover_cons.
  rewrite (proj2 (covers_true p r) Hp). lia.
Qed.

Lemma cover_in N l p : Forall (range_in N) l → (0 < cover p l)%nat → 0 ≤ p < N.
Proof.
  induction 1 as [|r l Hr Hl IH]; [simpl; lia|]. rewrite cover_cons.
  destruct (covers p r) eqn:E; [|intros; apply IH; lia].
  apply covers_true in E. destruct Hr as (? & ? & ?). lia.
Qed.

(** A range that overlaps nothing of a list is not in it. *)
Lemma fresh_not_in N r l :
  range_in N r → (∀ p, (cover p (r :: l) ≤ 1)%nat) → r ∉ l.
Proof.
  intros (? & ? & ?) Hone Hin. specialize (Hone (startPageIdx r)). rewrite cover_cons in Hone.
  rewrite (proj2 (covers_true _ r)) in Hone by (unfold range_end in *; lia).
  pose proof (cover_pos (startPageIdx r) r l Hin). unfold range_end in *. lia.
Qed.

(** ** The order of the sets *)

Definition cmp_lt (a b : PageRange) : Prop := entryCmp a b = true.

Lemma entryCmp_spec a b :
  entryCmp a b = true ↔
  numPages a < numPages b ∨ (numPages a = numPages b ∧ startPageIdx a < startPageIdx b).
Proof. unfold entryCmp. destruct (Z.eqb_spec (numPages a) (numPages b)); lia. Qed.

Lemma entryCmp_total a b : entryCmp a b = false → entryCmp b a = false → a = b.
Proof.
  rewrite <-!not_true_iff_false, !entryCmp_spec. destruct a, b; simpl. intros. f_equal; lia.
Qed.

Lemma entryCmp_irrefl a : entryCmp a a = false.
Proof. rewrite <-not_true_iff_false, entryCmp_spec. lia. Qed.

#[export] Instance cmp_lt_trans : Transitive cmp_lt.
Proof. intros a b c. unfold cmp_lt. rewrite !entryCmp_spec. lia. Qed.

Lemma equivalent_eq a b : equivalent a b = bool_decide (a = b).
Proof.
  unfold equivalent. case_bool_decide as E.
  - subst. by rewrite entryCmp_irrefl.
  - destruct (entryCmp a b) eqn:E1, (entryCmp b a) eqn:E2; try done.
    by destruct E; apply entryCmp_total.
Qed.

Lemma set_contains_spec l e : set_contains l e = bool_decide (e ∈ l).
Proof.
  unfold set_contains. apply Bool.eq_iff_eq_true. rewrite existsb_exists, bool_decide_eq_true.
  setoid_rewrite equivalent_eq. setoid_rewrite bool_decide_eq_true.
  split; [by intros (x & Hx%list_elem_of_In & ->)|].
  intros He. exists e. by rewrite <-list_elem_of_In.
Qed.

Lemma set_insert_perm e l : e ∉ l → set_insert e l ≡ₚ e :: l.
Proof.
  induction l as [|x l IH]; intros He; [done|]. simpl.
  apply not_elem_of_cons in He as [Hx He].
  destruct (entryCmp x e) eqn:E1; [by rewrite (IH He), Permutation_swap|].
  destruct (entryCmp e x) eqn:E2; [done|]. by destruct Hx; apply entryCmp_total.
Qed.

Lemma set_insert_sorted e l : StronglySorted cmp_lt l → StronglySorted cmp_lt (set_insert e l).
Proof.
  induction 1 as [|x l Hl IH Hx]; simpl; [by repeat constructor|].
  destruct (entryCmp x e) eqn:E1.
  - constructor; [done|]. apply Forall_forall. intros y Hy.
    assert (y = e ∨ y ∈ l) as [->|Hin]; [|done|].
    { clear -Hy. induction l as [|z l IHl]; simpl in Hy; [left; by apply list_elem_of_singleton|].
      destruct (entryCmp z e); [apply elem_of_cons in Hy as [->|Hy]; [right; left|]
        |destruct (entryCmp e z); [apply elem_of_cons in Hy as [->|Hy]; [by left|by right]|by right]].
      destruct (IHl Hy); [by left|right; by right]. }
    by rewrite Forall_forall in Hx; apply Hx.
  - destruct (entryCmp e x) eqn:E2; [|by constructor].
    constructor; [by constructor|]. constructor; [done|].
    eapply Forall_impl; [done|]. intros y Hy. by transitivity x.
Qed.

Lemma lower_bound_erase_spec e l :
  StronglySorted cmp_lt l →
  match lower_bound_erase e l with
  | Some (x, l') => l ≡ₚ x :: l' ∧ StronglySorted cmp_lt l' ∧ entryCmp x e = false ∧
      (∀ y, y ∈ l → entryCmp y e = false → y = x ∨ cmp_lt x y)
  | None => ∀ y, y ∈ l → entryCmp y e = true
  end.
Proof.
  induction 1 as [|x l Hl IH Hx]; simpl; [by intros y ?%elem_of_nil|].
  rewrite Forall_forall in Hx.
  destruct (entryCmp x e) eqn:E.
  - destruct (lower_bound_erase e l) as [[y l']|]; simpl.
    + destruct IH as (Hp & Hs & Hy & Hmin). split_and!.
      * by rewrite Hp, Permutation_swap.
      * constructor; [done|]. apply Forall_forall. intros z Hz. apply Hx. rewrite Hp. by right.
      * done.
      * intros z [->|Hz]%elem_of_cons; [congruence|]. by apply Hmin.
    + intros y [->|Hy]%elem_of_cons; [done|]. by apply IH.
  - split_and!; [done..|]. intros y [->|Hy]%elem_of_cons ?; [by left|right; by apply Hx].
Qed.

(** ** Levels *)

Lemma countr_zero_pow k bits : (k < bits)%nat → countr_zero bits (2 ^ Z.of_nat k) = k.
Proof.
  revert k. induction bits as [|bits IH]; intros k Hk; [lia|]. destruct k as [|k]; [done|].
  cbn [countr_zero]. rewrite Nat2Z.inj_succ, Z.pow_succ_r, Z.odd_mul by lia.
  change (Z.odd 2) with false. cbv beta iota. cbn [andb]. f_equal.
  rewrite Z.shiftr_div_pow2, Z.mul_comm, Z.div_mul by lia. apply IH. lia.
Qed.

Lemma getLevel_log2 n : 0 < n < 2 ^ 32 → getLevel n = Z.to_nat (Z.log2 n).
Proof.
  intros Hn. unfold getLevel, bit_floor. rewrite (proj2 (Z.eqb_neq n 0)) by lia.
  pose proof (Z.log2_nonneg n). assert (Z.log2 n < 32) by (apply Z.log2_lt_pow2; lia).
  rewrite <-(Z2Nat.id (Z.log2 n)) at 1 by done. apply countr_zero_pow. lia.
Qed.

Lemma getLevel_mono a b : 0 < a ≤ b → b < 2 ^ 32 → (getLevel a ≤ getLevel b)%nat.
Proof.
  intros. rewrite !getLevel_log2 by lia. apply Z2Nat.inj_le; [apply Z.log2_nonneg..|].
  apply Z.log2_le_mono. lia.
Qed.

(** ** The invariant of the free lists *)

Definition freePages (m : FreeSpaceManager) : list PageRange := concat (freeLists m).

Definition level_ok (level : nat) (l : list PageRange) : Prop :=
  StronglySorted cmp_lt l ∧
  (∀ e, e ∈ l → getLevel (numPages e) = level ∧ 0 < numPages e < 2 ^ 32).

Record fsm_ok (m : FreeSpaceManager) : Prop := {
  fsm_levels level l : freeLists m !! level = Some l → level_ok level l;
  fsm_count : numEntries m = wrap 64 (Z.of_nat (length (freePages m)));
}.

Lemma level_ok_nil level : level_ok level [].
Proof. split; [constructor|]. by intros e ?%elem_of_nil. Qed.

Lemma emptyFSM_ok : fsm_ok emptyFSM.
Proof. by constructor. Qed.

Lemma with_level_lookup level fl k l :
  with_level level fl !! k = Some l → fl !! k = Some l ∨ l = [].
Proof.
  unfold with_level. case_decide; [|by left].
  intros [?|[_ Hr]]%lookup_app_Some; [by left|right]. by apply lookup_replicate in Hr as [-> _].
Qed.

Lemma with_level_concat level fl : concat (with_level level fl) = concat fl.
Proof.
  unfold with_level. case_decide; [|done]. rewrite concat_app.
  assert (∀ n, concat (replicate n []) = @nil PageRange) as -> by (induction n; simpl; auto).
  by rewrite app_nil_r.
Qed.

Lemma with_level_length level fl : (level < length (with_level level fl))%nat.
Proof. unfold with_level. case_decide; [|lia]. rewrite length_app, length_replicate. lia. Qed.

Lemma elem_of_freePages m e :
  e ∈ freePages m ↔ ∃ level l, freeLists m !! level = Some l ∧ e ∈ l.
Proof.
  unfold freePages. rewrite list_elem_of_In, in_concat. setoid_rewrite <-list_elem_of_In.
  split.
  - intros (l & [level ?]%list_elem_of_lookup & ?). eauto.
  - intros (level & l & ?%list_elem_of_lookup_2 & ?). eauto.
Qed.

Lemma fsm_entry m level l e :
  fsm_ok m → freeLists m !! level = Some l → e ∈ l →
  getLevel (numPages e) = level ∧ 0 < numPages e < 2 ^ 32.
Proof. intros Hok E He. by apply (fsm_levels m Hok level l). Qed.

(** Whether an entry is anywhere in the manager is decided in its own level. *)
Lemma freePages_level m e :
  fsm_ok m → e ∈ default [] (with_level (getLevel (numPages e)) (freeLists m) !! getLevel (numPages e)) ↔
  e ∈ freePages m.
Proof.
  intros Hok. rewrite elem_of_freePages. split.
  - destruct (with_level _ _ !! _) as [l|] eqn:E; simpl; [|by intros ?%elem_of_nil].
    intros He. destruct (with_level_lookup _ _ _ _ E) as [E'| ->]; [eauto|by apply elem_of_nil in He].
  - intros (level & l & E & He). destruct (fsm_entry _ _ _ _ Hok E He) as [<- _].
    unfold with_level. pose proof (lookup_lt_Some _ _ _ E).
    rewrite decide_False by lia. by rewrite E.
Qed.

Lemma addFreePages_spec m e :
  fsm_ok m → 0 < numPages e < 2 ^ 32 →
  fsm_ok (addFreePages e m) ∧
  freePages (addFreePages e m) ≡ₚ (if decide (e ∈ freePages m) then freePages m else e :: freePages m) ∧
  uncheckpointedFreePageRanges (addFreePages e m) = uncheckpointedFreePageRanges m ∧
  needClearEvictedEntries (addFreePages e m) = needClearEvictedEntries m.
Proof.
  intros Hok He. unfold addFreePages. set (level := getLevel (numPages e)).
  set (fl := with_level level (freeLists m)).
  assert (∀ k l, fl !! k = Some l → level_ok k l) as Hfl.
  { intros k l E. destruct (with_level_lookup _ _ _ _ E) as [E'| ->]; [|apply level_ok_nil].
    by apply (fsm_levels m Hok). }
  rewrite set_contains_spec. pose proof (freePages_level m e Hok) as Hin.
  fold level fl in Hin. destruct (lookup_lt_is_Some_2 fl level (with_level_length _ _)) as [l El].
  rewrite El in *. simpl in *. case_bool_decide as Hl.
  - rewrite decide_True by tauto. split_and!; [|by unfold freePages; simpl; unfold fl; rewrite with_level_concat|done..].
    constructor; [done|]. unfold freePages. simpl. unfold fl. rewrite with_level_concat. apply Hok.
  - rewrite decide_False by tauto.
    assert (concat (<[level := set_insert e l]> fl) ≡ₚ e :: concat (freeLists m)) as Hp.
    { apply (Permutation_app_inv_l l). rewrite (concat_insert_perm _ _ _ _ El), set_insert_perm by done.
      unfold fl. rewrite with_level_concat. simpl. by rewrite Permutation_middle. }
    split_and!; [|done..]. constructor.
    + intros k l' E. simpl in E. apply list_lookup_insert_Some in E as [(<- & <- & _)|[_ E]]; [|by apply Hfl].
      destruct (Hfl _ _ El) as [Hs Hm]. split; [by apply set_insert_sorted|].
      intros x Hx. rewrite set_insert_perm in Hx by done.
      apply elem_of_cons in Hx as [->|Hx]; [done|by apply Hm].
    + simpl. unfold freePages. simpl. rewrite Hp. rewrite (fsm_count m Hok). unfold wrap, freePages.
      simpl. rewrite Zplus_mod_idemp_l. f_equal. lia.
Qed.

(** ** Allocation *)

Lemma pop_levels_spec e rest k :
  (∀ i l, rest !! i = Some l → level_ok (k + i) l) →
  match pop_levels e rest with
  | Some (x, rest') =>
      concat rest ≡ₚ x :: concat rest' ∧ x ∈ concat rest ∧ entryCmp x e = false ∧
      (∀ i l, rest' !! i = Some l → level_ok (k + i) l) ∧
      (∀ y, y ∈ concat rest → entryCmp y e = false → numPages x ≤ numPages y)
  | None => ∀ y, y ∈ concat rest → entryCmp y e = true
  end.
Proof.
  revert k. induction rest as [|l rest IH]; intros k Hok; simpl; [by intros y ?%elem_of_nil|].
  destruct (Hok 0%nat l eq_refl) as [Hs Hm].
  pose proof (lower_bound_erase_spec e l Hs) as Hl.
  destruct (lower_bound_erase e l) as [[x l']|].
  - destruct Hl as (Hp & Hs' & Hx & Hmin).
    assert (x ∈ l) as Hxl by (rewrite Hp; left). split_and!.
    + by rewrite Hp.
    + apply elem_of_app. by left.
    + done.
    + intros [|i] l0 E; [injection E as <-|by apply (Hok (S i))].
      split; [done|]. intros y Hy. apply Hm. rewrite Hp. by right.
    + intros y [Hy|Hy]%elem_of_app Hye.
      * destruct (Hmin y Hy Hye) as [->|Hlt]; [lia|]. unfold cmp_lt in Hlt. rewrite entryCmp_spec in Hlt. lia.
      * apply list_elem_of_In, in_concat in Hy as (l0 & Hl0 & Hy).
        apply list_elem_of_In, list_elem_of_lookup in Hl0 as [i Hi]. apply list_elem_of_In in Hy.
        destruct (Hok (S i) l0 Hi) as [_ Hm0]. destruct (Hm0 y Hy) as [Ly Ny].
        destruct (Hm x Hxl) as [Lx Nx]. destruct (decide (numPages x ≤ numPages y)); [done|].
        pose proof (getLevel_mono (numPages y) (numPages x) ltac:(lia) ltac:(lia)). lia.
  - specialize (IH (S k)). destruct (pop_levels e rest) as [[x rest']|]; simpl.
    + destruct IH as (Hp & Hin & Hx & Hok' & Hmin).
      { intros i l0 E. replace (S k + i)%nat with (k + S i)%nat by lia. by apply Hok. }
      split_and!.
      * by rewrite Hp, Permutation_middle.
      * apply elem_of_app. by right.
      * done.
      * intros [|i] l0 E; [injection E as <-; by apply (Hok 0%nat)|].
        replace (k + S i)%nat with (S k + i)%nat by lia. by apply Hok'.
      * intros y [Hy|Hy]%elem_of_app Hye; [by rewrite Hl in Hye|by apply Hmin].
    + intros y [Hy|Hy]%elem_of_app; [by apply Hl|]. apply IH; [|done].
      intros i l0 E. replace (S k + i)%nat with (k + S i)%nat by lia. by apply Hok.
Qed.

(** What is left of a chunk after its first [n] pages are taken. *)
Definition remaining (chunk : PageRange) (n : Z) : list PageRange :=
  if n <? numPages chunk then [mkRange (startPageIdx chunk + n) (numPages chunk - n)] else [].

Lemma cover_remaining p chunk n :
  0 < n ≤ numPages chunk →
  cover p (mkRange (startPageIdx chunk) n :: remaining chunk n) = cover p [chunk].
Proof.
  intros Hn. unfold remaining. destruct (Z.ltb_spec n (numPages chunk)); rewrite !cover_cons; simpl;
    unfold covers, range_end; simpl;
    repeat match goal with |- context [?a <=? ?b] => destruct (Z.leb_spec a b)
      | |- context [?a <? ?b] => destruct (Z.ltb_spec a b) end; simpl; lia.
Qed.

Lemma remaining_in N chunk n :
  range_in N chunk → 0 < n ≤ numPages chunk → Forall (range_in N) (remaining chunk n).
Proof.
  intros (? & ? & ?) ?. unfold remaining. destruct (Z.ltb_spec n (numPages chunk)); [|constructor].
  constructor; [|constructor]. unfold range_in, range_end in *. simpl. lia.
Qed.

Lemma splitPageRange_spec N m chunk n rest :
  fsm_ok m → freePages m ≡ₚ rest → N < 2 ^ 32 → range_in N chunk → 0 < n ≤ numPages chunk →
  (∀ p, (cover p (chunk :: rest) ≤ 1)%nat) →
  ∃ m', splitPageRange chunk n m = (mkRange (startPageIdx chunk) n, m') ∧ fsm_ok m' ∧
    freePages m' ≡ₚ remaining chunk n ++ rest ∧
    uncheckpointedFreePageRanges m' = uncheckpointedFreePageRanges m.
Proof.
  intros Hok Hp HN Hc Hn Hone. unfold splitPageRange, remaining.
  pose proof (remaining_in N chunk n Hc Hn) as Hrem. unfold remaining in Hrem.
  destruct Hc as (Hc1 & Hc2 & Hc3). unfold range_end in Hc3.
  destruct (Z.ltb_spec n (numPages chunk)).
  - rewrite !wrap_id by (unfold in_u; lia).
    destruct (addFreePages_spec m (mkRange (startPageIdx chunk + n) (numPages chunk - n)) Hok)
      as (Hok' & Hp' & Hu & _); [simpl; lia|].
    eexists. split; [done|]. split_and!; [done| |done].
    rewrite Hp', decide_False; [by rewrite Hp|]. rewrite Hp.
    eapply (fresh_not_in N); [by apply Forall_cons_1 in Hrem as [? _]|].
    intros p. specialize (Hone p). pose proof (cover_remaining p chunk n Hn) as E.
    unfold remaining in E. rewrite (proj2 (Z.ltb_lt _ _)) in E by done.
    change (chunk :: rest) with ([chunk] ++ rest) in Hone. rewrite cover_app, <-E in Hone.
    rewrite !cover_cons in *. simpl in *. lia.
  - eexists. split; [done|]. by rewrite Hp.
Qed.

Lemma popFreePages_spec N m n :
  fsm_ok m → 0 < n < 2 ^ 32 → N < 2 ^ 32 →
  Forall (range_in N) (freePages m) → (∀ p, (cover p (freePages m) ≤ 1)%nat) →
  (∃ chunk rest m',
     popFreePages n m = (Some (mkRange (startPageIdx chunk) n), m') ∧
     freePages m ≡ₚ chunk :: rest ∧ n ≤ numPages chunk ∧
     (∀ e, e ∈ freePages m → n ≤ numPages e → numPages chunk ≤ numPages e) ∧
     fsm_ok m' ∧ freePages m' ≡ₚ remaining chunk n ++ rest ∧
     uncheckpointedFreePageRanges m' = uncheckpointedFreePageRanges m) ∨
  (popFreePages n m = (None, m) ∧ (∀ e, e ∈ freePages m → numPages e < n)).
Proof.
  intros Hok Hn HN Hin Hone. unfold popFreePages. rewrite (proj2 (Z.ltb_lt 0 n)) by lia.
  set (level := getLevel n). set (low := take level (freeLists m)). set (high := drop level (freeLists m)).
  assert (freeLists m = low ++ high) as Efl by (symmetry; apply take_drop).
  assert (∀ i l, high !! i = Some l → level_ok (level + i) l) as Hhigh.
  { intros i l E. unfold high in E. rewrite lookup_drop in E. by apply (fsm_levels m Hok). }
  assert (∀ y, y ∈ concat low → numPages y < n) as Hlow.
  { intros y Hy. apply list_elem_of_In, in_concat in Hy as (l & Hl & Hy). apply list_elem_of_In in Hl, Hy.
    apply list_elem_of_lookup in Hl as [i Hi].
    assert (i < level)%nat by (apply lookup_lt_Some in Hi; unfold low in Hi; rewrite length_take in Hi; lia).
    unfold low in Hi. rewrite lookup_take in Hi.
    rewrite decide_True in Hi by done. destruct (fsm_entry _ _ _ _ Hok Hi Hy) as [Ly Ny].
    destruct (decide (numPages y < n)); [done|].
    pose proof (getLevel_mono n (numPages y) ltac:(lia) ltac:(lia)). unfold level in *. lia. }
  assert (freePages m = concat low ++ concat high) as Efree
    by (unfold freePages; by rewrite Efl, concat_app).
  assert (∀ y, entryCmp y (mkRange 0 n) = true → startPageIdx y < 0 ∨ numPages y < n) as Hcmp.
  { intros y. rewrite entryCmp_spec. simpl. lia. }
  pose proof (pop_levels_spec (mkRange 0 n) high level Hhigh) as Hpop.
  rewrite Forall_forall in Hin.
  destruct (pop_levels (mkRange 0 n) high) as [[chunk rest]|].
  - left. destruct Hpop as (Hp & Hc & Hge & Hok' & Hmin).
    assert (n ≤ numPages chunk) as Hnc.
    { rewrite <-not_true_iff_false, entryCmp_spec in Hge. simpl in Hge. lia. }
    assert (chunk ∈ freePages m) as Hcm by (rewrite Efree; apply elem_of_app; by right).
    assert (freePages m ≡ₚ chunk :: concat (low ++ rest)) as Hperm.
    { by rewrite Efree, Hp, concat_app, Permutation_middle. }
    set (m1 := set_freeLists (low ++ rest) (wrap 64 (numEntries m - 1)) m).
    assert (fsm_ok m1) as Hok1.
    { constructor.
      - intros k l E. unfold m1 in E. simpl in E. apply lookup_app_Some in E as [E|[Hk E]].
        + unfold low in E. rewrite lookup_take in E. case_decide; [|done]. by apply (fsm_levels m Hok).
        + replace k with (level + (k - length low))%nat; [by apply Hok'|].
          unfold low in *. rewrite length_take in *.
          destruct (decide (level ≤ length (freeLists m))%nat); [lia|].
          unfold high in *. rewrite drop_ge in Hp by lia. simpl in Hp.
          by apply Permutation_nil_cons in Hp.
      - unfold m1, freePages. simpl. rewrite (fsm_count m Hok), Hperm.
        unfold wrap. rewrite Zminus_mod_idemp_l. simpl. f_equal. lia. }
    destruct (splitPageRange_spec N m1 chunk n (concat (low ++ rest)) Hok1) as (m' & E & ? & ? & ?);
      [done|done|by apply Hin|lia|by intros p; rewrite <-Hperm|].
    exists chunk, (concat (low ++ rest)), m'. rewrite E. split_and!; try done.
    intros y Hy Hny. rewrite Efree in Hy. apply elem_of_app in Hy as [Hy|Hy].
    + by pose proof (Hlow y Hy); lia.
    + apply Hmin; [done|]. rewrite <-not_true_iff_false. intros Hcy%Hcmp.
      assert (y ∈ freePages m) as Hym by (rewrite Efree; apply elem_of_app; by right).
      destruct (Hin y Hym). lia.
  - right. split; [done|]. intros y. rewrite Efree. intros [Hy|Hy]%elem_of_app; [by apply Hlow|].
    destruct (Hcmp y (Hpop y Hy)); [|done].
    assert (y ∈ freePages m) as Hym by (rewrite Efree; apply elem_of_app; by right).
    destruct (Hin y Hym). lia.
Qed.

(** ** Merging *)

(** The page count of the union of the ranges at a page. *)
Definition union_cover (p : Z) (l : list PageRange) : nat := Nat.min 1 (cover p l).

Lemma merge_end_spec N prev e :
  N < 2 ^ 32 → range_in N prev → range_in N e →
  startPageIdx prev ≤ startPageIdx e ≤ range_end prev →
  range_in N (merge_end prev e) ∧ startPageIdx (merge_end prev e) = startPageIdx prev ∧
  (∀ p, covers p (merge_end prev e) = covers p prev || covers p e) ∧
  range_end (merge_end prev e) = Z.max (range_end prev) (range_end e).
Proof.
  unfold range_in, merge_end, range_end. intros HN (? & ? & ?) (? & ? & ?) ?.
  rewrite !(wrap_id 32 (_ + _)) by (unfold in_u; lia). cbn [startPageIdx numPages].
  set (b := if _ <=? _ then _ else _).
  assert (b = Z.max (startPageIdx prev + numPages prev) (startPageIdx e + numPages e)) as ->
    by (unfold b; match goal with |- context [?x <=? ?y] => destruct (Z.leb_spec x y) end; lia).
  rewrite wrap_id by (unfold in_u; lia). split_and!; [lia..|done| |lia].
  intros p. apply Bool.eq_iff_eq_true. rewrite orb_true_iff, !covers_true. unfold range_end. simpl. lia.
Qed.

(** Different ranges neither overlap nor touch. *)
Definition gaps (l : list PageRange) : Prop :=
  ∀ r1 r2, r1 ∈ l → r2 ∈ l →
    r1 = r2 ∨ range_end r1 < startPageIdx r2 ∨ range_end r2 < startPageIdx r1.

Lemma gaps_cons r l :
  (∀ x, x ∈ l → range_end x < startPageIdx r) → gaps l → gaps (r :: l).
Proof.
  intros Hr Hl r1 r2 [->|H1]%elem_of_cons [->|H2]%elem_of_cons; [by left| | |by apply Hl].
  - right. right. by apply Hr.
  - right. left. by apply Hr.
Qed.

Lemma gaps_perm l l' : l ≡ₚ l' → gaps l → gaps l'.
Proof. intros Hp Hl r1 r2. rewrite <-Hp. apply Hl. Qed.

Lemma merge_entries_spec N prev l m :
  N < 2 ^ 32 → fsm_ok m → gaps (freePages m) → range_in N prev → Forall (range_in N) l →
  StronglySorted startsBefore (prev :: l) →
  Forall (λ r, range_in N r ∧ range_end r < startPageIdx prev) (freePages m) →
  let '(last, m') := merge_entries prev l m in
  fsm_ok m' ∧ range_in N last ∧
  Forall (λ r, range_in N r ∧ range_end r < startPageIdx last) (freePages m') ∧
  gaps (freePages m') ∧
  (∀ p, cover p (last :: freePages m') = (union_cover p (prev :: l) + cover p (freePages m))%nat) ∧
  uncheckpointedFreePageRanges m' = uncheckpointedFreePageRanges m.
Proof.
  intros HN. revert prev m. induction l as [|e l IH]; intros prev m Hok Hg Hprev Hl Hs Hm; cbn [merge_entries].
  { split_and!; try done. intros p. unfold union_cover. rewrite !cover_cons. change (cover p []) with 0%nat.
    destruct (covers p prev); lia. }
  apply Forall_cons_1 in Hl as [He Hl].
  apply StronglySorted_inv in Hs as [Hs Hpe]. pose proof (Forall_inv Hpe) as Hpe1.
  unfold startsBefore in Hpe1. pose proof Hprev as (? & ? & ?). unfold range_end in *.
  rewrite wrap_id by (unfold in_u; lia).
  destruct (Z.leb_spec (startPageIdx e) (startPageIdx prev + numPages prev)).
  - destruct (merge_end_spec N prev e) as (Hr & Es & Ec & Ee); [done..|unfold range_end; lia|].
    assert (StronglySorted startsBefore (merge_end prev e :: l)) as Hs'.
    { apply StronglySorted_inv in Hs as [Hs _]. constructor; [done|].
      apply Forall_inv_tail in Hpe. eapply Forall_impl; [exact Hpe|].
      intros x. unfold startsBefore. rewrite Es. done. }
    specialize (IH (merge_end prev e) m Hok Hg Hr Hl Hs'). rewrite Es in IH. specialize (IH Hm).
    destruct (merge_entries (merge_end prev e) l m) as [last m'].
    destruct IH as (? & ? & ? & ? & Hc & ?). split_and!; try done.
    intros p. rewrite Hc. unfold union_cover. rewrite !cover_cons, Ec.
    destruct (covers p prev), (covers p e); simpl; lia.
  - destruct (addFreePages_spec m prev Hok) as (Hok' & Hp & Hu & _); [lia|].
    rewrite decide_False in Hp.
    2:{ intros Hin. rewrite Forall_forall in Hm. destruct (Hm prev Hin). lia. }
    assert (Forall (λ r, range_in N r ∧ startPageIdx r + numPages r < startPageIdx e)
      (freePages (addFreePages prev m))) as Hm'.
    { rewrite Hp. constructor; [split; [done|lia]|]. eapply Forall_impl; [done|]. simpl. intros r [? ?].
      split; [done|]. lia. }
    assert (gaps (freePages (addFreePages prev m))) as Hg'.
    { eapply gaps_perm; [symmetry; exact Hp|]. apply gaps_cons; [|done].
      intros x Hx. rewrite Forall_forall in Hm. by destruct (Hm x Hx). }
    specialize (IH e (addFreePages prev m) Hok' Hg' He Hl Hs Hm').
    destruct (merge_entries e l (addFreePages prev m)) as [last m'].
    destruct IH as (? & ? & ? & ? & Hc & Hu'). split_and!; try done; [|by rewrite Hu'].
    intros p. rewrite Hc, Hp. unfold union_cover. rewrite !cover_cons.
    destruct (covers p prev) eqn:Ep; [|lia].
    apply covers_true in Ep. unfold range_end in Ep.
    assert (cover p (e :: l) = 0%nat) as E0.
    { apply cover_zero. intros r Hr Hpr. rewrite Forall_forall in Hpe.
      apply StronglySorted_inv in Hs as [_ Hel]. rewrite Forall_forall in Hel.
      assert (startPageIdx e ≤ startPageIdx r); [|lia].
      apply elem_of_cons in Hr as [->|Hr]; [lia|by apply Hel]. }
    rewrite cover_cons in E0. rewrite E0. lia.
Qed.

Lemma resetFreeLists_ok m : fsm_ok (resetFreeLists m) ∧ freePages (resetFreeLists m) = [].
Proof. split; [|done]. by constructor. Qed.

#[export] Instance startsBefore_total : Total startsBefore.
Proof. intros a b. unfold startsBefore. lia. Qed.
#[export] Instance startsBefore_trans : Transitive startsBefore.
Proof. intros a b c. unfold startsBefore. lia. Qed.
