(* ===== verification/PageManager.v ===== *)
(** * Page allocation (storage/page_manager.{h,cpp}, storage/optimistic_allocator.{h,cpp},
    page range bookkeeping of storage/database_header.cpp)

    The page manager owns the free space manager of a file.  Its mutex covers every
    operation but the growth of the file, which has its own lock, so histories are
    sequences of operations. *)

From stdpp Require Import sorting.
From S2P Require Import Prelude.
From S2P Require Import ConcurrentVector.
From S2P Require Import FileHandle.
From S2P Require Import FileHandleFacts.
From S2P Require Import FreeSpace.
From S2P Require Import FreeSpaceFacts.

Record PageManager : Type := mkPM {
  freeSpaceManager : FreeSpaceManager;
  fileHandle : PageFile;
  version : Z;
  lastCheckpointVersion : Z;
}.

Definition changedSinceLastCheckpoint (pm : PageManager) : bool :=
  negb (version pm =? lastCheckpointVersion pm).
Definition resetVersion (checkpointedVersion : Z) (pm : PageManager) : PageManager :=
  mkPM (freeSpaceManager pm) (fileHandle pm) (version pm) checkpointedVersion.

Definition pm_fsm (f : FreeSpaceManager → FreeSpaceManager) : stM PageManager () :=
  st_modify (λ pm, mkPM (f (freeSpaceManager pm)) (fileHandle pm) (version pm) (lastCheckpointVersion pm)).
Definition pm_file {A} (f : stM PageFile A) : stM PageManager A :=
  λ pm, let '(pf, r) := f (fileHandle pm) in
        (mkPM (freeSpaceManager pm) pf (version pm) (lastCheckpointVersion pm), r).
Definition pm_both {A} (f : stM FsState A) : stM PageManager A :=
  λ pm, let '((m, pf), r) := f (freeSpaceManager pm, fileHandle pm) in
        (mkPM m pf (version pm) (lastCheckpointVersion pm), r).
(** [version.fetch_add(1)] *)
Definition bumpVersion : stM PageManager () :=
  st_modify (λ pm, mkPM (freeSpaceManager pm) (fileHandle pm) (wrap 64 (version pm + 1))
                     (lastCheckpointVersion pm)).

Section PageManager.
Context `{PageConfig}.
Variable pin : Z → stM PageFile ().
Variable madvise : Z → result ().

Definition allocatePageRange (numPages : Z) : stM PageManager PageRange :=
  pm ← st_get;
  let '(allocatedFreeChunk, m) := popFreePages numPages (freeSpaceManager pm) in
  _ ← pm_fsm (λ _, m);
  match allocatedFreeChunk with
  | Some r => _ ← bumpVersion; mret r
  | None =>
      startPageIdx ← pm_file (addNewPages pin numPages);
      mret (mkRange startPageIdx numPages)
  end.

Definition allocatePage : stM PageManager Z := r ← allocatePageRange 1; mret (startPageIdx r).

Definition freePageRange (entry : PageRange) : stM PageManager () :=
  _ ← pm_fsm (addUncheckpointedFreePages entry); bumpVersion.

Definition freePage (pageIdx : Z) : stM PageManager () := freePageRange (mkRange pageIdx 1).

Definition freeImmediatelyRewritablePageRange (entry : PageRange) : stM PageManager () :=
  _ ← pm_both (evictAndAddFreePages madvise entry); bumpVersion.

Definition pm_finalizeCheckpoint : stM PageManager () := pm_both (finalizeCheckpoint madvise).

Definition pm_rollbackCheckpoint : stM PageManager () := pm_fsm rollbackCheckpoint.

Definition pm_mergeFreePages : stM PageManager () :=
  _ ← pm_both (mergeFreePages madvise); bumpVersion.

Definition reclaimTailPagesIfNeeded (checkpointNumPages : Z) : stM PageManager () :=
  if checkpointNumPages =? 0 then mret ()
  else
    pm ← st_get;
    let currentNumPages := fhNumPages (fh (fileHandle pm)) in
    if currentNumPages <=? checkpointNumPages then mret ()
    else
      let tail := mkRange checkpointNumPages (wrap 32 (currentNumPages - checkpointNumPages)) in
      _ ← pm_fsm (addUncheckpointedFreePages tail);
      _ ← pm_both (mergeFreePages madvise);
      bumpVersion.

(** ** Optimistic allocation *)

(** The pages a thread allocated for uncommitted data, beside the page manager. *)
Definition OptState : Type := list PageRange * PageManager.

Definition opt_pm {A} (f : stM PageManager A) : stM OptState A :=
  λ '(l, pm), let '(pm', r) := f pm in ((l, pm'), r).
Definition opt_set (f : list PageRange → list PageRange) : stM OptState () :=
  λ '(l, pm), ((f l, pm), Ok ()).

Definition opt_allocatePageRange (numPages : Z) : stM OptState PageRange :=
  pageRange ← opt_pm (allocatePageRange numPages);
  _ ← (if 0 <? numPages then opt_set (λ l, l ++ [pageRange]) else mret ());
  mret pageRange.

Definition opt_freePageRange (block : PageRange) : stM OptState () := opt_pm (freePageRange block).

Fixpoint free_each (l : list PageRange) : stM OptState () :=
  match l with
  | [] => mret ()
  | entry :: l => _ ← opt_pm (freeImmediatelyRewritablePageRange entry); free_each l
  end.

Definition opt_rollback : stM OptState () :=
  s ← st_get;
  _ ← free_each s.1;
  opt_set (λ _, []).

Definition opt_commit : stM OptState () := opt_set (λ _, []).

(** ** The ranges of the database header *)

Record DatabaseHeader : Type := mkHeader {
  catalogPageRange : PageRange;
  metadataPageRange : PageRange;
  dataFileNumPages : Z;
  databaseID : Z;
}.

Definition updateCatalogPageRange (newPageRange : PageRange) (h : DatabaseHeader) :
    stM PageManager DatabaseHeader :=
  _ ← (if startPageIdx (catalogPageRange h) =? INVALID_PAGE_IDX then mret ()
       else freePageRange (catalogPageRange h));
  mret (mkHeader newPageRange (metadataPageRange h) (dataFileNumPages h) (databaseID h)).

Definition freeMetadataPageRange (h : DatabaseHeader) : stM PageManager () :=
  if startPageIdx (metadataPageRange h) =? INVALID_PAGE_IDX then mret ()
  else freePageRange (metadataPageRange h).
End PageManager.

(** * Facts about page management

    Each operation of the free space manager and the page manager on a state with the
    invariant of one range per page ([pm_ok]). *)

Section Facts.
Context `{PageConfig}.
Variable pin : Z → stM PageFile ().
Variable madvise : Z → result ().
Hypothesis madvise_ok : ∀ frame, madvise frame ≠ UB.

Lemma handle_pages_bound pf : handle_ok pf → 0 ≤ fhNumPages (fh pf) < 2 ^ 32.
Proof.
  intros Hok. pose proof (groups_count _ Hok). destruct Hok.
  unfold MAX_GROUPS, PAGE_GROUP_SIZE in *. lia.
Qed.

(** The lists of a manager are the same; only the flag may differ. *)
Definition same_lists (m m' : FreeSpaceManager) : Prop :=
  freeLists m' = freeLists m ∧ uncheckpointedFreePageRanges m' = uncheckpointedFreePageRanges m ∧
  numEntries m' = numEntries m.

Lemma same_lists_ok m m' : same_lists m m' → fsm_ok m → fsm_ok m'.
Proof.
  intros (E1 & _ & E3) []. constructor; unfold freePages in *; rewrite ?E1, ?E3; auto.
Qed.

(** The result of a step that only evicts pages: it may fail in the system call. *)
Definition evicted (s : FsState) (r : FsState * result ()) : Prop :=
  evict_result madvise r.2 ∧ same_lists s.1 r.1.1 ∧ same_pages s.2 r.1.2.

Lemma evict_from_ok n p m pf :
  handle_ok pf → evicted (m, pf) (evict_from madvise p n (m, pf)).
Proof.
  revert p pf. induction n as [|n IH]; intros p pf Hok; [done|]. cbn [evict_from]. st_run.
  pose proof (wrap_range 32 p ltac:(lia)) as Hw. unfold in_u in Hw.
  destruct (removePageFromFrameIfNecessary_ok madvise madvise_ok pf (wrap 32 p) Hok ltac:(lia))
    as (pf1 & r & E & Hr & Hs). cbn [on_file]. rewrite E.
  destruct r; [|done|done].
  destruct (IH (p + 1) pf1) as (R1 & R2 & R3); [by eapply same_pages_ok|].
  split_and!; [done|done|]. by eapply same_pages_trans.
Qed.

Lemma evictPages_ok e m pf : handle_ok pf → evicted (m, pf) (evictPages madvise e (m, pf)).
Proof.
  intros Hok. unfold evictPages. st_run. cbn [on_fsm].
  destruct (evict_from_ok (Z.to_nat (numPages e)) (startPageIdx e) (set_needClear true m) pf Hok)
    as (R1 & (? & ? & ?) & R3). done.
Qed.

Lemma evict_all_ok l m pf : handle_ok pf → evicted (m, pf) (evict_all madvise l (m, pf)).
Proof.
  revert m pf. induction l as [|e l IH]; intros m pf Hok; [done|]. cbn [evict_all]. st_run.
  pose proof (evictPages_ok e m pf Hok) as (R1 & (? & ? & ?) & R3).
  destruct (evictPages madvise e (m, pf)) as [[m1 pf1] [[]| |]]; simpl in *; [|done|done].
  destruct (IH m1 pf1) as (? & (? & ? & ?) & ?); [by eapply same_pages_ok|].
  split_and!; [done| |by eapply same_pages_trans]. unfold same_lists. simpl in *. split_and!; congruence.
Qed.

(** Merging: the free lists become the union of the ranges given and the free ones,
    except that a union that ends at the end of the file is cut off the file. *)
Lemma mergePageRanges_ok l m pf :
  handle_ok pf → fsm_ok m →
  let N := fhNumPages (fh pf) in
  let all := l ++ freePages m in
  Forall (range_in N) all →
  ∃ m' pf', mergePageRanges l (m, pf) = ((m', pf'), Ok ()) ∧
    handle_ok pf' ∧ isInMemoryMode (fh pf') = isInMemoryMode (fh pf) ∧ fsm_ok m' ∧
    uncheckpointedFreePageRanges m' = uncheckpointedFreePageRanges m ∧
    let N' := fhNumPages (fh pf') in
    N' ≤ N ∧ Forall (range_in N') (freePages m') ∧
    (∀ p, cover p (freePages m') = if p <? N' then union_cover p all else 0%nat) ∧
    (∀ p, N' ≤ p < N → (1 ≤ cover p all)%nat) ∧
    gaps (freePages m') ∧ Forall (λ r, range_end r < N') (freePages m').
Proof.
  intros Hok Hm N all Hall. unfold mergePageRanges. st_run. cbn [fst snd].
  pose proof (merge_sort_Permutation startsBefore all) as Hperm.
  pose proof (StronglySorted_merge_sort startsBefore all) as Hsort.
  unfold all, freePages in Hperm, Hsort. destruct (merge_sort startsBefore _) as [|e0 rest].
  { apply Permutation_nil_l in Hperm. symmetry in Hperm. fold (freePages m) all in Hperm.
    pose proof Hperm as [_ Hf]%app_nil. exists m, pf. cbn zeta. fold N. rewrite Hf, Hperm.
    split_and!; try done; intros p; [by destruct (p <? N)|lia|by intros ? ?%elem_of_nil]. }
  pose proof (handle_pages_bound _ Hok) as HN. fold N in HN.
  fold (freePages m) in Hperm. fold all in Hperm.
  destruct (resetFreeLists_ok m) as [Hm0 Hf0].
  rewrite <-Hperm in Hall. apply Forall_cons_1 in Hall as [He0 Hrest].
  pose proof (merge_entries_spec N e0 rest (resetFreeLists m) ltac:(lia) Hm0
    ltac:(rewrite Hf0; by intros ?? ?%elem_of_nil) He0 Hrest Hsort
    ltac:(rewrite Hf0; constructor)) as Hmerge.
  destruct (merge_entries e0 rest (resetFreeLists m)) as [prev m1].
  destruct Hmerge as (Hm1 & Hprev & Hbelow & Hgaps & Hcov & Hu). unfold union_cover in Hcov.
  rewrite Hf0 in Hcov. change (uncheckpointedFreePageRanges m1 = uncheckpointedFreePageRanges m) in Hu.
  assert (∀ p, cover p (prev :: freePages m1) = union_cover p all) as Hcov'.
  { intros p. rewrite Hcov. unfold union_cover. rewrite Hperm. change (cover p []) with 0%nat. lia. }
  st_run. cbn [on_fsm]. unfold handleLastPageRange. st_run. cbn [fst snd].
  destruct Hprev as (Hp1 & Hp2 & Hp3). unfold range_end in Hp3.
  rewrite wrap_id by (unfold in_u; lia).
  rewrite Forall_forall in Hbelow.
  destruct (Z.eqb_spec (startPageIdx prev + numPages prev) (fhNumPages (fh pf))) as [Eend|Hne].
  - cbn [on_file]. destruct (removePageIdxAndTruncateIfNecessary_ok pf (startPageIdx prev) Hok Hp1)
      as (pf' & E & Hok' & En & Emem). rewrite E. rewrite Z.min_l in En by (unfold N in *; lia).
    exists m1, pf'. cbn zeta. rewrite En. fold N in Eend. split_and!; try done; [lia| | | |].
    + apply Forall_forall. intros r Hr. destruct (Hbelow r Hr) as ((? & ? & ?) & ?).
      unfold range_in. split_and!; lia.
    + intros p. destruct (Z.ltb_spec p (startPageIdx prev)).
      * rewrite <-Hcov', cover_cons. rewrite (proj2 (covers_false p prev)) by lia. lia.
      * apply cover_zero. intros r Hr. destruct (Hbelow r Hr). unfold range_end in *. lia.
    + intros p Hp. specialize (Hcov' p). rewrite cover_cons in Hcov'.
      rewrite (proj2 (covers_true p prev)) in Hcov' by (unfold range_end; lia).
      unfold union_cover in Hcov'. lia.
    + apply Forall_forall. intros r Hr. by destruct (Hbelow r Hr).
  - cbn [on_fsm]. destruct (addFreePages_spec m1 prev Hm1 ltac:(lia)) as (Hm2 & Hp & Hu2 & _).
    rewrite decide_False in Hp by (intros Hin; destruct (Hbelow prev Hin); unfold range_end in *; lia).
    exists (addFreePages prev m1), pf. cbn zeta. fold N. split_and!; try done; [congruence| | |lia| |].
    + rewrite Hp. constructor; [done|]. apply Forall_forall. intros r Hr. by destruct (Hbelow r Hr).
    + intros p. rewrite Hp, Hcov'. destruct (Z.ltb_spec p N); [done|].
      rewrite <-Hcov', <-Hp. apply cover_zero. intros r Hr Hpr. rewrite Hp in Hr.
      apply elem_of_cons in Hr as [->|Hr]; [unfold range_end in *; lia|].
      destruct (Hbelow r Hr) as ((? & ? & ?) & ?). lia.
    + eapply gaps_perm; [symmetry; exact Hp|]. apply gaps_cons; [|done].
      intros x Hx. by destruct (Hbelow x Hx).
    + rewrite Hp. constructor; [unfold range_end, N in *; lia|].
      apply Forall_forall. intros r Hr. destruct (Hbelow r Hr). unfold N in *. lia.
Qed.

(** ** The invariant of a page manager

    [owned] are the ranges in use.  Every page of the file is in exactly one range: in
    use, freed since the last checkpoint, or free. *)
Definition fileNumPages (pm : PageManager) : Z := fhNumPages (fh (fileHandle pm)).
Definition uncheckpointed (pm : PageManager) : list PageRange :=
  uncheckpointedFreePageRanges (freeSpaceManager pm).
Definition free (pm : PageManager) : list PageRange := freePages (freeSpaceManager pm).

Record pm_ok (pm : PageManager) (owned : list PageRange) : Prop := {
  po_handle : handle_ok (fileHandle pm);
  po_disk : isInMemoryMode (fh (fileHandle pm)) = false;
  po_fsm : fsm_ok (freeSpaceManager pm);
  po_in : Forall (range_in (fileNumPages pm)) (owned ++ uncheckpointed pm ++ free pm);
  po_cover p : 0 ≤ p < fileNumPages pm → cover p (owned ++ uncheckpointed pm ++ free pm) = 1%nat;
}.

Lemma cover_out N l p : Forall (range_in N) l → ¬ (0 ≤ p < N) → cover p l = 0%nat.
Proof. intros Hl Hp. destruct (cover p l) eqn:E; [done|]. destruct Hp. apply (cover_in N l); [done|lia]. Qed.

Lemma po_cover_all pm owned p :
  pm_ok pm owned →
  cover p (owned ++ uncheckpointed pm ++ free pm) =
  (if bool_decide (0 ≤ p < fileNumPages pm) then 1%nat else 0%nat).
Proof.
  intros Hok. case_bool_decide; [by apply po_cover|]. eapply cover_out; [apply Hok|done].
Qed.

(** Ranges that cover only pages of the file are in it. *)
Lemma ranges_in N l :
  Forall (λ r, 0 < numPages r) l → (∀ p, (0 < cover p l)%nat → 0 ≤ p < N) → Forall (range_in N) l.
Proof.
  intros Hpos Hc. apply Forall_forall. intros r Hr. rewrite Forall_forall in Hpos. specialize (Hpos r Hr).
  assert (0 ≤ startPageIdx r < N).
  { apply Hc. pose proof (cover_pos (startPageIdx r) r l Hr). unfold range_end in *. lia. }
  assert (0 ≤ range_end r - 1 < N).
  { apply Hc. pose proof (cover_pos (range_end r - 1) r l Hr). unfold range_end in *. lia. }
  unfold range_in. lia.
Qed.

(** A state with the same coverage is as good. *)
Lemma pm_ok_intro pm owned :
  handle_ok (fileHandle pm) → isInMemoryMode (fh (fileHandle pm)) = false → fsm_ok (freeSpaceManager pm) →
  Forall (λ r, 0 < numPages r) (owned ++ uncheckpointed pm ++ free pm) →
  (∀ p, cover p (owned ++ uncheckpointed pm ++ free pm) =
    (if bool_decide (0 ≤ p < fileNumPages pm) then 1%nat else 0%nat)) →
  pm_ok pm owned.
Proof.
  intros ???? Hc. constructor; [done..| |].
  - apply ranges_in; [done|]. intros p. rewrite Hc. case_bool_decide; [done|lia].
  - intros p Hp. rewrite Hc. by rewrite bool_decide_true.
Qed.

Lemma po_pos pm owned : pm_ok pm owned → Forall (λ r, 0 < numPages r) (owned ++ uncheckpointed pm ++ free pm).
Proof. intros Hok. eapply Forall_impl; [apply Hok|]. by intros r (? & ? & ?). Qed.

(** ** The operations *)

Lemma allocatePageRange_ok pm owned n :
  pm_ok pm owned → 0 ≤ n < 2 ^ 32 →
  (∃ pm' r, allocatePageRange pin n pm = (pm', Ok r) ∧ numPages r = n ∧
     pm_ok pm' (if 0 <? n then r :: owned else owned) ∧
     uncheckpointed pm' = uncheckpointed pm ∧
     ((∃ chunk, 0 < n ∧ chunk ∈ free pm ∧ startPageIdx r = startPageIdx chunk ∧ n ≤ numPages chunk ∧
         (∀ e, e ∈ free pm → n ≤ numPages e → numPages chunk ≤ numPages e) ∧
         fileNumPages pm' = fileNumPages pm) ∨
      ((∀ e, e ∈ free pm → 0 < n → numPages e < n) ∧ startPageIdx r = fileNumPages pm ∧
         fileNumPages pm' = fileNumPages pm + n))) ∨
  (∃ pm', allocatePageRange pin n pm = (pm', Throw region_full) ∧
     uncheckpointed pm' = uncheckpointed pm ∧ free pm' = free pm ∧ fileNumPages pm ≤ fileNumPages pm' < fileNumPages pm + n).
Proof.
  intros Hok Hn. pose proof (handle_pages_bound _ (po_handle _ _ Hok)) as HN.
  pose proof (po_in _ _ Hok) as Hin. rewrite !Forall_app in Hin. destruct Hin as (Ho & Hu & Hf).
  pose proof (po_pos _ _ Hok) as Hpos. rewrite !Forall_app in Hpos. destruct Hpos as (Po & Pu & Pf).
  unfold allocatePageRange. st_run.
  assert ((0 < n ∧ ∃ chunk rest m',
      popFreePages n (freeSpaceManager pm) = (Some (mkRange (startPageIdx chunk) n), m') ∧
      free pm ≡ₚ chunk :: rest ∧ n ≤ numPages chunk ∧
      (∀ e, e ∈ free pm → n ≤ numPages e → numPages chunk ≤ numPages e) ∧
      fsm_ok m' ∧ freePages m' ≡ₚ remaining chunk n ++ rest ∧
      uncheckpointedFreePageRanges m' = uncheckpointed pm) ∨
    (popFreePages n (freeSpaceManager pm) = (None, freeSpaceManager pm) ∧
     (∀ e, e ∈ free pm → 0 < n → numPages e < n))) as [(Hn0 & chunk & rest & m' & E & Hp & Hnc & Hbest & Hm' & Hp' & Hu')|[E Hno]].
  { destruct (decide (0 < n)) as [Hn0|Hn0].
    - destruct (popFreePages_spec (fileNumPages pm) (freeSpaceManager pm) n) as [?|[? ?]];
        [apply Hok|lia|unfold fileNumPages; lia|done| |by left|right; by eauto].
      intros p. pose proof (po_cover_all _ _ p Hok) as Hc. rewrite !cover_app in Hc.
      unfold free in Hc. case_bool_decide; lia.
    - right. unfold popFreePages. rewrite (proj2 (Z.ltb_ge 0 n)) by lia. split; [done|lia]. }
  - left. rewrite E. st_run. cbn [pm_fsm st_modify bumpVersion]. st_run.
    eexists _, _. split; [reflexivity|]. split; [done|].
    assert (chunk ∈ free pm) as Hc by (rewrite Hp; left).
    rewrite (proj2 (Z.ltb_lt 0 n) Hn0). split; [|split; [done|left; exists chunk; split_and!; done]].
    apply pm_ok_intro; try done; [apply Hok|apply Hok| |].
    + unfold uncheckpointed, free. cbn [freeSpaceManager]. rewrite Hu', Hp'.
      apply Forall_app_2; [by constructor|]. apply Forall_app_2; [done|].
      rewrite Hp in Hf, Pf. apply Forall_cons_1 in Hf as [Hfc _]. apply Forall_cons_1 in Pf as [_ Pr].
      apply Forall_app_2; [|done]. eapply Forall_impl; [apply (remaining_in _ _ n Hfc); lia|].
      by intros r (? & ? & ?).
    + intros p. change (fileNumPages _) with (fileNumPages pm). rewrite <-(po_cover_all _ _ _ Hok).
      unfold uncheckpointed, free. cbn [freeSpaceManager]. rewrite Hu', Hp'.
      pose proof (cover_remaining p chunk n ltac:(lia)) as Er. unfold free in Hp.
      rewrite Hp. rewrite !cover_app, !cover_cons. rewrite !cover_cons in Er.
      change (cover p []) with 0%nat in Er. unfold uncheckpointed. lia.
  - rewrite E. st_run. cbn [pm_fsm st_modify].
    destruct (addNewPages_ok pin n (fileHandle pm)) as (pf' & Hmem & [(E' & Hok' & En)|(E' & En)]);
      [apply Hok|apply Hok|lia| |]; unfold pm_file; rewrite st_bind_run; cbn [fileHandle freeSpaceManager];
      rewrite E'; st_run; [left|right; eexists; split; [reflexivity|split_and!; try done; unfold fileNumPages in *; cbn in *; lia]].
    eexists _, _. split; [reflexivity|]. split; [done|]. split; [|split; [done|right; done]].
    pose proof (handle_pages_bound _ Hok') as HN'.
    apply pm_ok_intro; try done; [apply Hok| |].
    + change (uncheckpointed _) with (uncheckpointed pm). change (free _) with (free pm).
      destruct (Z.ltb_spec 0 n); [constructor; [simpl; lia|]|]; apply (po_pos _ _ Hok).
    + intros p. change (uncheckpointed _) with (uncheckpointed pm). change (free _) with (free pm).
      change (fileNumPages _) with (fhNumPages (fh pf')). rewrite En.
      pose proof (po_cover_all _ _ p Hok) as Hc. unfold fileNumPages in Hc.
      rewrite !cover_app in *. destruct (Z.ltb_spec 0 n).
      * rewrite cover_cons. unfold covers, range_end. cbn [startPageIdx numPages].
        repeat case_bool_decide; repeat match goal with |- context [?a <=? ?b] => destruct (Z.leb_spec a b)
          | |- context [?a <? ?b] => destruct (Z.ltb_spec a b) end; cbn [andb]; lia.
      * repeat case_bool_decide; lia.
Qed.
End Facts.
