(* ===== verification/PageTheorems.v ===== *)
(** * Correctness of page allocation

    Histories of a page manager as steps of one state with the ranges its clients use;
    the invariant of the histories; what allocation and the end of a checkpoint promise. *)

From S2P Require Import Prelude.
From S2P Require Import ConcurrentVector.
From S2P Require Import FileHandle.
From S2P Require Import FileHandleFacts.
From S2P Require Import FreeSpace.
From S2P Require Import FreeSpaceFacts.
From S2P Require Import PageManager.

Section Pages.
Context `{PageConfig}.
Variable pin : Z → stM PageFile ().
Variable madvise : Z → result ().

(** The owner of some pages gives up the range [r] and keeps [owned']. *)
Definition gives_up (owned : list PageRange) (r : PageRange) (owned' : list PageRange) : Prop :=
  (∀ p, cover p owned = cover p (r :: owned')) ∧ Forall (λ r, 0 < numPages r) (r :: owned').

(** Steps.  A range that could not be evicted for [freeImmediatelyRewritable...] stays in
    use; a checkpoint that rolls back takes its freed ranges back. *)
Inductive pm_step (pm : PageManager) (owned : list PageRange) : PageManager → list PageRange → Prop :=
| step_allocate n pm' r :
    0 ≤ n < 2 ^ 32 → allocatePageRange pin n pm = (pm', Ok r) →
    pm_step pm owned pm' (if 0 <? n then r :: owned else owned)
| step_free r owned' pm' res :
    gives_up owned r owned' → freePageRange r pm = (pm', res) → pm_step pm owned pm' owned'
| step_free_now r owned' pm' res :
    gives_up owned r owned' → freeImmediatelyRewritablePageRange madvise r pm = (pm', res) →
    pm_step pm owned pm' (if is_ok res then owned' else owned)
| step_finalize pm' res :
    pm_finalizeCheckpoint madvise pm = (pm', res) → pm_step pm owned pm' owned
| step_merge pm' res :
    pm_mergeFreePages madvise pm = (pm', res) → pm_step pm owned pm' owned
| step_rollback pm' res :
    pm_rollbackCheckpoint pm = (pm', res) → pm_step pm owned pm' (uncheckpointed pm ++ owned)
| step_version n : pm_step pm owned (resetVersion n pm) owned.

(** A page manager over an existing file, all of whose pages are in use. *)
Definition opened (pf : PageFile) (v : Z) : PageManager := mkPM emptyFSM pf v v.
Definition all_pages (pf : PageFile) : list PageRange :=
  if 0 <? fhNumPages (fh pf) then [mkRange 0 (fhNumPages (fh pf))] else [].

Inductive pm_reachable : PageManager → list PageRange → Prop :=
| reach_opened pf v :
    handle_ok pf → isInMemoryMode (fh pf) = false → pm_reachable (opened pf v) (all_pages pf)
| reach_step pm owned pm' owned' :
    pm_reachable pm owned → pm_step pm owned pm' owned' → pm_reachable pm' owned'.

Hypothesis madvise_ok : ∀ frame, madvise frame ≠ UB.

Lemma opened_ok pf v :
  handle_ok pf → isInMemoryMode (fh pf) = false → pm_ok (opened pf v) (all_pages pf).
Proof.
  intros Hok Hm. pose proof (handle_pages_bound _ Hok).
  unfold all_pages. apply pm_ok_intro; try done.
  - destruct (Z.ltb_spec 0 (fhNumPages (fh pf))); [constructor; [done|]|]; constructor.
  - intros p. change (uncheckpointed _) with (@nil PageRange). change (free _) with (@nil PageRange).
    change (fileNumPages _) with (fhNumPages (fh pf)). rewrite !app_nil_r.
    destruct (Z.ltb_spec 0 (fhNumPages (fh pf))).
    + rewrite cover_cons. unfold covers, range_end. cbn [startPageIdx numPages]. change (cover p []) with 0%nat.
      case_bool_decide; destruct (Z.leb_spec 0 p), (Z.ltb_spec p (0 + fhNumPages (fh pf))); cbn [andb]; lia.
    + case_bool_decide; [lia|done].
Qed.

(** A state with the ranges regrouped and the same pages is as good. *)
Lemma pm_ok_regroup pm owned pm' owned' :
  pm_ok pm owned → handle_ok (fileHandle pm') → isInMemoryMode (fh (fileHandle pm')) = false →
  fsm_ok (freeSpaceManager pm') → fileNumPages pm' = fileNumPages pm →
  Forall (λ r, 0 < numPages r) (owned' ++ uncheckpointed pm' ++ free pm') →
  (∀ p, cover p (owned' ++ uncheckpointed pm' ++ free pm') = cover p (owned ++ uncheckpointed pm ++ free pm)) →
  pm_ok pm' owned'.
Proof.
  intros Hok Hh Hm Hf En Hp Hc. apply pm_ok_intro; try done.
  intros p. rewrite Hc, En. by apply po_cover_all.
Qed.

Lemma set_uncheckpointed_ok l m : fsm_ok m → fsm_ok (set_uncheckpointed l m).
Proof. intros []. by constructor. Qed.

Lemma freePageRange_ok pm owned r owned' :
  pm_ok pm owned → gives_up owned r owned' →
  ∃ pm', freePageRange r pm = (pm', Ok ()) ∧ pm_ok pm' owned' ∧
    uncheckpointed pm' = uncheckpointed pm ++ [r] ∧ free pm' = free pm.
Proof.
  intros Hok [Hc Hpos]. unfold freePageRange. st_run. cbn [pm_fsm st_modify bumpVersion].
  eexists. split; [reflexivity|]. split; [|done]. set (pm' := mkPM _ _ _ _).
  assert (uncheckpointed pm' = uncheckpointed pm ++ [r]) as Eu by done.
  assert (free pm' = free pm) as Ef by done.
  pose proof (po_pos _ _ Hok) as Hp. rewrite !Forall_app in Hp. destruct Hp as (_ & Pu & Pf).
  apply Forall_cons_1 in Hpos as [Hr Ho].
  apply (pm_ok_regroup pm owned); [exact Hok|apply Hok|apply Hok|by apply set_uncheckpointed_ok, Hok|done|..];
    rewrite Eu, Ef.
  - rewrite !Forall_app. split_and!; [done|done|by constructor|done].
  - intros p. specialize (Hc p). rewrite cover_cons in Hc. rewrite !cover_app, cover_cons.
    change (cover p []) with 0%nat. lia.
Qed.

(** Operations that evict pages first. *)
Lemma evicted_states pm owned m' pf' :
  pm_ok pm owned → same_lists (freeSpaceManager pm) m' → same_pages (fileHandle pm) pf' →
  pm_ok (mkPM m' pf' (version pm) (lastCheckpointVersion pm)) owned ∧
  uncheckpointedFreePageRanges m' = uncheckpointed pm ∧ freePages m' = free pm ∧
  fhNumPages (fh pf') = fileNumPages pm.
Proof.
  intros Hok Hl Hs. pose proof (same_lists_ok _ _ Hl (po_fsm _ _ Hok)) as Hm'.
  pose proof (same_pages_ok _ _ Hs (po_handle _ _ Hok)) as Hh'.
  destruct Hl as (E1 & E2 & E3). destruct Hs as (S1 & _ & _ & _ & S5 & S6 & _).
  assert (freePages m' = free pm) as Ef by (unfold free, freePages; by rewrite E1).
  split_and!; [|done..].
  apply (pm_ok_regroup pm owned); [exact Hok|done| |done|done| |].
  - cbn [fileHandle]. unfold isInMemoryMode. rewrite S5, S6. apply Hok.
  - unfold uncheckpointed, free. cbn [freeSpaceManager]. rewrite E2, Ef. apply (po_pos _ _ Hok).
  - intros p. unfold uncheckpointed, free. cbn [freeSpaceManager]. by rewrite E2, Ef.
Qed.

Lemma freeImmediately_ok pm owned r owned' :
  pm_ok pm owned → gives_up owned r owned' →
  ∃ pm' res, freeImmediatelyRewritablePageRange madvise r pm = (pm', res) ∧ res ≠ UB ∧
    pm_ok pm' (if is_ok res then owned' else owned) ∧
    (is_ok res = true → free pm' ≡ₚ r :: free pm ∧ uncheckpointed pm' = uncheckpointed pm).
Proof.
  intros Hok [Hc Hpos]. unfold freeImmediatelyRewritablePageRange, evictAndAddFreePages.
  rewrite st_bind_run. unfold pm_both. rewrite st_bind_run.
  pose proof (evictPages_ok madvise madvise_ok r (freeSpaceManager pm) (fileHandle pm) (po_handle _ _ Hok))
    as (R1 & R2 & R3).
  destruct (evictPages madvise r _) as [[m1 pf1] res]. simpl in R1, R2, R3.
  destruct (evicted_states pm owned m1 pf1 Hok R2 R3) as (Hok1 & Eu & Ef & En).
  destruct res as [[]| |]; [|eexists _, _; split; [reflexivity|]; split_and!; done|done].
  cbn [on_fsm bumpVersion st_modify]. eexists _, _. split; [reflexivity|]. cbn [is_ok].
  apply Forall_cons_1 in Hpos as [Hr Ho].
  pose proof (po_pos _ _ Hok) as Hp. rewrite !Forall_app in Hp. destruct Hp as (_ & Pu & Pf).
  pose proof (handle_pages_bound _ (po_handle _ _ Hok)) as HN.
  assert (range_in (fileNumPages pm) r) as Hrin.
  { assert (Forall (range_in (fileNumPages pm)) [r]) as Hf; [|by apply Forall_cons_1 in Hf as [? _]].
    apply ranges_in; [by constructor|]. intros p Hp. apply (cover_in _ owned).
    - pose proof (po_in _ _ Hok) as Hi. apply Forall_app in Hi as [? _]. done.
    - rewrite Hc, cover_cons. rewrite cover_cons in Hp. change (cover p []) with 0%nat in Hp. lia. }
  destruct (addFreePages_spec m1 r (po_fsm _ _ Hok1)) as (Hok2 & Hp2 & Hu2 & _).
  { destruct Hrin as (? & ? & ?). unfold range_end, fileNumPages in *. lia. }
  rewrite decide_False in Hp2.
  2:{ rewrite Ef. apply (fresh_not_in (fileNumPages pm)); [done|]. intros p.
      pose proof (po_cover_all _ _ p Hok) as Hcov. rewrite !cover_app, Hc, cover_cons in Hcov.
      rewrite cover_cons. case_bool_decide; lia. }
  rewrite Ef in Hp2. split_and!; [done| |intros _; split; [exact Hp2|exact (eq_trans Hu2 Eu)]].
  set (pm' := mkPM _ _ _ _).
  assert (uncheckpointed pm' = uncheckpointed pm) as Eu' by exact (eq_trans Hu2 Eu).
  assert (free pm' ≡ₚ r :: free pm) as Ef' by exact Hp2.
  apply (pm_ok_regroup pm owned); [exact Hok|apply Hok1|apply Hok1|done|done|..].
  - rewrite Eu', Ef', !Forall_app. split_and!; [done|done|by constructor].
  - intros p. rewrite Eu', Ef', !cover_app, cover_cons. specialize (Hc p). rewrite cover_cons in Hc. lia.
Qed.

(** ** The end of a checkpoint *)

(** [finalizeCheckpoint] and [mergeFreePages] are the same function. *)
Lemma merge_is_finalize : mergeFreePages madvise = finalizeCheckpoint madvise.
Proof. done. Qed.

Lemma finalizeCheckpoint_ok pm owned :
  pm_ok pm owned →
  ∃ pm' res, pm_finalizeCheckpoint madvise pm = (pm', res) ∧ res ≠ UB ∧ pm_ok pm' owned ∧
    fileNumPages pm' ≤ fileNumPages pm ∧
    if is_ok res
    then uncheckpointed pm' = [] ∧ gaps (free pm') ∧ Forall (λ r, range_end r < fileNumPages pm') (free pm') ∧
      (∀ p, cover p (free pm') =
         if p <? fileNumPages pm' then cover p (uncheckpointed pm ++ free pm) else 0%nat)
    else uncheckpointed pm' = uncheckpointed pm ∧ free pm' = free pm ∧ fileNumPages pm' = fileNumPages pm.
Proof.
  intros Hok. unfold pm_finalizeCheckpoint, pm_both, finalizeCheckpoint. rewrite !st_bind_run.
  cbn [st_get fst snd].
  pose proof (evict_all_ok madvise madvise_ok (uncheckpointedFreePageRanges (freeSpaceManager pm))
    (freeSpaceManager pm) (fileHandle pm) (po_handle _ _ Hok)) as (R1 & R2 & R3).
  rewrite st_bind_run.
  destruct (evict_all madvise _ _) as [[m1 pf1] res]. simpl in R1, R2, R3.
  destruct (evicted_states pm owned m1 pf1 Hok R2 R3) as (Hok1 & Eu & Ef & En).
  destruct res as [[]| |];
    [|eexists _, _; split; [reflexivity|]; split_and!; try done; unfold fileNumPages in *; simpl; lia|done].
  rewrite st_bind_run. cbn [on_fsm]. rewrite st_bind_run.
  pose proof (po_in _ _ Hok) as Hin. rewrite !Forall_app in Hin. destruct Hin as (Ho & Hu & Hf).
  set (l := uncheckpointedFreePageRanges (freeSpaceManager pm)).
  change (uncheckpointed pm) with l in *.
  destruct (mergePageRanges_ok l (set_uncheckpointed [] m1) pf1) as
    (m' & pf' & E & Hh' & Hm' & Hfsm' & _ & HN' & Hin' & Hcov & Htail & Hgaps & Hend);
    [apply Hok1|by apply set_uncheckpointed_ok, Hok1| |].
  { rewrite En. change (freePages (set_uncheckpointed [] m1)) with (freePages m1). rewrite Ef.
    by apply Forall_app_2. }
  change (freePages (set_uncheckpointed [] m1)) with (freePages m1) in *. rewrite Ef in *. rewrite En in *.
  rewrite E. cbn [on_fsm]. eexists _, _. split; [reflexivity|]. split; [done|].
  set (pm' := mkPM _ _ _ _). change (fhNumPages (fh pf')) with (fileNumPages pm') in *.
  change (freePages m') with (free pm') in *.
  assert (∀ p, cover p (free pm') = if p <? fileNumPages pm' then cover p (l ++ free pm) else 0%nat) as Hc.
  { intros p. rewrite Hcov. destruct (p <? _); [|done]. unfold union_cover.
    pose proof (po_cover_all _ _ p Hok) as Hone. rewrite cover_app in Hone.
    change (uncheckpointed pm) with l in Hone. case_bool_decide; lia. }
  split; [|split; [done|by split_and!]].
  apply pm_ok_intro; [done|exact (eq_trans Hm' (po_disk _ _ Hok1))|by apply set_uncheckpointed_ok| |].
  - pose proof (po_pos _ _ Hok) as Hp. rewrite !Forall_app in Hp. destruct Hp as (Po & _ & _).
    change (uncheckpointed pm') with (@nil PageRange). apply Forall_app_2; [done|].
    eapply Forall_impl; [exact Hin'|]. by intros r (? & ? & ?).
  - intros p. change (uncheckpointed pm') with (@nil PageRange). rewrite cover_app. cbn [app].
    rewrite Hc. pose proof (po_cover_all _ _ p Hok) as Hone. rewrite cover_app in Hone.
    change (uncheckpointed pm) with l in Hone.
    destruct (Z.ltb_spec p (fileNumPages pm')).
    + rewrite Hone. repeat case_bool_decide; lia.
    + rewrite (bool_decide_false (0 ≤ p < fileNumPages pm')) by lia.
      case_bool_decide; [specialize (Htail p ltac:(lia))|]; lia.
Qed.

(** ** Histories *)

Lemma pm_step_ok pm owned pm' owned' :
  pm_ok pm owned → pm_step pm owned pm' owned' → pm_ok pm' owned'.
Proof.
  intros Hok [n pm1 r Hn E|r o' pm1 res Hg E|r o' pm1 res Hg E|pm1 res E|pm1 res E|pm1 res E|n].
  - destruct (allocatePageRange_ok pin pm owned n Hok Hn) as [(pm2 & r2 & E2 & _ & ? & _)|(pm2 & E2 & _)];
      rewrite E2 in E; [by injection E as <- <-|done].
  - destruct (freePageRange_ok pm owned r o' Hok Hg) as (pm2 & E2 & ? & _).
    rewrite E2 in E. by injection E as <- <-.
  - destruct (freeImmediately_ok pm owned r o' Hok Hg) as (pm2 & res2 & E2 & _ & ? & _).
    rewrite E2 in E. by injection E as <- <-.
  - destruct (finalizeCheckpoint_ok pm owned Hok) as (pm2 & res2 & E2 & _ & ? & _).
    rewrite E2 in E. by injection E as <- <-.
  - destruct (finalizeCheckpoint_ok pm owned Hok) as (pm2 & res2 & E2 & _ & Hok2 & _).
    unfold pm_mergeFreePages in E. rewrite merge_is_finalize in E. rewrite st_bind_run in E.
    unfold pm_finalizeCheckpoint in E2. rewrite E2 in E.
    destruct res2; injection E as <- _; [|done|done].
    destruct Hok2. by constructor.
  - injection E as <- _. apply (pm_ok_regroup pm owned); [exact Hok|apply Hok|apply Hok
      |by apply set_uncheckpointed_ok, Hok|done|..].
    + pose proof (po_pos _ _ Hok) as Hp. rewrite !Forall_app in *. destruct Hp as (? & ? & ?).
      split_and!; [done|done|constructor|done].
    + intros p. change (free (mkPM _ _ _ _)) with (free pm). change (uncheckpointed (mkPM _ _ _ _)) with (@nil PageRange).
      rewrite !cover_app. change (cover p []) with 0%nat. lia.
  - destruct Hok. by constructor.
Qed.

Lemma reachable_ok pm owned : pm_reachable pm owned → pm_ok pm owned.
Proof.
  induction 1 as [pf v Hok Hm|pm owned pm' owned' _ IH Hs]; [by apply opened_ok|].
  by apply (pm_step_ok pm owned).
Qed.

(** The other operations never have an undefined outcome, and an allocation that is refused
    leaves every range as it is; the pages that it had added belong to none. *)
Lemma refused_pages pm owned pm' :
  pm_ok pm owned → uncheckpointed pm' = uncheckpointed pm → free pm' = free pm →
  ∀ p, 0 ≤ p < fileNumPages pm' → cover p (owned ++ uncheckpointed pm' ++ free pm') = (if p <? fileNumPages pm then 1%nat else 0%nat).
Proof.
  intros Hok -> -> p Hp. rewrite (po_cover_all _ _ p Hok). destruct (Z.ltb_spec p (fileNumPages pm)); case_bool_decide; lia.
Qed.

Lemma mergeFreePages_defined pm owned : pm_ok pm owned → (pm_mergeFreePages madvise pm).2 ≠ UB.
Proof.
  intros Hok. destruct (finalizeCheckpoint_ok pm owned Hok) as (pm2 & res2 & E2 & Hub & _).
  unfold pm_mergeFreePages. rewrite merge_is_finalize, st_bind_run.
  unfold pm_finalizeCheckpoint in E2. rewrite E2. by destruct res2.
Qed.

(** C10: After any history of allocations that are granted, frees, checkpoints that end,
    merge or roll back, evictions that fail included, every page of the file is in exactly
    one range: in use, freed since the last checkpoint, or free; all ranges lie in the
    file; the free lists are sorted sets of ranges of their level, [numEntries] counts
    them, and every page has a frame of its own.  From there an allocation is granted, and
    the history goes on, or refused because the region has no frame group left: then
    the ranges are as before, and the pages it had added to the file are in none.  No other
    operation has an undefined outcome.  What comes after a refused allocation is left out:
    see failed_group_aliases_frames. *)
Theorem pages_partitioned pm owned :
  pm_reachable pm owned →
  (∀ p, 0 ≤ p < fileNumPages pm → cover p (owned ++ uncheckpointed pm ++ free pm) = 1%nat) ∧
  Forall (range_in (fileNumPages pm)) (owned ++ uncheckpointed pm ++ free pm) ∧
  (∀ level l, freeLists (freeSpaceManager pm) !! level = Some l → level_ok level l) ∧
  getNumEntries (freeSpaceManager pm) = wrap 64 (Z.of_nat (length (free pm))) ∧
  (∀ p q, 0 ≤ p < fileNumPages pm → 0 ≤ q < fileNumPages pm → p ≠ q →
     ∃ f g, getFrameIdx (fh (fileHandle pm)) p = Ok f ∧ getFrameIdx (fh (fileHandle pm)) q = Ok g ∧ f ≠ g) ∧
  (∀ n, 0 ≤ n < 2 ^ 32 → match allocatePageRange pin n pm with
    | (pm', Ok r) => pm_step pm owned pm' (if 0 <? n then r :: owned else owned)
    | (pm', Throw e) => e = region_full ∧ uncheckpointed pm' = uncheckpointed pm ∧ free pm' = free pm ∧
        fileNumPages pm ≤ fileNumPages pm' < fileNumPages pm + n ∧
        ∀ p, 0 ≤ p < fileNumPages pm' →
          cover p (owned ++ uncheckpointed pm' ++ free pm') = (if p <? fileNumPages pm then 1%nat else 0%nat)
    | (_, UB) => False
    end) ∧
  (∀ r owned', gives_up owned r owned' →
     (freePageRange r pm).2 = Ok () ∧ (freeImmediatelyRewritablePageRange madvise r pm).2 ≠ UB) ∧
  (pm_finalizeCheckpoint madvise pm).2 ≠ UB ∧ (pm_mergeFreePages madvise pm).2 ≠ UB.
Proof.
  intros Hreach. pose proof (reachable_ok _ _ Hreach) as Hr. pose proof Hr as [Hh ? [] ? ?]. split_and!; [done..| | | | |].
  - intros p q Hp Hq Hne. unfold fileNumPages in *. pose proof (ho_pages _ Hh).
    destruct (handle_group (fileHandle pm) p Hh ltac:(lia)) as (g & _ & E).
    destruct (handle_group (fileHandle pm) q Hh ltac:(lia)) as (g' & _ & E').
    eexists _, _. split_and!; [done..|]. intros Ef. rewrite <-Ef in E'.
    by apply Hne, (getFrameIdx_inj (fileHandle pm) p q _ Hh Hp Hq E).
  - intros n Hn. destruct (allocatePageRange_ok pin pm owned n Hr Hn) as [(pm2 & r2 & E2 & _)|(pm2 & E2 & Eu & Ef & En)]; rewrite E2.
    + by apply step_allocate.
    + split_and!; try done; [lia..|]. by apply refused_pages.
  - intros r owned' Hg. destruct (freePageRange_ok pm owned r owned' Hr Hg) as (pm2 & E2 & _).
    destruct (freeImmediately_ok pm owned r owned' Hr Hg) as (pm3 & res3 & E3 & Hub & _). by rewrite E2, E3.
  - destruct (finalizeCheckpoint_ok pm owned Hr) as (pm2 & res2 & E2 & Hub & _). by rewrite E2.
  - by apply (mergeFreePages_defined pm owned).
Qed.

(** C11: An allocation of [n] pages from a reachable state returns a range of [n] pages of
    the file none of which is in use or freed since the last checkpoint; it is the
    smallest free range that is large enough, or the end of the file when there is none.
    The only failure is a memory region without frame groups. *)
Theorem allocation_disjoint pm owned n pm' res :
  pm_reachable pm owned → 0 < n < 2 ^ 32 → allocatePageRange pin n pm = (pm', res) →
  res = Throw region_full ∨
  ∃ r, res = Ok r ∧ numPages r = n ∧ range_in (fileNumPages pm') r ∧
    (∀ p, covers p r = true → cover p owned = 0%nat ∧ cover p (uncheckpointed pm) = 0%nat) ∧
    ((∃ chunk, chunk ∈ free pm ∧ startPageIdx r = startPageIdx chunk ∧ n ≤ numPages chunk ∧
        (∀ e, e ∈ free pm → n ≤ numPages e → numPages chunk ≤ numPages e) ∧
        fileNumPages pm' = fileNumPages pm) ∨
     ((∀ e, e ∈ free pm → numPages e < n) ∧ startPageIdx r = fileNumPages pm ∧
        fileNumPages pm' = fileNumPages pm + n)).
Proof.
  intros Hr%reachable_ok Hn E.
  destruct (allocatePageRange_ok pin pm owned n Hr ltac:(lia))
    as [(pm2 & r & E2 & Er & Hok & Eu & Hwhere)|(pm2 & E2 & _)]; rewrite E2 in E; injection E as <- <-; [|by left].
  right. exists r. rewrite (proj2 (Z.ltb_lt 0 n)) in Hok by lia. split_and!; [done|done| | |].
  - pose proof (po_in _ _ Hok) as Hin. by apply Forall_cons_1 in Hin as [? _].
  - intros p Hp. pose proof (po_cover_all _ _ p Hok) as Hc.
    rewrite cover_app, cover_cons, Hp, Eu, !cover_app in Hc. case_bool_decide; lia.
  - destruct Hwhere as [(chunk & _ & ? & ? & ? & ? & ?)|(Hno & ? & ?)]; [left; by exists chunk|right].
    split_and!; [|done|done]. intros e He. apply Hno; [done|lia].
Qed.

(** C32: When a checkpoint ends and no eviction fails, the ranges freed since the last
    one and the free ranges become maximal free ranges that neither overlap nor touch;
    free pages at the end of the file are cut off the file, and pages in use are not
    affected. *)
Theorem finalize_coalesces pm owned pm' :
  pm_reachable pm owned → pm_finalizeCheckpoint madvise pm = (pm', Ok ()) →
  uncheckpointed pm' = [] ∧
  (∀ r1 r2, r1 ∈ free pm' → r2 ∈ free pm' →
     r1 = r2 ∨ range_end r1 < startPageIdx r2 ∨ range_end r2 < startPageIdx r1) ∧
  Forall (λ r, range_end r < fileNumPages pm') (free pm') ∧
  (∀ p, 0 ≤ p < fileNumPages pm' → cover p (free pm') = cover p (uncheckpointed pm ++ free pm)) ∧
  (∀ p, fileNumPages pm' ≤ p < fileNumPages pm → cover p (uncheckpointed pm ++ free pm) = 1%nat) ∧
  Forall (range_in (fileNumPages pm')) owned.
Proof.
  intros Hr%reachable_ok E.
  destruct (finalizeCheckpoint_ok pm owned Hr) as (pm2 & res & E2 & _ & Hok & HN & Hres).
  rewrite E2 in E. injection E as <- ->. destruct Hres as (Hu & Hg & He & Hc).
  split_and!; try done.
  - intros p Hp. by rewrite Hc, (proj2 (Z.ltb_lt p _)) by lia.
  - intros p Hp. pose proof (po_cover_all _ _ p Hok) as H1. pose proof (po_cover_all _ _ p Hr) as H2.
    rewrite cover_app in H1, H2. pose proof (handle_pages_bound _ (po_handle _ _ Hok)).
    unfold fileNumPages in *. repeat case_bool_decide; lia.
  - pose proof (po_in _ _ Hok) as Hin. by apply Forall_app in Hin as [? _].
Qed.

(** C35: Recovery.  From a file that grew after the checkpoint it is opened at, with the
    free ranges read from the checkpoint, which with the ranges in use cover each of its
    pages once, [reclaimTailPagesIfNeeded] leaves a state in which every page is in use or
    free again, pages beyond the checkpoint are no longer part of the file or free, and
    nothing in use is freed.  It throws only what a failing eviction throws, and then the
    tail still waits to be freed and nothing else has changed; if no eviction can fail, it
    returns. *)
Theorem reclaim_recovers pf owned free0 m v n :
  handle_ok pf → isInMemoryMode (fh pf) = false → fsm_ok m →
  freePages m = free0 → uncheckpointedFreePageRanges m = [] →
  Forall (range_in n) owned → Forall (range_in (fhNumPages (fh pf))) free0 → 0 < n →
  (∀ p, (cover p (owned ++ free0) ≤ 1)%nat) → (∀ p, 0 ≤ p < n → cover p (owned ++ free0) = 1%nat) →
  n < fhNumPages (fh pf) →
  match reclaimTailPagesIfNeeded madvise n (mkPM m pf v v) with
  | (pm', Ok _) => pm_ok pm' owned ∧ uncheckpointed pm' = [] ∧
      ∀ p, 0 ≤ p < n → p < fileNumPages pm' → cover p (free pm') = cover p free0
  | (pm', Throw e) => (∃ frame, madvise frame = Throw e) ∧ fileNumPages pm' = fhNumPages (fh pf) ∧ free pm' = free0 ∧
      uncheckpointed pm' = [mkRange n (fhNumPages (fh pf) - n)]
  | (_, UB) => False
  end.
Proof.
  intros Hh Hm Hf Ef Eu Ho Hin Hn Hle Hone Hlt. unfold reclaimTailPagesIfNeeded.
  rewrite (proj2 (Z.eqb_neq n 0)) by lia. rewrite st_bind_run. cbn [st_get fileHandle].
  rewrite (proj2 (Z.leb_gt _ _)) by lia. rewrite st_bind_run. cbn [pm_fsm st_modify freeSpaceManager].
  pose proof (handle_pages_bound _ Hh) as HN. set (N := fhNumPages (fh pf)) in *.
  rewrite wrap_id by (unfold in_u; lia). set (tail := mkRange n (N - n)).
  unfold addUncheckpointedFreePages. rewrite Eu. cbn [app].
  rewrite st_bind_run, merge_is_finalize. unfold pm_both, finalizeCheckpoint. cbn [freeSpaceManager fileHandle].
  rewrite st_bind_run. cbn [st_get fst snd]. rewrite st_bind_run.
  pose proof (evict_all_ok madvise madvise_ok [tail] (set_uncheckpointed [tail] m) pf Hh) as (R1 & R2 & R3).
  cbn [uncheckpointedFreePageRanges set_uncheckpointed].
  destruct (evict_all madvise _ _) as [[m1 pf1] res]. simpl in R1, R2, R3.
  pose proof (same_pages_ok _ _ R3 Hh) as Hh1. pose proof (set_uncheckpointed_ok [tail] m Hf) as Hf0.
  pose proof (same_lists_ok _ _ R2 Hf0) as Hf1. destruct R2 as (E1 & E1' & _).
  destruct R3 as (En & _ & _ & _ & S5 & S6 & _).
  destruct res as [[]|e|]; [| |done].
  2:{ split_and!; [done|exact En| |exact E1']. rewrite <- Ef. unfold free, freePages. cbn. by rewrite E1. }
  rewrite st_bind_run. cbn [on_fsm]. rewrite st_bind_run.
  destruct (mergePageRanges_ok [tail] (set_uncheckpointed [] m1) pf1) as
    (m' & pf' & E & Hh' & Hm' & Hfsm' & _ & HN' & Hin' & Hcov & Htail & _);
    [done|by apply set_uncheckpointed_ok| |].
  all: assert (freePages (set_uncheckpointed [] m1) = free0) as Ef1
    by (rewrite <-Ef; unfold freePages; simpl; by rewrite E1).
  { rewrite En, Ef1. constructor; [|done]. unfold range_in, range_end, tail. simpl. lia. }
  rewrite E. cbn [on_fsm bumpVersion st_modify].
  rewrite Ef1, En in *. fold N in HN', Htail. set (pm' := mkPM _ _ _ _).
  change (fhNumPages (fh pf')) with (fileNumPages pm') in *. change (freePages m') with (free pm') in *.
  assert (∀ p, covers p tail = bool_decide (n ≤ p < N)) as Htl.
  { intros p. apply Bool.eq_iff_eq_true. rewrite covers_true, bool_decide_eq_true.
    unfold range_end, tail. simpl. lia. }
  assert (∀ p, ¬ 0 ≤ p < n → cover p owned = 0%nat) as Ho0 by (intros p Hp; by apply (cover_out n)).
  assert (∀ p, ¬ 0 ≤ p < N → cover p free0 = 0%nat) as Hf00 by (intros p Hp; by apply (cover_out N)).
  assert (∀ p, cover p (owned ++ free pm') = (if bool_decide (0 ≤ p < fileNumPages pm') then 1%nat else 0%nat) ∧
    (0 ≤ p < n → p < fileNumPages pm' → cover p (free pm') = cover p free0)) as Hall.
  { intros p. rewrite cover_app, Hcov. unfold union_cover. cbn [app]. rewrite cover_cons, Htl.
    specialize (Hle p). specialize (Hone p). specialize (Htail p). specialize (Ho0 p). specialize (Hf00 p).
    cbn [app] in Htail. rewrite cover_cons, Htl in Htail. rewrite cover_app in Hle, Hone.
    destruct (Z.ltb_spec p (fileNumPages pm')); repeat case_bool_decide; lia. }
  split; [|split; [reflexivity|intros p; apply Hall]].
  apply pm_ok_intro; [done|exact (eq_trans Hm' (eq_trans (f_equal2 (λ a b, negb a && b) S5 S6) Hm))
    |by apply set_uncheckpointed_ok| |intros p; apply Hall].
  change (uncheckpointed pm') with (@nil PageRange).
  apply Forall_app_2; [|cbn [app]]; (eapply Forall_impl; [eassumption|]; by intros r (? & ? & ?)).
Qed.
End Pages.
