(* ===== verification/PageExamples.v ===== *)
(** * Concrete histories of the page manager

    A small configuration, the instances of the theorems of [PageTheorems] on it, and
    two runs that show defects: a rollback during a checkpoint hands out pages the last
    checkpoint still needs, and an exhausted region leaves a handle whose next page has
    another page's frame. *)

From S2P Require Import Prelude.
From S2P Require Import ConcurrentVector.
From S2P Require Import PageState.
From S2P Require Import FileHandle.
From S2P Require Import FileHandleFacts.
From S2P Require Import FreeSpace.
From S2P Require Import FreeSpaceFacts.
From S2P Require Import PageManager.
From S2P Require Import PageTheorems.

Definition config : PageConfig.
Proof. refine {| LBUG_PAGE_SIZE := 4096; VECTOR_CAPACITY := 2 |}; lia. Defined.
#[local] Existing Instance config.

Definition pin_nothing : Z → stM PageFile () := λ _, mret ().
Definition madvise_succeeds : Z → result () := λ _, Ok ().

Definition emptyFile (maxGroups : Z) : PageFile :=
  mkPF (mkFH false false 0 0 (cv_new initialPageState 0 0) (cv_new 0 0 0)) (mkVM 0 maxGroups) 0.

Lemma emptyFile_ok n : 0 ≤ n ≤ MAX_GROUPS → handle_ok (emptyFile n).
Proof.
  intros Hn. constructor; simpl; try done; try lia; constructor.
Qed.

(** Three pages of a file of five are freed, and a checkpoint ends. *)
Definition pm0 : PageManager := opened (emptyFile 8) 0.
Definition pm1 : PageManager := (allocatePageRange pin_nothing 5 pm0).1.
Definition pm2 : PageManager := (freePageRange (mkRange 1 3) pm1).1.
Definition pm3 : PageManager := (pm_finalizeCheckpoint madvise_succeeds pm2).1.
Definition owned3 : list PageRange := [mkRange 0 1; mkRange 4 1].

Lemma gives_up_middle : gives_up [mkRange 0 5] (mkRange 1 3) owned3.
Proof.
  split; [|repeat constructor]. intros p. unfold owned3. rewrite !cover_cons. unfold covers, range_end. simpl.
  repeat match goal with |- context [?a <=? ?b] => destruct (Z.leb_spec a b)
    | |- context [?a <? ?b] => destruct (Z.ltb_spec a b) end; simpl; lia.
Qed.

Lemma pm2_reachable : pm_reachable pin_nothing madvise_succeeds pm2 owned3.
Proof.
  eapply reach_step; [eapply (reach_step _ _ pm0 [] pm1 [mkRange 0 5])|].
  - apply (reach_opened _ _ (emptyFile 8) 0); [by apply emptyFile_ok|done].
  - apply (step_allocate _ _ pm0 [] 5 pm1 (mkRange 0 5)); [lia|]. vm_compute. reflexivity.
  - eapply (step_free _ _ pm1 [mkRange 0 5]); [apply gives_up_middle|]. reflexivity.
Qed.

Lemma pm3_reachable : pm_reachable pin_nothing madvise_succeeds pm3 owned3.
Proof.
  eapply reach_step; [apply pm2_reachable|]. eapply step_finalize. apply surjective_pairing.
Qed.

Lemma madvise_succeeds_ok frame : madvise_succeeds frame ≠ UB.
Proof. done. Qed.

Example pm3_free : free pm3 = [mkRange 1 3] ∧ uncheckpointed pm3 = [].
Proof. vm_compute. done. Qed.

Lemma pages_partitioned_witness :
  cover 2 (owned3 ++ uncheckpointed pm3 ++ free pm3) = 1%nat ∧
  ∃ pm' r, allocatePageRange pin_nothing 2 pm3 = (pm', Ok r) ∧ pm_step pin_nothing madvise_succeeds pm3 owned3 pm' (r :: owned3).
Proof.
  destruct (pages_partitioned pin_nothing madvise_succeeds madvise_succeeds_ok pm3 owned3 pm3_reachable)
    as (Hone & _ & _ & _ & _ & Hall & _).
  split; [apply Hone; vm_compute; split; [discriminate|reflexivity]|].
  specialize (Hall 2 ltac:(lia)). assert (is_ok (allocatePageRange pin_nothing 2 pm3).2 = true) as E by (vm_compute; reflexivity).
  destruct (allocatePageRange pin_nothing 2 pm3) as [pm' [r|e|]]; [exists pm', r; split; [reflexivity|exact Hall]|discriminate E..].
Defined.

Lemma allocation_disjoint_witness :
  ∃ r, (allocatePageRange pin_nothing 2 pm3).2 = Ok r ∧ numPages r = 2 ∧ cover (startPageIdx r) owned3 = 0%nat.
Proof.
  destruct (allocation_disjoint pin_nothing madvise_succeeds madvise_succeeds_ok pm3 owned3 2
    (allocatePageRange pin_nothing 2 pm3).1 (allocatePageRange pin_nothing 2 pm3).2 pm3_reachable
    ltac:(lia) ltac:(apply surjective_pairing)) as [E|(r & E & En & Hin & Hfresh & _)].
  - exfalso. revert E. vm_compute. discriminate.
  - exists r. split; [exact E|]. split; [exact En|]. destruct (Hfresh (startPageIdx r)) as [Hzero _].
    + apply covers_true. destruct Hin as (? & ? & ?). unfold range_end in *. lia.
    + exact Hzero.
Defined.

Lemma finalize_coalesces_witness : cover 1 (free pm3) = cover 1 (uncheckpointed pm2 ++ free pm2).
Proof.
  destruct (finalize_coalesces pin_nothing madvise_succeeds madvise_succeeds_ok pm2 owned3 pm3 pm2_reachable)
    as (_ & _ & _ & Hcov & _).
  - vm_compute. reflexivity.
  - apply Hcov. vm_compute. split; [discriminate|reflexivity].
Defined.

(** Opened with two pages of five missing in the checkpoint. *)
Definition grownFile : PageFile := fileHandle pm1.
Lemma grownFile_ok : handle_ok grownFile ∧ isInMemoryMode (fh grownFile) = false.
Proof.
  assert (pm_reachable pin_nothing madvise_succeeds pm1 [mkRange 0 5]) as Hr.
  { eapply (reach_step _ _ pm0 []).
    - apply (reach_opened _ _ (emptyFile 8) 0); [by apply emptyFile_ok|done].
    - apply (step_allocate _ _ pm0 [] 5 pm1 (mkRange 0 5)); [lia|]. vm_compute. reflexivity. }
  apply (reachable_ok pin_nothing madvise_succeeds madvise_succeeds_ok) in Hr. split; apply Hr.
Qed.

Lemma reclaim_recovers_witness :
  (reclaimTailPagesIfNeeded madvise_succeeds 3 (mkPM emptyFSM grownFile 0 0)).2 = Ok () ∧
  pm_ok (reclaimTailPagesIfNeeded madvise_succeeds 3 (mkPM emptyFSM grownFile 0 0)).1 [mkRange 0 3] ∧
  fileNumPages (reclaimTailPagesIfNeeded madvise_succeeds 3 (mkPM emptyFSM grownFile 0 0)).1 = 3.
Proof.
  assert (∀ p, cover p [mkRange 0 3] = if bool_decide (0 ≤ p < 3) then 1%nat else 0%nat) as Hc.
  { intros p. rewrite cover_cons. unfold covers, range_end. cbn [startPageIdx numPages].
    change (cover p []) with 0%nat.
    case_bool_decide; destruct (Z.leb_spec 0 p), (Z.ltb_spec p (0 + 3)); cbn [andb]; lia. }
  pose proof (reclaim_recovers madvise_succeeds madvise_succeeds_ok grownFile [mkRange 0 3] [] emptyFSM 0 3) as Hrec.
  assert ((reclaimTailPagesIfNeeded madvise_succeeds 3 (mkPM emptyFSM grownFile 0 0)).2 = Ok ()) as E by (vm_compute; reflexivity).
  split; [exact E|]. split; [|vm_compute; reflexivity].
  destruct (reclaimTailPagesIfNeeded madvise_succeeds 3 (mkPM emptyFSM grownFile 0 0)) as [pm' res]. cbn [fst snd] in *.
  rewrite E in Hrec. apply Hrec.
  - apply grownFile_ok.
  - apply grownFile_ok.
  - apply emptyFSM_ok.
  - reflexivity.
  - reflexivity.
  - repeat constructor; unfold range_end; simpl; lia.
  - constructor.
  - lia.
  - intros p. rewrite app_nil_r, Hc. case_bool_decide; lia.
  - intros p Hp. rewrite app_nil_r, Hc, bool_decide_true by done. done.
  - vm_compute. reflexivity.
Defined.

(** ** Defects *)

(** A checkpoint frees pages 1 to 3, which the last durable checkpoint still refers to
    (here, the ranges that [updateCatalogPageRange] frees).  A transaction rolls back
    before the checkpoint is durable: [LocalStorage::rollback] calls [mergeFreePages],
    and the next allocation returns the pages.  If the checkpoint fails,
    [rollbackCheckpoint] finds nothing to take back. *)
Example rollback_reuses_checkpoint_pages :
  let during := pm2 in
  let after := (pm_mergeFreePages madvise_succeeds during).1 in
  let '(pm, res) := allocatePageRange pin_nothing 3 after in
  res = Ok (mkRange 1 3) ∧ uncheckpointed after = [] ∧
  (pm_rollbackCheckpoint pm).1 = pm.
Proof. vm_compute. done. Qed.

(** A region of one frame group.  The 1025th page is refused, but the capacity of the
    handle has grown: the second attempt succeeds, and the page has the frame of page 0. *)
Definition full_handle : PageFile := (addNewPages pin_nothing 1024 (emptyFile 1)).1.

Example failed_group_aliases_frames :
  let '(pf1, res1) := addNewPages pin_nothing 1 full_handle in
  let '(pf2, res2) := addNewPages pin_nothing 1 pf1 in
  res1 = Throw region_full ∧ res2 = Ok 1024 ∧
  getFrameIdx (fh pf2) 1024 = Ok 0 ∧ getFrameIdx (fh pf2) 0 = Ok 0.
Proof. vm_compute. done. Qed.
