(* ===== verification/Serializer.v ===== *)
(** * Serialization (include/common/serializer/, common/serializer/)

    Byte strings are lists of integers.  [Writer] and [Reader] are the abstract classes;
    their implementations write to a growing buffer, to a file through a page-sized
    buffer and to in-memory pages, and read through a page-sized buffer.  A file is its
    contents; failing system calls and failing allocations are not modelled.
    [Serializer] and [Deserializer] put typed values on top.  [DESER_DEBUG] is the build
    flag that adds labels to the data. *)

From stdpp Require Import pretty.
From Stdlib Require Import Ascii String.
From S2P Require Import Prelude.
From S2P Require Import FileHandle.
#[local] Open Scope nat_scope.
#[local] Open Scope list_scope.

(** [memcpy] of [src] into an array at [off]. *)
Definition memcpy (dst : list Z) (off : nat) (src : list Z) : result (list Z) :=
  if decide (off + List.length src ≤ List.length dst) then Ok (list_inserts off src dst) else UB.

(** Reading [n] bytes of an array at [off]. *)
Definition bytes_at (src : list Z) (off n : nat) : result (list Z) :=
  if decide (off + n ≤ List.length src) then Ok (take n (drop off src)) else UB.

(** The object representation of an unsigned integer of [n] bytes (little-endian). *)
Fixpoint bytes_of (n : nat) (v : Z) : list Z :=
  match n with
  | 0 => []
  | S n => (v mod 256 :: bytes_of n (v / 256))%Z
  end.

Fixpoint value_of (l : list Z) : Z :=
  match l with
  | [] => 0%Z
  | b :: l => (b + 256 * value_of l)%Z
  end.

Definition bytes_of_string (s : string) : list Z := (λ c, Z.of_N (N_of_ascii c)) <$> list_ascii_of_string s.
Definition string_of_bytes (l : list Z) : string :=
  string_of_list_ascii ((λ b, ascii_of_N (Z.to_N b)) <$> l).

(** ** Abstract writers and readers *)

Class Writer (W : Type) : Type := { wr_write : list Z → stM W () }.
Class Reader (R : Type) : Type := { rd_read : nat → stM R (list Z); rd_finished : R → bool }.

(** ** BufferWriter *)

Record BufferWriter : Type := mkBW { maximumSize : Z; blob : list Z }.

(** The loop that doubles the capacity, with the fuel for the doublings; [None] is a
    loop that does not end. *)
Fixpoint double_until (fuel : nat) (need cap : Z) : option Z :=
  match fuel with
  | 0 => None
  | S fuel =>
      let cap := wrap 64 (cap * 2) in
      if bool_decide (cap < need)%Z then double_until fuel need cap else Some cap
  end.

Definition bw_write (buffer : list Z) : stM BufferWriter () := λ w,
  let need := wrap 64 (Z.of_nat (List.length (blob w)) + Z.of_nat (List.length buffer)) in
  let grown := if bool_decide (maximumSize w ≤ need)%Z then double_until 65 need (maximumSize w)
               else Some (maximumSize w) in
  match grown with
  | None => (w, UB)
  | Some cap =>
      if bool_decide (Z.of_nat (List.length (blob w) + List.length buffer) ≤ cap)%Z
      then (mkBW cap (blob w ++ buffer), Ok ())
      else (mkBW cap (blob w), UB)
  end.

#[export] Instance BufferWriter_writer : Writer BufferWriter := {| wr_write := bw_write |}.

Section Files.
Context `{PageConfig}.

Definition BUFFER_SIZE : nat := Z.to_nat LBUG_PAGE_SIZE.

(** A file written at an offset and read at one. *)
Definition writeFile (contents : list Z) (data : list Z) (offset : nat) : list Z :=
  take offset (contents ++ replicate (offset - List.length contents) 0%Z) ++ data ++
  drop (offset + List.length data) contents.
Definition readFromFile (contents : list Z) (size offset : nat) : result (list Z) :=
  bytes_at contents offset size.

(** ** BufferedFileWriter *)

Record BufferedFileWriter : Type := mkBFW {
  bfw_buffer : list Z;
  bfw_fileOffset : nat;
  bfw_bufferOffset : nat;
  bfw_file : list Z;
}.

Definition newBufferedFileWriter (file : list Z) : BufferedFileWriter :=
  mkBFW (replicate BUFFER_SIZE 0%Z) 0 0 file.

Definition bfw_flush (w : BufferedFileWriter) : BufferedFileWriter :=
  if decide (bfw_bufferOffset w = 0) then w
  else mkBFW (replicate BUFFER_SIZE 0%Z) (bfw_fileOffset w + bfw_bufferOffset w) 0
         (writeFile (bfw_file w) (take (bfw_bufferOffset w) (bfw_buffer w)) (bfw_fileOffset w)).

Definition bfw_copy (data : list Z) : stM BufferedFileWriter () :=
  w ← st_get;
  b ← st_lift (memcpy (bfw_buffer w) (bfw_bufferOffset w) data);
  st_put (mkBFW b (bfw_fileOffset w) (bfw_bufferOffset w + List.length data) (bfw_file w)).

Definition bfw_write (data : list Z) : stM BufferedFileWriter () :=
  let size := List.length data in
  if decide (BUFFER_SIZE < size) then
    _ ← st_modify bfw_flush;
    st_modify (λ w, mkBFW (bfw_buffer w) (bfw_fileOffset w + size) (bfw_bufferOffset w)
                      (writeFile (bfw_file w) data (bfw_fileOffset w)))
  else
    w ← st_get;
    if decide (bfw_bufferOffset w + size ≤ BUFFER_SIZE) then bfw_copy data
    else
      let toCopy := BUFFER_SIZE - bfw_bufferOffset w in
      _ ← bfw_copy (take toCopy data);
      _ ← st_modify bfw_flush;
      bfw_copy (drop toCopy data).

Definition bfw_clear (w : BufferedFileWriter) : BufferedFileWriter := mkBFW (bfw_buffer w) 0 0 [].
Definition bfw_getSize (w : BufferedFileWriter) : nat := List.length (bfw_file w) + bfw_bufferOffset w.

#[export] Instance BufferedFileWriter_writer : Writer BufferedFileWriter := {| wr_write := bfw_write |}.

(** ** BufferedFileReader *)

Record BufferedFileReader : Type := mkBFR {
  bfr_buffer : list Z;
  bfr_fileOffset : nat;
  bfr_bufferOffset : nat;
  bfr_bufferSize : nat;
  bfr_fileSize : nat;
  bfr_file : list Z;
}.

Definition past_end (r : BufferedFileReader) : exn :=
  Exn RuntimeException
    ("Reading past the end of the file with size " +:+ pretty (bfr_fileSize r) +:+ " at offset " +:+
     pretty (bfr_fileOffset r)).

Definition readNextPage : stM BufferedFileReader () := λ r,
  if decide (bfr_fileSize r ≤ bfr_fileOffset r) then (r, Throw (past_end r))
  else
    let bufferSize := Nat.min (bfr_fileSize r - bfr_fileOffset r) BUFFER_SIZE in
    match readFromFile (bfr_file r) bufferSize (bfr_fileOffset r) with
    | Ok bytes =>
        match memcpy (bfr_buffer r) 0 bytes with
        | Ok b => (mkBFR b (bfr_fileOffset r + bufferSize) 0 bufferSize (bfr_fileSize r) (bfr_file r), Ok ())
        | _ => (r, UB)
        end
    | _ => (r, UB)
    end.

(** The constructor. *)
Definition newBufferedFileReader (file : list Z) : BufferedFileReader * result () :=
  readNextPage (mkBFR (replicate BUFFER_SIZE 0%Z) 0 0 0 (List.length file) file).

Definition resetReadOffset (fileOffset : nat) (r : BufferedFileReader) : BufferedFileReader :=
  mkBFR (bfr_buffer r) fileOffset 0 0 (bfr_fileSize r) (bfr_file r).

(** [toCopy = bufferSize - bufferOffset] is unsigned: it wraps when the offset is past
    the bytes read. *)
Definition bfr_read (size : nat) : stM BufferedFileReader (list Z) :=
  r ← st_get;
  if decide (BUFFER_SIZE < size) then
    let off := bfr_fileOffset r - bfr_bufferSize r + bfr_bufferOffset r in
    data ← st_lift (readFromFile (bfr_file r) size off);
    _ ← st_put (mkBFR (bfr_buffer r) (off + size) (bfr_bufferSize r) (bfr_bufferSize r) (bfr_fileSize r) (bfr_file r));
    mret data
  else if decide (bfr_bufferOffset r + size ≤ bfr_bufferSize r) then
    data ← st_lift (bytes_at (bfr_buffer r) (bfr_bufferOffset r) size);
    _ ← st_put (mkBFR (bfr_buffer r) (bfr_fileOffset r) (bfr_bufferOffset r + size) (bfr_bufferSize r)
                  (bfr_fileSize r) (bfr_file r));
    mret data
  else if decide (bfr_bufferSize r < bfr_bufferOffset r) then st_lift UB
  else
    let toCopy := bfr_bufferSize r - bfr_bufferOffset r in
    first ← st_lift (bytes_at (bfr_buffer r) (bfr_bufferOffset r) toCopy);
    _ ← st_put (mkBFR (bfr_buffer r) (bfr_fileOffset r) (bfr_bufferOffset r + toCopy) (bfr_bufferSize r)
                  (bfr_fileSize r) (bfr_file r));
    _ ← readNextPage;
    r ← st_get;
    let remaining := size - toCopy in
    second ← st_lift (bytes_at (bfr_buffer r) 0 remaining);
    _ ← st_put (mkBFR (bfr_buffer r) (bfr_fileOffset r) (bfr_bufferOffset r + remaining) (bfr_bufferSize r)
                  (bfr_fileSize r) (bfr_file r));
    mret (first ++ second).

Definition bfr_finished (r : BufferedFileReader) : bool :=
  bool_decide (bfr_bufferSize r ≤ bfr_bufferOffset r) && bool_decide (bfr_fileSize r ≤ bfr_fileOffset r).

Definition getReadOffset (r : BufferedFileReader) : nat :=
  bfr_fileOffset r - bfr_bufferSize r + bfr_bufferOffset r.

#[export] Instance BufferedFileReader_reader : Reader BufferedFileReader :=
  {| rd_read := bfr_read; rd_finished := bfr_finished |}.

(** ** BufferReader *)

Record BufferReader : Type := mkBR { br_data : list Z; br_readSize : nat }.

Definition br_read (size : nat) : stM BufferReader (list Z) :=
  r ← st_get;
  data ← st_lift (bytes_at (br_data r) (br_readSize r) size);
  _ ← st_put (mkBR (br_data r) (br_readSize r + size));
  mret data.

Definition br_finished (r : BufferReader) : bool := bool_decide (List.length (br_data r) ≤ br_readSize r).

#[export] Instance BufferReader_reader : Reader BufferReader :=
  {| rd_read := br_read; rd_finished := br_finished |}.

(** ** InMemFileWriter

    [allocateBuffer(false, LBUG_PAGE_SIZE)] does not clear the page: [garbage] is what
    it contains. *)
Variable garbage : list Z.

Record InMemFileWriter : Type := mkIMW { pages : list (list Z); pageOffset : nat }.

Definition needNewBuffer (size : nat) (w : InMemFileWriter) : bool :=
  bool_decide (pages w = []) || bool_decide (BUFFER_SIZE < pageOffset w + size).

Definition copy_to_last (data : list Z) : stM InMemFileWriter () :=
  w ← st_get;
  lst ← st_lift (deref (last (pages w)));
  page ← st_lift (memcpy lst (pageOffset w) data);
  st_put (mkIMW (<[List.length (pages w) - 1 := page]> (pages w)) (pageOffset w)).

Definition advancePage (n : nat) : stM InMemFileWriter () :=
  st_modify (λ w, mkIMW (pages w) (pageOffset w + n)).

(** The loop over [remaining]; [data] is what has not been written yet, [size] the size
    of the whole. *)
Fixpoint imw_loop (fuel : nat) (size : nat) (data : list Z) : stM InMemFileWriter () :=
  match fuel, data with
  | _, [] => mret ()
  | 0, _ => st_lift UB
  | S fuel, _ =>
      w ← st_get;
      data ← (if needNewBuffer size w then
        data ← (if decide (pages w = []) then mret data
                else
                  let toCopy := Nat.min size (BUFFER_SIZE - pageOffset w) in
                  _ ← copy_to_last (take toCopy data);
                  mret (drop toCopy data));
        _ ← st_modify (λ w, mkIMW (pages w ++ [garbage]) 0);
        mret data
      else mret data);
      w ← st_get;
      let toCopy := Nat.min (List.length data) (BUFFER_SIZE - pageOffset w) in
      _ ← copy_to_last (take toCopy data);
      _ ← advancePage toCopy;
      imw_loop fuel size (drop toCopy data)
  end.

Definition imw_write (data : list Z) : stM InMemFileWriter () :=
  imw_loop (List.length data) (List.length data) data.

Definition getNumPagesToFlush (w : InMemFileWriter) : nat := List.length (pages w).
Definition imw_getSize (w : InMemFileWriter) : nat :=
  (if decide (1 < List.length (pages w)) then BUFFER_SIZE * (List.length (pages w) - 1) else 0) + pageOffset w.

(** [flush(Writer&)]: what is written to the other writer. *)
Definition imw_flushed (w : InMemFileWriter) : list Z :=
  concat (imap (λ i page, take (if decide (i = List.length (pages w) - 1) then pageOffset w else BUFFER_SIZE) page)
            (pages w)).

#[export] Instance InMemFileWriter_writer : Writer InMemFileWriter := {| wr_write := imw_write |}.
End Files.
