(* ===== verification/SerializerFacts.v ===== *)
(** * What writers and readers promise

    [WriterLaws]: a writer appends what it is given to its contents.  [ReaderLaws]: a
    reader hands out what remains, front first.  All implementations satisfy them, so
    what is proved of a serializer against the classes holds for each. *)

From Stdlib Require Import Ascii String.
From S2P Require Import Prelude.
From S2P Require Import FileHandle.
From S2P Require Import Serializer.
#[local] Open Scope nat_scope.
#[local] Open Scope list_scope.

Class WriterLaws (W : Type) `{Writer W} : Type := {
  wr_ok : W → Prop;
  wr_contents : W → list Z;
  wr_cap : Z;      (** contents shorter than this are written as they are *)
  wr_write_spec w bs :
    wr_ok w → (Z.of_nat (List.length (wr_contents w) + List.length bs) < wr_cap)%Z →
    ∃ w', wr_write bs w = (w', Ok ()) ∧ wr_ok w' ∧ wr_contents w' = wr_contents w ++ bs;
}.

Class ReaderLaws (R : Type) `{Reader R} : Type := {
  rd_ok : R → Prop;
  rd_remaining : R → list Z;
  rd_read_spec r bs rest :
    rd_ok r → rd_remaining r = bs ++ rest →
    ∃ r', rd_read (List.length bs) r = (r', Ok bs) ∧ rd_ok r' ∧ rd_remaining r' = rest;
  rd_finished_spec r : rd_ok r → rd_finished r = bool_decide (rd_remaining r = []);
}.

(** ** Bytes *)

Lemma length_bytes_of n v : List.length (bytes_of n v) = n.
Proof. revert v. induction n as [|n IH]; intros v; simpl; [done|by rewrite IH]. Qed.

Lemma value_of_bytes_of n v : (0 ≤ v < 256 ^ Z.of_nat n)%Z → value_of (bytes_of n v) = v.
Proof.
  revert v. induction n as [|n IH]; intros v Hv; [simpl in *; lia|].
  cbn [bytes_of value_of]. rewrite Nat2Z.inj_succ, Z.pow_succ_r in Hv by lia.
  rewrite IH; [pose proof (Z.div_mod v 256); lia|].
  split; [apply Z.div_pos; lia|apply Z.div_lt_upper_bound; lia].
Qed.

Lemma string_of_bytes_of_string s : string_of_bytes (bytes_of_string s) = s.
Proof.
  unfold string_of_bytes, bytes_of_string. rewrite <-list_fmap_compose.
  assert ((λ b, ascii_of_N (Z.to_N b)) ∘ (λ c, Z.of_N (N_of_ascii c)) <$> list_ascii_of_string s =
    list_ascii_of_string s) as ->.
  { induction (list_ascii_of_string s) as [|c l IH]; [done|].
    rewrite fmap_cons. f_equal; [|exact IH]. unfold compose. by rewrite N2Z.id, ascii_N_embedding. }
  apply string_of_list_ascii_of_string.
Qed.

Lemma length_bytes_of_string s : List.length (bytes_of_string s) = String.length s.
Proof. unfold bytes_of_string. rewrite length_fmap. induction s; simpl; auto. Qed.

Lemma memcpy_ok dst off src :
  off + List.length src ≤ List.length dst →
  memcpy dst off src = Ok (take off dst ++ src ++ drop (off + List.length src) dst).
Proof.
  intros Hle. unfold memcpy. rewrite decide_True by done. f_equal.
  apply list_eq. intros i. destruct (decide (i < off)) as [H1|H1].
  - rewrite list_lookup_inserts_lt, lookup_app_l, lookup_take by (rewrite ?length_take; lia).
    by rewrite decide_True.
  - rewrite (lookup_app_r (take _ _)), length_take, Nat.min_l by (rewrite ?length_take; lia).
    destruct (decide (i < off + List.length src)).
    + rewrite list_lookup_inserts, lookup_app_l by lia. done.
    + rewrite list_lookup_inserts_ge, lookup_app_r, lookup_drop by lia. f_equal. lia.
Qed.

Lemma bytes_at_ok src off n :
  off + n ≤ List.length src → bytes_at src off n = Ok (take n (drop off src)).
Proof. intros. unfold bytes_at. by rewrite decide_True. Qed.

(** ** BufferWriter *)

Lemma double_until_ok fuel need cap :
  (0 < cap)%Z → (need < 2 ^ 63)%Z → (cap < 2 ^ 64)%Z → (need ≤ cap * 2 ^ Z.of_nat fuel)%Z → 0 < fuel →
  ((need ≤ cap)%Z → (cap < 2 ^ 63)%Z) →
  ∃ cap', double_until fuel need cap = Some cap' ∧ (0 < cap' < 2 ^ 64)%Z ∧ (need ≤ cap')%Z.
Proof.
  revert cap. induction fuel as [|fuel IH]; intros cap Hc Hn Hc' Hf Hpos Hbig; [lia|].
  cbn [double_until]. assert (cap < 2 ^ 63)%Z by lia.
  rewrite wrap_id by (unfold in_u; lia). case_bool_decide as Hlt.
  - rewrite Nat2Z.inj_succ, Z.pow_succ_r in Hf by lia.
    destruct fuel as [|fuel]; [simpl in Hf; lia|]. apply IH; lia.
  - eexists. split; [done|]. lia.
Qed.

#[export] Program Instance BufferWriter_laws : WriterLaws BufferWriter := {|
  wr_ok w := (0 < maximumSize w < 2 ^ 64)%Z ∧ (Z.of_nat (List.length (blob w)) ≤ maximumSize w)%Z;
  wr_contents := blob;
  wr_cap := 2 ^ 62;
|}.
Next Obligation.
  intros w bs [Hm Hb] Hlen. simpl in *. unfold bw_write. rewrite Nat2Z.inj_add in Hlen.
  rewrite wrap_id by (unfold in_u; lia). case_bool_decide as Hge.
  - destruct (double_until_ok 65 (Z.of_nat (List.length (blob w)) + Z.of_nat (List.length bs)) (maximumSize w))
      as (cap & -> & Hcap & Hneed); [lia..| |lia|lia|].
    { change (2 ^ Z.of_nat 65)%Z with (2 ^ 65)%Z. nia. }
    rewrite bool_decide_true by lia. eexists. split; [done|]. simpl. rewrite length_app. split; [lia|done].
  - rewrite bool_decide_true by lia. eexists. split; [done|]. simpl. rewrite length_app. split; [lia|done].
Qed.

(** ** BufferReader *)

#[export] Program Instance BufferReader_laws : ReaderLaws BufferReader := {|
  rd_ok r := br_readSize r ≤ List.length (br_data r);
  rd_remaining r := drop (br_readSize r) (br_data r);
|}.
Next Obligation.
  intros r bs rest Hok E. simpl in *. unfold br_read. st_run.
  pose proof (f_equal (@List.length Z) E) as Hlen. rewrite length_drop, length_app in Hlen.
  rewrite bytes_at_ok by lia. st_run. eexists. rewrite E, take_app_length. split; [done|]. simpl.
  split; [lia|]. rewrite <-drop_drop, E. apply drop_app_length.
Qed.
Next Obligation.
  intros r Hok. simpl in *. unfold br_finished. apply bool_decide_ext.
  rewrite <-length_zero_iff_nil, length_drop. lia.
Qed.

Section Files.
Context `{PageConfig}.

Lemma BUFFER_SIZE_pos : 0 < BUFFER_SIZE.
Proof. unfold BUFFER_SIZE. pose proof LBUG_PAGE_SIZE_pos. lia. Qed.

(** ** BufferedFileWriter *)

Lemma writeFile_end c data : writeFile c data (List.length c) = c ++ data.
Proof.
  unfold writeFile. rewrite Nat.sub_diag. simpl. rewrite app_nil_r, take_ge, drop_ge by lia.
  by rewrite app_nil_r.
Qed.

(** The writer has written the whole file so far. *)
Record bfw_ok (w : BufferedFileWriter) : Prop := {
  bfw_size : List.length (bfw_buffer w) = BUFFER_SIZE;
  bfw_off : bfw_bufferOffset w ≤ BUFFER_SIZE;
  bfw_at_end : bfw_fileOffset w = List.length (bfw_file w);
}.
Definition bfw_contents (w : BufferedFileWriter) : list Z :=
  bfw_file w ++ take (bfw_bufferOffset w) (bfw_buffer w).

Lemma bfw_flush_ok w :
  bfw_ok w → bfw_ok (bfw_flush w) ∧ bfw_contents (bfw_flush w) = bfw_contents w ∧
  bfw_bufferOffset (bfw_flush w) = 0 ∧ bfw_file (bfw_flush w) = bfw_contents w.
Proof.
  intros [Hs Ho He]. unfold bfw_flush, bfw_contents. case_decide as Hz.
  { rewrite Hz. simpl. rewrite app_nil_r. split_and!; done. }
  simpl. rewrite He, writeFile_end, app_nil_r. split_and!; try done.
  constructor; simpl; [apply length_replicate|lia|]. rewrite length_app, length_take. lia.
Qed.

Lemma bfw_copy_ok w data :
  bfw_ok w → bfw_bufferOffset w + List.length data ≤ BUFFER_SIZE →
  ∃ w', bfw_copy data w = (w', Ok ()) ∧ bfw_ok w' ∧ bfw_contents w' = bfw_contents w ++ data.
Proof.
  intros [Hs Ho He] Hle. unfold bfw_copy. st_run. rewrite memcpy_ok by lia. st_run.
  eexists. split; [done|]. split.
  - constructor; simpl; [|lia|done]. rewrite !length_app, length_take, length_drop. lia.
  - unfold bfw_contents. simpl. rewrite <-(assoc_L (++)). f_equal.
    rewrite (assoc_L (++)), take_app_le by (rewrite length_app, length_take; lia).
    rewrite take_ge by (rewrite length_app, length_take; lia). done.
Qed.

#[export] Program Instance BufferedFileWriter_laws : WriterLaws BufferedFileWriter := {|
  wr_ok := bfw_ok;
  wr_contents := bfw_contents;
  wr_cap := 2 ^ 62;
|}.
Next Obligation.
  intros w bs Hok _. simpl. unfold bfw_write. case_decide as Hbig.
  - st_run. destruct (bfw_flush_ok w Hok) as ([Hs Ho He] & _ & Hz & Hf).
    eexists. split; [done|]. rewrite He, writeFile_end, Hf. split.
    + constructor; simpl; [done|done|]. rewrite length_app. done.
    + unfold bfw_contents at 1. simpl. rewrite Hz. simpl. by rewrite app_nil_r.
  - st_run. case_decide as Hfit; [by apply bfw_copy_ok|].
    pose proof Hok as [Hs Ho He]. st_run. set (k := BUFFER_SIZE - bfw_bufferOffset w).
    destruct (bfw_copy_ok w (take k bs) Hok) as (w1 & E1 & Hok1 & C1); [rewrite length_take; lia|].
    rewrite E1. st_run. destruct (bfw_flush_ok w1 Hok1) as (Hok2 & C2 & Hz & _).
    destruct (bfw_copy_ok (bfw_flush w1) (drop k bs) Hok2) as (w3 & E3 & Hok3 & C3);
      [rewrite length_drop; lia|].
    exists w3. rewrite E3, C3, C2, C1, <-(assoc_L (++)), take_drop. done.
Qed.

(** ** BufferedFileReader *)

Record bfr_ok (r : BufferedFileReader) : Prop := {
  br_size : List.length (bfr_buffer r) = BUFFER_SIZE;
  br_off : bfr_bufferOffset r ≤ bfr_bufferSize r ≤ BUFFER_SIZE;
  br_file : bfr_bufferSize r ≤ bfr_fileOffset r ≤ List.length (bfr_file r);
  br_len : bfr_fileSize r = List.length (bfr_file r);
  (** the bytes of the buffer that have not been read *)
  br_cached : take (bfr_bufferSize r - bfr_bufferOffset r) (drop (bfr_bufferOffset r) (bfr_buffer r)) =
              take (bfr_bufferSize r - bfr_bufferOffset r) (drop (getReadOffset r) (bfr_file r));
}.
Definition bfr_remaining (r : BufferedFileReader) : list Z := drop (getReadOffset r) (bfr_file r).

Lemma take_le_eq (a b : list Z) n k : take n a = take n b → k ≤ n → take k a = take k b.
Proof. intros E Hle. replace k with (k `min` n) by lia. by rewrite <-!take_take, E. Qed.

Lemma take_drop_eq (a b : list Z) n k :
  take n a = take n b → k ≤ n → take (n - k) (drop k a) = take (n - k) (drop k b).
Proof. intros E Hle. rewrite !take_drop_commute. replace (k + (n - k)) with n by lia. by rewrite E. Qed.

Lemma readNextPage_ok r :
  bfr_ok r → bfr_fileOffset r < bfr_fileSize r →
  ∃ r', readNextPage r = (r', Ok ()) ∧ bfr_ok r' ∧ bfr_bufferOffset r' = 0 ∧
    bfr_bufferSize r' = Nat.min (bfr_fileSize r - bfr_fileOffset r) BUFFER_SIZE ∧
    bfr_file r' = bfr_file r ∧ bfr_fileOffset r' = bfr_fileOffset r + bfr_bufferSize r'.
Proof.
  intros [Hs Ho Hf Hl Hc] Hlt. unfold readNextPage. rewrite decide_False by lia.
  unfold readFromFile. set (n := Nat.min _ _). rewrite bytes_at_ok by lia.
  assert (List.length (take n (drop (bfr_fileOffset r) (bfr_file r))) = n) as Hn
    by (rewrite length_take, length_drop; lia).
  rewrite memcpy_ok by lia. eexists. split; [done|]. split; [|done].
  constructor; simpl; try done; try lia.
  - rewrite length_app, length_drop, Hn. lia.
  - unfold getReadOffset. simpl. rewrite Nat.sub_0_r, drop_0.
    replace (bfr_fileOffset r + n - n + 0) with (bfr_fileOffset r) by lia.
    rewrite take_app_le by lia. by rewrite take_take, Nat.min_id.
Qed.

#[export] Program Instance BufferedFileReader_laws : ReaderLaws BufferedFileReader := {|
  rd_ok := bfr_ok;
  rd_remaining := bfr_remaining;
|}.
Next Obligation.
  intros r bs rest Hok E. simpl. pose proof Hok as [Hs Ho Hf Hl Hc].
  unfold bfr_remaining in E. set (off := getReadOffset r) in *.
  pose proof (f_equal (@List.length Z) E) as Hlen. rewrite length_drop, length_app in Hlen.
  assert (off = bfr_fileOffset r - bfr_bufferSize r + bfr_bufferOffset r) as Eoff by done.
  assert (∀ n m, n + m = List.length bs → take m (drop (off + n) (bfr_file r)) = drop n bs) as Hpart.
  { intros n m Hnm. rewrite <-drop_drop, E, drop_app_le by lia. rewrite take_app_le by (rewrite length_drop; lia).
    apply take_ge. rewrite length_drop. lia. }
  pose proof (Hpart 0 (List.length bs) ltac:(lia)) as Hall. rewrite Nat.add_0_r, drop_0 in Hall.
  assert (∀ r', bfr_file r' = bfr_file r → getReadOffset r' = off + List.length bs → bfr_remaining r' = rest) as Hrem.
  { intros r' Ef Er. unfold bfr_remaining. rewrite Ef, Er, <-drop_drop, E. apply drop_app_length. }
  unfold bfr_read. st_run. case_decide as Hbig.
  - rewrite <-Eoff. unfold readFromFile. rewrite bytes_at_ok by lia. rewrite Hall. st_run.
    eexists. split; [done|]. split; [|apply Hrem; [done|unfold getReadOffset; simpl; lia]].
    constructor; simpl; try done; try lia.
    by rewrite Nat.sub_diag.
  - unfold getReadOffset in Eoff. case_decide as Hfit.
    + rewrite bytes_at_ok by lia. st_run.
      rewrite (take_le_eq _ _ _ (List.length bs) Hc) by lia. fold off. rewrite Hall.
      eexists. split; [done|]. split; [|apply Hrem; [done|unfold getReadOffset; simpl; lia]].
      constructor; simpl; try done; try lia. unfold getReadOffset at 1. simpl.
      pose proof (take_drop_eq _ _ _ (List.length bs) Hc ltac:(lia)) as Hc'. rewrite !drop_drop in Hc'.
      replace (bfr_bufferSize r - (bfr_bufferOffset r + List.length bs))
        with (bfr_bufferSize r - bfr_bufferOffset r - List.length bs) by lia.
      rewrite Hc'. unfold getReadOffset. f_equal. f_equal. lia.
    + rewrite decide_False by lia. set (k := bfr_bufferSize r - bfr_bufferOffset r) in *.
      rewrite bytes_at_ok by lia. st_run. set (r1 := mkBFR _ _ _ _ _ _).
      assert (bfr_ok r1) as Hok1.
      { constructor; simpl; try done; try lia.
        replace (bfr_bufferSize r - (bfr_bufferOffset r + k)) with 0 by lia. done. }
      destruct (readNextPage_ok r1 Hok1) as (r2 & E2 & [Hs2 Ho2 Hf2 Hl2 Hc2] & Ez & En & Ef & Eo);
        [simpl; lia|].
      rewrite E2. st_run. simpl in En, Ef, Eo.
      assert (List.length bs - k ≤ bfr_bufferSize r2) as Hk by lia.
      rewrite bytes_at_ok by lia. st_run. rewrite drop_0. unfold getReadOffset in Hc2.
      rewrite Ez, Nat.sub_0_r, drop_0, Ef, Nat.add_0_r in Hc2.
      replace (bfr_fileOffset r2 - bfr_bufferSize r2) with (off + k) in Hc2 by lia.
      eexists. split.
      * fold off in Hc. rewrite Hc, (take_le_eq _ _ _ _ Hc2) by lia.
        rewrite (Hpart k (List.length bs - k)) by lia.
        assert (take k (drop off (bfr_file r)) = take k bs) as ->.
        { rewrite E, take_app_le by lia. done. }
        rewrite take_drop. reflexivity.
      * rewrite Ez. split; [|apply Hrem; [done|unfold getReadOffset; simpl; lia]].
        constructor; simpl; try done; try lia.
        unfold getReadOffset at 1. simpl. rewrite Ef.
        pose proof (take_drop_eq _ _ _ (List.length bs - k) Hc2 ltac:(lia)) as Hc'. rewrite drop_drop in Hc'.
        rewrite Hc'. f_equal. f_equal. lia.
Qed.
Next Obligation.
  intros r [Hs Ho Hf Hl Hc]. simpl. unfold bfr_finished, bfr_remaining, getReadOffset.
  apply Bool.eq_iff_eq_true. rewrite andb_true_iff, !bool_decide_eq_true.
  rewrite <-length_zero_iff_nil, length_drop. lia.
Qed.

(** A new reader stands at the start of a file that is not empty. *)
Lemma newBufferedFileReader_ok file :
  file ≠ [] → ∃ r, newBufferedFileReader file = (r, Ok ()) ∧ bfr_ok r ∧ bfr_remaining r = file.
Proof.
  intros Hne. unfold newBufferedFileReader. set (r0 := mkBFR _ _ _ _ _ _).
  assert (bfr_ok r0) as Hok0.
  { constructor; simpl; try done; try lia. apply length_replicate. }
  assert (0 < List.length file) by (destruct file; simpl; [done|lia]).
  destruct (readNextPage_ok r0 Hok0) as (r & E & Hok & Ez & En & Ef & Eo); [simpl; lia|].
  exists r. split; [done|]. split; [done|]. unfold bfr_remaining, getReadOffset. rewrite Ez, Ef, Eo. simpl.
  by replace (bfr_bufferSize r - bfr_bufferSize r + 0) with 0 by lia.
Qed.

(** ** InMemFileWriter *)

Section InMem.
Variable garbage : list Z.
Hypothesis Hgarbage : List.length garbage = BUFFER_SIZE.

Record imw_ok (w : InMemFileWriter) : Prop := {
  im_pages : Forall (λ p, List.length p = BUFFER_SIZE) (pages w);
  im_offset : pageOffset w ≤ BUFFER_SIZE;
  im_empty : pages w = [] → pageOffset w = 0;
}.
Definition imw_contents (w : InMemFileWriter) : list Z := take (imw_getSize w) (concat (pages w)).

Lemma concat_length (l : list (list Z)) :
  Forall (λ p, List.length p = BUFFER_SIZE) l → List.length (concat l) = BUFFER_SIZE * List.length l.
Proof. induction 1 as [|p l Hp Hl IH]; simpl; [lia|]. rewrite length_app, IH, Hp. lia. Qed.

Lemma getSize_snoc pre lst o : imw_getSize (mkIMW (pre ++ [lst]) o) = BUFFER_SIZE * List.length pre + o.
Proof.
  unfold imw_getSize. simpl. rewrite length_app. simpl.
  case_decide; [f_equal; f_equal; lia|]. assert (List.length pre = 0) as -> by lia. lia.
Qed.

(** The pages before the last and what is written of the last one. *)
Lemma contents_snoc pre lst o :
  Forall (λ p, List.length p = BUFFER_SIZE) pre → o ≤ List.length lst →
  imw_contents (mkIMW (pre ++ [lst]) o) = concat pre ++ take o lst.
Proof.
  intros Hpre Ho. unfold imw_contents. rewrite getSize_snoc. cbn [pages]. rewrite concat_app. cbn [concat].
  rewrite app_nil_r, take_app, concat_length by done.
  rewrite take_ge by (rewrite concat_length by done; lia). f_equal. f_equal. lia.
Qed.

Lemma copy_to_last_ok pre lst o data :
  List.length lst = BUFFER_SIZE → o + List.length data ≤ BUFFER_SIZE →
  copy_to_last data (mkIMW (pre ++ [lst]) o) =
    (mkIMW (pre ++ [take o lst ++ data ++ drop (o + List.length data) lst]) o, Ok ()).
Proof.
  intros Hl Ho. unfold copy_to_last. st_run. cbn [pages pageOffset]. rewrite last_snoc. simpl.
  rewrite memcpy_ok by lia. st_run. rewrite length_app, Nat.add_sub, insert_app_r_alt, Nat.sub_diag by lia. done.
Qed.

(** One round in which the data fits into the last page. *)
Lemma fill_last pre lst o data :
  Forall (λ p, List.length p = BUFFER_SIZE) pre → List.length lst = BUFFER_SIZE →
  o + List.length data ≤ BUFFER_SIZE →
  let w := mkIMW (pre ++ [take o lst ++ data ++ drop (o + List.length data) lst]) (o + List.length data) in
  imw_ok w ∧ imw_contents w = concat pre ++ take o lst ++ data ∧ List.length (pages w) = S (List.length pre).
Proof.
  intros Hpre Hl Ho w.
  assert (List.length (take o lst ++ data ++ drop (o + List.length data) lst) = BUFFER_SIZE) as Hlen.
  { rewrite !length_app, length_take, length_drop. lia. }
  split_and!.
  - constructor; simpl; [apply Forall_app_2; [done|by constructor]|done|]. intros Hnil. by destruct pre.
  - unfold w. rewrite contents_snoc by (try done; lia). f_equal.
    rewrite (assoc_L (++)), take_app_le by (rewrite length_app, length_take; lia).
    apply take_ge. rewrite length_app, length_take. lia.
  - simpl. rewrite length_app. simpl. lia.
Qed.

Definition pages_for (n : nat) : nat := (n + BUFFER_SIZE - 1) / BUFFER_SIZE.

(** The number of pages is what the bytes written need. *)
Definition tight (w : InMemFileWriter) : Prop :=
  pages w = [] ∨ 0 < pageOffset w.

Lemma imw_length w : imw_ok w → List.length (imw_contents w) = imw_getSize w.
Proof.
  intros [Hp Ho He]. unfold imw_contents. rewrite length_take, concat_length by done.
  apply Nat.min_l. unfold imw_getSize. case_decide.
  - destruct (List.length (pages w)) as [|n]; [lia|]. rewrite Nat.mul_succ_r. simpl. rewrite Nat.sub_0_r. lia.
  - destruct (pages w) as [|p [|??]]; simpl in *; [rewrite He by done; lia|lia|lia].
Qed.

Lemma tight_pages w : imw_ok w → tight w → getNumPagesToFlush w = pages_for (imw_getSize w).
Proof.
  intros [Hp Ho He] Ht. pose proof BUFFER_SIZE_pos. unfold getNumPagesToFlush, pages_for, imw_getSize.
  destruct Ht as [Ht|Ht].
  { rewrite Ht, (He Ht). simpl. symmetry. apply Nat.div_small. lia. }
  destruct (List.length (pages w)) as [|n] eqn:En.
  { apply length_zero_iff_nil in En. rewrite (He En) in Ht. lia. }
  case_decide.
  - replace (BUFFER_SIZE * (S n - 1) + pageOffset w + BUFFER_SIZE - 1)
      with ((pageOffset w - 1) + S n * BUFFER_SIZE) by lia.
    rewrite Nat.div_add by lia. rewrite Nat.div_small by lia. done.
  - assert (n = 0) as -> by lia.
    replace (0 + pageOffset w + BUFFER_SIZE - 1) with ((pageOffset w - 1) + 1 * BUFFER_SIZE) by lia.
    rewrite Nat.div_add, Nat.div_small by lia. done.
Qed.

(** What a round does once the last page has room: [loop] is the rest. *)
Definition loop_spec (loop : list Z → stM InMemFileWriter ()) (size : nat) (data : list Z) (w : InMemFileWriter) :=
  List.length data ≤ size → (data = [] ∨ size = List.length data ∨ pageOffset w = BUFFER_SIZE) → imw_ok w →
  ∃ w', loop data w = (w', Ok ()) ∧ imw_ok w' ∧ imw_contents w' = imw_contents w ++ data ∧
    (tight w ∨ data ≠ [] → tight w').

Lemma round_tail loop size data pre lst o :
  (∀ d w, List.length d < List.length data → loop_spec loop size d w) →
  Forall (λ p, List.length p = BUFFER_SIZE) pre → List.length lst = BUFFER_SIZE → o < BUFFER_SIZE →
  data ≠ [] → List.length data ≤ size →
  ∃ w', (w ← st_get;
         let toCopy := Nat.min (List.length data) (BUFFER_SIZE - pageOffset w) in
         _ ← copy_to_last (take toCopy data);
         _ ← advancePage toCopy;
         loop (drop toCopy data)) (mkIMW (pre ++ [lst]) o) = (w', Ok ()) ∧
    imw_ok w' ∧ imw_contents w' = concat pre ++ take o lst ++ data ∧ tight w'.
Proof.
  intros Hloop Hpre Hl Ho Hne Hsize. st_run. cbn [pageOffset].
  set (n := Nat.min (List.length data) (BUFFER_SIZE - o)).
  assert (0 < List.length data) by (destruct data; simpl; [done|lia]).
  assert (List.length (take n data) = n) as Hn by (rewrite length_take; lia).
  pose proof (copy_to_last_ok pre lst o (take n data) Hl ltac:(lia)) as Ec.
  destruct (fill_last pre lst o (take n data) Hpre Hl ltac:(lia)) as (Hok2 & Hc2 & _).
  rewrite Hn in *. rewrite Ec. st_run. unfold advancePage. st_run. cbn [pages pageOffset].
  set (w2 := mkIMW _ (o + n)) in *.
  destruct (Hloop (drop n data) w2) as (w' & E & Hok' & Hc' & Ht'); try done.
  - rewrite length_drop. lia.
  - rewrite length_drop. lia.
  - destruct (decide (n = List.length data)); [left; apply drop_ge; lia|right; right; simpl; lia].
  - exists w'. split; [done|]. split; [done|]. split.
    + by rewrite Hc', Hc2, <-!(assoc_L (++)), take_drop.
    + apply Ht'. left. right. simpl. lia.
Qed.

Lemma imw_loop_ok fuel size data w :
  List.length data ≤ fuel → loop_spec (imw_loop garbage fuel size) size data w.
Proof.
  revert data w. induction fuel as [|fuel IH]; intros data w Hfuel Hsize Hfirst Hok.
  { destruct data; [|simpl in Hfuel; lia]. exists w. rewrite app_nil_r. split_and!; [done..|]. by intros [?|?]. }
  destruct (decide (data = [])) as [->|Hne].
  { exists w. rewrite app_nil_r. split_and!; [done..|]. by intros [?|?]. }
  destruct Hfirst as [?|Hfirst]; [done|].
  assert (∀ (l d : list Z) w, List.length d < List.length l → List.length l ≤ List.length data →
    loop_spec (imw_loop garbage fuel size) size d w) as Hloop.
  { intros l d w0 ??. apply IH. lia. }
  assert (0 < List.length data) by (destruct data; simpl; [done|lia]).
  pose proof BUFFER_SIZE_pos. pose proof Hok as [Hp Ho He].
  assert (imw_loop garbage (S fuel) size data w =
    (w ← st_get;
     data ← (if needNewBuffer size w then
       data ← (if decide (pages w = []) then mret data
               else
                 let toCopy := Nat.min size (BUFFER_SIZE - pageOffset w) in
                 _ ← copy_to_last (take toCopy data);
                 mret (drop toCopy data));
       _ ← st_modify (λ w, mkIMW (pages w ++ [garbage]) 0);
       mret data
     else mret data);
     w ← st_get;
     let toCopy := Nat.min (List.length data) (BUFFER_SIZE - pageOffset w) in
     _ ← copy_to_last (take toCopy data);
     _ ← advancePage toCopy;
     imw_loop garbage fuel size (drop toCopy data)) w) as ->
    by (destruct data; done).
  rewrite st_bind_run. cbn [st_get]. rewrite st_bind_run. unfold needNewBuffer.
  destruct w as [ps o]. cbn [pages pageOffset] in *.
  destruct ps as [|lst pre _] using rev_ind.
  - rewrite bool_decide_true by done. cbn [orb]. rewrite st_bind_run, decide_True by done. st_run.
    destruct (round_tail (imw_loop garbage fuel size) size data [] garbage 0) as (w' & E & Hok' & Hc' & Ht');
      try done; [by intros d w0 Hd; apply (Hloop data)|].
    exists w'. split; [exact E|]. split; [done|]. split; [|done]. rewrite Hc', (He eq_refl). done.
  - apply Forall_app in Hp as [Hpre Hl]. apply Forall_cons_1 in Hl as [Hl _].
    assert (pre ++ [lst] ≠ []) as Hnn by (by destruct pre).
    rewrite (bool_decide_false (_ = [])) by done. cbn [orb].
    case_bool_decide as Hnew.
    + rewrite st_bind_run, decide_False by done.
      set (k := Nat.min size (BUFFER_SIZE - o)).
      assert (k ≤ List.length data ∧ k = BUFFER_SIZE - o) as [Hk Hk'] by lia.
      assert (List.length (take k data) = k) as Hlk by (rewrite length_take; lia).
      rewrite st_bind_run, copy_to_last_ok by lia. st_run. cbn [pages].
      destruct (fill_last pre lst o (take k data) Hpre Hl ltac:(lia)) as (Hok1 & Hc1 & Hn1).
      rewrite Hlk in *. set (page := take o lst ++ take k data ++ drop (o + k) lst) in *.
      assert (Forall (λ p, List.length p = BUFFER_SIZE) (pre ++ [page])) as Hpre' by apply Hok1.
      destruct (round_tail (imw_loop garbage fuel size) size (drop k data) (pre ++ [page]) garbage 0)
        as (w' & E & Hok' & Hc' & Ht'); try done.
      * intros d w0 Hd. apply (Hloop (drop k data)); [done|]. rewrite length_drop. lia.
      * intros Hd%(f_equal (@List.length Z)). rewrite length_drop in Hd. simpl in Hd. lia.
      * rewrite length_drop. lia.
      * exists w'. split; [exact E|]. split; [done|]. split; [|done]. rewrite Hc', contents_snoc by (try done; lia).
        rewrite concat_app. cbn [concat]. rewrite app_nil_r, take_0, app_nil_l.
        assert (page = take o lst ++ take k data) as ->.
        { unfold page. rewrite drop_ge, app_nil_r by lia. done. }
        by rewrite <-!(assoc_L (++)), take_drop.
    + assert (o < BUFFER_SIZE) by lia.
      rewrite contents_snoc by (try done; lia). st_run.
      destruct (round_tail (imw_loop garbage fuel size) size data pre lst o) as (w' & E & Hok' & Hc' & Ht');
        try done; [by intros d w0 Hd; apply (Hloop data)|].
      exists w'. split; [exact E|]. split; [done|]. split; [|done]. by rewrite Hc', (assoc_L (++)).
Qed.

Lemma imw_write_ok data w :
  imw_ok w →
  ∃ w', imw_write garbage data w = (w', Ok ()) ∧ imw_ok w' ∧ imw_contents w' = imw_contents w ++ data ∧
    (tight w → tight w').
Proof.
  intros Hok. destruct (imw_loop_ok (List.length data) (List.length data) data w) as (w' & E & ? & ? & Ht);
    [done|done|right; by left|done|].
  exists w'. split_and!; try done. intros ?. apply Ht. by left.
Qed.

Lemma newInMemFileWriter_ok : imw_ok (mkIMW [] 0) ∧ imw_contents (mkIMW [] 0) = [] ∧ tight (mkIMW [] 0).
Proof. split_and!; [|done|by left]. constructor; [constructor|simpl; lia|done]. Qed.

(** [flush(Writer&)] writes the contents. *)
Lemma imw_flushed_contents w : imw_ok w → imw_flushed w = imw_contents w.
Proof.
  intros [Hp Ho He]. unfold imw_flushed. destruct w as [ps o]. cbn [pages pageOffset] in *.
  destruct ps as [|lst pre _] using rev_ind; [by rewrite (He eq_refl)|].
  apply Forall_app in Hp as [Hpre Hl]. apply Forall_cons_1 in Hl as [Hl _].
  rewrite contents_snoc by (try done; lia). rewrite imap_app, concat_app. simpl.
  rewrite app_nil_r, length_app, Nat.add_0_r. simpl. rewrite decide_True by lia. f_equal.
  f_equal. apply list_eq. intros i. rewrite list_lookup_imap.
  destruct (pre !! i) as [p|] eqn:Ei; [|done]. simpl. f_equal.
  pose proof (lookup_lt_Some _ _ _ Ei). rewrite decide_False by lia. apply take_ge.
  rewrite Forall_lookup in Hpre. by rewrite (Hpre _ _ Ei).
Qed.

#[export] Program Instance InMemFileWriter_laws : @WriterLaws InMemFileWriter (InMemFileWriter_writer garbage) := {|
  wr_ok w := imw_ok w ∧ tight w;
  wr_contents := imw_contents;
  wr_cap := 2 ^ 62;
|}.
Next Obligation.
  intros w bs [Hok Ht] _. destruct (imw_write_ok bs w Hok) as (w' & ? & ? & ? & Ht').
  exists w'. split_and!; auto.
Qed.
End InMem.
End Files.
