(* ===== verification/Serial.v ===== *)
(** * Typed values on writers and readers (serializer.{h,cpp}, deserializer.{h,cpp})

    [Serializer] and [Deserializer] over any writer and reader, and the composition of
    their round trips: [writes f enc] says that [f] appends the encoding [enc],
    [reads d enc P] that [d] reads back every value of [P] so encoded. *)

From Stdlib Require Import Ascii String.
From S2P Require Import Prelude.
From S2P Require Import FileHandle.
From S2P Require Import Serializer.
From S2P Require Import SerializerFacts.
#[local] Open Scope nat_scope.
#[local] Open Scope list_scope.

(** The build flag: labels are written and checked in debug builds only. *)
Class DeserDebug : Type := DESER_DEBUG : bool.

Section Serializer.
Context {W : Type} `{Writer W} `{DeserDebug}.

Definition serializeValue (size : nat) (value : Z) : stM W () := wr_write (bytes_of size value).

Definition serializeString (value : string) : stM W () :=
  _ ← serializeValue 8 (Z.of_nat (String.length value));
  wr_write (bytes_of_string value).

Definition writeDebuggingInfo (value : string) : stM W () :=
  if DESER_DEBUG then serializeString value else mret ().

Fixpoint serializeEach {A} (f : A → stM W ()) (l : list A) : stM W () :=
  match l with
  | [] => mret ()
  | x :: l => _ ← f x; serializeEach f l
  end.

Definition serializeOptionalValue {A} (f : A → stM W ()) (value : option A) : stM W () :=
  _ ← serializeValue 1 (if value then 0 else 1)%Z;
  match value with Some x => f x | None => mret () end.

Definition serializeVector {A} (f : A → stM W ()) (values : list A) : stM W () :=
  _ ← serializeValue 8 (Z.of_nat (List.length values)); serializeEach f values.

Definition serializeArray {A} (f : A → stM W ()) (values : list A) : stM W () := serializeEach f values.

(** The entries of a map in the order of its iteration; unordered maps, sets and
    vectors of pointers have the same body. *)
Definition serializeMap {K A} (fk : K → stM W ()) (fv : A → stM W ()) (values : list (K * A)) : stM W () :=
  _ ← serializeValue 8 (Z.of_nat (List.length values));
  serializeEach (λ '(k, v), _ ← fk k; fv v) values.
End Serializer.

Section Deserializer.
Context {R : Type} `{Reader R} `{DeserDebug}.

Definition deserializeValue (size : nat) : stM R Z := bs ← rd_read size; mret (value_of bs).

Definition deserializeString : stM R string :=
  valueLength ← deserializeValue 8;
  bs ← rd_read (Z.to_nat valueLength);
  mret (string_of_bytes bs).

(** The assertion is live in debug builds, which are the ones with labels. *)
Definition validateDebuggingInfo (expectedVal : string) : stM R () :=
  if DESER_DEBUG then
    value ← deserializeString;
    if decide (value = expectedVal) then mret () else st_lift UB
  else mret ().

Fixpoint deserializeEach {A} (d : stM R A) (n : nat) : stM R (list A) :=
  match n with
  | 0 => mret []
  | S n => x ← d; l ← deserializeEach d n; mret (x :: l)
  end.

Definition deserializeOptionalValue {A} (d : stM R A) : stM R (option A) :=
  isNull ← deserializeValue 1;
  if bool_decide (isNull = 0)%Z then x ← d; mret (Some x) else mret None.

Definition deserializeVector {A} (d : stM R A) : stM R (list A) :=
  vectorSize ← deserializeValue 8; deserializeEach d (Z.to_nat vectorSize).

Definition deserializeArray {A} (ARRAY_SIZE : nat) (d : stM R A) : stM R (list A) := deserializeEach d ARRAY_SIZE.

(** The entries in the order they are emplaced. *)
Definition deserializeMap {K A} (dk : stM R K) (dv : stM R A) : stM R (list (K * A)) :=
  mapSize ← deserializeValue 8;
  deserializeEach (k ← dk; v ← dv; mret (k, v)) (Z.to_nat mapSize).
End Deserializer.

(** ** Encodings *)

Definition enc_string (s : string) : list Z :=
  bytes_of 8 (Z.of_nat (String.length s)) ++ bytes_of_string s.
Definition enc_label `{DeserDebug} (s : string) : list Z := if DESER_DEBUG then enc_string s else [].
Definition enc_each {A} (enc : A → list Z) (l : list A) : list Z := l ≫= enc.
Definition enc_vector {A} (enc : A → list Z) (l : list A) : list Z :=
  bytes_of 8 (Z.of_nat (List.length l)) ++ enc_each enc l.

Lemma length_enc_each {A} (enc : A → list Z) k l :
  (∀ x, x ∈ l → List.length (enc x) = k) → List.length (enc_each enc l) = k * List.length l.
Proof.
  induction l as [|x l IH]; intros Hk; [simpl; lia|]. unfold enc_each in *. cbn [mbind list_bind].
  rewrite length_app, IH, (Hk x); [simpl; lia|left|]. intros y ?. apply Hk. by right.
Qed.

Definition fits {W} `{WriterLaws W} (w : W) (bs : list Z) : Prop :=
  (Z.of_nat (List.length (wr_contents w) + List.length bs) < wr_cap)%Z.

Definition writes {W} `{WriterLaws W} (f : stM W ()) (bs : list Z) : Prop :=
  ∀ w, wr_ok w → fits w bs → ∃ w', f w = (w', Ok ()) ∧ wr_ok w' ∧ wr_contents w' = wr_contents w ++ bs.

Definition reads {R} `{ReaderLaws R} {A} (d : stM R A) (bs : list Z) (x : A) : Prop :=
  ∀ r rest, rd_ok r → rd_remaining r = bs ++ rest →
    ∃ r', d r = (r', Ok x) ∧ rd_ok r' ∧ rd_remaining r' = rest.

Section Writes.
Context {W : Type} `{WriterLaws W} `{DeserDebug}.

Lemma writes_write bs : writes (wr_write bs) bs.
Proof. intros w Hok Hfit. by apply wr_write_spec. Qed.

Lemma writes_ret : writes (mret ()) [].
Proof. intros w Hok _. exists w. by rewrite app_nil_r. Qed.

Lemma writes_bind f g b1 b2 : writes f b1 → writes g b2 → writes (_ ← f; g) (b1 ++ b2).
Proof.
  intros Hf Hg w Hok Hfit. unfold fits in Hfit. rewrite length_app in Hfit.
  destruct (Hf w Hok) as (w1 & E1 & Hok1 & C1); [unfold fits; lia|].
  destruct (Hg w1 Hok1) as (w2 & E2 & Hok2 & C2); [unfold fits; rewrite C1, length_app; lia|].
  exists w2. rewrite st_bind_run, E1. split_and!; [done..|]. by rewrite C2, C1, (assoc_L (++)).
Qed.

Lemma writes_value n v : writes (serializeValue n v) (bytes_of n v).
Proof. apply writes_write. Qed.

Lemma writes_string s : writes (serializeString s) (enc_string s).
Proof. apply writes_bind; [apply writes_value|apply writes_write]. Qed.

Lemma writes_label s : writes (writeDebuggingInfo s) (enc_label s).
Proof. unfold writeDebuggingInfo, enc_label. case DESER_DEBUG; [apply writes_string|apply writes_ret]. Qed.

Lemma writes_each {A} (f : A → stM W ()) enc l :
  (∀ x, x ∈ l → writes (f x) (enc x)) → writes (serializeEach f l) (enc_each enc l).
Proof.
  induction l as [|x l IH]; intros Hf; [apply writes_ret|].
  apply writes_bind; [apply Hf; left|]. apply IH. intros. apply Hf. by right.
Qed.

Lemma writes_vector {A} (f : A → stM W ()) enc l :
  (∀ x, x ∈ l → writes (f x) (enc x)) → writes (serializeVector f l) (enc_vector enc l).
Proof. intros Hf. apply writes_bind; [apply writes_value|by apply writes_each]. Qed.

Lemma writes_optional {A} (f : A → stM W ()) enc o :
  (∀ x, o = Some x → writes (f x) (enc x)) →
  writes (serializeOptionalValue f o)
    (bytes_of 1 (if o then 0 else 1)%Z ++ match o with Some x => enc x | None => [] end).
Proof.
  intros Hf. apply writes_bind; [apply writes_value|]. destruct o; [by apply Hf|apply writes_ret].
Qed.
End Writes.

Section Reads.
Context {R : Type} `{ReaderLaws R} `{DeserDebug}.

Lemma reads_ret {A} (x : A) : reads (mret x) [] x.
Proof. intros r rest Hok E. by exists r. Qed.

Lemma reads_read bs : reads (rd_read (List.length bs)) bs bs.
Proof. intros r rest Hok E. by apply rd_read_spec. Qed.

Lemma reads_bind {A B} (d : stM R A) (g : A → stM R B) b1 b2 x y :
  reads d b1 x → reads (g x) b2 y → reads (d ≫= g) (b1 ++ b2) y.
Proof.
  intros Hd Hg r rest Hok E. rewrite <-(assoc_L (++)) in E.
  destruct (Hd r _ Hok E) as (r1 & E1 & Hok1 & C1).
  destruct (Hg r1 rest Hok1 C1) as (r2 & E2 & Hok2 & C2).
  exists r2. by rewrite st_bind_run, E1.
Qed.

Lemma reads_fmap {A B} (d : stM R A) (g : A → B) bs x : reads d bs x → reads (y ← d; mret (g y)) bs (g x).
Proof. intros Hd. rewrite <-(app_nil_r bs). by eapply reads_bind, reads_ret. Qed.

Lemma reads_value n v : (0 ≤ v < 256 ^ Z.of_nat n)%Z → reads (deserializeValue n) (bytes_of n v) v.
Proof.
  intros Hv. unfold deserializeValue. pose proof (reads_read (bytes_of n v)) as Hr.
  rewrite length_bytes_of in Hr. apply (reads_fmap _ value_of) in Hr. by rewrite value_of_bytes_of in Hr.
Qed.

Lemma reads_string s : (Z.of_nat (String.length s) < 2 ^ 64)%Z → reads deserializeString (enc_string s) s.
Proof.
  intros Hs. unfold deserializeString. eapply reads_bind; [apply reads_value; simpl; lia|].
  rewrite Nat2Z.id. pose proof (reads_read (bytes_of_string s)) as Hr.
  rewrite length_bytes_of_string in Hr. apply (reads_fmap _ string_of_bytes) in Hr.
  by rewrite string_of_bytes_of_string in Hr.
Qed.

Lemma reads_label s : (Z.of_nat (String.length s) < 2 ^ 64)%Z → reads (validateDebuggingInfo s) (enc_label s) ().
Proof.
  intros Hs. unfold validateDebuggingInfo, enc_label. case DESER_DEBUG; [|apply reads_ret].
  rewrite <-(app_nil_r (enc_string s)). eapply reads_bind; [by apply reads_string|].
  rewrite decide_True by done. apply reads_ret.
Qed.

Lemma reads_each {A} (d : stM R A) enc l :
  (∀ x, x ∈ l → reads d (enc x) x) → reads (deserializeEach d (List.length l)) (enc_each enc l) l.
Proof.
  induction l as [|x l IH]; intros Hd; [apply reads_ret|]. cbn [deserializeEach List.length].
  eapply reads_bind; [apply Hd; left|]. apply (reads_fmap _ (cons x)). apply IH. intros. apply Hd. by right.
Qed.

Lemma reads_vector {A} (d : stM R A) enc l :
  (Z.of_nat (List.length l) < 2 ^ 64)%Z →
  (∀ x, x ∈ l → reads d (enc x) x) → reads (deserializeVector d) (enc_vector enc l) l.
Proof.
  intros Hl Hd. eapply reads_bind; [apply reads_value; simpl; lia|]. rewrite Nat2Z.id. by apply reads_each.
Qed.

Lemma reads_optional {A} (d : stM R A) enc (o : option A) :
  (∀ x, o = Some x → reads d (enc x) x) →
  reads (deserializeOptionalValue d)
    (bytes_of 1 (if o then 0 else 1)%Z ++ match o with Some x => enc x | None => [] end) o.
Proof.
  intros Hd. eapply reads_bind; [apply reads_value; destruct o; simpl; lia|].
  destruct o as [x|]; simpl.
  - apply (reads_fmap d Some). by apply Hd.
  - apply reads_ret.
Qed.
End Reads.
