(* ===== verification/FreeSpaceSerial.v ===== *)
(** * Serializing the free space manager and the database header

    storage/free_space_manager.cpp:90-183 and storage/database_header.cpp.  The template
    over a value processor is a class here, with its two instances: the count of the pages
    a serialization needs, and the serializer itself. *)

From Stdlib Require Import Ascii String.
From stdpp Require Import pretty.
From S2P Require Import Prelude.
From S2P Require Import FileHandle.
From S2P Require Import FileHandleFacts.
From S2P Require Import FreeSpace.
From S2P Require Import FreeSpaceFacts.
From S2P Require Import PageManager.
From S2P Require Import Serializer.
From S2P Require Import SerializerFacts.
From S2P Require Import Serial.
#[local] Open Scope nat_scope.
#[local] Open Scope list_scope.

Class ValueProcessor (P : Type) : Type := {
  processValue : nat → Z → stM P ();     (** [sizeof(T)] and the value *)
  processDebuggingInfo : string → stM P ();
}.

(** ** Counting pages *)

Record SerializePagesUsedTracker : Type := mkTracker {
  numPagesUsed : Z;
  numBytesUsedInPage : Z;
}.

Section Tracker.
Context `{PageConfig}.

Definition updatePagesUsed (numBytesToAdd : Z) (t : SerializePagesUsedTracker) : SerializePagesUsedTracker :=
  let t := if bool_decide (LBUG_PAGE_SIZE < wrap 64 (numBytesUsedInPage t + numBytesToAdd))%Z
           then mkTracker (wrap 32 (numPagesUsed t + 1)) 0 else t in
  mkTracker (numPagesUsed t) (wrap 64 (numBytesUsedInPage t + numBytesToAdd)).

#[export] Instance tracker_processor : ValueProcessor SerializePagesUsedTracker := {|
  processValue size _ := st_modify (updatePagesUsed (Z.of_nat size));
  processDebuggingInfo value := st_modify (updatePagesUsed (8 + Z.of_nat (String.length value))%Z);
|}.
End Tracker.

#[export] Instance serializer_processor {W} `{Writer W} `{DeserDebug} : ValueProcessor W := {|
  processValue size v := serializeValue size v;
  processDebuggingInfo value := writeDebuggingInfo value;
|}.

Section Serialize.
Context {P : Type} `{ValueProcessor P}.

Definition processEntry (entry : PageRange) : stM P () :=
  _ ← processValue 4 (startPageIdx entry); processValue 4 (numPages entry).

(** The loop over a [FreeEntryIterator]; every round consumes an entry, so as many rounds
    as there are entries reach the end. *)
Fixpoint serialize_from (fuel : nat) (fl : list (list PageRange)) (it : FreeEntryIterator)
    (numWrittenEntries : Z) : stM P Z :=
  if it_done fl it then mret numWrittenEntries
  else
    match fuel with
    | 0 => st_lift UB
    | S fuel =>
        entry ← st_lift (it_deref fl it);
        _ ← processEntry entry;
        it ← st_lift (it_next fl it);
        serialize_from fuel fl it (wrap 64 (numWrittenEntries + 1))
    end.

Definition serializeCheckpointedEntries (fl : list (list PageRange)) : stM P Z :=
  serialize_from (List.length (concat fl)) fl (it_begin fl) 0%Z.

Fixpoint serializeUncheckpointedEntries (l : list PageRange) : stM P () :=
  match l with
  | [] => mret ()
  | entry :: l => _ ← processEntry entry; serializeUncheckpointedEntries l
  end.

Definition serializeInternal (m : FreeSpaceManager) : stM P () :=
  _ ← processDebuggingInfo "page_manager";
  let numEntries := wrap 64 (getNumEntries m + Z.of_nat (List.length (uncheckpointedFreePageRanges m))) in
  _ ← processDebuggingInfo "numEntries";
  _ ← processValue 8 numEntries;
  _ ← processDebuggingInfo "entries";
  _ ← serializeCheckpointedEntries (freeLists m);
  serializeUncheckpointedEntries (uncheckpointedFreePageRanges m).
End Serialize.

Definition getMaxNumPagesForSerialization `{PageConfig} (m : FreeSpaceManager) : Z :=
  let t := (serializeInternal (P := SerializePagesUsedTracker) m (mkTracker 0 0)).1 in
  wrap 32 (numPagesUsed t + (if bool_decide (0 < numBytesUsedInPage t)%Z then 1 else 0)).

Definition fsm_serialize {W} `{Writer W} `{DeserDebug} (m : FreeSpaceManager) : stM W () := serializeInternal m.

Section Deserialize.
Context {R : Type} `{Reader R} `{DeserDebug}.

Fixpoint addEntries (n : nat) (m : FreeSpaceManager) : stM R FreeSpaceManager :=
  match n with
  | 0 => mret m
  | S n =>
      startPageIdx ← deserializeValue 4;
      numPages ← deserializeValue 4;
      addEntries n (addFreePages (mkRange startPageIdx numPages) m)
  end.

Definition fsm_deserialize (m : FreeSpaceManager) : stM R FreeSpaceManager :=
  _ ← validateDebuggingInfo "page_manager";
  _ ← validateDebuggingInfo "numEntries";
  numEntries ← deserializeValue 8;
  _ ← validateDebuggingInfo "entries";
  addEntries (Z.to_nat numEntries) m.
End Deserialize.

(** ** The database header *)

Definition MAGIC_BYTES : string := "LBUG".
Definition HEADER_FORMAT_VERSION_WITH_DATAFILE_NUM_PAGES : Z := 2.

Section Header.
(** The build's storage version, from the table of versions. *)
Variable storageVersion : Z.

Section Write.
Context {W : Type} `{Writer W} `{DeserDebug}.

Definition writeMagicBytes : stM W () :=
  _ ← writeDebuggingInfo "magic";
  serializeEach (serializeValue 1) (bytes_of_string MAGIC_BYTES).

Definition header_serialize (h : DatabaseHeader) : stM W () :=
  _ ← writeMagicBytes;
  _ ← writeDebuggingInfo "storage_version";
  _ ← serializeValue 8 storageVersion;
  _ ← writeDebuggingInfo "catalog";
  _ ← serializeValue 4 (startPageIdx (catalogPageRange h));
  _ ← serializeValue 4 (numPages (catalogPageRange h));
  _ ← writeDebuggingInfo "metadata";
  _ ← serializeValue 4 (startPageIdx (metadataPageRange h));
  _ ← serializeValue 4 (numPages (metadataPageRange h));
  _ ← writeDebuggingInfo "databaseID";
  _ ← serializeValue 16 (databaseID h);
  _ ← serializeValue 1 HEADER_FORMAT_VERSION_WITH_DATAFILE_NUM_PAGES;
  serializeValue 4 (dataFileNumPages h).
End Write.

Section Read.
Context {R : Type} `{Reader R} `{DeserDebug}.

Definition validateMagicBytes : stM R () :=
  _ ← validateDebuggingInfo "magic";
  magicBytes ← deserializeEach (deserializeValue 1) (String.length MAGIC_BYTES);
  if decide (magicBytes = bytes_of_string MAGIC_BYTES) then mret ()
  else st_throw RuntimeException "Unable to open database. The file is not a valid Lbug database file!".

Definition validateStorageVersion : stM R () :=
  _ ← validateDebuggingInfo "storage_version";
  savedStorageVersion ← deserializeValue 8;
  if bool_decide (savedStorageVersion = storageVersion) then mret ()
  else st_throw RuntimeException
    ("Trying to read a database file with a different version. Database file version: " +:+
     pretty savedStorageVersion +:+ ", Current build storage version: " +:+ pretty storageVersion).

Definition header_deserialize : stM R DatabaseHeader :=
  _ ← validateMagicBytes;
  _ ← validateStorageVersion;
  _ ← validateDebuggingInfo "catalog";
  catalogStart ← deserializeValue 4;
  catalogPages ← deserializeValue 4;
  _ ← validateDebuggingInfo "metadata";
  metaStart ← deserializeValue 4;
  metaPages ← deserializeValue 4;
  _ ← validateDebuggingInfo "databaseID";
  databaseID ← deserializeValue 16;
  headerFormatVersion ← deserializeValue 1;
  dataFileNumPages ←
    (if bool_decide (headerFormatVersion = HEADER_FORMAT_VERSION_WITH_DATAFILE_NUM_PAGES)
     then deserializeValue 4 else mret 0%Z);
  mret (mkHeader (mkRange catalogStart catalogPages) (mkRange metaStart metaPages) dataFileNumPages databaseID).
End Read.

(** [readDatabaseHeader]: no header yet when the file is smaller than a page, or when
    reading it throws a runtime exception. *)
Definition readDatabaseHeader `{PageConfig} `{DeserDebug} (dataFile : list Z) : result (option DatabaseHeader) :=
  if bool_decide (Z.of_nat (List.length dataFile) < LBUG_PAGE_SIZE)%Z then Ok None
  else
    let '(reader, r) := newBufferedFileReader dataFile in
    match r with
    | Throw e => Throw e
    | UB => UB
    | Ok _ =>
        match (header_deserialize reader).2 with
        | Ok h => Ok (Some h)
        | Throw (Exn RuntimeException _) => Ok None
        | Throw e => Throw e
        | UB => UB
        end
    end.
End Header.

(** ** Facts about serialized free space managers

    The iterator visits the entries in order; the serialization is the same sequence of
    values for every processor; its encoding, its size and how it is read back. *)

(** ** The iterator *)

(** The entries from the iterator on, and that it is at one of them or at the end. *)
Definition it_rest (fl : list (list PageRange)) (it : FreeEntryIterator) : list PageRange :=
  drop (freeListIt it) (default [] (fl !! freeListIdx it)) ++ concat (drop (S (freeListIdx it)) fl).
Definition it_ok (fl : list (list PageRange)) (it : FreeEntryIterator) : Prop :=
  List.length fl ≤ freeListIdx it ∨ ∃ l, fl !! freeListIdx it = Some l ∧ freeListIt it < List.length l.

Lemma first_nonempty_rest fl idx :
  let i := first_nonempty idx (drop idx fl) in
  concat (drop i fl) = concat (drop idx fl) ∧
  (List.length fl ≤ i ∨ ∃ l, fl !! i = Some l ∧ l ≠ []).
Proof.
  remember (drop idx fl) as rest eqn:E. revert idx E.
  induction rest as [|l rest IH]; intros idx E; cbn [first_nonempty].
  - split; [by rewrite <-E|left]. symmetry in E. apply (f_equal (@List.length _)) in E. rewrite length_drop in E.
    simpl in E. lia.
  - assert (fl !! idx = Some l) as El.
    { rewrite <-(Nat.add_0_r idx), <-lookup_drop, <-E. done. }
    assert (rest = drop (S idx) fl) as Er.
    { replace (S idx) with (idx + 1) by lia. rewrite <-drop_drop, <-E. done. }
    destruct l as [|e l].
    + destruct (IH (S idx) Er) as [Hc Hd]. split; [exact Hc|exact Hd].
    + split; [by rewrite <-E|]. right. by exists (e :: l).
Qed.

Lemma advance_ok fl it :
  let it' := advanceFreeListIdx fl it in
  it_rest fl it' = concat (drop (freeListIdx it) fl) ∧ it_ok fl it'.
Proof.
  destruct (first_nonempty_rest fl (freeListIdx it)) as [Hc Hd]. unfold advanceFreeListIdx, it_rest, it_ok.
  cbn [freeListIdx freeListIt]. rewrite drop_0, <-Hc. split.
  - destruct Hd as [Hd|(l & El & _)].
    + rewrite lookup_ge_None_2, !drop_ge by lia. done.
    + rewrite El. cbn [default from_option id]. rewrite (drop_S _ l _ El). done.
  - destruct Hd as [?|(l & El & Hl)]; [by left|right]. exists l. split; [done|]. destruct l; simpl; [done|lia].
Qed.

Lemma it_begin_ok fl : it_rest fl (it_begin fl) = concat fl ∧ it_ok fl (it_begin fl).
Proof. apply (advance_ok fl (mkIt 0 0)). Qed.

Lemma it_step fl it e rest :
  it_ok fl it → it_rest fl it = e :: rest →
  it_done fl it = false ∧ it_deref fl it = Ok e ∧
  ∃ it', it_next fl it = Ok it' ∧ it_ok fl it' ∧ it_rest fl it' = rest.
Proof.
  intros [Hge|(l & El & Hlt)] E.
  { exfalso. unfold it_rest in E. rewrite lookup_ge_None_2, (drop_ge fl) in E by lia. by destruct (freeListIt it). }
  unfold it_rest in E. rewrite El in E. cbn [default from_option id] in E.
  destruct (lookup_lt_is_Some_2 _ _ Hlt) as [e' Ee].
  rewrite (drop_S _ e' _ Ee) in E. injection E as <- Er.
  unfold it_done, it_deref, it_next. rewrite El. simpl. rewrite Ee. simpl. split_and!; [|done|].
  - apply bool_decide_false. apply lookup_lt_Some in El. lia.
  - case_decide as Hend.
    + destruct (advance_ok fl (mkIt (S (freeListIdx it)) 0)) as [Hr Hok]. eexists. split; [done|]. split; [done|].
      rewrite Hr. cbn [freeListIdx]. rewrite <-Er, (drop_ge l) by lia. done.
    + eexists. split; [done|]. split.
      * right. exists l. cbn [freeListIdx freeListIt]. split; [done|lia].
      * unfold it_rest. cbn [freeListIdx freeListIt]. rewrite El. done.
Qed.

Lemma it_end fl it : it_ok fl it → it_rest fl it = [] → it_done fl it = true.
Proof.
  intros [Hge|(l & El & Hlt)] E; [by apply bool_decide_true|].
  unfold it_rest in E. rewrite El in E. cbn [default from_option id] in E. apply app_nil in E as [E _].
  apply (f_equal (@List.length _)) in E. rewrite length_drop in E. simpl in E. lia.
Qed.

(** [getEntries] is the slice of the entries in the order of the lists. *)
Lemma getEntries_slice m a b :
  a ≤ b ≤ List.length (freePages m) → getEntries a b m = Ok (take (b - a) (drop a (freePages m))).
Proof.
  intros [Hab Hb]. unfold getEntries, freePages in *. set (fl := freeLists m) in *.
  assert (∀ n it l, it_ok fl it → it_rest fl it = l → n ≤ List.length l →
    ∃ it', it_advance fl n it = Ok it' ∧ it_ok fl it' ∧ it_rest fl it' = drop n l) as Hadv.
  { induction n as [|n IH]; intros it l Hok E Hn; [by exists it|].
    destruct l as [|e l]; [simpl in Hn; lia|]. destruct (it_step fl it e l Hok E) as (_ & _ & it' & En & Hok' & E').
    cbn [it_advance]. rewrite En. apply IH; [done..|simpl in Hn; lia]. }
  assert (∀ n it l, it_ok fl it → it_rest fl it = l → n ≤ List.length l →
    read_entries fl n it = Ok (take n l)) as Hread.
  { induction n as [|n IH]; intros it l Hok E Hn; [done|].
    destruct l as [|e l]; [simpl in Hn; lia|].
    destruct (it_step fl it e l Hok E) as (_ & Ed & it' & En & Hok' & E').
    cbn [read_entries]. rewrite Ed. simpl. rewrite En. simpl. rewrite (IH it' l) by (try done; simpl in Hn; lia). done. }
  destruct (it_begin_ok fl) as [Hr Hok]. destruct (Hadv a _ _ Hok Hr ltac:(lia)) as (it' & E & Hok' & Hr').
  rewrite E. simpl. apply Hread; [done..|]. rewrite length_drop. lia.
Qed.

(** ** The sequence of values *)

Section Values.
Context {P : Type} `{ValueProcessor P}.

Fixpoint processEntries (l : list PageRange) : stM P () :=
  match l with
  | [] => mret ()
  | e :: l => _ ← processEntry e; processEntries l
  end.

Lemma uncheckpointed_each l s : serializeUncheckpointedEntries l s = processEntries l s.
Proof.
  revert s. induction l as [|e l IH]; intros s; [done|]. cbn [serializeUncheckpointedEntries processEntries].
  rewrite !st_bind_run. destruct (processEntry e s) as [s' [[]| |]]; [apply IH|done|done].
Qed.

Lemma serialize_from_each fuel fl it n s :
  it_ok fl it → List.length (it_rest fl it) ≤ fuel →
  serialize_from fuel fl it n s =
    (_ ← processEntries (it_rest fl it); mret (Nat.iter (List.length (it_rest fl it)) (λ n, wrap 64 (n + 1)) n)) s.
Proof.
  remember (it_rest fl it) as l eqn:E. revert it n s E fuel.
  induction l as [|e l IH]; intros it n s E fuel Hok Hfuel; symmetry in E.
  { destruct fuel; cbn [serialize_from]; by rewrite it_end. }
  destruct fuel as [|fuel]; [simpl in Hfuel; lia|].
  destruct (it_step fl it e l Hok E) as (Hd & He & it' & En & Hok' & Er).
  cbn [serialize_from processEntries]. rewrite Hd, He, En. st_run.
  destruct (processEntry e s) as [s' [[]| |]]; [|done|done].
  st_run. rewrite (IH it' _ s' (eq_sym Er) fuel Hok') by (simpl in Hfuel; lia). rewrite st_bind_run.
  destruct (processEntries l s') as [s2 [[]| |]]; [|done|done].
  cbn [List.length]. by rewrite Nat.iter_succ_r.
Qed.

(** All entries, free and uncheckpointed. *)
Definition allEntries (m : FreeSpaceManager) : list PageRange :=
  freePages m ++ uncheckpointedFreePageRanges m.

Lemma processEntries_app l1 l2 s :
  processEntries (l1 ++ l2) s = (_ ← processEntries l1; processEntries l2) s.
Proof.
  revert s. induction l1 as [|e l1 IH]; intros s; [done|]. rewrite <-app_comm_cons. cbn [processEntries].
  rewrite !st_bind_run. destruct (processEntry e s) as [s' [[]| |]]; [|done|done].
  rewrite IH, st_bind_run. done.
Qed.

Definition entryCount (m : FreeSpaceManager) : Z :=
  wrap 64 (numEntries m + Z.of_nat (List.length (uncheckpointedFreePageRanges m))).

Lemma serializeInternal_each m s :
  serializeInternal m s =
  (_ ← processDebuggingInfo "page_manager"; _ ← processDebuggingInfo "numEntries";
   _ ← processValue 8 (entryCount m); _ ← processDebuggingInfo "entries";
   processEntries (allEntries m)) s.
Proof.
  unfold serializeInternal, entryCount, getNumEntries.
  assert (∀ s, (_ ← serializeCheckpointedEntries (freeLists m);
    serializeUncheckpointedEntries (uncheckpointedFreePageRanges m)) s = processEntries (allEntries m) s) as Hall.
  { intros s0. unfold allEntries. rewrite processEntries_app, !st_bind_run. unfold serializeCheckpointedEntries.
    destruct (it_begin_ok (freeLists m)) as [Hr Hok].
    rewrite (serialize_from_each _ _ _ _ _ Hok) by (rewrite Hr; done). rewrite Hr. fold (freePages m).
    rewrite st_bind_run. destruct (processEntries (freePages m) s0) as [s1 [[]| |]]; [|done|done].
    apply uncheckpointed_each. }
  rewrite !st_bind_run. destruct (processDebuggingInfo "page_manager" s) as [s1 [[]| |]]; [|done|done].
  rewrite !st_bind_run. destruct (processDebuggingInfo "numEntries" s1) as [s2 [[]| |]]; [|done|done].
  rewrite !st_bind_run. destruct (processValue 8 _ s2) as [s3 [[]| |]]; [|done|done].
  rewrite !st_bind_run. destruct (processDebuggingInfo "entries" s3) as [s4 [[]| |]]; [|done|done].
  apply Hall.
Qed.
End Values.

(** ** The encoding *)

Definition enc_entry (e : PageRange) : list Z := bytes_of 4 (startPageIdx e) ++ bytes_of 4 (numPages e).
Definition enc_fsm `{DeserDebug} (m : FreeSpaceManager) : list Z :=
  enc_label "page_manager" ++ enc_label "numEntries" ++ bytes_of 8 (entryCount m) ++ enc_label "entries" ++
  enc_each enc_entry (allEntries m).

Lemma length_enc_entry e : List.length (enc_entry e) = 8.
Proof. unfold enc_entry. by rewrite length_app, !length_bytes_of. Qed.

Section Writing.
Context {W : Type} `{WriterLaws W} `{DeserDebug}.

Lemma processEntries_writes l :
  writes (processEntries (P := W) l) (enc_each enc_entry l).
Proof.
  induction l as [|e l IH]; [apply writes_ret|]. apply writes_bind; [|exact IH].
  apply writes_bind; apply writes_value.
Qed.

Lemma fsm_serialize_writes m : writes (fsm_serialize m) (enc_fsm m).
Proof.
  intros w Hok Hfit. unfold fsm_serialize. rewrite serializeInternal_each. revert w Hok Hfit.
  change (writes (_ ← processDebuggingInfo "page_manager"; _ ← processDebuggingInfo "numEntries";
    _ ← processValue 8 (entryCount m); _ ← processDebuggingInfo "entries"; processEntries (allEntries m)) (enc_fsm m)).
  repeat apply writes_bind; [apply writes_label|apply writes_label|apply writes_value|apply writes_label|].
  apply processEntries_writes.
Qed.
End Writing.

(** ** Reading *)

Definition entry_word (e : PageRange) : Prop :=
  (0 ≤ startPageIdx e < 2 ^ 32)%Z ∧ (0 < numPages e < 2 ^ 32)%Z.
Definition addAll (l : list PageRange) (m : FreeSpaceManager) : FreeSpaceManager :=
  foldl (λ m e, addFreePages e m) m l.

Section Reading.
Context {R : Type} `{ReaderLaws R} `{DeserDebug}.

Lemma addEntries_reads l m :
  Forall entry_word l → reads (addEntries (List.length l) m) (enc_each enc_entry l) (addAll l m).
Proof.
  revert m. induction l as [|[s n] l IH]; intros m Hl; [apply reads_ret|].
  apply Forall_cons in Hl as [[Hs Hn] Hl]. simpl in Hs, Hn. cbn [addEntries List.length].
  unfold enc_each. cbn [mbind list_bind]. unfold enc_entry at 1. rewrite <-(assoc_L (++)). cbn [startPageIdx numPages].
  eapply reads_bind; [apply reads_value; simpl; lia|].
  eapply reads_bind; [apply reads_value; simpl; lia|]. apply IH, Hl.
Qed.

Lemma fsm_deserialize_reads m m0 :
  entryCount m = Z.of_nat (List.length (allEntries m)) → Forall entry_word (allEntries m) →
  reads (fsm_deserialize m0) (enc_fsm m) (addAll (allEntries m) m0).
Proof.
  intros Hc Hl. unfold fsm_deserialize, enc_fsm.
  eapply reads_bind; [by apply reads_label|]. eapply reads_bind; [by apply reads_label|].
  eapply reads_bind.
  { apply reads_value. unfold entryCount.
    pose proof (wrap_range 64 (numEntries m + Z.of_nat (List.length (uncheckpointedFreePageRanges m))) ltac:(lia)) as Hw.
    unfold in_u in Hw. simpl. lia. }
  eapply reads_bind; [by apply reads_label|]. rewrite Hc, Nat2Z.id. by apply addEntries_reads.
Qed.
End Reading.

(** Entries that are new are all added. *)
Lemma addAll_fresh l m :
  fsm_ok m → Forall entry_word l → NoDup l → (∀ e, e ∈ l → e ∉ freePages m) →
  fsm_ok (addAll l m) ∧ freePages (addAll l m) ≡ₚ freePages m ++ l ∧
  uncheckpointedFreePageRanges (addAll l m) = uncheckpointedFreePageRanges m.
Proof.
  revert m. induction l as [|e l IH]; intros m Hok Hl Hnd Hf; [by rewrite app_nil_r|].
  apply Forall_cons in Hl as [[He1 He2] Hl]. apply NoDup_cons in Hnd as [Hnin Hnd].
  destruct (addFreePages_spec m e Hok He2) as (Hok1 & Hp1 & Hu1 & _).
  rewrite decide_False in Hp1 by (apply Hf; left).
  destruct (IH (addFreePages e m) Hok1 Hl Hnd) as (Hok2 & Hp2 & Hu2).
  { intros x Hx. rewrite Hp1, not_elem_of_cons. split; [by intros ->|]. apply Hf. by right. }
  unfold addAll in *. cbn [foldl]. split; [done|]. split; [|by rewrite Hu2].
  rewrite Hp2, Hp1. by rewrite <-Permutation_middle.
Qed.

(** Ranges that do not overlap start at different pages, so there are at most as many of
    them as pages. *)
Lemma disjoint_starts N l :
  Forall (range_in N) l → (∀ p, cover p l ≤ 1) → NoDup (startPageIdx <$> l).
Proof.
  induction 1 as [|r l Hr Hl IH]; intros Hone; [constructor|]. rewrite fmap_cons. constructor.
  - intros (r' & E & Hr')%list_elem_of_fmap. specialize (Hone (startPageIdx r)). rewrite cover_cons in Hone.
    destruct Hr as (? & ? & ?). rewrite (proj2 (covers_true _ r)) in Hone by (unfold range_end in *; lia).
    rewrite Forall_forall in Hl. destruct (Hl r' Hr') as (? & ? & ?).
    pose proof (cover_pos (startPageIdx r) r' l Hr') as Hc. unfold range_end in *. lia.
  - apply IH. intros p. specialize (Hone p). rewrite cover_cons in Hone. lia.
Qed.

Lemma disjoint_count N l :
  (0 ≤ N)%Z → Forall (range_in N) l → (∀ p, cover p l ≤ 1) →
  NoDup l ∧ (Z.of_nat (List.length l) ≤ N)%Z.
Proof.
  intros HN Hl Hone. pose proof (disjoint_starts N l Hl Hone) as Hnd. split; [by eapply NoDup_fmap_1|].
  assert (List.length (startPageIdx <$> l) ≤ List.length (seqZ 0 N)) as Hlen.
  { apply NoDup_incl_length; [by apply NoDup_ListNoDup|]. intros p. rewrite <-!list_elem_of_In, elem_of_seqZ.
    intros (r & -> & Hr)%list_elem_of_fmap. rewrite Forall_forall in Hl. destruct (Hl r Hr) as (? & ? & ?).
    unfold range_end in *. lia. }
  rewrite length_fmap, length_seqZ in Hlen. lia.
Qed.

(** What a reachable page manager's free space manager satisfies. *)
Lemma pm_entries `{PageConfig} pm owned :
  pm_ok pm owned →
  entryCount (freeSpaceManager pm) = Z.of_nat (List.length (allEntries (freeSpaceManager pm))) ∧
  Forall entry_word (allEntries (freeSpaceManager pm)) ∧ NoDup (allEntries (freeSpaceManager pm)) ∧
  (Z.of_nat (List.length (allEntries (freeSpaceManager pm))) ≤ fileNumPages pm < 2 ^ 32)%Z.
Proof.
  intros Hok. pose proof (handle_pages_bound _ (po_handle _ _ Hok)) as HN.
  change (fhNumPages (fh (fileHandle pm))) with (fileNumPages pm) in HN.
  pose proof (po_in _ _ Hok) as Hin. rewrite !Forall_app in Hin. destruct Hin as (_ & Hu & Hf).
  assert (Forall (range_in (fileNumPages pm)) (allEntries (freeSpaceManager pm))) as Hall by by apply Forall_app_2.
  destruct (disjoint_count (fileNumPages pm) (allEntries (freeSpaceManager pm)) ltac:(lia) Hall) as [Hnd Hlen].
  { intros p. pose proof (po_cover_all _ _ p Hok) as Hc. unfold allEntries. rewrite !cover_app in *.
    unfold free, uncheckpointed in Hc. case_bool_decide; lia. }
  split; [|split; [|split; [done|lia]]].
  - unfold entryCount. rewrite (fsm_count _ (po_fsm _ _ Hok)). unfold allEntries in *. rewrite length_app in *.
    rewrite Nat2Z.inj_add in *. unfold wrap. rewrite Zplus_mod_idemp_l, Z.mod_small; lia.
  - eapply Forall_impl; [exact Hall|]. intros r (? & ? & ?). unfold entry_word, range_end in *. lia.
Qed.
