(* ===== verification/FreeSpaceSerialTheorems.v ===== *)
(** * Persisting the free space manager and the header

    The pages estimated for a serialization are enough; what is read back is the same set
    of free ranges; the header round trip and its errors. *)

From Stdlib Require Import Ascii String.
From stdpp Require Import pretty.
From S2P Require Import Prelude.
From S2P Require Import FileHandle.
From S2P Require Import FileHandleFacts.
From S2P Require Import FreeSpace.
From S2P Require Import FreeSpaceFacts.
From S2P Require Import PageManager.
From S2P Require Import PageTheorems.
From S2P Require Import PageExamples.
From S2P Require Import Serializer.
From S2P Require Import SerializerFacts.
From S2P Require Import Serial.
From S2P Require Import FreeSpaceSerial.

#[local] Open Scope nat_scope.
#[local] Open Scope list_scope.

(** ** The estimate *)

Section Estimate.
Context `{PageConfig}.

(** A tracker after [total] bytes in values of at most 20 bytes: the pages closed hold
    at least 44 bytes each. *)
Record tracked (total : Z) (t : SerializePagesUsedTracker) : Prop := {
  tr_page : (0 ≤ numBytesUsedInPage t ≤ LBUG_PAGE_SIZE)%Z;
  tr_pages : (0 ≤ numPagesUsed t)%Z;
  tr_closed : (44 * numPagesUsed t ≤ total - numBytesUsedInPage t)%Z;
  tr_total : (total ≤ numPagesUsed t * LBUG_PAGE_SIZE + numBytesUsedInPage t)%Z;
}.

Hypothesis page_size : (64 ≤ LBUG_PAGE_SIZE < 2 ^ 32)%Z.

Lemma updatePagesUsed_tracked total t n :
  tracked total t → (0 ≤ n ≤ 20)%Z → (total < 2 ^ 36)%Z → tracked (total + n) (updatePagesUsed n t).
Proof.
  intros [Hp Hn Hc Ht] Hle Hsmall. unfold updatePagesUsed.
  rewrite (wrap_id 64 (numBytesUsedInPage t + n)) by (unfold in_u; lia). case_bool_decide as Hfull.
  - assert (wrap 32 (numPagesUsed t + 1) = numPagesUsed t + 1)%Z as -> by (apply wrap_id; unfold in_u; lia).
    cbn [numPagesUsed numBytesUsedInPage]. rewrite wrap_id by (unfold in_u; lia).
    constructor; cbn [numPagesUsed numBytesUsedInPage]; nia.
  - rewrite wrap_id by (unfold in_u; lia). constructor; cbn [numPagesUsed numBytesUsedInPage]; lia.
Qed.

Lemma processEntries_tracked l total t :
  tracked total t → (total + 8 * Z.of_nat (List.length l) < 2 ^ 36)%Z →
  ∃ t', processEntries l t = (t', Ok ()) ∧ tracked (total + 8 * Z.of_nat (List.length l)) t'.
Proof.
  revert total t. induction l as [|e l IH]; intros total t Ht Hsmall.
  { exists t. split; [done|]. by rewrite Z.mul_0_r, Z.add_0_r. }
  cbn [List.length] in Hsmall |- *. rewrite Nat2Z.inj_succ in Hsmall |- *.
  cbn [processEntries]. unfold processEntry. st_run. cbn [processValue tracker_processor].
  destruct (IH (total + 4 + 4)%Z (updatePagesUsed 4 (updatePagesUsed 4 t))) as (t' & E & Ht').
  { apply updatePagesUsed_tracked; [apply updatePagesUsed_tracked|..]; [done|lia..]. }
  { lia. }
  exists t'. split; [exact E|]. by replace (total + 8 * Z.succ (Z.of_nat (List.length l)))%Z
    with (total + 4 + 4 + 8 * Z.of_nat (List.length l))%Z by lia.
Qed.

(** The labels are counted in every build; they are 61 bytes with the number of entries. *)
Lemma estimate_total m :
  (Z.of_nat (List.length (allEntries m)) < 2 ^ 32)%Z →
  let total := (61 + 8 * Z.of_nat (List.length (allEntries m)))%Z in
  (total ≤ getMaxNumPagesForSerialization m * LBUG_PAGE_SIZE)%Z ∧
  (0 ≤ getMaxNumPagesForSerialization m ≤ total)%Z.
Proof.
  intros Hlen total. unfold getMaxNumPagesForSerialization. set (t0 := mkTracker 0 0).
  assert (serializeInternal m t0 = processEntries (allEntries m)
    (updatePagesUsed 15 (updatePagesUsed 8 (updatePagesUsed 18 (updatePagesUsed 20 t0))))) as ->
    by (rewrite serializeInternal_each; reflexivity).
  assert (tracked 0 t0) as H0 by (constructor; simpl; lia).
  pose proof (updatePagesUsed_tracked _ _ 20 H0 ltac:(lia) ltac:(lia)) as H1.
  pose proof (updatePagesUsed_tracked _ _ 18 H1 ltac:(lia) ltac:(lia)) as H2.
  pose proof (updatePagesUsed_tracked _ _ 8 H2 ltac:(lia) ltac:(lia)) as H3.
  pose proof (updatePagesUsed_tracked _ _ 15 H3 ltac:(lia) ltac:(lia)) as H4.
  destruct (processEntries_tracked (allEntries m) _ _ H4 ltac:(lia)) as (t' & E & Ht'). rewrite E. cbn [fst].
  change (0 + 20 + 18 + 8 + 15 + 8 * Z.of_nat (List.length (allEntries m)))%Z with total in Ht'.
  destruct Ht' as [Hp Hn Hc Ht]. rewrite wrap_id by (unfold in_u; case_bool_decide; lia).
  case_bool_decide; split; nia.
Qed.

Lemma length_enc_fsm `{DeserDebug} m :
  (Z.of_nat (List.length (enc_fsm m)) ≤ 61 + 8 * Z.of_nat (List.length (allEntries m)))%Z.
Proof.
  unfold enc_fsm, enc_label. rewrite !length_app, (length_enc_each _ 8), length_bytes_of
    by (intros; apply length_enc_entry).
  destruct DESER_DEBUG; unfold enc_string; rewrite ?length_app, ?length_bytes_of, ?length_bytes_of_string;
    cbn [List.length String.length]; lia.
Qed.
End Estimate.

(** ** The free space manager *)

Section FreeSpace.
Context `{PageConfig} `{DeserDebug}.
Variable pin : Z → stM PageFile ().
Variable madvise : Z → result ().
Variable garbage : list Z.
Hypothesis madvise_ok : ∀ frame, madvise frame ≠ UB.
Hypothesis garbage_page : List.length garbage = BUFFER_SIZE.

(** C24: The free space manager of any reachable page manager, serialized behind whatever
    the in-memory writer holds and read back into an empty manager through a buffered
    file reader, is a well-formed manager of the same free ranges: those that were free
    and those freed since the last checkpoint, each once, and none is waiting. *)
Theorem free_space_roundtrip pm owned w :
  pm_reachable pin madvise pm owned → imw_ok w → tight w → (Z.of_nat (imw_getSize w) < 2 ^ 61)%Z →
  ∃ w', fsm_serialize (H := InMemFileWriter_writer garbage) (freeSpaceManager pm) w = (w', Ok ()) ∧ imw_ok w' ∧
    take (imw_getSize w) (imw_contents w') = imw_contents w ∧
    ∀ r rest, bfr_ok r → bfr_remaining r = drop (imw_getSize w) (imw_contents w') ++ rest →
      ∃ r' m, fsm_deserialize emptyFSM r = (r', Ok m) ∧ bfr_remaining r' = rest ∧ fsm_ok m ∧
        freePages m ≡ₚ free pm ++ uncheckpointed pm ∧ uncheckpointedFreePageRanges m = [].
Proof.
  intros Hr Hok Ht Hsize. apply (reachable_ok pin madvise madvise_ok) in Hr.
  destruct (pm_entries pm owned Hr) as (Hc & Hw & Hnd & Hlen).
  set (m0 := freeSpaceManager pm) in *.
  destruct (fsm_serialize_writes (H0 := InMemFileWriter_laws garbage garbage_page) m0 w)
    as (w' & E & [Hok' _] & C).
  { by split. }
  { unfold fits. pose proof (length_enc_fsm m0). cbn [wr_contents wr_cap InMemFileWriter_laws].
    rewrite (imw_length garbage) by done. lia. }
  cbn [wr_contents InMemFileWriter_laws] in C. exists w'. split; [exact E|]. split; [done|].
  rewrite C, take_app_length', drop_app_length' by (by rewrite (imw_length garbage)). split; [done|].
  intros r rest Hrok Hrem.
  destruct (fsm_deserialize_reads (H0 := BufferedFileReader_laws) m0 emptyFSM Hc Hw r rest Hrok Hrem)
    as (r' & Er & _ & Hrest).
  destruct (addAll_fresh (allEntries m0) emptyFSM emptyFSM_ok Hw Hnd) as (? & Hp & ?).
  { intros e _. apply not_elem_of_nil. }
  exists r', (addAll (allEntries m0) emptyFSM). by rewrite Hp.
Qed.
End FreeSpace.

(** ** The header *)

Definition header_word (h : DatabaseHeader) : Prop :=
  (0 ≤ startPageIdx (catalogPageRange h) < 2 ^ 32)%Z ∧ (0 ≤ numPages (catalogPageRange h) < 2 ^ 32)%Z ∧
  (0 ≤ startPageIdx (metadataPageRange h) < 2 ^ 32)%Z ∧ (0 ≤ numPages (metadataPageRange h) < 2 ^ 32)%Z ∧
  (0 ≤ dataFileNumPages h < 2 ^ 32)%Z ∧ (0 ≤ databaseID h < 2 ^ 128)%Z.

Definition enc_magic `{DeserDebug} : list Z :=
  enc_label "magic" ++ enc_each (bytes_of 1) (bytes_of_string MAGIC_BYTES).
Definition enc_version `{DeserDebug} (v : Z) : list Z := enc_label "storage_version" ++ bytes_of 8 v.
Definition enc_ranges `{DeserDebug} (h : DatabaseHeader) : list Z :=
  enc_label "catalog" ++ bytes_of 4 (startPageIdx (catalogPageRange h)) ++ bytes_of 4 (numPages (catalogPageRange h)) ++
  enc_label "metadata" ++ bytes_of 4 (startPageIdx (metadataPageRange h)) ++
  bytes_of 4 (numPages (metadataPageRange h)) ++
  enc_label "databaseID" ++ bytes_of 16 (databaseID h).
Definition enc_header `{DeserDebug} (v : Z) (h : DatabaseHeader) : list Z :=
  enc_magic ++ enc_version v ++ enc_ranges h ++
  bytes_of 1 HEADER_FORMAT_VERSION_WITH_DATAFILE_NUM_PAGES ++ bytes_of 4 (dataFileNumPages h).

Lemma header_serialize_writes {W} `{WriterLaws W} `{DeserDebug} v h :
  writes (header_serialize v h) (enc_header v h).
Proof.
  unfold header_serialize, writeMagicBytes, enc_header, enc_magic, enc_version, enc_ranges.
  rewrite <-!(assoc_L (++)), (assoc_L (++) (enc_label "magic")).
  apply writes_bind; [apply writes_bind; [apply writes_label|apply writes_each; intros; apply writes_value]|].
  repeat first [apply writes_bind; [first [apply writes_label|apply writes_value]|]|apply writes_value].
Qed.

Section ReadHeader.
Context {R : Type} `{ReaderLaws R} `{DeserDebug}.

Lemma reads_magic : reads validateMagicBytes enc_magic ().
Proof.
  unfold validateMagicBytes, enc_magic. eapply reads_bind; [by apply reads_label|].
  rewrite <-(app_nil_r (enc_each _ _)). eapply reads_bind.
  - apply (reads_each (deserializeValue 1) (bytes_of 1) (bytes_of_string MAGIC_BYTES)).
    intros b Hb. apply reads_value. revert b Hb. apply Forall_forall. vm_compute. repeat constructor; done.
  - rewrite decide_True by done. apply reads_ret.
Qed.

Lemma reads_version v : (0 ≤ v < 2 ^ 64)%Z → reads (validateStorageVersion v) (enc_version v) ().
Proof.
  intros Hv. unfold validateStorageVersion, enc_version. eapply reads_bind; [by apply reads_label|].
  rewrite <-(app_nil_r (bytes_of 8 v)). eapply reads_bind; [apply reads_value; simpl; lia|].
  rewrite bool_decide_true by done. apply reads_ret.
Qed.

Lemma header_deserialize_reads v h :
  (0 ≤ v < 2 ^ 64)%Z → header_word h → reads (header_deserialize v) (enc_header v h) h.
Proof.
  intros Hv (? & ? & ? & ? & ? & ?). unfold header_deserialize, enc_header, enc_ranges.
  rewrite <-!(assoc_L (++)).
  eapply reads_bind; [apply reads_magic|]. eapply reads_bind; [by apply reads_version|].
  do 8 (eapply reads_bind; [first [by apply reads_label|apply reads_value; simpl; lia]|]).
  eapply reads_bind; [by apply reads_value|]. rewrite bool_decide_true by done. rewrite <-(app_nil_r (bytes_of 4 (dataFileNumPages h))).
  eapply reads_bind; [apply reads_value; simpl; lia|]. destruct h as [[] [] ? ?]. apply reads_ret.
Qed.

(** A file of another storage version. *)
Lemma header_version_mismatch v v' h r rest :
  (0 ≤ v < 2 ^ 64)%Z → v ≠ v' → rd_ok r → rd_remaining r = enc_header v h ++ rest →
  ∃ r', header_deserialize v' r = (r', Throw (Exn RuntimeException
    ("Trying to read a database file with a different version. Database file version: " +:+
     pretty v +:+ ", Current build storage version: " +:+ pretty v'))).
Proof.
  intros Hv Hne Hok E. unfold enc_header in E. rewrite <-!(assoc_L (++)) in E.
  unfold header_deserialize. rewrite st_bind_run. destruct (reads_magic r _ Hok E) as (r1 & E1 & Hok1 & C1).
  rewrite E1. unfold enc_version in C1. rewrite <-!(assoc_L (++)) in C1.
  rewrite st_bind_run. unfold validateStorageVersion. rewrite st_bind_run.
  destruct (reads_label "storage_version" ltac:(done) r1 _ Hok1 C1) as (r2 & E2 & Hok2 & C2). rewrite E2.
  rewrite st_bind_run. destruct (reads_value 8 v ltac:(simpl; lia) r2 _ Hok2 C2) as (r3 & E3 & _).
  rewrite E3, bool_decide_false by done. by eexists.
Qed.
End ReadHeader.

Lemma length_enc_header `{DeserDebug} v h : List.length (enc_header v h) ≤ 200.
Proof.
  unfold enc_header, enc_magic, enc_version, enc_ranges, enc_label.
  rewrite !length_app, (length_enc_each _ 1) by (intros; apply length_bytes_of).
  rewrite !length_bytes_of, length_bytes_of_string.
  destruct DESER_DEBUG; unfold enc_string; rewrite ?length_app, ?length_bytes_of, ?length_bytes_of_string;
    cbn [List.length String.length MAGIC_BYTES]; lia.
Qed.

Section HeaderFile.
Context `{PageConfig}.
Variable garbage : list Z.
Hypothesis garbage_page : List.length garbage = BUFFER_SIZE.
Hypothesis page_size : (256 ≤ LBUG_PAGE_SIZE)%Z.

(** The first page of a small serialization. *)
Lemma first_page w :
  imw_ok w → tight w → 0 < imw_getSize w ≤ BUFFER_SIZE →
  ∃ page, pages w = [page] ∧ List.length page = BUFFER_SIZE ∧ imw_contents w = take (imw_getSize w) page.
Proof.
  intros Hok Ht Hs. pose proof (tight_pages garbage garbage_page w Hok Ht) as Hn. unfold getNumPagesToFlush, pages_for in Hn.
  pose proof BUFFER_SIZE_pos as Hb.
  assert ((imw_getSize w + BUFFER_SIZE - 1) / BUFFER_SIZE = 1) as Hq.
  { symmetry. apply (Nat.div_unique _ _ _ (imw_getSize w - 1)); lia. }
  rewrite Hq in Hn. destruct (pages w) as [|page [|]] eqn:Ep; [done| |done].
  exists page. split; [done|]. destruct Hok as [Hp _ _]. rewrite Ep in Hp. apply Forall_cons_1 in Hp as [Hp _].
  split; [done|]. unfold imw_contents. rewrite Ep. simpl. by rewrite app_nil_r.
Qed.

Lemma header_page `{DeserDebug} v h :
  ∃ w page, header_serialize (H := InMemFileWriter_writer garbage) v h (mkIMW [] 0) = (w, Ok ()) ∧
    pages w = [page] ∧ List.length page = BUFFER_SIZE ∧ ∃ rest, page = enc_header v h ++ rest.
Proof.
  destruct (newInMemFileWriter_ok garbage garbage_page) as (Hok & Hc & Ht). pose proof (length_enc_header v h) as Hlen.
  destruct (header_serialize_writes (H0 := InMemFileWriter_laws garbage garbage_page) v h (mkIMW [] 0))
    as (w & E & [Hok' Ht'] & C); [by split| |].
  { unfold fits. cbn [wr_contents wr_cap InMemFileWriter_laws]. rewrite Hc. simpl. lia. }
  cbn [wr_contents InMemFileWriter_laws] in C. rewrite Hc in C. simpl in C.
  pose proof (imw_length garbage garbage_page w Hok') as Hl. rewrite C in Hl.
  assert (0 < imw_getSize w ≤ BUFFER_SIZE) as Hs.
  { rewrite <-Hl. unfold BUFFER_SIZE. split; [|lia]. unfold enc_header. rewrite !length_app, !length_bytes_of. lia. }
  destruct (first_page w Hok' Ht' Hs) as (page & Ep & Hp & Cp). exists w, page. split_and!; [done..|].
  exists (drop (imw_getSize w) page). rewrite <-C, Cp. by rewrite take_drop.
Qed.

(** C33: The header of a database, written to its first page, is read back from a file
    that starts with this page; a build with another storage version finds no header in
    the file. *)
Theorem header_roundtrip `{DeserDebug} v h :
  (0 ≤ v < 2 ^ 64)%Z → header_word h →
  ∃ w page, header_serialize (H := InMemFileWriter_writer garbage) v h (mkIMW [] 0) = (w, Ok ()) ∧
    pages w = [page] ∧ List.length page = BUFFER_SIZE ∧
    ∀ rest, readDatabaseHeader v (page ++ rest) = Ok (Some h) ∧
      (∀ v', v' ≠ v → readDatabaseHeader v' (page ++ rest) = Ok None).
Proof.
  intros Hv Hh. destruct (header_page v h) as (w & page & E & Ep & Hp & tail & Epage).
  exists w, page. split_and!; [done..|]. intros rest.
  assert (page ++ rest ≠ []) as Hne by (destruct page; [pose proof BUFFER_SIZE_pos; simpl in *; lia|done]).
  assert ((Z.of_nat (List.length (page ++ rest)) < LBUG_PAGE_SIZE)%Z → False) as Hlen.
  { rewrite length_app, Hp. unfold BUFFER_SIZE. lia. }
  destruct (newBufferedFileReader_ok (page ++ rest) Hne) as (r & Er & Hr & Crem).
  unfold readDatabaseHeader. rewrite bool_decide_false by done. rewrite Er.
  rewrite Epage, <-(assoc_L (++)) in Crem. split.
  - destruct (header_deserialize_reads (H0 := BufferedFileReader_laws) v h Hv Hh r _ Hr Crem) as (r' & E' & _).
    by rewrite E'.
  - intros v' Hne'. destruct (header_version_mismatch (H0 := BufferedFileReader_laws) v v' h r _ Hv (not_eq_sym Hne') Hr Crem)
      as (r' & E'). by rewrite E'.
Qed.
End HeaderFile.

Section Rejected.
Context `{PageConfig}.
Hypothesis page_size : (256 ≤ LBUG_PAGE_SIZE)%Z.

Lemma read_bytes bs r rest :
  bfr_ok r → bfr_remaining r = bs ++ rest →
  ∃ r', deserializeEach (deserializeValue 1) (List.length bs) r = (r', Ok bs).
Proof.
  revert r. induction bs as [|b bs IH]; intros r Hr Crem; [by exists r|]. cbn [deserializeEach List.length].
  destruct (rd_read_spec (ReaderLaws := BufferedFileReader_laws) r [b] (bs ++ rest) Hr Crem) as (r1 & E1 & Hr1 & C1).
  destruct (IH r1 Hr1 C1) as (r2 & E2). exists r2. rewrite st_bind_run.
  assert (deserializeValue 1 r = (r1, Ok b)) as ->.
  { unfold deserializeValue. rewrite st_bind_run. change 1 with (List.length [b]). rewrite E1.
    cbn [value_of mret stM_ret]. by rewrite Z.mul_0_r, Z.add_0_r. }
  rewrite st_bind_run, E2. done.
Qed.

(** A file shorter than a page has no header; without debugging labels neither has a
    file that does not start with the magic bytes, whatever it holds: the exception of
    the check does not escape. *)
Theorem header_rejected v file :
  (Z.of_nat (List.length file) < LBUG_PAGE_SIZE)%Z ∨ take 4 file ≠ bytes_of_string MAGIC_BYTES →
  readDatabaseHeader (H0 := false) v file = Ok None.
Proof.
  intros Hbad. unfold readDatabaseHeader. case_bool_decide as Hlen; [done|]. destruct Hbad as [?|Hbad]; [done|].
  destruct file as [|b0 [|b1 [|b2 [|b3 file]]]]; try (cbn [List.length] in Hlen; lia).
  destruct (newBufferedFileReader_ok (b0 :: b1 :: b2 :: b3 :: file) ltac:(done)) as (r & Er & Hr & Crem).
  rewrite Er.
  destruct (read_bytes [b0; b1; b2; b3] r file Hr Crem) as (r' & E).
  assert (header_deserialize (H0 := false) v r = (r', Throw (Exn RuntimeException
    "Unable to open database. The file is not a valid Lbug database file!"))) as ->; [|done].
  unfold header_deserialize. rewrite st_bind_run. unfold validateMagicBytes.
  change (validateDebuggingInfo (H0 := false) "magic") with (mret (M := stM BufferedFileReader) ()).
  st_run. change (String.length MAGIC_BYTES) with (List.length [b0; b1; b2; b3]).
  rewrite E, decide_False by exact Hbad. done.
Qed.
End Rejected.

(** * Concrete serializations

    The theorems of [FreeSpaceSerialTheorems] on the small configuration of
    [PageExamples]. *)

#[local] Open Scope nat_scope.
#[local] Open Scope list_scope.
#[local] Existing Instance config.

Definition no_labels : DeserDebug := false.
Definition labels : DeserDebug := true.
Definition stale_page : list Z := replicate 4096 7%Z.
Lemma stale_page_ok : List.length stale_page = BUFFER_SIZE.
Proof. unfold stale_page. rewrite length_replicate. reflexivity. Qed.

Lemma free_space_roundtrip_witness :
  ∃ w' m, fsm_serialize (H0 := labels) (H := InMemFileWriter_writer stale_page) (freeSpaceManager pm3) (mkIMW [] 0)
      = (w', Ok ()) ∧
    freePages m ≡ₚ [mkRange 1 3] ∧
    ∃ r r', newBufferedFileReader (imw_contents w') = (r, Ok ()) ∧ fsm_deserialize (H0 := labels) emptyFSM r = (r', Ok m).
Proof.
  destruct (newInMemFileWriter_ok stale_page stale_page_ok) as (Hok & Hc & Ht).
  destruct (free_space_roundtrip (H0 := labels) pin_nothing madvise_succeeds stale_page madvise_succeeds_ok
    stale_page_ok pm3 owned3 (mkIMW [] 0) pm3_reachable Hok Ht ltac:(reflexivity))
    as (w' & E & Hok' & _ & Hread).
  change (imw_getSize (mkIMW [] 0)) with 0 in Hread. rewrite drop_0 in Hread.
  assert (imw_contents w' ≠ []) as Hne.
  { apply (f_equal fst) in E. cbn [fst] in E. rewrite <-E. vm_compute. discriminate. }
  destruct (newBufferedFileReader_ok (imw_contents w') Hne) as (r & Er & Hr & Crem).
  destruct (Hread r [] Hr) as (r' & m & Em & _ & _ & Hp & _).
  { by rewrite app_nil_r. }
  exists w', m. split; [exact E|]. split; [|exists r, r'; split; [exact Er|exact Em]].
  rewrite Hp. destruct pm3_free as [Ef Eu]. rewrite Ef, Eu. reflexivity.
Defined.

Definition sample_header : DatabaseHeader := mkHeader (mkRange 1 2) (mkRange 3 1) 12 77.
Lemma config_page : (256 ≤ LBUG_PAGE_SIZE)%Z.
Proof. discriminate. Qed.
Lemma sample_header_ok : header_word sample_header.
Proof. unfold header_word, sample_header. simpl. lia. Qed.

Lemma header_roundtrip_witness :
  ∃ page, readDatabaseHeader (H0 := labels) 40 page = Ok (Some sample_header) ∧
    readDatabaseHeader (H0 := labels) 41 page = Ok None.
Proof.
  destruct (header_roundtrip stale_page stale_page_ok config_page (H0 := labels) 40 sample_header ltac:(lia)
    sample_header_ok) as (w & page & _ & _ & _ & Hread).
  exists (page ++ []). destruct (Hread []) as [Hr Hv]. split; [exact Hr|]. apply Hv. lia.
Defined.

Lemma header_rejected_witness :
  readDatabaseHeader (H0 := no_labels) 40%Z [1%Z; 2%Z] = Ok None ∧
  readDatabaseHeader (H0 := no_labels) 40%Z (replicate 4096 0%Z) = Ok None.
Proof.
  split.
  - apply (header_rejected config_page 40%Z [1%Z; 2%Z]). left. reflexivity.
  - apply (header_rejected config_page 40%Z (replicate 4096 0%Z)). right. vm_compute. discriminate.
Defined.
