(* ===== verification/Checksum.v ===== *)
(** * Checksummed objects of the write-ahead log (common/checksum.cpp,
    storage/wal/checksum_writer.cpp, storage/wal/checksum_reader.cpp)

    [ChecksumWriter] collects the bytes of an object and writes them with their checksum;
    [ChecksumReader] checks it.  A log is written and read through them or directly, as
    the configuration says: [Sink] and [Source] are the two kinds of each. *)

From Stdlib Require Import Ascii String.
From S2P Require Import Prelude.
From S2P Require Import FileHandle.
From S2P Require Import Serializer.
From S2P Require Import SerializerFacts.
From S2P Require Import Serial.
#[local] Open Scope nat_scope.
#[local] Open Scope list_scope.

(** ** The checksum *)

Definition checksum_word (x : Z) : Z := wrap 64 (x * 0xbf58476d1ce4e5b9).

Definition M : Z := 0xc6a4a7935bd1e995.
Definition SEED : Z := 0xe17a1465.
Definition R : Z := 47.

(** The 64-bit words of a buffer, and the bytes after the last one. *)
Definition words (l : list Z) : list Z :=
  (λ i, value_of (take 8 (drop (8 * i) l))) <$> seq 0 (List.length l / 8).
Definition tail_bytes (l : list Z) : list Z := drop (8 * (List.length l / 8)) l.

Definition mix_word (h k : Z) : Z :=
  let k := wrap 64 (k * M) in
  let k := Z.lxor k (Z.shiftr k R) in
  let k := wrap 64 (k * M) in
  wrap 64 (Z.lxor h k * M).

(** The cases of the switch, from the last of the bytes left over down to the first. *)
Definition mix_tail (h : Z) (data8 : list Z) : Z :=
  match data8 with
  | [] => h
  | _ => wrap 64 (foldr (λ '(i, b) h, Z.lxor h (Z.shiftl b (8 * i))) h (imap (λ i b, (Z.of_nat i, b)) data8) * M)
  end.

Definition checksumRemainder (l : list Z) : Z :=
  let h := Z.lxor SEED (wrap 64 (Z.of_nat (List.length l) * M)) in
  let h := foldl mix_word h (words l) in
  let h := mix_tail h (tail_bytes l) in
  let h := Z.lxor h (Z.shiftr h R) in
  let h := wrap 64 (h * M) in
  Z.lxor h (Z.shiftr h R).

Definition checksum (buffer : list Z) : Z :=
  let result := foldl (λ r w, Z.lxor r (checksum_word w)) 5381%Z (words buffer) in
  if bool_decide (0 < List.length buffer mod 8)
  then Z.lxor result (checksumRemainder (tail_bytes buffer)) else result.

(** ** Writers and readers of objects *)

Class ObjectWriter (W : Type) : Type := { onObjectBegin : stM W (); onObjectEnd : stM W () }.
Class ObjectReader (R : Type) : Type := { onReadBegin : stM R (); onReadEnd : stM R () }.

Section Checksummed.
Context `{PageConfig}.
(** The contents of a new buffer of [n] bytes, which the allocation does not clear. *)
Variable allocateBuffer : nat → list Z.

Definition INITIAL_BUFFER_SIZE : nat := Z.to_nat LBUG_PAGE_SIZE.
Definition bit_ceil (n : nat) : nat := 2 ^ Nat.log2_up n.

(** A larger buffer replaces the old one; its contents are not copied. *)
Definition resizeBufferIfNeeded (entryBuffer : list Z) (requestedSize : nat) : list Z :=
  if decide (List.length entryBuffer < requestedSize) then allocateBuffer (bit_ceil requestedSize)
  else entryBuffer.

Record ChecksumWriter (W : Type) : Type := mkCW {
  outputSerializer : W;
  cw_currentEntrySize : option nat;
  cw_entryBuffer : list Z;
}.
#[global] Arguments mkCW {W}.
#[global] Arguments outputSerializer {W}.
#[global] Arguments cw_currentEntrySize {W}.
#[global] Arguments cw_entryBuffer {W}.

Definition newChecksumWriter {W} (w : W) : ChecksumWriter W := mkCW w None (allocateBuffer INITIAL_BUFFER_SIZE).

Definition on_output {W A} (f : stM W A) : stM (ChecksumWriter W) A :=
  λ w, let '(o, r) := f (outputSerializer w) in (mkCW o (cw_currentEntrySize w) (cw_entryBuffer w), r).

Definition cw_write {W} `{Writer W} (data : list Z) : stM (ChecksumWriter W) () :=
  w ← st_get;
  match cw_currentEntrySize w with
  | Some currentEntrySize =>
      let size := List.length data in
      entryBuffer ← st_lift (memcpy (resizeBufferIfNeeded (cw_entryBuffer w) (currentEntrySize + size))
                               currentEntrySize data);
      st_put (mkCW (outputSerializer w) (Some (currentEntrySize + size)) entryBuffer)
  | None => on_output (wr_write data)
  end.

Definition cw_onObjectBegin {W} : stM (ChecksumWriter W) () :=
  st_modify (λ w, mkCW (outputSerializer w) (Some 0) (cw_entryBuffer w)).

Definition cw_onObjectEnd {W} `{Writer W} : stM (ChecksumWriter W) () :=
  w ← st_get;
  currentEntrySize ← st_lift (deref (cw_currentEntrySize w));
  entry ← st_lift (bytes_at (cw_entryBuffer w) 0 currentEntrySize);
  _ ← on_output (wr_write entry);
  _ ← on_output (serializeValue 8 (checksum entry));
  st_modify (λ w, mkCW (outputSerializer w) None (cw_entryBuffer w)).

#[export] Instance ChecksumWriter_writer {W} `{Writer W} : Writer (ChecksumWriter W) := {| wr_write := cw_write |}.

Record ChecksumReader : Type := mkCR {
  deserializer : BufferedFileReader;
  cr_currentEntrySize : option nat;
  cr_entryBuffer : list Z;
}.

Definition on_input {A} (f : stM BufferedFileReader A) : stM ChecksumReader A :=
  λ r, let '(i, x) := f (deserializer r) in (mkCR i (cr_currentEntrySize r) (cr_entryBuffer r), x).

Definition cr_read (size : nat) : stM ChecksumReader (list Z) :=
  data ← on_input (rd_read size);
  r ← st_get;
  match cr_currentEntrySize r with
  | Some currentEntrySize =>
      entryBuffer ← st_lift (memcpy (resizeBufferIfNeeded (cr_entryBuffer r) (currentEntrySize + size))
                               currentEntrySize data);
      _ ← st_put (mkCR (deserializer r) (Some (currentEntrySize + size)) entryBuffer);
      mret data
  | None => mret data
  end.

Definition cr_onObjectBegin : stM ChecksumReader () :=
  st_modify (λ r, mkCR (deserializer r) (Some 0) (cr_entryBuffer r)).

Definition checksumMismatchMessage : string := "Checksum verification failed, the WAL file is corrupted.".

Definition cr_onObjectEnd : stM ChecksumReader () :=
  r ← st_get;
  currentEntrySize ← st_lift (deref (cr_currentEntrySize r));
  entry ← st_lift (bytes_at (cr_entryBuffer r) 0 currentEntrySize);
  storedChecksum ← on_input (deserializeValue 8);
  if bool_decide (storedChecksum = checksum entry) then
    st_modify (λ r, mkCR (deserializer r) None (cr_entryBuffer r))
  else st_throw StorageException checksumMismatchMessage.

#[export] Instance ChecksumReader_reader : Reader ChecksumReader :=
  {| rd_read := cr_read; rd_finished := λ r, rd_finished (deserializer r) |}.

(** ** With or without checksums *)

Inductive Sink (W : Type) : Type :=
| Plain (w : W)
| Checked (w : ChecksumWriter W).
#[global] Arguments Plain {W} w.
#[global] Arguments Checked {W} w.

Inductive Source : Type :=
| PlainReader (r : BufferedFileReader)
| CheckedReader (r : ChecksumReader).

(** The virtual calls. *)
Definition sink_call {W A} (f : stM W A) (g : stM (ChecksumWriter W) A) : stM (Sink W) A := λ s,
  match s with
  | Plain w => let '(w, r) := f w in (Plain w, r)
  | Checked w => let '(w, r) := g w in (Checked w, r)
  end.
Definition source_call {A} (f : stM BufferedFileReader A) (g : stM ChecksumReader A) : stM Source A := λ s,
  match s with
  | PlainReader r => let '(r, x) := f r in (PlainReader r, x)
  | CheckedReader r => let '(r, x) := g r in (CheckedReader r, x)
  end.

#[export] Instance Sink_writer {W} `{Writer W} : Writer (Sink W) :=
  {| wr_write bs := sink_call (wr_write bs) (cw_write bs) |}.
(** The other writers and readers keep the defaults of the abstract classes, which do
    nothing. *)
#[export] Instance Sink_objects {W} `{Writer W} : ObjectWriter (Sink W) :=
  {| onObjectBegin := sink_call (mret ()) cw_onObjectBegin;
     onObjectEnd := sink_call (mret ()) cw_onObjectEnd |}.

#[export] Instance Source_reader : Reader Source :=
  {| rd_read n := source_call (rd_read n) (cr_read n);
     rd_finished s := match s with PlainReader r => bfr_finished r | CheckedReader r => rd_finished r end |}.
#[export] Instance Source_objects : ObjectReader Source :=
  {| onReadBegin := source_call (mret ()) cr_onObjectBegin;
     onReadEnd := source_call (mret ()) cr_onObjectEnd |}.

(** The writer inside. *)
Definition sink_out {W} (s : Sink W) : W :=
  match s with Plain w => w | Checked w => outputSerializer w end.
Definition source_in (s : Source) : BufferedFileReader :=
  match s with PlainReader r => r | CheckedReader r => deserializer r end.

Definition newSink {W} (enableChecksums : bool) (w : W) : Sink W :=
  if enableChecksums then Checked (newChecksumWriter w) else Plain w.

(** [initDeserializer] *)
Definition initDeserializer (enableChecksums : bool) (file : list Z) : Source * result () :=
  let '(r, x) := newBufferedFileReader file in
  (if enableChecksums then CheckedReader (mkCR r None (allocateBuffer INITIAL_BUFFER_SIZE)) else PlainReader r, x).
End Checksummed.

(** ** Facts about checksummed objects

    What is written between the beginning and the end of an object reaches the writer
    inside as one frame, the bytes with their checksum when checksums are on, and is read
    back from it.  This needs the object to fit the buffer of a page. *)

Lemma testbit_small w n i : (0 ≤ w < 2 ^ n)%Z → (0 ≤ n ≤ i)%Z → Z.testbit w i = false.
Proof.
  intros Hw Hi. destruct (Z.eq_dec w 0%Z) as [->|]; [by rewrite Z.bits_0|].
  apply Z.bits_above_log2; [lia|]. assert (Z.log2 w < n)%Z by (apply Z.log2_lt_pow2; lia). lia.
Qed.

Lemma bits_lt w n : (0 ≤ n)%Z → (∀ i, (n ≤ i)%Z → Z.testbit w i = false) → (0 ≤ w)%Z → (w < 2 ^ n)%Z.
Proof.
  intros Hn Hb Hw. destruct (Z.lt_ge_cases w (2 ^ n)) as [?|Hge]; [done|exfalso].
  assert (0 < w)%Z as Hpos by (pose proof (Z.pow_pos_nonneg 2 n ltac:(lia) Hn); lia).
  pose proof (Z.bit_log2 w Hpos) as Ht. rewrite Hb in Ht; [done|]. by apply Z.log2_le_pow2.
Qed.

(** Words of 64 bits stay words. *)
Lemma lxor_word a b : in_u 64 a → in_u 64 b → in_u 64 (Z.lxor a b).
Proof.
  unfold in_u. intros Ha Hb. assert (0 ≤ Z.lxor a b)%Z by (apply Z.lxor_nonneg; lia).
  split; [done|]. apply bits_lt; [lia| |done]. intros i Hi. rewrite Z.lxor_spec, !(testbit_small _ 64) by (done || lia); done.
Qed.

Lemma wrap_word x : in_u 64 (wrap 64 x).
Proof. by apply wrap_range. Qed.

Lemma checksum_range l : in_u 64 (checksum l).
Proof.
  unfold checksum. set (result := foldl _ _ _).
  assert (in_u 64 result) as Hr.
  { assert (in_u 64 5381) as H0 by (unfold in_u; lia). subst result. revert H0. generalize 5381%Z (words l).
    intros r ws. revert r. induction ws as [|w ws IH]; intros r Hr; [done|]. simpl.
    apply IH, lxor_word; [done|apply wrap_word]. }
  case_bool_decide; [|done]. apply lxor_word; [done|]. unfold checksumRemainder.
  set (h := wrap 64 _). assert (in_u 64 h) as Hh by (subst h; apply wrap_word).
  apply lxor_word; [done|]. unfold in_u in *. rewrite Z.shiftr_div_pow2 by (unfold R; lia).
  split; [apply Z.div_pos; [lia|by vm_compute]|]. apply Z.div_lt_upper_bound; [by vm_compute|].
  unfold R. lia.
Qed.

Section Frames.
Context `{PageConfig}.
Variable allocateBuffer : nat → list Z.
Hypothesis allocateBuffer_size : ∀ n, List.length (allocateBuffer n) = n.

Lemma resize_small buf n : n ≤ List.length buf → resizeBufferIfNeeded allocateBuffer buf n = buf.
Proof. intros. unfold resizeBufferIfNeeded. by rewrite decide_False by lia. Qed.

Lemma bit_ceil_ge n : n ≤ bit_ceil n.
Proof.
  unfold bit_ceil. destruct (decide (n ≤ 1)); [|apply Nat.log2_up_spec; lia].
  pose proof (Nat.pow_nonzero 2 (Nat.log2_up n)). lia.
Qed.

Lemma resize_fits buf n : n ≤ List.length (resizeBufferIfNeeded allocateBuffer buf n).
Proof.
  unfold resizeBufferIfNeeded. case_decide; [rewrite allocateBuffer_size; apply bit_ceil_ge|lia].
Qed.

Lemma memcpy_length dst off src dst' : memcpy dst off src = Ok dst' → List.length dst' = List.length dst.
Proof. unfold memcpy. case_decide; [|done]. intros [= <-]. apply length_inserts. Qed.

Lemma memcpy_take dst off src :
  off + List.length src ≤ List.length dst →
  ∃ dst', memcpy dst off src = Ok dst' ∧ take (off + List.length src) dst' = take off dst ++ src ∧
    List.length dst' = List.length dst.
Proof.
  intros Hle. pose proof (memcpy_ok dst off src Hle) as E. eexists. split; [exact E|]. split; [|by eapply memcpy_length].
  rewrite (assoc_L (++)), take_app_length'; [done|]. rewrite length_app, length_take. lia.
Qed.

(** ** Writing an object *)

Section Writing.
Context {W : Type} `{WriterLaws W}.

(** The writer between two objects, and inside an object that began at [s0]. *)
Definition sink_ok (s : Sink W) : Prop :=
  wr_ok (sink_out s) ∧
  match s with
  | Plain _ => True
  | Checked w => cw_currentEntrySize w = None ∧ List.length (cw_entryBuffer w) = BUFFER_SIZE
  end.

Definition sink_inside (s0 s : Sink W) : Prop :=
  match s0, s with
  | Plain _, Plain w => wr_ok w
  | Checked w0, Checked w =>
      outputSerializer w = outputSerializer w0 ∧ List.length (cw_entryBuffer w) = BUFFER_SIZE ∧
      ∃ n, cw_currentEntrySize w = Some n ∧ n ≤ BUFFER_SIZE
  | _, _ => False
  end.

Definition sink_entry (s : Sink W) : list Z :=
  match s with
  | Plain w => wr_contents w
  | Checked w => take (default 0 (cw_currentEntrySize w)) (cw_entryBuffer w)
  end.

Definition sink_cap (s0 : Sink W) : Z :=
  match s0 with Plain _ => wr_cap | Checked _ => Z.of_nat BUFFER_SIZE + 1 end.

Lemma cw_write_ok w0 w data :
  sink_inside (Checked w0) (Checked w) →
  List.length (sink_entry (Checked w)) + List.length data ≤ BUFFER_SIZE →
  ∃ w', cw_write allocateBuffer data w = (w', Ok ()) ∧ sink_inside (Checked w0) (Checked w') ∧
    sink_entry (Checked w') = sink_entry (Checked w) ++ data.
Proof.
  intros (Ho & Hl & n & En & Hn) Hle. cbn [sink_entry] in *. rewrite En in *. cbn [default from_option id] in *.
  rewrite length_take_le in Hle by lia.
  unfold cw_write. rewrite st_bind_run. cbn [st_get]. rewrite En.
  rewrite resize_small by lia. destruct (memcpy_take (cw_entryBuffer w) n data) as (buf & E & Ht & Hb); [lia|].
  rewrite E. st_run. eexists. split; [reflexivity|]. cbn [cw_currentEntrySize cw_entryBuffer outputSerializer].
  split; [|exact Ht]. split; [done|]. split; [exact (eq_trans Hb Hl)|]. eexists. split; [reflexivity|lia].
Qed.

Program Definition sink_laws (s0 : Sink W) : @WriterLaws (Sink W) (Sink_writer allocateBuffer) := {|
  wr_ok := sink_inside s0;
  wr_contents := sink_entry;
  wr_cap := sink_cap s0;
|}.
Next Obligation.
  intros [w0|w0] [w|w] bs Hin Hlen; try done; cbn [sink_cap] in Hlen; cbn [wr_write Sink_writer sink_call].
  - destruct (wr_write_spec w bs Hin Hlen) as (w' & E & ? & ?). rewrite E. by exists (Plain w').
  - destruct (cw_write_ok w0 w bs Hin) as (w' & E & ? & ?); [lia|]. rewrite E. by exists (Checked w').
Qed.

(** The bytes of an object in the file. *)
Definition frame (enableChecksums : bool) (bs : list Z) : list Z :=
  if enableChecksums then bs ++ bytes_of 8 (checksum bs) else bs.
Definition sink_kind (s : Sink W) : bool := match s with Plain _ => false | Checked _ => true end.

Definition write_object (f : stM (Sink W) ()) : stM (Sink W) () :=
  _ ← onObjectBegin (ObjectWriter := Sink_objects); _ ← f; onObjectEnd (ObjectWriter := Sink_objects).

Lemma write_object_ok s f bs :
  (∀ L : @WriterLaws (Sink W) (Sink_writer allocateBuffer), @writes _ _ L f bs) →
  sink_ok s → (sink_kind s = true → List.length bs ≤ BUFFER_SIZE) →
  (Z.of_nat (List.length (wr_contents (sink_out s)) + List.length (frame (sink_kind s) bs)) < wr_cap)%Z →
  ∃ s', write_object f s = (s', Ok ()) ∧ sink_ok s' ∧ sink_kind s' = sink_kind s ∧
    wr_contents (sink_out s') = wr_contents (sink_out s) ++ frame (sink_kind s) bs.
Proof.
  intros Hf [Hok Hs] Hle Hcap. unfold write_object. destruct s as [w|w]; cbn [sink_out sink_kind frame] in *.
  - rewrite st_bind_run. cbn [onObjectBegin Sink_objects sink_call mret stM_ret]. rewrite st_bind_run.
    destruct (Hf (sink_laws (Plain w)) (Plain w)) as (s' & E & Hin & C); [done|exact Hcap|].
    rewrite E. destruct s' as [w'|]; [|done]. cbn [onObjectEnd Sink_objects sink_call mret stM_ret].
    exists (Plain w'). done.
  - destruct Hs as [Hn Hb]. rewrite st_bind_run.
    cbn [onObjectBegin Sink_objects sink_call cw_onObjectBegin st_modify].
    set (w1 := mkCW (outputSerializer w) (Some 0) (cw_entryBuffer w)). rewrite st_bind_run.
    destruct (Hf (sink_laws (Checked w1)) (Checked w1)) as (s' & E & Hin & C).
    { split; [done|]. split; [done|]. exists 0. split; [done|lia]. }
    { unfold fits. cbn [wr_contents wr_cap sink_laws sink_entry sink_cap w1 cw_currentEntrySize default from_option id].
      rewrite take_0. specialize (Hle eq_refl). simpl. lia. }
    rewrite E. destruct s' as [|w2]; [done|]. destruct Hin as (Ho2 & Hb2 & n & En & Hn2).
    cbn [wr_contents sink_laws sink_entry] in C. rewrite En in C.
    change (default 0 (cw_currentEntrySize w1)) with 0 in C. rewrite take_0 in C.
    cbn [default from_option id] in C. change ([] ++ bs) with bs in C.
    cbn [onObjectEnd Sink_objects sink_call]. unfold cw_onObjectEnd.
    rewrite st_bind_run. cbn [st_get]. rewrite st_bind_run, En. cbn [deref st_lift].
    rewrite st_bind_run, bytes_at_ok by lia. cbn [st_lift]. rewrite drop_0, C. rewrite st_bind_run.
    unfold on_output at 1. rewrite Ho2. change (outputSerializer w1) with (outputSerializer w).
    rewrite length_app, length_bytes_of in Hcap.
    destruct (wr_write_spec (outputSerializer w) bs Hok ltac:(lia)) as (o1 & E1 & Hok1 & C1). rewrite E1.
    rewrite st_bind_run. unfold on_output at 1. cbn [outputSerializer cw_currentEntrySize cw_entryBuffer].
    destruct (writes_value 8 (checksum bs) o1 Hok1) as (o2 & E2 & Hok2 & C2).
    { unfold fits. rewrite C1, length_app, length_bytes_of. lia. }
    rewrite E2. cbn [st_modify outputSerializer cw_entryBuffer]. eexists. split; [reflexivity|].
    split; [split; [done|split; [done|exact Hb2]]|]. split; [done|].
    cbn [sink_out outputSerializer]. by rewrite C2, C1, (assoc_L (++)).
Qed.

(** Between objects the writer passes everything on. *)
Program Definition sink_pass_laws (kind : bool) : @WriterLaws (Sink W) (Sink_writer allocateBuffer) := {|
  wr_ok s := sink_ok s ∧ sink_kind s = kind;
  wr_contents s := wr_contents (sink_out s);
  wr_cap := wr_cap;
|}.
Next Obligation.
  intros kind [w|w] bs [[Hok Hs] Hk] Hlen; cbn [wr_write Sink_writer sink_call sink_out] in *.
  - destruct (wr_write_spec w bs Hok Hlen) as (w' & E & ? & ?). rewrite E. by exists (Plain w').
  - destruct Hs as [Hn Hb]. unfold cw_write. rewrite st_bind_run. cbn [st_get]. rewrite Hn. unfold on_output.
    destruct (wr_write_spec (outputSerializer w) bs Hok Hlen) as (w' & E & ? & ?). rewrite E.
    by exists (Checked (mkCW w' (cw_currentEntrySize w) (cw_entryBuffer w))).
Qed.
End Writing.

(** ** Reading an object *)

(** Reading leaves the file alone. *)
Lemma readNextPage_file r : bfr_file (readNextPage r).1 = bfr_file r.
Proof.
  unfold readNextPage. case_decide; [done|]. destruct (readFromFile _ _ _); [|done|done].
  by destruct (memcpy _ _ _).
Qed.

Lemma bfr_read_file n r : bfr_file (bfr_read n r).1 = bfr_file r.
Proof.
  unfold bfr_read. rewrite st_bind_run. cbn [st_get]. repeat case_decide; rewrite ?st_bind_run; cbn [st_lift st_put].
  - destruct (readFromFile _ _ _); done.
  - destruct (bytes_at _ _ _); done.
  - done.
  - destruct (bytes_at _ _ _); [|done|done]. rewrite !st_bind_run. cbn [st_put]. rewrite st_bind_run.
    set (r1 := mkBFR _ _ _ _ _ _). pose proof (readNextPage_file r1) as Hf.
    destruct (readNextPage r1) as [r2 [[]| |]]; [|done|done]. simpl in Hf. rewrite st_bind_run. cbn [st_get].
    rewrite st_bind_run. cbn [st_lift]. by destruct (bytes_at _ _ _).
Qed.

Program Definition file_laws (file : list Z) : ReaderLaws BufferedFileReader := {|
  rd_ok r := bfr_ok r ∧ bfr_file r = file;
  rd_remaining := bfr_remaining;
|}.
Next Obligation.
  intros file r bs rest [Hok Hf] E.
  destruct (rd_read_spec (ReaderLaws := BufferedFileReader_laws) r bs rest Hok E) as (r' & Er & ? & ?).
  exists r'. split; [done|]. split; [|done]. split; [done|]. rewrite <-Hf.
  pose proof (bfr_read_file (List.length bs) r) as Hfile. cbn [rd_read BufferedFileReader_reader] in Er.
  by rewrite Er in Hfile.
Qed.
Next Obligation.
  intros file r [Hok _]. apply (rd_finished_spec (ReaderLaws := BufferedFileReader_laws) r Hok).
Qed.

(** What remains, by the offset in the file. *)
Lemma readOffset_remaining r :
  bfr_ok r → getReadOffset r = List.length (bfr_file r) - List.length (bfr_remaining r).
Proof.
  intros [Hs Ho Hf Hl Hc]. unfold bfr_remaining. rewrite length_drop. unfold getReadOffset in *. lia.
Qed.

Section Reading.
Variable file : list Z.
Definition bfr_on (r : BufferedFileReader) : Prop := bfr_ok r ∧ bfr_file r = file.

Definition source_kind (s : Source) : bool := match s with PlainReader _ => false | CheckedReader _ => true end.
Definition source_remaining (s : Source) : list Z := bfr_remaining (source_in s).

Definition source_ok (s : Source) : Prop :=
  bfr_on (source_in s) ∧
  match s with
  | PlainReader _ => True
  | CheckedReader r => cr_currentEntrySize r = None ∧ BUFFER_SIZE ≤ List.length (cr_entryBuffer r)
  end.

(** Inside an object that began with [start] to read: the buffer holds what has been
    read since, while it fits. *)
Definition source_inside (kind : bool) (start : list Z) (s : Source) : Prop :=
  bfr_on (source_in s) ∧ source_kind s = kind ∧
  match s with
  | PlainReader _ => True
  | CheckedReader r =>
      ∃ done, start = done ++ bfr_remaining (deserializer r) ∧
        cr_currentEntrySize r = Some (List.length done) ∧ BUFFER_SIZE ≤ List.length (cr_entryBuffer r) ∧
        (List.length done ≤ BUFFER_SIZE → take (List.length done) (cr_entryBuffer r) = done)
  end.

Lemma resize_page buf n :
  BUFFER_SIZE ≤ List.length buf → BUFFER_SIZE ≤ List.length (resizeBufferIfNeeded allocateBuffer buf n).
Proof.
  intros. unfold resizeBufferIfNeeded. case_decide; [|done]. rewrite allocateBuffer_size.
  pose proof (bit_ceil_ge n). lia.
Qed.

Lemma cr_read_ok start r bs rest :
  source_inside true start (CheckedReader r) → bfr_remaining (deserializer r) = bs ++ rest →
  ∃ r', cr_read allocateBuffer (List.length bs) r = (r', Ok bs) ∧
    source_inside true start (CheckedReader r') ∧ bfr_remaining (deserializer r') = rest.
Proof.
  intros (Hok & _ & done & Es & En & Hb & Ht) E. cbn [source_in] in Hok.
  unfold cr_read. rewrite st_bind_run. unfold on_input.
  destruct (rd_read_spec (ReaderLaws := (file_laws file)) (deserializer r) bs rest Hok E) as (i & Ei & Hi & Ci).
  rewrite Ei. rewrite st_bind_run. cbn [st_get cr_currentEntrySize]. rewrite En.
  set (buf := resizeBufferIfNeeded allocateBuffer (cr_entryBuffer r) (List.length done + List.length bs)).
  destruct (memcpy_take buf (List.length done) bs) as (buf' & Em & Ht' & Hl'); [apply resize_fits|].
  rewrite st_bind_run. cbn [cr_entryBuffer]. fold buf. rewrite Em. st_run. eexists. split; [reflexivity|].
  cbn [deserializer]. split; [|exact Ci].
  split; [exact Hi|]. split; [reflexivity|]. exists (done ++ bs). cbn [deserializer cr_currentEntrySize cr_entryBuffer].
  rewrite length_app. split_and!; [|reflexivity| |].
  - rewrite Es, E, <-(assoc_L (++)). f_equal. f_equal. exact (eq_sym Ci).
  - rewrite Hl'. by apply resize_page.
  - intros Hle. rewrite Ht'. f_equal. unfold buf. rewrite resize_small by lia. apply Ht. lia.
Qed.

Program Definition source_laws (kind : bool) (start : list Z) :
    @ReaderLaws Source (Source_reader allocateBuffer) := {|
  rd_ok := source_inside kind start;
  rd_remaining := source_remaining;
|}.
Next Obligation.
  intros kind start [r|r] bs rest Hin E; cbn [rd_read Source_reader source_call].
  - destruct Hin as (Hok & <- & _).
    destruct (rd_read_spec (ReaderLaws := (file_laws file)) r bs rest Hok E) as (r' & Er & ? & ?).
    rewrite Er. exists (PlainReader r'). done.
  - destruct Hin as (Hok & <- & Hin).
    destruct (cr_read_ok start r bs rest) as (r' & Er & ? & ?); [done|done|]. rewrite Er. by exists (CheckedReader r').
Qed.
Next Obligation.
  intros kind start [r|r] (Hok & _ & _); apply (rd_finished_spec (ReaderLaws := (file_laws file)) _ Hok).
Qed.

Definition read_object {A} (d : stM Source A) : stM Source A :=
  _ ← onReadBegin (ObjectReader := Source_objects); x ← d;
  _ ← onReadEnd (ObjectReader := Source_objects); mret x.

Lemma source_begin s :
  source_ok s → ∃ s', onReadBegin s = (s', Ok ()) ∧ source_inside (source_kind s) (source_remaining s) s' ∧
    source_remaining s' = source_remaining s.
Proof.
  intros [Hok Hs]. destruct s as [r|r].
  - exists (PlainReader r). done.
  - destruct Hs as [Hn Hb]. cbn [onReadBegin Source_objects source_call cr_onObjectBegin st_modify].
    eexists. split; [reflexivity|]. split; [|done]. split; [exact Hok|]. split; [done|]. by exists [].
Qed.

Lemma source_end s start bs rest :
  source_inside (source_kind s) start s → start = frame (source_kind s) bs ++ rest →
  source_remaining s = drop (List.length bs) start → (source_kind s = true → List.length bs ≤ BUFFER_SIZE) →
  ∃ s', onReadEnd s = (s', Ok ()) ∧ source_ok s' ∧ source_kind s' = source_kind s ∧ source_remaining s' = rest.
Proof.
  intros (Hok & _ & Hin) Es Hrem Hle. destruct s as [r|r]; cbn [source_kind frame] in *.
  - exists (PlainReader r). split; [done|]. split; [done|]. split; [done|]. rewrite Hrem, Es. by rewrite drop_app_length.
  - destruct Hin as (read & E & En & Hb & Ht). specialize (Hle eq_refl). cbn [source_remaining source_in] in Hrem.
    unfold source_remaining in Hrem. cbn [source_in] in Hrem.
    assert (read = bs) as ->.
    { rewrite Hrem, Es, <-(assoc_L (++)), drop_app_length in E.
      by apply app_inv_tail in E. }
    specialize (Ht Hle). rewrite Es, <-(assoc_L (++)), drop_app_length in Hrem.
    cbn [onReadEnd Source_objects source_call]. unfold cr_onObjectEnd.
    rewrite st_bind_run. cbn [st_get]. rewrite st_bind_run, En. cbn [deref st_lift].
    rewrite st_bind_run, bytes_at_ok by lia. cbn [st_lift]. rewrite drop_0, Ht, st_bind_run. unfold on_input.
    pose proof (checksum_range bs) as Hc. unfold in_u in Hc.
    destruct (reads_value (H0 := (file_laws file)) 8 (checksum bs) Hc (deserializer r) rest Hok Hrem)
      as (i & Ei & Hi & Ci).
    rewrite Ei, bool_decide_true by done. cbn [st_modify]. eexists. split; [reflexivity|].
    split; [split; [exact Hi|by split]|]. by split.
Qed.

Lemma read_object_ok {A} s (d : stM Source A) bs rest x :
  (∀ L : @ReaderLaws Source (Source_reader allocateBuffer), @reads _ _ L _ d bs x) →
  source_ok s → source_remaining s = frame (source_kind s) bs ++ rest →
  (source_kind s = true → List.length bs ≤ BUFFER_SIZE) →
  ∃ s', read_object d s = (s', Ok x) ∧ source_ok s' ∧ source_kind s' = source_kind s ∧ source_remaining s' = rest.
Proof.
  intros Hd Hok E Hle. unfold read_object. rewrite st_bind_run.
  destruct (source_begin s Hok) as (s1 & E1 & Hin1 & R1). rewrite E1, st_bind_run.
  assert (∃ tl, frame (source_kind s) bs ++ rest = bs ++ tl) as [tl Etl].
  { unfold frame. destruct (source_kind s); [|by eexists]. rewrite <-(assoc_L (++)). by eexists. }
  destruct (Hd (source_laws (source_kind s) (source_remaining s)) s1 tl Hin1) as (s2 & E2 & Hin2 & R2).
  { cbn [rd_remaining source_laws]. by rewrite R1, E, Etl. }
  cbn [rd_remaining rd_ok source_laws] in R2, Hin2. rewrite E2, st_bind_run.
  pose proof Hin2 as (_ & K2 & _). rewrite <-K2 in *.
  destruct (source_end s2 (source_remaining s) bs rest Hin2 E) as (s3 & E3 & ? & ? & ?).
  { by rewrite R2, E, Etl, drop_app_length. }
  { done. }
  rewrite E3. by exists s3.
Qed.

End Reading.

Lemma initDeserializer_ok enableChecksums file :
  file ≠ [] →
  ∃ s, initDeserializer allocateBuffer enableChecksums file = (s, Ok ()) ∧ source_ok file s ∧
    source_kind s = enableChecksums ∧ source_remaining s = file.
Proof.
  intros Hne. destruct (newBufferedFileReader_ok file Hne) as (r & E & Hr & C). unfold initDeserializer. rewrite E.
  assert (bfr_on file r) as Hon.
  { split; [done|]. apply (f_equal fst) in E. cbn [fst] in E. rewrite <-E. apply readNextPage_file. }
  destruct enableChecksums; eexists; (split; [reflexivity|]); (split; [|by split]); (split; [done|]); [|done].
  split; [done|]. cbn [cr_entryBuffer]. by rewrite allocateBuffer_size.
Qed.
End Frames.
