(* ===== verification/WalRecord.v ===== *)
(** * Records of the write-ahead log (include/storage/wal/record/, storage/wal/wal_record.cpp,
    storage/wal/records/)

    The records with their fields, how each is written and read back.  The vectors,
    catalog entries and property definitions some of them carry are parameters with
    their own serializers ([Payload]).  Enumerations inside records are their codes. *)

From Stdlib Require Import Ascii String.
From S2P Require Import Prelude.
From S2P Require Import FileHandle.
From S2P Require Import Serializer.
From S2P Require Import SerializerFacts.
From S2P Require Import Serial.
From S2P Require Import Checksum.

#[local] Open Scope nat_scope.
#[local] Open Scope list_scope.

(** A type with the serializer and deserializer of its class, and what they promise. *)
Class Payload (A : Type) : Type := {
  p_serialize : ∀ {W} `{Writer W}, A → stM W ();
  p_deserialize : ∀ {R} `{Reader R}, stM R A;
}.
Class PayloadLaws (A : Type) `{Payload A} : Type := {
  p_enc : A → list Z;
  p_ok : A → Prop;
  p_writes {W} `{WriterLaws W} a : p_ok a → writes (p_serialize a) (p_enc a);
  p_reads {R} `{ReaderLaws R} a : p_ok a → reads p_deserialize (p_enc a) a;
}.

Section Records.
Context {ValueVector CatalogEntry PropertyDefinition : Type}.
Context `{Payload ValueVector, Payload CatalogEntry, Payload PropertyDefinition} `{DeserDebug}.

(** The alterations of a table. *)
Inductive AlterInfo : Type :=
| RENAME (newName : string)
| ADD_PROPERTY (definition : PropertyDefinition)
| DROP_PROPERTY (propertyName : string)
| RENAME_PROPERTY (newName oldName : string)
| ADD_FROM_TO_CONNECTION (fromTableID toTableID : Z)
| DROP_FROM_TO_CONNECTION (fromTableID toTableID : Z)
| COMMENT (comment : string).

Inductive WALRecord : Type :=
| BeginTransactionRecord
| CommitRecord
| CopyTableRecord (tableID : Z)
| CreateCatalogEntryRecord (catalogEntry : CatalogEntry) (isInternal : bool)
| DropCatalogEntryRecord (entryID entryType : Z)
| AlterTableEntryRecord (tableName : string) (extraInfo : AlterInfo)
| UpdateSequenceRecord (sequenceID kCount : Z)
| TableInsertionRecord (tableID tableType numRows : Z) (vectors : list ValueVector)
| NodeDeletionRecord (tableID nodeOffset : Z) (pkVector : ValueVector)
| NodeUpdateRecord (tableID columnID nodeOffset : Z) (propertyVector : ValueVector)
| RelDeletionRecord (tableID : Z) (srcNodeIDVector dstNodeIDVector relIDVector : ValueVector)
| RelDetachDeleteRecord (tableID direction : Z) (srcNodeIDVector : ValueVector)
| RelUpdateRecord (tableID columnID : Z) (srcNodeIDVector dstNodeIDVector relIDVector propertyVector : ValueVector)
| LoadExtensionRecord (path : string)
| CheckpointRecord.

(** [WALRecordType] *)
Definition recordType (r : WALRecord) : Z :=
  match r with
  | BeginTransactionRecord => 1
  | CommitRecord => 2
  | CopyTableRecord _ => 13
  | CreateCatalogEntryRecord _ _ => 14
  | DropCatalogEntryRecord _ _ => 16
  | AlterTableEntryRecord _ _ => 17
  | UpdateSequenceRecord _ _ => 18
  | TableInsertionRecord _ _ _ _ => 30
  | NodeDeletionRecord _ _ _ => 31
  | NodeUpdateRecord _ _ _ _ => 32
  | RelDeletionRecord _ _ _ _ => 33
  | RelDetachDeleteRecord _ _ _ => 34
  | RelUpdateRecord _ _ _ _ _ _ => 35
  | LoadExtensionRecord _ => 100
  | CheckpointRecord => 254
  end.

(** [AlterType] *)
Definition alterType (i : AlterInfo) : Z :=
  match i with
  | RENAME _ => 0
  | ADD_PROPERTY _ => 10
  | DROP_PROPERTY _ => 11
  | RENAME_PROPERTY _ _ => 12
  | ADD_FROM_TO_CONNECTION _ _ => 13
  | DROP_FROM_TO_CONNECTION _ _ => 14
  | COMMENT _ => 201
  end.

(** [UNREACHABLE_CODE] throws in every build. *)
Definition unreachable {S A} : stM S A := st_throw InternalException "UNREACHABLE_CODE".

Section Write.
Context {W : Type} `{Writer W}.

Definition serializeAlterExtraInfo (tableName : string) (extraInfo : AlterInfo) : stM W () :=
  _ ← serializeValue 1 (alterType extraInfo);
  _ ← serializeString tableName;
  match extraInfo with
  | ADD_PROPERTY definition => p_serialize definition
  | DROP_PROPERTY propertyName => serializeString propertyName
  | RENAME_PROPERTY newName oldName => _ ← serializeString newName; serializeString oldName
  | COMMENT comment => serializeString comment
  | RENAME newName => serializeString newName
  | ADD_FROM_TO_CONNECTION fromTableID toTableID
  | DROP_FROM_TO_CONNECTION fromTableID toTableID => _ ← serializeValue 8 fromTableID; serializeValue 8 toTableID
  end.

Definition wal_type (r : WALRecord) : stM W () :=
  _ ← writeDebuggingInfo "type"; serializeValue 1 (recordType r).

(** A labelled field. *)
Definition field (label : string) (f : stM W ()) : stM W () := _ ← writeDebuggingInfo label; f.

(** What the [serialize] of each kind of record writes after the type. *)
Definition CopyTableRecord_fields (tableID : Z) : stM W () := serializeValue 8 tableID.

Definition CreateCatalogEntryRecord_fields (catalogEntry : CatalogEntry) (isInternal : bool) : stM W () :=
  _ ← p_serialize catalogEntry; serializeValue 1 (if isInternal then 1 else 0)%Z.

Definition DropCatalogEntryRecord_fields (entryID entryType : Z) : stM W () :=
  _ ← serializeValue 8 entryID; serializeValue 1 entryType.

Definition UpdateSequenceRecord_fields (sequenceID kCount : Z) : stM W () :=
  _ ← serializeValue 8 sequenceID; serializeValue 8 kCount.

Definition TableInsertionRecord_fields (tableID tableType numRows : Z) (vectors : list ValueVector) : stM W () :=
  _ ← field "table_id" (serializeValue 8 tableID);
  _ ← field "table_type" (serializeValue 1 tableType);
  _ ← field "num_rows" (serializeValue 8 numRows);
  _ ← field "num_vectors" (serializeValue 4 (Z.of_nat (List.length vectors)));
  serializeEach p_serialize vectors.

Definition NodeDeletionRecord_fields (tableID nodeOffset : Z) (pkVector : ValueVector) : stM W () :=
  _ ← field "table_id" (serializeValue 8 tableID);
  _ ← field "node_offset" (serializeValue 8 nodeOffset);
  field "pk_vector" (p_serialize pkVector).

Definition NodeUpdateRecord_fields (tableID columnID nodeOffset : Z) (propertyVector : ValueVector) : stM W () :=
  _ ← field "table_id" (serializeValue 8 tableID);
  _ ← field "column_id" (serializeValue 4 columnID);
  _ ← field "node_offset" (serializeValue 8 nodeOffset);
  field "property_vector" (p_serialize propertyVector).

Definition RelDeletionRecord_fields (tableID : Z) (src dst rel : ValueVector) : stM W () :=
  _ ← field "table_id" (serializeValue 8 tableID);
  _ ← field "src_node_vector" (p_serialize src);
  _ ← field "dst_node_vector" (p_serialize dst);
  field "rel_id_vector" (p_serialize rel).

Definition RelDetachDeleteRecord_fields (tableID direction : Z) (src : ValueVector) : stM W () :=
  _ ← field "table_id" (serializeValue 8 tableID);
  _ ← field "direction" (serializeValue 1 direction);
  field "src_node_vector" (p_serialize src).

Definition RelUpdateRecord_fields (tableID columnID : Z) (src dst rel property : ValueVector) : stM W () :=
  _ ← field "table_id" (serializeValue 8 tableID);
  _ ← field "column_id" (serializeValue 4 columnID);
  _ ← field "src_node_vector" (p_serialize src);
  _ ← field "dst_node_vector" (p_serialize dst);
  _ ← field "rel_id_vector" (p_serialize rel);
  field "property_vector" (p_serialize property).

Definition LoadExtensionRecord_fields (path : string) : stM W () := field "path" (serializeString path).

(** The virtual call of [serialize]. *)
Definition wal_fields (r : WALRecord) : stM W () :=
  match r with
  | BeginTransactionRecord | CommitRecord | CheckpointRecord => mret ()
  | CopyTableRecord tableID => CopyTableRecord_fields tableID
  | CreateCatalogEntryRecord catalogEntry isInternal => CreateCatalogEntryRecord_fields catalogEntry isInternal
  | DropCatalogEntryRecord entryID entryType => DropCatalogEntryRecord_fields entryID entryType
  | AlterTableEntryRecord tableName extraInfo => serializeAlterExtraInfo tableName extraInfo
  | UpdateSequenceRecord sequenceID kCount => UpdateSequenceRecord_fields sequenceID kCount
  | TableInsertionRecord tableID tableType numRows vectors =>
      TableInsertionRecord_fields tableID tableType numRows vectors
  | NodeDeletionRecord tableID nodeOffset pkVector => NodeDeletionRecord_fields tableID nodeOffset pkVector
  | NodeUpdateRecord tableID columnID nodeOffset propertyVector =>
      NodeUpdateRecord_fields tableID columnID nodeOffset propertyVector
  | RelDeletionRecord tableID src dst rel => RelDeletionRecord_fields tableID src dst rel
  | RelDetachDeleteRecord tableID direction src => RelDetachDeleteRecord_fields tableID direction src
  | RelUpdateRecord tableID columnID src dst rel property =>
      RelUpdateRecord_fields tableID columnID src dst rel property
  | LoadExtensionRecord path => LoadExtensionRecord_fields path
  end.

Definition wal_serialize (r : WALRecord) : stM W () := _ ← wal_type r; wal_fields r.
End Write.

Section Read.
Context {R : Type} `{Reader R}.

Definition deserializeAlterRecord : stM R (string * AlterInfo) :=
  alterType ← deserializeValue 1;
  tableName ← deserializeString;
  extraInfo ←
    (if bool_decide (alterType = 10)%Z then definition ← p_deserialize; mret (ADD_PROPERTY definition)
     else if bool_decide (alterType = 11)%Z then name ← deserializeString; mret (DROP_PROPERTY name)
     else if bool_decide (alterType = 12)%Z then
       newName ← deserializeString; oldName ← deserializeString; mret (RENAME_PROPERTY newName oldName)
     else if bool_decide (alterType = 201)%Z then comment ← deserializeString; mret (COMMENT comment)
     else if bool_decide (alterType = 0)%Z then newName ← deserializeString; mret (RENAME newName)
     else if bool_decide (alterType = 13)%Z then
       from ← deserializeValue 8; to ← deserializeValue 8; mret (ADD_FROM_TO_CONNECTION from to)
     else if bool_decide (alterType = 14)%Z then
       from ← deserializeValue 8; to ← deserializeValue 8; mret (DROP_FROM_TO_CONNECTION from to)
     else unreachable);
  mret (tableName, extraInfo).

Definition labelled {A} (label : string) (d : stM R A) : stM R A := _ ← validateDebuggingInfo label; d.

(** The [deserialize] of each kind of record. *)
Definition CopyTableRecord_deserialize : stM R WALRecord :=
  tableID ← deserializeValue 8; mret (CopyTableRecord tableID).

Definition CreateCatalogEntryRecord_deserialize : stM R WALRecord :=
  catalogEntry ← p_deserialize; isInternal ← deserializeValue 1;
  mret (CreateCatalogEntryRecord catalogEntry (negb (bool_decide (isInternal = 0)%Z))).

Definition DropCatalogEntryRecord_deserialize : stM R WALRecord :=
  entryID ← deserializeValue 8; entryType ← deserializeValue 1; mret (DropCatalogEntryRecord entryID entryType).

Definition AlterTableEntryRecord_deserialize : stM R WALRecord :=
  x ← deserializeAlterRecord; mret (AlterTableEntryRecord x.1 x.2).

Definition UpdateSequenceRecord_deserialize : stM R WALRecord :=
  sequenceID ← deserializeValue 8; kCount ← deserializeValue 8; mret (UpdateSequenceRecord sequenceID kCount).

Definition TableInsertionRecord_deserialize : stM R WALRecord :=
  tableID ← labelled "table_id" (deserializeValue 8);
  tableType ← labelled "table_type" (deserializeValue 1);
  numRows ← labelled "num_rows" (deserializeValue 8);
  numVectors ← labelled "num_vectors" (deserializeValue 4);
  vectors ← deserializeEach p_deserialize (Z.to_nat numVectors);
  mret (TableInsertionRecord tableID tableType numRows vectors).

Definition NodeDeletionRecord_deserialize : stM R WALRecord :=
  tableID ← labelled "table_id" (deserializeValue 8);
  nodeOffset ← labelled "node_offset" (deserializeValue 8);
  pkVector ← labelled "pk_vector" p_deserialize;
  mret (NodeDeletionRecord tableID nodeOffset pkVector).

Definition NodeUpdateRecord_deserialize : stM R WALRecord :=
  tableID ← labelled "table_id" (deserializeValue 8);
  columnID ← labelled "column_id" (deserializeValue 4);
  nodeOffset ← labelled "node_offset" (deserializeValue 8);
  propertyVector ← labelled "property_vector" p_deserialize;
  mret (NodeUpdateRecord tableID columnID nodeOffset propertyVector).

Definition RelDeletionRecord_deserialize : stM R WALRecord :=
  tableID ← labelled "table_id" (deserializeValue 8);
  src ← labelled "src_node_vector" p_deserialize;
  dst ← labelled "dst_node_vector" p_deserialize;
  rel ← labelled "rel_id_vector" p_deserialize;
  mret (RelDeletionRecord tableID src dst rel).

Definition RelDetachDeleteRecord_deserialize : stM R WALRecord :=
  tableID ← labelled "table_id" (deserializeValue 8);
  direction ← labelled "direction" (deserializeValue 1);
  src ← labelled "src_node_vector" p_deserialize;
  mret (RelDetachDeleteRecord tableID direction src).

Definition RelUpdateRecord_deserialize : stM R WALRecord :=
  tableID ← labelled "table_id" (deserializeValue 8);
  columnID ← labelled "column_id" (deserializeValue 4);
  src ← labelled "src_node_vector" p_deserialize;
  dst ← labelled "dst_node_vector" p_deserialize;
  rel ← labelled "rel_id_vector" p_deserialize;
  property ← labelled "property_vector" p_deserialize;
  mret (RelUpdateRecord tableID columnID src dst rel property).

Definition LoadExtensionRecord_deserialize : stM R WALRecord :=
  path ← labelled "path" deserializeString; mret (LoadExtensionRecord path).

(** The body of the switch over the type read. *)
Definition wal_read_fields (type : Z) : stM R WALRecord :=
  if bool_decide (type = 1)%Z then mret BeginTransactionRecord
  else if bool_decide (type = 2)%Z then mret CommitRecord
  else if bool_decide (type = 14)%Z then CreateCatalogEntryRecord_deserialize
  else if bool_decide (type = 16)%Z then DropCatalogEntryRecord_deserialize
  else if bool_decide (type = 17)%Z then AlterTableEntryRecord_deserialize
  else if bool_decide (type = 30)%Z then TableInsertionRecord_deserialize
  else if bool_decide (type = 31)%Z then NodeDeletionRecord_deserialize
  else if bool_decide (type = 32)%Z then NodeUpdateRecord_deserialize
  else if bool_decide (type = 33)%Z then RelDeletionRecord_deserialize
  else if bool_decide (type = 34)%Z then RelDetachDeleteRecord_deserialize
  else if bool_decide (type = 35)%Z then RelUpdateRecord_deserialize
  else if bool_decide (type = 13)%Z then CopyTableRecord_deserialize
  else if bool_decide (type = 254)%Z then mret CheckpointRecord
  else if bool_decide (type = 18)%Z then UpdateSequenceRecord_deserialize
  else if bool_decide (type = 100)%Z then LoadExtensionRecord_deserialize
  else if bool_decide (type = 0)%Z then
    st_throw RuntimeException "Corrupted wal file. Read out invalid WAL record type."
  else unreachable.

Definition wal_read : stM R WALRecord :=
  _ ← validateDebuggingInfo "type"; type ← deserializeValue 1; wal_read_fields type.

(** [WALRecord::deserialize] *)
Definition wal_deserialize `{ObjectReader R} : stM R WALRecord :=
  _ ← onReadBegin; walRecord ← wal_read; _ ← onReadEnd; mret walRecord.
End Read.
End Records.

Arguments WALRecord : clear implicits.
Arguments AlterInfo : clear implicits.

Create HintDb wal_kinds.
#[export] Hint Unfold CopyTableRecord_fields CreateCatalogEntryRecord_fields DropCatalogEntryRecord_fields UpdateSequenceRecord_fields TableInsertionRecord_fields NodeDeletionRecord_fields NodeUpdateRecord_fields RelDeletionRecord_fields RelDetachDeleteRecord_fields RelUpdateRecord_fields LoadExtensionRecord_fields
  CopyTableRecord_deserialize CreateCatalogEntryRecord_deserialize DropCatalogEntryRecord_deserialize AlterTableEntryRecord_deserialize UpdateSequenceRecord_deserialize TableInsertionRecord_deserialize NodeDeletionRecord_deserialize NodeUpdateRecord_deserialize RelDeletionRecord_deserialize RelDetachDeleteRecord_deserialize RelUpdateRecord_deserialize LoadExtensionRecord_deserialize : wal_kinds.

(** * The bytes of log records

    [wal_enc] is what a record is written as, and it is read back as that record. *)

#[local] Open Scope nat_scope.
#[local] Open Scope list_scope.

Section Encoding.
Context {V C P : Type}.
Context `{PayloadLaws V, PayloadLaws C, PayloadLaws P} `{DeserDebug}.

Definition enc_field (label : string) (bs : list Z) : list Z := enc_label label ++ bs.

Definition enc_alter (i : AlterInfo P) : list Z :=
  match i with
  | ADD_PROPERTY definition => p_enc definition
  | DROP_PROPERTY s | COMMENT s | RENAME s => enc_string s
  | RENAME_PROPERTY newName oldName => enc_string newName ++ enc_string oldName
  | ADD_FROM_TO_CONNECTION f t | DROP_FROM_TO_CONNECTION f t => bytes_of 8 f ++ bytes_of 8 t
  end.

Definition enc_fields (r : WALRecord V C P) : list Z :=
  match r with
  | BeginTransactionRecord | CommitRecord | CheckpointRecord => []
  | CopyTableRecord tableID => bytes_of 8 tableID
  | CreateCatalogEntryRecord e b => p_enc e ++ bytes_of 1 (if b then 1 else 0)%Z
  | DropCatalogEntryRecord entryID entryType => bytes_of 8 entryID ++ bytes_of 1 entryType
  | AlterTableEntryRecord tableName i => bytes_of 1 (alterType i) ++ enc_string tableName ++ enc_alter i
  | UpdateSequenceRecord s k => bytes_of 8 s ++ bytes_of 8 k
  | TableInsertionRecord tableID tableType numRows vectors =>
      enc_field "table_id" (bytes_of 8 tableID) ++ enc_field "table_type" (bytes_of 1 tableType) ++
      enc_field "num_rows" (bytes_of 8 numRows) ++
      enc_field "num_vectors" (bytes_of 4 (Z.of_nat (List.length vectors))) ++ enc_each p_enc vectors
  | NodeDeletionRecord tableID nodeOffset v =>
      enc_field "table_id" (bytes_of 8 tableID) ++ enc_field "node_offset" (bytes_of 8 nodeOffset) ++
      enc_field "pk_vector" (p_enc v)
  | NodeUpdateRecord tableID columnID nodeOffset v =>
      enc_field "table_id" (bytes_of 8 tableID) ++ enc_field "column_id" (bytes_of 4 columnID) ++
      enc_field "node_offset" (bytes_of 8 nodeOffset) ++ enc_field "property_vector" (p_enc v)
  | RelDeletionRecord tableID s d v =>
      enc_field "table_id" (bytes_of 8 tableID) ++ enc_field "src_node_vector" (p_enc s) ++
      enc_field "dst_node_vector" (p_enc d) ++ enc_field "rel_id_vector" (p_enc v)
  | RelDetachDeleteRecord tableID direction s =>
      enc_field "table_id" (bytes_of 8 tableID) ++ enc_field "direction" (bytes_of 1 direction) ++
      enc_field "src_node_vector" (p_enc s)
  | RelUpdateRecord tableID columnID s d v p =>
      enc_field "table_id" (bytes_of 8 tableID) ++ enc_field "column_id" (bytes_of 4 columnID) ++
      enc_field "src_node_vector" (p_enc s) ++ enc_field "dst_node_vector" (p_enc d) ++
      enc_field "rel_id_vector" (p_enc v) ++ enc_field "property_vector" (p_enc p)
  | LoadExtensionRecord path => enc_field "path" (enc_string path)
  end.

Definition wal_enc (r : WALRecord V C P) : list Z :=
  (enc_label "type" ++ bytes_of 1 (recordType r)) ++ enc_fields r.

(** The fields are of their types, and the payloads fit theirs. *)
Definition str_ok (s : string) : Prop := (Z.of_nat (String.length s) < 2 ^ 64)%Z.
Definition alter_ok (i : AlterInfo P) : Prop :=
  match i with
  | ADD_PROPERTY definition => p_ok definition
  | DROP_PROPERTY s | COMMENT s | RENAME s => str_ok s
  | RENAME_PROPERTY newName oldName => str_ok newName ∧ str_ok oldName
  | ADD_FROM_TO_CONNECTION f t | DROP_FROM_TO_CONNECTION f t => in_u 64 f ∧ in_u 64 t
  end.
Definition record_ok (r : WALRecord V C P) : Prop :=
  match r with
  | BeginTransactionRecord | CommitRecord | CheckpointRecord => True
  | CopyTableRecord tableID => in_u 64 tableID
  | CreateCatalogEntryRecord e _ => p_ok e
  | DropCatalogEntryRecord entryID entryType => in_u 64 entryID ∧ in_u 8 entryType
  | AlterTableEntryRecord tableName i => str_ok tableName ∧ alter_ok i
  | UpdateSequenceRecord s k => in_u 64 s ∧ in_u 64 k
  | TableInsertionRecord tableID tableType numRows vectors =>
      in_u 64 tableID ∧ in_u 8 tableType ∧ in_u 64 numRows ∧ in_u 32 (Z.of_nat (List.length vectors)) ∧
      Forall p_ok vectors
  | NodeDeletionRecord tableID nodeOffset v => in_u 64 tableID ∧ in_u 64 nodeOffset ∧ p_ok v
  | NodeUpdateRecord tableID columnID nodeOffset v =>
      in_u 64 tableID ∧ in_u 32 columnID ∧ in_u 64 nodeOffset ∧ p_ok v
  | RelDeletionRecord tableID s d v => in_u 64 tableID ∧ p_ok s ∧ p_ok d ∧ p_ok v
  | RelDetachDeleteRecord tableID direction s => in_u 64 tableID ∧ in_u 8 direction ∧ p_ok s
  | RelUpdateRecord tableID columnID s d v p =>
      in_u 64 tableID ∧ in_u 32 columnID ∧ p_ok s ∧ p_ok d ∧ p_ok v ∧ p_ok p
  | LoadExtensionRecord path => str_ok path
  end.

Section Written.
Context {W : Type} `{WriterLaws W}.

Lemma writes_field label f bs : writes f bs → writes (field label f) (enc_field label bs).
Proof. intros Hf. apply writes_bind; [apply writes_label|exact Hf]. Qed.

Ltac write_one :=
  lazymatch goal with
  | |- writes (serializeString _) _ => apply writes_string
  | |- writes (serializeValue _ _) _ => apply writes_value
  | |- writes (writeDebuggingInfo _) _ => apply writes_label
  | |- writes (p_serialize _) _ => apply p_writes; assumption
  | |- writes (field _ _) _ => apply writes_field
  | |- writes (mret _) _ => apply writes_ret
  | |- writes (mbind _ _) _ => apply writes_bind
  end.

Lemma writes_payloads {A} `{PayloadLaws A} (l : list A) : Forall p_ok l → writes (serializeEach p_serialize l) (enc_each p_enc l).
Proof. intros Hl. apply writes_each. intros x Hx. apply p_writes. rewrite Forall_forall in Hl. by apply Hl. Qed.

Lemma wal_serialize_writes (r : WALRecord V C P) : record_ok r → writes (wal_serialize r) (wal_enc r).
Proof.
  intros Hr. apply writes_bind; [unfold wal_type; repeat write_one|].
  destruct r; cbn [wal_fields enc_fields record_ok] in *; destruct_and?;
    autounfold with wal_kinds; unfold serializeAlterExtraInfo;
    try solve [repeat write_one].
  - repeat (write_one; []). destruct extraInfo; cbn [alter_ok enc_alter] in *; repeat write_one.
  - repeat (first [apply writes_bind; [apply writes_field, writes_value|]]). by apply writes_payloads.
Qed.
End Written.

Section ReadBack.
Context {R : Type} `{ReaderLaws R}.

Lemma reads_labelled {A} label (d : stM R A) bs x :
  (Z.of_nat (String.length label) < 2 ^ 64)%Z → reads d bs x → reads (labelled label d) (enc_field label bs) x.
Proof. intros Hl Hd. eapply reads_bind; [by apply reads_label|exact Hd]. Qed.

Lemma reads_payloads {A} `{PayloadLaws A} (l : list A) : Forall p_ok l → reads (deserializeEach p_deserialize (List.length l)) (enc_each p_enc l) l.
Proof. intros Hl. apply reads_each. intros x Hx. apply p_reads. rewrite Forall_forall in Hl. by apply Hl. Qed.

Lemma reads_last {A B} (d : stM R A) (g : A → B) bs x y : reads d bs x → y = g x → reads (z ← d; mret (g z)) bs y.
Proof. intros Hd ->. by apply reads_fmap. Qed.

Ltac read_one :=
  try (apply reads_labelled; [done|]);
  first [apply reads_string; assumption | apply reads_value; unfold in_u in *; simpl; lia
        | apply p_reads; assumption].
Ltac read_all :=
  repeat (first [eapply reads_last; [read_one|]|eapply reads_bind; [read_one|]]); try done.

Lemma deserializeAlterRecord_reads tableName (i : AlterInfo P) :
  str_ok tableName → alter_ok i →
  reads deserializeAlterRecord (bytes_of 1 (alterType i) ++ enc_string tableName ++ enc_alter i) (tableName, i).
Proof.
  intros Hs Hi. unfold deserializeAlterRecord.
  eapply reads_bind; [apply reads_value; destruct i; simpl; lia|].
  eapply reads_bind; [by apply reads_string|]. apply (reads_fmap _ (pair tableName)).
  destruct i; cbn [alter_ok enc_alter] in *; destruct_and?; cbn [alterType bool_decide]; read_all.
Qed.

(** The next case of a switch. *)
Ltac switch :=
  lazymatch goal with
  | |- reads (if bool_decide (?a = ?a) then _ else _) _ _ => rewrite (bool_decide_true (a = a)) by done
  | |- reads (if bool_decide (?a = ?b) then _ else _) _ _ => rewrite (bool_decide_false (a = b)) by done
  end.

Lemma wal_read_reads (r : WALRecord V C P) : record_ok r → reads wal_read (wal_enc r) r.
Proof.
  intros Hr. unfold wal_read, wal_enc. rewrite <-(assoc_L (++)).
  eapply reads_bind; [by apply reads_label|]. eapply reads_bind; [apply reads_value; destruct r; simpl; lia|].
  destruct r; cbn [record_ok enc_fields] in *; destruct_and?; unfold wal_read_fields; cbn [recordType];
    repeat switch; autounfold with wal_kinds; read_all; try apply reads_ret.
  - eapply reads_last; [apply reads_value; destruct isInternal; simpl; lia|]. by destruct isInternal.
  - apply (reads_last _ (λ x, AlterTableEntryRecord x.1 x.2) _ (tableName, extraInfo));
      [by apply deserializeAlterRecord_reads|done].
  - rewrite Nat2Z.id. apply (reads_last _ (TableInsertionRecord tableID tableType numRows) _ vectors);
      [by apply reads_payloads|done].
Qed.
End ReadBack.
End Encoding.
