(* ===== verification/Wal.v ===== *)
(** * The write-ahead log (storage/wal/local_wal.cpp, storage/wal/wal.cpp)

    A transaction logs into a log of its own in memory, which its commit appends to the
    log file and syncs.  A checkpoint renames the log file away (the frozen log) and ends
    it with a checkpoint record.  The files are their contents; an open log file is held
    by its writer. *)

From Stdlib Require Import Ascii String.
From S2P Require Import Prelude.
From S2P Require Import FileHandle.
From S2P Require Import Serializer.
From S2P Require Import SerializerFacts.
From S2P Require Import Serial.
From S2P Require Import Checksum.
From S2P Require Import WalRecord.

#[local] Open Scope nat_scope.
#[local] Open Scope list_scope.

Section Wal.
Context `{PageConfig} `{DeserDebug}.
Context {V C P : Type} `{Payload V, Payload C, Payload P}.
Variable garbage : list Z.
Variable allocateBuffer : nat → list Z.
Variable enableChecksums : bool.

Local Instance page_writer : Writer InMemFileWriter := InMemFileWriter_writer garbage.
Local Instance sink_writer {W} `{Writer W} : Writer (Sink W) := Sink_writer allocateBuffer.

(** [onObjectBegin], the record, [onObjectEnd] *)
Definition add_record {W} `{Writer W} (walRecord : WALRecord V C P) : stM (Sink W) () :=
  _ ← onObjectBegin (ObjectWriter := Sink_objects);
  _ ← wal_serialize walRecord;
  onObjectEnd (ObjectWriter := Sink_objects).

(** ** LocalWAL *)

Definition LocalWAL : Type := Sink InMemFileWriter.

Definition newLocalWAL : LocalWAL := newSink allocateBuffer enableChecksums (mkIMW [] 0).

Definition addNewWALRecord (walRecord : WALRecord V C P) : stM LocalWAL () := add_record walRecord.
Definition logBeginTransaction : stM LocalWAL () := addNewWALRecord BeginTransactionRecord.
Definition logCommit : stM LocalWAL () := addNewWALRecord CommitRecord.
Definition logCreateCatalogEntryRecord catalogEntry isInternal : stM LocalWAL () :=
  addNewWALRecord (CreateCatalogEntryRecord catalogEntry isInternal).
Definition logDropCatalogEntryRecord tableID type : stM LocalWAL () :=
  addNewWALRecord (DropCatalogEntryRecord tableID type).
Definition logAlterCatalogEntryRecord tableName alterInfo : stM LocalWAL () :=
  addNewWALRecord (AlterTableEntryRecord tableName alterInfo).
Definition logTableInsertion tableID tableType numRows vectors : stM LocalWAL () :=
  addNewWALRecord (TableInsertionRecord tableID tableType numRows vectors).
Definition logNodeDeletion tableID nodeOffset pkVector : stM LocalWAL () :=
  addNewWALRecord (NodeDeletionRecord tableID nodeOffset pkVector).
Definition logNodeUpdate tableID columnID nodeOffset propertyVector : stM LocalWAL () :=
  addNewWALRecord (NodeUpdateRecord tableID columnID nodeOffset propertyVector).
Definition logRelDelete tableID src dst rel : stM LocalWAL () := addNewWALRecord (RelDeletionRecord tableID src dst rel).
Definition logRelDetachDelete tableID direction src : stM LocalWAL () :=
  addNewWALRecord (RelDetachDeleteRecord tableID direction src).
Definition logRelUpdate tableID columnID src dst rel property : stM LocalWAL () :=
  addNewWALRecord (RelUpdateRecord tableID columnID src dst rel property).
Definition logUpdateSequenceRecord sequenceID kCount : stM LocalWAL () :=
  addNewWALRecord (UpdateSequenceRecord sequenceID kCount).
Definition logLoadExtension path : stM LocalWAL () := addNewWALRecord (LoadExtensionRecord path).

Definition lw_clear (l : LocalWAL) : LocalWAL :=
  match l with
  | Plain _ => Plain (mkIMW [] 0)
  | Checked w => Checked (mkCW (mkIMW [] 0) None (cw_entryBuffer w))
  end.

Definition lw_getSize (l : LocalWAL) : nat :=
  match l with
  | Plain w => imw_getSize w
  | Checked w => default 0 (cw_currentEntrySize w) + imw_getSize (outputSerializer w)
  end.

(** [flush(Writer&)] of the pages written. *)
Fixpoint flush_each {W} `{Writer W} (pages : list (list Z)) (lastSize : nat) : stM W () :=
  match pages with
  | [] => mret ()
  | [page] => wr_write (take lastSize page)
  | page :: pages => _ ← wr_write (take BUFFER_SIZE page); flush_each pages lastSize
  end.
Definition imw_flush_to {W} `{Writer W} (w : InMemFileWriter) : stM W () := flush_each (pages w) (pageOffset w).

(** ** WAL *)

(** The open log file, or the file at its path when it is not open; the frozen log. *)
Record WAL : Type := mkWAL {
  serializer : option (Sink BufferedFileWriter);
  closedFile : option (list Z);
  checkpointWal : option (list Z);
}.

Definition walFile (w : WAL) : option (list Z) :=
  match serializer w with
  | Some s => Some (bfw_file (sink_out s))
  | None => closedFile w
  end.

Definition on_writer {A} (f : stM (Sink BufferedFileWriter) A) : stM WAL A := λ w,
  match serializer w with
  | Some s => let '(s, r) := f s in (mkWAL (Some s) (closedFile w) (checkpointWal w), r)
  | None => (w, UB)
  end.

Definition sink_flush (s : Sink BufferedFileWriter) : Sink BufferedFileWriter :=
  match s with
  | Plain w => Plain (bfw_flush w)
  | Checked w => Checked (mkCW (bfw_flush (outputSerializer w)) (cw_currentEntrySize w) (cw_entryBuffer w))
  end.
Definition sink_setFileOffset (n : nat) (s : Sink BufferedFileWriter) : Sink BufferedFileWriter :=
  let set w := mkBFW (bfw_buffer w) n (bfw_bufferOffset w) (bfw_file w) in
  match s with
  | Plain w => Plain (set w)
  | Checked w => Checked (mkCW (set (outputSerializer w)) (cw_currentEntrySize w) (cw_entryBuffer w))
  end.

(** [sync] makes what the file holds durable. *)
Definition flushAndSyncNoLock : stM WAL () := on_writer (st_modify sink_flush).

Definition writeDatabaseID {W} `{Writer W} (databaseID : Z) : stM W () := serializeValue 16 databaseID.

Definition wal_header {W} `{Writer W} (databaseID : Z) : stM W () :=
  _ ← writeDatabaseID databaseID; serializeValue 1 (if enableChecksums then 1 else 0)%Z.

Definition writeHeader (databaseID : Z) : stM WAL () :=
  on_writer (_ ← onObjectBegin (ObjectWriter := Sink_objects);
             _ ← wal_header databaseID;
             onObjectEnd (ObjectWriter := Sink_objects)).

Definition initWriter (databaseID : Z) : stM WAL () :=
  w ← st_get;
  match serializer w with
  | Some _ => mret ()
  | None =>
      let file := default [] (closedFile w) in
      _ ← st_put (mkWAL (Some (newSink allocateBuffer enableChecksums (newBufferedFileWriter file)))
                    (closedFile w) (checkpointWal w));
      _ ← (if decide (List.length file = 0) then writeHeader databaseID else mret ());
      w ← st_get;
      on_writer (st_modify (sink_setFileOffset (List.length (default [] (walFile w)))))
  end.

Definition addNewWALRecordNoLock (walRecord : WALRecord V C P) : stM WAL () := on_writer (add_record walRecord).

Variable inMemory : bool.

Definition logCommittedWAL (databaseID : Z) (localWAL : LocalWAL) : stM WAL () :=
  if inMemory || bool_decide (lw_getSize localWAL = 0) then mret ()
  else
    _ ← initWriter databaseID;
    _ ← on_writer (imw_flush_to (sink_out localWAL));
    flushAndSyncNoLock.

Definition logAndFlushCheckpoint (databaseID : Z) : stM WAL () :=
  _ ← initWriter databaseID;
  _ ← addNewWALRecordNoLock CheckpointRecord;
  flushAndSyncNoLock.

(** A rename replaces the file at the new path. *)
Definition rotateForCheckpoint : stM WAL bool :=
  if inMemory then mret false
  else
    w ← st_get;
    match serializer w, closedFile w with
    | None, None => mret false
    | _, _ =>
        _ ← (if serializer w then flushAndSyncNoLock else mret ());
        w ← st_get;
        _ ← st_put (mkWAL None None (walFile w));
        mret true
    end.

Definition logAndFlushCheckpointToFrozen : stM WAL () := λ w,
  match checkpointWal w with
  | None => (w, throw IOException "Cannot open file")
  | Some file =>
      let writer := sink_setFileOffset (List.length file) (newSink allocateBuffer enableChecksums (newBufferedFileWriter file)) in
      let '(writer, r) := add_record (CheckpointRecord : WALRecord V C P) writer in
      (mkWAL (serializer w) (closedFile w) (Some (bfw_file (sink_out (sink_flush writer)))), r)
  end.

Definition clearFrozenWAL (w : WAL) : WAL := mkWAL (serializer w) (closedFile w) None.

Definition wal_clear : stM WAL () :=
  on_writer (st_modify (λ s,
    match s with
    | Plain w => Plain (bfw_clear w)
    | Checked w => Checked (mkCW (bfw_clear (outputSerializer w)) None (cw_entryBuffer w))
    end)).

Definition wal_reset (w : WAL) : WAL := mkWAL None None (checkpointWal w).

Definition getFileSize (w : WAL) : result nat :=
  s ← deref (serializer w);
  Ok (match s with
      | Plain b => bfw_getSize b
      | Checked b => default 0 (cw_currentEntrySize b) + bfw_getSize (outputSerializer b)
      end).
End Wal.

(** * What the log files contain

    A local log holds the frames of its records in order; a commit appends them to the
    log file, which starts with the header frame. *)

#[local] Open Scope nat_scope.
#[local] Open Scope list_scope.

(** ** The bytes of a log *)

Section Layout.
Context `{PageConfig} `{DeserDebug}.
Context {V C P : Type} `{PayloadLaws V, PayloadLaws C, PayloadLaws P}.
Variable enableChecksums : bool.
#[local] Abbreviation frame_of := (frame enableChecksums).

(** A record that can be logged: with checksums it has to fit a page. *)
Definition loggable (r : WALRecord V C P) : Prop :=
  record_ok r ∧ (enableChecksums = true → List.length (wal_enc r) ≤ BUFFER_SIZE).

Definition frames (l : list (WALRecord V C P)) : list Z := l ≫= λ r, frame_of (wal_enc r).

Lemma frames_app l1 l2 : frames (l1 ++ l2) = frames l1 ++ frames l2.
Proof. apply bind_app. Qed.

Lemma frames_cons (r : WALRecord V C P) l : frames (r :: l) = frame_of (wal_enc r) ++ frames l.
Proof. done. Qed.

Definition enc_wal_header (databaseID : Z) : list Z :=
  bytes_of 16 databaseID ++ bytes_of 1 (if enableChecksums then 1 else 0)%Z.

(** The file a commit appends to. *)
Definition log_base (databaseID : Z) (w : WAL) : list Z :=
  match walFile w with
  | None | Some [] => frame_of (enc_wal_header databaseID)
  | Some file => file
  end.

Lemma enc_wal_header_length db : List.length (enc_wal_header db) = 17.
Proof. unfold enc_wal_header. by rewrite length_app, !length_bytes_of. Qed.

Lemma frame_length bs : List.length bs ≤ List.length (frame_of bs) ≤ List.length bs + 8.
Proof. unfold frame. destruct enableChecksums; rewrite ?length_app, ?length_bytes_of; lia. Qed.

Lemma header_frame_length db : 0 < List.length (frame_of (enc_wal_header db)) ≤ 25.
Proof. pose proof (frame_length (enc_wal_header db)). rewrite enc_wal_header_length in *. lia. Qed.

Definition small (l : list Z) : Prop := (Z.of_nat (List.length l) < 2 ^ 61)%Z.

Lemma log_base_ne db w : log_base db w ≠ [].
Proof.
  pose proof (header_frame_length db). unfold log_base. destruct (walFile w) as [[|]|]; [| |]; try done;
    by destruct (frame_of (enc_wal_header db)); simpl in *; [lia|].
Qed.

Lemma checkpoint_length : 0 < List.length (wal_enc (CheckpointRecord : WALRecord V C P)) ≤ 13.
Proof.
  unfold wal_enc. rewrite !length_app, length_bytes_of. unfold enc_label, enc_string. cbn [enc_fields List.length].
  destruct H0; rewrite ?length_app, ?length_bytes_of, ?length_bytes_of_string; cbn; lia.
Qed.

End Layout.

Section Facts.
Context `{PageConfig} `{DeserDebug}.
Context {V C P : Type} `{PayloadLaws V, PayloadLaws C, PayloadLaws P}.
Variable garbage : list Z.
Variable allocateBuffer : nat → list Z.
Variable enableChecksums : bool.
Hypothesis garbage_page : List.length garbage = BUFFER_SIZE.
Hypothesis allocateBuffer_size : ∀ n, List.length (allocateBuffer n) = n.
Hypothesis page_size : (64 ≤ LBUG_PAGE_SIZE < 2 ^ 32)%Z.

#[local] Abbreviation frame_of := (frame enableChecksums).
#[local] Abbreviation loggable := (loggable (V := V) (C := C) (P := P) enableChecksums).
#[local] Abbreviation frames := (frames (V := V) (C := C) (P := P) enableChecksums).
#[local] Abbreviation log_base := (log_base enableChecksums).
#[local] Abbreviation enc_wal_header := (enc_wal_header enableChecksums).
#[local] Instance facts_sink_writer {W} `{Writer W} : Writer (Sink W) := Sink_writer allocateBuffer.
#[local] Instance facts_page_writer : Writer InMemFileWriter := InMemFileWriter_writer garbage.

Section Sink.
Context {W : Type} `{WriterLaws W}.

Definition kind_ok (s : Sink W) : Prop := sink_ok s ∧ sink_kind s = enableChecksums.

Lemma add_record_ok (s : Sink W) r :
  kind_ok s → loggable r →
  (Z.of_nat (List.length (wr_contents (sink_out s)) + List.length (frames [r])) < wr_cap)%Z →
  ∃ s', add_record allocateBuffer r s = (s', Ok ()) ∧ kind_ok s' ∧
    wr_contents (sink_out s') = wr_contents (sink_out s) ++ frames [r].
Proof.
  intros [Hs Hk] [Hr Hle] Hcap. unfold frames in *. cbn [mbind list_bind] in *. rewrite app_nil_r, <-Hk in *.
  destruct (write_object_ok allocateBuffer s (wal_serialize r) (wal_enc r))
    as (s' & E & Hs' & Hk' & C'); [|done|done|done|].
  - intros L. by apply wal_serialize_writes.
  - exists s'. split; [exact E|]. split; [split; [done|congruence]|done].
Qed.

Fixpoint add_records (l : list (WALRecord V C P)) : stM (Sink W) () :=
  match l with
  | [] => mret ()
  | r :: l => _ ← add_record allocateBuffer r; add_records l
  end.

Lemma add_records_ok (s : Sink W) l :
  kind_ok s → Forall loggable l →
  (Z.of_nat (List.length (wr_contents (sink_out s)) + List.length (frames l)) < wr_cap)%Z →
  ∃ s', add_records l s = (s', Ok ()) ∧ kind_ok s' ∧ wr_contents (sink_out s') = wr_contents (sink_out s) ++ frames l.
Proof.
  revert s. induction l as [|r l IH]; intros s Hs Hl Hcap.
  { exists s. by rewrite app_nil_r. }
  apply Forall_cons in Hl as [Hr Hl]. change (r :: l) with ([r] ++ l) in *. rewrite frames_app in *.
  rewrite length_app in Hcap. destruct (add_record_ok s r Hs Hr ltac:(lia)) as (s1 & E1 & Hs1 & C1).
  destruct (IH s1 Hs1 Hl) as (s2 & E2 & Hs2 & C2); [rewrite C1, length_app; lia|].
  exists s2. cbn [add_records app]. rewrite st_bind_run, E1. split; [done|]. split; [done|].
  by rewrite C2, C1, (assoc_L (++)).
Qed.
End Sink.

(** ** The pages of a local log, flushed *)

Lemma flush_each_writes {W} `{WriterLaws W} pre lst o :
  Forall (λ p, List.length p = BUFFER_SIZE) pre →
  writes (flush_each (pre ++ [lst]) o) (concat pre ++ take o lst).
Proof.
  induction pre as [|p pre IH]; intros Hp; [apply writes_write|]. apply Forall_cons in Hp as [Hp Hpre].
  cbn [concat]. rewrite <-(assoc_L (++)).
  replace (flush_each ((p :: pre) ++ [lst]) o) with (_ ← wr_write (take BUFFER_SIZE p); flush_each (pre ++ [lst]) o)
    by (destruct pre; done).
  apply writes_bind; [|by apply IH]. rewrite take_ge by lia. apply writes_write.
Qed.

Lemma imw_flush_to_writes {W} `{WriterLaws W} w : imw_ok w → writes (imw_flush_to w) (imw_contents w).
Proof.
  intros [Hp Ho He]. unfold imw_flush_to. destruct w as [ps o]. cbn [pages pageOffset] in *.
  destruct ps as [|lst pre _] using rev_ind.
  - unfold imw_contents. simpl. rewrite take_nil. apply writes_ret.
  - apply Forall_app in Hp as [Hpre Hl]. apply Forall_cons_1 in Hl as [Hl _].
    rewrite (contents_snoc garbage garbage_page) by (try done; lia). by apply flush_each_writes.
Qed.

(** ** The log file *)

Local Existing Instance BufferedFileWriter_laws.

(** An open log has nothing buffered and starts with its header. *)
Definition wal_ok (w : WAL) : Prop :=
  match serializer w with
  | Some s => kind_ok s ∧ bfw_bufferOffset (sink_out s) = 0 ∧ bfw_file (sink_out s) ≠ []
  | None => True
  end.

(** A new writer on a file. *)
Lemma newSink_ok file :
  kind_ok (sink_setFileOffset (List.length file) (newSink allocateBuffer enableChecksums (newBufferedFileWriter file))) ∧
  let s := sink_setFileOffset (List.length file) (newSink allocateBuffer enableChecksums (newBufferedFileWriter file)) in
  bfw_contents (sink_out s) = file.
Proof.
  unfold newSink, kind_ok, sink_ok. destruct enableChecksums; cbn [sink_setFileOffset sink_kind sink_out].
  - split; [split; [split|done]|by unfold bfw_contents; simpl; rewrite app_nil_r].
    + constructor; simpl; [apply length_replicate|lia|done].
    + split; [done|]. simpl. by rewrite allocateBuffer_size.
  - split; [split; [split; [|done]|done]|by unfold bfw_contents; simpl; rewrite app_nil_r].
    constructor; simpl; [apply length_replicate|lia|done].
Qed.

Lemma sink_flush_ok s :
  kind_ok s → kind_ok (sink_flush s) ∧ bfw_file (sink_out (sink_flush s)) = bfw_contents (sink_out s) ∧
  bfw_bufferOffset (sink_out (sink_flush s)) = 0.
Proof.
  intros [[Hok Hs] Hk]. destruct s as [w|w]; cbn [sink_flush sink_out outputSerializer] in *;
    destruct (bfw_flush_ok _ Hok) as (? & _ & ? & ?); done.
Qed.

(** What a writer with an empty buffer has written is its file. *)
Lemma sink_file s : bfw_bufferOffset (sink_out s) = 0 → bfw_contents (sink_out s) = bfw_file (sink_out s).
Proof. intros E. unfold bfw_contents. by rewrite E, take_0, app_nil_r. Qed.

(** In an open writer the offset is the end of the file. *)
Lemma setFileOffset_end (s : Sink BufferedFileWriter) :
  kind_ok s → sink_setFileOffset (List.length (bfw_file (sink_out s))) s = s.
Proof.
  intros [[Hok _] _]. destruct s as [[b o n f]|[[b o n f] e eb]]; cbn in *; destruct Hok as [_ _ E]; cbn in E; by rewrite E.
Qed.

Lemma writeHeader_ok db s c z :
  kind_ok s → bfw_contents (sink_out s) = [] →
  ∃ s', writeHeader allocateBuffer enableChecksums db (mkWAL (Some s) c z) = (mkWAL (Some s') c z, Ok ()) ∧ kind_ok s' ∧
    bfw_contents (sink_out s') = frame_of (enc_wal_header db).
Proof.
  intros [Hs Hk] Hc.
  destruct (write_object_ok allocateBuffer s (wal_header enableChecksums db) (enc_wal_header db))
    as (s' & E & Hs' & Hk' & C'); [|done| | |].
  - intros L. apply writes_bind; apply writes_value.
  - intros _. rewrite enc_wal_header_length. unfold BUFFER_SIZE. lia.
  - cbn [wr_contents wr_cap BufferedFileWriter_laws]. rewrite Hc, Hk. pose proof (header_frame_length enableChecksums db). simpl. lia.
  - exists s'. cbn [wr_contents BufferedFileWriter_laws] in C'. rewrite Hc, Hk in C'.
    split; [|split; [split; [done|congruence]|done]].
    unfold writeHeader, on_writer. cbn [serializer]. unfold write_object, facts_sink_writer in E.
    unfold sink_writer. by rewrite E.
Qed.

Lemma initWriter_ok db w :
  wal_ok w →
  ∃ s, initWriter allocateBuffer enableChecksums db w = (mkWAL (Some s) (closedFile w) (checkpointWal w), Ok ()) ∧
    kind_ok s ∧ bfw_contents (sink_out s) = log_base db w.
Proof.
  intros Hw. unfold initWriter. rewrite st_bind_run. cbn [st_get]. destruct w as [[s|] closed frozen].
  - destruct Hw as (Hs & H0' & Hne). cbn [serializer mret stM_ret]. exists s. split; [done|]. split; [done|].
    rewrite sink_file by done. unfold log_base, walFile. cbn [serializer] in *. by destruct (bfw_file (sink_out s)).
  - cbn [serializer closedFile checkpointWal]. set (file := default [] closed).
    destruct (newSink_ok file) as [Hk Hc]. rewrite st_bind_run. cbn [st_put]. rewrite st_bind_run.
    set (s0 := newSink _ _ _) in *.
    assert (bfw_file (sink_out s0) = file) as Hf0 by (unfold s0, newSink; by destruct enableChecksums).
    case_decide as Hlen.
    + apply nil_length_inv in Hlen. rewrite Hlen in *.
      assert (sink_setFileOffset (List.length (@nil Z)) s0 = s0) as Es by (unfold s0, newSink; by destruct enableChecksums).
      rewrite Es in *. destruct (writeHeader_ok db s0 closed frozen Hk Hc) as (s1 & -> & Hk1 & C1).
      rewrite st_bind_run. cbn [st_get]. unfold on_writer. cbn [serializer st_modify walFile default from_option id].
      rewrite setFileOffset_end by done. exists s1. split; [done|]. split; [done|]. rewrite C1.
      unfold log_base, walFile. cbn [serializer closedFile]. destruct closed as [[|]|]; by simplify_eq/=.
    + cbn [mret stM_ret]. rewrite st_bind_run. cbn [st_get]. unfold on_writer.
      cbn [serializer st_modify walFile default from_option id]. rewrite Hf0.
      eexists. split; [done|]. split; [exact Hk|]. rewrite Hc.
      unfold log_base, walFile, file in *. cbn [serializer closedFile]. by destruct closed as [[|]|].
Qed.
(** An open writer, flushed, is an open log again. *)
Lemma flushed_ok s c z :
  kind_ok s → bfw_contents (sink_out s) ≠ [] →
  flushAndSyncNoLock (mkWAL (Some s) c z) = (mkWAL (Some (sink_flush s)) c z, Ok ()) ∧
  wal_ok (mkWAL (Some (sink_flush s)) c z) ∧
  walFile (mkWAL (Some (sink_flush s)) c z) = Some (bfw_contents (sink_out s)).
Proof.
  intros Hs Hne. destruct (sink_flush_ok s Hs) as (Hk & Hf & Hz). split; [done|].
  unfold wal_ok, walFile. cbn [serializer]. by rewrite Hf.
Qed.

(** ** The operations *)

Lemma local_size (l : LocalWAL) :
  imw_ok (sink_out l) → imw_contents (sink_out l) ≠ [] → lw_getSize l ≠ 0.
Proof.
  intros Hl Hne Hz. apply Hne, nil_length_inv. rewrite (imw_length garbage garbage_page) by done.
  unfold lw_getSize in Hz. destruct l; cbn [sink_out] in *; lia.
Qed.

Lemma logCommittedWAL_ok db w (l : LocalWAL) :
  wal_ok w → imw_ok (sink_out l) → imw_contents (sink_out l) ≠ [] →
  small (log_base db w) → small (imw_contents (sink_out l)) →
  ∃ w', logCommittedWAL allocateBuffer enableChecksums false db l w = (w', Ok ()) ∧ wal_ok w' ∧
    walFile w' = Some (log_base db w ++ imw_contents (sink_out l)) ∧ checkpointWal w' = checkpointWal w.
Proof.
  intros Hw Hl Hne Hb Hs. unfold logCommittedWAL. rewrite bool_decide_eq_false_2 by (by apply local_size).
  cbn [orb]. rewrite st_bind_run. destruct (initWriter_ok db w Hw) as (s & -> & Hk & Hc).
  rewrite st_bind_run. unfold on_writer at 1. cbn [serializer].
  destruct (imw_flush_to_writes (H8 := sink_pass_laws allocateBuffer enableChecksums) (sink_out l) Hl s)
    as (s1 & E & Hk1 & C1); [done| |].
  { unfold fits, small in *. cbn [wr_contents sink_pass_laws wr_cap BufferedFileWriter_laws]. rewrite Hc. lia. }
  cbn [wr_contents sink_pass_laws BufferedFileWriter_laws] in C1. rewrite Hc in C1.
  unfold sink_writer. rewrite E. cbn [closedFile checkpointWal].
  destruct (flushed_ok s1 (closedFile w) (checkpointWal w) Hk1) as (Ef & Hok & Hf).
  { rewrite C1. pose proof (log_base_ne enableChecksums db w). by destruct (log_base db w). }
  rewrite Ef. eexists. split; [reflexivity|]. split; [exact Hok|]. split; [|done]. by rewrite Hf, C1.
Qed.

(** A transaction without changes logs nothing. *)
Lemma logCommittedWAL_empty inMemory db w (l : LocalWAL) :
  lw_getSize l = 0 → logCommittedWAL allocateBuffer enableChecksums inMemory db l w = (w, Ok ()).
Proof. intros E. unfold logCommittedWAL. by rewrite E, orb_true_r. Qed.

Lemma newLocalWAL_ok :
  @kind_ok _ _ (InMemFileWriter_laws garbage garbage_page) (newLocalWAL allocateBuffer enableChecksums) ∧
  imw_contents (sink_out (newLocalWAL allocateBuffer enableChecksums)) = [].
Proof.
  unfold newLocalWAL, newSink, kind_ok, sink_ok. destruct (newInMemFileWriter_ok garbage garbage_page) as (Hok & Hc & Ht).
  destruct enableChecksums; cbn [sink_kind sink_out newChecksumWriter outputSerializer]; (split; [|exact Hc]).
  - split; [|done]. split; [exact (conj Hok Ht)|]. split; [done|]. cbn. apply allocateBuffer_size.
  - split; [|done]. split; [exact (conj Hok Ht)|done].
Qed.

Lemma rotateForCheckpoint_ok w file :
  wal_ok w → walFile w = Some file →
  rotateForCheckpoint false w = (mkWAL None None (Some file), Ok true).
Proof.
  intros Hw Hf. unfold rotateForCheckpoint. rewrite st_bind_run. cbn [st_get].
  destruct w as [[s|] closed frozen]; cbn [serializer closedFile] in *.
  - destruct Hw as (Hk & Hz & Hne). rewrite st_bind_run.
    destruct (flushed_ok s closed frozen Hk) as (Ef & _ & Hff); [by rewrite sink_file|].
    rewrite Ef, st_bind_run. cbn [st_get]. rewrite Hff, sink_file by done.
    unfold walFile in Hf. cbn [serializer] in Hf. by rewrite Hf.
  - unfold walFile in Hf. cbn [serializer closedFile] in Hf. subst closed. done.
Qed.

Lemma logAndFlushCheckpointToFrozen_ok w file :
  checkpointWal w = Some file → small file → loggable CheckpointRecord →
  logAndFlushCheckpointToFrozen (V := V) (C := C) (P := P) allocateBuffer enableChecksums w =
    (mkWAL (serializer w) (closedFile w) (Some (file ++ frames [CheckpointRecord])), Ok ()).
Proof.
  intros Hf Hs Hr. unfold logAndFlushCheckpointToFrozen. rewrite Hf. destruct (newSink_ok file) as [Hk Hc].
  destruct (add_record_ok (sink_setFileOffset (List.length file)
              (newSink allocateBuffer enableChecksums (newBufferedFileWriter file))) CheckpointRecord Hk Hr)
    as (s' & E & Hk' & C').
  { cbn [wr_contents wr_cap BufferedFileWriter_laws]. rewrite Hc. unfold small, frames in *.
    cbn [mbind list_bind]. rewrite app_nil_r. pose proof (frame_length enableChecksums (wal_enc (CheckpointRecord : WALRecord V C P))) as Hl.
    pose proof (checkpoint_length (V := V) (C := C) (P := P)). lia. }
  cbn [wr_contents BufferedFileWriter_laws] in C'. rewrite Hc in C'.
  destruct (sink_flush_ok s' Hk') as (_ & Hff & _). cbn zeta.
  rewrite E. rewrite Hff, C'. done.
Qed.
End Facts.
