(* ===== verification/ShadowFile.v ===== *)
(** * The shadow file (storage/shadow_file.{h,cpp}, storage/shadow_utils.cpp,
    storage/file_db_id_utils.cpp)

    A checkpoint changes pages of the data file in copies kept in the shadow file, which
    are written over the originals once the checkpoint is logged.  The pages of the
    shadowing file are what the buffer manager holds of them; the shadow file on disk and
    the data file are their contents.  The shadow file does not exist when it is opened:
    recovery and [reset] remove it. *)

From Stdlib Require Import Ascii String.
From S2P Require Import Prelude.
From S2P Require Import FileHandle.
From S2P Require Import PageManager.
From S2P Require Import Serializer.
From S2P Require Import SerializerFacts.
From S2P Require Import Serial.
#[local] Open Scope nat_scope.
#[local] Open Scope list_scope.

Record ShadowPageRecord : Type := mkSPR { originalFileIdx : Z; originalPageIdx : Z }.

#[export] Instance ShadowPageRecord_eq_dec : EqDecision ShadowPageRecord.
Proof. solve_decision. Defined.

Definition spr_serialize {W} `{Writer W} (r : ShadowPageRecord) : stM W () :=
  _ ← serializeValue 4 (originalFileIdx r); serializeValue 4 (originalPageIdx r).
Definition spr_deserialize {R} `{Reader R} : stM R ShadowPageRecord :=
  originalFileIdx ← deserializeValue 4;
  originalPageIdx ← deserializeValue 4;
  mret (mkSPR originalFileIdx originalPageIdx).

Record ShadowFile : Type := mkSF {
  shadowPagesMap : gmap Z (gmap Z Z);
  shadowPageRecords : list ShadowPageRecord;
  shadowingFH : option (list (list Z));
}.

Definition newShadowFile : ShadowFile := mkSF ∅ [] None.

Definition find_shadow (sf : ShadowFile) (originalFile originalPage : Z) : option Z :=
  shadowPagesMap sf !! originalFile ≫= (.!! originalPage).
Definition hasShadowPage (sf : ShadowFile) (originalFile originalPage : Z) : bool :=
  bool_decide (is_Some (find_shadow sf originalFile originalPage)).
Definition getShadowPage (sf : ShadowFile) (originalFile originalPage : Z) : result Z :=
  deref (find_shadow sf originalFile originalPage).

Definition clearShadowPage (originalFile originalPage : Z) (sf : ShadowFile) : ShadowFile :=
  match shadowPagesMap sf !! originalFile with
  | Some pages =>
      if decide (is_Some (pages !! originalPage)) then
        let pages := delete originalPage pages in
        mkSF (if decide (pages = ∅) then delete originalFile (shadowPagesMap sf)
              else <[originalFile := pages]> (shadowPagesMap sf))
          (shadowPageRecords sf) (shadowingFH sf)
      else sf
  | None => sf
  end.

Section Shadow.
Context `{PageConfig}.
(** What a frame holds that has not been read from the file. *)
Variable garbage : list Z.

Definition getOrCreateShadowingFH : stM ShadowFile (list (list Z)) := λ sf,
  match shadowingFH sf with
  | Some pages => (sf, Ok pages)
  | None => (mkSF (shadowPagesMap sf) (shadowPageRecords sf) (Some [garbage]), Ok [garbage])
  end.

Definition getOrCreateShadowPage (originalFile originalPage : Z) : stM ShadowFile Z :=
  sf ← st_get;
  match find_shadow sf originalFile originalPage with
  | Some shadowPageIdx => mret shadowPageIdx
  | None =>
      pages ← getOrCreateShadowingFH;
      let shadowPageIdx := Z.of_nat (List.length pages) in
      _ ← st_modify (λ sf,
        mkSF (<[originalFile := <[originalPage := shadowPageIdx]> (default ∅ (shadowPagesMap sf !! originalFile))]>
                (shadowPagesMap sf))
          (shadowPageRecords sf ++ [mkSPR originalFile originalPage]) (Some (pages ++ [garbage])));
      mret shadowPageIdx
  end.

(** A page of the shadowing file, and writing it. *)
Definition shadow_frame (shadowPage : Z) : stM ShadowFile (list Z) :=
  sf ← st_get;
  pages ← st_lift (deref (shadowingFH sf));
  st_lift (deref (pages !! Z.to_nat shadowPage)).
Definition set_shadow_frame (shadowPage : Z) (frame : list Z) : stM ShadowFile () :=
  sf ← st_get;
  pages ← st_lift (deref (shadowingFH sf));
  if decide (Z.to_nat shadowPage < List.length pages)
  then st_put (mkSF (shadowPagesMap sf) (shadowPageRecords sf) (Some (<[Z.to_nat shadowPage := frame]> pages)))
  else st_lift UB.

(** [original] is the page in the file, which the caller may skip reading. *)
Definition createShadowVersionIfNecessaryAndPinPage (fileIdx originalPage : Z) (skipReadingOriginalPage : bool)
    (original : list Z) : stM ShadowFile Z :=
  sf ← st_get;
  let hasShadow := hasShadowPage sf fileIdx originalPage in
  shadowPage ← getOrCreateShadowPage fileIdx originalPage;
  _ ← (if hasShadow || skipReadingOriginalPage then mret () else set_shadow_frame shadowPage original);
  mret shadowPage.

Definition updatePage (fileIdx originalPage : Z) (skipReadingOriginalPage : bool) (original : list Z)
    (updateOp : list Z → list Z) : stM ShadowFile () :=
  shadowPage ← createShadowVersionIfNecessaryAndPinPage fileIdx originalPage skipReadingOriginalPage original;
  frame ← shadow_frame shadowPage;
  set_shadow_frame shadowPage (updateOp frame).

(** [flush] of an in-memory writer to pages allocated for it: the pages written, then
    zeros in the pages that are left over. *)
Fixpoint flush_pages (fileIdx page : Z) (l : list (list Z)) : stM ShadowFile () :=
  match l with
  | [] => mret ()
  | contents :: l =>
      _ ← updatePage fileIdx page true [] (λ _, contents);
      flush_pages fileIdx (wrap 32 (page + 1)) l
  end.

Definition flush_to_pages (fileIdx start numPages : Z) (w : InMemFileWriter) : stM ShadowFile () :=
  if bool_decide (numPages < Z.of_nat (getNumPagesToFlush w))%Z then st_lift UB
  else flush_pages fileIdx start
         (pages w ++ replicate (Z.to_nat numPages - getNumPagesToFlush w) (replicate BUFFER_SIZE 0%Z)).

(** ** The file on disk *)

(** [ShadowFileHeader]: an ID, a page count, and the padding of the struct. *)
Definition shadow_header (databaseID : Z) (numShadowPages : nat) : list Z :=
  let bytes := bytes_of 16 databaseID ++ bytes_of 4 (Z.of_nat numShadowPages) ++ take 12 garbage in
  bytes ++ replicate (BUFFER_SIZE - List.length bytes) 0%Z.

Fixpoint write_each (i : nat) (l : list (list Z)) (file : list Z) : list Z :=
  match l with
  | [] => file
  | page :: l => write_each (S i) l (writeFile file page (i * BUFFER_SIZE))
  end.

(** Pages that are not dirty any more have been written before, when they were evicted. *)
Definition flushAll (databaseID : Z) (sf : ShadowFile) (disk : list Z) : result (list Z) :=
  pages ← deref (shadowingFH sf);
  if decide (List.length (shadowPageRecords sf) + 1 = List.length pages) then
    let disk := writeFile disk (shadow_header databaseID (List.length (shadowPageRecords sf))) 0 in
    let disk := write_each 1 (drop 1 pages) disk in
    let writer := mkBFW (replicate BUFFER_SIZE 0%Z) (List.length pages * BUFFER_SIZE) 0 disk in
    let '(w, r) := serializeVector spr_serialize (shadowPageRecords sf) writer in
    _ ← r; Ok (bfw_file (bfw_flush w))
  else UB.

(** [readFromFile] into a buffer: a read that ends at the end of the file is short and
    leaves the rest of the buffer.  The message, which names the descriptor and the
    counts, is shortened. *)
Definition readInto (buffer file : list Z) (position : nat) : result (list Z) :=
  if decide (position ≤ List.length file) then
    let bytes := take (List.length buffer) (drop position file) in
    Ok (bytes ++ drop (List.length bytes) buffer)
  else throw IOException "Cannot read from file".

(** The loop of [applyShadowPages] and of [replayShadowPageRecords]. *)
Fixpoint copy_pages (shadow : list Z) (shadowPageIdx : nat) (records : list ShadowPageRecord)
    (buffer data : list Z) : list Z * result () :=
  match records with
  | [] => (data, Ok ())
  | record :: records =>
      match readInto buffer shadow (shadowPageIdx * BUFFER_SIZE) with
      | Ok buffer =>
          copy_pages shadow (S shadowPageIdx) records buffer
            (writeFile data buffer (Z.to_nat (originalPageIdx record) * BUFFER_SIZE))
      | Throw e => (data, Throw e)
      | UB => (data, UB)
      end
  end.

Definition pageBuffer : list Z := replicate BUFFER_SIZE 0%Z.

Definition applyShadowPages (sf : ShadowFile) (shadow data : list Z) : list Z * result () :=
  copy_pages shadow 1 (shadowPageRecords sf) pageBuffer data.

Definition clear (sf : ShadowFile) : ShadowFile := mkSF ∅ [] (Some [garbage]).
Definition reset (sf : ShadowFile) : ShadowFile := mkSF (shadowPagesMap sf) (shadowPageRecords sf) None.

Definition verifyDatabaseID (path : string) (expectedDatabaseID databaseID : Z) : result () :=
  if bool_decide (expectedDatabaseID = databaseID) then Ok ()
  else throw RuntimeException
    ("Database ID for temporary file '" +:+ path +:+ "' does not match the current database. This file " +:+
     "may have been left behind from a previous database with the same name. If it is safe " +:+
     "to do so, please delete this file and restart the database.").

(** [replayShadowPageRecords]: the data file it leaves, and its outcome.  [oldHeader] is
    what [readDatabaseHeader] finds in the data file. *)
Definition replayShadowPageRecords (readOnly : bool) (path : string) (oldHeader : result (option DatabaseHeader))
    (shadow data : list Z) : list Z * result () :=
  if readOnly then (data, throw RuntimeException 
    ("Couldn't replay shadow pages under read-only mode. Please re-open " +:+
     "the database with read-write mode to replay shadow pages.")) else
  match (headerBuffer ← readInto pageBuffer shadow 0;
         old ← oldHeader;
         oldID ← match old with
                 | Some h => Ok (databaseID h)
                 | None => throw InternalException 
                     ("Found a shadow file for database {} but no valid database header. " +:+
                      "The database is corrupted, please recreate it.")
                 end;
         _ ← verifyDatabaseID path oldID (value_of (take 16 headerBuffer));
         let numShadowPages := value_of (take 4 (drop 16 headerBuffer)) in
         let '(reader, r) := newBufferedFileReader shadow in
         _ ← r;
         let reader := resetReadOffset (Z.to_nat (wrap 32 (numShadowPages + 1)) * BUFFER_SIZE) reader in
         (deserializeVector spr_deserialize reader).2) with
  | Ok records => copy_pages shadow 1 records pageBuffer data
  | Throw e => (data, Throw e)
  | UB => (data, UB)
  end.
End Shadow.
