(* ===== verification/ShadowFileFacts.v ===== *)
(** * What the shadow file restores

    The bytes of files written page by page; the shadow file that [flushAll] leaves on
    disk; that replaying it gives the data file that applying it gives, whatever a crash
    has left of the pages being written. *)

From Stdlib Require Import Ascii String.
From S2P Require Import Prelude.
From S2P Require Import FileHandle.
From S2P Require Import PageManager.
From S2P Require Import Serializer.
From S2P Require Import SerializerFacts.
From S2P Require Import Serial.
From S2P Require Import Checksum.
From S2P Require Import ShadowFile.
#[local] Open Scope nat_scope.
#[local] Open Scope list_scope.

(** ** Bytes of a file *)

(** Bytes beyond the end read as zeros. *)
Definition byte (file : list Z) (i : nat) : Z := default 0%Z (file !! i).

Lemma file_ext f1 f2 : List.length f1 = List.length f2 → (∀ i, byte f1 i = byte f2 i) → f1 = f2.
Proof.
  intros Hl Hb. apply list_eq. intros i. specialize (Hb i). unfold byte in Hb.
  destruct (f1 !! i) eqn:E1, (f2 !! i) eqn:E2; simpl in Hb; [by subst| | |done].
  - apply lookup_lt_Some in E1. apply lookup_ge_None in E2. lia.
  - apply lookup_lt_Some in E2. apply lookup_ge_None in E1. lia.
Qed.

Lemma writeFile_length f data off :
  0 < List.length data → List.length (writeFile f data off) = Nat.max (List.length f) (off + List.length data).
Proof.
  intros Hd. unfold writeFile. rewrite !length_app, length_take, length_drop, length_app, length_replicate. lia.
Qed.

Lemma writeFile_byte f data off i :
  byte (writeFile f data off) i =
  if bool_decide (off ≤ i < off + List.length data) then byte data (i - off) else byte f i.
Proof.
  assert (List.length (take off (f ++ replicate (off - List.length f) 0%Z)) = off) as Ht.
  { rewrite length_take, length_app, length_replicate. lia. }
  unfold byte, writeFile. case_bool_decide as Hi.
  - rewrite lookup_app_r by lia. rewrite Ht, lookup_app_l by lia. done.
  - destruct (decide (i < off)).
    + rewrite lookup_app_l, lookup_take by lia. rewrite decide_True by lia.
      destruct (decide (i < List.length f)); [by rewrite lookup_app_l by lia|].
      rewrite lookup_app_r by lia. rewrite (lookup_ge_None_2 f i) by lia.
      by rewrite lookup_replicate_2 by lia.
    + rewrite lookup_app_r by lia. rewrite Ht, lookup_app_r, lookup_drop by lia. do 2 f_equal. lia.
Qed.

Section Copy.
Context `{PageConfig}.
#[local] Abbreviation PS := BUFFER_SIZE.

Definition page_of (r : ShadowPageRecord) : nat := Z.to_nat (originalPageIdx r).

Lemma page_bytes p i : p * PS ≤ i < p * PS + PS ↔ i / PS = p.
Proof.
  pose proof BUFFER_SIZE_pos. split.
  - intros Hi. symmetry. apply (Nat.div_unique _ _ _ (i - p * PS)); lia.
  - intros <-. pose proof (Nat.div_mod i PS ltac:(lia)). pose proof (Nat.mod_upper_bound i PS ltac:(lia)). lia.
Qed.

(** ** The pages copied *)

Definition shadow_page (shadow : list Z) (i : nat) : list Z := take PS (drop (i * PS) shadow).

Fixpoint overwrite (shadow : list Z) (i : nat) (records : list ShadowPageRecord) (data : list Z) : list Z :=
  match records with
  | [] => data
  | r :: records => overwrite shadow (S i) records (writeFile data (shadow_page shadow i) (page_of r * PS))
  end.

Lemma shadow_page_length shadow i : S i * PS ≤ List.length shadow → List.length (shadow_page shadow i) = PS.
Proof. intros. unfold shadow_page. rewrite length_take, length_drop. lia. Qed.

Lemma copy_pages_ok shadow i records buffer data :
  List.length buffer = PS → (i + List.length records) * PS ≤ List.length shadow →
  copy_pages shadow i records buffer data = (overwrite shadow i records data, Ok ()).
Proof.
  revert i buffer data. induction records as [|r records IH]; intros i buffer data Hb Hlen; [done|].
  cbn [copy_pages overwrite List.length] in *. unfold readInto. rewrite decide_True by lia. rewrite Hb.
  fold (shadow_page shadow i). pose proof (shadow_page_length shadow i ltac:(lia)) as Hl.
  rewrite Hl, drop_ge, app_nil_r by lia. apply IH; [done|lia].
Qed.

(** The position of the last record of a page, from a count on. *)
Fixpoint last_record (p i : nat) (records : list ShadowPageRecord) : option nat :=
  match records with
  | [] => None
  | r :: records =>
      match last_record p (S i) records with
      | Some k => Some k
      | None => if bool_decide (page_of r = p) then Some i else None
      end
  end.

Definition last_end (records : list ShadowPageRecord) : nat :=
  foldr (λ r n, Nat.max (S (page_of r) * PS) n) 0 records.

Lemma overwrite_length shadow i records data :
  (i + List.length records) * PS ≤ List.length shadow →
  List.length (overwrite shadow i records data) = Nat.max (List.length data) (last_end records).
Proof.
  pose proof BUFFER_SIZE_pos. revert i data. induction records as [|r records IH]; intros i data Hlen; [simpl; lia|].
  cbn [overwrite List.length] in *. rewrite IH by lia.
  pose proof (shadow_page_length shadow i ltac:(lia)) as Hl. rewrite writeFile_length by lia.
  rewrite Hl. unfold last_end. cbn [foldr]. lia.
Qed.

Lemma overwrite_byte shadow i records data o :
  (i + List.length records) * PS ≤ List.length shadow →
  byte (overwrite shadow i records data) o =
  match last_record (o / PS) i records with
  | Some k => byte (shadow_page shadow k) (o mod PS)
  | None => byte data o
  end.
Proof.
  pose proof BUFFER_SIZE_pos. revert i data. induction records as [|r records IH]; intros i data Hlen; [done|].
  cbn [overwrite last_record List.length] in *. rewrite IH by lia.
  destruct (last_record (o / PS) (S i) records); [done|].
  rewrite writeFile_byte, shadow_page_length by lia.
  rewrite (bool_decide_ext (page_of r * PS ≤ o < page_of r * PS + PS) (page_of r = o / PS))
    by (rewrite page_bytes; split; congruence).
  case_bool_decide as Hp; [|done]. f_equal. rewrite Hp. pose proof (Nat.div_mod o PS). lia.
Qed.

(** A file a crash may leave while the pages are being written: the pages of the records
    hold anything, everything else is as it was. *)
Definition torn (records : list ShadowPageRecord) (data data' : list Z) : Prop :=
  List.length data ≤ List.length data' ≤ Nat.max (List.length data) (last_end records) ∧
  ∀ o, last_record (o / PS) 1 records = None → byte data' o = byte data o.

Lemma torn_refl records data : torn records data data.
Proof. split; [lia|done]. Qed.

Lemma overwrite_torn shadow records data data' :
  (1 + List.length records) * PS ≤ List.length shadow → torn records data data' →
  overwrite shadow 1 records data' = overwrite shadow 1 records data.
Proof.
  intros Hlen [Hl Hb]. apply file_ext.
  - rewrite !overwrite_length by done. lia.
  - intros o. rewrite !overwrite_byte by done. destruct (last_record _ _ _) eqn:E; [done|by apply Hb].
Qed.

Lemma overwrite_is_torn shadow records data :
  (1 + List.length records) * PS ≤ List.length shadow → torn records data (overwrite shadow 1 records data).
Proof.
  intros Hlen. split; [rewrite overwrite_length by done; lia|]. intros o E. by rewrite overwrite_byte, E.
Qed.

(** ** The file on disk *)

Lemma byte_app a b o : byte (a ++ b) o = if bool_decide (o < List.length a) then byte a o else byte b (o - List.length a).
Proof.
  unfold byte. case_bool_decide; [by rewrite lookup_app_l|by rewrite lookup_app_r by lia].
Qed.

Lemma byte_end f o : List.length f ≤ o → byte f o = 0%Z.
Proof. intros. unfold byte. by rewrite lookup_ge_None_2. Qed.

Lemma byte_concat l o :
  Forall (λ p, List.length p = PS) l → byte (concat l) o = byte (default [] (l !! (o / PS))) (o mod PS).
Proof.
  pose proof BUFFER_SIZE_pos. intros Hl. revert o. induction Hl as [|p l Hp Hl IH]; intros o; [done|].
  cbn [concat]. rewrite byte_app, Hp. case_bool_decide as Ho.
  - rewrite (Nat.div_small o), (Nat.mod_small o) by lia. done.
  - assert (o / PS = S ((o - PS) / PS) ∧ o mod PS = (o - PS) mod PS) as [Hq Hm].
    { replace o with ((o - PS) + 1 * PS) at 1 3 by lia. rewrite Nat.div_add, Nat.Div0.mod_add by lia. lia. }
    rewrite IH, Hq, Hm. done.
Qed.

Lemma write_each_spec i l file :
  Forall (λ p, List.length p = PS) l →
  List.length (write_each i l file) = Nat.max (List.length file) (if decide (l = []) then 0 else (i + List.length l) * PS) ∧
  ∀ o, byte (write_each i l file) o =
    match (if decide (i ≤ o / PS) then l !! (o / PS - i) else None) with
    | Some p => byte p (o mod PS)
    | None => byte file o
    end.
Proof.
  pose proof BUFFER_SIZE_pos. intros Hl. revert i file. induction Hl as [|p l Hp Hl IH]; intros i file.
  { cbn [write_each]. split; [simpl; lia|]. intros o. by case_decide. }
  cbn [write_each]. destruct (IH (S i) (writeFile file p (i * PS))) as [IHl IHb]. split.
  - rewrite IHl, writeFile_length, Hp by lia. rewrite (decide_False (P := p :: l = [])) by done.
    cbn [List.length]. destruct (decide (l = [])) as [->|]; simpl; lia.
  - intros o. rewrite IHb, writeFile_byte, Hp.
    rewrite (bool_decide_ext (i * PS ≤ o < i * PS + PS) (o / PS = i)) by apply page_bytes.
    destruct (decide (S i ≤ o / PS)).
    + rewrite decide_True by lia. rewrite (bool_decide_false (o / PS = i)) by lia.
      replace (o / PS - i) with (S (o / PS - S i)) by lia. done.
    + case_bool_decide as Ho.
      * rewrite decide_True, Ho, Nat.sub_diag by lia. cbn [lookup list_lookup]. f_equal.
        pose proof (Nat.div_mod o PS). lia.
      * by rewrite decide_False by lia.
Qed.

Section Flushed.
Variable garbage : list Z.
Hypothesis garbage_page : List.length garbage = PS.
Hypothesis page_size : (32 ≤ LBUG_PAGE_SIZE)%Z.

(** Page 0 is reserved, and every record has its page after it. *)
Definition sf_ok (sf : ShadowFile) : Prop :=
  match shadowingFH sf with
  | None => shadowPageRecords sf = []
  | Some pages => List.length pages = S (List.length (shadowPageRecords sf)) ∧ Forall (λ p, List.length p = PS) pages
  end ∧
  Forall (λ r, (0 ≤ originalFileIdx r < 2 ^ 32)%Z ∧ (0 ≤ originalPageIdx r < 2 ^ 32)%Z) (shadowPageRecords sf).

Definition enc_record (r : ShadowPageRecord) : list Z := bytes_of 4 (originalFileIdx r) ++ bytes_of 4 (originalPageIdx r).
Definition shadow_image (id : Z) (pages : list (list Z)) (records : list ShadowPageRecord) : list Z :=
  (shadow_header garbage id (List.length records) ++ concat (drop 1 pages)) ++ enc_vector enc_record records.

Lemma shadow_header_length id n : List.length (shadow_header garbage id n) = PS.
Proof.
  unfold shadow_header. set (bytes := bytes_of 16 id ++ _). assert (List.length bytes = 32) as Hb.
  { unfold bytes. rewrite !length_app, !length_bytes_of, length_take, garbage_page. unfold BUFFER_SIZE. lia. }
  rewrite length_app, length_replicate, Hb. unfold BUFFER_SIZE. lia.
Qed.

Lemma flushAll_ok id sf pages disk :
  sf_ok sf → shadowingFH sf = Some pages → List.length disk ≤ List.length pages * PS →
  (Z.of_nat (List.length pages) < 2 ^ 32)%Z → (LBUG_PAGE_SIZE < 2 ^ 29)%Z →
  flushAll garbage id sf disk = Ok (shadow_image id pages (shadowPageRecords sf)).
Proof.
  intros [Hsf Hr] Epages Hdisk Hsmall Hps. rewrite Epages in Hsf. destruct Hsf as [Hn Hl].
  pose proof BUFFER_SIZE_pos. unfold flushAll. rewrite Epages. cbn [deref mbind result_bind]. rewrite decide_True by lia. cbv zeta.
  set (header := shadow_header garbage id (List.length (shadowPageRecords sf))).
  pose proof (shadow_header_length id (List.length (shadowPageRecords sf))) as Hh. fold header in Hh.
  destruct pages as [|p0 ps]; [done|]. unfold shadow_image. cbn [drop]. rewrite !drop_0. apply Forall_cons in Hl as [_ Hl].
  set (disk1 := writeFile disk header 0). destruct (write_each_spec 1 ps disk1 Hl) as [Hlen Hbyte].
  assert (write_each 1 ps disk1 = header ++ concat ps) as ->.
  { apply file_ext.
    - rewrite Hlen, length_app, (concat_length garbage garbage_page), Hh by done. unfold disk1. rewrite writeFile_length by lia.
      rewrite Hh. cbn [List.length] in *. destruct (decide (ps = [])) as [->|]; simpl in *; lia.
    - intros o. rewrite Hbyte, byte_app, Hh. case_bool_decide as Ho.
      + rewrite decide_False by (rewrite Nat.div_small by lia; lia). unfold disk1.
        rewrite writeFile_byte, bool_decide_true by lia. by rewrite Nat.sub_0_r.
      + rewrite byte_concat by done. rewrite decide_True.
        2:{ apply Nat.div_le_lower_bound; lia. }
        assert (o / PS = S ((o - PS) / PS) ∧ o mod PS = (o - PS) mod PS) as [Hq Hm].
        { replace o with ((o - PS) + 1 * PS) at 1 3 by lia. rewrite Nat.div_add, Nat.Div0.mod_add by lia. lia. }
        rewrite Hq, Hm. replace (S ((o - PS) / PS) - 1) with ((o - PS) / PS) by lia.
        destruct (ps !! ((o - PS) / PS)) eqn:Ep; [done|]. cbn [default from_option].
        unfold disk1. rewrite writeFile_byte, bool_decide_false by lia. rewrite byte_end; [done|].
        apply lookup_ge_None in Ep. pose proof (Nat.div_mod (o - PS) PS ltac:(lia)). cbn [List.length] in Hdisk. nia. }
  set (w := mkBFW _ _ _ _).
  assert (List.length (header ++ concat ps) = List.length (p0 :: ps) * PS) as Hfull.
  { rewrite length_app, (concat_length garbage garbage_page), Hh by done. cbn [List.length]. lia. }
  assert (bfw_ok w) as Hw.
  { constructor; [apply length_replicate|simpl; lia|exact (eq_sym Hfull)]. }
  destruct (writes_vector (H0 := BufferedFileWriter_laws) spr_serialize enc_record (shadowPageRecords sf))
    with (w := w) as (w' & E & Hw' & C).
  { intros r _. apply writes_bind; apply writes_value. }
  { done. }
  { unfold fits. cbn [wr_contents wr_cap BufferedFileWriter_laws]. unfold bfw_contents. cbn [bfw_file bfw_bufferOffset w].
    rewrite take_0, app_nil_r, Hfull. unfold enc_vector. rewrite length_app, length_bytes_of, (length_enc_each _ 8).
    2:{ intros r _. unfold enc_record. by rewrite length_app, !length_bytes_of. }
    unfold BUFFER_SIZE. nia. }
  rewrite E. cbn [mbind result_bind]. f_equal. destruct (bfw_flush_ok w' Hw') as (_ & _ & _ & Hf). rewrite Hf.
  cbn [wr_contents BufferedFileWriter_laws] in C. rewrite C. unfold bfw_contents. cbn [bfw_file bfw_bufferOffset w].
  by rewrite take_0, app_nil_r.
Qed.

(** ** Replaying *)

Lemma resetReadOffset_ok off r :
  bfr_ok r → off ≤ List.length (bfr_file r) →
  bfr_ok (resetReadOffset off r) ∧ bfr_remaining (resetReadOffset off r) = drop off (bfr_file r).
Proof.
  intros [Hs Ho Hf Hl Hc] Hoff. unfold bfr_remaining, getReadOffset, resetReadOffset.
  cbn [bfr_fileOffset bfr_bufferSize bfr_bufferOffset bfr_file]. split; [|f_equal; lia].
  constructor; cbn [bfr_fileOffset bfr_bufferSize bfr_bufferOffset bfr_file bfr_buffer bfr_fileSize]; try done; lia.
Qed.

Section Image.
Variable id : Z.
Variable p0 : list Z.
Variable ps : list (list Z).
Variable records : list ShadowPageRecord.
Hypothesis pages_full : Forall (λ p, List.length p = PS) ps.
Hypothesis pages_count : List.length ps = List.length records.
Hypothesis records_small : (Z.of_nat (List.length records) + 1 < 2 ^ 32)%Z.
Hypothesis records_words :
  Forall (λ r, (0 ≤ originalFileIdx r < 2 ^ 32)%Z ∧ (0 ≤ originalPageIdx r < 2 ^ 32)%Z) records.
Let image : list Z := shadow_image id (p0 :: ps) records.

Lemma image_split :
  image = shadow_header garbage id (List.length records) ++ concat ps ++ enc_vector enc_record records.
Proof. unfold image, shadow_image. cbn [drop]. by rewrite drop_0, (assoc_L (++)). Qed.

Lemma image_length : (1 + List.length records) * PS + 8 ≤ List.length image.
Proof.
  rewrite image_split, !length_app, shadow_header_length, (concat_length garbage garbage_page) by done.
  unfold enc_vector. rewrite length_app, length_bytes_of, pages_count. lia.
Qed.

Lemma image_records : drop ((1 + List.length records) * PS) image = enc_vector enc_record records.
Proof.
  rewrite image_split, (assoc_L (++)). apply drop_app_length'.
  rewrite length_app, shadow_header_length, (concat_length garbage garbage_page) by done. rewrite pages_count. lia.
Qed.

Lemma take_drop_byte f i n o : o < n → byte (take n (drop i f)) o = byte f (i + o).
Proof. intros Ho. unfold byte. rewrite lookup_take, decide_True, lookup_drop by done. done. Qed.

Lemma image_page k p : ps !! k = Some p → shadow_page image (S k) = p.
Proof.
  intros Ek. pose proof BUFFER_SIZE_pos. pose proof image_length as Hlen.
  pose proof (lookup_lt_Some _ _ _ Ek) as Hk. rewrite pages_count in Hk.
  assert (List.length p = PS) as Hp by (rewrite Forall_forall in pages_full; by eapply pages_full, list_elem_of_lookup_2).
  apply file_ext; [rewrite shadow_page_length; nia|]. intros o. destruct (decide (o < PS)) as [Ho|].
  - unfold shadow_page. rewrite take_drop_byte by done. rewrite image_split, byte_app, shadow_header_length.
    rewrite bool_decide_false by nia. rewrite byte_app, (concat_length garbage garbage_page) by done.
    rewrite bool_decide_true by nia. rewrite byte_concat by done.
    replace (S k * PS + o - PS) with (o + k * PS) by lia.
    rewrite Nat.div_add, Nat.Div0.mod_add, Nat.div_small, Nat.mod_small by lia. simpl. by rewrite Ek.
  - rewrite !byte_end; [done|lia|]. rewrite shadow_page_length; nia.
Qed.

Lemma spr_reads {R} `{ReaderLaws R} (r : ShadowPageRecord) :
  r ∈ records → reads spr_deserialize (enc_record r) r.
Proof.
  intros Hr. rewrite Forall_forall in records_words. destruct (records_words r Hr). destruct r as [f p].
  unfold spr_deserialize, enc_record. cbn [originalFileIdx originalPageIdx] in *.
  eapply reads_bind; [apply reads_value; simpl; lia|]. apply (reads_fmap _ (mkSPR f)). apply reads_value. simpl. lia.
Qed.

Lemma replay_ok path h data :
  databaseID h = id → (0 ≤ id < 2 ^ 128)%Z →
  replayShadowPageRecords false path (Ok (Some h)) image data = (overwrite image 1 records data, Ok ()).
Proof.
  intros Hid Hrange. unfold replayShadowPageRecords. pose proof image_length as Hlen. pose proof BUFFER_SIZE_pos.
  unfold readInto at 1. rewrite decide_True by lia. unfold pageBuffer at 1 2. rewrite length_replicate, drop_0.
  cbv zeta. rewrite (drop_ge (pageBuffer)) by (unfold pageBuffer; rewrite length_replicate, length_take; lia).
  rewrite app_nil_r. cbn [mbind result_bind]. set (header := take PS image).
  assert (header = shadow_header garbage id (List.length records)) as Hheader.
  { unfold header. rewrite image_split. apply take_app_length'. by rewrite shadow_header_length. }
  assert (∃ tail, header = bytes_of 16 id ++ bytes_of 4 (Z.of_nat (List.length records)) ++ tail) as (tail & Et).
  { rewrite Hheader. unfold shadow_header. rewrite <-!(assoc_L (++)). by eexists. }
  assert (value_of (take 16 header) = id) as ->.
  { rewrite Et, take_app_length' by (by rewrite length_bytes_of). by apply value_of_bytes_of. }
  assert (value_of (take 4 (drop 16 header)) = Z.of_nat (List.length records)) as ->.
  { rewrite Et, drop_app_length', take_app_length' by (by rewrite length_bytes_of). apply value_of_bytes_of. simpl. lia. }
  rewrite Hid. unfold verifyDatabaseID. rewrite bool_decide_true by done. cbn [mbind result_bind].
  destruct (newBufferedFileReader_ok image) as (r & Er & Hr & _).
  { intros E. rewrite E in Hlen. simpl in Hlen. lia. }
  assert (bfr_file r = image) as Hf.
  { apply (f_equal fst) in Er. cbn [fst] in Er. rewrite <-Er. apply readNextPage_file. }
  rewrite Er. cbn [mbind result_bind]. rewrite wrap_id by (unfold in_u; lia).
  replace (Z.to_nat (Z.of_nat (List.length records) + 1)) with (1 + List.length records) by lia.
  destruct (resetReadOffset_ok ((1 + List.length records) * PS) r Hr) as [Hr' Hrem]; [rewrite Hf; lia|].
  rewrite Hf, image_records, <-(app_nil_r (enc_vector _ _)) in Hrem.
  destruct (reads_vector (H0 := BufferedFileReader_laws) spr_deserialize enc_record records ltac:(lia)
    (λ x Hx, spr_reads x Hx) _ _ Hr' Hrem) as (r2 & E2 & _). rewrite E2. cbn [snd].
  apply copy_pages_ok; [apply length_replicate|lia].
Qed.
End Image.
End Flushed.
End Copy.
