(* ===== verification/ShadowPending.v ===== *)
(** * The shadow file as a map of pending pages

    Each page of the data file that a checkpoint changes has one page in the shadow file.
    [pending] is the map from the pages changed to their new contents: [updatePage]
    inserts in it, and the shadow file flushed and copied back, from memory or by recovery,
    gives the data file with exactly these pages replaced. *)

From Stdlib Require Import Ascii String.
From S2P Require Import Prelude.
From S2P Require Import FileHandle.
From S2P Require Import PageManager.
From S2P Require Import Serializer.
From S2P Require Import SerializerFacts.
From S2P Require Import Serial.
From S2P Require Import ShadowFile.
From S2P Require Import ShadowFileFacts.
#[local] Open Scope nat_scope.
#[local] Open Scope list_scope.

Section Pending.
Context `{PageConfig}.
Variable garbage : list Z.
Variable fileIdx : Z.
#[local] Abbreviation PS := BUFFER_SIZE.

Definition shadow_pages (sf : ShadowFile) : list (list Z) := default [garbage] (shadowingFH sf).

(** The page kept for a page of the data file. *)
Definition pending (sf : ShadowFile) (page : Z) : option (list Z) :=
  i ← find_shadow sf fileIdx page; shadow_pages sf !! Z.to_nat i.

(** The map and the records agree. *)
Record shadow_inv (sf : ShadowFile) : Prop := {
  si_ok : sf_ok sf;
  si_map page i : find_shadow sf fileIdx page = Some i ↔
    ∃ k, i = Z.of_nat (S k) ∧ shadowPageRecords sf !! k = Some (mkSPR fileIdx page);
  si_file : Forall (λ r, originalFileIdx r = fileIdx) (shadowPageRecords sf);
}.

Hypothesis garbage_page : List.length garbage = PS.
Hypothesis fileIdx_word : (0 ≤ fileIdx < 2 ^ 32)%Z.

Lemma newShadowFile_inv : shadow_inv newShadowFile.
Proof.
  constructor; [split; [done|constructor]| |constructor]. intros page i. unfold find_shadow. simpl.
  rewrite lookup_empty. simpl. split; [done|]. intros (k & _ & Hk). by rewrite lookup_nil in Hk.
Qed.

Lemma shadow_clear_inv sf : shadow_inv (clear garbage sf).
Proof.
  constructor; [split; [|constructor]| |constructor].
  - cbn. split; [done|]. by repeat constructor.
  - intros page i. unfold find_shadow. simpl. rewrite lookup_empty. simpl. split; [done|].
    intros (k & _ & Hk). by rewrite lookup_nil in Hk.
Qed.

Lemma shadow_pages_ok sf :
  shadow_inv sf → List.length (shadow_pages sf) = S (List.length (shadowPageRecords sf)) ∧
    Forall (λ p, List.length p = PS) (shadow_pages sf).
Proof.
  intros [[Hsf _] _ _]. unfold shadow_pages. destruct (shadowingFH sf) as [pages|]; [done|].
  rewrite Hsf. cbn. split; [done|]. by repeat constructor.
Qed.

Lemma pending_some sf page i :
  shadow_inv sf → find_shadow sf fileIdx page = Some i →
  ∃ frame, pending sf page = Some frame ∧ shadow_pages sf !! Z.to_nat i = Some frame ∧ List.length frame = PS ∧
    Z.to_nat i < List.length (shadow_pages sf) ∧ (0 < i)%Z ∧ shadowingFH sf = Some (shadow_pages sf).
Proof.
  intros Hinv Hi. destruct (shadow_pages_ok sf Hinv) as [Hlen Hfull].
  pose proof Hi as (k & -> & Hk)%(si_map _ Hinv). pose proof (lookup_lt_Some _ _ _ Hk) as Hlt.
  destruct (lookup_lt_is_Some_2 (shadow_pages sf) (Z.to_nat (Z.of_nat (S k)))) as [frame Hf]; [lia|].
  exists frame. unfold pending. rewrite Hi. split_and!; [done|done| |lia|lia|].
  - rewrite Forall_forall in Hfull. by eapply Hfull, list_elem_of_lookup_2.
  - unfold shadow_pages. destruct (shadowingFH sf) eqn:E; [done|]. destruct Hinv as [[Hno _] _ _]. rewrite E in Hno.
    rewrite Hno, lookup_nil in Hk. done.
Qed.

Lemma frame_pos sf page1 page2 i1 i2 :
  shadow_inv sf → find_shadow sf fileIdx page1 = Some i1 → find_shadow sf fileIdx page2 = Some i2 →
  Z.to_nat i1 = Z.to_nat i2 → page1 = page2.
Proof.
  intros Hinv (k1 & -> & H1)%(si_map _ Hinv) (k2 & -> & H2)%(si_map _ Hinv) E.
  assert (k1 = k2) as -> by lia. congruence.
Qed.

(** Storing into the page kept for [page]. *)
Lemma set_frame_ok sf page i frame :
  shadow_inv sf → find_shadow sf fileIdx page = Some i → List.length frame = PS →
  ∃ sf', set_shadow_frame i frame sf = (sf', Ok ()) ∧ shadow_inv sf' ∧
    pending sf' page = Some frame ∧ (∀ q, q ≠ page → pending sf' q = pending sf q) ∧
    (∀ q, find_shadow sf' fileIdx q = find_shadow sf fileIdx q) ∧ shadowPageRecords sf' = shadowPageRecords sf.
Proof.
  intros Hinv Hi Hlen. destruct (pending_some sf page i Hinv Hi) as (old & Hp & Hold & _ & Hlt & Hpos & Hfh).
  unfold set_shadow_frame. st_run. rewrite Hfh. cbn [deref]. rewrite decide_True by done. st_run.
  set (sf' := mkSF _ _ _). exists sf'. assert (shadow_pages sf' = <[Z.to_nat i:=frame]> (shadow_pages sf)) as Hpages by done.
  split; [done|]. split; [|split; [|split]].
  - destruct Hinv as [[Hs Hr] Hm Hf]. constructor; [|exact Hm|exact Hf]. split; [|exact Hr]. cbn [shadowingFH sf'].
    rewrite Hfh in Hs. destruct Hs as [Hs Hall]. split; [rewrite length_insert; exact Hs|].
    by apply Forall_insert.
  - unfold pending. change (find_shadow sf' fileIdx page) with (find_shadow sf fileIdx page). rewrite Hi, Hpages. simpl.
    by apply list_lookup_insert_eq.
  - intros q Hq. unfold pending. change (find_shadow sf' fileIdx q) with (find_shadow sf fileIdx q).
    destruct (find_shadow sf fileIdx q) as [j|] eqn:Ej; [|done]. simpl. rewrite Hpages.
    apply list_lookup_insert_ne. intros E. apply Hq. by eapply frame_pos.
  - done.
Qed.

(** The page for [page], new ones with what the frame held. *)
Lemma getOrCreate_ok sf page :
  shadow_inv sf → (0 ≤ page < 2 ^ 32)%Z →
  ∃ sf' i, getOrCreateShadowPage garbage fileIdx page sf = (sf', Ok i) ∧ shadow_inv sf' ∧
    find_shadow sf' fileIdx page = Some i ∧
    pending sf' page = Some (default garbage (pending sf page)) ∧ (∀ q, q ≠ page → pending sf' q = pending sf q).
Proof.
  intros Hinv Hpage. unfold getOrCreateShadowPage. st_run.
  destruct (find_shadow sf fileIdx page) as [i|] eqn:Ei.
  { exists sf, i. destruct (pending_some sf page i Hinv Ei) as (frame & Hp & _). rewrite Hp. done. }
  rewrite st_bind_run. unfold getOrCreateShadowingFH.
  assert (∃ m, (match shadowingFH sf with
    | Some pages => (sf, Ok pages)
    | None => (mkSF (shadowPagesMap sf) (shadowPageRecords sf) (Some [garbage]), Ok [garbage]) end)
    = (mkSF (shadowPagesMap sf) (shadowPageRecords sf) m, Ok (shadow_pages sf))) as [m ->].
  { unfold shadow_pages. destruct sf as [? ? [pages|]]; [by exists (Some pages)|by exists (Some [garbage])]. }
  st_run. cbn [shadowPagesMap shadowPageRecords]. destruct (shadow_pages_ok sf Hinv) as [Hlen Hfull].
  set (idx := Z.of_nat (List.length (shadow_pages sf))). set (sf' := mkSF _ _ _).
  assert (∀ q, find_shadow sf' fileIdx q = if decide (q = page) then Some idx else find_shadow sf fileIdx q) as Hfind.
  { intros q. unfold find_shadow. cbn [shadowPagesMap sf']. rewrite lookup_insert_eq. simpl. destruct (decide (q = page)) as [->|Hq].
    - by rewrite lookup_insert_eq.
    - rewrite lookup_insert_ne by done. destruct (shadowPagesMap sf !! fileIdx); [done|]. by simpl; rewrite lookup_empty. }
  assert (shadow_inv sf') as Hinv'.
  { destruct Hinv as [[Hs Hr] Hm Hf]. constructor; [split| |].
    - cbn [shadowingFH shadowPageRecords sf']. rewrite !length_app, Hlen. simpl. split; [lia|].
      apply Forall_app. split; [done|]. by constructor.
    - apply Forall_app. split; [done|]. constructor; [|constructor]. done.
    - intros q i. rewrite Hfind. cbn [shadowPageRecords sf']. destruct (decide (q = page)) as [->|Hq].
      + split.
        * intros [= <-]. exists (List.length (shadowPageRecords sf)). unfold idx. rewrite Hlen. split; [done|].
          by apply list_lookup_middle.
        * intros (k & -> & Hk). apply lookup_app_Some in Hk as [Hk|[Hk1 Hk2]].
          { exfalso. assert (find_shadow sf fileIdx page = Some (Z.of_nat (S k))) by (apply Hm; eauto). congruence. }
          apply lookup_lt_Some in Hk2 as Hlt. simpl in Hlt. unfold idx. rewrite Hlen. do 2 f_equal. lia.
      + rewrite Hm. split; intros (k & -> & Hk); exists k; (split; [done|]).
        * by apply lookup_app_l_Some.
        * apply lookup_app_Some in Hk as [Hk|[Hk1 Hk2]]; [done|]. apply list_lookup_singleton_Some in Hk2 as [_ Hk2].
          congruence.
    - apply Forall_app. split; [done|]. by constructor. }
  exists sf', idx. split; [done|]. split; [done|]. split; [by rewrite Hfind, decide_True|].
  assert (shadow_pages sf' = shadow_pages sf ++ [garbage]) as Hpages by done.
  split.
  - unfold pending. rewrite Hfind, decide_True, Ei by done. simpl. unfold idx. rewrite Nat2Z.id, Hpages.
    by apply list_lookup_middle.
  - intros q Hq. unfold pending. rewrite Hfind, decide_False by done. destruct (find_shadow sf fileIdx q) as [j|] eqn:Ej; [|done].
    simpl. destruct (pending_some sf q j Hinv Ej) as (fr & _ & Hfr & _ & Hlt & _). rewrite Hpages, lookup_app_l by done. done.
Qed.

(** What an update starts from: the pending page, or the page in the file, or whatever
    the frame holds when the file is not to be read. *)
Definition page_base (sf : ShadowFile) (page : Z) (skipReadingOriginalPage : bool) (original : list Z) : list Z :=
  match pending sf page with
  | Some frame => frame
  | None => if skipReadingOriginalPage then garbage else original
  end.

Lemma hasShadowPage_pending sf page :
  shadow_inv sf → hasShadowPage sf fileIdx page = bool_decide (is_Some (pending sf page)).
Proof.
  intros Hinv. unfold hasShadowPage. apply bool_decide_ext. destruct (find_shadow sf fileIdx page) as [i|] eqn:Ei.
  - destruct (pending_some sf page i Hinv Ei) as (frame & -> & _). split; eauto.
  - unfold pending. rewrite Ei. simpl. by rewrite !is_Some_alt.
Qed.

(** [updatePage] is an insertion in the map. *)
Lemma updatePage_ok sf page skip original updateOp :
  shadow_inv sf → (0 ≤ page < 2 ^ 32)%Z → List.length original = PS ∨ skip = true →
  List.length (updateOp (page_base sf page skip original)) = PS →
  ∃ sf', updatePage garbage fileIdx page skip original updateOp sf = (sf', Ok ()) ∧ shadow_inv sf' ∧
    pending sf' page = Some (updateOp (page_base sf page skip original)) ∧
    (∀ q, q ≠ page → pending sf' q = pending sf q).
Proof.
  intros Hinv Hpage Horig Hlen. unfold updatePage. rewrite st_bind_run.
  unfold createShadowVersionIfNecessaryAndPinPage. rewrite st_bind_run. cbn [st_get].
  rewrite st_bind_run, hasShadowPage_pending by done.
  destruct (getOrCreate_ok sf page Hinv Hpage) as (sf1 & i & -> & Hinv1 & Hi1 & Hp1 & Hq1).
  assert (∃ sf2, (_ ← (if bool_decide (is_Some (pending sf page)) || skip then mret () else set_shadow_frame i original);
                  mret i) sf1 = (sf2, Ok i) ∧ shadow_inv sf2 ∧ find_shadow sf2 fileIdx page = Some i ∧
                 pending sf2 page = Some (page_base sf page skip original) ∧
                 (∀ q, q ≠ page → pending sf2 q = pending sf q)) as (sf2 & E2 & Hinv2 & Hi2 & Hp2 & Hq2).
  { unfold page_base. destruct (pending sf page) as [frame|] eqn:Ep.
    - exists sf1. rewrite bool_decide_true by done. done.
    - rewrite bool_decide_false by (by intros []). destruct skip; [by exists sf1|].
      destruct Horig as [Horig|]; [|done]. cbn [orb]. rewrite st_bind_run.
      destruct (set_frame_ok sf1 page i original Hinv1 Hi1 Horig) as (sf2 & -> & Hinv2 & Hp2 & Hq2 & Hf2 & _).
      exists sf2. split_and!; [done|done|by rewrite Hf2|done|]. intros q Hq. rewrite Hq2, Hq1; done. }
  rewrite E2. rewrite st_bind_run. unfold shadow_frame. rewrite st_bind_run. cbn [st_get].
  destruct (pending_some sf2 page i Hinv2 Hi2) as (frame & Hp2' & Hfr & _ & _ & _ & Hfh).
  rewrite st_bind_run, Hfh. cbn [deref st_lift]. rewrite Hfr. cbn [deref].
  rewrite Hp2 in Hp2'. injection Hp2' as <-.
  destruct (set_frame_ok sf2 page i (updateOp (page_base sf page skip original)) Hinv2 Hi2 Hlen)
    as (sf3 & E3 & Hinv3 & Hp3 & Hq3 & _). exists sf3. split; [exact E3|]. split_and!; [done|done|].
  intros q Hq. rewrite Hq3, Hq2; done.
Qed.

(** ** What is installed *)

Lemma last_record_none p i records : last_record p i records = None ↔ Forall (λ r, page_of r ≠ p) records.
Proof.
  revert i. induction records as [|r records IH]; intros i; [done|]. cbn [last_record]. rewrite Forall_cons.
  destruct (last_record p (S i) records) eqn:E.
  - split; [done|]. intros [_ Hall]. apply (IH (S i)) in Hall. congruence.
  - apply IH in E. case_bool_decide; naive_solver.
Qed.

Lemma last_record_some p i records k :
  last_record p i records = Some k → ∃ r, i ≤ k ∧ records !! (k - i) = Some r ∧ page_of r = p.
Proof.
  revert i k. induction records as [|r records IH]; intros i k; cbn [last_record]; [done|].
  destruct (last_record p (S i) records) as [k'|] eqn:E.
  - intros [= ->]. destruct (IH (S i) k E) as (r' & Hle & Hk & Hp). exists r'. split; [lia|]. split; [|done].
    by replace (k - i) with (S (k - S i)) by lia.
  - case_bool_decide; [|done]. intros [= <-]. exists r. by rewrite Nat.sub_diag.
Qed.

Lemma pending_page sf o :
  shadow_inv sf →
  match last_record (o / PS) 1 (shadowPageRecords sf) with
  | Some k => ∃ j frame, k = S j ∧ drop 1 (shadow_pages sf) !! j = Some frame ∧ pending sf (Z.of_nat (o / PS)) = Some frame
  | None => pending sf (Z.of_nat (o / PS)) = None
  end.
Proof.
  intros Hinv. destruct (last_record _ _ _) as [k|] eqn:E.
  - apply last_record_some in E as (r & Hle & Hk & Hp). exists (k - 1).
    assert (r = mkSPR fileIdx (Z.of_nat (o / PS))) as ->.
    { destruct Hinv as [[_ Hr] _ Hf]. rewrite Forall_forall in Hf, Hr. specialize (Hf r ltac:(by eapply list_elem_of_lookup_2)).
      specialize (Hr r ltac:(by eapply list_elem_of_lookup_2)). destruct r as [f p]. unfold page_of in Hp. simpl in *. f_equal; lia. }
    assert (find_shadow sf fileIdx (Z.of_nat (o / PS)) = Some (Z.of_nat (S (k - 1)))) as Hf by (apply (si_map _ Hinv); eauto).
    destruct (pending_some sf _ _ Hinv Hf) as (frame & Hpend & Hfr & _). rewrite Nat2Z.id in Hfr.
    exists frame. split; [lia|]. by rewrite lookup_drop.
  - apply last_record_none in E. unfold pending. destruct (find_shadow sf fileIdx _) as [i|] eqn:Ef; [|done].
    apply (si_map _ Hinv) in Ef as (k & _ & Hk). exfalso. rewrite Forall_forall in E.
    apply (E (mkSPR fileIdx (Z.of_nat (o / PS)))); [by eapply list_elem_of_lookup_2|]. unfold page_of. simpl. lia.
Qed.
Hypothesis page_size : (32 ≤ LBUG_PAGE_SIZE < 2 ^ 29)%Z.

Section Install.
Variable id : Z.
Variable sf : ShadowFile.
Hypothesis inv : shadow_inv sf.
Hypothesis open : is_Some (shadowingFH sf).
Hypothesis small : (Z.of_nat (List.length (shadowPageRecords sf)) + 1 < 2 ^ 32)%Z.
Let image : list Z := shadow_image garbage id (shadow_pages sf) (shadowPageRecords sf).

Lemma pages_cons : ∃ p0 ps, shadow_pages sf = p0 :: ps ∧ Forall (λ p, List.length p = PS) ps ∧
  List.length ps = List.length (shadowPageRecords sf).
Proof.
  destruct (shadow_pages_ok sf inv) as [Hlen Hfull]. destruct (shadow_pages sf) as [|p0 ps]; [done|].
  apply Forall_cons in Hfull as [_ Hfull]. exists p0, ps. split_and!; [done..|]. simpl in Hlen. lia.
Qed.

Lemma image_big : (1 + List.length (shadowPageRecords sf)) * PS ≤ List.length image.
Proof.
  destruct pages_cons as (p0 & ps & E & Hfull & Hcount). unfold image. rewrite E.
  pose proof (image_length garbage garbage_page ltac:(lia) id p0 ps (shadowPageRecords sf) Hfull Hcount). lia.
Qed.

Lemma install_byte data o :
  byte (overwrite image 1 (shadowPageRecords sf) data) o =
  match pending sf (Z.of_nat (o / PS)) with
  | Some frame => byte frame (o mod PS)
  | None => byte data o
  end.
Proof.
  rewrite overwrite_byte by (pose proof image_big; lia). pose proof (pending_page sf o inv) as Hp.
  destruct (last_record _ _ _) as [k|]; [|by rewrite Hp]. destruct Hp as (j & frame & -> & Hj & ->).
  destruct pages_cons as (p0 & ps & E & Hfull & Hcount). rewrite E in Hj. cbn [drop] in Hj. rewrite drop_0 in Hj.
  unfold image. rewrite E.
  by rewrite (image_page garbage garbage_page ltac:(lia) id p0 ps (shadowPageRecords sf) Hfull Hcount small j frame Hj).
Qed.

Lemma flushAll_image old :
  List.length old ≤ List.length (shadow_pages sf) * PS → flushAll garbage id sf old = Ok image.
Proof.
  intros Hold. destruct inv as [Hsf _ _]. destruct open as [pages Ep].
  assert (shadow_pages sf = pages) as Epages by (unfold shadow_pages; by rewrite Ep). unfold image. rewrite Epages in *.
  destruct (shadow_pages_ok sf inv) as [Hlen _]. rewrite Epages in Hlen.
  apply flushAll_ok; try done; lia.
Qed.

Lemma apply_image data : applyShadowPages sf image data = (overwrite image 1 (shadowPageRecords sf) data, Ok ()).
Proof.
  unfold applyShadowPages. apply copy_pages_ok; [apply length_replicate|]. pose proof image_big. lia.
Qed.

Lemma replay_image path h data :
  databaseID h = id → in_u 128 id →
  replayShadowPageRecords false path (Ok (Some h)) image data = (overwrite image 1 (shadowPageRecords sf) data, Ok ()).
Proof.
  intros Hid Hrange. destruct pages_cons as (p0 & ps & E & Hfull & Hcount). destruct inv as [[_ Hr] _ _]. unfold image. rewrite E.
  by apply replay_ok; try done; lia.
Qed.
End Install.
End Pending.
