(* ===== verification/WalReplayer.v ===== *)
(** * Recovery (storage/wal/wal_replayer.{h,cpp}, the recovery half of
    storage/checkpointer.cpp, the data file of storage/storage_manager.cpp)

    Opening a database: the frozen log of a checkpoint that was under way is finished or
    replayed, then the active log is.  The files are those of the database's directory.
    What loading the catalog and the tables from the data file and replaying a record
    make of the database in memory is the interface [Database]. *)

From Stdlib Require Import Ascii String.
From S2P Require Import Prelude.
From S2P Require Import FileHandle.
From S2P Require Import FreeSpace.
From S2P Require Import PageManager.
From S2P Require Import Serializer.
From S2P Require Import SerializerFacts.
From S2P Require Import Serial.
From S2P Require Import FreeSpaceSerial.
From S2P Require Import Checksum.
From S2P Require Import WalRecord.
From S2P Require Import ShadowFile.
#[local] Open Scope nat_scope.
#[local] Open Scope list_scope.

(** The data file, the shadow file, the active log and the frozen log, where they exist. *)
Record Disk : Type := mkDisk {
  data_file : option (list Z);
  shadow_file : option (list Z);
  wal_file : option (list Z);
  frozen_wal : option (list Z);
}.

Definition set_data (f : option (list Z)) (d : Disk) : Disk := mkDisk f (shadow_file d) (wal_file d) (frozen_wal d).
Definition set_shadow (f : option (list Z)) (d : Disk) : Disk := mkDisk (data_file d) f (wal_file d) (frozen_wal d).
Definition set_wal (f : option (list Z)) (d : Disk) : Disk := mkDisk (data_file d) (shadow_file d) f (frozen_wal d).
Definition set_frozen (f : option (list Z)) (d : Disk) : Disk := mkDisk (data_file d) (shadow_file d) (wal_file d) f.

(** The database in memory: the catalog and metadata ranges of the data file loaded, the
    linked extensions loaded, a record replayed, the active transaction rolled back. *)
Class Database (V C P D : Type) : Type := {
  db_load : DatabaseHeader → list Z → stM D ();
  db_autoLoadLinkedExtensions : stM D ();
  db_replay : WALRecord V C P → stM D ();
  db_rollback : D → D;
}.

Section Replay.
Context `{PageConfig} `{DeserDebug}.
Context {V C P D : Type} `{Payload V, Payload C, Payload P} `{Database V C P D}.
Variable garbage : list Z.
Variable allocateBuffer : nat → list Z.
Variable storageVersion : Z.
(** [generateRandomUUID] *)
Variable randomUUID : Z.
Variables walPath checkpointWalPath shadowFilePath : string.
Variable readOnly : bool.
Variable throwOnWalReplayFailure : bool.
Variable enableChecksums : bool.

#[local] Hint Extern 0 (Reader Source) => exact (Source_reader allocateBuffer) : typeclass_instances.
#[local] Hint Extern 0 (Writer InMemFileWriter) => exact (InMemFileWriter_writer garbage) : typeclass_instances.

Record Recovery : Type := mkRec {
  disk : Disk;
  databaseHeader : option DatabaseHeader;
  database : D;
}.

Definition on_disk (f : Disk → Disk) : stM Recovery () :=
  st_modify (λ s, mkRec (f (disk s)) (databaseHeader s) (database s)).
Definition on_database {A} (f : stM D A) : stM Recovery A :=
  λ s, let '(d, r) := f (database s) in (mkRec (disk s) (databaseHeader s) d, r).
Definition setDatabaseHeader (h : DatabaseHeader) : stM Recovery () :=
  st_modify (λ s, mkRec (disk s) (Some h) (database s)).

Definition createInitialHeader : DatabaseHeader :=
  mkHeader (mkRange INVALID_PAGE_IDX 0) (mkRange INVALID_PAGE_IDX 0) 0 randomUUID.

Definition getOrInitDatabaseHeader : stM Recovery DatabaseHeader :=
  s ← st_get;
  match databaseHeader s with
  | Some h => mret h
  | None => _ ← setDatabaseHeader createInitialHeader; mret createInitialHeader
  end.
Definition getOrInitDatabaseID : stM Recovery Z := h ← getOrInitDatabaseHeader; mret (databaseID h).

(** The file opened, created when it is missing; an empty one gets a first header. *)
Definition openDataFile : stM Recovery (list Z) :=
  s ← st_get;
  match data_file (disk s) with
  | Some file => mret file
  | None =>
      if readOnly then st_throw IOException "Cannot open file"
      else _ ← on_disk (set_data (Some [])); mret []
  end.

Definition initDataFileHandle : stM Recovery (list Z) :=
  file ← openDataFile;
  if bool_decide (file = []) && negb readOnly then
    initialHeader ← getOrInitDatabaseHeader;
    let '(headerWriter, r) := header_serialize storageVersion initialHeader (mkIMW [] 0) in
    _ ← st_lift r;
    page ← st_lift (deref (pages headerWriter !! 0));
    let file := writeFile file page 0 in
    _ ← on_disk (set_data (Some file));
    mret file
  else mret file.

(** The catalog and the metadata are read when the header has a catalog. *)
Definition readCheckpoint : stM Recovery () :=
  file ← initDataFileHandle;
  _ ← (if bool_decide (file = []) then mret ()
       else
         let '(reader, r) := newBufferedFileReader file in
         _ ← st_lift r;
         currentHeader ← st_lift (header_deserialize storageVersion reader).2;
         _ ← (if bool_decide (startPageIdx (catalogPageRange currentHeader) = INVALID_PAGE_IDX) then mret ()
              else on_database (db_load currentHeader file));
         setDatabaseHeader currentHeader);
  on_database db_autoLoadLinkedExtensions.

(** ** Reading a log *)

Definition readWALHeader {R} `{Reader R} : stM R (Z * bool) :=
  databaseID ← deserializeValue 16;
  enableChecksumsBytes ← deserializeValue 1;
  mret (databaseID, negb (bool_decide (enableChecksumsBytes = 0%Z))).

Definition bool_toString (b : bool) : string := if b then "True" else "False".

Definition checkWALHeader (header : Z * bool) : result () :=
  if bool_decide (enableChecksums = header.2) then Ok ()
  else throw RuntimeException
    ("The database you are trying to open was serialized with enableChecksums=" +:+ bool_toString header.2 +:+
     " but you are trying to open it with enableChecksums=" +:+ bool_toString enableChecksums +:+
     ". Please open your database using the correct enableChecksums config. If you wish to change this " +:+
     "for your database, please use the export/import functionality.").

Definition source_offset (s : Source) : nat := getReadOffset (source_in s).

(** The loop of [dryReplay], from the position of [s]: what has been found so far is
    kept when a record cannot be read. *)
Fixpoint dry_loop (fuel : nat) (s : Source) (info : nat * bool) : (nat * bool) * result () :=
  match fuel with
  | 0 => (info, UB)
  | S fuel =>
      match wal_deserialize (R := Source) (ValueVector := V) (CatalogEntry := C) (PropertyDefinition := P) s with
      | (s, Ok walRecord) =>
          match walRecord with
          | CheckpointRecord => ((source_offset s, true), Ok ())
          | CommitRecord =>
              let info := (source_offset s, info.2) in
              if rd_finished s then (info, Ok ()) else dry_loop fuel s info
          | _ => if rd_finished s then (info, Ok ()) else dry_loop fuel s info
          end
      | (_, Throw e) => (info, Throw e)
      | (_, UB) => (info, UB)
      end
  end.

Definition skip_header : stM Source () :=
  _ ← onReadBegin; walHeader ← readWALHeader; _ ← st_lift (checkWALHeader walHeader); onReadEnd.

(** Each record takes at least a byte. *)
Definition dry_run (file : list Z) : (nat * bool) * result () :=
  let '(deserializer, r) := initDeserializer allocateBuffer enableChecksums file in
  match r with
  | Ok _ =>
      match skip_header deserializer with
      | (deserializer, Ok _) =>
          if rd_finished deserializer then ((0, false), Ok ())
          else dry_loop (S (List.length file)) deserializer (0, false)
      | (_, Throw e) => ((0, false), Throw e)
      | (_, UB) => ((0, false), UB)
      end
  | Throw e => ((0, false), Throw e)
  | UB => ((0, false), UB)
  end.

Definition dryReplay (file : list Z) : result (nat * bool) :=
  match dry_run file with
  | (info, Ok _) => Ok info
  | (info, Throw e) => if throwOnWalReplayFailure then Throw e else Ok info
  | (info, UB) => UB
  end.

(** ** Replaying it *)

Definition removeFileIfExists (f : option (list Z) → Disk → Disk) : stM Recovery () :=
  if readOnly then mret () else on_disk (f None).
Definition removeWALAndShadowFiles : stM Recovery () :=
  _ ← removeFileIfExists set_shadow; removeFileIfExists set_wal.

Definition replayWALRecord (walRecord : WALRecord V C P) : stM Recovery () :=
  match walRecord with
  | CheckpointRecord => unreachable
  | _ => on_database (db_replay walRecord)
  end.

Fixpoint replay_loop (fuel : nat) (s : Source) (offsetDeserialized : nat) : stM Recovery () :=
  if decide (source_offset s < offsetDeserialized) then
    match fuel with
    | 0 => st_lift UB
    | S fuel =>
        match wal_deserialize (R := Source) (ValueVector := V) (CatalogEntry := C) (PropertyDefinition := P) s with
        | (s, Ok walRecord) => _ ← replayWALRecord walRecord; replay_loop fuel s offsetDeserialized
        | (_, Throw e) => st_lift (Throw e)
        | (_, UB) => st_lift UB
        end
    end
  else mret ().

(** The database ID of the log against the one of the data file, then the records. *)
Definition replayRecords (path : string) (file : list Z) (offsetDeserialized : nat) : stM Recovery () :=
  let '(deserializer, r) := initDeserializer allocateBuffer enableChecksums file in
  _ ← st_lift r;
  deserializer ←
    (if bool_decide (0 < offsetDeserialized) then
       let '(deserializer, r) := (_ ← onReadBegin; readWALHeader) deserializer in
       walHeader ← st_lift r;
       expectedDatabaseID ← getOrInitDatabaseID;
       _ ← st_lift (verifyDatabaseID path expectedDatabaseID walHeader.1);
       let '(deserializer, r) := onReadEnd deserializer in
       _ ← st_lift r;
       mret deserializer
     else mret deserializer);
  replay_loop (S (List.length file)) deserializer offsetDeserialized.

(** The [try] block: an exception rolls back the active transaction and passes on. *)
Definition rolling_back (f : stM Recovery ()) : stM Recovery () := λ s,
  match f s with
  | (s, Throw e) => (mkRec (disk s) (databaseHeader s) (db_rollback (database s)), Throw e)
  | x => x
  end.

(** The files opened by [replayShadowPageRecords] must exist. *)
Definition replayShadow : stM Recovery () :=
  s ← st_get;
  if readOnly then st_lift (replayShadowPageRecords true shadowFilePath (Ok None) [] []).2
  else
    match shadow_file (disk s), data_file (disk s) with
    | None, _ => st_throw IOException "Cannot open file"
    | Some _, None =>
        st_throw RuntimeException
          ("Found shadow file " +:+ shadowFilePath +:+ " but no corresponding database file. This file " +:+
           "may have been left behind from a previous database with the same name. If it is safe " +:+
           "to do so, please delete this file and restart the database.")
    | Some shadow, Some data =>
        let '(data, r) := replayShadowPageRecords false shadowFilePath (readDatabaseHeader storageVersion data) shadow data in
        _ ← on_disk (set_data (Some data));
        st_lift r
    end.

Definition replayFrozenWAL (file : list Z) : stM Recovery () :=
  if decide (file = []) then
    _ ← removeFileIfExists set_frozen; _ ← removeFileIfExists set_shadow; readCheckpoint
  else
    rolling_back (
      info ← st_lift (dryReplay file);
      if (info : nat * bool).2 then
        _ ← replayShadow;
        _ ← removeFileIfExists set_frozen;
        _ ← removeFileIfExists set_shadow;
        readCheckpoint
      else
        _ ← removeFileIfExists set_shadow;
        _ ← readCheckpoint;
        _ ← replayRecords checkpointWalPath file info.1;
        removeFileIfExists set_frozen).

Definition truncateWALFile (file : list Z) (size : nat) : stM Recovery () :=
  if readOnly then mret ()
  else if bool_decide (size < List.length file) then on_disk (set_wal (Some (take size file))) else mret ().

Definition replayActiveWAL (file : list Z) : stM Recovery () :=
  if decide (file = []) then removeFileIfExists set_wal
  else
    rolling_back (
      info ← st_lift (dryReplay file);
      if (info : nat * bool).2 then
        _ ← replayShadow;
        _ ← removeWALAndShadowFiles;
        readCheckpoint
      else
        _ ← replayRecords walPath file info.1;
        truncateWALFile file info.1).

Definition replay : stM Recovery () :=
  s ← st_get;
  match frozen_wal (disk s), wal_file (disk s) with
  | None, None => _ ← removeFileIfExists set_shadow; readCheckpoint
  | frozen, active =>
      _ ← (match frozen with
           | Some file => replayFrozenWAL file
           | None => _ ← removeFileIfExists set_shadow; readCheckpoint
           end);
      match active with
      | Some file => replayActiveWAL file
      | None => mret ()
      end
  end.
End Replay.
