(* ===== verification/WalReplayerFacts.v ===== *)
(** * What recovery reads from the logs

    A log file is its header frame, the frames of records and perhaps a torn tail.
    [dryReplay] finds the end of the last commit, and the replay runs the records up to
    it. *)

From Stdlib Require Import Ascii String.
From S2P Require Import Prelude.
From S2P Require Import FileHandle.
From S2P Require Import FreeSpace.
From S2P Require Import PageManager.
From S2P Require Import Serializer.
From S2P Require Import SerializerFacts.
From S2P Require Import Serial.
From S2P Require Import FreeSpaceSerial.
From S2P Require Import Checksum.
From S2P Require Import WalRecord.
From S2P Require Import Wal.
From S2P Require Import ShadowFile.
From S2P Require Import WalReplayer.

#[local] Open Scope nat_scope.
#[local] Open Scope list_scope.

(** ** Committed records *)

Section Committed.
Context {V C P : Type}.

Definition is_checkpoint (r : WALRecord V C P) : bool := match r with CheckpointRecord => true | _ => false end.
Definition is_commit (r : WALRecord V C P) : bool := match r with CommitRecord => true | _ => false end.

(** The records up to the last commit. *)
Fixpoint committed (l : list (WALRecord V C P)) : list (WALRecord V C P) :=
  match l with
  | [] => []
  | r :: l =>
      match committed l with
      | [] => if is_commit r then [r] else []
      | l => r :: l
      end
  end.

Definition no_checkpoint (l : list (WALRecord V C P)) : Prop := Forall (λ r, is_checkpoint r = false) l.

Lemma committed_prefix l : ∃ tl, l = committed l ++ tl.
Proof.
  induction l as [|r l [tl IH]]; [by exists []|]. simpl. destruct (committed l) eqn:E.
  - destruct (is_commit r); [by exists l|by exists (r :: l)].
  - exists tl. simpl in *. by rewrite IH at 1.
Qed.

(** Whole transactions are committed. *)
Lemma committed_app_commit l : committed (l ++ [CommitRecord]) = l ++ [CommitRecord].
Proof. induction l as [|r l IH]; [done|]. cbn [app committed]. rewrite IH. by destruct l. Qed.

Lemma committed_app l1 l2 :
  committed (l1 ++ l2) = match committed l2 with [] => committed l1 | l => l1 ++ l end.
Proof.
  induction l1 as [|r l1 IH]; [simpl; by destruct (committed l2)|]. cbn [app committed]. rewrite IH.
  destruct (committed l2) as [|r2 l2']; [done|]. by destruct l1.
Qed.
End Committed.

Section Facts.
Context `{PageConfig} `{DeserDebug}.
Context {V C P : Type} `{PayloadLaws V, PayloadLaws C, PayloadLaws P}.
Variable allocateBuffer : nat → list Z.
Variable enableChecksums : bool.
Hypothesis allocateBuffer_size : ∀ n, List.length (allocateBuffer n) = n.
Hypothesis page_size : (64 ≤ LBUG_PAGE_SIZE < 2 ^ 32)%Z.

#[local] Hint Extern 0 (Reader Source) => exact (Source_reader allocateBuffer) : typeclass_instances.
#[local] Abbreviation frame_of := (frame enableChecksums).
#[local] Abbreviation loggable := (loggable (V := V) (C := C) (P := P) enableChecksums).
#[local] Abbreviation frames := (frames (V := V) (C := C) (P := P) enableChecksums).
#[local] Abbreviation dry_loop := (dry_loop (V := V) (C := C) (P := P) allocateBuffer).

(** A reader of [file] with [rest] to read. *)
Definition reading (file : list Z) (s : Source) (rest : list Z) : Prop :=
  source_ok file s ∧ source_kind s = enableChecksums ∧ source_remaining s = rest.

Lemma reading_offset file s rest : reading file s rest → source_offset s = List.length file - List.length rest.
Proof.
  intros ([[Hok <-] _] & _ & <-). unfold source_offset. by rewrite readOffset_remaining.
Qed.

Lemma reading_finished file s rest : reading file s rest → rd_finished s = bool_decide (rest = []).
Proof.
  intros ([[Hok Hf] _] & _ & <-). unfold source_remaining.
  pose proof (rd_finished_spec (ReaderLaws := BufferedFileReader_laws) (source_in s) Hok) as E.
  cbn [rd_remaining BufferedFileReader_laws rd_finished BufferedFileReader_reader] in E.
  destruct s as [r|r]; cbn [source_in] in *; rewrite <-E; done.
Qed.

Lemma initDeserializer_reading file :
  file ≠ [] → ∃ s, initDeserializer allocateBuffer enableChecksums file = (s, Ok ()) ∧ reading file s file.
Proof. intros Hne. destruct (initDeserializer_ok allocateBuffer allocateBuffer_size enableChecksums file Hne) as (s & ? & ? & ? & ?). by exists s. Qed.

Lemma read_record_ok file s r rest :
  reading file s (frame_of (wal_enc r) ++ rest) → loggable r →
  ∃ s', wal_deserialize (R := Source) s = (s', Ok r) ∧ reading file s' rest.
Proof.
  intros (Hok & Hk & Hrem) [Hr Hle].
  destruct (read_object_ok allocateBuffer allocateBuffer_size file s wal_read (wal_enc r) rest r)
    as (s' & E & Hok' & Hk' & Hrem').
  - intros L. by apply wal_read_reads.
  - done.
  - by rewrite Hk.
  - rewrite Hk. done.
  - exists s'. split; [exact E|]. split; [done|]. split; [congruence|done].
Qed.

(** ** The dry run *)

Lemma dry_step file s fuel info r rest :
  reading file s (frame_of (wal_enc r) ++ rest) → loggable r → is_checkpoint r = false →
  ∃ s', reading file s' rest ∧
    let info' := (if is_commit r then List.length file - List.length rest else info.1, info.2) in
    dry_loop (S fuel) s info = if bool_decide (rest = []) then (info', Ok ()) else dry_loop fuel s' info'.
Proof.
  intros Hs Hr Hc. destruct (read_record_ok file s r rest Hs Hr) as (s' & E & Hs').
  exists s'. split; [done|]. cbn zeta. cbn [WalReplayer.dry_loop].
  rewrite E.
  rewrite (reading_finished file s' rest Hs'), (reading_offset file s' rest Hs').
  destruct info as [n b]. by destruct r.
Qed.

Lemma dry_checkpoint file s fuel info rest :
  reading file s (frame_of (wal_enc (CheckpointRecord : WALRecord V C P)) ++ rest) → loggable CheckpointRecord →
  dry_loop (S fuel) s info = ((List.length file - List.length rest, true), Ok ()).
Proof.
  intros Hs Hr. destruct (read_record_ok file s CheckpointRecord rest Hs Hr) as (s' & E & Hs').
  cbn [WalReplayer.dry_loop]. by rewrite E, (reading_offset file s' rest Hs').
Qed.

(** The offset kept after the records [l] from the offset [off] on. *)
Definition seen (off n : nat) (l : list (WALRecord V C P)) : nat :=
  match committed l with [] => n | c => off + List.length (frames c) end.


Lemma seen_cons off n r l :
  seen off n (r :: l) =
  seen (off + List.length (frame_of (wal_enc r))) (if is_commit r then off + List.length (frame_of (wal_enc r)) else n) l.
Proof.
  unfold seen. cbn [committed]. destruct (committed l) as [|c cs] eqn:E.
  - destruct (is_commit r); [|done]. rewrite frames_cons, length_app. simpl. lia.
  - rewrite frames_cons, length_app. lia.
Qed.

Lemma dry_records file s fuel info l rest :
  Forall loggable l → no_checkpoint l → rest ≠ [] → reading file s (frames l ++ rest) →
  ∃ s', reading file s' rest ∧
    dry_loop (List.length l + fuel) s info =
    dry_loop fuel s' (seen (List.length file - List.length (frames l ++ rest)) info.1 l, info.2).
Proof.
  intros Hl Hc Hne. revert s info. induction l as [|r l IH]; intros s info Hs.
  { exists s. by destruct info. }
  apply Forall_cons in Hl as [Hr Hl]. apply Forall_cons in Hc as [Hcr Hc]. rewrite frames_cons, <-(assoc_L (++)) in *.
  destruct (dry_step file s (List.length l + fuel) info r (frames l ++ rest) Hs Hr Hcr) as (s1 & Hs1 & E).
  cbn zeta in E. rewrite bool_decide_false in E by (by destruct (frames l)).
  edestruct (IH Hl Hc s1) as (s2 & Hs2 & E2); [done|]. exists s2. split; [done|].
  cbn [List.length]. change (S (List.length l) + fuel) with (S (List.length l + fuel)). rewrite E, E2, seen_cons.
  cbn [fst snd].
  assert (List.length (frame_of (wal_enc r) ++ frames l ++ rest) ≤ List.length file) as Hle.
  { destruct Hs as ([[Hok <-] _] & _ & <-). unfold source_remaining, bfr_remaining. rewrite length_drop. lia. }
  rewrite (length_app (frame_of (wal_enc r))) in *.
  replace (List.length file - (List.length (frame_of (wal_enc r)) + List.length (frames l ++ rest)) + List.length (frame_of (wal_enc r)))
    with (List.length file - List.length (frames l ++ rest)) by lia. done.
Qed.

Lemma dry_records_end file s fuel info l :
  Forall loggable l → no_checkpoint l → l ≠ [] → reading file s (frames l) →
  dry_loop (List.length l + fuel) s info =
  ((seen (List.length file - List.length (frames l)) info.1 l, info.2), Ok ()).
Proof.
  intros Hl Hc Hne Hs. destruct l as [|r l _] using rev_ind; [done|].
  apply Forall_app in Hl as [Hl Hr]. apply Forall_cons_1 in Hr as [Hr _].
  apply Forall_app in Hc as [Hc Hcr]. apply Forall_cons_1 in Hcr as [Hcr _].
  rewrite frames_app in Hs. change (frames [r]) with (frame_of (wal_enc r) ++ []) in Hs.
  destruct (dry_records file s (S fuel) info l (frame_of (wal_enc r) ++ [])) as (s1 & Hs1 & E); [done..| |done|].
  { intros E%(f_equal List.length). pose proof (frame_length enableChecksums (wal_enc r)) as Hf.
    assert (0 < List.length (wal_enc r)) by (unfold wal_enc; rewrite !length_app, length_bytes_of; lia).
    rewrite app_nil_r in E. simpl in E. lia. }
  destruct (dry_step file s1 fuel (seen (List.length file - List.length (frames l ++ frame_of (wal_enc r) ++ [])) info.1 l, info.2)
              r [] Hs1 Hr Hcr) as (s2 & Hs2 & E2).
  rewrite length_app. cbn [List.length]. replace (List.length l + 1 + fuel) with (List.length l + S fuel) by lia.
  rewrite E, E2. rewrite bool_decide_true by done. cbn [fst snd]. rewrite frames_app.
  change (frames [r]) with (frame_of (wal_enc r) ++ []). do 2 f_equal.
  unfold seen. rewrite committed_app. cbn [committed]. destruct (is_commit r) eqn:Ec; [|done].
  replace (match l ++ [r] with [] => info.1 | w :: l0 => _ end)
    with (List.length file - List.length (frames l ++ frame_of (wal_enc r) ++ []) + List.length (frames (l ++ [r])))
    by (by destruct l).
  rewrite frames_app. change (frames [r]) with (frame_of (wal_enc r) ++ []).
  destruct Hs as ([[Hok <-] _] & _ & Hrem). unfold source_remaining, bfr_remaining in Hrem.
  apply (f_equal List.length) in Hrem. rewrite length_drop in Hrem. simpl. lia.
Qed.

(** ** A whole log *)

Definition log_file (db : Z) (l : list (WALRecord V C P)) (tail : list Z) : list Z :=
  frame_of (enc_wal_header enableChecksums db) ++ frames l ++ tail.

Lemma log_file_ne db l tail : log_file db l tail ≠ [].
Proof.
  intros E%(f_equal List.length). unfold log_file in E. rewrite length_app in E.
  pose proof (header_frame_length enableChecksums db). simpl in E. lia.
Qed.

Lemma header_reads file s db rest :
  in_u 128 db → reading file s (frame_of (enc_wal_header enableChecksums db) ++ rest) →
  ∃ s1 s2 s3, onReadBegin s = (s1, Ok ()) ∧ readWALHeader s1 = (s2, Ok (db, enableChecksums)) ∧
    onReadEnd s2 = (s3, Ok ()) ∧ reading file s3 rest.
Proof.
  intros Hdb (Hok & Hk & Hrem). destruct (source_begin file s Hok) as (s1 & E1 & Hin1 & R1).
  assert (∃ tl, frame_of (enc_wal_header enableChecksums db) ++ rest = enc_wal_header enableChecksums db ++ tl) as [tl Etl].
  { unfold frame. destruct enableChecksums; [rewrite <-(assoc_L (++))|]; by eexists. }
  assert (reads (H0 := source_laws allocateBuffer allocateBuffer_size file (source_kind s) (source_remaining s))
            readWALHeader (enc_wal_header enableChecksums db) (db, enableChecksums)) as Hread.
  { unfold readWALHeader, enc_wal_header. eapply reads_bind; [by apply reads_value|].
    eapply reads_last; [apply reads_value; by destruct enableChecksums|by destruct enableChecksums]. }
  destruct (Hread s1 tl Hin1) as (s2 & E2 & Hin2 & R2).
  { cbn [rd_remaining source_laws]. by rewrite R1, Hrem, Etl. }
  cbn [rd_remaining rd_ok source_laws] in R2, Hin2. pose proof Hin2 as (_ & K2 & _). rewrite <-K2 in Hin2.
  rewrite <-Hk in Hrem at 1. rewrite <-K2 in Hrem.
  destruct (source_end file s2 (source_remaining s) (enc_wal_header enableChecksums db) rest Hin2 Hrem)
    as (s3 & E3 & Hok3 & K3 & R3).
  - rewrite Hrem. rewrite K2, Hk, Etl, drop_app_length. done.
  - intros _. rewrite enc_wal_header_length. unfold BUFFER_SIZE. lia.
  - exists s1, s2, s3. split_and!; [done..|]. split; [done|]. split; [congruence|done].
Qed.

Lemma skip_header_ok file s db rest :
  in_u 128 db → reading file s (frame_of (enc_wal_header enableChecksums db) ++ rest) →
  ∃ s', skip_header allocateBuffer enableChecksums s = (s', Ok ()) ∧ reading file s' rest.
Proof.
  intros Hdb Hs. destruct (header_reads file s db rest Hdb Hs) as (s1 & s2 & s3 & E1 & E2 & E3 & Hs3).
  exists s3. split; [|done]. unfold skip_header. rewrite st_bind_run, E1, st_bind_run, E2, st_bind_run.
  unfold checkWALHeader. rewrite bool_decide_true by done. exact E3.
Qed.

#[local] Abbreviation head_length db := (List.length (frame_of (enc_wal_header enableChecksums db))).

(** Where the last commit of a log ends. *)
Definition commit_offset (db : Z) (l : list (WALRecord V C P)) : nat := seen (head_length db) 0 l.

Lemma frames_length (l : list (WALRecord V C P)) : List.length l ≤ List.length (frames l).
Proof.
  induction l as [|r l IH]; [simpl; lia|]. rewrite frames_cons, length_app.
  pose proof (frame_length enableChecksums (wal_enc r)).
  assert (0 < List.length (wal_enc r)) by (unfold wal_enc; rewrite !length_app, length_bytes_of; lia). simpl. lia.
Qed.

Lemma log_file_length db l tail :
  List.length (log_file db l tail) = head_length db + List.length (frames l) + List.length tail.
Proof. unfold log_file. rewrite !length_app. lia. Qed.

(** The dry run up to the loop. *)
Lemma dry_run_start db l tail :
  in_u 128 db →
  ∃ s, reading (log_file db l tail) s (frames l ++ tail) ∧
    dry_run (V := V) (C := C) (P := P) allocateBuffer enableChecksums (log_file db l tail) =
    if bool_decide (frames l ++ tail = []) then ((0, false), Ok ())
    else dry_loop (S (List.length (log_file db l tail))) s (0, false).
Proof.
  intros Hdb. unfold dry_run. destruct (initDeserializer_reading (log_file db l tail)) as (s0 & E0 & Hs0); [by apply log_file_ne|].
  rewrite E0. destruct (skip_header_ok _ s0 db (frames l ++ tail) Hdb Hs0) as (s & Es & Hs). exists s. split; [done|].
  rewrite Es. rewrite (reading_finished _ _ _ Hs). done.
Qed.

Lemma log_rest_length db l tail :
  List.length (log_file db l tail) - List.length (frames l ++ tail) = head_length db.
Proof. rewrite log_file_length, length_app. lia. Qed.

Lemma dry_run_clean db l :
  in_u 128 db → Forall loggable l → no_checkpoint l →
  dry_run (V := V) (C := C) (P := P) allocateBuffer enableChecksums (log_file db l []) = ((commit_offset db l, false), Ok ()).
Proof.
  intros Hdb Hl Hc. destruct (dry_run_start db l [] Hdb) as (s & Hs & ->). pose proof (log_rest_length db l []) as Hoff.
  rewrite app_nil_r in *. pose proof (frames_length l).
  destruct l as [|r l]; [done|]. rewrite bool_decide_false by (intros E; rewrite E in *; simpl in *; lia).
  pose proof (log_file_length db (r :: l) []).
  replace (S (List.length (log_file db (r :: l) []))) with
    (List.length (r :: l) + (S (List.length (log_file db (r :: l) [])) - List.length (r :: l))) by lia.
  rewrite (dry_records_end _ _ _ _ _ Hl Hc ltac:(done) Hs), Hoff. done.
Qed.

(** A tail whose first record cannot be read. *)
Definition unreadable (file tail : list Z) (e : exn) : Prop :=
  tail ≠ [] ∧ ∀ s, reading file s tail →
    ∃ s', wal_deserialize (R := Source) (ValueVector := V) (CatalogEntry := C) (PropertyDefinition := P) s = (s', Throw e).

(** The dry run has read the records when it comes to the tail. *)
Lemma dry_run_tail db l tail :
  in_u 128 db → Forall loggable l → no_checkpoint l → tail ≠ [] →
  ∃ s fuel, reading (log_file db l tail) s tail ∧
    dry_run (V := V) (C := C) (P := P) allocateBuffer enableChecksums (log_file db l tail) =
    dry_loop (S fuel) s (commit_offset db l, false).
Proof.
  intros Hdb Hl Hc Hne. destruct (dry_run_start db l tail Hdb) as (s & Hs & ->).
  rewrite bool_decide_false by (by destruct (frames l)).
  pose proof (log_file_length db l tail). pose proof (frames_length l).
  replace (S (List.length (log_file db l tail))) with
    (List.length l + S (List.length (log_file db l tail) - List.length l)) by lia.
  edestruct (dry_records (log_file db l tail) s) as (s1 & Hs1 & ->); [exact Hl|exact Hc|exact Hne|exact Hs|].
  rewrite log_rest_length. by eexists s1, _.
Qed.

Lemma dry_run_torn db l tail e :
  in_u 128 db → Forall loggable l → no_checkpoint l → unreadable (log_file db l tail) tail e →
  dry_run (V := V) (C := C) (P := P) allocateBuffer enableChecksums (log_file db l tail) =
  ((commit_offset db l, false), Throw e).
Proof.
  intros Hdb Hl Hc [Hne Htail]. destruct (dry_run_tail db l tail Hdb Hl Hc Hne) as (s & fuel & Hs & ->).
  cbn [WalReplayer.dry_loop]. destruct (Htail s Hs) as (s2 & E2). by rewrite E2.
Qed.

Lemma dry_run_checkpoint db l rest :
  in_u 128 db → Forall loggable l → no_checkpoint l → loggable CheckpointRecord →
  dry_run (V := V) (C := C) (P := P) allocateBuffer enableChecksums (log_file db l (frames [CheckpointRecord] ++ rest)) =
  ((head_length db + List.length (frames (l ++ [CheckpointRecord])), true), Ok ()).
Proof.
  intros Hdb Hl Hc Hcp. set (tail := frames [CheckpointRecord] ++ rest).
  assert (tail ≠ []) as Hne.
  { pose proof (frames_length [CheckpointRecord]) as Hf. unfold tail. intros E%(f_equal List.length).
    rewrite length_app in E. simpl in *. lia. }
  destruct (dry_run_tail db l tail Hdb Hl Hc Hne) as (s & fuel & Hs & ->).
  rewrite (dry_checkpoint (log_file db l tail) s _ _ rest); [| |done].
  2:{ unfold tail in Hs at 2. change (frames [CheckpointRecord]) with (frame_of (wal_enc CheckpointRecord) ++ []) in Hs.
      by rewrite app_nil_r in Hs. }
  pose proof (log_file_length db l tail). do 3 f_equal. unfold tail in *. rewrite frames_app, !length_app in *. lia.
Qed.

Lemma dryReplay_committed throwOnWalReplayFailure db l tail :
  in_u 128 db → Forall loggable l → no_checkpoint l →
  tail = [] ∨ (throwOnWalReplayFailure = false ∧ ∃ e, unreadable (log_file db l tail) tail e) →
  dryReplay (V := V) (C := C) (P := P) allocateBuffer throwOnWalReplayFailure enableChecksums (log_file db l tail) =
  Ok (commit_offset db l, false).
Proof.
  intros Hdb Hl Hc [->|[-> [e He]]]; unfold dryReplay.
  - by rewrite dry_run_clean.
  - by rewrite (dry_run_torn db l tail e).
Qed.

(** ** The replay *)

Section Replay.
Context {D : Type} `{Database V C P D}.

Fixpoint replay_all (l : list (WALRecord V C P)) : stM D () :=
  match l with
  | [] => mret ()
  | r :: l => _ ← db_replay r; replay_all l
  end.

Lemma replayWALRecord_database (r : WALRecord V C P) (st : Recovery) :
  is_checkpoint r = false → replayWALRecord r st = on_database (db_replay r) st.
Proof. by destruct r. Qed.

Lemma replay_loop_records file s fuel l rest (st : Recovery) :
  Forall loggable l → no_checkpoint l → reading file s (frames l ++ rest) →
  replay_loop allocateBuffer (List.length l + fuel) s (List.length file - List.length rest) st =
  on_database (replay_all l) st.
Proof.
  intros Hl Hc. revert s st. induction l as [|r l IH]; intros s st Hs.
  { simpl in Hs. cbn [List.length Nat.add replay_all]. destruct st as [dk h d].
    destruct fuel; cbn [replay_loop]; rewrite (reading_offset file s rest Hs), decide_False by lia; done. }
  apply Forall_cons in Hl as [Hr Hl]. apply Forall_cons in Hc as [Hcr Hc]. pose proof (reading_offset _ _ _ Hs) as Hoff.
  rewrite frames_cons, <-(assoc_L (++)) in Hs, Hoff.
  assert (List.length (frame_of (wal_enc r) ++ frames l ++ rest) ≤ List.length file) as Hle.
  { destruct Hs as ([[Hok <-] _] & _ & <-). unfold source_remaining, bfr_remaining. rewrite length_drop. lia. }
  assert (0 < List.length (frame_of (wal_enc r))) as Hpos.
  { pose proof (frame_length enableChecksums (wal_enc r)).
    assert (0 < List.length (wal_enc r)) by (unfold wal_enc; rewrite !length_app, length_bytes_of; lia). lia. }
  rewrite !length_app in Hoff, Hle. cbn [List.length Nat.add replay_loop replay_all].
  rewrite decide_True by lia. destruct (read_record_ok file s r _ Hs Hr) as (s1 & E1 & Hs1). rewrite E1.
  rewrite st_bind_run, replayWALRecord_database by done. unfold on_database at 1 2. rewrite st_bind_run.
  destruct (db_replay r (database st)) as [d1 [[]| |]]; [|done|done].
  rewrite (IH Hl Hc s1 (mkRec (disk st) (databaseHeader st) d1) Hs1). done.
Qed.

Lemma commit_offset_split db l tail :
  ∃ rest, log_file db l tail = frame_of (enc_wal_header enableChecksums db) ++ frames (committed l) ++ rest ∧
    (committed l = [] → commit_offset db l = 0) ∧
    (committed l ≠ [] → commit_offset db l = List.length (log_file db l tail) - List.length rest ∧ 0 < commit_offset db l).
Proof.
  destruct (committed_prefix l) as [tl Etl]. exists (frames tl ++ tail).
  assert (log_file db l tail = frame_of (enc_wal_header enableChecksums db) ++ frames (committed l) ++ frames tl ++ tail) as E.
  { unfold log_file. by rewrite Etl at 1; rewrite frames_app, <-!(assoc_L (++)). }
  split; [done|]. pose proof (header_frame_length enableChecksums db). unfold commit_offset, seen. split.
  - intros ->. done.
  - intros Hne. rewrite E, !length_app. destruct (committed l); [done|]. lia.
Qed.

Lemma replayRecords_ok randomUUID path db l tail (st : Recovery) h :
  in_u 128 db → Forall loggable l → no_checkpoint l → databaseHeader st = Some h → databaseID h = db →
  replayRecords allocateBuffer randomUUID enableChecksums path (log_file db l tail) (commit_offset db l) st =
  on_database (replay_all (committed l)) st.
Proof.
  intros Hdb Hl Hc Hh Hid. unfold replayRecords.
  destruct (initDeserializer_reading (log_file db l tail)) as (s0 & E0 & Hs0); [by apply log_file_ne|]. rewrite E0.
  rewrite st_bind_run. cbn [st_lift]. destruct (commit_offset_split db l tail) as (rest & E & Hnone & Hsome).
  destruct (decide (committed l = [])) as [Hce|Hce].
  { rewrite (Hnone Hce). cbn [bool_decide decide_rel]. rewrite Hce. destruct st. done. }
  destruct (Hsome Hce) as [Hoff Hpos]. rewrite bool_decide_true by done.
  rewrite E in Hs0 at 2. destruct (header_reads _ s0 db (frames (committed l) ++ rest) Hdb Hs0) as (s1 & s2 & s3 & E1 & E2 & E3 & Hs3).
  rewrite st_bind_run, st_bind_run, E1, E2. rewrite st_bind_run. cbn [st_lift]. rewrite st_bind_run.
  unfold getOrInitDatabaseID, getOrInitDatabaseHeader. rewrite st_bind_run, st_bind_run. cbn [st_get]. rewrite Hh.
  cbn [mret stM_ret fst]. rewrite st_bind_run. unfold verifyDatabaseID. rewrite bool_decide_true by done.
  cbn [st_lift]. rewrite E3. rewrite st_bind_run. cbn [st_lift mret stM_ret].
  assert (Forall loggable (committed l) ∧ no_checkpoint (committed l)) as [Hl' Hc'].
  { destruct (committed_prefix l) as [tl Etl]. rewrite Etl in Hl, Hc. apply Forall_app in Hl as [? _].
    by apply Forall_app in Hc as [? _]. }
  pose proof (frames_length (committed l)) as Hlen. pose proof (f_equal List.length E) as Elen. rewrite !length_app in Elen.
  replace (S (List.length (log_file db l tail))) with
    (List.length (committed l) + (S (List.length (log_file db l tail)) - List.length (committed l))) by lia.
  rewrite Hoff. by apply replay_loop_records.
Qed.
End Replay.
End Facts.
