(* ===== verification/RecoveryFacts.v ===== *)
(** * Opening a database, case by case

    What [replay] does on a disk with the active log, the frozen log, or both, when the
    data file has a header and what is loaded and replayed goes through. *)

From Stdlib Require Import Ascii String.
From S2P Require Import Prelude.
From S2P Require Import FileHandle.
From S2P Require Import FreeSpace.
From S2P Require Import PageManager.
From S2P Require Import Serializer.
From S2P Require Import SerializerFacts.
From S2P Require Import Serial.
From S2P Require Import FreeSpaceSerial.
From S2P Require Import FreeSpaceSerialTheorems.
From S2P Require Import Checksum.
From S2P Require Import WalRecord.
From S2P Require Import Wal.
From S2P Require Import ShadowFile.
From S2P Require Import ShadowFileFacts.
From S2P Require Import WalReplayer.
From S2P Require Import WalReplayerFacts.

#[local] Open Scope nat_scope.
#[local] Open Scope list_scope.

Section Recover.
Context `{PageConfig} `{DeserDebug}.
Context {V C P D : Type} `{PayloadLaws V, PayloadLaws C, PayloadLaws P} `{Database V C P D}.
Variable garbage : list Z.
Variable allocateBuffer : nat → list Z.
Variable storageVersion randomUUID : Z.
Variables walPath checkpointWalPath shadowFilePath : string.
Variable throwOnWalReplayFailure enableChecksums : bool.
Hypothesis garbage_page : List.length garbage = BUFFER_SIZE.
Hypothesis allocateBuffer_size : ∀ n, List.length (allocateBuffer n) = n.
Hypothesis page_size : (64 ≤ LBUG_PAGE_SIZE < 2 ^ 32)%Z.

#[local] Abbreviation frames := (frames (V := V) (C := C) (P := P) enableChecksums).
#[local] Abbreviation loggable := (loggable (V := V) (C := C) (P := P) enableChecksums).
#[local] Abbreviation log_file := (log_file (V := V) (C := C) (P := P) enableChecksums).
#[local] Abbreviation commit_offset := (commit_offset (V := V) (C := C) (P := P) enableChecksums).
#[local] Abbreviation dryReplay := (dryReplay (V := V) (C := C) (P := P) allocateBuffer throwOnWalReplayFailure enableChecksums).
#[local] Abbreviation readCheckpoint := (readCheckpoint (V := V) (C := C) (P := P) (D := D) garbage storageVersion randomUUID false).

(** The data file starts with a header of this build. *)
Definition has_header (file : list Z) (h : DatabaseHeader) : Prop :=
  file ≠ [] ∧ ∃ r r', newBufferedFileReader file = (r, Ok ()) ∧ header_deserialize storageVersion r = (r', Ok h).

Definition load_all (h : DatabaseHeader) (file : list Z) : stM D () :=
  _ ← (if bool_decide (startPageIdx (catalogPageRange h) = INVALID_PAGE_IDX) then mret () else db_load h file);
  db_autoLoadLinkedExtensions.

(** The data file loaded, then records replayed. *)
Definition opens (h : DatabaseHeader) (file : list Z) (l : list (WALRecord V C P)) (d d' : D) : Prop :=
  (_ ← load_all h file; replay_all l) d = (d', Ok ()).

Lemma opens_split h file l d d' :
  opens h file l d d' → ∃ d1, load_all h file d = (d1, Ok ()) ∧ replay_all l d1 = (d', Ok ()).
Proof.
  unfold opens. rewrite st_bind_run. destruct (load_all h file d) as [d1 [[]| |]]; [|done|done]. by exists d1.
Qed.

Lemma replay_all_app l1 l2 d d1 d2 :
  replay_all l1 d = (d1, Ok ()) → replay_all l2 d1 = (d2, Ok ()) → replay_all (l1 ++ l2) d = (d2, Ok ()).
Proof.
  revert d. induction l1 as [|r l1 IH]; intros d E1 E2; cbn [replay_all app] in *.
  - by injection E1 as <-.
  - rewrite st_bind_run in *. destruct (db_replay r d) as [d0 [[]| |]]; [|done|done]. by apply IH.
Qed.

Lemma readCheckpoint_ok (st : Recovery (D := D)) file h d' :
  data_file (disk st) = Some file → has_header file h → load_all h file (database st) = (d', Ok ()) →
  readCheckpoint st = (mkRec (disk st) (Some h) d', Ok ()).
Proof.
  intros Hf (Hne & r & r' & Er & Eh) Hl. unfold readCheckpoint, initDataFileHandle.
  rewrite st_bind_run, st_bind_run. unfold openDataFile. rewrite st_bind_run. cbn [st_get]. rewrite Hf.
  cbn [mret stM_ret]. rewrite bool_decide_false by done. cbn [andb mret stM_ret].
  rewrite st_bind_run, bool_decide_false by done. rewrite Er, st_bind_run. cbn [st_lift]. rewrite st_bind_run, Eh. cbn [st_lift snd].
  unfold load_all in Hl. rewrite st_bind_run in Hl. rewrite st_bind_run. destruct st as [dk dh d]. cbn [database disk] in *.
  destruct (bool_decide (startPageIdx (catalogPageRange h) = INVALID_PAGE_IDX)).
  - cbn [mret stM_ret] in *. unfold setDatabaseHeader, on_database. cbn [st_modify database disk]. by rewrite Hl.
  - unfold on_database at 1. cbn [database disk databaseHeader]. destruct (db_load h file d) as [d1 [[]| |]]; [|done|done].
    unfold setDatabaseHeader, on_database. cbn [st_modify database disk]. by rewrite Hl.
Qed.

(** What is left of a log after the replay: what is committed. *)
Definition kept (db : Z) (l : list (WALRecord V C P)) (tail : list Z) : list Z :=
  take (commit_offset db l) (log_file db l tail).

Lemma kept_committed db l tail : committed l ≠ [] → kept db l tail = log_file db (committed l) [].
Proof.
  intros Hne. unfold kept. destruct (commit_offset_split enableChecksums db l tail) as (rest & E & _ & Hs).
  destruct (Hs Hne) as [Ho _]. rewrite Ho, E, (assoc_L (++)), length_app, Nat.add_sub, take_app_length.
  unfold WalReplayerFacts.log_file. by rewrite app_nil_r.
Qed.

Definition replay_disk := (replay (V := V) (C := C) (P := P) (D := D) garbage allocateBuffer storageVersion randomUUID
  walPath checkpointWalPath shadowFilePath false throwOnWalReplayFailure enableChecksums).

Section Log.
Variable db : Z.
Variable l : list (WALRecord V C P).
Variable tail : list Z.
Hypothesis db_word : in_u 128 db.
Hypothesis l_loggable : Forall loggable l.
Hypothesis l_records : no_checkpoint l.
Hypothesis dry : dryReplay (log_file db l tail) = Ok (commit_offset db l, false).

Lemma replayActiveWAL_ok (st : Recovery (D := D)) h d' :
  wal_file (disk st) = Some (log_file db l tail) → databaseHeader st = Some h → databaseID h = db →
  replay_all (committed l) (database st) = (d', Ok ()) →
  replayActiveWAL garbage allocateBuffer storageVersion randomUUID walPath shadowFilePath false
    throwOnWalReplayFailure enableChecksums (log_file db l tail) st =
  (mkRec (set_wal (Some (kept db l tail)) (disk st)) (Some h) d', Ok ()).
Proof.
  intros Hw Hh Hid Hr. unfold replayActiveWAL. rewrite decide_False by (by apply log_file_ne).
  unfold rolling_back. rewrite st_bind_run, dry. cbn [st_lift snd fst]. rewrite st_bind_run.
  rewrite (replayRecords_ok allocateBuffer enableChecksums allocateBuffer_size page_size randomUUID walPath db l tail st h) by done.
  destruct st as [dk dh d]. cbn [disk databaseHeader database] in *. subst dh. unfold on_database. cbn [database].
  rewrite Hr. cbn [disk databaseHeader]. unfold truncateWALFile, kept. case_bool_decide as Hlt.
  - done.
  - rewrite take_ge by lia. destruct dk as [? ? ? ?]. cbn in Hw. by subst.
Qed.

Lemma replayFrozenWAL_ok (st : Recovery (D := D)) file h d' :
  frozen_wal (disk st) = Some (log_file db l tail) → data_file (disk st) = Some file → has_header file h →
  databaseID h = db → opens h file (committed l) (database st) d' →
  replayFrozenWAL garbage allocateBuffer storageVersion randomUUID checkpointWalPath shadowFilePath false
    throwOnWalReplayFailure enableChecksums (log_file db l tail) st =
  (mkRec (mkDisk (Some file) None (wal_file (disk st)) None) (Some h) d', Ok ()).
Proof.
  intros Hz Hf Hh Hid (d1 & E1 & E2)%opens_split. unfold replayFrozenWAL. rewrite decide_False by (by apply log_file_ne).
  unfold rolling_back. rewrite st_bind_run, dry. cbn [st_lift snd fst]. rewrite st_bind_run.
  destruct st as [[f s w z] dh d]. cbn [disk databaseHeader database data_file frozen_wal wal_file] in *. subst.
  cbn [removeFileIfExists on_disk st_modify set_shadow data_file shadow_file wal_file frozen_wal disk databaseHeader database].
  rewrite st_bind_run. rewrite (readCheckpoint_ok _ file h d1) by done. rewrite st_bind_run. cbn [disk].
  rewrite (replayRecords_ok allocateBuffer enableChecksums allocateBuffer_size page_size randomUUID checkpointWalPath
             (databaseID h) l tail _ h) by done.
  unfold on_database. cbn [database disk databaseHeader]. rewrite E2. done.
Qed.
End Log.

(** An active log, or none, with the records that count in it. *)
Inductive active_log (db : Z) : option (list Z) → list (WALRecord V C P) → Prop :=
| no_log : active_log db None []
| some_log l tail :
    Forall loggable l → no_checkpoint l → dryReplay (log_file db l tail) = Ok (commit_offset db l, false) →
    active_log db (Some (log_file db l tail)) (committed l).

(** ** A checkpoint that was logged *)

Section Shadow.
Variable id : Z.
Variable p0 : list Z.
Variable ps : list (list Z).
Variable records : list ShadowPageRecord.
Hypothesis pages_full : Forall (λ p, List.length p = BUFFER_SIZE) ps.
Hypothesis pages_count : List.length ps = List.length records.
Hypothesis records_small : (Z.of_nat (List.length records) + 1 < 2 ^ 32)%Z.
Hypothesis records_words :
  Forall (λ r, (0 ≤ originalFileIdx r < 2 ^ 32)%Z ∧ (0 ≤ originalPageIdx r < 2 ^ 32)%Z) records.
Hypothesis id_word : in_u 128 id.
Let image : list Z := shadow_image garbage id (p0 :: ps) records.

Lemma replayFrozenWAL_checkpoint (st : Recovery (D := D)) file data h0 h d' n :
  file ≠ [] → dryReplay file = Ok (n, true) →
  shadow_file (disk st) = Some image → data_file (disk st) = Some data →
  readDatabaseHeader storageVersion data = Ok (Some h0) → databaseID h0 = id →
  has_header (overwrite image 1 records data) h →
  load_all h (overwrite image 1 records data) (database st) = (d', Ok ()) →
  replayFrozenWAL garbage allocateBuffer storageVersion randomUUID checkpointWalPath shadowFilePath false
    throwOnWalReplayFailure enableChecksums file st =
  (mkRec (mkDisk (Some (overwrite image 1 records data)) None (wal_file (disk st)) None) (Some h) d', Ok ()).
Proof.
  intros Hne Hdry Hs Hf Hh0 Hid Hh Hl. unfold replayFrozenWAL. rewrite decide_False by done.
  unfold rolling_back. rewrite st_bind_run, Hdry. cbn [st_lift snd]. rewrite st_bind_run.
  unfold replayShadow. rewrite st_bind_run. cbn [st_get]. rewrite Hs, Hf, Hh0.
  pose proof (replay_ok garbage garbage_page ltac:(lia) id p0 ps records pages_full pages_count records_small records_words
             shadowFilePath h0 data Hid id_word) as E. fold image in E. rewrite E.
  destruct st as [[f s w z] dh d]. cbn [disk databaseHeader database data_file shadow_file wal_file] in *. subst.
  rewrite st_bind_run.
  cbn [removeFileIfExists on_disk st_modify st_lift set_shadow set_frozen set_data data_file shadow_file wal_file frozen_wal
       disk databaseHeader database].
  do 2 (rewrite st_bind_run; unfold on_disk at 1;
        cbn [st_modify set_frozen set_shadow set_data data_file shadow_file wal_file frozen_wal disk databaseHeader database]).
  by rewrite (readCheckpoint_ok _ (overwrite image 1 records data) h d').
Qed.
End Shadow.

(** ** The whole of [replay] *)

Lemma replay_active_part db a la (st : Recovery (D := D)) h d' :
  in_u 128 db → active_log db a la → wal_file (disk st) = a → databaseHeader st = Some h → databaseID h = db →
  replay_all la (database st) = (d', Ok ()) →
  ∃ dk, match a with
        | Some file => replayActiveWAL garbage allocateBuffer storageVersion randomUUID walPath shadowFilePath false
            throwOnWalReplayFailure enableChecksums file st
        | None => (st, Ok ())
        end = (mkRec dk (Some h) d', Ok ()) ∧
    data_file dk = data_file (disk st) ∧ shadow_file dk = shadow_file (disk st) ∧ frozen_wal dk = frozen_wal (disk st).
Proof.
  intros Hdb Ha Hw Hh Hid Hr. destruct Ha as [|l tail Hl Hc Hdry].
  - exists (disk st). split; [|done]. injection Hr as <-. destruct st. cbn in *. by subst.
  - rewrite (replayActiveWAL_ok db l tail Hdb Hl Hc Hdry st h d') by done. by eexists.
Qed.

(** The outcome of an open: the database, and the files it leaves. *)
Definition recovered (d d' : D) (dk : Disk) (file : list Z) : Prop :=
  ∃ dk' h, replay_disk (mkRec dk None d) = (mkRec dk' (Some h) d', Ok ()) ∧
    data_file dk' = Some file ∧ shadow_file dk' = None ∧ frozen_wal dk' = None.

Lemma recover_active dk file h a la d d' :
  in_u 128 (databaseID h) → data_file dk = Some file → frozen_wal dk = None → wal_file dk = a →
  active_log (databaseID h) a la → has_header file h → opens h file la d d' →
  recovered d d' dk file.
Proof.
  intros Hdb Hf Hz Hw Ha Hh (d1 & E1 & E2)%opens_split. unfold recovered, replay_disk, replay.
  destruct dk as [f s w z]. cbn [data_file frozen_wal wal_file] in *. subst.
  destruct (replay_active_part _ a la (mkRec (mkDisk (Some file) None a None) (Some h) d1) h d' Hdb Ha)
    as (dk & E & Hd & Hs & Hfr); [done..|].
  exists dk, h. rewrite st_bind_run. cbn [st_get disk frozen_wal wal_file].
  destruct a as [a|]; rewrite st_bind_run; [rewrite st_bind_run|];
    cbn [removeFileIfExists on_disk st_modify set_shadow data_file wal_file frozen_wal disk databaseHeader database];
    rewrite (readCheckpoint_ok _ file h d1) by done; cbn [disk].
  - split; [exact E|done].
  - by injection E as <- <-.
Qed.

(** The files as well: the torn tail is cut off the log. *)
Lemma recover_active_log file shadow h l tail d d' :
  in_u 128 (databaseID h) → Forall loggable l → no_checkpoint l →
  dryReplay (log_file (databaseID h) l tail) = Ok (commit_offset (databaseID h) l, false) →
  has_header file h → opens h file (committed l) d d' →
  replay_disk (mkRec (mkDisk (Some file) shadow (Some (log_file (databaseID h) l tail)) None) None d) =
  (mkRec (mkDisk (Some file) None (Some (kept (databaseID h) l tail)) None) (Some h) d', Ok ()).
Proof.
  intros Hdb Hl Hc Hdry Hh (d1 & E1 & E2)%opens_split. unfold replay_disk, replay.
  rewrite st_bind_run. cbn [st_get disk frozen_wal wal_file]. rewrite st_bind_run. rewrite st_bind_run.
  cbn [removeFileIfExists on_disk st_modify set_shadow data_file wal_file frozen_wal disk databaseHeader database].
  rewrite (readCheckpoint_ok _ file h d1) by done. cbn [disk].
  by rewrite (replayActiveWAL_ok (databaseID h) l tail Hdb Hl Hc Hdry _ h d').
Qed.

(** A log the dry run refuses: opening fails with its exception, the log is left alone. *)
Lemma recover_refused file shadow h log d d1 e :
  log ≠ [] → dryReplay log = Throw e → has_header file h → load_all h file d = (d1, Ok ()) →
  replay_disk (mkRec (mkDisk (Some file) shadow (Some log) None) None d) =
  (mkRec (mkDisk (Some file) None (Some log) None) (Some h) (db_rollback d1), Throw e).
Proof.
  intros Hne Hdry Hh E1. unfold replay_disk, replay.
  rewrite st_bind_run. cbn [st_get disk frozen_wal wal_file]. rewrite st_bind_run. rewrite st_bind_run.
  cbn [removeFileIfExists on_disk st_modify set_shadow data_file wal_file frozen_wal disk databaseHeader database].
  rewrite (readCheckpoint_ok _ file h d1) by done. cbn [disk].
  unfold replayActiveWAL. rewrite decide_False by done. unfold rolling_back. rewrite st_bind_run, Hdry. done.
Qed.

Lemma recover_refused_frozen dk log d e :
  frozen_wal dk = Some log → log ≠ [] → dryReplay log = Throw e →
  replay_disk (mkRec dk None d) = (mkRec dk None (db_rollback d), Throw e).
Proof.
  intros Hz Hne Hdry. unfold replay_disk, replay. rewrite st_bind_run. cbn [st_get disk]. rewrite Hz.
  rewrite st_bind_run. unfold replayFrozenWAL. rewrite decide_False by done. unfold rolling_back.
  rewrite st_bind_run, Hdry. by destruct dk.
Qed.

Lemma recover_frozen dk file h l tail a la d d' :
  in_u 128 (databaseID h) → data_file dk = Some file → frozen_wal dk = Some (log_file (databaseID h) l tail) →
  Forall loggable l → no_checkpoint l → dryReplay (log_file (databaseID h) l tail) = Ok (commit_offset (databaseID h) l, false) →
  wal_file dk = a → active_log (databaseID h) a la → has_header file h → opens h file (committed l ++ la) d d' →
  recovered d d' dk file.
Proof.
  intros Hdb Hf Hz Hl Hc Hdry Hw Ha Hh Ho. unfold recovered, replay_disk, replay.
  destruct dk as [f s w z]. cbn [data_file frozen_wal wal_file] in *. subst.
  apply opens_split in Ho as (d1 & E1 & E2).
  assert (∃ d2, replay_all (committed l) d1 = (d2, Ok ()) ∧ replay_all la d2 = (d', Ok ())) as (d2 & E3 & E4).
  { clear -E2. revert d1 E2. generalize (committed l) as l1. induction l1 as [|r l1 IH]; intros d1 E2; [by exists d1|].
    cbn [replay_all app] in *. rewrite st_bind_run in *. destruct (db_replay r d1) as [d0 [[]| |]]; [|done|done]. by apply IH. }
  destruct (replay_active_part _ a la (mkRec (mkDisk (Some file) None a None) (Some h) d2) h d' Hdb Ha)
    as (dk & E & Hd & Hs & Hfr); [done..|].
  exists dk, h. rewrite st_bind_run. cbn [st_get disk frozen_wal wal_file]. rewrite st_bind_run.
  rewrite (replayFrozenWAL_ok (databaseID h) l tail Hdb Hl Hc Hdry _ file h d2);
    [|done|done|done|done|by unfold opens; rewrite st_bind_run; cbn [database]; rewrite E1].
  cbn [disk wal_file]. destruct a; [split; [exact E|done]|by injection E as <- <-].
Qed.

Lemma recover_checkpointed dk (image data : list Z) records p0 ps h0 h file n a la d d' :
  Forall (λ p, List.length p = BUFFER_SIZE) ps → List.length ps = List.length records →
  (Z.of_nat (List.length records) + 1 < 2 ^ 32)%Z →
  Forall (λ r, (0 ≤ originalFileIdx r < 2 ^ 32)%Z ∧ (0 ≤ originalPageIdx r < 2 ^ 32)%Z) records →
  in_u 128 (databaseID h) → image = shadow_image garbage (databaseID h) (p0 :: ps) records →
  data_file dk = Some data → shadow_file dk = Some image → frozen_wal dk = Some file → file ≠ [] →
  dryReplay file = Ok (n, true) →
  readDatabaseHeader storageVersion data = Ok (Some h0) → databaseID h0 = databaseID h →
  wal_file dk = a → active_log (databaseID h) a la →
  has_header (overwrite image 1 records data) h → opens h (overwrite image 1 records data) la d d' →
  recovered d d' dk (overwrite image 1 records data).
Proof.
  intros Hps Hcount Hsmall Hwords Hdb -> Hf Hs Hz Hne Hdry Hh0 Hid Hw Ha Hh (d1 & E1 & E2)%opens_split.
  unfold recovered, replay_disk, replay. destruct dk as [f s w z]. cbn [data_file shadow_file frozen_wal wal_file] in *. subst.
  set (image := shadow_image _ _ _ _) in *. set (new := overwrite image 1 records data) in *.
  destruct (replay_active_part _ a la (mkRec (mkDisk (Some new) None a None) (Some h) d1) h d' Hdb Ha)
    as (dk & E & Hd & Hss & Hfr); [done..|].
  exists dk, h. rewrite st_bind_run. cbn [st_get disk frozen_wal wal_file]. rewrite st_bind_run.
  rewrite (replayFrozenWAL_checkpoint (databaseID h) p0 ps records Hps Hcount Hsmall Hwords Hdb _ file data h0 h d1 n) by done.
  cbn [disk wal_file]. destruct a; [split; [exact E|done]|by injection E as <- <-].
Qed.
End Recover.

(** * What a crash leaves of a file

    [mix old new f]: a write was under way, and each byte of [f] is the old or the new
    one.  A mix of two headers of the same database is a header of it; what is left of a
    checkpoint record is either the record or cannot be read. *)

#[local] Open Scope nat_scope.
#[local] Open Scope list_scope.

Definition mix (old new f : list Z) : Prop :=
  Nat.min (List.length old) (List.length new) ≤ List.length f ≤ Nat.max (List.length old) (List.length new) ∧
  ∀ i, byte f i = byte old i ∨ byte f i = byte new i.

Lemma mix_old old new : mix old new old.
Proof. split; [lia|by left]. Qed.
Lemma mix_new old new : mix old new new.
Proof. split; [lia|by right]. Qed.

(** ** Mixed values *)

(** Byte by byte, for two encodings of the same length. *)
Definition mixed (a b m : list Z) : Prop :=
  List.length a = List.length b ∧ List.length m = List.length a ∧ ∀ i, byte m i = byte a i ∨ byte m i = byte b i.

Lemma mixed_same a m : mixed a a m → m = a.
Proof. intros (_ & Hl & Hb). apply file_ext; [done|]. intros i. by destruct (Hb i). Qed.

Lemma byte_take n f i : i < n → byte (take n f) i = byte f i.
Proof. intros Hi. unfold byte. rewrite lookup_take. by rewrite decide_True. Qed.
Lemma byte_drop n f i : byte (drop n f) i = byte f (n + i).
Proof. unfold byte. by rewrite lookup_drop. Qed.

Lemma mixed_app a1 a2 b1 b2 m :
  List.length a1 = List.length b1 → mixed (a1 ++ a2) (b1 ++ b2) m →
  ∃ m1 m2, m = m1 ++ m2 ∧ mixed a1 b1 m1 ∧ mixed a2 b2 m2.
Proof.
  intros Hl (Hab & Hm & Hb). rewrite !length_app in *.
  exists (take (List.length a1) m), (drop (List.length a1) m). split; [by rewrite take_drop|]. split.
  - split; [done|]. split; [rewrite length_take; lia|]. intros i. destruct (decide (i < List.length a1)) as [Hi|Hi].
    + rewrite byte_take by done. specialize (Hb i). rewrite !byte_app, !bool_decide_true in Hb by lia. done.
    + rewrite !byte_end by (rewrite ?length_take; lia). by left.
  - split; [lia|]. split; [rewrite length_drop; lia|]. intros i. rewrite byte_drop. specialize (Hb (List.length a1 + i)).
    rewrite !byte_app, !bool_decide_false in Hb by lia.
    replace (List.length a1 + i - List.length a1) with i in Hb by lia.
    replace (List.length a1 + i - List.length b1) with i in Hb by lia. done.
Qed.

Definition is_byte (b : Z) : Prop := (0 ≤ b < 256)%Z.

Lemma bytes_of_bytes n v : Forall is_byte (bytes_of n v).
Proof.
  revert v. induction n as [|n IH]; intros v; [constructor|]. cbn [bytes_of]. constructor; [|apply IH].
  apply Z.mod_pos_bound. lia.
Qed.

Lemma bytes_of_value_of bs : Forall is_byte bs → bytes_of (List.length bs) (value_of bs) = bs ∧ (0 ≤ value_of bs < 256 ^ Z.of_nat (List.length bs))%Z.
Proof.
  unfold is_byte. induction 1 as [|b bs Hb Hbs [IH1 IH2]]; [done|]. cbn [List.length bytes_of value_of].
  rewrite Nat2Z.inj_succ, Z.pow_succ_r by lia. split; [|lia]. f_equal.
  - rewrite Z.mul_comm, Z_mod_plus_full. apply Z.mod_small. lia.
  - rewrite Z.mul_comm, Z_div_plus_full by lia. by rewrite (Z.div_small b 256), Z.add_0_l by lia.
Qed.

Lemma byte_is_byte l i : Forall is_byte l → is_byte (byte l i).
Proof.
  intros Hl. unfold byte. destruct (l !! i) eqn:E; [|unfold is_byte; simpl; lia].
  rewrite Forall_forall in Hl. by eapply Hl, list_elem_of_lookup_2.
Qed.

Lemma mixed_value n x y m :
  mixed (bytes_of n x) (bytes_of n y) m → ∃ z, m = bytes_of n z ∧ (0 ≤ z < 256 ^ Z.of_nat n)%Z.
Proof.
  intros (_ & Hl & Hb). rewrite length_bytes_of in Hl.
  assert (Forall is_byte m) as Hm.
  { apply Forall_lookup. intros i b Hi. assert (b = byte m i) as -> by (unfold byte; by rewrite Hi).
    destruct (Hb i) as [-> | ->]; apply byte_is_byte, bytes_of_bytes. }
  apply bytes_of_value_of in Hm as [E Hr]. rewrite Hl in E, Hr. exists (value_of m). by rewrite E.
Qed.

(** ** Mixed headers *)

Lemma enc_header_mixed `{DeserDebug} v h0 h1 m :
  databaseID h0 = databaseID h1 → header_word h0 → mixed (enc_header v h0) (enc_header v h1) m →
  ∃ h, m = enc_header v h ∧ header_word h ∧ databaseID h = databaseID h0.
Proof.
  intros Hid Hw Hm. unfold enc_header, enc_ranges in Hm. rewrite <-!(assoc_L (++)), <-Hid in Hm.
  do 11 (apply mixed_app in Hm as (? & ? & -> & ? & Hm); [|by rewrite ?length_bytes_of]).
  repeat match goal with
  | Hx : mixed ?a ?a _ |- _ => apply mixed_same in Hx as ->
  | Hx : mixed (bytes_of _ _) (bytes_of _ _) _ |- _ => apply mixed_value in Hx as (? & -> & ?)
  end.
  eexists (mkHeader (mkRange _ _) (mkRange _ _) _ _). unfold enc_header, enc_ranges, header_word.
  cbn [catalogPageRange metadataPageRange dataFileNumPages databaseID startPageIdx numPages].
  rewrite <-!(assoc_L (++)). split; [reflexivity|]. destruct Hw as (_ & _ & _ & _ & _ & Hw).
  split_and!; try done; simpl in *; lia.
Qed.

Section HeaderFile.
Context `{PageConfig} `{DeserDebug}.
Variable v : Z.
Hypothesis v_word : (0 ≤ v < 2 ^ 64)%Z.

(** A file of at least a page that starts with the header [h]. *)
Definition headed (file : list Z) (h : DatabaseHeader) : Prop :=
  header_word h ∧ BUFFER_SIZE ≤ List.length file ∧ ∃ rest, file = enc_header v h ++ rest.

Lemma headed_reads file h : headed file h → has_header v file h ∧ readDatabaseHeader v file = Ok (Some h).
Proof.
  intros (Hw & Hlen & rest & E). pose proof BUFFER_SIZE_pos.
  assert (file ≠ []) as Hne by (by destruct file; simpl in *; [lia|]).
  destruct (newBufferedFileReader_ok file Hne) as (r & Er & Hr & Crem). rewrite E in Crem.
  destruct (header_deserialize_reads (H0 := BufferedFileReader_laws) v h v_word Hw r rest Hr Crem) as (r' & E' & _).
  split; [split; [done|]; by exists r, r'|]. unfold readDatabaseHeader. rewrite bool_decide_false.
  - by rewrite Er, E'.
  - unfold BUFFER_SIZE in *. lia.
Qed.

Lemma length_enc_header_same h0 h1 : List.length (enc_header v h0) = List.length (enc_header v h1).
Proof. unfold enc_header, enc_ranges. rewrite !length_app, !length_bytes_of. lia. Qed.

Hypothesis page_size : (256 ≤ LBUG_PAGE_SIZE)%Z.

Lemma mix_headed old new h0 h1 f :
  headed old h0 → headed new h1 → databaseID h0 = databaseID h1 → mix old new f →
  ∃ h, headed f h ∧ databaseID h = databaseID h0.
Proof.
  intros (Hw0 & Hl0 & r0 & E0) (Hw1 & Hl1 & r1 & E1) Hid [Hlen Hb].
  set (n := List.length (enc_header v h0)). assert (n ≤ BUFFER_SIZE) as Hn.
  { unfold n, BUFFER_SIZE. pose proof (length_enc_header v h0). lia. }
  pose proof (length_enc_header_same h0 h1) as Hsame. fold n in Hsame.
  destruct (enc_header_mixed v h0 h1 (take n f) Hid Hw0) as (h & E & Hw & Hidh).
  { split; [done|]. split; [rewrite length_take; lia|]. intros i. destruct (decide (i < n)) as [Hi|Hi].
    - rewrite byte_take by done. specialize (Hb i). rewrite E0, E1, !byte_app, !bool_decide_true in Hb by lia. done.
    - rewrite !byte_end by (rewrite ?length_take; lia). by left. }
  exists h. split; [|done]. split; [done|]. split; [lia|]. exists (drop n f). by rewrite <-E, take_drop.
Qed.
End HeaderFile.

(** ** A torn checkpoint record *)

Section Torn.
Context `{PageConfig} `{DeserDebug}.
Context {V C P : Type} `{PayloadLaws V, PayloadLaws C, PayloadLaws P}.
Variable allocateBuffer : nat → list Z.
Variable enableChecksums : bool.
Hypothesis allocateBuffer_size : ∀ n, List.length (allocateBuffer n) = n.
Hypothesis page_size : (64 ≤ LBUG_PAGE_SIZE < 2 ^ 32)%Z.
(** A release build: without labels a record is its type and its fields. *)
Hypothesis release : DESER_DEBUG = false.

#[local] Hint Extern 0 (Reader Source) => exact (Source_reader allocateBuffer) : typeclass_instances.
#[local] Abbreviation frames := (frames (V := V) (C := C) (P := P) enableChecksums).
#[local] Abbreviation log_file := (log_file (V := V) (C := C) (P := P) enableChecksums).
#[local] Abbreviation dry_run := (dry_run (V := V) (C := C) (P := P) allocateBuffer enableChecksums).

(** A read of at most a page returns or throws. *)
Lemma bfr_read_total r n :
  bfr_ok r → n ≤ BUFFER_SIZE → (∃ bs, (bfr_read n r).2 = Ok bs) ∨ (∃ e, (bfr_read n r).2 = Throw e).
Proof.
  intros [Hs Ho Hf Hl Hc] Hn. unfold bfr_read. rewrite st_bind_run. cbn [st_get]. rewrite decide_False by lia.
  case_decide.
  { rewrite bytes_at_ok by lia. st_run. left. by eexists. }
  rewrite decide_False by lia. rewrite bytes_at_ok by lia. st_run. set (r1 := mkBFR _ _ _ _ _ _).
  destruct (decide (bfr_fileSize r1 ≤ bfr_fileOffset r1)) as [Hend|Hmore].
  { unfold readNextPage. rewrite decide_True by done. right. by eexists. }
  assert (bfr_ok r1) as Hok1.
  { constructor; simpl; try done; try lia. by replace (bfr_bufferSize r - _) with 0 by lia. }
  destruct (readNextPage_ok r1 Hok1) as (r2 & -> & [Hs2 _ _ _ _] & _); [lia|].
  st_run. rewrite bytes_at_ok by lia. st_run. left. by eexists.
Qed.

(** What can be read from a tail that begins with a byte of the record's type or zero. *)
Lemma read_torn file s b tl :
  reading enableChecksums file s (b :: tl) → b = 0%Z ∨ b = 254%Z →
  ∃ s' x, wal_deserialize (R := Source) (ValueVector := V) (CatalogEntry := C) (PropertyDefinition := P) s = (s', x) ∧
    (x = Ok CheckpointRecord ∨ ∃ e, x = Throw e).
Proof.
  intros (Hok & Hk & Hrem) Hb. destruct (source_begin file s Hok) as (s1 & E1 & Hin1 & R1).
  assert (reads (H0 := source_laws allocateBuffer allocateBuffer_size file (source_kind s) (source_remaining s))
            (deserializeValue 1) (bytes_of 1 b) b) as Hread by (apply reads_value; destruct Hb as [-> | ->]; done).
  destruct (Hread s1 tl Hin1) as (s2 & E2 & Hin2 & R2).
  { cbn [rd_remaining source_laws]. rewrite R1, Hrem. by destruct Hb as [-> | ->]. }
  unfold wal_deserialize. rewrite st_bind_run, E1, st_bind_run. unfold wal_read. rewrite st_bind_run.
  unfold validateDebuggingInfo. rewrite release. cbn [mret stM_ret]. rewrite st_bind_run, E2.
  destruct Hb as [-> | ->].
  { eexists s2, _. split; [reflexivity|]. right. by eexists. }
  change (wal_read_fields (R := Source) (ValueVector := V) (CatalogEntry := C) (PropertyDefinition := P) 254)
    with (mret (M := stM Source) (CheckpointRecord : WALRecord V C P)).
  cbn [mret stM_ret]. rewrite st_bind_run. destruct s2 as [r2|r2]; [by eexists _, _; split; [reflexivity|left]|].
  cbn [onReadEnd Source_objects source_call]. destruct Hin2 as ([Hr2 _] & _ & entry & Eentry & En & Hbuf & _).
  cbn [source_in] in *. cbn [source_remaining source_in rd_remaining source_laws] in R2.
  unfold cr_onObjectEnd. rewrite st_bind_run. cbn [st_get]. rewrite st_bind_run, En. cbn [deref st_lift].
  assert (List.length entry ≤ BUFFER_SIZE) as Hone.
  { apply (f_equal List.length) in Eentry. rewrite Hrem, length_app in Eentry. unfold source_remaining in R2. cbn [source_in] in R2.
    rewrite R2 in Eentry. simpl in Eentry. unfold BUFFER_SIZE. lia. }
  rewrite st_bind_run, bytes_at_ok by lia. cbn [st_lift]. rewrite st_bind_run. unfold on_input at 1, deserializeValue.
  rewrite st_bind_run. cbn [rd_read BufferedFileReader_reader].
  assert (8 ≤ BUFFER_SIZE) as H8 by (unfold BUFFER_SIZE; lia).
  pose proof (bfr_read_total (deserializer r2) 8 Hr2 H8) as Hread2.
  destruct (bfr_read 8 (deserializer r2)) as [r3 [bs|e|]]; cbn [snd] in Hread2.
  - cbn [mret stM_ret]. case_bool_decide; (eexists _, _; split; [reflexivity|]); [by left|right; by eexists].
  - eexists _, _. split; [reflexivity|]. right. by eexists.
  - naive_solver.
Qed.

(** What a crash while the checkpoint record is being written leaves of a log. *)
Lemma torn_checkpoint db l f :
  in_u 128 db → Forall (loggable enableChecksums) l → no_checkpoint l →
  mix (log_file db l []) (log_file db l (frames [CheckpointRecord])) f →
  f = log_file db l [] ∨ (∃ n, dry_run f = ((n, true), Ok ())) ∨
  (∃ tail e, f = log_file db l tail ∧ dry_run f = ((commit_offset enableChecksums db l, false), Throw e)).
Proof.
  intros Hdb Hl Hc [Hlen Hb]. set (F := log_file db l []) in *.
  assert (log_file db l (frames [CheckpointRecord]) = F ++ frames [CheckpointRecord]) as EG.
  { unfold F, WalReplayerFacts.log_file. by rewrite app_nil_r, (assoc_L (++)). }
  rewrite EG in *. rewrite length_app in Hlen.
  assert (f = F ++ drop (List.length F) f) as Ef.
  { rewrite <-(take_drop (List.length F) f) at 1. f_equal. apply file_ext; [rewrite length_take; lia|].
    intros i. destruct (decide (i < List.length F)) as [Hi|Hi].
    - rewrite byte_take by done. specialize (Hb i). rewrite byte_app, bool_decide_true in Hb by done. naive_solver.
    - by rewrite !byte_end by (rewrite ?length_take; lia). }
  set (tail := drop (List.length F) f) in *. destruct tail as [|b tl] eqn:Et; [left; by rewrite app_nil_r in Ef|right].
  assert (f = log_file db l (b :: tl)) as ->.
  { rewrite Ef. unfold F, WalReplayerFacts.log_file. by rewrite app_nil_r, (assoc_L (++)). }
  assert (b = 0%Z ∨ b = 254%Z) as Hbyte.
  { assert (b = byte (log_file db l (b :: tl)) (List.length F)) as ->.
    { rewrite Ef, byte_app, bool_decide_false, Nat.sub_diag by lia. done. }
    destruct (Hb (List.length F)) as [-> | ->]; [left; by rewrite byte_end|right].
    rewrite byte_app, bool_decide_false, Nat.sub_diag by lia.
    unfold Wal.frames. cbn [mbind list_bind]. rewrite app_nil_r. unfold wal_enc, enc_label. rewrite release.
    unfold frame. by destruct enableChecksums. }
  destruct (dry_run_tail allocateBuffer enableChecksums allocateBuffer_size page_size db l (b :: tl) Hdb Hl Hc ltac:(done))
    as (s & fuel & Hs & ->).
  cbn [WalReplayer.dry_loop]. destruct (read_torn _ s b tl Hs Hbyte) as (s' & x & -> & [-> | [e ->]]).
  - left. by eexists.
  - right. by eexists _, _.
Qed.
End Torn.
