(* ===== verification/Checkpointer.v ===== *)
(** * Checkpoints (storage/checkpointer.{h,cpp}, the flushes of
    common/serializer/in_mem_file_writer.cpp)

    A checkpoint moves the log aside, serializes the catalog and the metadata into pages of
    the shadow file, and then makes the shadow file, the checkpoint record and the pages
    of the data file durable in this order.  What the catalog and the tables serialize to
    is a parameter, and so is the phase that checkpoints the tables.  The files durable
    at each point are recorded in [history]. *)

From Stdlib Require Import Ascii String.
From S2P Require Import Prelude.
From S2P Require Import FileHandle.
From S2P Require Import FreeSpace.
From S2P Require Import PageManager.
From S2P Require Import Serializer.
From S2P Require Import SerializerFacts.
From S2P Require Import Serial.
From S2P Require Import FreeSpaceSerial.
From S2P Require Import FreeSpaceSerialTheorems.
From S2P Require Import Checksum.
From S2P Require Import WalRecord.
From S2P Require Import Wal.
From S2P Require Import ShadowFile.
From S2P Require Import ShadowFileFacts.
From S2P Require Import ShadowPending.
From S2P Require Import WalReplayer.
From S2P Require Import WalReplayerFacts.
From S2P Require Import RecoveryFacts.

#[local] Open Scope nat_scope.
#[local] Open Scope list_scope.

Definition DB_HEADER_PAGE_IDX : Z := 0.

Record Checkpoint : Type := mkCkpt {
  ck_wal : WAL;
  ck_shadow : ShadowFile;
  ck_shadowDisk : option (list Z);
  ck_data : list Z;
  ck_pm : PageManager;
  ck_header : DatabaseHeader;          (** of the storage manager *)
  checkpointHeader : DatabaseHeader;
  walRotated : bool;
  pageManagerVersionAtCheckpoint : Z;
  history : list Disk;                 (** latest first *)
}.

Definition ck_disk (c : Checkpoint) : Disk :=
  mkDisk (Some (ck_data c)) (ck_shadowDisk c) (walFile (ck_wal c)) (checkpointWal (ck_wal c)).

Definition durable : stM Checkpoint () :=
  st_modify (λ c, mkCkpt (ck_wal c) (ck_shadow c) (ck_shadowDisk c) (ck_data c) (ck_pm c) (ck_header c)
    (checkpointHeader c) (walRotated c) (pageManagerVersionAtCheckpoint c) (ck_disk c :: history c)).
Definition on_wal {A} (f : stM WAL A) : stM Checkpoint A := λ c,
  let '(w, r) := f (ck_wal c) in
  (mkCkpt w (ck_shadow c) (ck_shadowDisk c) (ck_data c) (ck_pm c) (ck_header c)
     (checkpointHeader c) (walRotated c) (pageManagerVersionAtCheckpoint c) (history c), r).
Definition on_shadow {A} (f : stM ShadowFile A) : stM Checkpoint A := λ c,
  let '(s, r) := f (ck_shadow c) in
  (mkCkpt (ck_wal c) s (ck_shadowDisk c) (ck_data c) (ck_pm c) (ck_header c)
     (checkpointHeader c) (walRotated c) (pageManagerVersionAtCheckpoint c) (history c), r).
Definition on_pm {A} (f : stM PageManager A) : stM Checkpoint A := λ c,
  let '(p, r) := f (ck_pm c) in
  (mkCkpt (ck_wal c) (ck_shadow c) (ck_shadowDisk c) (ck_data c) p (ck_header c)
     (checkpointHeader c) (walRotated c) (pageManagerVersionAtCheckpoint c) (history c), r).
Definition set_shadowDisk (f : option (list Z)) : stM Checkpoint () :=
  st_modify (λ c, mkCkpt (ck_wal c) (ck_shadow c) f (ck_data c) (ck_pm c) (ck_header c)
    (checkpointHeader c) (walRotated c) (pageManagerVersionAtCheckpoint c) (history c)).
Definition set_dataFile (f : list Z) : stM Checkpoint () :=
  st_modify (λ c, mkCkpt (ck_wal c) (ck_shadow c) (ck_shadowDisk c) f (ck_pm c) (ck_header c)
    (checkpointHeader c) (walRotated c) (pageManagerVersionAtCheckpoint c) (history c)).
Definition set_header (h : DatabaseHeader) : stM Checkpoint () :=
  st_modify (λ c, mkCkpt (ck_wal c) (ck_shadow c) (ck_shadowDisk c) (ck_data c) (ck_pm c) h
    (checkpointHeader c) (walRotated c) (pageManagerVersionAtCheckpoint c) (history c)).
Definition set_checkpointHeader (h : DatabaseHeader) : stM Checkpoint () :=
  st_modify (λ c, mkCkpt (ck_wal c) (ck_shadow c) (ck_shadowDisk c) (ck_data c) (ck_pm c) (ck_header c)
    h (walRotated c) (pageManagerVersionAtCheckpoint c) (history c)).

Section Checkpointer.
Context `{PageConfig} `{DeserDebug}.
Context {V C P : Type} `{Payload V, Payload C, Payload P}.
Variable garbage : list Z.
Variable allocateBuffer : nat → list Z.
Variable enableChecksums : bool.
Variable storageVersion : Z.
Variable pin : Z → stM PageFile ().
Variable madvise : Z → result ().
(** The index of the data file in the buffer manager. *)
Variable dataFileIdx : Z.
(** What [catalog.serialize] and [storageManager.serialize] write, and whether the
    catalog has changed since the last checkpoint. *)
Variable catalog_serialize : ∀ {W} `{Writer W}, stM W ().
Variable storage_serialize : ∀ {W} `{Writer W}, stM W ().
Variable catalogChanged : bool.

#[local] Hint Extern 0 (Writer InMemFileWriter) => exact (InMemFileWriter_writer garbage) : typeclass_instances.

(** [InMemFileWriter::flush(PageAllocator&, ShadowFile&)] *)
Definition flush_allocating (w : InMemFileWriter) : stM Checkpoint PageRange :=
  pageRange ← on_pm (allocatePageRange pin (Z.of_nat (getNumPagesToFlush w)));
  _ ← on_shadow (flush_to_pages garbage dataFileIdx (startPageIdx pageRange) (numPages pageRange) w);
  mret pageRange.

(** A serialization into a new in-memory writer. *)
Definition written (f : stM InMemFileWriter ()) (w : InMemFileWriter) : stM Checkpoint InMemFileWriter :=
  let '(w, r) := f w in _ ← st_lift r; mret w.

Definition serializeCatalog : stM Checkpoint PageRange :=
  catalogWriter ← written catalog_serialize (mkIMW [] 0);
  flush_allocating catalogWriter.

Definition serializeMetadata : stM Checkpoint PageRange :=
  metadataWriter ← written storage_serialize (mkIMW [] 0);
  c ← st_get;
  let pagesForPageManager := getMaxNumPagesForSerialization (freeSpaceManager (ck_pm c)) in
  allocatedPages ← on_pm (allocatePageRange pin
    (wrap 32 (Z.of_nat (getNumPagesToFlush metadataWriter) + pagesForPageManager)));
  c ← st_get;
  metadataWriter ← written (fsm_serialize (freeSpaceManager (ck_pm c))) metadataWriter;
  _ ← on_shadow (flush_to_pages garbage dataFileIdx (startPageIdx allocatedPages) (numPages allocatedPages) metadataWriter);
  mret allocatedPages.

Definition serializeCatalogAndMetadata (hasStorageChanges : bool) (h : DatabaseHeader) : stM Checkpoint DatabaseHeader :=
  h ← (if bool_decide (startPageIdx (catalogPageRange h) = INVALID_PAGE_IDX) || catalogChanged then
         newPageRange ← serializeCatalog;
         on_pm (updateCatalogPageRange newPageRange h)
       else mret h);
  c ← st_get;
  if bool_decide (startPageIdx (metadataPageRange h) = INVALID_PAGE_IDX) || hasStorageChanges || catalogChanged
     || changedSinceLastCheckpoint (ck_pm c)
  then
    _ ← on_pm (freeMetadataPageRange h);
    r ← serializeMetadata;
    mret (mkHeader (catalogPageRange h) r (dataFileNumPages h) (databaseID h))
  else mret h.

Definition writeDatabaseHeader (header : DatabaseHeader) : stM Checkpoint () :=
  headerWriter ← written (header_serialize storageVersion header) (mkIMW [] 0);
  headerPage ← st_lift (deref (pages headerWriter !! 0));
  _ ← on_shadow (updatePage garbage dataFileIdx DB_HEADER_PAGE_IDX true [] (λ _, headerPage));
  set_header header.

Definition logCheckpointAndApplyShadowPages : stM Checkpoint () :=
  c ← st_get;
  shadow ← st_lift (flushAll garbage (databaseID (ck_header c)) (ck_shadow c) (default [] (ck_shadowDisk c)));
  _ ← set_shadowDisk (Some shadow);
  _ ← durable;
  _ ← (if walRotated c then on_wal (logAndFlushCheckpointToFrozen (V := V) (C := C) (P := P) allocateBuffer enableChecksums)
       else on_wal (logAndFlushCheckpoint (V := V) (C := C) (P := P) allocateBuffer enableChecksums (databaseID (ck_header c))));
  _ ← durable;
  let '(data, r) := applyShadowPages (ck_shadow c) shadow (ck_data c) in
  _ ← set_dataFile data;
  _ ← st_lift r;
  _ ← durable;
  _ ← (if walRotated c then mret () else (_ ← on_wal wal_clear; durable));
  _ ← on_shadow (st_modify (clear garbage));
  _ ← set_shadowDisk (Some []);
  durable.

Definition beginCheckpoint : stM Checkpoint () :=
  rotated ← on_wal (rotateForCheckpoint false);
  _ ← st_modify (λ c, mkCkpt (ck_wal c) (ck_shadow c) (ck_shadowDisk c) (ck_data c) (ck_pm c) (ck_header c)
         (ck_header c) rotated (version (ck_pm c)) (history c));
  durable.

Definition finishCheckpoint (hasStorageChanges : bool) : stM Checkpoint () :=
  c ← st_get;
  h ← serializeCatalogAndMetadata hasStorageChanges (checkpointHeader c);
  c ← st_get;
  let h := mkHeader (catalogPageRange h) (metadataPageRange h) (fhNumPages (fh (fileHandle (ck_pm c)))) (databaseID h) in
  _ ← set_checkpointHeader h;
  _ ← writeDatabaseHeader h;
  logCheckpointAndApplyShadowPages.

Definition postCheckpointCleanup : stM Checkpoint () :=
  _ ← on_pm (pm_finalizeCheckpoint madvise);
  c ← st_get;
  _ ← on_pm (st_modify (resetVersion (pageManagerVersionAtCheckpoint c)));
  _ ← (if walRotated c then on_wal (st_modify clearFrozenWAL) else on_wal (st_modify wal_reset));
  _ ← durable;
  _ ← on_shadow (st_modify reset);
  _ ← set_shadowDisk None;
  durable.

Definition rollback : stM Checkpoint () := on_pm pm_rollbackCheckpoint.
End Checkpointer.

(** * The durable states of a checkpoint

    The files that the last phase of a checkpoint goes through, and that whatever a crash
    leaves of them opens as the same database. *)

#[local] Open Scope nat_scope.
#[local] Open Scope list_scope.

(** ** Crashes *)

(** A file after a crash during a step: as before, as after, or with the step's write
    half done; removing and renaming a file are atomic. *)
Definition torn_file (before after file : option (list Z)) : Prop :=
  file = before ∨ file = after ∨
  ∃ new f, after = Some new ∧ file = Some f ∧ mix (default [] before) new f.

Record torn_disk (before after d : Disk) : Prop := {
  torn_data : torn_file (data_file before) (data_file after) (data_file d);
  torn_shadow : torn_file (shadow_file before) (shadow_file after) (shadow_file d);
  torn_wal : torn_file (wal_file before) (wal_file after) (wal_file d);
  torn_frozen : torn_file (frozen_wal before) (frozen_wal after) (frozen_wal d);
}.

(** The disks a crash can leave of a history, latest first. *)
Inductive crashed : list Disk → Disk → Prop :=
| crash_step before after l d : torn_disk before after d → crashed (after :: before :: l) d
| crash_earlier after l d : crashed l d → crashed (after :: l) d.

Lemma crashed_cons before after l d : crashed (after :: before :: l) d → torn_disk before after d ∨ crashed (before :: l) d.
Proof. inversion 1; auto. Qed.
Lemma crashed_one x d : ¬ crashed [x] d.
Proof. inversion 1 as [|? ? ? Hx]; inversion Hx. Qed.

Lemma torn_file_same f g : torn_file f f g → g = f ∨ ∃ h, f = Some h ∧ g = Some h.
Proof.
  intros [->|[->|(new & h & -> & -> & [Hl Hb])]]; [by left|by left|right]. simpl in *. exists new. split; [done|]. f_equal.
  apply file_ext; [lia|]. intros i. by destruct (Hb i).
Qed.

Lemma torn_file_eq f g : torn_file f f g → g = f.
Proof. intros [->|(h & -> & ->)]%torn_file_same; done. Qed.

Lemma torn_disk_eq d1 d2 d :
  torn_disk d1 d2 d →
  (data_file d1 = data_file d2 → data_file d = data_file d1) ∧
  (shadow_file d1 = shadow_file d2 → shadow_file d = shadow_file d1) ∧
  (wal_file d1 = wal_file d2 → wal_file d = wal_file d1) ∧
  (frozen_wal d1 = frozen_wal d2 → frozen_wal d = frozen_wal d1).
Proof.
  intros [Hd Hs Hw Hz].
  split_and!; intros E; rewrite <-E in *; by apply torn_file_eq.
Qed.

(** One step on a checkpoint whose fields are known. *)
Ltac ck_step :=
  rewrite ?st_bind_run;
  cbn [set_shadowDisk set_dataFile set_header set_checkpointHeader durable on_shadow on_pm on_wal
       st_get st_put st_modify st_lift st_throw mret stM_ret
       ck_wal ck_shadow ck_shadowDisk ck_data ck_pm ck_header checkpointHeader walRotated
       pageManagerVersionAtCheckpoint history].

Section Phases.
Context `{PageConfig} `{DeserDebug}.
Context {V C P : Type} `{PayloadLaws V, PayloadLaws C, PayloadLaws P}.
Variable garbage : list Z.
Variable allocateBuffer : nat → list Z.
Variable enableChecksums : bool.
Variable fileIdx : Z.
Hypothesis garbage_page : List.length garbage = BUFFER_SIZE.
Hypothesis allocateBuffer_size : ∀ n, List.length (allocateBuffer n) = n.
Hypothesis page_size : (64 ≤ LBUG_PAGE_SIZE < 2 ^ 29)%Z.

#[local] Abbreviation frames := (frames (V := V) (C := C) (P := P) enableChecksums).

(** Ready for its last phase: the log has been rotated, the shadow file in memory holds
    every page changed. *)
Record ready (c : Checkpoint) (frozen : list Z) : Prop := {
  rd_rotated : walRotated c = true;
  rd_frozen : checkpointWal (ck_wal c) = Some frozen;
  rd_small : small frozen;
  rd_inv : shadow_inv fileIdx (ck_shadow c);
  rd_open : is_Some (shadowingFH (ck_shadow c));
  rd_count : (Z.of_nat (List.length (shadowPageRecords (ck_shadow c))) + 1 < 2 ^ 32)%Z;
  rd_disk : List.length (default [] (ck_shadowDisk c)) ≤ List.length (shadow_pages garbage (ck_shadow c)) * BUFFER_SIZE;
}.

Definition ck_image (c : Checkpoint) : list Z :=
  shadow_image garbage (databaseID (ck_header c)) (shadow_pages garbage (ck_shadow c)) (shadowPageRecords (ck_shadow c)).
Definition ck_installed (c : Checkpoint) : list Z :=
  overwrite (ck_image c) 1 (shadowPageRecords (ck_shadow c)) (ck_data c).

Lemma checkpoint_loggable : loggable (V := V) (C := C) (P := P) enableChecksums CheckpointRecord.
Proof.
  split; [done|]. intros _. pose proof (checkpoint_length (V := V) (C := C) (P := P)). unfold BUFFER_SIZE. lia.
Qed.

(** The shadow file, the checkpoint record, the pages, the shadow file emptied. *)
Lemma logCheckpointAndApplyShadowPages_ok c frozen :
  ready c frozen →
  ∃ c', logCheckpointAndApplyShadowPages (V := V) (C := C) (P := P) garbage allocateBuffer enableChecksums c = (c', Ok ()) ∧
    let a := walFile (ck_wal c) in
    let logged := frozen ++ frames [CheckpointRecord] in
    history c' =
      mkDisk (Some (ck_installed c)) (Some []) a (Some logged) ::
      mkDisk (Some (ck_installed c)) (Some (ck_image c)) a (Some logged) ::
      mkDisk (Some (ck_data c)) (Some (ck_image c)) a (Some logged) ::
      mkDisk (Some (ck_data c)) (Some (ck_image c)) a (Some frozen) :: history c ∧
    ck_pm c' = ck_pm c ∧ ck_data c' = ck_installed c ∧ walRotated c' = true ∧ ck_shadowDisk c' = Some [] ∧
    walFile (ck_wal c') = a ∧ checkpointWal (ck_wal c') = Some logged.
Proof.
  destruct c as [w sf sd data pm h ch rot pv hist]. intros [Hrot Hfr Hsmall Hinv Hopen Hcount Hdisk].
  unfold ck_installed, ck_image. cbn [ck_wal ck_shadow ck_shadowDisk ck_data ck_header ck_pm walRotated history] in *. subst rot.
  unfold logCheckpointAndApplyShadowPages. rewrite st_bind_run. cbn [st_get]. ck_step.
  rewrite (flushAll_image garbage fileIdx garbage_page ltac:(lia) (databaseID h) sf) by done.
  set (image := shadow_image _ _ _ _). set (installed := overwrite _ _ _ _). do 2 ck_step.
  rewrite st_bind_run. unfold on_wal at 1. cbn [ck_wal].
  rewrite (logAndFlushCheckpointToFrozen_ok garbage allocateBuffer enableChecksums garbage_page allocateBuffer_size w frozen)
    by first [done|apply checkpoint_loggable].
  ck_step. unfold image at 1.
  rewrite (apply_image garbage fileIdx garbage_page ltac:(lia) (databaseID h) sf) by done. fold image. fold installed.
  do 6 ck_step. unfold ck_disk, walFile. cbn [ck_wal ck_shadowDisk ck_data serializer closedFile checkpointWal].
  rewrite Hfr. eexists. split; [reflexivity|]. by split_and!.
Qed.

(** The frozen log removed, the shadow file removed. *)
Lemma postCheckpointCleanup_ok madvise c pm :
  walRotated c = true → pm_finalizeCheckpoint madvise (ck_pm c) = (pm, Ok ()) →
  ∃ c', postCheckpointCleanup madvise c = (c', Ok ()) ∧
    history c' =
      mkDisk (Some (ck_data c)) None (walFile (ck_wal c)) None ::
      mkDisk (Some (ck_data c)) (ck_shadowDisk c) (walFile (ck_wal c)) None :: history c.
Proof.
  destruct c as [w sf sd data p h ch rot pv hist]. cbn [walRotated ck_pm]. intros -> Hpm.
  unfold postCheckpointCleanup. rewrite st_bind_run. unfold on_pm at 1. cbn [ck_pm]. rewrite Hpm.
  do 7 ck_step. eexists. split; [reflexivity|]. done.
Qed.

(** ** Recovery after a crash *)

Section Crash.
Context {D : Type} `{Database V C P D}.
Variable storageVersion randomUUID : Z.
Variables walPath checkpointWalPath shadowFilePath : string.
Variable throwOnWalReplayFailure : bool.
Hypothesis version_word : (0 ≤ storageVersion < 2 ^ 64)%Z.
Hypothesis large_page : (256 ≤ LBUG_PAGE_SIZE)%Z.
Hypothesis release : DESER_DEBUG = false.

#[local] Abbreviation recovered := (recovered (V := V) (C := C) (P := P) (D := D) garbage allocateBuffer storageVersion
  randomUUID walPath checkpointWalPath shadowFilePath throwOnWalReplayFailure enableChecksums).
#[local] Abbreviation log_file := (log_file (V := V) (C := C) (P := P) enableChecksums).

(** A checkpoint in its last phase; the database recovers to [d'] both from the data file
    as it is with the frozen log and the active log [a], and from the data file the
    checkpoint installs with the active log alone. *)
Variable c : Checkpoint.
Variable db : Z.
Variable l : list (WALRecord V C P).
Variable a : option (list Z).
Variable la : list (WALRecord V C P).
Variable h0 h1 : DatabaseHeader.
Variable d d' : D.
Hypothesis is_ready : ready c (log_file db l []).
Hypothesis db_word : in_u 128 db.
Hypothesis db_id : databaseID (ck_header c) = db.
Hypothesis db_id0 : databaseID h0 = db.
Hypothesis db_id1 : databaseID h1 = db.
Hypothesis l_loggable : Forall (loggable enableChecksums) l.
Hypothesis l_records : no_checkpoint l.
Hypothesis a_log : active_log (V := V) (C := C) (P := P) allocateBuffer throwOnWalReplayFailure enableChecksums db a la.
Hypothesis old_headed : headed storageVersion (ck_data c) h0.
Hypothesis new_headed : headed storageVersion (ck_installed c) h1.
Hypothesis old_opens : opens h0 (ck_data c) (committed l ++ la) d d'.
Hypothesis new_opens : opens h1 (ck_installed c) la d d'.

Let frozen : list Z := log_file db l [].
Let logged : list Z := frozen ++ frames [CheckpointRecord].

Lemma recover_unlogged dk tail :
  data_file dk = Some (ck_data c) → frozen_wal dk = Some (log_file db l tail) →
  dryReplay (V := V) (C := C) (P := P) allocateBuffer throwOnWalReplayFailure enableChecksums (log_file db l tail) =
    Ok (commit_offset enableChecksums db l, false) →
  recovered d d' (set_wal a dk) (ck_data c).
Proof.
  intros Hd Hz Hdry. subst db. rewrite <-db_id0 in *.
  destruct (headed_reads storageVersion version_word (ck_data c) h0 old_headed) as [Hh _].
  apply (recover_frozen garbage allocateBuffer storageVersion randomUUID walPath checkpointWalPath shadowFilePath
           throwOnWalReplayFailure enableChecksums) with (h := h0) (l := l) (tail := tail) (a := a) (la := la); try done; lia.
Qed.

Lemma recover_logged dk data h n file :
  data_file dk = Some data → headed storageVersion data h → databaseID h = db →
  overwrite (ck_image c) 1 (shadowPageRecords (ck_shadow c)) data = ck_installed c →
  shadow_file dk = Some (ck_image c) → frozen_wal dk = Some file → file ≠ [] →
  dryReplay (V := V) (C := C) (P := P) allocateBuffer throwOnWalReplayFailure enableChecksums file = Ok (n, true) →
  recovered d d' (set_wal a dk) (ck_installed c).
Proof.
  intros Hd Hh Hid Hinst Hs Hz Hne Hdry.
  destruct (headed_reads storageVersion version_word data h Hh) as [_ Hread].
  destruct (headed_reads storageVersion version_word (ck_installed c) h1 new_headed) as [Hh1 _].
  pose proof (rd_inv _ _ is_ready) as Hinv. pose proof (rd_count _ _ is_ready) as Hcount.
  destruct (pages_cons garbage fileIdx garbage_page 0 (ck_shadow c) Hinv) as (p0 & ps & Eps & Hfull & Hn).
  pose proof Hinv as [[_ Hwords] _ _].
  rewrite <-Hinst in Hh1 |- *. pose proof new_opens as Hopens. rewrite <-Hinst in Hopens.
  apply (recover_checkpointed garbage allocateBuffer storageVersion randomUUID walPath checkpointWalPath shadowFilePath
           throwOnWalReplayFailure enableChecksums) with (p0 := p0) (ps := ps) (h0 := h) (h := h1) (file := file) (n := n)
           (a := a) (la := la); try done; try congruence; try lia.
  unfold ck_image. by rewrite Eps, db_id, db_id1.
Qed.

Lemma recover_applied dk :
  data_file dk = Some (ck_installed c) → frozen_wal dk = None → recovered d d' (set_wal a dk) (ck_installed c).
Proof.
  intros Hd Hz. destruct (headed_reads storageVersion version_word (ck_installed c) h1 new_headed) as [Hh1 _].
  apply (recover_active garbage allocateBuffer storageVersion randomUUID walPath checkpointWalPath shadowFilePath
           throwOnWalReplayFailure enableChecksums) with (h := h1) (a := a) (la := la); try done; congruence || lia.
Qed.

Lemma installed_again data :
  mix (ck_data c) (ck_installed c) data → overwrite (ck_image c) 1 (shadowPageRecords (ck_shadow c)) data = ck_installed c.
Proof.
  intros [Hl Hb]. pose proof (image_big garbage fileIdx garbage_page ltac:(lia) (databaseID (ck_header c)) (ck_shadow c)
    (rd_inv _ _ is_ready)) as Hbig. fold (ck_image c) in Hbig.
  pose proof (overwrite_is_torn (ck_image c) (shadowPageRecords (ck_shadow c)) (ck_data c) ltac:(lia)) as [Hl1 Hb1].
  fold (ck_installed c) in Hl1, Hb1. apply overwrite_torn; [lia|]. split; [lia|].
  intros o Ho. destruct (Hb o) as [E|E]; rewrite E; [done|by apply Hb1].
Qed.

Lemma logged_log_file : logged = log_file db l (frames [CheckpointRecord]).
Proof. unfold logged, frozen, WalReplayerFacts.log_file. by rewrite app_nil_r, (assoc_L (++)). Qed.

Lemma dry_frozen :
  dryReplay (V := V) (C := C) (P := P) allocateBuffer throwOnWalReplayFailure enableChecksums frozen =
  Ok (commit_offset enableChecksums db l, false).
Proof. apply dryReplay_committed; try done; [lia|by left]. Qed.

Lemma dry_logged : ∃ n,
  dryReplay (V := V) (C := C) (P := P) allocateBuffer throwOnWalReplayFailure enableChecksums logged = Ok (n, true).
Proof.
  rewrite logged_log_file, <-(app_nil_r (frames _)). unfold dryReplay.
  rewrite dry_run_checkpoint by first [done|lia|apply checkpoint_loggable]. by eexists.
Qed.

(** The log after a crash during the checkpoint record. *)
Lemma dry_torn f :
  mix frozen logged f →
  (∃ tail, f = log_file db l tail ∧
     dryReplay (V := V) (C := C) (P := P) allocateBuffer throwOnWalReplayFailure enableChecksums f =
     Ok (commit_offset enableChecksums db l, false)) ∨
  (f ≠ [] ∧ ∃ n, dryReplay (V := V) (C := C) (P := P) allocateBuffer throwOnWalReplayFailure enableChecksums f = Ok (n, true)) ∨
  (throwOnWalReplayFailure = true ∧ f ≠ [] ∧ f ≠ frozen ∧ f ≠ logged ∧
   ∃ e, dryReplay (V := V) (C := C) (P := P) allocateBuffer throwOnWalReplayFailure enableChecksums f = Throw e).
Proof.
  intros Hm. rewrite logged_log_file in Hm.
  assert (f ≠ []) as Hne.
  { destruct Hm as [Hl _]. rewrite <-logged_log_file in Hl. unfold logged in Hl. rewrite length_app in Hl.
    intros ->. unfold frozen in Hl. pose proof (log_file_ne enableChecksums db l []) as Hn.
    destruct (log_file db l []); [done|simpl in *; lia]. }
  pose proof dry_frozen as Hdf. destruct dry_logged as [n Hdl].
  assert (64 ≤ LBUG_PAGE_SIZE < 2 ^ 32)%Z as Hps by lia.
  destruct (torn_checkpoint allocateBuffer enableChecksums allocateBuffer_size Hps release db l f)
    as [-> |[[k E]|(tail & e & -> & E)]]; try done.
  - left. exists []. done.
  - right. left. split; [done|]. exists k. unfold dryReplay. by rewrite E.
  - assert (dryReplay (V := V) (C := C) (P := P) allocateBuffer throwOnWalReplayFailure enableChecksums (log_file db l tail) =
      if throwOnWalReplayFailure then Throw e else Ok (commit_offset enableChecksums db l, false)) as Ed
      by (unfold dryReplay; rewrite E; by destruct throwOnWalReplayFailure).
    destruct throwOnWalReplayFailure; [|left; by exists tail].
    right. right. split_and!; [done|done| | |by exists e]; intros Ef; rewrite Ef in Ed; congruence.
Qed.

(** A half-written checkpoint record under the default setting: opening throws and leaves
    the files as they are. *)
Definition refused (dk : Disk) : Prop :=
  throwOnWalReplayFailure = true ∧ (∃ f, frozen_wal dk = Some f ∧ f ≠ frozen ∧ f ≠ logged) ∧
  ∃ st e, replay_disk (V := V) (C := C) (P := P) (D := D) garbage allocateBuffer storageVersion randomUUID walPath
            checkpointWalPath shadowFilePath throwOnWalReplayFailure enableChecksums (mkRec dk None d) = (st, Throw e) ∧
          disk st = dk.

Lemma crash_recovers sd w0 w1 dk :
  crashed [mkDisk (Some (ck_installed c)) None w1 None;
           mkDisk (Some (ck_installed c)) (Some []) w1 None;
           mkDisk (Some (ck_installed c)) (Some []) w0 (Some logged);
           mkDisk (Some (ck_installed c)) (Some (ck_image c)) w0 (Some logged);
           mkDisk (Some (ck_data c)) (Some (ck_image c)) w0 (Some logged);
           mkDisk (Some (ck_data c)) (Some (ck_image c)) w0 (Some frozen);
           mkDisk (Some (ck_data c)) sd w0 (Some frozen)] dk →
  (frozen_wal dk = Some logged → shadow_file dk = Some (ck_image c)) →
  (∃ file, recovered d d' (set_wal a dk) file) ∨ refused (set_wal a dk).
Proof.
  intros Hcr Hwin.
  destruct dry_logged as [n Hlog]. assert (logged ≠ []) as Hlne.
  { rewrite logged_log_file. apply log_file_ne. }
  repeat (apply crashed_cons in Hcr as [Hcr|Hcr]); [..|by apply crashed_one in Hcr];
    match goal with Hx : torn_disk _ _ _ |- _ =>
      pose proof (torn_disk_eq _ _ _ Hx) as (Ed & Es & _ & Ez); destruct Hx as [Td Ts _ Tz] end;
    cbn [data_file shadow_file wal_file frozen_wal] in *.
  - (* removing the shadow file *) left. eexists. apply recover_applied; auto.
  - (* removing the frozen log *)
    destruct Tz as [Tz|[Tz|(? & ? & ? & _)]]; [|left; eexists; apply recover_applied; auto|done].
    specialize (Hwin Tz). rewrite (Es eq_refl) in Hwin. exfalso. injection Hwin as Hwin.
    pose proof (image_big garbage fileIdx garbage_page ltac:(lia) (databaseID (ck_header c)) (ck_shadow c)
      (rd_inv _ _ is_ready)) as Hbig. fold (ck_image c) in Hbig. rewrite <-Hwin in Hbig. unfold BUFFER_SIZE in Hbig. simpl in Hbig. lia.
  - (* emptying the shadow file *)
    left. eexists. apply (recover_logged dk (ck_installed c) h1 n logged); auto. apply installed_again, mix_new.
  - (* writing the pages *)
    assert (∃ data, data_file dk = Some data ∧ mix (ck_data c) (ck_installed c) data) as (data & Hd & Hm).
    { destruct Td as [Td|[Td|(new & f & [= <-] & Td & Hm)]]; [by eexists; split; [|apply mix_old]|by eexists; split; [|apply mix_new]|by eexists]. }
    destruct (mix_headed storageVersion large_page (ck_data c) (ck_installed c) h0 h1 data) as (h & Hh & Hid); [done..|congruence|done|].
    left. eexists. apply (recover_logged dk data h n logged); auto using installed_again; congruence.
  - (* writing the checkpoint record *)
    assert (∃ f, frozen_wal dk = Some f ∧ mix frozen logged f) as (f & Hz & Hm).
    { destruct Tz as [Tz|[Tz|(new & f & [= <-] & Tz & Hm)]]; [by eexists; split; [|apply mix_old]|by eexists; split; [|apply mix_new]|by eexists]. }
    destruct (dry_torn f Hm) as [(tail & -> & Hdry)|[[Hne [k Hdry]]|(Ht & Hne & Hf1 & Hf2 & e & Hdry)]].
    + left. eexists. apply (recover_unlogged dk tail); auto.
    + left. eexists. apply (recover_logged dk (ck_data c) h0 k f); auto.
    + right. split; [done|]. split; [exists f; by destruct dk|]. eexists _, e. split.
      * apply recover_refused_frozen with (log := f); [by destruct dk|done|done].
      * done.
  - (* writing the shadow file *)
    left. eexists. apply (recover_unlogged dk []); auto. apply dry_frozen.
Qed.
End Crash.
End Phases.
