(* ===== verification/RecoveryTheorems.v ===== *)
(** * The log, the shadow file and recovery: what they guarantee

    Committed transactions are recovered from the log; a corrupted log is refused or cut
    back; the shadow file installs exactly the pages a checkpoint changed; a crash in the
    last phase of a checkpoint loses nothing. *)

From Stdlib Require Import Ascii String.
From S2P Require Import Prelude.
From S2P Require Import FileHandle.
From S2P Require Import FreeSpace.
From S2P Require Import PageManager.
From S2P Require Import Serializer.
From S2P Require Import SerializerFacts.
From S2P Require Import Serial.
From S2P Require Import FreeSpaceSerial.
From S2P Require Import Checksum.
From S2P Require Import WalRecord.
From S2P Require Import Wal.
From S2P Require Import ShadowFile.
From S2P Require Import ShadowFileFacts.
From S2P Require Import ShadowPending.
From S2P Require Import WalReplayer.
From S2P Require Import WalReplayerFacts.
From S2P Require Import RecoveryFacts.
From S2P Require Import Checkpointer.

#[local] Open Scope nat_scope.
#[local] Open Scope list_scope.

(** ** Committed transactions *)

Section Commits.
Context `{PageConfig} `{DeserDebug}.
Context {V C P : Type} `{PayloadLaws V, PayloadLaws C, PayloadLaws P}.
Variable garbage : list Z.
Variable allocateBuffer : nat → list Z.
Variable enableChecksums : bool.
Hypothesis garbage_page : List.length garbage = BUFFER_SIZE.
Hypothesis allocateBuffer_size : ∀ n, List.length (allocateBuffer n) = n.
Hypothesis page_size : (64 ≤ LBUG_PAGE_SIZE < 2 ^ 32)%Z.

#[local] Hint Extern 0 (Writer InMemFileWriter) => exact (InMemFileWriter_writer garbage) : typeclass_instances.
#[local] Abbreviation loggable := (loggable (V := V) (C := C) (P := P) enableChecksums).
#[local] Abbreviation frames := (frames (V := V) (C := C) (P := P) enableChecksums).
#[local] Abbreviation log_file := (log_file (V := V) (C := C) (P := P) enableChecksums).

(** What a write transaction logs between its begin and its commit. *)
Definition transaction (records : list (WALRecord V C P)) : list (WALRecord V C P) :=
  BeginTransactionRecord :: records ++ [CommitRecord].

(** Transactions that log their records and commit one after the other. *)
Fixpoint commit_all (db : Z) (txs : list (list (WALRecord V C P))) : stM WAL () :=
  match txs with
  | [] => mret ()
  | records :: txs =>
      let '(localWAL, r) := add_records allocateBuffer (transaction records) (newLocalWAL allocateBuffer enableChecksums) in
      _ ← st_lift r;
      _ ← logCommittedWAL allocateBuffer enableChecksums false db localWAL;
      commit_all db txs
  end.

Definition tx_ok (records : list (WALRecord V C P)) : Prop := Forall loggable records ∧ no_checkpoint records.

Lemma transaction_ok records : tx_ok records → Forall loggable (transaction records) ∧ no_checkpoint (transaction records).
Proof.
  clear garbage_page allocateBuffer_size.
  assert (∀ r : WALRecord V C P, recordType r = 1 ∨ recordType r = 2 → enc_fields r = [] → record_ok r → loggable r)%Z as Hshort.
  { intros r Ht Hf Hr. split; [done|]. intros _. unfold wal_enc. rewrite Hf, app_nil_r, length_app, length_bytes_of.
    unfold enc_label, enc_string, BUFFER_SIZE. destruct DESER_DEBUG; rewrite ?length_app, ?length_bytes_of, ?length_bytes_of_string; simpl; lia. }
  intros [Hl Hc]. unfold transaction, no_checkpoint. rewrite !Forall_cons, !Forall_app, !Forall_cons.
  repeat match goal with
  | |- loggable _ => apply Hshort; auto
  | |- _ ∧ _ => split
  | |- _ => done
  end.
Qed.

Lemma transactions_ok txs :
  Forall tx_ok txs → Forall loggable (txs ≫= transaction) ∧ no_checkpoint (txs ≫= transaction) ∧
    committed (txs ≫= transaction) = txs ≫= transaction.
Proof.
  clear garbage_page allocateBuffer_size.
  unfold no_checkpoint. induction 1 as [|records txs Hr _ (IHl & IHc & IHm)]; [done|].
  destruct (transaction_ok records Hr) as [Hl Hc]. cbn [mbind list_bind]. rewrite !Forall_app. split_and!; [done..|].
  rewrite committed_app, IHm. destruct (txs ≫= transaction) eqn:E.
  - rewrite app_nil_r. unfold transaction. apply (committed_app_commit (BeginTransactionRecord :: records)).
  - done.
Qed.

Lemma commit_all_ok db txs l w :
  wal_ok enableChecksums w → log_base enableChecksums db w = log_file db l [] → Forall tx_ok txs → txs ≠ [] →
  small (log_file db (l ++ (txs ≫= transaction)) []) →
  ∃ w', commit_all db txs w = (w', Ok ()) ∧ wal_ok enableChecksums w' ∧
    walFile w' = Some (log_file db (l ++ (txs ≫= transaction)) []) ∧ checkpointWal w' = checkpointWal w.
Proof.
  intros Hw Hb Htx. revert l w Hw Hb. induction Htx as [|records txs Hr Htx IH]; intros l w Hw Hb Hne Hsmall; [done|].
  destruct (transaction_ok records Hr) as [Hl Hc]. cbn [commit_all mbind list_bind] in *.
  destruct (newLocalWAL_ok garbage allocateBuffer enableChecksums garbage_page allocateBuffer_size) as [Hk Hempty].
  unfold small in *. rewrite (log_file_length enableChecksums), (assoc_L (++)), !frames_app, !length_app in Hsmall.
  destruct (add_records_ok (H8 := InMemFileWriter_laws garbage garbage_page) garbage allocateBuffer enableChecksums
              garbage_page (newLocalWAL allocateBuffer enableChecksums) (transaction records) Hk Hl)
    as (local & E & [[[Hlk _] _] _] & Hcont); [|].
  { cbn [wr_contents InMemFileWriter_laws wr_cap]. rewrite Hempty.
    cbn [List.length]. lia. }
  cbn [wr_contents InMemFileWriter_laws] in Hcont. rewrite Hempty, app_nil_l in Hcont.
  rewrite E, st_bind_run. cbn [st_lift].
  assert (imw_contents (sink_out local) ≠ []) as Hnz.
  { rewrite Hcont. intros En%(f_equal List.length). pose proof (frames_length enableChecksums (transaction records)) as Hf.
    unfold transaction in Hf at 1. simpl in *. lia. }
  rewrite st_bind_run.
  destruct (logCommittedWAL_ok garbage allocateBuffer enableChecksums garbage_page allocateBuffer_size page_size db w local)
    as (w1 & -> & Hw1 & Hf1 & Hz1); try done.
  { unfold small. rewrite Hb, (log_file_length enableChecksums). lia. }
  { unfold small. rewrite Hcont. lia. }
  assert (log_base enableChecksums db w ++ imw_contents (sink_out local) = log_file db (l ++ transaction records) []) as Elog.
  { rewrite Hb, Hcont. unfold WalReplayerFacts.log_file. by rewrite !app_nil_r, <-(assoc_L (++)), <-frames_app. }
  rewrite Elog in Hf1.
  assert (log_base enableChecksums db w1 = log_file db (l ++ transaction records) []) as Hb1.
  { unfold log_base. rewrite Hf1. pose proof (log_file_ne enableChecksums db (l ++ transaction records) []).
    by destruct (log_file db (l ++ transaction records) []). }
  rewrite (assoc_L (++)). destruct txs as [|tx txs].
  - cbn [mbind list_bind commit_all]. rewrite app_nil_r. by exists w1.
  - rewrite <-Hz1. apply (IH _ w1); [done..|]. rewrite (log_file_length enableChecksums), <-(assoc_L (++)), !frames_app, !length_app. lia.
Qed.
End Commits.

(** ** Recovery from the log *)

Section Recovery.
Context `{PageConfig} `{DeserDebug}.
Context {V C P D : Type} `{PayloadLaws V, PayloadLaws C, PayloadLaws P} `{Database V C P D}.
Variable garbage : list Z.
Variable allocateBuffer : nat → list Z.
Variable storageVersion randomUUID : Z.
Variables walPath checkpointWalPath shadowFilePath : string.
Variable throwOnWalReplayFailure enableChecksums : bool.
Hypothesis garbage_page : List.length garbage = BUFFER_SIZE.
Hypothesis allocateBuffer_size : ∀ n, List.length (allocateBuffer n) = n.
Hypothesis page_size : (64 ≤ LBUG_PAGE_SIZE < 2 ^ 32)%Z.

#[local] Abbreviation log_file := (log_file (V := V) (C := C) (P := P) enableChecksums).
#[local] Abbreviation replay_disk := (replay_disk (V := V) (C := C) (P := P) (D := D) garbage allocateBuffer storageVersion
  randomUUID walPath checkpointWalPath shadowFilePath throwOnWalReplayFailure enableChecksums).

(** C2: Transactions that commit into a new log are recovered.  Each of their records is one
    the log can hold: its fields fit their types and, with checksums, it fits one page
    ([loggable]; a larger one is written damaged).  Behind them the log may go on with
    whole records of an append that did not reach its commit record, and then end, or end
    in bytes whose first record raises an exception when it is read; a crash may also have
    left any shadow file.  If it ends with a whole record, or if failures of the replay are
    tolerated, opening the database loads the data file, replays the records of the committed
    transactions in order, and cuts the rest off the log.  If it ends in an unreadable record
    and failures are not tolerated, the default, opening throws the exception of that record
    and leaves the log as it is. *)
Theorem committed_transactions_recovered txs h file d d' :
  in_u 128 (databaseID h) → has_header storageVersion file h → Forall (tx_ok enableChecksums) txs → txs ≠ [] →
  small (log_file (databaseID h) (txs ≫= transaction) []) →
  opens h file (txs ≫= transaction) d d' →
  ∃ w log,
    commit_all garbage allocateBuffer enableChecksums (databaseID h) txs (mkWAL None None None) = (w, Ok ()) ∧
    walFile w = Some log ∧
    ∀ shadow unfinished tail,
      Forall (loggable enableChecksums) unfinished → no_checkpoint unfinished → committed unfinished = [] →
      let found := log ++ frames (V := V) (C := C) (P := P) enableChecksums unfinished ++ tail in
      let opened := replay_disk (mkRec (mkDisk (Some file) shadow (Some found) None) None d) in
      let is_recovered := opened = (mkRec (mkDisk (Some file) None (Some log) None) (Some h) d', Ok ()) in
      (tail = [] → is_recovered) ∧
      (∀ e, unreadable (V := V) (C := C) (P := P) allocateBuffer enableChecksums found tail e →
         if throwOnWalReplayFailure
         then ∃ st, opened = (st, Throw e) ∧ disk st = mkDisk (Some file) None (Some found) None
         else is_recovered).
Proof.
  intros Hdb Hh Htx Hne Hsmall Ho. destruct (transactions_ok enableChecksums page_size txs Htx) as (Hl & Hc & Hcm).
  destruct (commit_all_ok garbage allocateBuffer enableChecksums garbage_page allocateBuffer_size page_size
              (databaseID h) txs [] (mkWAL None None None)) as (w & E & _ & Hf & _); [done| |done..|].
  { unfold log_base, WalReplayerFacts.log_file. simpl. by rewrite app_nil_r. }
  rewrite app_nil_l in Hf. exists w, (log_file (databaseID h) (txs ≫= transaction) []).
  split; [done|]. split; [done|]. intros shadow unfinished tail Hlu Hcu Hu found opened is_recovered.
  set (l := (txs ≫= transaction) ++ unfinished).
  assert (found = log_file (databaseID h) l tail) as Elog.
  { unfold found, l, WalReplayerFacts.log_file. by rewrite app_nil_r, frames_app, !(assoc_L (++)). }
  assert (committed l = txs ≫= transaction) as Hcl by (unfold l; by rewrite committed_app, Hu).
  assert (Forall (loggable enableChecksums) l) as Hll by (by apply Forall_app).
  assert (no_checkpoint l) as Hcl' by (by apply Forall_app).
  assert (committed l ≠ []) as Hne' by (rewrite Hcl; by destruct txs as [|tx txs]).
  assert (tail = [] ∨ (throwOnWalReplayFailure = false ∧
            ∃ e, unreadable (V := V) (C := C) (P := P) allocateBuffer enableChecksums found tail e) → is_recovered) as Hrec.
  { intros Htail. unfold is_recovered, opened. rewrite Elog in Htail |- *.
    rewrite (recover_active_log garbage allocateBuffer storageVersion randomUUID walPath checkpointWalPath shadowFilePath
               throwOnWalReplayFailure enableChecksums garbage_page allocateBuffer_size page_size file shadow h l tail d d');
      try done.
    - by rewrite kept_committed, Hcl.
    - apply dryReplay_committed; done.
    - by rewrite Hcl. }
  split; [intros; apply Hrec; by left|]. intros e He.
  destruct throwOnWalReplayFailure eqn:Et; [|apply Hrec; right; by eauto].
  apply opens_split in Ho as (d1 & E1 & _).
  exists (mkRec (mkDisk (Some file) None (Some found) None) (Some h) (db_rollback d1)). split; [|done].
  unfold opened. apply recover_refused; [| |done|done].
  - rewrite Elog. apply log_file_ne.
  - rewrite Elog. unfold dryReplay. rewrite Elog in He. by rewrite (dry_run_torn allocateBuffer enableChecksums allocateBuffer_size page_size _ _ _ e).
Qed.
End Recovery.

(** ** Corrupted logs *)

Section Corrupted.
Context `{PageConfig} `{DeserDebug}.
Context {V C P : Type} `{PayloadLaws V, PayloadLaws C, PayloadLaws P}.
Variable allocateBuffer : nat → list Z.
Hypothesis allocateBuffer_size : ∀ n, List.length (allocateBuffer n) = n.
Hypothesis page_size : (64 ≤ LBUG_PAGE_SIZE < 2 ^ 32)%Z.

#[local] Hint Extern 0 (Reader Source) => exact (Source_reader allocateBuffer) : typeclass_instances.
#[local] Abbreviation log_file := (log_file (V := V) (C := C) (P := P)).
#[local] Abbreviation dryReplay := (dryReplay (V := V) (C := C) (P := P) allocateBuffer).

(** A record followed by another checksum than its own. *)
Lemma read_mismatch file s (r : WALRecord V C P) c rest :
  reading true file s (wal_enc r ++ bytes_of 8 c ++ rest) → loggable true r → in_u 64 c → c ≠ checksum (wal_enc r) →
  ∃ s', wal_deserialize (R := Source) (ValueVector := V) (CatalogEntry := C) (PropertyDefinition := P) s =
    (s', Throw (Exn StorageException checksumMismatchMessage)).
Proof.
  intros (Hok & Hk & Hrem) [Hr Hle] Hc Hne. specialize (Hle eq_refl).
  destruct (source_begin file s Hok) as (s1 & E1 & Hin1 & R1).
  pose proof (wal_read_reads (H7 := source_laws allocateBuffer allocateBuffer_size file (source_kind s) (source_remaining s)) r Hr) as Hread.
  destruct (Hread s1 (bytes_of 8 c ++ rest) Hin1) as (s2 & E2 & Hin2 & R2).
  { cbn [rd_remaining source_laws]. by rewrite R1, Hrem. }
  unfold wal_deserialize. rewrite st_bind_run, E1, st_bind_run, E2, st_bind_run.
  destruct Hin2 as (Hon & K2 & Hin2). destruct s2 as [r2|r2]; [rewrite Hk in K2; done|].
  destruct Hin2 as (entry & Eentry & En & Hbuf & Ht). cbn [rd_remaining source_laws source_remaining source_in] in R2.
  unfold source_remaining in R2. cbn [source_in] in R2, Hon.
  assert (entry = wal_enc r) as ->.
  { rewrite R2, Hrem in Eentry. by apply app_inv_tail in Eentry. }
  cbn [onReadEnd Source_objects source_call]. unfold cr_onObjectEnd.
  rewrite st_bind_run. cbn [st_get]. rewrite st_bind_run, En. cbn [deref st_lift].
  rewrite st_bind_run, bytes_at_ok by lia. cbn [st_lift]. rewrite drop_0, (Ht Hle), st_bind_run. unfold on_input.
  destruct (reads_value (H0 := file_laws file) 8 c Hc (deserializer r2) rest Hon R2) as (i & Ei & _).
  rewrite Ei, bool_decide_false by done. by eexists.
Qed.

(** C36: A log with checksums in which a record does not have the checksum stored behind it
    is never replayed past the last commit before this record: by default opening fails
    with the message that the log is corrupted, and when failures are tolerated the
    records after this commit are dropped. *)
Theorem corrupted_record_detected throwOnWalReplayFailure db l (r : WALRecord V C P) c rest :
  in_u 128 db → Forall (loggable true) l → no_checkpoint l → loggable true r → in_u 64 c → c ≠ checksum (wal_enc r) →
  dryReplay throwOnWalReplayFailure true (log_file true db l (wal_enc r ++ bytes_of 8 c ++ rest)) =
  if throwOnWalReplayFailure then throw StorageException checksumMismatchMessage
  else Ok (commit_offset true db l, false).
Proof.
  intros Hdb Hl Hc Hr Hcw Hne. unfold dryReplay.
  rewrite (dry_run_torn allocateBuffer true allocateBuffer_size page_size db l _ (Exn StorageException checksumMismatchMessage));
    [done|done|done|done|].
  split; [intros E%(f_equal List.length); rewrite !length_app, length_bytes_of in E; simpl in E; lia|].
  intros s Hs. by eapply read_mismatch.
Qed.

(** A log written with the other setting of [enableChecksums] is refused with a message
    that names both settings; when failures are tolerated it counts as empty, its
    committed transactions included. *)
Theorem checksum_setting_mismatch throwOnWalReplayFailure enableChecksums db l tail :
  in_u 128 db →
  dryReplay throwOnWalReplayFailure enableChecksums (log_file (negb enableChecksums) db l tail) =
  if throwOnWalReplayFailure then
    throw RuntimeException
      ("The database you are trying to open was serialized with enableChecksums=" +:+
       bool_toString (negb enableChecksums) +:+ " but you are trying to open it with enableChecksums=" +:+
       bool_toString enableChecksums +:+
       ". Please open your database using the correct enableChecksums config. If you wish to change this " +:+
       "for your database, please use the export/import functionality.")
  else Ok (0, false).
Proof.
  intros Hdb. set (file := log_file (negb enableChecksums) db l tail). unfold dryReplay, dry_run.
  destruct (initDeserializer_reading allocateBuffer enableChecksums allocateBuffer_size file) as (s & E & Hok & Hk & Hrem);
    [apply log_file_ne|].
  rewrite E. destruct (source_begin file s Hok) as (s1 & E1 & Hin1 & R1).
  assert (∃ tl, file = enc_wal_header (negb enableChecksums) db ++ tl) as [tl Etl].
  { unfold file, WalReplayerFacts.log_file, frame. destruct (negb enableChecksums); [rewrite <-(assoc_L (++))|]; by eexists. }
  assert (reads (H0 := source_laws allocateBuffer allocateBuffer_size file (source_kind s) (source_remaining s))
            readWALHeader (enc_wal_header (negb enableChecksums) db) (db, negb enableChecksums)) as Hread.
  { unfold readWALHeader, enc_wal_header. eapply reads_bind; [by apply reads_value|].
    eapply reads_last; [apply reads_value; by destruct enableChecksums|by destruct enableChecksums]. }
  destruct (Hread s1 tl Hin1) as (s2 & E2 & _).
  { cbn [rd_remaining source_laws]. by rewrite R1, Hrem. }
  unfold skip_header. rewrite st_bind_run, E1, st_bind_run, E2, st_bind_run. unfold checkWALHeader.
  rewrite bool_decide_false by (by destruct enableChecksums). by destruct throwOnWalReplayFailure.
Qed.
End Corrupted.

(** ** Pages in the shadow file *)

Record PageUpdate : Type := mkUpdate {
  u_page : Z;
  u_skip : bool;
  u_original : list Z;
  u_op : list Z → list Z;
}.

Section ShadowInstall.
Context `{PageConfig}.
Variable garbage : list Z.
Variable fileIdx : Z.
Hypothesis garbage_page : List.length garbage = BUFFER_SIZE.
Hypothesis fileIdx_word : (0 ≤ fileIdx < 2 ^ 32)%Z.
Hypothesis page_size : (32 ≤ LBUG_PAGE_SIZE < 2 ^ 29)%Z.

Fixpoint run_updates (l : list PageUpdate) : stM ShadowFile () :=
  match l with
  | [] => mret ()
  | u :: l => _ ← updatePage garbage fileIdx (u_page u) (u_skip u) (u_original u) (u_op u); run_updates l
  end.

(** The pages changed and their contents, as a map. *)
Fixpoint updated (l : list PageUpdate) (m : gmap Z (list Z)) : gmap Z (list Z) :=
  match l with
  | [] => m
  | u :: l =>
      updated l (<[u_page u := u_op u (default (if u_skip u then garbage else u_original u) (m !! u_page u))]> m)
  end.

Lemma updated_keeps l m p : is_Some (m !! p) → is_Some (updated l m !! p).
Proof.
  revert m. induction l as [|u l IH]; intros m Hm; [done|]. apply IH. destruct (decide (p = u_page u)) as [->|].
  - by rewrite lookup_insert_eq.
  - by rewrite lookup_insert_ne.
Qed.

Definition update_ok (u : PageUpdate) : Prop :=
  (0 ≤ u_page u < 2 ^ 32)%Z ∧ List.length (u_original u) = BUFFER_SIZE ∧
  ∀ page, List.length page = BUFFER_SIZE → List.length (u_op u page) = BUFFER_SIZE.

Lemma run_updates_ok l sf m :
  Forall update_ok l → shadow_inv fileIdx sf → (∀ p, pending garbage fileIdx sf p = m !! p) →
  ∃ sf', run_updates l sf = (sf', Ok ()) ∧ shadow_inv fileIdx sf' ∧ (∀ p, pending garbage fileIdx sf' p = updated l m !! p).
Proof.
  intros Hl. revert sf m. induction Hl as [|u l (Hp & Ho & Hop) _ IH]; intros sf m Hinv Hm; [by exists sf|].
  cbn [run_updates updated]. rewrite st_bind_run.
  assert (page_base garbage fileIdx sf (u_page u) (u_skip u) (u_original u) =
          default (if u_skip u then garbage else u_original u) (m !! u_page u)) as Eb.
  { unfold page_base. rewrite Hm. by destruct (m !! u_page u). }
  assert (List.length (page_base garbage fileIdx sf (u_page u) (u_skip u) (u_original u)) = BUFFER_SIZE) as Hlen.
  { unfold page_base. destruct (pending garbage fileIdx sf (u_page u)) as [frame|] eqn:E; [|by destruct (u_skip u)].
    unfold pending in E. destruct (find_shadow sf fileIdx (u_page u)) as [i|] eqn:Ei; [|done].
    destruct (pending_some garbage fileIdx garbage_page sf _ _ Hinv Ei) as (f & E2 & _ & Hf & _). unfold pending in E2.
    rewrite Ei in E2. simpl in E, E2. congruence. }
  destruct (updatePage_ok garbage fileIdx garbage_page fileIdx_word sf (u_page u) (u_skip u) (u_original u) (u_op u))
    as (sf1 & -> & Hinv1 & Hp1 & Hq1); [done|done|by left|by apply Hop|].
  destruct (IH sf1 (<[u_page u := u_op u (default (if u_skip u then garbage else u_original u) (m !! u_page u))]> m))
    as (sf2 & E2 & Hinv2 & Hp2); [done| |by exists sf2].
  intros p. destruct (decide (p = u_page u)) as [->|Hne].
  - by rewrite Hp1, lookup_insert_eq, Eb.
  - by rewrite Hq1, lookup_insert_ne, Hm.
Qed.

(** C31: A checkpoint's updates of pages of the data file are collected as a map from pages
    to contents (a page is read at its first update at most, and later updates see the
    earlier ones), and the shadow file flushed and copied installs exactly this map: every
    page updated has its last contents, every other byte is unchanged.  Recovery from the
    shadow file gives the same file, whatever the pages being written held when the
    process stopped. *)
Theorem shadow_pages_installed l :
  Forall update_ok l → l ≠ [] →
  ∃ sf, run_updates l newShadowFile = (sf, Ok ()) ∧
    ((Z.of_nat (List.length (shadowPageRecords sf)) + 1 < 2 ^ 32)%Z → ∀ id, in_u 128 id →
     ∃ image, flushAll garbage id sf [] = Ok image ∧
       ∀ data, ∃ out, applyShadowPages sf image data = (out, Ok ()) ∧
         (∀ o, byte out o = match updated l ∅ !! Z.of_nat (o / BUFFER_SIZE) with
                            | Some page => byte page (o mod BUFFER_SIZE)
                            | None => byte data o
                            end) ∧
         (∀ data' h path, torn (shadowPageRecords sf) data data' → databaseID h = id →
            replayShadowPageRecords false path (Ok (Some h)) image data' = (out, Ok ()))).
Proof.
  intros Hl Hne. destruct (run_updates_ok l newShadowFile ∅ Hl) as (sf & E & Hinv & Hp).
  { by apply newShadowFile_inv. }
  { intros p. unfold pending, find_shadow. simpl. by rewrite !lookup_empty. }
  exists sf. split; [done|]. intros Hsmall id Hid. eexists. split.
  { apply (flushAll_image garbage fileIdx); try done; [|simpl; lia].
    assert (∃ p, is_Some (updated l ∅ !! p)) as (p & frame & Hf).
    { destruct l as [|u l]; [done|]. exists (u_page u). cbn [updated]. apply updated_keeps. by rewrite lookup_insert_eq. }
    rewrite <-Hp in Hf. unfold pending in Hf. destruct (find_shadow sf fileIdx p) as [i|] eqn:Ei; [|done].
    destruct (pending_some garbage fileIdx garbage_page sf p i Hinv Ei) as (? & _ & _ & _ & _ & _ & ->). done. }
  intros data. eexists. split; [by apply (apply_image garbage fileIdx)|]. split.
  - intros o. rewrite (install_byte garbage fileIdx) by done. by rewrite Hp.
  - intros data' h path Ht Hh. rewrite (replay_image garbage fileIdx) by done. f_equal. apply overwrite_torn; [|done].
    by apply (image_big garbage fileIdx).
Qed.
End ShadowInstall.

(** ** Crashes during a checkpoint *)

Section CheckpointCrash.
Context `{PageConfig} `{DeserDebug}.
Context {V C P D : Type} `{PayloadLaws V, PayloadLaws C, PayloadLaws P} `{Database V C P D}.
Variable garbage : list Z.
Variable allocateBuffer : nat → list Z.
Variable storageVersion randomUUID : Z.
Variables walPath checkpointWalPath shadowFilePath : string.
Variable throwOnWalReplayFailure enableChecksums : bool.
Variable fileIdx : Z.
Variable madvise : Z → result ().
Hypothesis garbage_page : List.length garbage = BUFFER_SIZE.
Hypothesis allocateBuffer_size : ∀ n, List.length (allocateBuffer n) = n.
Hypothesis page_size : (256 ≤ LBUG_PAGE_SIZE < 2 ^ 29)%Z.
Hypothesis version_word : (0 ≤ storageVersion < 2 ^ 64)%Z.
Hypothesis release : DESER_DEBUG = false.

#[local] Abbreviation log_file := (log_file (V := V) (C := C) (P := P) enableChecksums).
#[local] Abbreviation replay_disk := (replay_disk (V := V) (C := C) (P := P) (D := D) garbage allocateBuffer storageVersion
  randomUUID walPath checkpointWalPath shadowFilePath throwOnWalReplayFailure enableChecksums).
#[local] Abbreviation recovered := (recovered (V := V) (C := C) (P := P) (D := D) garbage allocateBuffer storageVersion
  randomUUID walPath checkpointWalPath shadowFilePath throwOnWalReplayFailure enableChecksums).
#[local] Abbreviation ck_installed := (ck_installed garbage).
#[local] Abbreviation ck_image := (ck_image garbage).
#[local] Abbreviation logged db l := (log_file db l (frames (V := V) (C := C) (P := P) enableChecksums [CheckpointRecord])).

(** Recovery from an emptied shadow file finds the ID 0 in its header. *)
Lemma emptied_shadow_throws (c : Checkpoint) l h a d :
  headed storageVersion (ck_installed c) h → in_u 128 (databaseID h) → databaseID h ≠ 0%Z →
  Forall (loggable enableChecksums) l → no_checkpoint l →
  ∃ st e, replay_disk (mkRec (mkDisk (Some (ck_installed c)) (Some []) a (Some (logged (databaseID h) l))) None d) = (st, Throw e).
Proof.
  intros Hh Hid Hne Hl Hc. destruct (headed_reads storageVersion version_word (ck_installed c) h Hh) as [_ Hread].
  unfold RecoveryFacts.replay_disk, replay. rewrite st_bind_run. cbn [st_get disk frozen_wal wal_file].
  rewrite st_bind_run. unfold replayFrozenWAL at 1. rewrite decide_False by apply log_file_ne. unfold rolling_back at 1.
  assert (64 ≤ LBUG_PAGE_SIZE < 2 ^ 32)%Z as Hps by lia.
  rewrite st_bind_run. unfold dryReplay at 1. rewrite <-(app_nil_r (frames _ [CheckpointRecord])).
  rewrite (dry_run_checkpoint allocateBuffer enableChecksums allocateBuffer_size Hps (databaseID h) l []);
    [|done|done|done|by apply (checkpoint_loggable garbage enableChecksums garbage_page); lia].
  cbn [st_lift fst snd]. rewrite st_bind_run. unfold replayShadow at 1. rewrite st_bind_run. cbn [st_get disk shadow_file data_file].
  rewrite Hread. unfold replayShadowPageRecords at 1.
  assert (readInto pageBuffer [] 0 = Ok pageBuffer) as ->.
  { unfold readInto. rewrite decide_True by (simpl; lia). rewrite drop_nil, take_nil, drop_0. done. }
  cbn [mbind result_bind]. unfold verifyDatabaseID at 1.
  assert (value_of (take 16 pageBuffer) = 0%Z) as ->.
  { unfold pageBuffer. rewrite take_replicate. induction (16 `min` BUFFER_SIZE) as [|n IH]; [done|]. cbn [replicate value_of]. by rewrite IH. }
  rewrite bool_decide_false by done. eexists _, _. reflexivity.
Qed.

End CheckpointCrash.
