(* ===== verification/RecoveryExamples.v ===== *)
(** * The log and recovery on concrete databases

    A database whose whole state is a number: loading reads it from page 1 of the data
    file, and replaying an update of a sequence adds to it. *)

From Stdlib Require Import Ascii String.
From S2P Require Import Prelude.
From S2P Require Import FileHandle.
From S2P Require Import FreeSpace.
From S2P Require Import PageManager.
From S2P Require Import PageExamples.
From S2P Require Import Serializer.
From S2P Require Import SerializerFacts.
From S2P Require Import Serial.
From S2P Require Import FreeSpaceSerial.
From S2P Require Import FreeSpaceSerialTheorems.
From S2P Require Import Checksum.
From S2P Require Import WalRecord.
From S2P Require Import Wal.
From S2P Require Import ShadowFile.
From S2P Require Import ShadowFileFacts.
From S2P Require Import ShadowPending.
From S2P Require Import WalReplayer.
From S2P Require Import WalReplayerFacts.
From S2P Require Import RecoveryFacts.
From S2P Require Import Checkpointer.
From S2P Require Import RecoveryTheorems.

#[local] Open Scope nat_scope.
#[local] Open Scope list_scope.
#[local] Existing Instance config.
#[local] Existing Instance no_labels.

(** A payload of eight bytes. *)
#[local] Instance word_payload : Payload Z := {|
  p_serialize W _ v := serializeValue 8 v;
  p_deserialize R _ := deserializeValue 8;
|}.
#[local] Program Instance word_laws : PayloadLaws Z := {|
  p_enc := bytes_of 8;
  p_ok := in_u 64;
|}.
Next Obligation. intros. apply writes_value. Qed.
Next Obligation. intros. by apply reads_value. Qed.

#[local] Abbreviation record := (WALRecord Z Z Z).

#[local] Instance counter : Database Z Z Z Z := {|
  db_load _ file := st_put (byte file 4096);
  db_autoLoadLinkedExtensions := mret ();
  db_replay r := match r with UpdateSequenceRecord _ k => st_modify (Z.add k) | _ => mret () end;
  db_rollback d := d;
|}.

Definition new_buffer (n : nat) : list Z := replicate n 170%Z.
Lemma new_buffer_size n : List.length (new_buffer n) = n.
Proof. apply length_replicate. Qed.
Lemma config_small : (64 ≤ LBUG_PAGE_SIZE < 2 ^ 32)%Z.
Proof. by vm_compute. Qed.

Definition old_header : DatabaseHeader := mkHeader (mkRange 1 1) (mkRange 1 1) 2 77.
Definition new_header : DatabaseHeader := mkHeader (mkRange 1 1) (mkRange 1 1) 2 77.

(** A data file of two pages: the header, and the number. *)
Definition page_with_header (h : DatabaseHeader) : list Z := take 4096 (enc_header 40 h ++ replicate 4096 0%Z).
Definition page_of_byte (n : Z) : list Z := replicate 4096 n.
Definition data_of (h : DatabaseHeader) (n : Z) : list Z := page_with_header h ++ page_of_byte n.

Lemma data_headed h n : header_word h → headed 40 (data_of h n) h.
Proof.
  intros Hh. split; [done|]. pose proof (length_enc_header 40 h).
  split.
  - unfold data_of, page_of_byte. rewrite length_app, length_replicate. change BUFFER_SIZE with 4096. lia.
  - unfold data_of, page_with_header. rewrite take_app_ge by lia. rewrite <-(assoc_L (++)). by eexists.
Qed.

Lemma header_77 s n : in_u 32 n → in_u 32 s → header_word (mkHeader (mkRange s 1) (mkRange 1 1) n 77).
Proof. unfold header_word, in_u. simpl. lia. Qed.

(** ** A log *)

Definition adds (k : Z) : list record := [UpdateSequenceRecord 1 k].
Lemma adds_ok k : in_u 64 k → tx_ok true (adds k).
Proof.
  intros Hk. split; [|by repeat constructor]. constructor; [|constructor]. split; [done|]. intros _.
  vm_compute. lia.
Qed.

(** The begin record of an unfinished append with another checksum than its own. *)
Definition damaged : list Z := wal_enc (BeginTransactionRecord : record) ++ bytes_of 8 0.

Lemma begin_loggable : loggable true (BeginTransactionRecord : record).
Proof. split; [done|]. intros _. vm_compute. lia. Qed.

Lemma damaged_unreadable found :
  unreadable (V := Z) (C := Z) (P := Z) new_buffer true found damaged (Exn StorageException checksumMismatchMessage).
Proof.
  split; [done|]. intros s Hs.
  apply (read_mismatch new_buffer new_buffer_size found s (BeginTransactionRecord : record) 0 []);
    [exact Hs|exact begin_loggable|done|by vm_compute].
Qed.

(** Two committed transactions and the begin of a third, then nothing or a damaged record:
    by default the damaged log is refused; with failures tolerated the rest is cut off. *)
Lemma committed_transactions_recovered_witness :
  let opened throwing log := replay_disk (V := Z) (C := Z) (P := Z) stale_page new_buffer 40 0 "wal" "wal.checkpoint"
    "shadow" throwing true (mkRec (mkDisk (Some (data_of old_header 3)) None (Some log) None) None 0%Z) in
  ∃ w log,
    commit_all stale_page new_buffer true 77 [adds 4; adds 5] (mkWAL None None None) = (w, Ok ()) ∧ walFile w = Some log ∧
    let begun := log ++ frames (V := Z) (C := Z) (P := Z) true [BeginTransactionRecord] in
    let recovered_state := mkRec (mkDisk (Some (data_of old_header 3)) None (Some log) None) (Some old_header) 12%Z in
    opened true (begun ++ []) = (recovered_state, Ok ()) ∧
    opened false (begun ++ damaged) = (recovered_state, Ok ()) ∧
    (opened true (begun ++ damaged)).2 = throw StorageException checksumMismatchMessage.
Proof.
  assert (header_word old_header) as Hw by (by apply header_77).
  destruct (headed_reads 40 ltac:(done) _ old_header (data_headed old_header 3 Hw)) as [Hh _].
  assert (Forall (tx_ok true) [adds 4; adds 5]) as Htx
    by (constructor; [by apply adds_ok|constructor; [by apply adds_ok|constructor]]).
  pose proof (λ throwing,
    committed_transactions_recovered stale_page new_buffer 40 0 "wal" "wal.checkpoint" "shadow" throwing true
      stale_page_ok new_buffer_size config_small [adds 4; adds 5] old_header (data_of old_header 3) 0%Z 12%Z
      ltac:(done) Hh Htx ltac:(done) ltac:(vm_compute; reflexivity) ltac:(vm_compute; reflexivity)) as Hall.
  destruct (Hall true) as (w & log & E & Hf & Ht). destruct (Hall false) as (w' & log' & E' & Hf' & Hn).
  rewrite E in E'. injection E' as <-. rewrite Hf in Hf'. injection Hf' as <-.
  assert (Forall (loggable true) [BeginTransactionRecord : record]) as Hu by (constructor; [exact begin_loggable|constructor]).
  assert (no_checkpoint [BeginTransactionRecord : record]) as Hc by (by repeat constructor).
  intros opened. exists w, log. split; [exact E|]. split; [exact Hf|]. intros begun recovered_state. unfold begun.
  rewrite <-!(assoc_L (++)).
  destruct (Ht None [BeginTransactionRecord] [] Hu Hc eq_refl) as [Ht1 _].
  destruct (Ht None [BeginTransactionRecord] damaged Hu Hc eq_refl) as [_ Ht2].
  destruct (Hn None [BeginTransactionRecord] damaged Hu Hc eq_refl) as [_ Hn2].
  split; [exact (Ht1 eq_refl)|]. split; [exact (Hn2 _ (damaged_unreadable _))|].
  destruct (Ht2 _ (damaged_unreadable _)) as (st & Est & _). unfold opened. rewrite Est. reflexivity.
Defined.

(** A commit, then a record with another checksum than its own. *)
Lemma corrupted_record_detected_witness :
  let log := log_file true 77 (transaction (adds 4)) (wal_enc (BeginTransactionRecord : record) ++ bytes_of 8 0 ++ [9%Z]) in
  dryReplay (V := Z) (C := Z) (P := Z) new_buffer true true log = throw StorageException checksumMismatchMessage ∧
  dryReplay (V := Z) (C := Z) (P := Z) new_buffer false true log = Ok (68, false).
Proof.
  destruct (transaction_ok true config_small (adds 4)) as [Hl Hc]; [by apply adds_ok|].
  assert (loggable true (BeginTransactionRecord : record)) as Hr by (split; [done|intros _; vm_compute; lia]).
  assert (0%Z ≠ checksum (wal_enc (BeginTransactionRecord : record))) as Hne by (vm_compute; discriminate).
  cbv zeta. split.
  - rewrite (corrupted_record_detected new_buffer new_buffer_size config_small true 77 (transaction (adds 4)) BeginTransactionRecord 0 [9%Z]);
      [reflexivity|done|exact Hl|exact Hc|exact Hr|done|exact Hne].
  - rewrite (corrupted_record_detected new_buffer new_buffer_size config_small false 77 (transaction (adds 4)) BeginTransactionRecord 0 [9%Z]);
      [vm_compute; reflexivity|done|exact Hl|exact Hc|exact Hr|done|exact Hne].
Defined.

(** A log of a committed transaction without checksums, opened with checksums. *)
Lemma checksum_setting_mismatch_witness :
  dryReplay (V := Z) (C := Z) (P := Z) new_buffer false true (log_file false 77 (transaction (adds 4)) []) = Ok (0, false).
Proof.
  exact (checksum_setting_mismatch (V := Z) (C := Z) (P := Z) new_buffer new_buffer_size false true 77
           (transaction (adds 4)) [] ltac:(done)).
Defined.

(** ** A checkpoint *)

(** The header page, and page 1 with the sum of the old number and the log. *)
Definition checkpoint_updates : list PageUpdate := [
  mkUpdate 1 true stale_page (λ _, page_of_byte 5);
  mkUpdate 1 false stale_page (λ page, <[0 := 7%Z]> page);
  mkUpdate 0 true stale_page (λ _, page_with_header new_header)].

Lemma checkpoint_updates_ok : Forall update_ok checkpoint_updates.
Proof.
  assert (List.length (page_with_header new_header) = BUFFER_SIZE) as Hh.
  { unfold page_with_header. rewrite length_take, length_app, length_replicate. change BUFFER_SIZE with 4096. lia. }
  unfold checkpoint_updates. rewrite !Forall_cons. unfold update_ok. cbn [u_page u_original u_op].
  refine (conj (conj _ (conj stale_page_ok _)) (conj (conj _ (conj stale_page_ok _)) (conj (conj _ (conj stale_page_ok _)) _)));
    [lia| |lia| |lia| |by apply Forall_nil]; intros page Hp.
  - apply length_replicate.
  - by rewrite length_insert.
  - exact Hh.
Qed.

Definition checkpoint_shadow : ShadowFile := (run_updates stale_page 0 checkpoint_updates newShadowFile).1.

Lemma shadow_pages_installed_witness :
  ∃ sf image out, run_updates stale_page 0 checkpoint_updates newShadowFile = (sf, Ok ()) ∧
    flushAll stale_page 77 sf [] = Ok image ∧ applyShadowPages sf image (data_of old_header 3) = (out, Ok ()) ∧
    byte out 4096 = 7%Z ∧ byte out 4097 = 5%Z ∧ byte out 8192 = 0%Z.
Proof.
  destruct (shadow_pages_installed stale_page 0 stale_page_ok ltac:(lia) ltac:(done) checkpoint_updates checkpoint_updates_ok ltac:(done))
    as (sf & E & Hinst).
  assert (sf = checkpoint_shadow) as Esf by (unfold checkpoint_shadow; by rewrite E).
  destruct Hinst with (id := 77%Z) as (image & Ei & Hout); [rewrite Esf; by vm_compute|done|].
  destruct (Hout (data_of old_header 3)) as (out & Eo & Hb & _).
  exists sf, image, out. split; [exact E|]. split; [exact Ei|]. split; [exact Eo|]. rewrite !Hb.
  split_and!; vm_compute; reflexivity.
Defined.

(** The log is moved aside with one transaction in it, the shadow file is collected. *)
Definition frozen_log : list Z := log_file true 77 (transaction (adds 4)) [].
Definition active : option (list Z) := Some (log_file true 77 (transaction (adds 2)) []).
Definition checkpoint : Checkpoint :=
  let w := mkWAL None active (Some frozen_log) in
  mkCkpt w checkpoint_shadow None (data_of old_header 3) pm2 new_header new_header true 0
    [mkDisk (Some (data_of old_header 3)) None (walFile w) (Some frozen_log)].

Lemma checkpoint_ready : ready stale_page 0 checkpoint (log_file true (databaseID new_header) (transaction (adds 4)) []).
Proof.
  destruct (run_updates_ok stale_page 0 stale_page_ok ltac:(lia) checkpoint_updates newShadowFile ∅ checkpoint_updates_ok)
    as (sf & E & Hinv & _).
  { by apply newShadowFile_inv. }
  { intros p. unfold pending, find_shadow. simpl. by rewrite !lookup_empty. }
  assert (checkpoint_shadow = sf) as Esf by (unfold checkpoint_shadow; by rewrite E).
  constructor; [reflexivity|reflexivity|by vm_compute| | |by vm_compute|].
  - change (ck_shadow checkpoint) with checkpoint_shadow. by rewrite Esf.
  - change (ck_shadow checkpoint) with checkpoint_shadow. vm_compute. by eexists.
  - change (ck_shadowDisk checkpoint) with (@None (list Z)). simpl. lia.
Qed.

Lemma installed_headed : headed 40 (ck_installed stale_page checkpoint) new_header.
Proof.
  split; [by apply header_77|].
  assert (ck_installed stale_page checkpoint =
    enc_header 40 new_header ++ drop (List.length (enc_header 40 new_header)) (ck_installed stale_page checkpoint)) as E
    by (vm_compute; reflexivity).
  split; [|by eexists]. apply leb_complete. vm_compute. reflexivity.
Qed.


(** A disk with half of the pages written opens with the sum of everything committed. *)
Example torn_pages_recovered :
  let dk := mkDisk (Some (page_with_header new_header ++ page_of_byte 3)) (Some (ck_image stale_page checkpoint)) active
              (Some (log_file true 77 (transaction (adds 4)) (frames true [CheckpointRecord : record]))) in
  let '(st, r) := replay_disk (V := Z) (C := Z) (P := Z) stale_page new_buffer 40 0 "wal" "wal.checkpoint" "shadow" true true
                    (mkRec dk None 0%Z) in
  r = Ok () ∧ database st = 9%Z ∧ frozen_wal (disk st) = None ∧ shadow_file (disk st) = None.
Proof. vm_compute. auto. Qed.

(** ** Runs that lose data *)

(** A checkpoint that did not move the log aside, stopped before it cleared the log: the
    shadow file is removed before the checkpoint record asks for it. *)
Example unrotated_checkpoint_not_replayed :
  let dk := mkDisk (Some (page_with_header new_header ++ page_of_byte 3)) (Some (ck_image stale_page checkpoint))
              (Some (log_file true 77 (transaction (adds 4)) (frames true [CheckpointRecord : record]))) None in
  let '(st, r) := replay_disk (V := Z) (C := Z) (P := Z) stale_page new_buffer 40 0 "wal" "wal.checkpoint" "shadow" true true
                    (mkRec dk None 0%Z) in
  r = throw IOException "Cannot open file" ∧ shadow_file (disk st) = None.
Proof. vm_compute. auto. Qed.

(** A frozen log without a checkpoint record: the first open replays its transaction and
    removes it, a second open, after a crash, does not have the transaction. *)
Example frozen_log_replayed_once :
  let open dk := replay_disk (V := Z) (C := Z) (P := Z) stale_page new_buffer 40 0 "wal" "wal.checkpoint" "shadow" true true
                   (mkRec dk None 0%Z) in
  let first := open (mkDisk (Some (data_of old_header 3)) None None (Some frozen_log)) in
  let second := open (disk first.1) in
  first.2 = Ok () ∧ database first.1 = 7%Z ∧ second.2 = Ok () ∧ database second.1 = 3%Z.
Proof. vm_compute. auto. Qed.

(** A page whose shadow page was cleared is still written. *)
Example cleared_page_applied :
  let sf := clearShadowPage 0 1 (run_updates stale_page 0 [mkUpdate 1 true stale_page (λ _, page_of_byte 5)] newShadowFile).1 in
  hasShadowPage sf 0 1 = false ∧
  ∃ image out, flushAll stale_page 77 sf [] = Ok image ∧ applyShadowPages sf image (data_of old_header 3) = (out, Ok ()) ∧
    byte out 4096 = 5%Z.
Proof.
  cbv zeta. split; [vm_compute; reflexivity|]. eexists _, _. split; [vm_compute; reflexivity|].
  split; [vm_compute; reflexivity|]. vm_compute. reflexivity.
Qed.

(** A record larger than a page, logged with checksums, cannot be read back. *)
Example large_record_unreadable :
  let r : record := TableInsertionRecord 1 0 600 (replicate 600 1%Z) in
  let l := (add_records (H7 := InMemFileWriter_writer stale_page) new_buffer [r; CommitRecord] (newLocalWAL new_buffer true)).1 in
  (add_records (H7 := InMemFileWriter_writer stale_page) new_buffer [r; CommitRecord] (newLocalWAL new_buffer true)).2 = Ok () ∧
  dryReplay (V := Z) (C := Z) (P := Z) new_buffer true true (log_file true 77 [] (imw_contents (sink_out l))) =
    throw InternalException "UNREACHABLE_CODE".
Proof. vm_compute. auto. Qed.
