(* ===== verification/PropertyCollection.v ===== *)
(** * Properties of a table (catalog/property_definition_collection.{h,cpp})

    The properties of a table by identifier, the column that stores each, and the
    case-insensitive map from their names.  An identifier is never used again; a
    column is not used again either, until a checkpoint renumbers the columns. *)

From Stdlib Require Import Ascii.
From S2P Require Import Prelude.

(** ** Case-insensitive names (common/string_utils.{h,cpp}, case_insensitive_map.h)

    [asciiToLowerCaseMap] moves the 26 upper-case letters by 32.  A
    [case_insensitive_map_t] compares its keys through it: it is a map whose keys are
    the lower-case names. *)
Definition lower_char (c : ascii) : ascii :=
  let n := nat_of_ascii c in
  if bool_decide (65 ≤ n ≤ 90)%nat then ascii_of_nat (n + 32) else c.

Fixpoint lower (s : string) : string :=
  match s with
  | EmptyString => EmptyString
  | String c s => String (lower_char c) (lower s)
  end.

Definition caseInsensitiveEquals (left right : string) : bool := bool_decide (lower left = lower right).

(** ** The collection *)

(** The logical type of a property and its default expression are values the catalog
    stores and copies. *)
Class PropertyKind : Type := {
  PropertyType : Type;
  PropertyType_eq_dec :: EqDecision PropertyType;
}.

Section Collection.
Context `{PropertyKind}.

Record PropertyDefinition : Type := mkProperty {
  getName : string;
  getType : PropertyType;
}.

#[export] Instance PropertyDefinition_eq_dec : EqDecision PropertyDefinition.
Proof. solve_decision. Defined.

Definition property_rename (newName : string) (d : PropertyDefinition) : PropertyDefinition :=
  mkProperty newName (getType d).

Record PropertyDefinitionCollection : Type := mkCollection {
  nextColumnID : Z;
  nextPropertyID : Z;
  definitions : gmap Z PropertyDefinition;
  columnIDs : gmap Z Z;
  nameToPropertyIDMap : gmap string Z;
}.

#[export] Instance PropertyDefinitionCollection_eq_dec : EqDecision PropertyDefinitionCollection.
Proof. solve_decision. Defined.

Definition newCollection (nextColumnID : Z) : PropertyDefinitionCollection :=
  mkCollection nextColumnID 0 ∅ ∅ ∅.

Definition contains (name : string) (c : PropertyDefinitionCollection) : bool :=
  bool_decide (is_Some (nameToPropertyIDMap c !! lower name)).

Definition collection_size (c : PropertyDefinitionCollection) : nat := size (definitions c).

(** The loop over all identifiers handed out so far. *)
Definition getDefinitions (c : PropertyDefinitionCollection) : list PropertyDefinition :=
  omap (λ i, definitions c !! Z.of_nat i) (seq 0 (Z.to_nat (nextPropertyID c))).

(** The accessors by identifier and by name; the assertions before [at] fail where
    the key is missing. *)
Definition getDefinition (propertyID : Z) (c : PropertyDefinitionCollection) : result PropertyDefinition :=
  deref (definitions c !! propertyID).
Definition getColumnID (propertyID : Z) (c : PropertyDefinitionCollection) : result Z :=
  deref (columnIDs c !! propertyID).
Definition getPropertyID (name : string) (c : PropertyDefinitionCollection) : result Z :=
  deref (nameToPropertyIDMap c !! lower name).
Definition getDefinitionByName (name : string) (c : PropertyDefinitionCollection) : result PropertyDefinition :=
  propertyID ← getPropertyID name c; getDefinition propertyID c.
Definition getColumnIDByName (name : string) (c : PropertyDefinitionCollection) : result Z :=
  propertyID ← getPropertyID name c; getColumnID propertyID c.

(** [std::map] and [emplace]: an existing key keeps its value. *)
Definition emplace `{Countable K} {A} (k : K) (a : A) (m : gmap K A) : gmap K A :=
  match m !! k with Some _ => m | None => <[k := a]> m end.

Definition add (definition : PropertyDefinition) (c : PropertyDefinitionCollection) : PropertyDefinitionCollection :=
  let propertyID := nextPropertyID c in
  mkCollection (wrap 32 (nextColumnID c + 1)) (wrap 32 (propertyID + 1))
    (emplace propertyID definition (definitions c))
    (emplace propertyID (nextColumnID c) (columnIDs c))
    (emplace (lower (getName definition)) propertyID (nameToPropertyIDMap c)).

Definition drop (name : string) (c : PropertyDefinitionCollection) : result PropertyDefinitionCollection :=
  propertyID ← getPropertyID name c;
  mret (mkCollection (nextColumnID c) (nextPropertyID c)
    (delete propertyID (definitions c)) (delete propertyID (columnIDs c))
    (delete (lower name) (nameToPropertyIDMap c))).

(** [definitions\[idx\]] on an identifier of the name map; [insert] keeps an existing
    key. *)
Definition rename (name newName : string) (c : PropertyDefinitionCollection) : result PropertyDefinitionCollection :=
  idx ← getPropertyID name c;
  d ← deref (definitions c !! idx);
  mret (mkCollection (nextColumnID c) (nextPropertyID c)
    (<[idx := property_rename newName d]> (definitions c)) (columnIDs c)
    (emplace (lower newName) idx (delete (lower name) (nameToPropertyIDMap c)))).

Definition getMaxColumnID (c : PropertyDefinitionCollection) : Z :=
  map_fold (λ _ id maxID, if bool_decide (id > maxID) then id else maxID) 0 (columnIDs c).

(** The identifiers in the order of [std::map]. *)
Definition property_order (c : PropertyDefinitionCollection) : list Z :=
  merge_sort Z.le (elements (dom (definitions c))).

Fixpoint renumber (ids : list Z) (next : Z) (m : gmap Z Z) : gmap Z Z * Z :=
  match ids with
  | [] => (m, next)
  | i :: ids => renumber ids (wrap 32 (next + 1)) (emplace i next m)
  end.

Definition vacuumColumnIDs (nextColumnID : Z) (c : PropertyDefinitionCollection) : PropertyDefinitionCollection :=
  let '(ids, next) := renumber (property_order c) nextColumnID ∅ in
  mkCollection next (nextPropertyID c) (definitions c) ids (nameToPropertyIDMap c).
End Collection.

(** ** Well-formed collections *)
Section Facts.
Context `{PropertyKind}.

(** Names and identifiers correspond one to one, every property has a column of its
    own, and the counters are past everything in use. *)
Record collection_wf (c : PropertyDefinitionCollection) : Prop := {
  cw_names : ∀ k i, nameToPropertyIDMap c !! k = Some i ↔
    ∃ d, definitions c !! i = Some d ∧ lower (getName d) = k;
  cw_columns : dom (columnIDs c) = dom (definitions c);
  cw_own : ∀ i j col, columnIDs c !! i = Some col → columnIDs c !! j = Some col → i = j;
  cw_ids : ∀ i, is_Some (definitions c !! i) → 0 ≤ i < nextPropertyID c;
  cw_next : ∀ i col, columnIDs c !! i = Some col → 0 ≤ col < nextColumnID c;
  cw_range : in_u 32 (nextColumnID c) ∧ in_u 32 (nextPropertyID c);
}.

Lemma emplace_None `{Countable K} {A} (k : K) (a : A) m : m !! k = None → emplace k a m = <[k := a]> m.
Proof. intros E. unfold emplace. by rewrite E. Qed.

Lemma contains_spec name c : collection_wf c →
  contains name c = true ↔ ∃ i d, definitions c !! i = Some d ∧ lower (getName d) = lower name.
Proof.
  intros Hwf. unfold contains. rewrite bool_decide_eq_true. split.
  - intros [i Hi]. apply (cw_names _ Hwf) in Hi as (d & ? & ?). eauto.
  - intros (i & d & Hd & E). exists i. apply (cw_names _ Hwf). eauto.
Qed.

Lemma getPropertyID_spec name c i : collection_wf c →
  getPropertyID name c = Ok i ↔ ∃ d, definitions c !! i = Some d ∧ lower (getName d) = lower name.
Proof. intros Hwf. unfold getPropertyID. rewrite deref_ok. apply (cw_names _ Hwf). Qed.

Lemma getPropertyID_contains name c : contains name c = true → ∃ i, getPropertyID name c = Ok i.
Proof.
  unfold contains, getPropertyID. rewrite bool_decide_eq_true. intros [i ->]. by exists i.
Qed.

(** The identifier after the last one is free. *)
Lemma next_fresh c : collection_wf c →
  definitions c !! nextPropertyID c = None ∧ columnIDs c !! nextPropertyID c = None.
Proof.
  intros Hwf. assert (definitions c !! nextPropertyID c = None) as E.
  { apply eq_None_not_Some. intros Hs. apply (cw_ids _ Hwf) in Hs. lia. }
  split; [done|]. apply not_elem_of_dom. rewrite (cw_columns _ Hwf). by apply not_elem_of_dom.
Qed.

Lemma one_name c i j d e : collection_wf c →
  definitions c !! i = Some d → definitions c !! j = Some e → lower (getName d) = lower (getName e) → i = j.
Proof.
  intros Hwf Hd He E. assert (nameToPropertyIDMap c !! lower (getName d) = Some i) as H1.
  { apply (cw_names _ Hwf). eauto. }
  assert (nameToPropertyIDMap c !! lower (getName d) = Some j) as H2.
  { apply (cw_names _ Hwf). eauto. }
  congruence.
Qed.

Lemma newCollection_wf next : in_u 32 next → collection_wf (newCollection next).
Proof.
  intros Hn. split; simpl; [..|split; [done|unfold in_u; lia]].
  - intros k i. rewrite lookup_empty. split; [done|]. intros (d & Hd & _). by rewrite lookup_empty in Hd.
  - done.
  - intros i j col Hi. by rewrite lookup_empty in Hi.
  - intros i [d Hd]. by rewrite lookup_empty in Hd.
  - intros i col Hi. by rewrite lookup_empty in Hi.
Qed.

Lemma add_wf definition c :
  collection_wf c → contains (getName definition) c = false →
  nextColumnID c < UINT32_MAX → nextPropertyID c < UINT32_MAX → collection_wf (add definition c).
Proof.
  intros Hwf Hfree Hcol Hid. pose proof (next_fresh _ Hwf) as [Hd Hc]. pose proof (cw_range _ Hwf) as [Rc Rp].
  assert (nameToPropertyIDMap c !! lower (getName definition) = None) as Hn.
  { unfold contains in Hfree. apply bool_decide_eq_false in Hfree. by apply eq_None_not_Some. }
  unfold add. rewrite !emplace_None by done. unfold UINT32_MAX, in_u in *.
  split; cbn [nextColumnID nextPropertyID definitions columnIDs nameToPropertyIDMap]; rewrite ?wrap_id by (unfold in_u; lia).
  - intros k i. destruct (decide (k = lower (getName definition))) as [->|Hk].
    + rewrite lookup_insert_eq. split.
      * intros [= <-]. exists definition. by rewrite lookup_insert_eq.
      * intros (d & [[<- _]|[Hi Hl]]%lookup_insert_Some & E); [done|].
        assert (nameToPropertyIDMap c !! lower (getName definition) = Some i) by (apply (cw_names _ Hwf); eauto). congruence.
    + rewrite lookup_insert_ne by done. rewrite (cw_names _ Hwf). split.
      * intros (d & Hl & E). exists d. split; [|done]. rewrite lookup_insert_ne; [done|]. congruence.
      * intros (d & [[<- <-]|[Hi Hl]]%lookup_insert_Some & E); [congruence|]. eauto.
  - rewrite !dom_insert_L, (cw_columns _ Hwf). done.
  - intros i j col [[<- <-]|[Hi Hl]]%lookup_insert_Some [[<- E]|[Hj Hm]]%lookup_insert_Some; [done| | |by eapply cw_own].
    + apply (cw_next _ Hwf) in Hm. lia.
    + apply (cw_next _ Hwf) in Hl. lia.
  - intros i [d [[<- _]|[_ Hl]]%lookup_insert_Some]; [lia|].
    destruct (cw_ids _ Hwf i); [by eexists|]. lia.
  - intros i col [[<- <-]|[_ Hl]]%lookup_insert_Some; [lia|]. apply (cw_next _ Hwf) in Hl. lia.
  - unfold in_u. lia.
Qed.

Lemma drop_ok name c : collection_wf c → contains name c = true →
  ∃ i d, definitions c !! i = Some d ∧ lower (getName d) = lower name ∧
    drop name c = Ok (mkCollection (nextColumnID c) (nextPropertyID c) (delete i (definitions c))
                        (delete i (columnIDs c)) (delete (lower name) (nameToPropertyIDMap c))).
Proof.
  intros Hwf Hc. destruct (getPropertyID_contains _ _ Hc) as [i Hi].
  pose proof Hi as (d & Hd & E)%getPropertyID_spec; [|done]. exists i, d.
  unfold drop. rewrite Hi. done.
Qed.

Lemma drop_wf name c c' : collection_wf c → contains name c = true → drop name c = Ok c' → collection_wf c'.
Proof.
  intros Hwf Hc E. destruct (drop_ok _ _ Hwf Hc) as (i & d & Hd & Hn & E'). rewrite E' in E. injection E as <-.
  split; cbn [nextColumnID nextPropertyID definitions columnIDs nameToPropertyIDMap].
  - intros k j. rewrite lookup_delete_Some, (cw_names _ Hwf). split.
    + intros (Hk & e & He & Hl). exists e. split; [|done]. rewrite lookup_delete_ne; [done|]. congruence.
    + intros (e & [Hij He]%lookup_delete_Some & Hl). split; [|eauto]. intros <-. apply Hij.
      eapply one_name; [done..|]. congruence.
  - rewrite !dom_delete_L, (cw_columns _ Hwf). done.
  - intros j k col [_ Hj]%lookup_delete_Some [_ Hk]%lookup_delete_Some. by eapply cw_own.
  - intros j [e [_ He]%lookup_delete_Some]. apply (cw_ids _ Hwf). by eexists.
  - intros j col [_ Hj]%lookup_delete_Some. by eapply cw_next.
  - apply (cw_range _ Hwf).
Qed.

Lemma rename_ok name newName c : collection_wf c → contains name c = true →
  ∃ i d, definitions c !! i = Some d ∧ lower (getName d) = lower name ∧
    rename name newName c = Ok (mkCollection (nextColumnID c) (nextPropertyID c)
      (<[i := property_rename newName d]> (definitions c)) (columnIDs c)
      (emplace (lower newName) i (delete (lower name) (nameToPropertyIDMap c)))).
Proof.
  intros Hwf Hc. destruct (getPropertyID_contains _ _ Hc) as [i Hi].
  pose proof Hi as (d & Hd & E)%getPropertyID_spec; [|done]. exists i, d.
  unfold rename. rewrite Hi. cbn [mbind result_bind]. rewrite Hd. done.
Qed.

Lemma rename_wf name newName c c' :
  collection_wf c → contains name c = true → contains newName c = false → rename name newName c = Ok c' →
  collection_wf c'.
Proof.
  intros Hwf Hc Hfree E. destruct (rename_ok _ newName _ Hwf Hc) as (i & d & Hd & Hn & E').
  rewrite E' in E. injection E as <-.
  assert (nameToPropertyIDMap c !! lower newName = None) as Hnew.
  { unfold contains in Hfree. apply bool_decide_eq_false in Hfree. by apply eq_None_not_Some. }
  rewrite emplace_None by (apply lookup_delete_None; by right).
  split; cbn [nextColumnID nextPropertyID definitions columnIDs nameToPropertyIDMap].
  - intros k j. rewrite lookup_insert_Some, lookup_delete_Some, (cw_names _ Hwf). split.
    + intros [[<- <-]|(Hk & Ho & e & He & Hl)].
      * eexists. by rewrite lookup_insert_eq.
      * exists e. split; [|done]. rewrite lookup_insert_ne; [done|]. congruence.
    + intros (e & [[<- <-]|[Hij He]]%lookup_insert_Some & Hl); [by left|right]. split_and!.
      * intros <-. assert (nameToPropertyIDMap c !! lower newName = Some j); [|congruence].
        apply (cw_names _ Hwf). eauto.
      * intros Hk. apply Hij. eapply one_name; [done..|]. congruence.
      * eauto.
  - rewrite dom_insert_L, (cw_columns _ Hwf).
    assert (i ∈ dom (definitions c)) by (apply elem_of_dom; by eexists). set_solver.
  - apply (cw_own _ Hwf).
  - intros j [e [[<- _]|[_ He]]%lookup_insert_Some]; apply (cw_ids _ Hwf); by eexists.
  - apply (cw_next _ Hwf).
  - apply (cw_range _ Hwf).
Qed.

(** *** Renumbering *)
Lemma renumber_spec ids next m m' next' :
  NoDup ids → (∀ i, i ∈ ids → m !! i = None) → 0 ≤ next → next + Z.of_nat (length ids) ≤ UINT32_MAX →
  renumber ids next m = (m', next') →
  next' = next + Z.of_nat (length ids) ∧ dom m' = dom m ∪ list_to_set ids ∧
  (∀ k i, ids !! k = Some i → m' !! i = Some (next + Z.of_nat k)) ∧
  (∀ i, i ∉ ids → m' !! i = m !! i).
Proof.
  unfold UINT32_MAX. revert next m. induction ids as [|i ids IH]; intros next m Hnd Hm Hn Hb E.
  { injection E as <- <-. split_and!; [simpl; lia|set_solver|done|done]. }
  cbn [renumber] in E. rewrite emplace_None in E by (apply Hm; left). cbn [length] in Hb.
  rewrite wrap_id in E by (unfold in_u; lia). apply NoDup_cons in Hnd as [Hi Hnd].
  eapply IH in E as (-> & Hdom & Hin & Hout); [|done| |lia..].
  2:{ intros j Hj. rewrite lookup_insert_ne; [apply Hm; by right|]. by intros ->. }
  split_and!.
  - cbn [length]. lia.
  - rewrite Hdom. set_solver.
  - intros [|k] j Hk; simpl in Hk.
    + injection Hk as <-. rewrite Hout by done. rewrite lookup_insert_eq. f_equal. lia.
    + rewrite (Hin _ _ Hk). f_equal. lia.
  - intros j Hj. rewrite Hout by set_solver. rewrite lookup_insert_ne; [done|]. set_solver.
Qed.

Lemma property_order_spec c :
  NoDup (property_order c) ∧ (∀ i, i ∈ property_order c ↔ i ∈ dom (definitions c)) ∧
  length (property_order c) = size (definitions c).
Proof.
  unfold property_order. set (l := elements (dom (definitions c))).
  pose proof (merge_sort_Permutation Z.le l) as Hp. split_and!.
  - rewrite Hp. apply NoDup_elements.
  - intros i. rewrite Hp. apply elem_of_elements.
  - rewrite Hp. unfold l. rewrite <- size_dom. done.
Qed.

Lemma vacuumColumnIDs_wf next c :
  collection_wf c → 0 ≤ next → next + Z.of_nat (collection_size c) ≤ UINT32_MAX →
  collection_wf (vacuumColumnIDs next c).
Proof.
  intros Hwf Hn Hb. unfold collection_size in Hb. destruct (property_order_spec c) as (Hnd & Hin & Hlen).
  unfold vacuumColumnIDs. destruct (renumber _ _ _) as [ids next'] eqn:E.
  apply renumber_spec in E as (-> & Hdom & Hids & _); [|done|intros; apply lookup_empty|done|lia].
  assert (∀ i col, ids !! i = Some col → ∃ k, property_order c !! k = Some i ∧ col = next + Z.of_nat k) as Hcol.
  { intros i col Hi. assert (i ∈ property_order c) as Hp.
    { apply elem_of_dom_2 in Hi. rewrite Hdom in Hi. set_solver. }
    apply list_elem_of_lookup in Hp as [k Hk]. exists k. split; [done|]. rewrite (Hids _ _ Hk) in Hi. congruence. }
  split; cbn [nextColumnID nextPropertyID definitions columnIDs nameToPropertyIDMap].
  - apply (cw_names _ Hwf).
  - rewrite Hdom. apply set_eq. intros i. rewrite dom_empty_L, elem_of_union, elem_of_list_to_set, Hin. set_solver.
  - intros i j col (k & Hk & ->)%Hcol (l & Hl & E)%Hcol. assert (k = l) as -> by lia. congruence.
  - apply (cw_ids _ Hwf).
  - intros i col (k & Hk & ->)%Hcol. apply lookup_lt_Some in Hk. lia.
  - unfold UINT32_MAX, in_u in *. destruct (cw_range _ Hwf) as [_ Hr]. unfold in_u in Hr. lia.
Qed.
End Facts.
