(* ===== verification/TableEntry.v ===== *)
(** * Catalog entries of tables (catalog/catalog_entry/{table,node_table,rel_group}_catalog_entry.{h,cpp})

    What the entry of a node table or of a group of relationship tables holds, how
    [TableCatalogEntry::alter] derives the altered entry from it, and the conflicts that
    the operator of ALTER TABLE (processor/operator/ddl/alter.cpp) looks for first. *)

From S2P Require Import Prelude.
From S2P Require Import PropertyCollection.

(** Functions and bind data of foreign tables: values that an entry keeps and copies. *)
Class TableKind : Type := {
  TableKind_property :: PropertyKind;
  ScanFunction : Type;
  ScanFunction_eq_dec :: EqDecision ScanFunction;
}.

Inductive RelMultiplicity : Type := MANY | ONE.
Inductive ExtendDirection : Type := FWD | BWD | BOTH.
#[export] Instance RelMultiplicity_eq_dec : EqDecision RelMultiplicity.
Proof. solve_decision. Defined.
#[export] Instance ExtendDirection_eq_dec : EqDecision ExtendDirection.
Proof. solve_decision. Defined.

Record NodeTableIDPair : Type := mkPair { srcTableID : Z; dstTableID : Z }.
Record RelTableCatalogInfo : Type := mkRelInfo { nodePair : NodeTableIDPair; rel_oid : Z }.
#[export] Instance NodeTableIDPair_eq_dec : EqDecision NodeTableIDPair.
Proof. solve_decision. Defined.
#[export] Instance RelTableCatalogInfo_eq_dec : EqDecision RelTableCatalogInfo.
Proof. solve_decision. Defined.

Section Table.
Context `{TableKind}.

Record NodeTable : Type := mkNodeTable {
  primaryKeyName : string;
  node_storage : string;
  node_scanFunction : option ScanFunction;
  node_foreignDatabaseName : string;
  referencedEntry : option positive;
}.

Record RelGroup : Type := mkRelGroup {
  srcMultiplicity : RelMultiplicity;
  dstMultiplicity : RelMultiplicity;
  storageDirection : ExtendDirection;
  relTableInfos : list RelTableCatalogInfo;
  rel_storage : string;
  rel_scanFunction : option ScanFunction;
  scanBindData : option ScanFunction;
  rel_foreignDatabaseName : string;
}.

Inductive TableVariant : Type :=
| NodeTableCatalogEntry (n : NodeTable)
| RelGroupCatalogEntry (r : RelGroup).

Record TableCatalogEntry : Type := mkTable {
  comment : string;
  propertyCollection : PropertyDefinitionCollection;
  variant : TableVariant;
}.

#[export] Instance NodeTable_eq_dec : EqDecision NodeTable.
Proof. solve_decision. Defined.
#[export] Instance RelGroup_eq_dec : EqDecision RelGroup.
Proof. solve_decision. Defined.
#[export] Instance TableVariant_eq_dec : EqDecision TableVariant.
Proof. solve_decision. Defined.
#[export] Instance TableCatalogEntry_eq_dec : EqDecision TableCatalogEntry.
Proof. solve_decision. Defined.

Definition set_collection (c : PropertyDefinitionCollection) (t : TableCatalogEntry) : TableCatalogEntry :=
  mkTable (comment t) c (variant t).
Definition setComment (s : string) (t : TableCatalogEntry) : TableCatalogEntry :=
  mkTable s (propertyCollection t) (variant t).
Definition set_variant (v : TableVariant) (t : TableCatalogEntry) : TableCatalogEntry :=
  mkTable (comment t) (propertyCollection t) v.

Definition addProperty (d : PropertyDefinition) (t : TableCatalogEntry) : TableCatalogEntry :=
  set_collection (add d (propertyCollection t)) t.
Definition dropProperty (name : string) (t : TableCatalogEntry) : result TableCatalogEntry :=
  c ← drop name (propertyCollection t); mret (set_collection c t).

Definition containsProperty (name : string) (t : TableCatalogEntry) : bool :=
  contains name (propertyCollection t).

(** The virtual method: a node table follows the name of its primary key. *)
Definition renameProperty (name newName : string) (t : TableCatalogEntry) : result TableCatalogEntry :=
  c ← rename name newName (propertyCollection t);
  let t := set_collection c t in
  mret (match variant t with
        | NodeTableCatalogEntry n =>
            if caseInsensitiveEquals name (primaryKeyName n) then
              set_variant (NodeTableCatalogEntry (mkNodeTable newName (node_storage n)
                (node_scanFunction n) (node_foreignDatabaseName n) (referencedEntry n))) t
            else t
        | RelGroupCatalogEntry _ => t
        end).

(** *** Node tables *)
Definition newNodeTable (primaryKey storage : string) : TableCatalogEntry :=
  mkTable EmptyString (newCollection 0)
    (NodeTableCatalogEntry (mkNodeTable primaryKey storage None EmptyString None)).

Definition getPrimaryKeyID (t : TableCatalogEntry) (n : NodeTable) : result Z :=
  getPropertyID (primaryKeyName n) (propertyCollection t).

(** *** Groups of relationship tables *)
(** Column 0 is that of the neighbour's identifier. *)
Definition newRelGroup (src dst : RelMultiplicity) (dir : ExtendDirection)
    (infos : list RelTableCatalogInfo) (storage : string) (scan bind : option ScanFunction)
    (foreign : string) : TableCatalogEntry :=
  mkTable EmptyString (newCollection 1)
    (RelGroupCatalogEntry (mkRelGroup src dst dir infos storage scan bind foreign)).

Definition set_relTableInfos (infos : list RelTableCatalogInfo) (r : RelGroup) : RelGroup :=
  mkRelGroup (srcMultiplicity r) (dstMultiplicity r) (storageDirection r) infos (rel_storage r)
    (rel_scanFunction r) (scanBindData r) (rel_foreignDatabaseName r).

Definition addFromToConnection (src dst oid : Z) (r : RelGroup) : RelGroup :=
  set_relTableInfos (relTableInfos r ++ [mkRelInfo (mkPair src dst) oid]) r.

Definition dropFromToConnection (src dst : Z) (r : RelGroup) : RelGroup :=
  set_relTableInfos (filter (λ info, nodePair info ≠ mkPair src dst) (relTableInfos r)) r.

Definition isParent (tableID : Z) (t : TableCatalogEntry) : bool :=
  match variant t with
  | NodeTableCatalogEntry _ => false
  | RelGroupCatalogEntry r =>
      existsb (λ info, bool_decide (srcTableID (nodePair info) = tableID ∨
                                    dstTableID (nodePair info) = tableID)) (relTableInfos r)
  end.

Definition getRelEntryInfo (src dst : Z) (r : RelGroup) : option RelTableCatalogInfo :=
  List.find (λ info, bool_decide (nodePair info = mkPair src dst)) (relTableInfos r).
Definition hasRelEntryInfo (src dst : Z) (r : RelGroup) : bool :=
  bool_decide (is_Some (getRelEntryInfo src dst r)).

Definition getSrcNodeTableIDSet (r : RelGroup) : gset Z :=
  list_to_set ((λ info, srcTableID (nodePair info)) <$> relTableInfos r).
Definition getDstNodeTableIDSet (r : RelGroup) : gset Z :=
  list_to_set ((λ info, dstTableID (nodePair info)) <$> relTableInfos r).

(** *** Altering a table *)

(** [BoundAlterInfo]'s type and extra information; a default is a literal or not. *)
Inductive AlterInfo : Type :=
| RENAME (newName : string)
| ADD_PROPERTY (definition : PropertyDefinition) (literalDefault : bool)
| DROP_PROPERTY (propertyName : string)
| RENAME_PROPERTY (newName oldName : string)
| ADD_FROM_TO_CONNECTION (fromTableID toTableID : Z)
| DROP_FROM_TO_CONNECTION (fromTableID toTableID : Z)
| COMMENT (newComment : string).

(** [copy]: bind data and the referenced entry are not copied. *)
Definition copy (t : TableCatalogEntry) : TableCatalogEntry :=
  match variant t with
  | NodeTableCatalogEntry n => set_variant (NodeTableCatalogEntry
      (mkNodeTable (primaryKeyName n) (node_storage n) (node_scanFunction n)
         (node_foreignDatabaseName n) None)) t
  | RelGroupCatalogEntry r => set_variant (RelGroupCatalogEntry
      (mkRelGroup (srcMultiplicity r) (dstMultiplicity r) (storageDirection r) (relTableInfos r)
         (rel_storage r) (rel_scanFunction r) None (rel_foreignDatabaseName r))) t
  end.

(** The cast to a group of relationships is checked in debug builds only; on a node
    table it has no defined behaviour. *)
Definition rel_group (t : TableCatalogEntry) : result RelGroup :=
  match variant t with RelGroupCatalogEntry r => Ok r | NodeTableCatalogEntry _ => UB end.

(** The switch of [TableCatalogEntry::alter], with the next identifier of the set of
    tables; the name is a member of the base class and is changed there. *)
Definition alter (info : AlterInfo) (nextOID : Z) (t : TableCatalogEntry) : result (TableCatalogEntry * Z) :=
  let newEntry := copy t in
  match info with
  | RENAME _ => mret (newEntry, nextOID)
  | RENAME_PROPERTY newName oldName =>
      t ← renameProperty oldName newName newEntry; mret (t, nextOID)
  | ADD_PROPERTY definition _ => mret (addProperty definition newEntry, nextOID)
  | DROP_PROPERTY propertyName => t ← dropProperty propertyName newEntry; mret (t, nextOID)
  | COMMENT newComment => mret (setComment newComment newEntry, nextOID)
  | ADD_FROM_TO_CONNECTION src dst =>
      r ← rel_group newEntry;
      mret (set_variant (RelGroupCatalogEntry (addFromToConnection src dst nextOID r)) newEntry,
            wrap 64 (nextOID + 1))
  | DROP_FROM_TO_CONNECTION src dst =>
      r ← rel_group newEntry;
      mret (set_variant (RelGroupCatalogEntry (dropFromToConnection src dst r)) newEntry, nextOID)
  end.

(** ** The operator of ALTER TABLE *)

Inductive ConflictAction : Type := ON_CONFLICT_THROW | ON_CONFLICT_DO_NOTHING.
#[export] Instance ConflictAction_eq_dec : EqDecision ConflictAction.
Proof. solve_decision. Defined.

Record BoundAlterInfo : Type := mkAlter {
  alter_tableName : string;
  extraInfo : AlterInfo;
  onConflict : ConflictAction;
}.

(** What the checks ask of the catalog on behalf of the transaction. *)
Record AlterCatalog : Type := {
  containsTable : string → result bool;
  containsIndex : Z → bool;
  tableNameOf : Z → result string;
}.

Definition validate (action : ConflictAction) (throwAction : result ()) : result () :=
  match action with ON_CONFLICT_THROW => throwAction | ON_CONFLICT_DO_NOTHING => Ok () end.
Definition skipAlter (action : ConflictAction) (skipOnConflict : bool) : bool :=
  match action with ON_CONFLICT_THROW => false | ON_CONFLICT_DO_NOTHING => skipOnConflict end.

Definition propertyNotInTableMessage (table property : string) : string :=
  table +:+ " table does not have property " +:+ property +:+ ".".
Definition propertyInTableMessage (table property : string) : string :=
  table +:+ " table already has property " +:+ property +:+ ".".
Definition fromToInTableMessage (group from to : string) : string :=
  from +:+ "->" +:+ to +:+ " already exists in " +:+ group +:+ " table.".
Definition fromToNotInTableMessage (group from to : string) : string :=
  from +:+ "->" +:+ to +:+ " does not exist in " +:+ group +:+ " table.".

Definition validatePropertyExist (action : ConflictAction) (name : string) (t : TableCatalogEntry)
    (property : string) : result () :=
  validate action (if containsProperty property t then Ok ()
                   else throw RuntimeException (propertyNotInTableMessage name property)).
Definition validatePropertyNotExist (action : ConflictAction) (name : string) (t : TableCatalogEntry)
    (property : string) : result () :=
  validate action (if containsProperty property t
                   then throw RuntimeException (propertyInTableMessage name property) else Ok ()).

Definition checkAddPropertyConflicts (action : ConflictAction) (name : string) (t : TableCatalogEntry)
    (d : PropertyDefinition) (literalDefault : bool) : result bool :=
  _ ← validatePropertyNotExist action name t (getName d);
  match variant t, literalDefault with
  | RelGroupCatalogEntry _, false => throw RuntimeException
      "Cannot set a non-constant default value when adding columns on REL tables."
  | _, _ => mret (skipAlter action (containsProperty (getName d) t))
  end.

Definition checkDropPropertyConflicts (cat : AlterCatalog) (action : ConflictAction) (name : string)
    (t : TableCatalogEntry) (property : string) : result bool :=
  _ ← validatePropertyExist action name t property;
  _ ← (if containsProperty property t then
         propertyID ← getPropertyID property (propertyCollection t);
         isPrimaryKey ← match variant t with
                        | NodeTableCatalogEntry n => id ← getPrimaryKeyID t n; mret (bool_decide (id = propertyID))
                        | RelGroupCatalogEntry _ => mret false
                        end;
         if isPrimaryKey : bool then throw BinderException
           ("Cannot drop property " +:+ property +:+ " in table " +:+ name +:+
            " because it is used as primary key.")
         else if containsIndex cat propertyID then throw BinderException
           ("Cannot drop property " +:+ property +:+ " in table " +:+ name +:+
            " because it is used in one or more indexes. " +:+
            "Please remove the associated indexes before attempting to drop this property.")
         else mret ()
       else mret ());
  mret (skipAlter action (negb (containsProperty property t))).

Definition checkRenamePropertyConflicts (name : string) (t : TableCatalogEntry) (newName oldName : string) : result bool :=
  _ ← validatePropertyExist ON_CONFLICT_THROW name t oldName;
  _ ← validatePropertyNotExist ON_CONFLICT_THROW name t newName;
  mret false.

Definition checkRenameTableConflicts (cat : AlterCatalog) (newName : string) : result bool :=
  found ← containsTable cat newName;
  if found : bool then throw BinderException ("Table " +:+ newName +:+ " already exists.") else mret false.

Definition checkAddFromToConflicts (cat : AlterCatalog) (action : ConflictAction) (name : string)
    (t : TableCatalogEntry) (src dst : Z) : result bool :=
  r ← rel_group t;
  _ ← validate action (if hasRelEntryInfo src dst r then
         from ← tableNameOf cat src; to ← tableNameOf cat dst;
         throw BinderException (fromToInTableMessage name from to) else mret ());
  mret (skipAlter action (hasRelEntryInfo src dst r)).

Definition checkDropFromToConflicts (cat : AlterCatalog) (action : ConflictAction) (name : string)
    (t : TableCatalogEntry) (src dst : Z) : result bool :=
  r ← rel_group t;
  _ ← validate action (if hasRelEntryInfo src dst r then mret () else
         from ← tableNameOf cat src; to ← tableNameOf cat dst;
         throw BinderException (fromToNotInTableMessage name from to));
  mret (skipAlter action (negb (hasRelEntryInfo src dst r))).

(** The switch of [Alter::alterTable] before the catalog is changed: whether the
    statement is skipped.  The names of the two tables of a connection are looked up
    for its message. *)
Definition alterTable_skips (cat : AlterCatalog) (name : string) (t : TableCatalogEntry) (info : BoundAlterInfo) : result bool :=
  let action := onConflict info in
  match extraInfo info with
  | ADD_PROPERTY d lit => checkAddPropertyConflicts action name t d lit
  | DROP_PROPERTY property => checkDropPropertyConflicts cat action name t property
  | RENAME_PROPERTY newName oldName => checkRenamePropertyConflicts name t newName oldName
  | RENAME newName => checkRenameTableConflicts cat newName
  | ADD_FROM_TO_CONNECTION src dst =>
      _ ← tableNameOf cat src; _ ← tableNameOf cat dst; checkAddFromToConflicts cat action name t src dst
  | DROP_FROM_TO_CONNECTION src dst =>
      _ ← tableNameOf cat src; _ ← tableNameOf cat dst; checkDropFromToConflicts cat action name t src dst
  | COMMENT _ => mret false
  end.
End Table.
