(* ===== verification/TableEntryTheorems.v ===== *)
(** * Altered tables stay well formed

    The conflicts that ALTER TABLE looks for are enough: whatever the alteration, an
    entry that passes them has unique names, a column of its own for each property and a
    primary key that exists; the columns of the other properties do not move. *)

From S2P Require Import Prelude.
From S2P Require Import PropertyCollection.
From S2P Require Import TableEntry.

Section Alter.
Context `{TableKind}.

(** Well-formed entries, with every relationship table numbered below [nextOID]. *)
Record table_wf (nextOID : Z) (t : TableCatalogEntry) : Prop := {
  tw_collection : collection_wf (propertyCollection t);
  tw_primary : ∀ n, variant t = NodeTableCatalogEntry n → containsProperty (primaryKeyName n) t = true;
  tw_pairs : ∀ r, variant t = RelGroupCatalogEntry r → NoDup (nodePair <$> relTableInfos r);
  tw_oids : ∀ r, variant t = RelGroupCatalogEntry r →
    NoDup (rel_oid <$> relTableInfos r) ∧ Forall (λ info, rel_oid info < nextOID) (relTableInfos r);
}.

(** Entries whose properties can be altered; what is left of [table_wf] without the
    connections. *)
Record table_sound (t : TableCatalogEntry) : Prop := {
  ts_collection : collection_wf (propertyCollection t);
  ts_primary : ∀ n, variant t = NodeTableCatalogEntry n → containsProperty (primaryKeyName n) t = true;
}.

(** A new property needs a column and an identifier; only groups of relationship tables
    have connections. *)
Definition alter_fits (info : AlterInfo) (t : TableCatalogEntry) : Prop :=
  match info with
  | ADD_PROPERTY _ _ => nextColumnID (propertyCollection t) < UINT32_MAX ∧ nextPropertyID (propertyCollection t) < UINT32_MAX
  | ADD_FROM_TO_CONNECTION _ _ | DROP_FROM_TO_CONNECTION _ _ => ∃ r, variant t = RelGroupCatalogEntry r
  | _ => True
  end.

(** Room for one more property and one more table. *)
Definition table_room (nextOID : Z) (t : TableCatalogEntry) : Prop :=
  nextColumnID (propertyCollection t) < UINT32_MAX ∧ nextPropertyID (propertyCollection t) < UINT32_MAX ∧
  0 ≤ nextOID < UINT64_MAX.

(** A property that both entries have keeps its column; one that only the altered
    entry has gets a column that no property had. *)
Definition columns_kept (t t' : TableCatalogEntry) : Prop :=
  ∀ i col, columnIDs (propertyCollection t') !! i = Some col →
    columnIDs (propertyCollection t) !! i = Some col ∨
    (columnIDs (propertyCollection t) !! i = None ∧ ∀ j, columnIDs (propertyCollection t) !! j ≠ Some col).

Lemma copy_collection t : propertyCollection (copy t) = propertyCollection t.
Proof. unfold copy. by destruct (variant t). Qed.

Lemma copy_wf next t : table_wf next t → table_wf next (copy t).
Proof.
  intros [Hc Hp Hd Ho]. split; [by rewrite copy_collection|..]; unfold copy in *; destruct (variant t) as [n|r];
    cbn [variant set_variant]; intros x [= <-]; unfold containsProperty; cbn [propertyCollection set_variant primaryKeyName relTableInfos].
  - by apply (Hp n).
  - by apply (Hd r).
  - by apply (Ho r).
Qed.

Lemma wf_sound next t : table_wf next t → table_sound t.
Proof. by intros [Hc Hp _ _]. Qed.

Lemma sound_wf next t t' : table_wf next t → (∀ r, variant t' = RelGroupCatalogEntry r → variant t = RelGroupCatalogEntry r) →
  table_sound t' → table_wf next t'.
Proof. intros [_ _ Hd Ho] Hv [Hc' Hp']. split; auto. Qed.

Lemma copy_sound t : table_sound t → table_sound (copy t).
Proof.
  intros [Hc Hp]. split; [by rewrite copy_collection|]. unfold copy in *. destruct (variant t) as [n|r];
    cbn [variant set_variant]; intros x [= <-]. by apply (Hp n).
Qed.

Lemma sound_variant t t' : variant t' = variant t → collection_wf (propertyCollection t') →
  (∀ n, variant t = NodeTableCatalogEntry n → containsProperty (primaryKeyName n) t' = true) → table_sound t'.
Proof. intros Hv Hc' Hp'. split; [done|rewrite Hv]. auto. Qed.

Lemma wf_variant next t t' : table_wf next t → variant t' = variant t → collection_wf (propertyCollection t') →
  (∀ n, variant t = NodeTableCatalogEntry n → containsProperty (primaryKeyName n) t' = true) → table_wf next t'.
Proof. intros Hwf Hv Hc' Hp'. eapply sound_wf; [done|by rewrite Hv|]. by eapply sound_variant. Qed.

Lemma contains_lower a b c : lower a = lower b → contains a c = contains b c.
Proof. intros E. unfold contains. by rewrite E. Qed.

Lemma added_sound d t : table_sound t → alter_fits (ADD_PROPERTY d true) t → containsProperty (getName d) t = false →
  table_sound (addProperty d t) ∧ columns_kept t (addProperty d t).
Proof.
  intros Hwf (Hcol & Hid) Hfree. pose proof (ts_collection _ Hwf) as Hc. pose proof (next_fresh _ Hc) as [Hd Hnc]. split.
  - eapply sound_variant; [done|cbn; by apply add_wf|].
    intros n Hn. pose proof (ts_primary _ Hwf n Hn) as Hp. unfold containsProperty, addProperty in *.
    cbn [propertyCollection set_collection]. apply contains_spec; [by apply add_wf|].
    apply contains_spec in Hp as (i & e & He & El); [|done]. exists i, e. split; [|done].
    cbn. rewrite emplace_None by done. rewrite lookup_insert_ne; [done|]. congruence.
  - intros i col. cbn. rewrite emplace_None by done.
    intros [[<- <-]|[_ Hi]]%lookup_insert_Some; [right|by left]. split; [done|].
    intros j Hj. apply (cw_next _ Hc) in Hj. lia.
Qed.

Lemma added_wf next d t :
  table_wf next t → table_room next t → containsProperty (getName d) t = false →
  table_wf next (addProperty d t) ∧ columns_kept t (addProperty d t).
Proof.
  intros Hwf (Hcol & Hid & _) Hfree. destruct (added_sound d t) as [Hs Hk]; [by eapply wf_sound|done|done|].
  split; [by eapply sound_wf|done].
Qed.

Lemma dropped_sound name t t' :
  table_sound t → containsProperty name t = true →
  (∀ n i, variant t = NodeTableCatalogEntry n → getPrimaryKeyID t n = Ok i →
    getPropertyID name (propertyCollection t) ≠ Ok i) →
  dropProperty name t = Ok t' → table_sound t' ∧ variant t' = variant t ∧ columns_kept t t'.
Proof.
  intros Hwf Hcont Hpk E. pose proof (ts_collection _ Hwf) as Hc. unfold dropProperty in E.
  destruct (drop_ok _ _ Hc Hcont) as (i & d & Hd & Hl & Ed). pose proof (drop_wf _ _ _ Hc Hcont Ed) as Hc'.
  rewrite Ed in E. injection E as <-. split_and!; [|done|].
  - eapply sound_variant; [done..|]. intros n Hn. unfold containsProperty. cbn [propertyCollection set_collection].
    apply contains_spec; [done|]. pose proof (ts_primary _ Hwf n Hn) as (j & e & He & El)%contains_spec; [|done].
    exists j, e. split; [|done]. cbn [definitions]. rewrite lookup_delete_ne; [done|]. intros <-.
    apply (Hpk n i Hn); unfold getPrimaryKeyID; apply getPropertyID_spec; eauto.
  - intros j col. cbn [propertyCollection set_collection columnIDs].
    intros [_ Hj]%lookup_delete_Some. by left.
Qed.

Lemma renamed_sound name newName t t' :
  table_sound t → containsProperty name t = true → containsProperty newName t = false →
  renameProperty name newName t = Ok t' →
  table_sound t' ∧ (∀ r, variant t' = RelGroupCatalogEntry r → variant t = RelGroupCatalogEntry r) ∧ columns_kept t t'.
Proof.
  intros Hwf Hcont Hfree E. pose proof (ts_collection _ Hwf) as Hc. unfold renameProperty in E.
  destruct (rename_ok _ newName _ Hc Hcont) as (i & d & Hd & Hl & Er).
  pose proof (rename_wf _ _ _ _ Hc Hcont Hfree Er) as Hc'. rewrite Er in E.
  set (c' := mkCollection _ _ _ _ _) in *.
  assert (propertyCollection t' = c') as Ec.
  { cbn [mbind result_bind] in E. injection E as <-. cbn [variant set_collection].
    destruct (variant t) as [n|r]; [|done]. by destruct (caseInsensitiveEquals _ _). }
  cbn [mbind result_bind] in E. injection E as <-. cbn [variant set_collection] in *.
  split_and!; [| |intros j col Hj; left; by rewrite Ec in Hj].
  2:{ intros r. destruct (variant t) as [n|r'] eqn:Ev; [by destruct (caseInsensitiveEquals _ _); cbn; rewrite ?Ev|].
      cbn. by rewrite Ev. }
  destruct (variant t) as [n|r] eqn:Ev.
  2:{ eapply (sound_variant t); [by rewrite Ev|done|]. intros n Hn. by rewrite Ev in Hn. }
  destruct (caseInsensitiveEquals name (primaryKeyName n)) eqn:Eq; unfold caseInsensitiveEquals in Eq.
  - split; cbn [variant set_variant]; [done|]. intros m [= <-]. unfold containsProperty.
    cbn [primaryKeyName]. rewrite Ec. apply contains_spec; [done|]. exists i, (property_rename newName d).
    split; [|done]. unfold c'. cbn. by rewrite lookup_insert_eq.
  - apply bool_decide_eq_false in Eq. eapply (sound_variant t); [done|done|]. intros m Hm.
    assert (m = n) as -> by congruence. pose proof (ts_primary _ Hwf n Ev) as (j & e & He & El)%contains_spec; [|done].
    apply contains_spec; [done|]. exists j, e. split; [|done]. cbn. rewrite lookup_insert_ne; [done|].
    intros <-. congruence.
Qed.

Lemma connection_wf next next' infos t r :
  table_wf next t → variant t = RelGroupCatalogEntry r →
  NoDup (nodePair <$> infos) → NoDup (rel_oid <$> infos) → Forall (λ info, rel_oid info < next') infos →
  table_wf next' (set_variant (RelGroupCatalogEntry (set_relTableInfos infos r)) t).
Proof.
  intros [Hc Hp Hd Ho] Hv Hn1 Hn2 Ha. split; cbn [propertyCollection variant set_variant]; [done|done|..].
  all: intros x [= <-]; cbn; done.
Qed.

Lemma hasRelEntryInfo_spec src dst r :
  hasRelEntryInfo src dst r = false → mkPair src dst ∉ nodePair <$> relTableInfos r.
Proof.
  unfold hasRelEntryInfo, getRelEntryInfo. rewrite bool_decide_eq_false. intros Hn Hin. apply Hn.
  apply list_elem_of_fmap in Hin as (info & E & Hi). destruct (List.find _ _) eqn:Ef; [by eexists|].
  eapply List.find_none in Ef; [|by apply list_elem_of_In]. cbn in Ef. by apply bool_decide_eq_false in Ef.
Qed.

Lemma NoDup_fmap_sublist {A B} (f : A → B) (l k : list A) : l `sublist_of` k → NoDup (f <$> k) → NoDup (f <$> l).
Proof. intros Hs Hk. eapply sublist_NoDup; [exact Hk|]. by apply fmap_sublist. Qed.

Lemma dropProperty_ok name t : collection_wf (propertyCollection t) → containsProperty name t = true →
  ∃ t', dropProperty name t = Ok t'.
Proof.
  intros Hc Hin. destruct (drop_ok _ _ Hc Hin) as (i & d & _ & _ & E). unfold dropProperty. rewrite E. by eexists.
Qed.

Lemma renameProperty_ok name newName t : collection_wf (propertyCollection t) → containsProperty name t = true →
  ∃ t', renameProperty name newName t = Ok t'.
Proof.
  intros Hc Hin. destruct (rename_ok _ newName _ Hc Hin) as (i & d & _ & _ & E). unfold renameProperty. rewrite E. by eexists.
Qed.

Lemma copy_rel t r : variant t = RelGroupCatalogEntry r →
  ∃ r', variant (copy t) = RelGroupCatalogEntry r' ∧ relTableInfos r' = relTableInfos r.
Proof. intros E. unfold copy. rewrite E. eexists. split; [done|]. done. Qed.

(** *** What a passed check says *)
Lemma passed_add action name t d lit :
  checkAddPropertyConflicts action name t d lit = Ok false → containsProperty (getName d) t = false.
Proof.
  unfold checkAddPropertyConflicts, validatePropertyNotExist, validate, skipAlter.
  destruct action; destruct (containsProperty _ _); cbn; destruct (variant t), lit; done.
Qed.

Lemma passed_drop cat action name t property :
  checkDropPropertyConflicts cat action name t property = Ok false →
  containsProperty property t = true ∧
  ∀ n i, variant t = NodeTableCatalogEntry n → getPrimaryKeyID t n = Ok i →
    getPropertyID property (propertyCollection t) ≠ Ok i.
Proof.
  unfold checkDropPropertyConflicts, validatePropertyExist, validate, skipAlter.
  destruct action; (destruct (containsProperty _ _); [|by cbn]); cbn; intros E; (split; [done|]);
    intros n i Hv Hi Hp; rewrite Hv, Hp, Hi in E; cbn in E; rewrite bool_decide_true in E by done; done.
Qed.

Lemma passed_rename name t newName oldName :
  checkRenamePropertyConflicts name t newName oldName = Ok false →
  containsProperty oldName t = true ∧ containsProperty newName t = false.
Proof.
  unfold checkRenamePropertyConflicts, validatePropertyExist, validatePropertyNotExist, validate.
  destruct (containsProperty oldName t), (containsProperty newName t); done.
Qed.

Lemma passed_connect cat action name t src dst :
  checkAddFromToConflicts cat action name t src dst = Ok false →
  ∃ r, variant t = RelGroupCatalogEntry r ∧ hasRelEntryInfo src dst r = false.
Proof.
  unfold checkAddFromToConflicts, rel_group, validate, skipAlter.
  destruct (variant t) as [n|r]; [done|]. intros E. exists r. split; [done|]. cbn [mbind result_bind] in E.
  destruct action; destruct (hasRelEntryInfo src dst r); try done; cbn in E.
  destruct (tableNameOf cat src); [|done..]. cbn in E. by destruct (tableNameOf cat dst).
Qed.

Lemma passed_disconnect cat action name t src dst :
  checkDropFromToConflicts cat action name t src dst = Ok false → ∃ r, variant t = RelGroupCatalogEntry r.
Proof.
  unfold checkDropFromToConflicts, rel_group. destruct (variant t) as [n|r]; [done|]. eauto.
Qed.

Lemma passed_names {A} (m n : result A) (k : result bool) b :
  (_ ← m; _ ← n; k) = Ok b → k = Ok b.
Proof. destruct m; [|done..]. by destruct n. Qed.

Lemma same_columns t : columns_kept t t.
Proof. by left. Qed.

Lemma columns_copied t t' : columns_kept (copy t) t' → columns_kept t t'.
Proof. unfold columns_kept. by rewrite copy_collection. Qed.

Lemma columns_unchanged t t' : propertyCollection t' = propertyCollection t → columns_kept t t'.
Proof. intros E i col. rewrite E. by left. Qed.

(** An alteration that passes the checks succeeds and keeps the entry sound; the checks
    themselves need a sound entry and names that can be looked up. *)
Lemma altered_sound cat name t info nextOID :
  table_sound t → alter_fits (extraInfo info) t → alterTable_skips cat name t info = Ok false →
  ∃ t' next', alter (extraInfo info) nextOID t = Ok (t', next') ∧ table_sound t'.
Proof.
  intros Hwf Hfit Hs. pose proof (copy_sound _ Hwf) as Hcwf. destruct info as [table info action].
  unfold alterTable_skips, alter in *. cbn [extraInfo onConflict] in *.
  assert (∀ s, containsProperty s (copy t) = containsProperty s t) as Hcc.
  { intros s. unfold containsProperty. by rewrite copy_collection. }
  assert (∀ t', variant t' = variant (copy t) → propertyCollection t' = propertyCollection (copy t) → table_sound t') as Hsame.
  { intros t' Hv Ec. eapply sound_variant; [done|rewrite Ec; apply Hcwf|]. intros n Hn. unfold containsProperty. rewrite Ec.
    by apply (ts_primary _ Hcwf). }
  destruct info as [new|d lit|property|new old|src dst|src dst|com].
  - by exists (copy t), nextOID.
  - destruct (added_sound d _ Hcwf) as [Hw _]; [cbn; by rewrite copy_collection|rewrite Hcc; by eapply passed_add|].
    by eexists _, nextOID.
  - destruct (passed_drop _ _ _ _ _ Hs) as [Hin Hpk].
    destruct (dropProperty_ok property (copy t)) as [t' E]; [apply Hcwf|by rewrite Hcc|].
    destruct (dropped_sound property (copy t) t') as [Hw _]; [done|by rewrite Hcc| |done|].
    { intros n j Hv. unfold getPrimaryKeyID. rewrite copy_collection. unfold copy in Hv.
      destruct (variant t) as [m|r] eqn:Ev; [|done]. injection Hv as <-. by apply (Hpk m j). }
    rewrite E. by eexists _, nextOID.
  - destruct (passed_rename _ _ _ _ Hs) as [Hin Hfree].
    destruct (renameProperty_ok old new (copy t)) as [t' E]; [apply Hcwf|by rewrite Hcc|].
    destruct (renamed_sound old new (copy t) t') as [Hw _]; [done|by rewrite Hcc..|done|].
    rewrite E. by eexists _, nextOID.
  - destruct Hfit as [r Hv]. destruct (copy_rel _ _ Hv) as (r' & Hv' & _). unfold rel_group. rewrite Hv'.
    eexists _, _. split; [done|]. split; [apply Hcwf|]. intros n. cbn. done.
  - destruct Hfit as [r Hv]. destruct (copy_rel _ _ Hv) as (r' & Hv' & _). unfold rel_group. rewrite Hv'.
    eexists _, _. split; [done|]. split; [apply Hcwf|]. intros n. cbn. done.
  - eexists _, nextOID. split; [done|]. by apply Hsame.
Qed.

Lemma skips_defined cat name t info :
  table_sound t → alter_fits (extraInfo info) t → (∀ s, containsTable cat s ≠ UB) → (∀ id, tableNameOf cat id ≠ UB) →
  alterTable_skips cat name t info ≠ UB.
Proof.
  intros Hwf Hfit Hcont Hname. destruct info as [table info action]. unfold alterTable_skips. cbn [extraInfo onConflict] in *.
  destruct info as [new|d lit|property|new old|src dst|src dst|com].
  - unfold checkRenameTableConflicts. specialize (Hcont new). by destruct (containsTable cat new) as [[]| |].
  - unfold checkAddPropertyConflicts, validatePropertyNotExist, validate.
    destruct action, (containsProperty _ _), (variant t), lit; done.
  - unfold checkDropPropertyConflicts, validatePropertyExist, validate.
    destruct (containsProperty property t) eqn:Hp; [|by destruct action].
    destruct (getPropertyID_contains _ _ Hp) as [i ->]. destruct (variant t) as [n|r] eqn:Ev.
    + unfold getPrimaryKeyID. destruct (getPropertyID_contains _ _ (ts_primary _ Hwf n Ev)) as [j ->]. cbn.
      destruct action; case_bool_decide; try done; by destruct (containsIndex cat i).
    + cbn. destruct action; by destruct (containsIndex cat i).
  - unfold checkRenamePropertyConflicts, validatePropertyExist, validatePropertyNotExist, validate.
    by destruct (containsProperty old t), (containsProperty new t).
  - destruct Hfit as [r Hv]. unfold checkAddFromToConflicts, rel_group, validate. rewrite Hv.
    pose proof (Hname src). pose proof (Hname dst). destruct (tableNameOf cat src), (tableNameOf cat dst); try done.
    cbn [mbind result_bind]. destruct action; by destruct (hasRelEntryInfo src dst r).
  - destruct Hfit as [r Hv]. unfold checkDropFromToConflicts, rel_group, validate. rewrite Hv.
    pose proof (Hname src). pose proof (Hname dst). destruct (tableNameOf cat src), (tableNameOf cat dst); try done.
    cbn [mbind result_bind]. destruct action; by destruct (hasRelEntryInfo src dst r).
  - done.
Qed.

(** C27: An alteration that passes the checks of ALTER TABLE succeeds and keeps the entry well formed: names unique whatever their case, a column of its own for every property, a primary key that exists, each pair of node tables connected once, relationship tables numbered apart.  Properties that stay keep their columns, and a new one gets a column none had. *)
Theorem altered_table_wf cat name t info nextOID :
  table_wf nextOID t → table_room nextOID t → alterTable_skips cat name t info = Ok false →
  ∃ t' next', alter (extraInfo info) nextOID t = Ok (t', next') ∧ table_wf next' t' ∧ nextOID ≤ next' ∧ columns_kept t t'.
Proof.
  intros Hwf Hroom Hs. pose proof (copy_wf _ _ Hwf) as Hcwf. destruct info as [table info action].
  unfold alterTable_skips, alter in *. cbn [extraInfo onConflict] in *.
  assert (table_room nextOID (copy t)) as Hcroom by (unfold table_room; by rewrite copy_collection).
  assert (∀ s, containsProperty s (copy t) = containsProperty s t) as Hcc.
  { intros s. unfold containsProperty. by rewrite copy_collection. }
  destruct info as [new|d lit|property|new old|src dst|src dst|com].
  - exists (copy t), nextOID. split_and!; [done..|lia|]. apply columns_unchanged, copy_collection.
  - destruct (added_wf _ d _ Hcwf Hcroom) as [Hw Hk]; [rewrite Hcc; by eapply passed_add|].
    eexists _, nextOID. split_and!; [done..|lia|]. by apply columns_copied.
  - destruct (passed_drop _ _ _ _ _ Hs) as [Hin Hpk].
    destruct (dropProperty_ok property (copy t)) as [t' E]; [apply Hcwf|by rewrite Hcc|].
    destruct (dropped_sound property (copy t) t') as (Hw & Hv' & Hk); [by eapply wf_sound|by rewrite Hcc| |done|].
    { intros n j Hv. unfold getPrimaryKeyID. rewrite copy_collection. unfold copy in Hv.
      destruct (variant t) as [m|r] eqn:Ev; [|done]. injection Hv as <-. by apply (Hpk m j). }
    rewrite E. eexists _, nextOID. split_and!; [done|eapply sound_wf; [done|by rewrite Hv'|done]|lia|by apply columns_copied].
  - destruct (passed_rename _ _ _ _ Hs) as [Hin Hfree].
    destruct (renameProperty_ok old new (copy t)) as [t' E]; [apply Hcwf|by rewrite Hcc|].
    destruct (renamed_sound old new (copy t) t') as (Hw & Hv' & Hk); [by eapply wf_sound|by rewrite Hcc..|done|].
    rewrite E. eexists _, nextOID. split_and!; [done|by eapply sound_wf|lia|by apply columns_copied].
  - apply passed_names, passed_connect in Hs as (r & Hv & Hno). destruct (copy_rel _ _ Hv) as (r' & Hv' & Hinf).
    unfold rel_group. rewrite Hv'. cbn [mbind result_bind]. destruct Hroom as (_ & _ & Ho). unfold UINT64_MAX in Ho.
    eexists _, _. split; [done|]. rewrite wrap_id by (unfold in_u; lia).
    split_and!; [|lia|by apply columns_unchanged, copy_collection].
    destruct (tw_oids _ _ Hcwf _ Hv') as [Hn2 Ha]. pose proof (tw_pairs _ _ Hcwf _ Hv') as Hn1.
    eapply connection_wf; [done|done|..]; rewrite ?fmap_app.
    + apply NoDup_app. split_and!; [done| |apply NoDup_singleton]. intros x Hx ->%list_elem_of_singleton.
      apply hasRelEntryInfo_spec in Hno. by rewrite Hinf in Hx.
    + apply NoDup_app. split_and!; [done| |apply NoDup_singleton]. intros x Hx ->%list_elem_of_singleton.
      apply list_elem_of_fmap in Hx as (info & E & Hi). rewrite Forall_forall in Ha. apply Ha in Hi. cbn in E. lia.
    + apply Forall_app. split; [|by repeat constructor; cbn; lia].
      eapply Forall_impl; [done|]. intros x Hx. cbn in Hx |- *. lia.
  - apply passed_names, passed_disconnect in Hs as (r & Hv). destruct (copy_rel _ _ Hv) as (r' & Hv' & Hinf).
    unfold rel_group. rewrite Hv'. cbn [mbind result_bind]. eexists _, _. split; [done|].
    split_and!; [|lia|by apply columns_unchanged, copy_collection].
    destruct (tw_oids _ _ Hcwf _ Hv') as [Hn2 Ha]. pose proof (tw_pairs _ _ Hcwf _ Hv') as Hn1.
    eapply connection_wf; [done|done|..].
    + by eapply NoDup_fmap_sublist; [apply sublist_filter|].
    + by eapply NoDup_fmap_sublist; [apply sublist_filter|].
    + rewrite Forall_forall in Ha |- *. intros x [_ Hx]%list_elem_of_filter. by apply Ha.
  - eexists _, nextOID. split; [done|]. split_and!; [|lia|by apply columns_unchanged, copy_collection].
    eapply wf_variant; [done..|apply Hcwf|]. intros n Hn. by apply (tw_primary _ _ Hcwf).
Qed.
End Alter.

(** ** A concrete table *)
Definition string_kind : TableKind := {|
  TableKind_property := {| PropertyType := string |};
  ScanFunction := unit;
|}.
#[local] Existing Instance string_kind.

Definition person : TableCatalogEntry :=
  addProperty (mkProperty "name" "STRING") (addProperty (mkProperty "id" "INT64") (newNodeTable "ID" EmptyString)).
Definition no_catalog : AlterCatalog :=
  {| containsTable _ := Ok false; containsIndex _ := false; tableNameOf _ := Ok "t" |}.
Definition rename_id : BoundAlterInfo := mkAlter "person" (RENAME_PROPERTY "key" "Id") ON_CONFLICT_THROW.

Lemma person_wf : table_wf 1 person.
Proof.
  assert (table_wf 1 (addProperty (mkProperty "id" "INT64") (newNodeTable "ID" EmptyString))) as H1.
  { split; [| |done..].
    - apply add_wf; [apply newCollection_wf; unfold in_u; lia|done..].
    - intros n [= <-]. done. }
  apply added_wf; [done| |done]. unfold table_room. split_and!; vm_compute; (reflexivity || discriminate).
Qed.

Lemma altered_table_wf_witness :
  alterTable_skips no_catalog "person" person rename_id = Ok false ∧
  ∃ t' next', alter (extraInfo rename_id) 1 person = Ok (t', next') ∧ table_wf next' t' ∧ 1 ≤ next' ∧ columns_kept person t'.
Proof.
  split; [reflexivity|].
  apply (altered_table_wf no_catalog "person" person rename_id 1); [exact person_wf| |reflexivity].
  unfold table_room. split_and!; vm_compute; (reflexivity || discriminate).
Defined.

(** The primary key follows its property; other spellings of a name are the same name. *)
Example renamed_key :
  alter (extraInfo rename_id) 1 person =
  Ok (mkTable EmptyString (mkCollection 2 2 {[0 := mkProperty "key" "INT64"; 1 := mkProperty "name" "STRING"]}
        {[0 := 0; 1 := 1]} {["key" := 0; "name" := 1]})
      (NodeTableCatalogEntry (mkNodeTable "key" EmptyString None EmptyString None)), 1).
Proof. vm_compute. reflexivity. Qed.

Example key_not_dropped :
  alterTable_skips no_catalog "person" person (mkAlter "person" (DROP_PROPERTY "ID") ON_CONFLICT_DO_NOTHING) =
  throw BinderException "Cannot drop property ID in table person because it is used as primary key.".
Proof. reflexivity. Qed.

(** Nothing checks that the table of ADD FROM ... TO ... is one of relationships. *)
Example connection_of_node_table action :
  alterTable_skips no_catalog "person" person (mkAlter "person" (ADD_FROM_TO_CONNECTION 0 0) action) = UB.
Proof. reflexivity. Qed.
