(* ===== verification/CatalogSet.v ===== *)
(** * Versioned catalog sets (catalog/catalog_set.{h,cpp}, catalog_entry/catalog_entry.{h,cpp})

    A set maps case-insensitive names to chains of versions, newest first, linked both
    ways through [prev] (owning) and [next].  The entries live in a heap: destroying a
    [unique_ptr] removes the entry, and a pointer to it that is used afterwards finds
    nothing, which is undefined behaviour.  An address is not given out twice.

    Every operation runs under the lock of the set; what a transaction appends to its
    undo buffer and to its local log is in the [Session].  Commit and rollback of the
    records (storage/undo_buffer.cpp) take no lock: they are steps of their own here. *)

From S2P Require Import Prelude.
From S2P Require Import Transaction.
From S2P Require Import PropertyCollection.
From S2P Require Import TableEntry.

(** ** Entries *)
Inductive CatalogEntryType : Type :=
| NODE_TABLE_ENTRY | REL_GROUP_ENTRY | FOREIGN_TABLE_ENTRY | SCALAR_MACRO_ENTRY
| AGGREGATE_FUNCTION_ENTRY | SCALAR_FUNCTION_ENTRY | REWRITE_FUNCTION_ENTRY | TABLE_FUNCTION_ENTRY
| COPY_FUNCTION_ENTRY | STANDALONE_TABLE_FUNCTION_ENTRY | SEQUENCE_ENTRY | TYPE_ENTRY | INDEX_ENTRY
| GRAPH_ENTRY | DUMMY_ENTRY.

#[export] Instance CatalogEntryType_eq_dec : EqDecision CatalogEntryType.
Proof. solve_decision. Defined.

(** [UNREACHABLE_CODE] throws; the file and line of its message are left out. *)
Definition unreachable {A} : result A := throw InternalException "UNREACHABLE_CODE".

Definition CatalogEntryTypeUtils_toString (ty : CatalogEntryType) : result string :=
  match ty with
  | NODE_TABLE_ENTRY => Ok "NODE_TABLE_ENTRY"
  | REL_GROUP_ENTRY => Ok "REL_GROUP_ENTRY"
  | FOREIGN_TABLE_ENTRY => Ok "FOREIGN_TABLE_ENTRY"
  | SCALAR_MACRO_ENTRY => Ok "SCALAR_MACRO_ENTRY"
  | AGGREGATE_FUNCTION_ENTRY => Ok "AGGREGATE_FUNCTION_ENTRY"
  | SCALAR_FUNCTION_ENTRY => Ok "SCALAR_FUNCTION_ENTRY"
  | REWRITE_FUNCTION_ENTRY => Ok "REWRITE_FUNCTION_ENTRY"
  | TABLE_FUNCTION_ENTRY => Ok "TABLE_FUNCTION_ENTRY"
  | STANDALONE_TABLE_FUNCTION_ENTRY => Ok "STANDALONE_TABLE_FUNCTION_ENTRY"
  | COPY_FUNCTION_ENTRY => Ok "COPY_FUNCTION_ENTRY"
  | DUMMY_ENTRY => Ok "DUMMY_ENTRY"
  | SEQUENCE_ENTRY => Ok "SEQUENCE_ENTRY"
  | GRAPH_ENTRY => Ok "GRAPH_ENTRY"
  | TYPE_ENTRY | INDEX_ENTRY => unreachable
  end.

Definition INVALID_OID : Z := UINT64_MAX.
Definition INTERNAL_CATALOG_SET_START_OID : Z := 2 ^ 63.

(** The members of the subclasses other than tables, which the set never looks at. *)
Class CatalogKind : Type := {
  CatalogKind_table :: TableKind;
  OtherEntry : Type;
  OtherEntry_eq_dec :: EqDecision OtherEntry;
}.

Section Set_.
Context `{CatalogKind}.

Inductive EntryData : Type :=
| TableData (t : TableCatalogEntry)
| OtherData (o : OtherEntry)
| DummyData.
#[export] Instance EntryData_eq_dec : EqDecision EntryData.
Proof. solve_decision. Defined.

(** The members of an entry but for its links. *)
Record EntryBody : Type := mkBody {
  entry_type : CatalogEntryType;
  entry_name : string;
  oid : Z;
  timestamp : Z;
  deleted : bool;
  hasParent : bool;
  data : EntryData;
}.
#[export] Instance EntryBody_eq_dec : EqDecision EntryBody.
Proof. solve_decision. Defined.

Definition setTimestamp (ts : Z) (b : EntryBody) : EntryBody :=
  mkBody (entry_type b) (entry_name b) (oid b) ts (deleted b) (hasParent b) (data b).
Definition setOID (o : Z) (b : EntryBody) : EntryBody :=
  mkBody (entry_type b) (entry_name b) o (timestamp b) (deleted b) (hasParent b) (data b).

(** The constructor of the subclasses, and that of dummy entries. *)
Definition newEntry (ty : CatalogEntryType) (name : string) (d : EntryData) : EntryBody :=
  mkBody ty name INVALID_OID INVALID_TRANSACTION false false d.
Definition DummyCatalogEntry (name : string) (o : Z) : EntryBody :=
  mkBody DUMMY_ENTRY name o 0 true false DummyData.

Record CatalogEntry : Type := mkEntry {
  body : EntryBody;
  prev : option positive;
  next : option positive;
}.
#[export] Instance CatalogEntry_eq_dec : EqDecision CatalogEntry.
Proof. solve_decision. Defined.

Definition set_body (f : EntryBody → EntryBody) (e : CatalogEntry) : CatalogEntry :=
  mkEntry (f (body e)) (prev e) (next e).
Definition set_prev (p : option positive) (e : CatalogEntry) : CatalogEntry := mkEntry (body e) p (next e).
Definition set_next (n : option positive) (e : CatalogEntry) : CatalogEntry := mkEntry (body e) (prev e) n.

Notation Heap := (gmap positive CatalogEntry).

Record CatalogSet : Type := mkSet {
  nextOID : Z;
  entries : gmap string positive;
  heap : Heap;
  fresh_ref : positive;
}.
#[export] Instance CatalogSet_eq_dec : EqDecision CatalogSet.
Proof. solve_decision. Defined.

Definition newCatalogSet (internal : bool) : CatalogSet :=
  mkSet (if internal then INTERNAL_CATALOG_SET_START_OID else 0) ∅ ∅ 1.

Definition isInternal (c : CatalogSet) : bool := bool_decide (INTERNAL_CATALOG_SET_START_OID ≤ nextOID c).

Definition set_heap (h : Heap) (c : CatalogSet) : CatalogSet := mkSet (nextOID c) (entries c) h (fresh_ref c).
Definition set_entries (m : gmap string positive) (c : CatalogSet) : CatalogSet := mkSet (nextOID c) m (heap c) (fresh_ref c).
Definition set_nextOID (o : Z) (c : CatalogSet) : CatalogSet := mkSet o (entries c) (heap c) (fresh_ref c).

(** ** Pointers *)
Definition read_entry (r : positive) : stM CatalogSet CatalogEntry := λ c, (c, deref (heap c !! r)).
Definition write_entry (r : positive) (f : CatalogEntry → CatalogEntry) : stM CatalogSet () :=
  e ← read_entry r; st_modify (λ c, set_heap (<[r := f e]> (heap c)) c).

(** [std::make_unique]. *)
Definition make_entry (b : EntryBody) : stM CatalogSet positive := λ c,
  (mkSet (nextOID c) (entries c) (<[fresh_ref c := mkEntry b None None]> (heap c)) (Pos.succ (fresh_ref c)),
   Ok (fresh_ref c)).

(** Destroying an entry destroys the versions it owns. *)
Fixpoint free_chain (fuel : nat) (h : Heap) (o : option positive) : result Heap :=
  match o with
  | None => mret h
  | Some r =>
      match fuel with
      | O => UB
      | S fuel => e ← deref (h !! r); free_chain fuel (delete r h) (prev e)
      end
  end.

Definition destroy (o : option positive) : stM CatalogSet () := λ c,
  match free_chain (S (size (heap c))) (heap c) o with
  | Ok h => (set_heap h c, Ok ())
  | Throw e => (c, Throw e)
  | UB => (c, UB)
  end.

Definition getPrev (r : positive) : stM CatalogSet positive :=
  e ← read_entry r; st_lift (deref (prev e)).

Definition movePrev (r : positive) : stM CatalogSet (option positive) :=
  e ← read_entry r;
  _ ← match prev e with Some p => write_entry p (set_next None) | None => mret () end;
  _ ← write_entry r (set_prev None);
  mret (prev e).

(** The assignment destroys what [prev] owned. *)
Definition setPrev (r : positive) (p : option positive) : stM CatalogSet () :=
  e ← read_entry r;
  _ ← write_entry r (set_prev p);
  _ ← destroy (prev e);
  match p with Some p => write_entry p (set_next (Some r)) | None => mret () end.

(** ** Versions seen by a transaction *)

Definition checkWWConflict (tx : Transaction) (b : EntryBody) : bool :=
  (bool_decide (START_TRANSACTION_ID ≤ timestamp b) && bool_decide (timestamp b ≠ ID tx)) ||
  (bool_decide (timestamp b < START_TRANSACTION_ID) && bool_decide (startTS tx < timestamp b)).

(** The loops along [getPrev], which asserts that there is an older version. *)
Fixpoint traverse (fuel : nat) (tx : Transaction) (h : Heap) (r : positive) : result positive :=
  match fuel with
  | O => UB
  | S fuel =>
      e ← deref (h !! r);
      if bool_decide (timestamp (body e) = ID tx) then mret r
      else if bool_decide (timestamp (body e) ≤ startTS tx) then mret r
      else p ← deref (prev e); traverse fuel tx h p
  end.

Definition traverseVersionChainsForTransactionNoLock (tx : Transaction) (r : positive) (c : CatalogSet) : result positive :=
  traverse (size (heap c)) tx (heap c) r.

Fixpoint committed (fuel : nat) (h : Heap) (r : positive) : result positive :=
  match fuel with
  | O => UB
  | S fuel =>
      e ← deref (h !! r);
      if bool_decide (timestamp (body e) < START_TRANSACTION_ID) then mret r
      else p ← deref (prev e); committed fuel h p
  end.
Definition getCommittedEntryNoLock (r : positive) (c : CatalogSet) : result positive :=
  committed (size (heap c)) (heap c) r.

Definition deref_body (r : positive) (c : CatalogSet) : result EntryBody := body <$> deref (heap c !! r).

Definition containsEntryNoLock (tx : Transaction) (name : string) (c : CatalogSet) : result bool :=
  match entries c !! lower name with
  | None => mret false
  | Some head =>
      r ← traverseVersionChainsForTransactionNoLock tx head c;
      b ← deref_body r c;
      mret (negb (deleted b))
  end.

Definition validateExistNoLock (tx : Transaction) (name : string) (c : CatalogSet) : result () :=
  found ← containsEntryNoLock tx name c;
  if found : bool then mret () else throw CatalogException (name +:+ " does not exist in catalog.").
Definition validateNotExistNoLock (tx : Transaction) (name : string) (c : CatalogSet) : result () :=
  found ← containsEntryNoLock tx name c;
  if found : bool then throw CatalogException (name +:+ " already exists in catalog.") else mret ().

Definition getEntryNoLock (tx : Transaction) (name : string) (c : CatalogSet) : result positive :=
  _ ← validateExistNoLock tx name c;
  head ← deref (entries c !! lower name);
  r ← traverseVersionChainsForTransactionNoLock tx head c;
  b ← deref_body r c;
  if deleted b then UB else mret r.

Definition containsEntry := containsEntryNoLock.
Definition getEntry := getEntryNoLock.

Definition getEntries (tx : Transaction) (c : CatalogSet) : result (gmap string positive) :=
  foldM (λ m '(name, head),
    r ← traverseVersionChainsForTransactionNoLock tx head c;
    b ← deref_body r c;
    mret (if deleted b then m else <[name := r]> m)) ∅ (map_to_list (entries c)).

(** The loop over an unordered map, in the order given. *)
Fixpoint getEntryOfOID (tx : Transaction) (o : Z) (order : list positive) (c : CatalogSet) : result (option positive) :=
  match order with
  | [] => mret None
  | head :: order =>
      h ← deref_body head c;
      if bool_decide (oid h ≠ o) then getEntryOfOID tx o order c
      else
        r ← traverseVersionChainsForTransactionNoLock tx head c;
        b ← deref_body r c;
        if deleted b then getEntryOfOID tx o order c else mret (Some r)
  end.

(** ** Changing a set *)

Definition emplaceNoLock (r : positive) : stM CatalogSet () :=
  e ← read_entry r;
  c ← st_get;
  let key := lower (entry_name (body e)) in
  _ ← match entries c !! key with
      | Some head => setPrev r (Some head)
      | None => mret ()
      end;
  st_modify (λ c, set_entries (<[key := r]> (entries c)) c).

Definition eraseNoLock (name : string) : stM CatalogSet () :=
  c ← st_get;
  match entries c !! lower name with
  | Some head => _ ← st_modify (λ c, set_entries (delete (lower name) (entries c)) c); destroy (Some head)
  | None => mret ()
  end.

(** [entries.emplace(name, dummy)]: nothing where there is a chain already. *)
Definition emplaceDummy (name : string) (o : Z) : stM CatalogSet () :=
  c ← st_get;
  match entries c !! lower name with
  | Some _ => mret ()
  | None =>
      d ← make_entry (DummyCatalogEntry name o);
      st_modify (λ c, set_entries (<[lower name := d]> (entries c)) c)
  end.

Definition createEntryNoLock (tx : Transaction) (b : EntryBody) : stM CatalogSet positive :=
  c ← st_get;
  _ ← st_lift (validateNotExistNoLock tx (entry_name b) c);
  _ ← match entries c !! lower (entry_name b) with
      | Some head =>
          existing ← st_lift (deref_body head c);
          if checkWWConflict tx existing then st_throw CatalogException
            ("Write-write conflict on creating catalog entry with name " +:+ entry_name b +:+ ".")
          else if negb (deleted existing) then st_throw CatalogException
            ("Catalog entry with name " +:+ entry_name b +:+ " already exists.")
          else mret ()
      | None => mret ()
      end;
  _ ← emplaceDummy (entry_name b) (oid b);
  r ← make_entry (setTimestamp (ID tx) b);
  _ ← emplaceNoLock r;
  getPrev r.

Definition dropEntryNoLock (tx : Transaction) (name : string) (o : Z) : stM CatalogSet positive :=
  c ← st_get;
  _ ← st_lift (validateExistNoLock tx name c);
  r ← make_entry (setTimestamp (ID tx) (DummyCatalogEntry name o));
  _ ← emplaceNoLock r;
  getPrev r.

(** ** Sessions: what a transaction records (transaction/transaction.cpp) *)

(** Records of the local log: an entry created, one dropped, a table altered. *)
Inductive CatalogLog : Type :=
| LogCreate (b : EntryBody) (internal : bool)
| LogDrop (o : Z) (ty : CatalogEntryType)
| LogAlter (table : string) (info : AlterInfo).

Record Session : Type := mkSession {
  catalogSet : CatalogSet;
  undo : list positive;
  localWAL : list CatalogLog;
  changed : bool;
}.

Definition on_set {A} (m : stM CatalogSet A) : stM Session A := λ s,
  let '(c, r) := m (catalogSet s) in (mkSession c (undo s) (localWAL s) (changed s), r).
Definition log_record (l : CatalogLog) : stM Session () :=
  st_modify (λ s, mkSession (catalogSet s) (undo s) (localWAL s ++ [l]) (changed s)).
Definition createCatalogEntry (r : positive) : stM Session () :=
  st_modify (λ s, mkSession (catalogSet s) (undo s ++ [r]) (localWAL s) true).

Definition notSupported {A} (ty : CatalogEntryType) : stM Session A :=
  s ← st_lift (CatalogEntryTypeUtils_toString ty);
  st_throw RuntimeException ("Not supported catalog entry type " +:+ s +:+ " yet.").

(** [r] is the version below the new one.  [logs] is [shouldLogToWAL]. *)
Definition pushCreateDropCatalogEntry (logs : bool) (r : positive) (internal skipLoggingToWAL : bool) : stM Session () :=
  _ ← createCatalogEntry r;
  if negb logs || skipLoggingToWAL then mret ()
  else
    e ← on_set (read_entry r);
    n ← st_lift (deref (next e));
    newE ← on_set (read_entry n);
    match entry_type (body newE) with
    | INDEX_ENTRY | NODE_TABLE_ENTRY | REL_GROUP_ENTRY =>
        if decide (entry_type (body e) = DUMMY_ENTRY)
        then if deleted (body e) then log_record (LogCreate (body newE) internal) else st_lift UB
        else st_throw RuntimeException "This shouldn't happen. Alter table is not supported."
    | SEQUENCE_ENTRY =>
        if decide (entry_type (body e) = DUMMY_ENTRY ∧ deleted (body e) = true)
        then if hasParent (body newE) then mret () else log_record (LogCreate (body newE) internal)
        else st_lift UB
    | SCALAR_MACRO_ENTRY | TYPE_ENTRY | GRAPH_ENTRY =>
        if decide (entry_type (body e) = DUMMY_ENTRY ∧ deleted (body e) = true)
        then log_record (LogCreate (body newE) internal) else st_lift UB
    | DUMMY_ENTRY =>
        if negb (deleted (body newE)) then st_lift UB
        else if hasParent (body e) then mret ()
        else match entry_type (body e) with
             | INDEX_ENTRY | SCALAR_MACRO_ENTRY | NODE_TABLE_ENTRY | REL_GROUP_ENTRY | SEQUENCE_ENTRY | GRAPH_ENTRY =>
                 log_record (LogDrop (oid (body e)) (entry_type (body e)))
             | SCALAR_FUNCTION_ENTRY | TABLE_FUNCTION_ENTRY | STANDALONE_TABLE_FUNCTION_ENTRY => mret ()
             | ty => notSupported ty
             end
    | SCALAR_FUNCTION_ENTRY | TABLE_FUNCTION_ENTRY | STANDALONE_TABLE_FUNCTION_ENTRY => mret ()
    | ty => notSupported ty
    end.

Definition pushAlterCatalogEntry (logs : bool) (r : positive) (info : BoundAlterInfo) : stM Session () :=
  _ ← createCatalogEntry r;
  if logs then log_record (LogAlter (alter_tableName info) (extraInfo info)) else mret ().

Section Operations.
(** [shouldLogToWAL] of the transaction. *)
Variable logs : bool.
Variable tx : Transaction.

Definition getNextOID : stM CatalogSet Z := λ c,
  (set_nextOID (wrap 64 (nextOID c + 1)) c, Ok (nextOID c)).

Definition createEntry (b : EntryBody) : stM Session Z :=
  o ← on_set getNextOID;
  r ← on_set (createEntryNoLock tx (setOID o b));
  s ← st_get;
  _ ← (if shouldAppendToUndoBuffer tx
       then pushCreateDropCatalogEntry logs r (isInternal (catalogSet s)) false else mret ());
  mret o.

Definition dropEntry (name : string) (o : Z) : stM Session () :=
  r ← on_set (dropEntryNoLock tx name o);
  s ← st_get;
  if shouldAppendToUndoBuffer tx
  then pushCreateDropCatalogEntry logs r (isInternal (catalogSet s)) false else mret ().

(** [TableCatalogEntry::alter]: the copy, renamed or changed, with the identifier of the
    original and the timestamp of the transaction. *)
Definition alter_body (info : AlterInfo) (next : Z) (b : EntryBody) : result (EntryBody * Z) :=
  match data b with
  | TableData t =>
      if deleted b then UB
      else
        '(t', next') ← alter info next t;
        let name := match info with RENAME newName => newName | _ => entry_name b end in
        mret (mkBody (entry_type b) name (oid b) (ID tx) (deleted b) (hasParent b) (TableData t'), next')
  | _ => UB
  end.

Definition alterTableEntry (info : BoundAlterInfo) : stM Session () :=
  s ← st_get;
  _ ← st_lift (validateExistNoLock tx (alter_tableName info) (catalogSet s));
  r ← st_lift (getEntryNoLock tx (alter_tableName info) (catalogSet s));
  e ← on_set (read_entry r);
  '(b, next') ← st_lift (alter_body (extraInfo info) (nextOID (catalogSet s)) (body e));
  _ ← on_set (st_modify (set_nextOID next'));
  match extraInfo info with
  | RENAME _ =>
      _ ← on_set (dropEntryNoLock tx (alter_tableName info) (oid (body e)));
      created ← on_set (createEntryNoLock tx b);
      s ← st_get;
      if shouldAppendToUndoBuffer tx then
        _ ← pushAlterCatalogEntry logs r info;
        pushCreateDropCatalogEntry logs created (isInternal (catalogSet s)) true
      else mret ()
  | _ =>
      n ← on_set (make_entry b);
      _ ← on_set (emplaceNoLock n);
      if shouldAppendToUndoBuffer tx then pushAlterCatalogEntry logs r info else mret ()
  end.
End Operations.

(** ** Commit and rollback of the records (storage/undo_buffer.cpp) *)

Definition commitCatalogEntryRecord (commitTS : Z) (r : positive) : stM CatalogSet () :=
  e ← read_entry r;
  newCatalogEntry ← st_lift (deref (next e));
  write_entry newCatalogEntry (set_body (setTimestamp commitTS)).

Definition rollbackCatalogEntryRecord (r : positive) : stM CatalogSet () :=
  e ← read_entry r;
  entryToRollback ← st_lift (deref (next e));
  re ← read_entry entryToRollback;
  match next re with
  | Some newerEntry =>
      older ← movePrev entryToRollback;
      setPrev newerEntry older
  | None =>
      olderEntry ← movePrev entryToRollback;
      e ← read_entry r;
      _ ← eraseNoLock (entry_name (body e));
      match olderEntry with
      | Some older => emplaceNoLock older
      | None => mret ()
      end
  end.

Fixpoint each_record (f : positive → stM CatalogSet ()) (l : list positive) : stM CatalogSet () :=
  match l with
  | [] => mret ()
  | r :: l => _ ← f r; each_record f l
  end.

Definition commit_records (commitTS : Z) (l : list positive) : stM CatalogSet () :=
  each_record (commitCatalogEntryRecord commitTS) l.
Definition rollback_records (l : list positive) : stM CatalogSet () :=
  each_record rollbackCatalogEntryRecord (rev l).
End Set_.
