(* ===== verification/CatalogSpec.v ===== *)
(** * Chains of versions: the contents of a catalog set

    [represents c a]: the entries and links in the heap of [c] are the chains [a], a list
    of versions per name, newest first, and nothing else is allocated.  Reading a set,
    adding a version and processing an undo record are operations on the lists. *)

From S2P Require Import Prelude.
From S2P Require Import Transaction.
From S2P Require Import PropertyCollection.
From S2P Require Import TableEntry.
From S2P Require Import CatalogSet.

Section Spec.
Context `{CatalogKind}.

Notation Version := (positive * EntryBody)%type.
Notation Chains := (gmap string (list Version)).

(** The version a transaction sees: the newest that is its own or was committed before
    it started. *)
Definition sees (tx : Transaction) (v : Version) : Prop :=
  timestamp v.2 = ID tx ∨ timestamp v.2 ≤ startTS tx.
#[export] Instance sees_dec tx v : Decision (sees tx v).
Proof. unfold sees. apply _. Defined.

Fixpoint version_for (tx : Transaction) (l : list Version) : option Version :=
  match l with
  | [] => None
  | v :: l => if decide (sees tx v) then Some v else version_for tx l
  end.

(** What a name means to a transaction. *)
Definition live (v : Version) : option Version := if deleted v.2 then None else Some v.
Definition lookup_name (tx : Transaction) (name : string) (a : Chains) : option Version :=
  l ← a !! lower name; v ← version_for tx l; live v.

(** *** The representation *)
Definition ref_at (l : list Version) (i : nat) : option positive := fst <$> l !! i.
Definition ref_before (l : list Version) (i : nat) : option positive :=
  match i with O => None | S j => ref_at l j end.

Definition linked (h : gmap positive CatalogEntry) (l : list Version) : Prop :=
  ∀ i r b, l !! i = Some (r, b) → h !! r = Some (mkEntry b (ref_at l (S i)) (ref_before l i)).

Definition bottomed (l : list Version) : Prop := ∃ v, last l = Some v ∧ timestamp v.2 = 0.

Record represents (c : CatalogSet) (a : Chains) : Prop := {
  rp_entries : ∀ k, entries c !! k = a !! k ≫= λ l, ref_at l 0;
  rp_linked : ∀ k l, a !! k = Some l → linked (heap c) l;
  rp_nodup : ∀ k l, a !! k = Some l → NoDup l.*1;
  rp_own : ∀ k1 k2 l1 l2 r, a !! k1 = Some l1 → a !! k2 = Some l2 → r ∈ l1.*1 → r ∈ l2.*1 → k1 = k2;
  rp_heap : ∀ r, is_Some (heap c !! r) → ∃ k l, a !! k = Some l ∧ r ∈ l.*1;
  rp_fresh : ∀ r, is_Some (heap c !! r) → (r < fresh_ref c)%positive;
  rp_names : ∀ k l v, a !! k = Some l → v ∈ l → lower (entry_name v.2) = k;
  rp_bottom : ∀ k l, a !! k = Some l → bottomed l;
}.

Lemma represents_new internal : represents (newCatalogSet internal) ∅.
Proof.
  split; cbn; try (intros *; rewrite lookup_empty; done).
Qed.

Lemma bottomed_nonempty l : bottomed l → ∃ v l', l = v :: l'.
Proof. intros (v & Hl & _). destruct l as [|w l']; [done|]. eauto. Qed.

Lemma elem_ref (l : list Version) i r b : l !! i = Some (r, b) → r ∈ l.*1.
Proof. intros Hi. apply list_elem_of_fmap. exists (r, b). split; [done|]. by eapply list_elem_of_lookup_2. Qed.

Lemma ref_elem (l : list Version) r : r ∈ l.*1 → ∃ i b, l !! i = Some (r, b).
Proof. intros ((r' & b) & -> & (i & Hi)%list_elem_of_lookup)%list_elem_of_fmap. eauto. Qed.

Lemma ref_inj (l : list Version) i j r b b' :
  NoDup l.*1 → l !! i = Some (r, b) → l !! j = Some (r, b') → i = j.
Proof.
  intros Hn Hi Hj. eapply NoDup_lookup; [exact Hn|rewrite list_lookup_fmap, Hi; done|].
  by rewrite list_lookup_fmap, Hj.
Qed.

Lemma linked_frame h h' l : (∀ r, r ∈ l.*1 → h' !! r = h !! r) → linked h l → linked h' l.
Proof. intros Hf Hl i r b Hi. rewrite Hf by by eapply elem_ref. by apply Hl. Qed.

Lemma chain_fits c a k l : represents c a → a !! k = Some l → (length l ≤ size (heap c))%nat.
Proof.
  intros Hr Hk. assert (length l.*1 ≤ size (heap c))%nat as Hle; [|by rewrite length_fmap in Hle].
  rewrite <- size_dom. rewrite <- (size_list_to_set (C := gset positive)) by by eapply rp_nodup.
  apply subseteq_size. intros r Hin%elem_of_list_to_set. apply ref_elem in Hin as (i & b & Hi).
  apply elem_of_dom. eexists. by eapply rp_linked.
Qed.

Lemma heap_fresh c a : represents c a → heap c !! fresh_ref c = None.
Proof.
  intros Hr. apply eq_None_not_Some. intros Hs. apply (rp_fresh _ _ Hr) in Hs. lia.
Qed.

(** *** Reading *)
Lemma version_for_bottomed tx l : bottomed l → 0 ≤ startTS tx → is_Some (version_for tx l).
Proof.
  intros (v & Hl & Hv) H0. induction l as [|w l IH]; [done|]. cbn [version_for].
  case_decide as Hs; [done|]. destruct l as [|w' l'].
  - cbn in Hl. injection Hl as ->. exfalso. apply Hs. right. lia.
  - apply IH. by cbn in Hl |- *.
Qed.

Lemma traverse_ok tx h l i v fuel :
  linked h l → version_for tx (skipn i l) = Some v → (length l ≤ i + fuel)%nat →
  ∃ j r0, ref_at l i = Some r0 ∧ l !! j = Some v ∧ traverse fuel tx h r0 = Ok v.1.
Proof.
  intros Hl. revert i. induction fuel as [|fuel IH]; intros i Hv Hf.
  { rewrite drop_ge in Hv by lia. done. }
  destruct (l !! i) as [[r b]|] eqn:Ei; [|rewrite drop_ge in Hv by (by apply lookup_ge_None); done].
  rewrite (drop_S _ _ _ Ei) in Hv. cbn [version_for] in Hv. unfold ref_at. rewrite Ei. cbn.
  destruct (decide (sees tx (r, b))) as [Hs|Hs]; unfold sees in Hs; cbn in Hs.
  - injection Hv as <-. exists i, r. rewrite (Hl _ _ _ Ei). cbn. split_and!; [done..|].
    case_bool_decide; [done|]. rewrite bool_decide_true; [done|]. lia.
  - destruct (IH (S i) Hv) as (j & r0 & Hr0 & Hj & Ht); [lia|]. exists j, r.
    rewrite (Hl _ _ _ Ei). cbn. rewrite !bool_decide_false by lia. by rewrite Hr0.
Qed.

Lemma visible_ok c a k l tx :
  represents c a → a !! k = Some l → 0 ≤ startTS tx →
  ∃ head v i, entries c !! k = Some head ∧ version_for tx l = Some v ∧ l !! i = Some v ∧
    traverseVersionChainsForTransactionNoLock tx head c = Ok v.1 ∧ deref_body v.1 c = Ok v.2.
Proof.
  intros Hr Hk H0. destruct (version_for_bottomed tx l) as [v Hv]; [by eapply rp_bottom|done|].
  destruct (traverse_ok tx (heap c) l 0 v (size (heap c))) as (j & head & Hh & Hj & Ht).
  - by eapply rp_linked.
  - done.
  - by eapply chain_fits.
  - exists head, v, j. split_and!; [|done..|].
    + by rewrite (rp_entries _ _ Hr), Hk.
    + destruct v as [r b]. unfold deref_body. cbn [fst snd]. by rewrite (rp_linked _ _ Hr _ _ Hk _ _ _ Hj).
Qed.

Lemma contains_ok c a tx name : represents c a → 0 ≤ startTS tx →
  containsEntryNoLock tx name c = Ok (bool_decide (is_Some (lookup_name tx name a))).
Proof.
  intros Hr H0. unfold containsEntryNoLock, lookup_name. destruct (a !! lower name) as [l|] eqn:E.
  - destruct (visible_ok _ _ _ _ tx Hr E H0) as (head & v & i & He & Hv & _ & Ht & Hb).
    rewrite He, Ht. cbn [mbind result_bind option_bind]. rewrite Hb, Hv. cbn. unfold live. by destruct (deleted v.2).
  - rewrite (rp_entries _ _ Hr), E. done.
Qed.

Lemma getEntry_ok c a tx name : represents c a → 0 ≤ startTS tx →
  getEntryNoLock tx name c =
  match lookup_name tx name a with
  | Some v => Ok v.1
  | None => throw CatalogException (name +:+ " does not exist in catalog.")
  end.
Proof.
  intros Hr H0. unfold getEntryNoLock, validateExistNoLock. rewrite (contains_ok _ a) by done. cbn [mbind result_bind].
  unfold lookup_name. destruct (a !! lower name) as [l|] eqn:E; [|done].
  destruct (visible_ok _ _ _ _ tx Hr E H0) as (head & v & i & He & Hv & _ & Ht & Hb).
  cbn [mbind option_bind]. rewrite Hv. cbn [mbind option_bind]. unfold live. destruct (deleted v.2) eqn:Ed; [done|].
  rewrite bool_decide_true by done. cbn [mbind result_bind]. rewrite He. cbn. rewrite Ht. cbn. rewrite Hb. cbn. by rewrite Ed.
Qed.
(** The meaning of a name to a transaction, as the set answers it; the timestamp of the
    entry is left out. *)
Definition visible (tx : Transaction) (name : string) (c : CatalogSet) : result (option EntryBody) :=
  found ← containsEntry tx name c;
  if found : bool then
    r ← getEntry tx name c; b ← deref_body r c; mret (Some (setTimestamp 0 b))
  else mret None.

Definition meaning (tx : Transaction) (name : string) (a : Chains) : option EntryBody :=
  (λ v : Version, setTimestamp 0 v.2) <$> lookup_name tx name a.

Lemma visible_meaning c a tx name : represents c a → 0 ≤ startTS tx → visible tx name c = Ok (meaning tx name a).
Proof.
  intros Hr H0. unfold visible, containsEntry, getEntry, meaning. rewrite (contains_ok _ a), (getEntry_ok _ a) by done.
  destruct (lookup_name tx name a) as [v|] eqn:El; [|done]. rewrite bool_decide_true by done.
  cbn [mbind result_bind]. unfold lookup_name in El. destruct (a !! lower name) as [l|] eqn:Ek; [|done].
  destruct (visible_ok _ _ _ _ tx Hr Ek H0) as (_ & w & _ & _ & Hv & _ & _ & Hb). cbn [mbind option_bind] in El.
  rewrite Hv in El. cbn in El. unfold live in El. destruct (deleted w.2); [done|]. injection El as <-. by rewrite Hb.
Qed.

(** A version of the transaction on top of a chain is what its name means from then on. *)
Lemma meaning_push tx (a : Chains) k r b l name :
  timestamp b = ID tx →
  meaning tx name (<[k := (r, b) :: l]> a) =
  if decide (lower name = k) then (if deleted b then None else Some (setTimestamp 0 b)) else meaning tx name a.
Proof.
  intros Hb. unfold meaning, lookup_name. case_decide as Hk; [|by rewrite lookup_insert_ne by done].
  subst k. rewrite lookup_insert_eq. cbn [mbind option_bind version_for].
  rewrite decide_True by (by left). cbn. unfold live. cbn. by destruct (deleted b).
Qed.
End Spec.

Notation Version := (positive * EntryBody)%type.
Notation Chains := (gmap string (list Version)).

(** * Changes of a catalog set as changes of its chains

    Adding a version, stamping one with the timestamp of its commit and taking one out
    of its chain, as the code does them on linked entries, are the operations on lists. *)

Section Steps.
Context `{CatalogKind}.

Definition chain (a : Chains) (k : string) : list Version := default [] (a !! k).

(** Replacing one chain. *)
Lemma represents_update c c' a k l' r0 :
  represents c a →
  entries c' = <[k := r0]> (entries c) → ref_at l' 0 = Some r0 →
  linked (heap c') l' → NoDup l'.*1 →
  (∀ r, r ∈ l'.*1 → r ∈ (chain a k).*1 ∨ heap c !! r = None) →
  (∀ r, r ∉ l'.*1 → heap c' !! r = if decide (r ∈ (chain a k).*1) then None else heap c !! r) →
  (∀ r, r ∈ l'.*1 → (r < fresh_ref c')%positive) → (fresh_ref c ≤ fresh_ref c')%positive →
  (∀ v, v ∈ l' → lower (entry_name v.2) = k) → bottomed l' →
  represents c' (<[k := l']> a).
Proof.
  intros Hr He Hh Hl Hn Hnew Hother Hf1 Hf2 Hnm Hb.
  assert (∀ k2 l2 r, k2 ≠ k → a !! k2 = Some l2 → r ∈ l2.*1 → r ∉ l'.*1 ∧ r ∉ (chain a k).*1) as Hdis.
  { intros k2 l2 r Hk Hl2 Hin. assert (r ∉ (chain a k).*1) as Hno.
    { intros Hin'. unfold chain in Hin'. destruct (a !! k) as [l|] eqn:Ek; cbn in Hin'; [|by apply not_elem_of_nil in Hin'].
      apply Hk. by eapply rp_own. }
    split; [|done]. intros [?|Hnone]%Hnew; [done|]. apply ref_elem in Hin as (i & b & Hi).
    by rewrite (rp_linked _ _ Hr _ _ Hl2 _ _ _ Hi) in Hnone. }
  split.
  - intros k2. rewrite He. destruct (decide (k = k2)) as [<-|Hk].
    + by rewrite !lookup_insert_eq.
    + rewrite !lookup_insert_ne by done. apply (rp_entries _ _ Hr).
  - intros k2 l2 [[<- <-]|[Hk Hl2]]%lookup_insert_Some; [done|].
    eapply linked_frame; [|by eapply rp_linked]. intros r Hin.
    destruct (Hdis k2 l2 r) as [H1 H2]; [done..|]. rewrite Hother by done. by rewrite decide_False.
  - intros k2 l2 [[<- <-]|[Hk Hl2]]%lookup_insert_Some; [done|]. by eapply rp_nodup.
  - intros k1 k2 l1 l2 r [[<- <-]|[Hk1 Hl1]]%lookup_insert_Some [[<- <-]|[Hk2 Hl2]]%lookup_insert_Some Hi1 Hi2; [done| | |].
    + by destruct (Hdis k2 l2 r) as [? _].
    + by destruct (Hdis k1 l1 r) as [? _].
    + by eapply rp_own.
  - intros r Hs. destruct (decide (r ∈ l'.*1)) as [Hin|Hin]; [exists k, l'; by rewrite lookup_insert_eq|].
    rewrite Hother in Hs by done. case_decide as Hc; [by destruct Hs|].
    apply (rp_heap _ _ Hr) in Hs as (k2 & l2 & Hl2 & Hi2). exists k2, l2. split; [|done].
    rewrite lookup_insert_ne; [done|]. intros <-. apply Hc. unfold chain. by rewrite Hl2.
  - intros r Hs. destruct (decide (r ∈ l'.*1)) as [Hin|Hin]; [by apply Hf1|].
    rewrite Hother in Hs by done. case_decide; [by destruct Hs|]. apply (rp_fresh _ _ Hr) in Hs. lia.
  - intros k2 l2 v [[<- <-]|[Hk Hl2]]%lookup_insert_Some; [by apply Hnm|by eapply rp_names].
  - intros k2 l2 [[<- <-]|[Hk Hl2]]%lookup_insert_Some; [done|by eapply rp_bottom].
Qed.

Lemma chain_ref c a k l r : represents c a → a !! k = Some l → r ∈ l.*1 → ∃ e, heap c !! r = Some e ∧ (r < fresh_ref c)%positive.
Proof.
  intros Hr Hk (i & b & Hi)%ref_elem. eexists. split; [by eapply rp_linked|].
  apply (rp_fresh _ _ Hr). rewrite (rp_linked _ _ Hr _ _ Hk _ _ _ Hi). by eexists.
Qed.

Lemma chain_eq (a : Chains) k l : a !! k = Some l → chain a k = l.
Proof. intros E. unfold chain. by rewrite E. Qed.

Lemma fresh_entry_not_in c a k l : represents c a → a !! k = Some l → fresh_ref c ∉ l.*1.
Proof.
  intros Hr Hk Hin. destruct (chain_ref _ _ _ _ _ Hr Hk Hin) as (e & _ & Hlt). lia.
Qed.

Ltac fields := cbn [nextOID entries heap fresh_ref set_heap set_entries set_nextOID body prev next set_body set_prev set_next] in *.

(** The first version of a name is the dummy entry. *)
Lemma represents_first c a k b :
  represents c a → a !! k = None → lower (entry_name b) = k → timestamp b = 0 →
  represents (mkSet (nextOID c) (<[k := fresh_ref c]> (entries c))
                (<[fresh_ref c := mkEntry b None None]> (heap c)) (Pos.succ (fresh_ref c)))
    (<[k := [(fresh_ref c, b)]]> a).
Proof.
  intros Hr Hk Hn Ht. assert (chain a k = []) as Hc by (unfold chain; by rewrite Hk).
  eapply represents_update; fields; try done.
  - intros [|i] r b' E; [injection E as <- <-|done]. by rewrite lookup_insert_eq.
  - by apply NoDup_singleton.
  - intros r ->%list_elem_of_singleton. right. by eapply heap_fresh.
  - intros r Hin. rewrite Hc, decide_False by apply not_elem_of_nil.
    rewrite lookup_insert_ne; [done|]. intros <-. apply Hin. by left.
  - intros r ->%list_elem_of_singleton. cbn [fst]. lia.
  - lia.
  - intros v ->%list_elem_of_singleton. done.
  - by eexists.
Qed.

Lemma represents_push c a k b l head e :
  represents c a → a !! k = Some l → lower (entry_name b) = k → entries c !! k = Some head → heap c !! head = Some e →
  represents (mkSet (nextOID c) (<[k := fresh_ref c]> (entries c))
      (<[head := set_next (Some (fresh_ref c)) e]> (<[fresh_ref c := mkEntry b (Some head) None]> (heap c)))
      (Pos.succ (fresh_ref c)))
    (<[k := (fresh_ref c, b) :: l]> a).
Proof.
  intros Hr Hk Hn Hh He. pose proof (fresh_entry_not_in _ _ _ _ Hr Hk) as Hf.
  destruct (bottomed_nonempty l) as ([r0 b0] & l0 & ->); [by eapply rp_bottom|].
  rewrite (rp_entries _ _ Hr), Hk in Hh. cbn in Hh. injection Hh as ->.
  pose proof (rp_linked _ _ Hr _ _ Hk) as Hl. pose proof (rp_nodup _ _ Hr _ _ Hk) as Hnd.
  rewrite (Hl 0%nat head b0) in He by done. injection He as <-.
  cbn [fmap list_fmap fst] in Hf, Hnd. apply not_elem_of_cons in Hf as [Hf1 Hf2].
  eapply represents_update; fields; try done; rewrite ?(chain_eq _ _ _ Hk).
  - intros [|[|i]] r b' E; cbn in E.
    + injection E as <- <-. rewrite lookup_insert_ne by done. by rewrite lookup_insert_eq.
    + injection E as <- <-. by rewrite lookup_insert_eq.
    + assert (r ∈ l0.*1) as Hin by by eapply elem_ref.
      apply NoDup_cons in Hnd as [Hd _]. rewrite !lookup_insert_ne by (intros <-; done). by apply (Hl (S i)).
  - cbn [fmap list_fmap fst]. apply NoDup_cons. split; [|done]. by apply not_elem_of_cons.
  - intros r Hin. cbn [fmap list_fmap fst] in *. apply elem_of_cons in Hin as [->|Hin]; [right; by eapply heap_fresh|by left].
  - intros r Hin. cbn [fmap list_fmap fst] in *. apply not_elem_of_cons in Hin as [H1 H2].
    rewrite decide_False by done. apply not_elem_of_cons in H2 as [H2 H3]. by rewrite !lookup_insert_ne by done.
  - intros r Hin. cbn [fmap list_fmap fst] in Hin. apply elem_of_cons in Hin as [->|Hin]; [lia|].
    destruct (chain_ref _ _ _ _ r Hr Hk) as (e & _ & Hlt); [done|]. lia.
  - lia.
  - intros v [->|Hin]%elem_of_cons; [done|]. by eapply rp_names.
  - destruct (rp_bottom _ _ Hr _ _ Hk) as (v & Hv & Ht). by exists v.
Qed.

Lemma represents_stamp c a k l i r b e ts :
  represents c a → a !! k = Some l → l !! i = Some (r, b) → (S i < length l)%nat → heap c !! r = Some e →
  represents (set_heap (<[r := set_body (setTimestamp ts) e]> (heap c)) c)
    (<[k := <[i := (r, setTimestamp ts b)]> l]> a).
Proof.
  intros Hr Hk Hi Hlen He. pose proof (rp_linked _ _ Hr _ _ Hk) as Hl. pose proof (rp_nodup _ _ Hr _ _ Hk) as Hnd.
  assert ((<[i := (r, setTimestamp ts b)]> l).*1 = l.*1) as Hrefs.
  { rewrite list_fmap_insert. apply list_insert_id. by rewrite list_lookup_fmap, Hi. }
  assert (∀ j, ref_at (<[i := (r, setTimestamp ts b)]> l) j = ref_at l j) as Hat.
  { intros j. unfold ref_at. by rewrite <- !list_lookup_fmap, Hrefs. }
  destruct (bottomed_nonempty l) as ([r0 b0] & l0 & El); [by eapply rp_bottom|].
  eapply (represents_update c _ a k _ r0); fields; rewrite ?Hrefs, ?(chain_eq _ _ _ Hk); try done.
  - rewrite insert_id; [done|]. by rewrite (rp_entries _ _ Hr), Hk, El.
  - by rewrite Hat, El.
  - intros j r' b' Hj. rewrite Hat. assert (ref_before (<[i := (r, setTimestamp ts b)]> l) j = ref_before l j) as ->.
    { destruct j; [done|]. apply Hat. }
    destruct (decide (i = j)) as [<-|Hij].
    + rewrite list_lookup_insert_eq in Hj by lia. injection Hj as <- <-. rewrite lookup_insert_eq.
      rewrite (Hl _ _ _ Hi) in He. by injection He as <-.
    + rewrite list_lookup_insert_ne in Hj by done. rewrite lookup_insert_ne; [by apply Hl|].
      intros <-. apply Hij. by eapply ref_inj.
  - by left.
  - intros r' Hin. rewrite decide_False by done. rewrite lookup_insert_ne; [done|]. intros <-. apply Hin. by eapply elem_ref.
  - intros r' Hin. by destruct (chain_ref _ _ _ _ r' Hr Hk) as (? & _ & ?).
  - intros v (j & Hj)%list_elem_of_lookup. destruct (decide (i = j)) as [<-|Hij].
    + rewrite list_lookup_insert_eq in Hj by lia. injection Hj as <-. cbn. eapply (rp_names _ _ Hr _ _ (r, b)); [done|].
      by eapply list_elem_of_lookup_2.
    + rewrite list_lookup_insert_ne in Hj by done. eapply rp_names; [done..|]. by eapply list_elem_of_lookup_2.
  - destruct (rp_bottom _ _ Hr _ _ Hk) as (v & Hv & Ht). exists v. split; [|done].
    rewrite last_lookup in *. rewrite length_insert. rewrite list_lookup_insert_ne; [done|]. lia.
Qed.

(** Taking the version above [r] out of the chain: the newest one, or one in between. *)
Lemma ref_delete (l : list Version) i j : ref_at (delete i l) j = ref_at l (if decide (j < i)%nat then j else S j).
Proof.
  unfold ref_at. destruct (decide (j < i)%nat); [by rewrite list_lookup_delete_lt by done|].
  by rewrite list_lookup_delete_ge by lia.
Qed.

Lemma represents_remove c c' a k l i r b r' b' :
  represents c a → a !! k = Some l → l !! i = Some (r', b') → l !! S i = Some (r, b) →
  entries c' = <[k := if decide (i = 0)%nat then r else default r' (ref_at l 0)]> (entries c) →
  fresh_ref c' = fresh_ref c →
  (∀ s, heap c' !! s =
    if decide (s = r') then None
    else if decide (s = r) then Some (mkEntry b (ref_at l (S (S i))) (ref_before l i))
    else if decide (ref_before l i = Some s) then set_prev (Some r) <$> heap c !! s
    else heap c !! s) →
  represents c' (<[k := delete i l]> a).
Proof.
  intros Hr Hk Hi HSi He Hf Hh. pose proof (rp_linked _ _ Hr _ _ Hk) as Hl. pose proof (rp_nodup _ _ Hr _ _ Hk) as Hnd.
  assert (∀ j s c, delete i l !! j = Some (s, c) → l !! (if decide (j < i)%nat then j else S j) = Some (s, c)) as Hdel.
  { intros j s c0. destruct (decide (j < i)%nat); [by rewrite list_lookup_delete_lt by done|].
    by rewrite list_lookup_delete_ge by lia. }
  assert (∀ s, s ∈ (delete i l).*1 ↔ s ∈ l.*1 ∧ s ≠ r') as Hin.
  { intros s. split.
    - intros (j & c0 & Hj%Hdel)%ref_elem. split; [by eapply elem_ref|]. intros ->.
      assert ((if decide (j < i)%nat then j else S j) = i) by by eapply ref_inj. case_decide; lia.
    - intros [(j & c0 & Hj)%ref_elem Hs]. assert (j ≠ i) by congruence.
      destruct (decide (j < i)%nat).
      + eapply (elem_ref _ j _ c0). by rewrite list_lookup_delete_lt by done.
      + eapply (elem_ref _ (Nat.pred j) _ c0). rewrite list_lookup_delete_ge by lia.
        by replace (S (Nat.pred j)) with j by lia. }
  assert (r ≠ r') as Hne.
  { intros ->. assert (S i = i) by (by eapply ref_inj). lia. }
  eapply (represents_update c c' a k (delete i l)); rewrite ?(chain_eq _ _ _ Hk); [done|exact He| | | | | | | | |].
  - rewrite ref_delete. destruct (decide (i = 0)%nat) as [->|Hi0].
    + rewrite decide_False by lia. unfold ref_at. by rewrite HSi.
    + rewrite decide_True by lia. destruct (bottomed_nonempty l) as (v & l0 & ->); [by eapply rp_bottom|]. done.
  - intros j s c0 Hj. pose proof (Hdel _ _ _ Hj) as Hj'. rewrite Hh, ref_delete.
    assert (s ≠ r') as Hs by (apply (Hin s); by eapply elem_ref).
    rewrite decide_False by done. destruct (decide (s = r)) as [->|Hsr].
    + assert ((if decide (j < i)%nat then j else S j) = S i) as Ej by by eapply ref_inj.
      assert (j = i) as -> by (case_decide; lia). rewrite decide_False by lia.
      rewrite decide_False in Hj' by lia. rewrite HSi in Hj'. injection Hj' as <-.
      f_equal. f_equal. destruct i as [|i]; [done|]. cbn. rewrite ref_delete. by rewrite decide_True by lia.
    + assert (ref_before l i = Some s ↔ S j = i) as Hbef.
      { destruct i as [|i]; cbn [ref_before]; [split; [done|lia]|]. unfold ref_at. split.
        - intros E. destruct (l !! i) as [[s' d']|] eqn:Ei; [|done]. cbn in E. injection E as ->.
          assert ((if decide (j < S i)%nat then j else S j) = i) by by eapply ref_inj. case_decide; lia.
        - intros [= ->]. rewrite decide_True in Hj' by lia. by rewrite Hj'. }
      assert (ref_before (delete i l) j = ref_before l (if decide (j < i)%nat then j else S j)) as Eb.
      { destruct j as [|j]; cbn [ref_before].
        - destruct (decide (0 < i)%nat); [done|]. exfalso. assert (i = 0%nat) as -> by lia.
          cbn in Hj'. congruence.
        - rewrite ref_delete. destruct (decide (S j < i)%nat); [by rewrite decide_True by lia|].
          destruct (decide (j < i)%nat); [|done]. exfalso. assert (i = S j) as -> by lia.
          rewrite HSi in Hj'. congruence. }
      rewrite Eb. destruct (decide (ref_before l i = Some s)) as [Eb'|Eb'].
      * apply Hbef in Eb' as <-. destruct (decide (j < S j)%nat); [|lia]. rewrite decide_False by lia.
        rewrite (Hl _ _ _ Hj'). unfold ref_at. rewrite HSi. done.
      * rewrite Hbef in Eb'. rewrite (Hl _ _ _ Hj'). f_equal. f_equal.
        destruct (decide (j < i)%nat); [by rewrite decide_True by lia|]. by rewrite decide_False by lia.
  - eapply sublist_NoDup; [exact Hnd|]. apply fmap_sublist, sublist_delete.
  - intros s [Hs _]%Hin. by left.
  - intros s Hs. rewrite Hin in Hs. rewrite Hh. destruct (decide (s = r')) as [->|Hsr].
    + rewrite decide_True; [done|]. by eapply elem_ref.
    + rewrite (decide_False (P := s ∈ l.*1)) by tauto.
      rewrite decide_False by (intros ->; apply Hs; split; [by eapply elem_ref|done]).
      rewrite decide_False; [done|]. intros Eb. apply Hs. split; [|done].
      destruct i as [|i]; [done|]. cbn in Eb. unfold ref_at in Eb. destruct (l !! i) as [[s' d']|] eqn:Ei; [|done].
      injection Eb as <-. by eapply elem_ref.
  - intros s [Hs _]%Hin. rewrite Hf. by destruct (chain_ref _ _ _ _ s Hr Hk) as (? & _ & ?).
  - rewrite Hf. lia.
  - intros v (j & Hj)%list_elem_of_lookup. destruct v as [s c0]. apply Hdel in Hj.
    eapply rp_names; [done..|]. by eapply list_elem_of_lookup_2.
  - destruct (rp_bottom _ _ Hr _ _ Hk) as (v & Hv & Ht). exists v. split; [|done].
    rewrite last_lookup in *. pose proof (lookup_lt_Some _ _ _ HSi) as Hlen. rewrite length_delete by (by eexists).
    rewrite list_lookup_delete_ge by lia. rewrite <- Hv. f_equal. lia.
Qed.

(** *** The code's steps *)
Lemma read_run c r e : heap c !! r = Some e → read_entry r c = (c, Ok e).
Proof. intros E. unfold read_entry. by rewrite E. Qed.

Lemma write_run c r e f : heap c !! r = Some e → write_entry r f c = (set_heap (<[r := f e]> (heap c)) c, Ok ()).
Proof. intros E. unfold write_entry. rewrite st_bind_run, (read_run _ _ _ E). done. Qed.

Lemma destroy_none c : destroy None c = (c, Ok ()).
Proof. unfold destroy. cbn. by destruct c. Qed.

Lemma destroy_one c r e : heap c !! r = Some e → prev e = None →
  destroy (Some r) c = (set_heap (delete r (heap c)) c, Ok ()).
Proof. intros E Hp. unfold destroy. cbn [free_chain]. rewrite E. cbn. rewrite Hp. by destruct (size (heap c)). Qed.

(** A new version on top of its chain. *)
Lemma push_run c a b l :
  represents c a → a !! lower (entry_name b) = Some l →
  ∃ c1 c', make_entry b c = (c1, Ok (fresh_ref c)) ∧ emplaceNoLock (fresh_ref c) c1 = (c', Ok ()) ∧
    represents c' (<[lower (entry_name b) := (fresh_ref c, b) :: l]> a) ∧ nextOID c' = nextOID c ∧
    getPrev (fresh_ref c) c' = (c', deref (ref_at l 0)).
Proof.
  intros Hr Hk. destruct (bottomed_nonempty l) as ([head hb] & l0 & El); [by eapply rp_bottom|].
  assert (entries c !! lower (entry_name b) = Some head) as He by (by rewrite (rp_entries _ _ Hr), Hk, El).
  assert (l !! 0%nat = Some (head, hb)) as H0 by by rewrite El.
  pose proof (rp_linked _ _ Hr _ _ Hk _ _ _ H0) as Hh. set (e := mkEntry hb _ _) in Hh.
  assert (head ≠ fresh_ref c) as Hne by (intros ->; by rewrite (heap_fresh _ _ Hr) in Hh).
  eexists _, _. split; [done|]. split.
  - unfold emplaceNoLock. rewrite st_bind_run.
    rewrite (read_run _ _ (mkEntry b None None)) by (cbn; by rewrite lookup_insert_eq).
    st_run. cbn [entries body]. rewrite He. unfold setPrev. rewrite !st_bind_run.
    rewrite (read_run _ _ (mkEntry b None None)) by (cbn; by rewrite lookup_insert_eq).
    rewrite st_bind_run, (write_run _ _ (mkEntry b None None)) by (cbn; by rewrite lookup_insert_eq).
    rewrite st_bind_run, destroy_none. rewrite (write_run _ head e); [done|].
    cbn. by rewrite !lookup_insert_ne by done.
  - unfold set_entries, set_heap, set_prev. cbn [nextOID entries heap fresh_ref body prev next].
    rewrite insert_insert_eq. split_and!; [by eapply represents_push|done|].
    unfold getPrev. rewrite st_bind_run. erewrite read_run.
    2:{ cbn [heap]. rewrite lookup_insert_ne by done. by rewrite lookup_insert_eq. }
    rewrite El. done.
Qed.

Lemma first_run c a name o :
  represents c a → a !! lower name = None →
  ∃ c', emplaceDummy name o c = (c', Ok ()) ∧ nextOID c' = nextOID c ∧
    represents c' (<[lower name := [(fresh_ref c, DummyCatalogEntry name o)]]> a).
Proof.
  intros Hr Hk. eexists. split; [|split].
  - unfold emplaceDummy. st_run. rewrite (rp_entries _ _ Hr), Hk. cbn. done.
  - done.
  - unfold set_entries. cbn [nextOID entries heap fresh_ref].
    by apply (represents_first _ _ _ (DummyCatalogEntry name o)).
Qed.

Lemma not_first_run c a name o l : represents c a → a !! lower name = Some l → emplaceDummy name o c = (c, Ok ()).
Proof.
  intros Hr Hk. destruct (bottomed_nonempty l) as ([r b] & l0 & ->); [by eapply rp_bottom|].
  unfold emplaceDummy. st_run. by rewrite (rp_entries _ _ Hr), Hk.
Qed.

(** The record [r] names the version below the one it is about. *)
Lemma commit_run c a k l i r b r' b' ts :
  represents c a → a !! k = Some l → l !! S i = Some (r, b) → l !! i = Some (r', b') →
  ∃ c', commitCatalogEntryRecord ts r c = (c', Ok ()) ∧ nextOID c' = nextOID c ∧
    represents c' (<[k := <[i := (r', setTimestamp ts b')]> l]> a).
Proof.
  intros Hr Hk HSi Hi. pose proof (rp_linked _ _ Hr _ _ Hk) as Hl.
  pose proof (Hl _ _ _ HSi) as He. pose proof (Hl _ _ _ Hi) as He'. cbn [ref_before] in He.
  eexists. split; [|split].
  - unfold commitCatalogEntryRecord. rewrite st_bind_run, (read_run _ _ _ He). cbn [next].
    assert (ref_at l i = Some r') as -> by (unfold ref_at; by rewrite Hi).
    st_run. cbn [deref]. by rewrite (write_run _ _ _ _ He').
  - done.
  - eapply represents_stamp; [done..| |done]. by eapply lookup_lt_Some.
Qed.

(** Rollback takes the version above [r] out, wherever it is in its chain. *)
Lemma rollback_head c a k l r b r' b' :
  represents c a → a !! k = Some l → l !! 0%nat = Some (r', b') → l !! 1%nat = Some (r, b) →
  ∃ c', rollbackCatalogEntryRecord r c = (c', Ok ()) ∧ nextOID c' = nextOID c ∧ represents c' (<[k := delete 0%nat l]> a).
Proof.
  intros Hr Hk Hi HSi. pose proof (rp_linked _ _ Hr _ _ Hk) as Hl. pose proof (rp_nodup _ _ Hr _ _ Hk) as Hnd.
  pose proof (Hl _ _ _ HSi) as He. pose proof (Hl _ _ _ Hi) as He'.
  assert (ref_at l 1 = Some r) as E1 by (unfold ref_at; by rewrite HSi).
  assert (ref_at l 0 = Some r') as E0 by (unfold ref_at; by rewrite Hi).
  cbn [ref_before] in He, He'. rewrite E0 in He. rewrite E1 in He'.
  assert (r ≠ r') as Hne. { intros ->. by pose proof (ref_inj _ _ _ _ _ _ Hnd HSi Hi). }
  assert (lower (entry_name b) = k) as Hn.
  { apply (rp_names _ _ Hr k l (r, b) Hk). by eapply list_elem_of_lookup_2. }
  assert (entries c !! k = Some r') as Hek by (by rewrite (rp_entries _ _ Hr), Hk).
  eexists. split; [|split].
  - unfold rollbackCatalogEntryRecord. rewrite st_bind_run, (read_run _ _ _ He). cbn [next]. st_run. cbn [deref].
    rewrite st_bind_run, (read_run _ _ _ He'). cbn [next]. rewrite st_bind_run. unfold movePrev at 1.
    rewrite st_bind_run, (read_run _ _ _ He'). cbn [prev]. rewrite st_bind_run, (write_run _ _ _ _ He).
    rewrite st_bind_run, (write_run _ _ (mkEntry b' (Some r) None)) by (cbn; by rewrite lookup_insert_ne by done).
    cbn [mret stM_ret]. rewrite st_bind_run.
    rewrite (read_run _ _ (mkEntry b (ref_at l 2) None)) by (cbn; rewrite lookup_insert_ne by done; by rewrite lookup_insert_eq).
    cbn [body]. rewrite st_bind_run. unfold eraseNoLock at 1. st_run. cbn [entries set_heap]. rewrite Hn, Hek.
    st_run. rewrite (destroy_one _ _ (mkEntry b' None None)); [|cbn; by rewrite lookup_insert_eq|done].
    unfold emplaceNoLock. rewrite st_bind_run, (read_run _ _ (mkEntry b (ref_at l 2) None)).
    2:{ cbn. rewrite lookup_delete_ne by done. rewrite lookup_insert_ne by done. by rewrite lookup_insert_eq. }
    cbn [body]. st_run. cbn [entries set_heap set_entries]. rewrite Hn, lookup_delete_eq. st_run. done.
  - done.
  - eapply (represents_remove c _ a k l 0); [done..| | |]; unfold set_entries, set_heap, set_prev, set_next; cbn [nextOID entries heap fresh_ref body prev next].
    + by rewrite insert_delete_eq.
    + done.
    + intros s. cbn [ref_before]. destruct (decide (s = r')) as [->|Hs']; [by rewrite lookup_delete_eq|].
      rewrite lookup_delete_ne by done. rewrite lookup_insert_ne by done.
      destruct (decide (s = r)) as [->|Hs]; [by rewrite lookup_insert_eq|]. by rewrite lookup_insert_ne by done.
Qed.

Lemma rollback_inner c a k l i r b r' b' rn bn :
  represents c a → a !! k = Some l → l !! i = Some (rn, bn) → l !! S i = Some (r', b') → l !! S (S i) = Some (r, b) →
  ∃ c', rollbackCatalogEntryRecord r c = (c', Ok ()) ∧ nextOID c' = nextOID c ∧ represents c' (<[k := delete (S i) l]> a).
Proof.
  intros Hr Hk Hn Hi HSi. pose proof (rp_linked _ _ Hr _ _ Hk) as Hl. pose proof (rp_nodup _ _ Hr _ _ Hk) as Hnd.
  pose proof (Hl _ _ _ HSi) as He. pose proof (Hl _ _ _ Hi) as He'. pose proof (Hl _ _ _ Hn) as Hen.
  assert (ref_at l (S (S i)) = Some r) as E2 by (unfold ref_at; by rewrite HSi).
  assert (ref_at l (S i) = Some r') as E1 by (unfold ref_at; by rewrite Hi).
  assert (ref_at l i = Some rn) as E0 by (unfold ref_at; by rewrite Hn).
  cbn [ref_before] in He, He'. rewrite E1 in He, Hen. rewrite E2, E0 in He'.
  assert (r ≠ r') as N1. { intros ->. pose proof (ref_inj _ _ _ _ _ _ Hnd HSi Hi). lia. }
  assert (r ≠ rn) as N2. { intros ->. pose proof (ref_inj _ _ _ _ _ _ Hnd HSi Hn). lia. }
  assert (rn ≠ r') as N3. { intros ->. pose proof (ref_inj _ _ _ _ _ _ Hnd Hn Hi). lia. }
  eexists. split; [|split].
  - unfold rollbackCatalogEntryRecord. rewrite st_bind_run, (read_run _ _ _ He). cbn [next]. st_run. cbn [deref].
    rewrite st_bind_run, (read_run _ _ _ He'). cbn [next]. rewrite st_bind_run. unfold movePrev at 1.
    rewrite st_bind_run, (read_run _ _ _ He'). cbn [prev]. rewrite st_bind_run, (write_run _ _ _ _ He).
    rewrite st_bind_run, (write_run _ _ (mkEntry b' (Some r) (Some rn))) by (cbn; by rewrite lookup_insert_ne by done).
    cbn [mret stM_ret]. unfold setPrev.
    rewrite st_bind_run, (read_run _ _ _ (eq_trans (lookup_insert_ne _ _ _ _ (not_eq_sym N3)) (eq_trans (lookup_insert_ne _ _ _ _ N2) Hen))).
    rewrite st_bind_run, (write_run _ _ _ _ (eq_trans (lookup_insert_ne _ _ _ _ (not_eq_sym N3)) (eq_trans (lookup_insert_ne _ _ _ _ N2) Hen))).
    cbn [prev]. rewrite st_bind_run, (destroy_one _ _ (mkEntry b' None (Some rn))); [| |done].
    2:{ cbn. rewrite lookup_insert_ne by done. by rewrite lookup_insert_eq. }
    rewrite (write_run _ _ (mkEntry b (ref_at l (S (S (S i)))) None)); [done|].
    cbn. rewrite lookup_delete_ne, !lookup_insert_ne by done. by rewrite lookup_insert_eq.
  - done.
  - eapply (represents_remove c _ a k l (S i)); [done..| | |]; unfold set_heap, set_prev, set_next; cbn [nextOID entries heap fresh_ref body prev next].
    + rewrite decide_False by done. rewrite insert_id; [done|]. rewrite (rp_entries _ _ Hr), Hk. cbn.
      destruct (bottomed_nonempty l) as (v & l0 & ->); [by eapply rp_bottom|]. done.
    + done.
    + intros s. cbn [ref_before]. rewrite E0. destruct (decide (s = r')) as [->|Hs'].
      { rewrite lookup_insert_ne by done. by rewrite lookup_delete_eq. }
      destruct (decide (s = r)) as [->|Hs]; [by rewrite lookup_insert_eq|].
      rewrite lookup_insert_ne, lookup_delete_ne by done.
      destruct (decide (s = rn)) as [->|Hsn].
      * rewrite lookup_insert_eq, decide_True by done. by rewrite Hen.
      * rewrite (decide_False (P := Some rn = Some s)) by congruence. by rewrite !lookup_insert_ne by done.
Qed.

Lemma rollback_run c a k l i r b r' b' :
  represents c a → a !! k = Some l → l !! i = Some (r', b') → l !! S i = Some (r, b) →
  ∃ c', rollbackCatalogEntryRecord r c = (c', Ok ()) ∧ nextOID c' = nextOID c ∧ represents c' (<[k := delete i l]> a).
Proof.
  intros Hr Hk Hi HSi. destruct i as [|i]; [by eapply rollback_head|].
  destruct (l !! i) as [[rn bn]|] eqn:Hn; [by eapply rollback_inner|].
  apply lookup_ge_None in Hn. apply lookup_lt_Some in Hi. lia.
Qed.
End Steps.
