(* ===== verification/CatalogTransactions.v ===== *)
(** * Transactions on a catalog set

    The statements of a transaction that create, drop and alter entries, when they are
    [statements_ok], and what they do to the chains: [grown] says that a set is another one with versions of the
    transaction on top, and that the undo records name what lies below each of them. *)

From S2P Require Import Prelude.
From S2P Require Import Transaction.
From S2P Require Import PropertyCollection.
From S2P Require Import TableEntry.
From S2P Require Import TableEntryTheorems.
From S2P Require Import CatalogSet.
From S2P Require Import CatalogSpec.

Section Transactions.
Context `{CatalogKind}.

(** ** Statements *)
Inductive CatalogOp : Type :=
| OpCreate (ty : CatalogEntryType) (name : string) (parent : bool) (d : EntryData)
| OpDrop (name : string) (o : Z)
| OpAlter (info : BoundAlterInfo).

(** What ALTER TABLE reads outside the set of tables: the internal tables by name and by
    identifier, and the indexed properties; the order in which the map is walked. *)
Record AlterEnv : Type := {
  internalTable : string → option TableCatalogEntry;
  internalName : Z → result string;
  indexed : Z → bool;
  order : CatalogSet → list positive;
}.

Section Statements.
Variable env : AlterEnv.
Variable logs : bool.
Variable tx : Transaction.

(** [Catalog::containsTable] and [Catalog::getTableCatalogEntry] (catalog/catalog.cpp). *)
Definition Catalog_containsTable (name : string) (c : CatalogSet) : result bool :=
  found ← containsEntry tx name c;
  mret (found || bool_decide (is_Some (internalTable env name))).

Definition table_of (b : EntryBody) : result TableCatalogEntry :=
  match data b with TableData t => Ok t | _ => UB end.

Definition Catalog_getTableCatalogEntry (name : string) (c : CatalogSet) : result TableCatalogEntry :=
  found ← containsEntry tx name c;
  if found : bool then r ← getEntry tx name c; b ← deref_body r c; table_of b
  else match internalTable env name with
       | Some t => mret t
       | None => throw CatalogException (name +:+ " does not exist in catalog.")
       end.

Definition Catalog_tableName (id : Z) (c : CatalogSet) : result string :=
  found ← getEntryOfOID tx id (order env c) c;
  match found with
  | Some r => b ← deref_body r c; mret (entry_name b)
  | None => internalName env id
  end.

Definition alter_catalog (c : CatalogSet) : AlterCatalog := {|
  containsTable name := Catalog_containsTable name c;
  containsIndex := indexed env;
  tableNameOf id := Catalog_tableName id c;
|}.

(** [Alter::executeInternal] up to the change of the storage. *)
Definition executeAlter (info : BoundAlterInfo) : stM Session () :=
  s ← st_get;
  found ← st_lift (Catalog_containsTable (alter_tableName info) (catalogSet s));
  if found : bool then
    t ← st_lift (Catalog_getTableCatalogEntry (alter_tableName info) (catalogSet s));
    skip ← st_lift (alterTable_skips (alter_catalog (catalogSet s)) (alter_tableName info) t info);
    if skip : bool then mret () else alterTableEntry logs tx info
  else st_throw BinderException ("Table " +:+ alter_tableName info +:+ " does not exist.").

Definition exec_op (op : CatalogOp) : stM Session () :=
  match op with
  | OpCreate ty name parent d =>
      _ ← createEntry logs tx (mkBody ty name INVALID_OID INVALID_TRANSACTION false parent d); mret ()
  | OpDrop name o => dropEntry logs tx name o
  | OpAlter info => executeAlter info
  end.

(** The statements of a transaction, one after the other; one that throws has the effect
    it had so far. *)
Fixpoint exec_ops (ops : list CatalogOp) (s : Session) : Session * list (result ()) :=
  match ops with
  | [] => (s, [])
  | op :: ops => let '(s1, r) := exec_op op s in let '(s2, l) := exec_ops ops s1 in (s2, r :: l)
  end.

(** What creates and alters entries gives the set entries of their kind: none is of the
    type of deleted ones, and those of the set of tables are tables whose primary key, if
    any, is one of their properties.  A connection is added or dropped where the table is a
    group of relationship tables (the cast of another one is undefined, see
    connection_of_node_table), and there are identifiers and columns for a new property. *)
Definition op_ok (tables : bool) (op : CatalogOp) (s : Session) : Prop :=
  match op with
  | OpCreate ty _ _ d => ty ≠ DUMMY_ENTRY ∧ (tables = true → ∃ t, d = TableData t ∧ table_sound t)
  | OpDrop _ _ => True
  | OpAlter info => tables = true ∧
      ∀ t, Catalog_getTableCatalogEntry (alter_tableName info) (catalogSet s) = Ok t → alter_fits (extraInfo info) t
  end.

Fixpoint statements_ok (tables : bool) (ops : list CatalogOp) (s : Session) : Prop :=
  match ops with
  | [] => True
  | op :: ops => op_ok tables op s ∧ statements_ok tables ops (exec_op op s).1
  end.
End Statements.

(** The internal tables are sound, a name that is not found is no undefined behaviour, and
    the walk over the map visits its entries. *)
Record env_ok (env : AlterEnv) : Prop := {
  ev_tables : ∀ name t, internalTable env name = Some t → table_sound t;
  ev_names : ∀ id, internalName env id ≠ UB;
  ev_order : ∀ c head, head ∈ order env c → ∃ k, entries c !! k = Some head;
}.

(** What becomes of the record for the log: types that cannot be created or dropped. *)
Definition not_supported (ty : CatalogEntryType) : result () :=
  s ← CatalogEntryTypeUtils_toString ty; throw RuntimeException ("Not supported catalog entry type " +:+ s +:+ " yet.").

Definition log_created (logs : bool) (ty : CatalogEntryType) : result () :=
  if negb logs then Ok () else
  match ty with
  | FOREIGN_TABLE_ENTRY | AGGREGATE_FUNCTION_ENTRY | REWRITE_FUNCTION_ENTRY | COPY_FUNCTION_ENTRY => not_supported ty
  | _ => Ok ()
  end.

Definition log_dropped (logs hasParent : bool) (ty : CatalogEntryType) : result () :=
  if negb logs || hasParent then Ok () else
  match ty with
  | FOREIGN_TABLE_ENTRY | AGGREGATE_FUNCTION_ENTRY | REWRITE_FUNCTION_ENTRY | COPY_FUNCTION_ENTRY | TYPE_ENTRY
  | DUMMY_ENTRY => not_supported ty
  | _ => Ok ()
  end.

Lemma log_created_defined logs ty : log_created logs ty ≠ UB.
Proof. by destruct logs, ty. Qed.
Lemma log_dropped_defined logs parent ty : log_dropped logs parent ty ≠ UB.
Proof. by destruct logs, parent, ty. Qed.

Definition startSession (c : CatalogSet) : Session := mkSession c [] [] false.

(** ** Growth of the chains *)

(** Every version was committed, by time [n]. *)
Definition settled (n : Z) (a : Chains) : Prop :=
  ∀ k l v, a !! k = Some l → v ∈ l → 0 ≤ timestamp v.2 ≤ n.

(** The entries of a set: the deleted ones are those of the dummy type. *)
Record version_ok (tables : bool) (b : EntryBody) : Prop := {
  vo_dummy : deleted b = true ↔ entry_type b = DUMMY_ENTRY;
  vo_table : tables = true → deleted b = false → ∃ t, data b = TableData t ∧ table_sound t;
}.

Definition typed (tables : bool) (a : Chains) : Prop := ∀ k l v, a !! k = Some l → v ∈ l → version_ok tables v.2.

Lemma dummy_version tables name o : version_ok tables (DummyCatalogEntry name o).
Proof. by split. Qed.
Lemma version_stamped tables ts b : version_ok tables b → version_ok tables (setTimestamp ts b).
Proof. by intros []. Qed.

Lemma typed_insert tables (a : Chains) k l : typed tables a → (∀ v, v ∈ l → version_ok tables v.2) → typed tables (<[k := l]> a).
Proof. intros Ha Hl k' l' v [[<- <-]|[_ Hk]]%lookup_insert_Some; [apply Hl|by apply (Ha k')]. Qed.

Record writer (n : Z) (tx : Transaction) : Prop := {
  wr_appends : shouldAppendToUndoBuffer tx = true;
  wr_id : START_TRANSACTION_ID ≤ ID tx;
  wr_start : 0 ≤ n ≤ startTS tx;
  wr_before : startTS tx < START_TRANSACTION_ID;
}.

Inductive grown (tables : bool) (tx : Transaction) (a0 : Chains) : list positive → Chains → Prop :=
| grown_nil : grown tables tx a0 [] a0
| grown_dummy us a k r d :
    grown tables tx a0 us a → a !! k = None → timestamp d = 0 → deleted d = true → version_ok tables d →
    grown tables tx a0 us (<[k := [(r, d)]]> a)
| grown_push us a k l r b r0 b0 :
    grown tables tx a0 us a → a !! k = Some l → l !! 0%nat = Some (r0, b0) → timestamp b = ID tx →
    version_ok tables b → grown tables tx a0 (us ++ [r0]) (<[k := (r, b) :: l]> a).

Section Grown.
Variables (tables : bool) (n : Z) (tx : Transaction) (a0 : Chains).
Hypothesis Hw : writer n tx.
Hypothesis Ha0 : settled n a0.

Lemma grown_typed us a : typed tables a0 → grown tables tx a0 us a → typed tables a.
Proof.
  intros Ht. induction 1 as [|us a k r d Hg IH Hk Hd Hdel Hv|us a k l r b r0 b0 Hg IH Hk H0 Hb Hv]; [done|..]; apply typed_insert; try done.
  - by intros v ->%list_elem_of_singleton.
  - intros v [->|Hin]%elem_of_cons; [done|by apply (IH k l)].
Qed.

(** The transaction sees the newest version of every name. *)
Lemma grown_sees us a k l v : grown tables tx a0 us a → a !! k = Some l → v ∈ l → sees tx v ∧ 0 ≤ timestamp v.2.
Proof.
  destruct Hw as [_ Hi Hs Hb]. unfold START_TRANSACTION_ID in *. intros Hg. revert k l v.
  induction Hg as [|us a k0 r d Hg IH Hk Hd Hdel|us a k0 l0 r b r0 b0 Hg IH Hk H0 Hb0]; intros k l v Hl Hv.
  - unfold sees. destruct (Ha0 _ _ _ Hl Hv). lia.
  - apply lookup_insert_Some in Hl as [[<- <-]|[_ Hl]]; [|by eapply IH].
    apply list_elem_of_singleton in Hv as ->. unfold sees. cbn. lia.
  - apply lookup_insert_Some in Hl as [[<- <-]|[_ Hl]]; [|by eapply IH].
    apply elem_of_cons in Hv as [->|Hv]; [|by eapply IH]. unfold sees. cbn. lia.
Qed.

Lemma grown_version us a k v l : grown tables tx a0 us a → a !! k = Some (v :: l) → version_for tx (v :: l) = Some v.
Proof.
  intros Hg Hk. cbn [version_for]. rewrite decide_True; [done|]. eapply grown_sees; [done..|left].
Qed.

Lemma grown_no_conflict us a k l v : grown tables tx a0 us a → a !! k = Some l → v ∈ l → checkWWConflict tx v.2 = false.
Proof.
  intros Hg Hk Hv. destruct (grown_sees _ _ _ _ _ Hg Hk Hv) as [Hs _]. destruct Hw as [_ Hi Hst Hb].
  unfold sees, checkWWConflict, START_TRANSACTION_ID in *. destruct Hs as [Hs|Hs].
  - rewrite (bool_decide_false (timestamp v.2 ≠ ID tx)) by lia. rewrite andb_false_r. cbn.
    apply andb_false_iff. left. apply bool_decide_eq_false. lia.
  - apply orb_false_iff. split; apply andb_false_iff; [left|right]; apply bool_decide_eq_false; lia.
Qed.

Lemma grown_lookup us a name v : grown tables tx a0 us a → lookup_name tx name a = Some v →
  ∃ l, a !! lower name = Some l ∧ l !! 0%nat = Some v ∧ deleted v.2 = false.
Proof.
  intros Hg Hl. unfold lookup_name in Hl. destruct (a !! lower name) as [[|w l]|] eqn:E; [done| |done].
  cbn [mbind option_bind] in Hl. rewrite (grown_version _ _ _ _ _ Hg E) in Hl. cbn in Hl. unfold live in Hl.
  destruct (deleted w.2) eqn:Ed; [done|]. injection Hl as <-. by exists (w :: l).
Qed.
End Grown.

(** ** Statements make the chains grow *)

Definition below (c : CatalogSet) (a : Chains) (name : string) (o : Z) : list Version :=
  default [(fresh_ref c, DummyCatalogEntry name o)] (a !! lower name).

(** What creating an entry does where nothing is in the way. *)
Lemma create_run c a tx b :
  represents c a → 0 ≤ startTS tx → lookup_name tx (entry_name b) a = None →
  (∀ v l, a !! lower (entry_name b) = Some (v :: l) → checkWWConflict tx v.2 = false ∧ deleted v.2 = true) →
  ∃ c' r r0, createEntryNoLock tx b c = (c', Ok r0) ∧ ref_at (below c a (entry_name b) (oid b)) 0 = Some r0 ∧
    nextOID c' = nextOID c ∧
    represents c' (<[lower (entry_name b) := (r, setTimestamp (ID tx) b) :: below c a (entry_name b) (oid b)]> a).
Proof.
  intros Hr H0 Hnone Hfree. unfold createEntryNoLock. st_run. unfold validateNotExistNoLock.
  rewrite (contains_ok _ a) by done. rewrite Hnone. rewrite bool_decide_false by (by intros [??]). cbn [mbind result_bind]. st_run.
  unfold below. set (k := lower (entry_name b)) in *. destruct (a !! k) as [l|] eqn:Ek; cbn [default].
  - destruct (bottomed_nonempty l) as ([r0 b0] & l0 & ->); [by eapply rp_bottom|].
    destruct (Hfree (r0, b0) l0 eq_refl) as [Hc Hd]. cbn [snd] in *.
    rewrite (rp_entries _ _ Hr), Ek. cbn [mbind option_bind ref_at lookup list_lookup fmap option_fmap option_map fst].
    assert (deref_body r0 c = Ok b0) as ->.
    { unfold deref_body. by rewrite (rp_linked _ _ Hr _ _ Ek 0%nat r0 b0). }
    st_run. rewrite Hc, Hd. cbn [negb]. st_run. cbn [mret result_ret id]. rewrite st_bind_run, (not_first_run _ _ _ _ _ Hr Ek).
    destruct (push_run c a (setTimestamp (ID tx) b) _ Hr Ek) as (c1 & c' & E1 & E2 & Hr' & Hn & Hp).
    rewrite st_bind_run, E1, st_bind_run, E2, Hp. by eexists c', _, r0.
  - rewrite (rp_entries _ _ Hr), Ek. cbn [mbind option_bind]. st_run. cbn [mret result_ret id].
    destruct (first_run c a (entry_name b) (oid b) Hr Ek) as (cd & Ed & Hnd & Hrd). rewrite st_bind_run, Ed.
    destruct (push_run cd _ (setTimestamp (ID tx) b) [(fresh_ref c, DummyCatalogEntry (entry_name b) (oid b))] Hrd)
      as (c1 & c' & E1 & E2 & Hr' & Hn & Hp); [by rewrite lookup_insert_eq|].
    rewrite st_bind_run, E1, st_bind_run, E2, Hp. cbn in Hr'. rewrite insert_insert_eq in Hr'. exists c', (fresh_ref cd), (fresh_ref c).
    split_and!; [done|done|congruence|done].
Qed.

Lemma create_cases c a tx b :
  represents c a → 0 ≤ startTS tx →
  (∃ e, createEntryNoLock tx b c = (c, Throw e)) ∨
  (lookup_name tx (entry_name b) a = None ∧
   ∀ v l, a !! lower (entry_name b) = Some (v :: l) → checkWWConflict tx v.2 = false ∧ deleted v.2 = true).
Proof.
  intros Hr H0. destruct (lookup_name tx (entry_name b) a) as [v|] eqn:El.
  { left. eexists. unfold createEntryNoLock. st_run. unfold validateNotExistNoLock.
    rewrite (contains_ok _ a), El by done. done. }
  destruct (a !! lower (entry_name b)) as [l|] eqn:Ek; [|by right].
  destruct (bottomed_nonempty l) as ([r0 b0] & l0 & ->); [by eapply rp_bottom|].
  assert (deref_body r0 c = Ok b0) as Hb. { unfold deref_body. by rewrite (rp_linked _ _ Hr _ _ Ek 0%nat r0 b0). }
  assert (entries c !! lower (entry_name b) = Some r0) as He by (by rewrite (rp_entries _ _ Hr), Ek).
  assert (containsEntryNoLock tx (entry_name b) c = Ok false) as Hc by (by rewrite (contains_ok _ a), El by done).
  destruct (checkWWConflict tx b0) eqn:Ew.
  { left. eexists. unfold createEntryNoLock. st_run. unfold validateNotExistNoLock. rewrite Hc. cbn [mbind result_bind]. st_run.
    rewrite He. rewrite Hb. st_run. by rewrite Ew. }
  destruct (deleted b0) eqn:Ed.
  { right. split; [done|]. intros v l [= <- <-]. done. }
  left. eexists. unfold createEntryNoLock. st_run. unfold validateNotExistNoLock. rewrite Hc. cbn [mbind result_bind]. st_run.
  rewrite He. rewrite Hb. st_run. by rewrite Ew, Ed.
Qed.

Lemma create_throws c a tx b v :
  represents c a → 0 ≤ startTS tx → lookup_name tx (entry_name b) a = Some v →
  createEntryNoLock tx b c = (c, throw CatalogException (entry_name b +:+ " already exists in catalog.")).
Proof.
  intros Hr H0 Hl. unfold createEntryNoLock. st_run. unfold validateNotExistNoLock.
  by rewrite (contains_ok _ a), Hl, bool_decide_true by done.
Qed.

Lemma drop_run c a tx name o l v :
  represents c a → 0 ≤ startTS tx → lookup_name tx name a = Some v → a !! lower name = Some l →
  ∃ c' r r0, dropEntryNoLock tx name o c = (c', Ok r0) ∧ ref_at l 0 = Some r0 ∧ nextOID c' = nextOID c ∧
    represents c' (<[lower name := (r, setTimestamp (ID tx) (DummyCatalogEntry name o)) :: l]> a).
Proof.
  intros Hr H0 Hl Hk. unfold dropEntryNoLock. st_run. unfold validateExistNoLock.
  rewrite (contains_ok _ a), Hl by done. rewrite bool_decide_true by done. cbn [mbind result_bind]. st_run.
  destruct (push_run c a (setTimestamp (ID tx) (DummyCatalogEntry name o)) l Hr Hk) as (c1 & c' & E1 & E2 & Hr' & Hn & Hp).
  cbn [mret result_ret]. rewrite E1, st_bind_run, E2, Hp. destruct (bottomed_nonempty l) as ([r0 b0] & l0 & ->); [exact (rp_bottom _ _ Hr _ _ Hk)|].
  by eexists c', _, r0.
Qed.

Lemma drop_throws c a tx name o :
  represents c a → 0 ≤ startTS tx → lookup_name tx name a = None →
  dropEntryNoLock tx name o c = (c, throw CatalogException (name +:+ " does not exist in catalog.")).
Proof.
  intros Hr H0 Hl. unfold dropEntryNoLock. st_run. unfold validateExistNoLock.
  by rewrite (contains_ok _ a), Hl by done.
Qed.

Lemma seen_chain tx name a v : lookup_name tx name a = Some v → ∃ l, a !! lower name = Some l.
Proof. unfold lookup_name. destruct (a !! lower name); [eauto|done]. Qed.
End Transactions.
