(* ===== verification/CatalogGrowth.v ===== *)
(** * Statements of one writer make the chains grow

    While one transaction writes, each of its statements ends: it throws and leaves the
    chains as they are, or puts versions of its own on top of chains and records, in
    order, what lies below each of them.  No link that it follows dangles, no loop runs
    out, and no assertion on the types of entries fails. *)

From S2P Require Import Prelude.
From S2P Require Import Transaction.
From S2P Require Import PropertyCollection.
From S2P Require Import TableEntry.
From S2P Require Import TableEntryTheorems.
From S2P Require Import CatalogSet.
From S2P Require Import CatalogSpec.
From S2P Require Import CatalogTransactions.

Section Growth.
Context `{CatalogKind}.

Definition with_set (c : CatalogSet) (s : Session) : Session :=
  mkSession c (undo s) (localWAL s) (changed s).

Lemma on_set_run {A} (m : stM CatalogSet A) s c r : m (catalogSet s) = (c, r) → on_set m s = (with_set c s, r).
Proof. intros E. unfold on_set. by rewrite E. Qed.

Lemma on_set_read r s : on_set (read_entry r) s = (s, deref (heap (catalogSet s) !! r)).
Proof. unfold on_set, read_entry. cbn. by destruct s. Qed.

Lemma represents_nextOID c a o : represents c a → represents (set_nextOID o c) a.
Proof. by intros []. Qed.

(** A record is appended whatever becomes of the log: the version below the new one and
    the new one are there, and of types that go together. *)
Lemma pushed_works tables logs internal skip s a k l r b r0 b0 :
  represents (catalogSet s) a → a !! k = Some l → l !! 0%nat = Some (r, b) → l !! 1%nat = Some (r0, b0) →
  version_ok tables b → version_ok tables b0 → deleted b = true ∨ deleted b0 = true →
  ∃ s', pushCreateDropCatalogEntry logs r0 internal skip s =
      (s', if skip : bool then Ok () else if deleted b then log_dropped logs (hasParent b0) (entry_type b0) else log_created logs (entry_type b)) ∧
    catalogSet s' = catalogSet s ∧ undo s' = undo s ++ [r0].
Proof.
  intros Hr Hk H0 H1 [Hb _] [Hb0 _] Hdel. unfold pushCreateDropCatalogEntry. st_run. unfold createCatalogEntry at 1. st_run.
  destruct skip; [rewrite orb_true_r; by eexists|]. rewrite orb_false_r. unfold log_dropped, log_created.
  destruct logs; cbn [negb]; [|destruct (deleted b); by eexists]. set (s1 := mkSession _ (undo s ++ [r0]) _ _).
  pose proof (rp_linked _ _ Hr _ _ Hk _ _ _ H1) as He0. pose proof (rp_linked _ _ Hr _ _ Hk _ _ _ H0) as He.
  cbn [ref_before] in He0, He. assert (ref_at l 0 = Some r) as Er by (unfold ref_at; by rewrite H0). rewrite Er in He0.
  rewrite st_bind_run, on_set_read. unfold s1 at 1. cbn [catalogSet]. rewrite He0. cbn [deref next]. st_run. cbn [deref].
  rewrite on_set_read. unfold s1 at 1. cbn [catalogSet]. rewrite He. cbn [deref body orb].
  destruct (deleted b) eqn:Ed.
  - rewrite (proj1 Hb eq_refl). cbn [negb]. destruct (hasParent b0); [by eexists|]. unfold notSupported, not_supported.
    destruct (entry_type b0); by eexists.
  - destruct Hdel as [?|Ed0]; [done|]. pose proof (proj1 Hb0 Ed0) as Et. rewrite Ed0, Et. unfold notSupported, not_supported.
    destruct (entry_type b) eqn:Eb; try (by eexists); [destruct (hasParent b); by eexists|].
    by discriminate (proj2 Hb eq_refl).
Qed.

Lemma pushed_alter logs r info s : ∃ s', pushAlterCatalogEntry logs r info s = (s', Ok ()) ∧
  catalogSet s' = catalogSet s ∧ undo s' = undo s ++ [r].
Proof. unfold pushAlterCatalogEntry. st_run. unfold createCatalogEntry. st_run. destruct logs; by eexists. Qed.

Section Writer.
Variables (tables : bool) (n : Z) (tx : Transaction) (a0 : Chains) (env : AlterEnv) (logs : bool).
Hypothesis Hw : writer n tx.
Hypothesis Ha0 : settled n a0.
Hypothesis Hty0 : typed tables a0.

(** The chains of a session of the transaction. *)
Record at_work (s : Session) (a : Chains) : Prop := {
  aw_set : represents (catalogSet s) a;
  aw_grown : grown tables tx a0 (undo s) a;
}.

Lemma writer_start : 0 ≤ startTS tx.
Proof. destruct Hw. lia. Qed.

Lemma at_work_typed s a : at_work s a → typed tables a.
Proof. intros [_ Hg]. by eapply grown_typed. Qed.

Lemma below_head us c a name o r0 : grown tables tx a0 us a → represents c a → ref_at (below c a name o) 0 = Some r0 →
  ∃ b0, below c a name o !! 0%nat = Some (r0, b0) ∧ version_ok tables b0.
Proof.
  intros Hg Hr H0. unfold ref_at in H0. destruct (below c a name o !! 0%nat) as [[r1 b0]|] eqn:E; [|done].
  injection H0 as ->. exists b0. split; [done|]. unfold below in E. destruct (a !! lower name) as [l|] eqn:El; cbn [default id] in E.
  - apply (grown_typed tables tx a0 us a Hty0 Hg (lower name) l (r0, b0)); [done|]. by eapply list_elem_of_lookup_2.
  - injection E as _ <-. apply dummy_version.
Qed.

Lemma grown_below us c a name o r b r0 :
  grown tables tx a0 us a → represents c a → ref_at (below c a name o) 0 = Some r0 → timestamp b = ID tx → version_ok tables b →
  grown tables tx a0 (us ++ [r0]) (<[lower name := (r, b) :: below c a name o]> a).
Proof.
  intros Hg Hr H0 Hb Hv. unfold below in *. destruct (a !! lower name) as [l|] eqn:E; cbn [default id] in *.
  - unfold ref_at in H0. destruct (l !! 0%nat) as [[r1 b1]|] eqn:E0; [|done]. injection H0 as ->.
    by eapply grown_push.
  - injection H0 as <-. rewrite <- (insert_insert_eq a (lower name) _ [(fresh_ref c, DummyCatalogEntry name o)]).
    eapply grown_push; [apply grown_dummy; [done..|apply dummy_version]|by rewrite lookup_insert_eq|done..].
Qed.

(** The newest version is the one the transaction sees. *)
Lemma free_name us c a name :
  represents c a → grown tables tx a0 us a → lookup_name tx name a = None →
  ∀ v l, a !! lower name = Some (v :: l) → checkWWConflict tx v.2 = false ∧ deleted v.2 = true.
Proof.
  intros Hr Hg Hl v l Hk. split; [by eapply grown_no_conflict; [..|left]|].
  unfold lookup_name in Hl. rewrite Hk in Hl. cbn [mbind option_bind] in Hl.
  rewrite (grown_version _ _ _ _ Hw Ha0 _ _ _ _ _ Hg Hk) in Hl. cbn in Hl. unfold live in Hl. by destruct (deleted v.2).
Qed.

Lemma free_below us c a name o r0 b0 :
  represents c a → grown tables tx a0 us a → lookup_name tx name a = None →
  below c a name o !! 0%nat = Some (r0, b0) → deleted b0 = true.
Proof.
  intros Hr Hg Hl Hh. pose proof (free_name _ _ _ _ Hr Hg Hl) as Hf. unfold below in Hh.
  destruct (a !! lower name) as [[|v l]|] eqn:E; cbn [default id] in Hh; [done| |by injection Hh as _ <-].
  destruct (Hf v l eq_refl) as [_ Hd]. cbn in Hh. injection Hh as ->. done.
Qed.

(** What became of a statement: the chains grew and a name changed its meaning, or it
    threw and the chains are as they were. *)
Definition renamed (a a' : Chains) (name : string) (o : option EntryBody) : Prop :=
  ∀ name', meaning tx name' a' = if decide (lower name' = lower name) then o else meaning tx name' a.

Lemma meaning_of name a v : lookup_name tx name a = Some v → meaning tx name a = Some (setTimestamp 0 v.2).
Proof. intros E. unfold meaning. by rewrite E. Qed.

Lemma createEntry_works b s a :
  at_work s a → version_ok tables b → deleted b = false →
  match meaning tx (entry_name b) a with
  | Some _ => ∃ s', createEntry logs tx b s = (s', throw CatalogException (entry_name b +:+ " already exists in catalog.")) ∧ at_work s' a
  | None => ∃ s' a', createEntry logs tx b s = (s', (λ _, nextOID (catalogSet s)) <$> log_created logs (entry_type b)) ∧ at_work s' a' ∧
      renamed a a' (entry_name b) (Some (setTimestamp 0 (setOID (nextOID (catalogSet s)) b)))
  end.
Proof.
  intros [Hr Hg] Hv Hdel. pose proof writer_start as H0. unfold createEntry.
  rewrite st_bind_run, (on_set_run _ _ (set_nextOID _ (catalogSet s)) (Ok (nextOID (catalogSet s)))) by done.
  set (s1 := with_set _ s). assert (represents (catalogSet s1) a) as Hr1 by by apply represents_nextOID.
  rewrite st_bind_run. destruct (lookup_name tx (entry_name b) a) as [v|] eqn:El.
  { rewrite (on_set_run _ _ _ _ (create_throws _ _ _ (setOID _ b) _ Hr1 H0 El)). rewrite (meaning_of _ _ _ El).
    eexists. split; [done|]. by split. }
  set (b1 := setOID (nextOID (catalogSet s)) b). assert (Hn : lookup_name tx (entry_name b1) a = None) by done.
  assert (Hf := free_name _ _ _ _ Hr Hg Hn).
  destruct (create_run _ _ _ _ Hr1 H0 Hn Hf) as (c' & r & r0 & Ec & Hr0 & _ & Hr').
  rewrite (on_set_run _ _ _ _ Ec), (wr_appends _ _ Hw). st_run.
  destruct (below_head _ _ _ _ _ _ Hg Hr1 Hr0) as (b0 & Hh & Hv0). pose proof (free_below _ _ _ _ _ _ _ Hr1 Hg Hn Hh) as Hd0.
  assert (version_ok tables (setTimestamp (ID tx) b1)) as Hv1 by by apply version_stamped; destruct Hv.
  destruct (pushed_works tables logs (isInternal (catalogSet (with_set c' s1))) false (with_set c' s1) _ _ _ r (setTimestamp (ID tx) b1) r0 b0
    Hr' (lookup_insert_eq _ _ _)) as (s2 & Ep & Es & Eu); [done|exact Hh|done..|by right|].
  rewrite Ep. cbn [setTimestamp deleted setOID b1 entry_type hasParent]. rewrite Hdel.
  assert (meaning tx (entry_name b) a = None) as -> by (unfold meaning; by rewrite El).
  exists s2. eexists. split; [|split].
  - by destruct (log_created logs (entry_type b)) as [[]| |].
  - split; rewrite ?Es, ?Eu; [exact Hr'|]. by eapply grown_below.
  - intros name'. rewrite meaning_push by done. cbn. by rewrite Hdel.
Qed.

Lemma dropEntry_works name o s a :
  at_work s a →
  match meaning tx name a with
  | Some b => ∃ s' a', dropEntry logs tx name o s = (s', log_dropped logs (hasParent b) (entry_type b)) ∧ at_work s' a' ∧ renamed a a' name None
  | None => dropEntry logs tx name o s = (s, throw CatalogException (name +:+ " does not exist in catalog."))
  end.
Proof.
  intros [Hr Hg]. pose proof writer_start as H0. unfold dropEntry. rewrite st_bind_run.
  destruct (lookup_name tx name a) as [v|] eqn:El.
  2:{ rewrite (on_set_run _ _ _ _ (drop_throws _ _ _ _ _ Hr H0 El)). unfold meaning. rewrite El. by destruct s. }
  rewrite (meaning_of _ _ _ El).
  destruct (grown_lookup _ _ _ _ Hw Ha0 _ _ _ _ Hg El) as (l & Hl & Hh & Hd).
  destruct (drop_run _ _ tx name o l v Hr H0 El Hl) as (c' & r & r0 & Ec & Hr0 & _ & Hr').
  rewrite (on_set_run _ _ _ _ Ec), (wr_appends _ _ Hw). st_run.
  destruct v as [r1 b0]. unfold ref_at in Hr0. rewrite Hh in Hr0. injection Hr0 as ->. cbn [snd] in *.
  assert (version_ok tables b0) as Hv0.
  { apply (grown_typed tables tx a0 _ a Hty0 Hg (lower name) l (r0, b0)); [done|]. by eapply list_elem_of_lookup_2. }
  destruct (pushed_works tables logs (isInternal (catalogSet (with_set c' s))) false (with_set c' s) _ _ _ r
    (setTimestamp (ID tx) (DummyCatalogEntry name o)) r0 b0 Hr' (lookup_insert_eq _ _ _)) as (s2 & Ep & Es & Eu);
    [done|exact Hh|apply version_stamped, dummy_version|done|by left|].
  rewrite Ep. exists s2. eexists. split; [done|]. split.
  - split; rewrite ?Es, ?Eu; [exact Hr'|]. eapply grown_push; [done..|apply version_stamped, dummy_version].
  - intros name'. by rewrite meaning_push by done.
Qed.

Lemma alter_body_timestamp info next b b' next' : alter_body tx info next b = Ok (b', next') →
  timestamp b' = ID tx ∧ oid b' = oid b ∧ deleted b' = false ∧
  entry_name b' = match info with RENAME newName => newName | _ => entry_name b end.
Proof.
  unfold alter_body. destruct (data b) as [t|o|]; [|done..]. destruct (deleted b) eqn:Ed; [done|].
  destruct (alter info next t) as [[t' n']| |]; [|done..]. cbn. by intros [= <- <-].
Qed.

(** Reading the entry to be altered. *)
Lemma seen_entry c a name v us : represents c a → grown tables tx a0 us a → lookup_name tx name a = Some v →
  ∃ e l, a !! lower name = Some (v :: l) ∧ heap c !! v.1 = Some e ∧ body e = v.2 ∧ version_ok tables v.2 ∧ deleted v.2 = false.
Proof.
  intros Hr Hg Hl. destruct (grown_lookup _ _ _ _ Hw Ha0 _ _ _ _ Hg Hl) as (l & Hk & Hh & Hd).
  destruct l as [|w l]; [done|]. injection Hh as ->. destruct v as [r b].
  pose proof (rp_linked _ _ Hr _ _ Hk 0%nat r b eq_refl) as He. eexists _, l. split_and!; [done..| |done].
  apply (grown_typed tables tx a0 us a Hty0 Hg (lower name) _ (r, b) Hk). left.
Qed.

Lemma push_alter_works s a k l r b r0 b0 info :
  represents (catalogSet s) (<[k := (r, b) :: l]> a) → grown tables tx a0 (undo s) a → a !! k = Some l → l !! 0%nat = Some (r0, b0) →
  timestamp b = ID tx → version_ok tables b →
  ∃ s', pushAlterCatalogEntry logs r0 info s = (s', Ok ()) ∧ at_work s' (<[k := (r, b) :: l]> a).
Proof.
  intros Hr Hg Hk Hh Hb Hv. destruct (pushed_alter logs r0 info s) as (s2 & E2 & Es & Eu).
  exists s2. split; [done|]. split; rewrite ?Es, ?Eu; [exact Hr|]. by eapply grown_push.
Qed.

(** What the names mean after an alteration. *)
Definition altered (a a' : Chains) (info : BoundAlterInfo) (b' : EntryBody) : Prop :=
  match extraInfo info with
  | RENAME newName => ∀ name, meaning tx name a' =
      if decide (lower name = lower newName) then Some (setTimestamp 0 b')
      else if decide (lower name = lower (alter_tableName info)) then None else meaning tx name a
  | _ => renamed a a' (alter_tableName info) (Some (setTimestamp 0 b'))
  end.

Lemma rename_works info newName s a v b' :
  at_work s a → lookup_name tx (alter_tableName info) a = Some v → lookup_name tx newName a = None →
  timestamp b' = ID tx → deleted b' = false → version_ok tables b' → entry_name b' = newName →
  ∃ s' a', (_ ← on_set (dropEntryNoLock tx (alter_tableName info) (oid v.2));
    created ← on_set (createEntryNoLock tx b');
    s ← st_get;
    if shouldAppendToUndoBuffer tx then
      _ ← pushAlterCatalogEntry logs v.1 info;
      pushCreateDropCatalogEntry logs created (isInternal (catalogSet s)) true
    else mret ()) s = (s', Ok ()) ∧ at_work s' a' ∧
    ∀ name, meaning tx name a' = if decide (lower name = lower newName) then Some (setTimestamp 0 b')
      else if decide (lower name = lower (alter_tableName info)) then None else meaning tx name a.
Proof.
  intros [Hr Hg] El Hfree Hts Hdel Hv Hname. pose proof writer_start as H0.
  destruct (seen_entry _ _ _ _ _ Hr Hg El) as (e & l & Hk & He & Hbody & _ & _).
  destruct (drop_run _ a tx (alter_tableName info) (oid v.2) (v :: l) v Hr H0 El Hk) as (c2 & r & r0 & Ed & Hr0 & _ & Hr2).
  cbn in Hr0. injection Hr0 as <-. rewrite st_bind_run, (on_set_run _ _ _ _ Ed).
  set (tomb := setTimestamp _ _) in Hr2. set (a2 := <[_ := _]> a) in Hr2.
  assert (grown tables tx a0 (undo s ++ [v.1]) a2) as Hg2.
  { eapply (grown_push tables tx a0 (undo s) a _ (v :: l) r tomb v.1 v.2); [done..|by destruct v|done|apply version_stamped, dummy_version]. }
  assert (lower newName ≠ lower (alter_tableName info)) as Hne.
  { intros En. unfold lookup_name in *. rewrite En in Hfree. congruence. }
  assert (lookup_name tx (entry_name b') a2 = None) as Hn2.
  { rewrite Hname. unfold lookup_name, a2. by rewrite lookup_insert_ne. }
  destruct (create_run c2 a2 tx b' Hr2 H0 Hn2) as (c3 & r3 & below3 & Ec & Hb3 & _ & Hr3); [by eapply free_name|].
  rewrite st_bind_run, (on_set_run _ (with_set c2 s) _ _ Ec). st_run. rewrite (wr_appends _ _ Hw).
  destruct (pushed_alter logs v.1 info (with_set c3 (with_set c2 s))) as (s3 & E3 & Es3 & Eu3). rewrite st_bind_run, E3.
  destruct (below_head _ _ _ _ _ _ Hg2 Hr2 Hb3) as (b0 & Hh & Hv0). pose proof (free_below _ _ _ _ _ _ _ Hr2 Hg2 Hn2 Hh) as Hd0.
  destruct (pushed_works tables logs (isInternal (catalogSet (with_set c3 (with_set c2 s)))) true s3 _ _ _ r3 (setTimestamp (ID tx) b') below3 b0
    ltac:(rewrite Es3; exact Hr3) (lookup_insert_eq _ _ _)) as (s4 & Ep & Es4 & Eu4);
    [done|exact Hh|by apply version_stamped|done|by right|].
  rewrite Ep. exists s4. eexists. split; [done|]. split.
  - split; rewrite ?Es4, ?Eu4, ?Es3, ?Eu3; [exact Hr3|]. eapply grown_below; [exact Hg2|exact Hr2|exact Hb3|done|by apply version_stamped].
  - intros name. rewrite meaning_push by done. rewrite Hname. cbn. rewrite Hdel.
    destruct (decide (lower name = lower newName)); [done|]. unfold a2. by rewrite meaning_push.
Qed.

Lemma replace_works info s a v b' :
  at_work s a → lookup_name tx (alter_tableName info) a = Some v →
  timestamp b' = ID tx → deleted b' = false → version_ok tables b' → entry_name b' = entry_name v.2 →
  ∃ s' a', (r ← on_set (make_entry b'); _ ← on_set (emplaceNoLock r);
     if shouldAppendToUndoBuffer tx then pushAlterCatalogEntry logs v.1 info else mret ()) s = (s', Ok ()) ∧
    at_work s' a' ∧ renamed a a' (alter_tableName info) (Some (setTimestamp 0 b')).
Proof.
  intros [Hr Hg] El Hts Hdel Hv Hn. destruct (seen_entry _ _ _ _ _ Hr Hg El) as (e & l & Hk & He & Hbody & _ & _).
  assert (lower (entry_name b') = lower (alter_tableName info)) as Hlow.
  { rewrite Hn. eapply (rp_names _ _ Hr); [done|left]. }
  destruct (push_run (catalogSet s) a b' (v :: l) Hr) as (c1 & c2 & E1 & E2 & Hr2 & _ & _); [by rewrite Hlow|].
  rewrite st_bind_run, (on_set_run _ _ _ _ E1). rewrite st_bind_run, (on_set_run _ (with_set c1 s) _ _ E2), (wr_appends _ _ Hw).
  destruct (push_alter_works (with_set c2 (with_set c1 s)) a _ (v :: l) _ b' v.1 v.2 info Hr2 Hg) as (s3 & E3 & Hs3);
    [by rewrite Hlow|by destruct v|done..|].
  exists s3. eexists. split; [done|]. split; [done|]. intros name'. rewrite meaning_push by done. by rewrite Hlow, Hdel.
Qed.

Lemma alterTableEntry_works info s a v b' next' :
  at_work s a → lookup_name tx (alter_tableName info) a = Some v →
  alter_body tx (extraInfo info) (nextOID (catalogSet s)) v.2 = Ok (b', next') → version_ok tables b' →
  (∀ newName, extraInfo info = RENAME newName → lookup_name tx newName a = None) →
  ∃ s' a', alterTableEntry logs tx info s = (s', Ok ()) ∧ at_work s' a' ∧ altered a a' info b'.
Proof.
  intros Hs El Eb Hv Hfree. pose proof writer_start as H0. pose proof Hs as [Hr Hg]. unfold alterTableEntry. st_run.
  unfold validateExistNoLock. rewrite (contains_ok _ a), (getEntry_ok _ a), El by done.
  rewrite bool_decide_true by done. cbn [mbind result_bind mret result_ret]. st_run.
  destruct (seen_entry _ _ _ _ _ Hr Hg El) as (e & l & Hk & He & Hbody & _ & _).
  rewrite on_set_read, He. cbn [deref]. st_run. rewrite Hbody, Eb.
  pose proof Eb as (Hts & Hoid & Hdel & Hname)%alter_body_timestamp.
  rewrite st_bind_run, (on_set_run _ _ (set_nextOID next' (catalogSet s)) (Ok ())) by done.
  set (s1 := with_set _ s). assert (at_work s1 a) as Hs1 by (split; [by apply represents_nextOID|done]).
  unfold altered. destruct (extraInfo info) as [newName| | | | | |] eqn:Ei; [|by apply replace_works..].
  apply (rename_works info newName s1 a v b'); auto.
Qed.

(** *** What a statement asks first *)
Lemma contains_table name s a : at_work s a → Catalog_containsTable env tx name (catalogSet s) =
  Ok (bool_decide (is_Some (lookup_name tx name a)) || bool_decide (is_Some (internalTable env name))).
Proof. intros [Hr _]. pose proof writer_start. unfold Catalog_containsTable, containsEntry. by rewrite (contains_ok _ a). Qed.

Lemma get_table name s a : at_work s a → Catalog_getTableCatalogEntry env tx name (catalogSet s) =
  match lookup_name tx name a with
  | Some v => table_of v.2
  | None => match internalTable env name with
            | Some t => Ok t
            | None => throw CatalogException (name +:+ " does not exist in catalog.")
            end
  end.
Proof.
  intros [Hr Hg]. pose proof writer_start. unfold Catalog_getTableCatalogEntry, containsEntry, getEntry.
  rewrite (contains_ok _ a), (getEntry_ok _ a) by done. destruct (lookup_name tx name a) as [v|] eqn:El; [|done].
  rewrite bool_decide_true by done. cbn [mbind result_bind].
  destruct (seen_entry _ _ _ _ _ Hr Hg El) as (e & l & _ & He & <- & _). unfold deref_body. by rewrite He.
Qed.

Lemma entry_of_oid id heads s a : at_work s a → (∀ r, r ∈ heads → ∃ k, entries (catalogSet s) !! k = Some r) →
  ∃ o, getEntryOfOID tx id heads (catalogSet s) = Ok o ∧ ∀ r, o = Some r → ∃ b, deref_body r (catalogSet s) = Ok b.
Proof.
  intros [Hr Hg] Hh. pose proof writer_start as H0. induction heads as [|head heads IH]; cbn [getEntryOfOID]; [by exists None|].
  destruct (Hh head) as [k Hk]; [left|]. destruct IH as (o & -> & Ho); [intros r Hin; apply Hh; by right|].
  rewrite (rp_entries _ _ Hr) in Hk. destruct (a !! k) as [l|] eqn:El; [|done]. cbn in Hk.
  destruct (visible_ok _ _ _ _ tx Hr El H0) as (head' & v & i & He & _ & _ & Ht & Hb).
  rewrite (rp_entries _ _ Hr), El in He. cbn in He. assert (head' = head) as -> by congruence.
  unfold ref_at in Hk. destruct (l !! 0%nat) as [[r0 b0]|] eqn:E0; [|done]. injection Hk as ->.
  assert (deref_body head (catalogSet s) = Ok b0) as -> by (unfold deref_body; by rewrite (rp_linked _ _ Hr _ _ El 0%nat head b0 E0)).
  cbn [mbind result_bind].
  case_bool_decide; [by exists o|]. rewrite Ht. cbn [mbind result_bind]. rewrite Hb. cbn [mbind result_bind].
  destruct (deleted v.2); [by exists o|]. eexists. split; [done|]. intros r [= <-]. by exists v.2.
Qed.

Hypothesis Henv : env_ok env.

Lemma table_name_defined id s a : at_work s a → Catalog_tableName env tx id (catalogSet s) ≠ UB.
Proof.
  intros Hs. unfold Catalog_tableName.
  destruct (entry_of_oid id (order env (catalogSet s)) s a Hs) as (o & -> & Ho); [apply (ev_order _ Henv)|].
  cbn [mbind result_bind]. destruct o as [r|]; [|apply (ev_names _ Henv)]. by destruct (Ho r eq_refl) as [b ->].
Qed.

Lemma checks_defined name t info s a : at_work s a → table_sound t → alter_fits (extraInfo info) t →
  alterTable_skips (alter_catalog env tx (catalogSet s)) name t info ≠ UB.
Proof.
  intros Hs Ht Hf. apply skips_defined; [done..| |].
  - intros nm. cbn [containsTable alter_catalog]. by rewrite (contains_table _ _ a Hs).
  - intros id. by apply (table_name_defined id s a).
Qed.

(** *** Statements *)

(** A table that the transaction sees is altered, or the checks decide against it. *)
Lemma executeAlter_works info s a :
  at_work s a → op_ok env tx tables (OpAlter info) s →
  match lookup_name tx (alter_tableName info) a with
  | Some v => ∃ t, data v.2 = TableData t ∧
      match alterTable_skips (alter_catalog env tx (catalogSet s)) (alter_tableName info) t info with
      | Ok false => ∃ b' next' s' a', alter_body tx (extraInfo info) (nextOID (catalogSet s)) v.2 = Ok (b', next') ∧
          executeAlter env logs tx info s = (s', Ok ()) ∧ at_work s' a' ∧ altered a a' info b'
      | Ok true => executeAlter env logs tx info s = (s, Ok ())
      | Throw e => executeAlter env logs tx info s = (s, Throw e)
      | UB => False
      end
  | None => ∃ r, executeAlter env logs tx info s = (s, r) ∧ r ≠ UB ∧
      (internalTable env (alter_tableName info) = None →
       r = throw BinderException ("Table " +:+ alter_tableName info +:+ " does not exist."))
  end.
Proof.
  intros Hs [Htab Hfit]. pose proof Hs as [Hr Hg]. pose proof writer_start as H0. unfold executeAlter. st_run.
  rewrite (contains_table _ _ a Hs), (get_table _ _ a Hs) in *.
  destruct (lookup_name tx (alter_tableName info) a) as [v|] eqn:El.
  - destruct (seen_entry _ _ _ _ _ Hr Hg El) as (e & l & Hk & He & Hbody & Hv & Hd).
    destruct (vo_table _ _ Hv Htab Hd) as (t & Et & Hts). exists t. split; [done|].
    assert (table_of v.2 = Ok t) as Ev by (unfold table_of; by rewrite Et). rewrite Ev in *.
    rewrite bool_decide_true by done. cbn [orb]. st_run. specialize (Hfit t eq_refl).
    pose proof (checks_defined (alter_tableName info) t info s a Hs Hts Hfit) as Hdef.
    destruct (alterTable_skips _ _ _ _) as [[]| |] eqn:Es; st_run; [done| |done|done].
    destruct (altered_sound _ _ _ _ (nextOID (catalogSet s)) Hts Hfit Es) as (t' & next' & Ea & Hts').
    assert (∃ b', alter_body tx (extraInfo info) (nextOID (catalogSet s)) v.2 = Ok (b', next') ∧ version_ok tables b') as (b' & Eb & Hv').
    { unfold alter_body. rewrite Et, Hd, Ea. eexists. split; [done|]. destruct Hv as [Hdum _]. split; cbn.
      - rewrite Hd in Hdum. exact Hdum.
      - intros _ _. by exists t'. }
    destruct (alterTableEntry_works info s a v b' next' Hs El Eb Hv') as (s' & a' & E & Hs' & Hm); [|by exists b', next', s', a'].
    intros newName Ei. unfold alterTable_skips in Es. rewrite Ei in Es. unfold checkRenameTableConflicts in Es.
    cbn [containsTable alter_catalog] in Es. rewrite (contains_table _ _ a Hs) in Es.
    destruct (lookup_name tx newName a) as [w|]; [|done]. by rewrite bool_decide_true in Es.
  - destruct (internalTable env (alter_tableName info)) as [t|] eqn:Ei; [|by eexists].
    rewrite bool_decide_false by by intros [??]. rewrite bool_decide_true by done. cbn [orb]. st_run.
    pose proof (checks_defined (alter_tableName info) t info s a Hs (ev_tables _ Henv _ _ Ei) (Hfit t eq_refl)) as Hdef.
    destruct (alterTable_skips _ _ _ _) as [[]| |]; st_run; [by eexists| |by eexists|done].
    unfold alterTableEntry. st_run. unfold validateExistNoLock. rewrite (contains_ok _ a), El by done. by eexists.
Qed.

Lemma exec_op_works op s a : at_work s a → op_ok env tx tables op s →
  ∃ s' r a', exec_op env logs tx op s = (s', r) ∧ r ≠ UB ∧ at_work s' a'.
Proof.
  intros Hs Hok. destruct op as [ty name parent d|name o|info]; cbn [exec_op].
  - destruct Hok as [Hty Hd]. set (b := mkBody _ _ _ _ _ _ _).
    assert (version_ok tables b) as Hv by (split; [by split|intros Ht _; by apply Hd]).
    pose proof (createEntry_works b s a Hs Hv eq_refl) as Hc. rewrite st_bind_run.
    destruct (meaning tx (entry_name b) a); [destruct Hc as (s' & -> & Hs'); by eexists _, _, a|].
    destruct Hc as (s' & a' & -> & Hs' & _). pose proof (log_created_defined logs (entry_type b)).
    destruct (log_created logs (entry_type b)) as [[]| |]; [by eexists _, _, a'..|done].
  - pose proof (dropEntry_works name o s a Hs) as Hd. destruct (meaning tx name a) as [b|]; [|rewrite Hd; by eexists _, _, a].
    destruct Hd as (s' & a' & -> & Hs' & _). eexists _, _, a'. split_and!; [done|apply log_dropped_defined|done].
  - pose proof (executeAlter_works info s a Hs Hok) as Ha. destruct (lookup_name _ _ _) as [v|].
    + destruct Ha as (t & _ & Ha). destruct (alterTable_skips _ _ _ _) as [[]| |]; [rewrite Ha; by eexists _, _, a| |rewrite Ha; by eexists _, _, a|done].
      destruct Ha as (b' & next' & s' & a' & _ & -> & Hs' & _). by eexists _, _, a'.
    + destruct Ha as (r & -> & Hdef & _). by eexists _, _, a.
Qed.

Lemma statements_work ops : ∀ s a, at_work s a → statements_ok env logs tx tables ops s →
  Forall (λ r, r ≠ UB) (exec_ops env logs tx ops s).2 ∧ ∃ a', at_work (exec_ops env logs tx ops s).1 a'.
Proof.
  induction ops as [|op ops IH]; intros s a Hs Hok; cbn [exec_ops statements_ok] in *; [split; [constructor|by exists a]|].
  destruct Hok as [Hop Hok]. destruct (exec_op_works op s a Hs Hop) as (s' & r & a' & E & Hr & Hs').
  rewrite E in *. destruct (IH s' a' Hs' Hok) as [Hall Hw']. destruct (exec_ops _ _ _ ops s') as [s2 l].
  split; [by constructor|done].
Qed.
End Writer.
End Growth.

(** * Commit and rollback of the catalog records of a transaction

    Reading is unaffected by versions of a running transaction; committing its records
    stamps exactly its versions; rolling them back, newest first, takes exactly them out. *)

Section Commit.
Context `{CatalogKind}.

(** Transactions that read: user transactions, and those with identifier 0. *)
Record reader (tx : Transaction) : Prop := {
  rd_start : 0 ≤ startTS tx < START_TRANSACTION_ID;
  rd_id : ID tx = 0 ∨ START_TRANSACTION_ID ≤ ID tx;
}.

Lemma version_for_ext tx l l' :
  Forall2 (λ v v', (sees tx v ∨ sees tx v') → v' = v) l l' → version_for tx l' = version_for tx l.
Proof.
  induction 1 as [|v v' l l' Hv Hl IH]; [done|]. cbn [version_for].
  destruct (decide (sees tx v')) as [H1|H1]; destruct (decide (sees tx v)) as [H2|H2]; [| | |done].
  all: rewrite Hv in * by tauto; done.
Qed.

(** *** Chains with additional dummy entries *)
Definition extends (a a' : Chains) : Prop := ∀ k,
  a' !! k = a !! k ∨ (a !! k = None ∧ ∃ r d, a' !! k = Some [(r, d)] ∧ timestamp d = 0 ∧ deleted d = true ∧ entry_type d = DUMMY_ENTRY).

Lemma extends_refl a : extends a a.
Proof. by left. Qed.
Lemma extends_trans a1 a2 a3 : extends a1 a2 → extends a2 a3 → extends a1 a3.
Proof.
  intros H1 H2 k. destruct (H1 k) as [E1|(E1 & r & d & E2 & Ht & Hd)], (H2 k) as [E3|(E3 & E4)].
  - left. congruence.
  - right. split; [congruence|done].
  - right. split; [done|]. exists r, d. split; [congruence|done].
  - congruence.
Qed.
Lemma extends_lookup a a' tx name : 0 ≤ startTS tx → extends a a' → lookup_name tx name a' = lookup_name tx name a.
Proof.
  intros H0 He. unfold lookup_name. destruct (He (lower name)) as [->|(-> & r & d & -> & Ht & Hd & _)]; [done|].
  cbn. rewrite decide_True by (unfold sees; cbn; lia). cbn. unfold live. cbn. by rewrite Hd.
Qed.

Section Writer.
Variables (tables : bool) (n : Z) (tx : Transaction) (a0 : Chains).
Hypothesis Hw : writer n tx.
Hypothesis Ha0 : settled n a0.

Lemma unseen R v : reader R → ID R ≠ ID tx → timestamp v.2 = ID tx → ¬ sees R v.
Proof. destruct Hw as [_ Hi _ _]. intros [Hs _] Hne Ht [E|E]; unfold START_TRANSACTION_ID in *; [congruence|lia]. Qed.

Lemma grown_extends us a : grown tables tx a0 us a → ∀ R name, reader R → ID R ≠ ID tx →
  lookup_name R name a = lookup_name R name a0.
Proof.
  intros Hg R name HR Hne. induction Hg as [|us a k r d Hg IH Hk Ht Hd Hv|us a k l r b r0 b0 Hg IH Hk H0 Hb Hv]; [done| |].
  - rewrite <- IH. apply extends_lookup; [apply HR|]. intros j. destruct (decide (k = j)) as [<-|Hj].
    + right. rewrite lookup_insert_eq. split; [done|]. exists r, d. split_and!; try done. by apply (vo_dummy _ _ Hv).
    + left. by rewrite lookup_insert_ne.
  - rewrite <- IH. unfold lookup_name. destruct (decide (k = lower name)) as [->|Hj]; [|by rewrite lookup_insert_ne].
    rewrite lookup_insert_eq, Hk. cbn [mbind option_bind version_for]. rewrite decide_False; [done|]. by eapply unseen.
Qed.

(** *** The records name exactly the versions of the transaction *)
Definition recorded (us : list positive) (a : Chains) : Prop := ∀ r, r ∈ us →
  ∃ k l i b v, a !! k = Some l ∧ l !! i = Some v ∧ l !! S i = Some (r, b) ∧ timestamp v.2 = ID tx.
Definition complete (us : list positive) (a : Chains) : Prop := ∀ k l i v,
  a !! k = Some l → l !! i = Some v →
  0 ≤ timestamp v.2 ≤ n ∨ (timestamp v.2 = ID tx ∧ ∃ r, ref_at l (S i) = Some r ∧ r ∈ us).

Lemma grown_recorded us a : grown tables tx a0 us a → recorded us a.
Proof.
  induction 1 as [|us a k r d Hg IH Hk Ht Hd|us a k l r b r0 b0 Hg IH Hk H0 Hb].
  - intros r Hr. by apply not_elem_of_nil in Hr.
  - intros r' Hr. destruct (IH _ Hr) as (k' & l & i & b & v & Hl & Hrest). exists k', l, i, b, v.
    split; [|done]. rewrite lookup_insert_ne; [done|]. congruence.
  - intros r' [Hr| ->%list_elem_of_singleton]%elem_of_app.
    + destruct (IH _ Hr) as (k' & l' & i & b' & v & Hl & Hi & HSi & Hv).
      destruct (decide (k = k')) as [<-|Hne].
      * exists k, ((r, b) :: l), (S i), b', v. rewrite lookup_insert_eq. rewrite Hk in Hl. injection Hl as ->. done.
      * exists k', l', i, b', v. by rewrite lookup_insert_ne.
    + exists k, ((r, b) :: l), 0%nat, b0, (r, b). rewrite lookup_insert_eq. done.
Qed.

Lemma grown_complete us a : grown tables tx a0 us a → complete us a.
Proof.
  pose proof (wr_start _ _ Hw) as Hn.
  induction 1 as [|us a k r d Hg IH Hk Ht Hd|us a k l r b r0 b0 Hg IH Hk H0 Hb]; intros k' l' i v Hl Hi.
  - left. eapply Ha0; [done|]. by eapply list_elem_of_lookup_2.
  - apply lookup_insert_Some in Hl as [[<- <-]|[Hne Hl]]; [|by eapply IH].
    destruct i as [|i]; [|done]. injection Hi as <-. left. cbn. lia.
  - apply lookup_insert_Some in Hl as [[<- <-]|[Hne Hl]].
    + destruct i as [|i]; cbn in Hi.
      * injection Hi as <-. right. split; [done|]. exists r0. split; [by destruct l as [|w l]; [|injection H0 as ->]|].
        apply elem_of_app. right. by left.
      * destruct (IH _ _ _ _ Hk Hi) as [?|(? & r' & Hr' & Hin)]; [by left|right]. split; [done|].
        exists r'. split; [done|]. apply elem_of_app. by left.
    + destruct (IH _ _ _ _ Hl Hi) as [?|(? & r' & Hr' & Hin)]; [by left|right]. split; [done|].
      exists r'. split; [done|]. apply elem_of_app. by left.
Qed.

Lemma grown_nothing a : grown tables tx a0 [] a → settled n a.
Proof.
  pose proof (wr_start _ _ Hw) as Hn. intros Hg k l v Hk Hv. apply list_elem_of_lookup in Hv as [i Hi].
  destruct (grown_complete _ _ Hg _ _ _ _ Hk Hi) as [?|(_ & r & _ & Hr)]; [done|by apply not_elem_of_nil in Hr].
Qed.

(** *** Commit *)
Definition above (us : list positive) (o : option positive) : bool :=
  match o with Some r => bool_decide (r ∈ us) | None => false end.
Definition stamp (us : list positive) (ts : Z) (l : list Version) : list Version :=
  imap (λ i v, if above us (ref_at l (S i)) then (v.1, setTimestamp ts v.2) else v) l.

Lemma stamp_lookup us ts l i : stamp us ts l !! i =
  (λ v : Version, if above us (ref_at l (S i)) then (v.1, setTimestamp ts v.2) else v) <$> l !! i.
Proof. unfold stamp. by rewrite list_lookup_imap. Qed.

Lemma stamp_nil ts (a : Chains) : stamp [] ts <$> a = a.
Proof.
  rewrite <- (map_fmap_id a) at 2. apply map_fmap_ext. intros k l _. apply list_eq. intros i.
  rewrite stamp_lookup. unfold id. destruct (l !! i); [|done]. cbn. unfold above.
  destruct (ref_at l (S i)); [rewrite bool_decide_false by apply not_elem_of_nil|]; done.
Qed.

Lemma stamp_ref us ts l i : ref_at (stamp us ts l) i = ref_at l i.
Proof. unfold ref_at. rewrite stamp_lookup. destruct (l !! i); [|done]. cbn. by destruct (above _ _). Qed.

Lemma stamp_refs us ts l : (stamp us ts l).*1 = l.*1.
Proof. apply list_eq. intros i. rewrite !list_lookup_fmap. apply stamp_ref. Qed.

(** A version stamped by the records is one of the transaction. *)
Lemma stamped_own c us us' ts (a : Chains) k l i v r :
  represents c (stamp us' ts <$> a) → recorded us a → a !! k = Some l → l !! i = Some v →
  ref_at l (S i) = Some r → r ∈ us → timestamp v.2 = ID tx.
Proof.
  intros Hr Hrec Hk Hi Hrr Hin. destruct (Hrec _ Hin) as (k' & l' & j & b & w & Hk' & Hj & HSj & Hts).
  unfold ref_at in Hrr. destruct (l !! S i) as [[r0 b0]|] eqn:HSi; [|done]. injection Hrr as ->.
  assert (k = k') as <-.
  { eapply (rp_own _ _ Hr k k' (stamp us' ts l) (stamp us' ts l') r); rewrite ?lookup_fmap, ?Hk, ?Hk', ?stamp_refs; try done; by eapply elem_ref. }
  assert (l = l') as <- by congruence. assert (NoDup l.*1) as Hnd.
  { rewrite <- (stamp_refs us' ts). eapply (rp_nodup _ _ Hr k). by rewrite lookup_fmap, Hk. }
  assert (S i = S j) as E by (exact (ref_inj _ _ _ _ _ _ Hnd HSi HSj)). injection E as ->. congruence.
Qed.

Lemma commit_prefix us2 us1 ts c (a : Chains) :
  recorded us2 a → represents c (stamp us1 ts <$> a) →
  ∃ c', each_record (commitCatalogEntryRecord ts) us2 c = (c', Ok ()) ∧ represents c' (stamp (us1 ++ us2) ts <$> a).
Proof.
  revert us1 c. induction us2 as [|r us2 IH]; intros us1 c Hrec Hr.
  { exists c. by rewrite app_nil_r. }
  destruct (Hrec r) as (k & l & i & b & v & Hk & Hi & HSi & Hv); [by left|].
  assert ((stamp us1 ts <$> a) !! k = Some (stamp us1 ts l)) as Hk' by (by rewrite lookup_fmap, Hk).
  assert (NoDup l.*1) as Hnd by (rewrite <- (stamp_refs us1 ts); by eapply rp_nodup).
  assert (∃ b', stamp us1 ts l !! S i = Some (r, b')) as [b1 HSi'].
  { rewrite stamp_lookup, HSi. cbn. destruct (above _ _); by eexists. }
  assert (∃ b', stamp us1 ts l !! i = Some (v.1, b') ∧ setTimestamp ts b' = setTimestamp ts v.2) as (b2 & Hi' & Hb2).
  { rewrite stamp_lookup, Hi. cbn. destruct v. destruct (above _ _); by eexists. }
  destruct (commit_run _ _ _ _ _ _ _ _ _ ts Hr Hk' HSi' Hi') as (c1 & E1 & _ & Hr1).
  assert (<[k := <[i := (v.1, setTimestamp ts b2)]> (stamp us1 ts l)]> (stamp us1 ts <$> a) = stamp (us1 ++ [r]) ts <$> a) as Em.
  { assert (∀ us o, above (us ++ [r]) o = above us o || bool_decide (o = Some r)) as Hab.
    { intros us [s|]; [|done]. unfold above. apply eq_true_iff_eq. rewrite orb_true_iff, !bool_decide_eq_true, elem_of_app, list_elem_of_singleton.
      split; [intros [?| ->]; auto|intros [?|[= ->]]; auto]. }
    apply map_eq. intros k2. rewrite lookup_fmap. destruct (decide (k = k2)) as [<-|Hne].
    - rewrite lookup_insert_eq, Hk. cbn. f_equal. apply list_eq. intros j. destruct (decide (i = j)) as [<-|Hij].
      + rewrite list_lookup_insert_eq by (apply lookup_lt_Some in Hi'; lia). rewrite stamp_lookup, Hi. cbn.
        unfold ref_at at 1. rewrite HSi. cbn. rewrite Hb2. rewrite bool_decide_true; [done|].
        apply elem_of_app. right. by left.
      + rewrite list_lookup_insert_ne by done. rewrite !stamp_lookup, Hab.
        rewrite (bool_decide_false (ref_at l (S j) = Some r)), orb_false_r; [done|]. unfold ref_at.
        destruct (l !! S j) as [[s bs]|] eqn:Es; [|done]. intros [= ->].
        pose proof (ref_inj _ _ _ _ _ _ Hnd HSi Es). lia.
    - rewrite lookup_insert_ne, lookup_fmap by done. destruct (a !! k2) as [l2|] eqn:Hk2; [|done]. cbn. f_equal.
      apply list_eq. intros j. rewrite !stamp_lookup, Hab.
      rewrite (bool_decide_false (ref_at l2 (S j) = Some r)), orb_false_r; [done|]. unfold ref_at.
      destruct (l2 !! S j) as [[s bs]|] eqn:Es; [|done]. intros [= ->]. apply Hne.
      eapply (rp_own _ _ Hr k k2 (stamp us1 ts l) (stamp us1 ts l2) r); rewrite ?lookup_fmap, ?Hk, ?Hk2, ?stamp_refs; try done; by eapply elem_ref. }
  rewrite Em in Hr1. destruct (IH (us1 ++ [r]) c1) as (c2 & E2 & Hr2); [intros s Hs; apply Hrec; by right|done|].
  exists c2. cbn [each_record]. rewrite st_bind_run, E1. rewrite <- (assoc_L (++)) in Hr2. done.
Qed.

(** Readers that started before the commit do not notice it. *)
Lemma stamp_reader c us ts (a : Chains) R name :
  represents c (stamp us ts <$> a) → recorded us a → reader R → ID R ≠ ID tx → 0 < ts < START_TRANSACTION_ID → startTS R < ts →
  lookup_name R name (stamp us ts <$> a) = lookup_name R name a.
Proof.
  intros Hr Hrec HR Hne Hts Hst. unfold lookup_name. rewrite lookup_fmap.
  destruct (a !! lower name) as [l|] eqn:Hk; [|done]. cbn [fmap option_fmap option_map mbind option_bind]. f_equal.
  apply version_for_ext, Forall2_same_length_lookup. split; [unfold stamp; by rewrite length_imap|].
  intros i v v' Hi Hi'. rewrite stamp_lookup, Hi in Hi'. injection Hi' as <-.
  unfold above. destruct (ref_at l (S i)) as [r|] eqn:Hrr; [|done]. case_bool_decide as Hin; [|done].
  pose proof (stamped_own _ _ _ _ _ _ _ _ _ _ Hr Hrec Hk Hi Hrr Hin) as Ho.
  intros [Hs|Hs]; [exfalso; by eapply unseen|]. exfalso.
  unfold sees in Hs. cbn in Hs. destruct (rd_id _ HR) as [E|E]; unfold START_TRANSACTION_ID in *; lia.
Qed.

(** After the commit everything is committed, and later readers see what the
    transaction saw. *)
Lemma stamp_settled us ts (a : Chains) : complete us a → startTS tx < ts → settled ts (stamp us ts <$> a).
Proof.
  pose proof (wr_start _ _ Hw) as Hn. intros Hc Hts k l v. rewrite lookup_fmap. destruct (a !! k) as [l0|] eqn:Hk; [|done].
  intros [= <-] (i & Hi)%list_elem_of_lookup. rewrite stamp_lookup in Hi. destruct (l0 !! i) as [w|] eqn:Hw0; [|done].
  injection Hi as <-. destruct (Hc _ _ _ _ Hk Hw0) as [?|(_ & r & Hr & Hin)].
  - destruct (above _ _); cbn; lia.
  - unfold above. rewrite Hr, bool_decide_true by done. cbn. lia.
Qed.

Lemma settled_meaning m a R name : settled m a → m ≤ startTS R → 
  meaning R name a = l ← a !! lower name; v ← l !! 0%nat; (λ v : Version, setTimestamp 0 v.2) <$> live v.
Proof.
  intros Hs Hm. unfold meaning, lookup_name. destruct (a !! lower name) as [[|v l]|] eqn:Hk; [done| |done].
  cbn [mbind option_bind version_for lookup list_lookup]. rewrite decide_True; [done|]. right.
  destruct (Hs _ _ v Hk); [left|lia].
Qed.

Lemma stamp_meaning us ts (a : Chains) R name :
  grown tables tx a0 us a → startTS tx < ts → ts ≤ startTS R → meaning R name (stamp us ts <$> a) = meaning tx name a.
Proof.
  intros Hg Hts HR. rewrite (settled_meaning ts); [|apply stamp_settled; [by eapply grown_complete|done]|done].
  rewrite lookup_fmap. unfold meaning, lookup_name. destruct (a !! lower name) as [[|v l]|] eqn:Hk; [done| |done].
  cbn [fmap option_fmap option_map mbind option_bind]. rewrite (grown_version _ _ _ _ Hw Ha0 _ _ _ _ _ Hg Hk). rewrite stamp_lookup.
  cbn. unfold live. destruct (above us _); cbn; by destruct (deleted v.2).
Qed.

Lemma stamp_typed us ts (a : Chains) : typed tables a → typed tables (stamp us ts <$> a).
Proof.
  intros Ht k l v. rewrite lookup_fmap. destruct (a !! k) as [l0|] eqn:Hk; [|done].
  intros [= <-] (i & Hi)%list_elem_of_lookup. rewrite stamp_lookup in Hi. destruct (l0 !! i) as [w|] eqn:Hw0; [|done].
  injection Hi as <-. assert (version_ok tables w.2) as Hv by (apply (Ht k l0 w Hk); by eapply list_elem_of_lookup_2).
  destruct (above _ _); [by apply version_stamped|done].
Qed.

(** *** Rollback *)
Lemma rollback_prefix us a : grown tables tx a0 us a → ∀ a' c us1 us2,
  extends a a' → represents c a' → us = us1 ++ us2 →
  ∃ c' a1 a1', each_record rollbackCatalogEntryRecord (rev us2) c = (c', Ok ()) ∧
    grown tables tx a0 us1 a1 ∧ extends a1 a1' ∧ represents c' a1'.
Proof.
  induction 1 as [|us a k r d Hg IH Hk Ht Hd Hv|us a k l r b r0 b0 Hg IH Hk H0 Hb Hv]; intros a' c us1 us2 He Hr Eus.
  - symmetry in Eus. apply app_eq_nil in Eus as [-> ->]. exists c, a0, a'. split; [done|]. split; [constructor|done].
  - eapply IH; [|done|done]. eapply extends_trans; [|done]. intros j. destruct (decide (k = j)) as [<-|Hj].
    + right. rewrite lookup_insert_eq. split; [done|]. exists r, d. split_and!; try done. by apply (vo_dummy _ _ Hv).
    + left. by rewrite lookup_insert_ne.
  - destruct us2 as [|x us2 _] using rev_ind.
    { rewrite app_nil_r in Eus. subst us1. exists c, (<[k := (r, b) :: l]> a), a'. split; [done|]. split; [by eapply grown_push|done]. }
    rewrite (assoc_L (++)) in Eus. apply app_inj_tail in Eus as [-> <-].
    assert (a' !! k = Some ((r, b) :: l)) as Hk'.
    { destruct (He k) as [E|[E _]]; rewrite lookup_insert_eq in E; [done|done]. }
    destruct (rollback_run c a' k ((r, b) :: l) 0 r0 b0 r b) as (c1 & E1 & _ & Hr1); [done..|].
    cbn [delete list_delete] in Hr1.
    destruct (IH (<[k := l]> a') c1 us1 us2) as (c2 & a1 & a1' & E2 & Hrest); [|done|done|].
    { intros j. destruct (decide (k = j)) as [<-|Hj]; [left; by rewrite lookup_insert_eq|].
      rewrite lookup_insert_ne by done. specialize (He j). by rewrite lookup_insert_ne in He. }
    exists c2, a1, a1'. split; [|done]. rewrite rev_app_distr. cbn [rev app each_record].
    by rewrite st_bind_run, E1.
Qed.

Lemma extends_settled m a a' : 0 ≤ m → settled m a → extends a a' → settled m a'.
Proof.
  intros H0 Hs He k l v Hk Hv. destruct (He k) as [E|(_ & r & d & E & Ht & _)]; rewrite E in Hk.
  - by eapply Hs.
  - injection Hk as <-. apply list_elem_of_singleton in Hv as ->. cbn. lia.
Qed.

Lemma extends_typed a a' : typed tables a → extends a a' → typed tables a'.
Proof.
  intros Hs He k l v Hk Hv. destruct (He k) as [E|(_ & r & d & E & _ & Hd & Hty)]; rewrite E in Hk.
  - by eapply Hs.
  - injection Hk as <-. apply list_elem_of_singleton in Hv as ->. split; [done|]. intros _. cbn. congruence.
Qed.
End Writer.
End Commit.
