(* ===== verification/CatalogTheorems.v ===== *)
(** * Catalog sets: what transactions see of each other

    With one writer at a time, its catalog changes are invisible to every other
    transaction until they are committed, appear all at once to those that start later,
    and leave nothing behind when they are rolled back, although neither commit nor
    rollback of the records is atomic. *)

From S2P Require Import Prelude.
From S2P Require Import Transaction.
From S2P Require Import PropertyCollection.
From S2P Require Import TableEntry.
From S2P Require Import TableEntryTheorems.
From S2P Require Import CatalogSet.
From S2P Require Import CatalogSpec.
From S2P Require Import CatalogTransactions.
From S2P Require Import CatalogGrowth.

Section Theorems.
Context `{CatalogKind}.

(** A set between two writers, with everything committed by time [n]; whether it is the
    set of tables. *)
Definition catalog_ok (tables : bool) (n : Z) (c : CatalogSet) : Prop :=
  ∃ a, represents c a ∧ settled n a ∧ typed tables a.

Lemma newCatalogSet_ok tables internal : catalog_ok tables 0 (newCatalogSet internal).
Proof. exists ∅. split_and!; [apply represents_new|by intros k l v Hk; rewrite lookup_empty in Hk..]. Qed.

Lemma start_work tables tx c a : represents c a → at_work tables tx a (startSession c) a.
Proof. intros Hr. split; [done|]. constructor. Qed.


(** *** Statements as changes of a map from names to entries *)
Lemma visible_changed tx a a' c c' name o :
  represents c a → represents c' a' → 0 ≤ startTS tx → renamed tx a a' name o →
  ∀ name', visible tx name' c' = if decide (lower name' = lower name) then Ok o else visible tx name' c.
Proof.
  intros Hr Hr' H0 Hn name'. rewrite (visible_meaning _ _ _ _ Hr'), (visible_meaning _ _ _ _ Hr), Hn by done.
  by case_decide.
Qed.

Lemma visible_unchanged tx a c c' :
  represents c a → represents c' a → 0 ≤ startTS tx → ∀ name, visible tx name c' = visible tx name c.
Proof. intros Hr Hr' H0 name. by rewrite (visible_meaning _ _ _ _ Hr'), (visible_meaning _ _ _ _ Hr). Qed.

(** The alteration does not look at the timestamp of the entry. *)
Lemma alter_body_erased tx info next b b' next' :
  alter_body tx info next b = Ok (b', next') →
  ∃ b2, alter_body tx info next (setTimestamp 0 b) = Ok (b2, next') ∧ setTimestamp 0 b2 = setTimestamp 0 b'.
Proof.
  unfold alter_body. cbn. destruct (data b) as [t|o|]; [|done..]. destruct (deleted b); [done|].
  destruct (alter info next t) as [[t' n']| |]; [|done..]. cbn. intros [= <- <-]. by eexists.
Qed.

(** What the transaction sees after an alteration, by the names. *)
Definition visible_altered (tx : Transaction) (c c' : CatalogSet) (info : BoundAlterInfo) (b' : EntryBody) : Prop :=
  match extraInfo info with
  | RENAME newName => ∀ name, visible tx name c' =
      if decide (lower name = lower newName) then Ok (Some (setTimestamp 0 b'))
      else if decide (lower name = lower (alter_tableName info)) then Ok None else visible tx name c
  | _ => ∀ name, visible tx name c' =
      if decide (lower name = lower (alter_tableName info)) then Ok (Some (setTimestamp 0 b')) else visible tx name c
  end.

Lemma altered_visible tx a a' c c' info b' b2 :
  represents c a → represents c' a' → 0 ≤ startTS tx → altered tx a a' info b' → setTimestamp 0 b2 = setTimestamp 0 b' →
  visible_altered tx c c' info b2.
Proof.
  intros Hr Hr' H0 Hm E. unfold visible_altered, altered in *. rewrite E.
  destruct (extraInfo info); [|by eapply visible_changed..].
  intros name. rewrite (visible_meaning _ _ _ _ Hr'), (visible_meaning _ _ _ _ Hr), Hm by done. by repeat case_decide.
Qed.

End Theorems.

(** * Concrete histories of a catalog set

    The witnesses of the catalog theorems, and what happens where two transactions change
    the same table, or a table is created again under the name of a dropped one. *)

Definition example_catalog : CatalogKind := {| CatalogKind_table := string_kind; OtherEntry := unit |}.
#[local] Existing Instance example_catalog.

Definition example_env : AlterEnv := {|
  internalTable _ := None;
  internalName _ := throw RuntimeException "Cannot find table catalog entry.";
  indexed _ := false;
  order c := (map_to_list (entries c)).*2;
|}.

Definition writer_tx (i start : Z) : Transaction := newTransaction WRITE (START_TRANSACTION_ID + i) start.
Definition reader_tx (i start : Z) : Transaction := newTransaction READ_ONLY (START_TRANSACTION_ID + i) start.

Definition create_person : CatalogOp := OpCreate NODE_TABLE_ENTRY "person" false (TableData person).
Definition comment_on (table text : string) : BoundAlterInfo := mkAlter table (COMMENT text) ON_CONFLICT_THROW.
Definition example_ops : list CatalogOp :=
  [create_person; OpAlter (comment_on "Person" "people"); OpDrop "city" 7;
   OpAlter (mkAlter "PERSON" (RENAME "human") ON_CONFLICT_THROW)].

Definition run_ops (tx : Transaction) (ops : list CatalogOp) (s : Session) : Session :=
  (exec_ops example_env true tx ops s).1.

Definition example_tx : Transaction := writer_tx 1 0.
Definition example_session : Session := run_ops example_tx example_ops (startSession (newCatalogSet false)).

Lemma example_writer : writer 0 example_tx.
Proof. split; vm_compute; done. Qed.

Lemma example_env_ok : env_ok example_env.
Proof.
  split; [done..|]. intros c head (kr & -> & Hin)%list_elem_of_fmap. destruct kr as [k r].
  apply elem_of_map_to_list in Hin. by exists k.
Qed.

Lemma example_ok : statements_ok example_env true example_tx true example_ops (startSession (newCatalogSet false)).
Proof.
  cbn [statements_ok example_ops op_ok create_person]. split_and!; try done. intros _. exists person. split; [done|].
  by eapply wf_sound, person_wf.
Qed.


(** The identifier of a table survives a change of its name; the old name is free. *)
Example example_renamed :
  visible example_tx "HUMAN" (catalogSet example_session) =
    Ok (Some (mkBody NODE_TABLE_ENTRY "human" 0 0 false false (TableData (setComment "people" person)))) ∧
  visible example_tx "person" (catalogSet example_session) = Ok None ∧
  localWAL example_session =
    [LogCreate (mkBody NODE_TABLE_ENTRY "person" 0 (ID example_tx) false false (TableData person)) false;
     LogAlter "Person" (COMMENT "people"); LogAlter "PERSON" (RENAME "human")].
Proof. vm_compute. done. Qed.


(** A connection is added to a node table: the cast has no defined behaviour, which is why
    [op_ok] asks for a group of relationship tables. *)
Example connection_needs_group :
  let op := OpAlter (mkAlter "person" (ADD_FROM_TO_CONNECTION 0 0) ON_CONFLICT_THROW) in
  let s := run_ops example_tx [create_person] (startSession (newCatalogSet false)) in
  (exec_op example_env true example_tx op s).2 = UB.
Proof. vm_compute. done. Qed.

(** ** Two writers

    With [enableMultiWrites], the set looks for conflicts when an entry is created, but
    not when one is altered or dropped. *)

(** The table, committed at 1. *)
Definition base : CatalogSet :=
  let s := run_ops (writer_tx 1 0) [create_person] (startSession (newCatalogSet false)) in
  fst (commit_records 1 (undo s) (catalogSet s)).

Definition alice : Transaction := writer_tx 2 1.
Definition bob : Transaction := writer_tx 3 1.

(** Alice comments on the table, then Bob does. *)
Definition alice_session : Session := run_ops alice [OpAlter (comment_on "person" "Alice was here")] (startSession base).
Definition bob_session : Session :=
  run_ops bob [OpAlter (comment_on "person" "Bob was here")] (startSession (catalogSet alice_session)).

Definition comment_of (r : result (option EntryBody)) : option string :=
  match r with Ok (Some b) => match data b with TableData t => Some (comment t) | _ => None end | _ => None end.

(** Bob's commit publishes what Alice has not committed, and nobody sees his comment
    any more: his record names the version below Alice's, so hers gets his timestamp. *)
Example concurrent_alter_published :
  let '(c, r) := commit_records 2 (undo bob_session) (catalogSet bob_session) in
  r = Ok () ∧ comment_of (visible (reader_tx 9 2) "person" c) = Some "Alice was here" ∧
  comment_of (visible bob "person" (catalogSet bob_session)) = Some "Bob was here".
Proof. vm_compute. done. Qed.

(** Alice's rollback then removes the published comment, and Bob's is still not there. *)
Example concurrent_alter_lost :
  let c := fst (commit_records 2 (undo bob_session) (catalogSet bob_session)) in
  let '(c, r) := rollback_records (undo alice_session) c in
  r = Ok () ∧ comment_of (visible (reader_tx 9 2) "person" c) = Some EmptyString.
Proof. vm_compute. done. Qed.

(** Bob drops the table that Alice is altering; Alice rolls back, and Bob's commit
    follows the pointer to her version, which is gone. *)
Definition bob_drops : Session := run_ops bob [OpDrop "person" 0] (startSession (catalogSet alice_session)).
Example concurrent_drop_dangles :
  visible bob "person" (catalogSet bob_drops) = Ok None ∧
  let '(c, r) := rollback_records (undo alice_session) (catalogSet bob_drops) in
  r = Ok () ∧ snd (commit_records 2 (undo bob_drops) c) = UB.
Proof. vm_compute. done. Qed.

(** ** Lookups by identifier compare the identifier of the newest version

    The table is dropped and created again: an older transaction does not find the
    table it sees by its identifier, and finds it by that of the new one. *)
Definition recreated : Session := run_ops (writer_tx 2 1) [OpDrop "person" 0; create_person] (startSession base).
Example stale_identifier :
  let c := catalogSet recreated in
  let old := reader_tx 9 1 in
  oid <$> (r ← getEntry old "person" c; deref_body r c) = Ok 0 ∧
  getEntryOfOID old 0 (order example_env c) c = Ok None ∧
  (r ← getEntryOfOID old 1 (order example_env c) c; r ← deref r; oid <$> deref_body r c) = Ok 0.
Proof. vm_compute. done. Qed.

(** ** A rename that conflicts

    Bob renames the table to a name that Alice has just taken: the exception leaves the
    deletion of the old name in the set without a record, and rolling Bob back does not
    take it out. *)
Definition alice_city : Session :=
  run_ops alice [OpCreate NODE_TABLE_ENTRY "city" false (TableData person)] (startSession base).
Definition bob_renames : Session := startSession (catalogSet alice_city).
Example conflicting_rename_leaves_deletion :
  let '(s, r) := exec_op example_env true bob (OpAlter (mkAlter "person" (RENAME "city") ON_CONFLICT_THROW)) bob_renames in
  r = throw CatalogException "Write-write conflict on creating catalog entry with name city." ∧
  undo s = [] ∧ visible bob "person" (catalogSet bob_renames) ≠ Ok None ∧ visible bob "person" (catalogSet s) = Ok None.
Proof. vm_compute. done. Qed.

(** ** Recovery numbers entries again

    A transaction that is rolled back has used up the identifier of the table it created.
    Replaying the log of the next one on the set of the last checkpoint gives its table
    that identifier, and not the one that the other records of the log name. *)

(** [replayCreateCatalogEntryRecord] for a table. *)
Definition replay_create (l : CatalogLog) : option CatalogOp :=
  match l with
  | LogCreate b _ => Some (OpCreate (entry_type b) (entry_name b) (hasParent b) (data b))
  | _ => None
  end.

Definition rolled_back : CatalogSet :=
  let s := run_ops (writer_tx 1 0) [create_person] (startSession (newCatalogSet false)) in
  fst (rollback_records (undo s) (catalogSet s)).
Definition second : Session := run_ops (writer_tx 2 0) [create_person] (startSession rolled_back).
Definition recovery_tx : Transaction := newTransaction RECOVERY (START_TRANSACTION_ID + 1) 0.
Definition replayed : Session :=
  run_ops recovery_tx (omap replay_create (localWAL second)) (startSession (newCatalogSet false)).

Example replay_renumbers :
  oid <$> (r ← getEntry (writer_tx 2 0) "person" (catalogSet second); deref_body r (catalogSet second)) = Ok 1 ∧
  oid <$> (r ← getEntry recovery_tx "person" (catalogSet replayed); deref_body r (catalogSet replayed)) = Ok 0.
Proof. vm_compute. done. Qed.
