(* ===== verification/HashSlot.v ===== *)
(** * Slots of the hash index (include/storage/index/hash_index_{slot,header,utils}.h)

    A slot is a header of 32 bytes (fingerprints, a mask of valid entries, the next
    overflow slot) and as many entries as fit into 256 bytes.  The header of an index is
    the state of linear hashing: the level, the masks of two adjacent levels and the slot
    to split next.  The type of the keys, its hash function and the size of an entry are
    parameters of the C++ templates; the instance of INT64 keys is at the end. *)

From S2P Require Import Prelude.

(** ** Template parameters *)
Class HashKey : Type := {
  Key : Type;
  Key_eq_dec :: EqDecision Key;
  defaultKey : Key;
  hash : Key → Z;
  sizeofSlotEntry : Z;
  LBUG_PAGE_SIZE : Z;
}.

Class HashKeyLaws `{HashKey} : Prop := {
  entry_fits : 0 < sizeofSlotEntry ≤ 224;
  page_size : 512 ≤ LBUG_PAGE_SIZE ≤ 2 ^ 18;
}.

Definition INVALID_OVERFLOW_SLOT_ID : Z := UINT64_MAX.
Definition FINGERPRINT_CAPACITY : nat := 20.
Definition SLOT_CAPACITY_BYTES : Z := 256.
Definition sizeofSlotHeader : Z := 32.

(** ** Slot headers *)
Record SlotHeader : Type := mkSlotHeader {
  fingerprints : list Z;
  validityMask : Z;
  nextOvfSlotId : Z;
}.
#[export] Instance SlotHeader_eq_dec : EqDecision SlotHeader.
Proof. solve_decision. Defined.

Definition newSlotHeader : SlotHeader := mkSlotHeader (replicate FINGERPRINT_CAPACITY 0) 0 INVALID_OVERFLOW_SLOT_ID.

Definition isEntryValid (h : SlotHeader) (entryPos : nat) : bool := Z.testbit (validityMask h) (Z.of_nat entryPos).

Definition setEntryValid (entryPos : nat) (fingerprint : Z) (h : SlotHeader) : SlotHeader :=
  mkSlotHeader (<[entryPos := fingerprint]> (fingerprints h))
    (Z.lor (validityMask h) (Z.shiftl 1 (Z.of_nat entryPos))) (nextOvfSlotId h).

Definition setEntryInvalid (entryPos : nat) (h : SlotHeader) : SlotHeader :=
  mkSlotHeader (fingerprints h)
    (Z.land (validityMask h) (Z.lnot (Z.shiftl 1 (Z.of_nat entryPos)))) (nextOvfSlotId h).

Definition set_nextOvfSlotId (id : Z) (h : SlotHeader) : SlotHeader :=
  mkSlotHeader (fingerprints h) (validityMask h) id.

(** [std::popcount] and [std::countr_one] on the 32 bits of the mask. *)
Definition popcount (mask : Z) : nat := length (filter (λ i, Z.testbit mask (Z.of_nat i)) (seq 0 32)).
Fixpoint countr_one_from (mask : Z) (i fuel : nat) : nat :=
  match fuel with
  | O => O
  | S fuel => if Z.testbit mask (Z.of_nat i) then S (countr_one_from mask (S i) fuel) else O
  end.
Definition countr_one (mask : Z) : nat := countr_one_from mask 0 32.

Definition numEntries (h : SlotHeader) : nat := popcount (validityMask h).

(** ** Headers of indexes *)
Record HashIndexHeader : Type := mkIndexHeader {
  currentLevel : Z;
  levelHashMask : Z;
  higherLevelHashMask : Z;
  nextSplitSlotId : Z;
  indexEntries : Z;
  firstFreeOverflowSlotId : Z;
}.
#[export] Instance HashIndexHeader_eq_dec : EqDecision HashIndexHeader.
Proof. solve_decision. Defined.

Definition newIndexHeader : HashIndexHeader := mkIndexHeader 1 1 3 0 0 INVALID_OVERFLOW_SLOT_ID.

Record HashIndexHeaderOnDisk : Type := mkHeaderOnDisk {
  disk_nextSplitSlotId : Z;
  disk_numEntries : Z;
  disk_firstFreeOverflowSlotId : Z;
  disk_currentLevel : Z;
}.

Definition header_of_disk (d : HashIndexHeaderOnDisk) : HashIndexHeader :=
  mkIndexHeader (disk_currentLevel d) (2 ^ disk_currentLevel d - 1) (2 ^ (disk_currentLevel d + 1) - 1)
    (disk_nextSplitSlotId d) (disk_numEntries d) (disk_firstFreeOverflowSlotId d).
Definition header_write (h : HashIndexHeader) : HashIndexHeaderOnDisk :=
  mkHeaderOnDisk (nextSplitSlotId h) (indexEntries h) (firstFreeOverflowSlotId h) (wrap 8 (currentLevel h)).

Definition set_nextSplitSlotId (n : Z) (h : HashIndexHeader) : HashIndexHeader :=
  mkIndexHeader (currentLevel h) (levelHashMask h) (higherLevelHashMask h) n (indexEntries h) (firstFreeOverflowSlotId h).
Definition set_indexEntries (n : Z) (h : HashIndexHeader) : HashIndexHeader :=
  mkIndexHeader (currentLevel h) (levelHashMask h) (higherLevelHashMask h) (nextSplitSlotId h) n (firstFreeOverflowSlotId h).
Definition set_firstFreeOverflowSlotId (o : Z) (h : HashIndexHeader) : HashIndexHeader :=
  mkIndexHeader (currentLevel h) (levelHashMask h) (higherLevelHashMask h) (nextSplitSlotId h) (indexEntries h) o.

(** The masks are computed as [int]: [(1 << (currentLevel + 1)) - 1] overflows at level 30. *)
Definition incrementLevel (h : HashIndexHeader) : result HashIndexHeader :=
  let level := currentLevel h + 1 in
  if decide (level + 1 < 31)
  then Ok (mkIndexHeader level (2 ^ level - 1) (2 ^ (level + 1) - 1) 0 (indexEntries h) (firstFreeOverflowSlotId h))
  else UB.

Definition incrementNextSplitSlotId (h : HashIndexHeader) : result HashIndexHeader :=
  if decide (nextSplitSlotId h < 2 ^ currentLevel h - 1)
  then Ok (set_nextSplitSlotId (nextSplitSlotId h + 1) h)
  else incrementLevel h.

(** [numSlotsOfCurrentLevel], an [unsigned], is doubled along with the level. *)
Fixpoint raise_level (fuel : nat) (newNumSlots numSlotsOfCurrentLevel : Z) (h : HashIndexHeader) : result (HashIndexHeader * Z) :=
  match fuel with
  | O => UB
  | S fuel =>
      if decide (wrap 32 (2 * numSlotsOfCurrentLevel) ≤ newNumSlots)
      then h ← incrementLevel h; raise_level fuel newNumSlots (wrap 32 (2 * numSlotsOfCurrentLevel)) h
      else mret (h, numSlotsOfCurrentLevel)
  end.

(** The level and the slot to split next that belong to a number of slots. *)
Definition header_for (newNumSlots : Z) (h : HashIndexHeader) : result HashIndexHeader :=
  '(h, num) ← raise_level 64 newNumSlots (2 ^ currentLevel h) h;
  mret (if decide (num ≤ newNumSlots) then set_nextSplitSlotId (newNumSlots - num) h else h).

(** ** Utilities (hash_index_utils.h) *)
Inductive SlotType : Type := PRIMARY | OVF.
Record SlotInfo : Type := mkSlotInfo { slotId : Z; slotType : SlotType }.
#[export] Instance SlotType_eq_dec : EqDecision SlotType.
Proof. solve_decision. Defined.
#[export] Instance SlotInfo_eq_dec : EqDecision SlotInfo.
Proof. solve_decision. Defined.

Definition INVALID_OVF_INFO : SlotInfo := mkSlotInfo INVALID_OVERFLOW_SLOT_ID OVF.

(** [NUM_HASH_INDEXES_LOG2] is 8. *)
Definition getFingerprintForHash (hash : Z) : Z := Z.land (Z.shiftr hash 48) 255.
Definition getPrimarySlotIdForHash (h : HashIndexHeader) (hash : Z) : Z :=
  let slotId := Z.land hash (levelHashMask h) in
  if bool_decide (slotId < nextSplitSlotId h) then Z.land hash (higherLevelHashMask h) else slotId.
Definition hashIndexPosition (hash : Z) : Z := Z.land (Z.shiftr hash 56) 255.

(** [ceil(numEntries * 1.5)]: exact in a double for the numbers of entries that fit into
    memory. *)
Definition getNumRequiredEntries (numEntries : Z) : Z := (3 * numEntries + 1) / 2.

Definition murmurhash64 (x : Z) : Z :=
  let x := Z.lxor x (Z.shiftr x 32) in
  let x := wrap 64 (x * 15485907386658061715) in
  let x := Z.lxor x (Z.shiftr x 32) in
  let x := wrap 64 (x * 15485907386658061715) in
  Z.lxor x (Z.shiftr x 32).

Section Slot.
Context `{HashKey}.

Definition getHashIndexPosition (key : Key) : Z := hashIndexPosition (hash key).

Record SlotEntry : Type := mkSlotEntry { key : Key; value : Z }.
#[export] Instance SlotEntry_eq_dec : EqDecision SlotEntry.
Proof. solve_decision. Defined.

Definition getSlotCapacity : nat :=
  Z.to_nat (Z.min ((SLOT_CAPACITY_BYTES - sizeofSlotHeader) / sizeofSlotEntry) (Z.of_nat FINGERPRINT_CAPACITY)).

Record Slot : Type := mkSlot { header : SlotHeader; slotEntries : list SlotEntry }.
#[export] Instance Slot_eq_dec : EqDecision Slot.
Proof. solve_decision. Defined.

Definition newSlot : Slot := mkSlot newSlotHeader (replicate getSlotCapacity (mkSlotEntry defaultKey 0)).

Definition on_header (f : SlotHeader → SlotHeader) (s : Slot) : Slot := mkSlot (f (header s)) (slotEntries s).

(** [slot.entries[entryPos] = e; slot.header.setEntryValid(entryPos, fingerprint)] *)
Definition put_entry (entryPos : nat) (e : SlotEntry) (fingerprint : Z) (s : Slot) : Slot :=
  mkSlot (setEntryValid entryPos fingerprint (header s)) (<[entryPos := e]> (slotEntries s)).

(** A slot takes 256 bytes ([getAlignedElementSize]). *)
Definition slotsPerPage : Z := LBUG_PAGE_SIZE / SLOT_CAPACITY_BYTES.

Definition fingerprint_of (k : Key) : Z := getFingerprintForHash (hash k).
End Slot.

(** Keys of type INT64: [sizeof(SlotEntry<int64_t>)] is 16; pages of 4096 bytes. *)
Definition int64_key : HashKey := {|
  Key := Z; defaultKey := 0; hash k := murmurhash64 (wrap 64 k); sizeofSlotEntry := 16; LBUG_PAGE_SIZE := 4096 |}.
Lemma int64_key_laws : @HashKeyLaws int64_key.
Proof. split; cbn; lia. Qed.
