(* ===== verification/InMemHashIndex.v ===== *)
(** * The hash index in memory (storage/index/in_mem_hash_index.{h,cpp})

    Linear hashing over slots with chains of overflow slots.  Entries leave no gaps: every
    slot of a chain is full except the last.  Slots are split when entries are added, the
    overflow slots a split empties are kept in a chain of free ones. *)

From S2P Require Import Prelude.
From S2P Require Import HashSlot.

Section InMemHashIndex.
Context `{HashKey}.

Record InMemHashIndex : Type := mkIndex {
  pSlots : list Slot;
  oSlots : list Slot;
  indexHeader : HashIndexHeader;
  numFreeSlots : Z;
}.

(** Whether the buffer manager has the memory to add [n] slots to the [size] there are
    of a kind. *)
Variable grows : SlotType → nat → nat → bool.

#[local] Abbreviation Ix := (stM InMemHashIndex).

Definition set_pSlots (l : list Slot) (ix : InMemHashIndex) : InMemHashIndex :=
  mkIndex l (oSlots ix) (indexHeader ix) (numFreeSlots ix).
Definition set_oSlots (l : list Slot) (ix : InMemHashIndex) : InMemHashIndex :=
  mkIndex (pSlots ix) l (indexHeader ix) (numFreeSlots ix).
Definition set_indexHeader (h : HashIndexHeader) (ix : InMemHashIndex) : InMemHashIndex :=
  mkIndex (pSlots ix) (oSlots ix) h (numFreeSlots ix).
Definition set_numFreeSlots (n : Z) (ix : InMemHashIndex) : InMemHashIndex :=
  mkIndex (pSlots ix) (oSlots ix) (indexHeader ix) n.

Definition on_indexHeader (f : HashIndexHeader → result HashIndexHeader) : Ix () :=
  ix ← st_get; h ← st_lift (f (indexHeader ix)); st_modify (set_indexHeader h).

(** An assertion: checked in debug builds, relied upon in others. *)
Definition dassert {S} (b : bool) : stM S () := if b then mret () else st_lift UB.

(** ** Slots *)
Definition getSlot (i : SlotInfo) (ix : InMemHashIndex) : option Slot :=
  match slotType i with
  | PRIMARY => pSlots ix !! Z.to_nat (slotId i)
  | OVF => oSlots ix !! Z.to_nat (slotId i)
  end.
Definition update_slot (i : SlotInfo) (f : Slot → Slot) (ix : InMemHashIndex) : InMemHashIndex :=
  match slotType i with
  | PRIMARY => set_pSlots (alter f (Z.to_nat (slotId i)) (pSlots ix)) ix
  | OVF => set_oSlots (alter f (Z.to_nat (slotId i)) (oSlots ix)) ix
  end.

Definition read_slot (i : SlotInfo) : Ix Slot := λ ix, (ix, deref (getSlot i ix)).
Definition write_slot (i : SlotInfo) (f : Slot → Slot) : Ix () := st_modify (update_slot i f).

(** Whether there is a next slot in the chain, and which. *)
Definition nextChainedSlot (i : SlotInfo) : Ix (option SlotInfo) :=
  slot ← read_slot i;
  _ ← dassert (bool_decide (slotType i = PRIMARY ∨ slotId i ≠ nextOvfSlotId (header slot)));
  mret (if decide (nextOvfSlotId (header slot) = INVALID_OVERFLOW_SLOT_ID) then None
        else Some (mkSlotInfo (nextOvfSlotId (header slot)) OVF)).

Definition outOfMemory : exn := Exn BufferManagerException
  "Unable to allocate memory! The buffer pool is full and no memory could be freed!".

(** [BlockVector::resize] to more elements. *)
Definition add_slots (ty : SlotType) (n : nat) : Ix () := λ ix,
  let size := match ty with PRIMARY => length (pSlots ix) | OVF => length (oSlots ix) end in
  if grows ty size n then
    (match ty with
     | PRIMARY => set_pSlots (pSlots ix ++ replicate n newSlot) ix
     | OVF => set_oSlots (oSlots ix ++ replicate n newSlot) ix
     end, Ok ())
  else (ix, Throw outOfMemory).

(** *** Overflow slots *)
Definition addFreeOverflowSlot (i : SlotInfo) : Ix () :=
  slot ← read_slot i;
  _ ← dassert (bool_decide (slotId i ≠ INVALID_OVERFLOW_SLOT_ID ∧
         nextOvfSlotId (header slot) = INVALID_OVERFLOW_SLOT_ID ∧ slotType i = OVF));
  ix ← st_get;
  _ ← write_slot i (on_header (set_nextOvfSlotId (firstFreeOverflowSlotId (indexHeader ix))));
  st_modify (λ ix, set_numFreeSlots (wrap 64 (numFreeSlots ix + 1))
    (set_indexHeader (set_firstFreeOverflowSlotId (slotId i) (indexHeader ix)) ix)).

(** The identifier of the slot is returned as a [uint32_t]. *)
Definition allocateAOSlot : Ix Z :=
  ix ← st_get;
  let free := firstFreeOverflowSlotId (indexHeader ix) in
  if decide (free = INVALID_OVERFLOW_SLOT_ID) then
    _ ← add_slots OVF 1; mret (wrap 32 (Z.of_nat (length (oSlots ix))))
  else
    slot ← read_slot (mkSlotInfo free OVF);
    _ ← on_indexHeader (λ h, mret (set_firstFreeOverflowSlotId (nextOvfSlotId (header slot)) h));
    _ ← dassert (bool_decide (numEntries (header slot) = 0%nat));
    _ ← write_slot (mkSlotInfo free OVF) (on_header (set_nextOvfSlotId INVALID_OVERFLOW_SLOT_ID));
    ix ← st_get;
    _ ← dassert (bool_decide (0 < numFreeSlots ix));
    _ ← st_modify (set_numFreeSlots (numFreeSlots ix - 1));
    mret (wrap 32 free).

(** Every loop along a chain ends after as many steps as there are slots. *)
Definition chain_fuel (ix : InMemHashIndex) : nat := S (length (oSlots ix)).

Fixpoint count_chained (fuel : nat) (i : SlotInfo) : Ix Z :=
  match fuel with
  | O => st_lift UB
  | S fuel =>
      n ← nextChainedSlot i;
      match n with
      | None => mret 1
      | Some i => c ← count_chained fuel i; mret (wrap 64 (1 + c))
      end
  end.
Definition countSlots (i : SlotInfo) : Ix Z :=
  if decide (i = INVALID_OVF_INFO) then mret 0
  else ix ← st_get; count_chained (chain_fuel ix) i.

(** The bound of the loop is computed anew every time, while [numFreeSlots] grows. *)
Fixpoint add_free_slots (fuel : nat) (i : Z) (newSlotId totalSlotsRequired : Z) : Ix () :=
  match fuel with
  | O => st_lift UB
  | S fuel =>
      ix ← st_get;
      if decide (i < wrap 64 (totalSlotsRequired - numFreeSlots ix)) then
        _ ← addFreeOverflowSlot (mkSlotInfo newSlotId OVF);
        add_free_slots fuel (i + 1) (newSlotId + 1) totalSlotsRequired
      else mret ()
  end.

Definition reserveOverflowSlots (totalSlotsRequired : Z) : Ix () :=
  ix ← st_get;
  if decide (numFreeSlots ix < totalSlotsRequired) then
    let missing := totalSlotsRequired - numFreeSlots ix in
    _ ← add_slots OVF (Z.to_nat missing);
    add_free_slots (S (Z.to_nat missing)) 0 (Z.of_nat (length (oSlots ix))) totalSlotsRequired
  else mret ().

(** Ends at the first empty overflow slot, or nowhere; returns the last slot before. *)
Fixpoint last_non_empty (fuel : nat) (i last : SlotInfo) : Ix (SlotInfo * SlotInfo) :=
  match fuel with
  | O => st_lift UB
  | S fuel =>
      slot ← read_slot i;
      if decide ((0 < numEntries (header slot))%nat ∨ slotType i = PRIMARY) then
        n ← nextChainedSlot i;
        match n with
        | Some j => last_non_empty fuel j i
        | None => mret (INVALID_OVF_INFO, i)
        end
      else mret (i, last)
  end.

(** Returns the slot it left. *)
Definition clearNextOverflowAndAdvanceIter (i : SlotInfo) : Ix SlotInfo :=
  slot ← read_slot i;
  _ ← write_slot i (on_header (set_nextOvfSlotId INVALID_OVERFLOW_SLOT_ID));
  mret (mkSlotInfo (nextOvfSlotId (header slot)) OVF).

Fixpoint free_empty (fuel : nat) (i : SlotInfo) : Ix () :=
  match fuel with
  | O => st_lift UB
  | S fuel =>
      if decide (i = INVALID_OVF_INFO) then mret ()
      else
        slot ← read_slot i;
        _ ← dassert (bool_decide (numEntries (header slot) = 0%nat));
        j ← clearNextOverflowAndAdvanceIter i;
        _ ← (if decide (slotType i = OVF) then addFreeOverflowSlot i else mret ());
        free_empty fuel j
  end.

Definition reclaimOverflowSlots (i : SlotInfo) : Ix () :=
  slot ← read_slot i;
  if decide (nextOvfSlotId (header slot) = INVALID_OVERFLOW_SLOT_ID) then mret ()
  else
    ix ← st_get;
    '(j, last) ← last_non_empty (chain_fuel ix) i i;
    _ ← write_slot last (on_header (set_nextOvfSlotId INVALID_OVERFLOW_SLOT_ID));
    free_empty (S (chain_fuel ix)) j.

(** ** Splitting a slot *)

(** The loop variables of [splitSlot]. *)
Record SplitState : Type := mkSplit {
  originalSlotForInsert : SlotInfo;
  entryPosToInsert : nat;
  split_newSlot : SlotInfo;
  newSlotPos : nat;
  gaps : bool;
}.

Definition no_gaps (i : SlotInfo) : Ix () :=
  slot ← read_slot i;
  dassert (bool_decide (numEntries (header slot) = countr_one (validityMask (header slot)))).

(** The first empty position from [pos] of slot [i]. *)
Fixpoint find_gap (fuel : nat) (i : SlotInfo) (pos : nat) : Ix (SlotInfo * nat) :=
  match fuel with
  | O => st_lift UB
  | S fuel =>
      slot ← read_slot i;
      if isEntryValid (header slot) pos then
        if decide (getSlotCapacity ≤ pos + 1)%nat then
          n ← nextChainedSlot i;
          _ ← dassert (bool_decide (is_Some n));
          find_gap fuel (default i n) 0
        else find_gap fuel i (pos + 1)
      else mret (i, pos)
  end.

(** The place for the next entry of the new chain, which may be in a new slot. *)
Definition next_place (st : SplitState) : Ix (SlotInfo * nat) :=
  if decide (getSlotCapacity ≤ newSlotPos st)%nat then
    newOvfSlotId ← allocateAOSlot;
    _ ← write_slot (split_newSlot st) (on_header (set_nextOvfSlotId newOvfSlotId));
    n ← nextChainedSlot (split_newSlot st);
    _ ← dassert (bool_decide (is_Some n));
    mret (default (split_newSlot st) n, 0%nat)
  else mret (split_newSlot st, newSlotPos st).

(** The entry at a position of the slot that is split; nothing when there is none. *)
Definition split_entry (originalSlot : SlotInfo) (entryPos : nat) (st : SplitState) : Ix (option SplitState) :=
  slot ← read_slot originalSlot;
  if negb (isEntryValid (header slot) entryPos) then _ ← no_gaps originalSlot; mret None
  else
    entry ← st_lift (deref (slotEntries slot !! entryPos));
    ix ← st_get;
    let fingerprint := fingerprint_of (key entry) in
    let newSlotId := Z.land (hash (key entry)) (higherLevelHashMask (indexHeader ix)) in
    if decide (newSlotId = nextSplitSlotId (indexHeader ix)) then
      if gaps st then
        '(i, pos) ← find_gap (chain_fuel ix * S getSlotCapacity) (originalSlotForInsert st) (entryPosToInsert st);
        _ ← write_slot i (put_entry pos entry fingerprint);
        _ ← write_slot originalSlot (on_header (setEntryInvalid entryPos));
        mret (Some (mkSplit i pos (split_newSlot st) (newSlotPos st) true))
      else mret (Some st)
    else
      '(new, newPos) ← next_place st;
      _ ← write_slot new (put_entry newPos entry fingerprint);
      _ ← write_slot originalSlot (on_header (setEntryInvalid entryPos));
      mret (Some (mkSplit (originalSlotForInsert st) (entryPosToInsert st) new (newPos + 1) true)).

(** The positions of one slot; whether the loop came to the end of them. *)
Fixpoint split_slot (todo entryPos : nat) (originalSlot : SlotInfo) (st : SplitState) : Ix (SplitState * bool) :=
  match todo with
  | O => mret (st, true)
  | S todo =>
      r ← split_entry originalSlot entryPos st;
      match r with
      | None => mret (st, false)
      | Some st => split_slot todo (S entryPos) originalSlot st
      end
  end.

Fixpoint split_chain (fuel : nat) (originalSlot : SlotInfo) (st : SplitState) : Ix SplitState :=
  match fuel with
  | O => st_lift UB
  | S fuel =>
      '(st, more) ← split_slot getSlotCapacity 0 originalSlot st;
      if more : bool then
        _ ← no_gaps originalSlot;
        n ← nextChainedSlot originalSlot;
        match n with
        | Some j => split_chain fuel j st
        | None => mret st
        end
      else mret st
  end.

Definition splitSlot : Ix () :=
  _ ← add_slots PRIMARY 1;
  ix ← st_get;
  let originalSlot := mkSlotInfo (nextSplitSlotId (indexHeader ix)) PRIMARY in
  count ← countSlots originalSlot;
  _ ← reserveOverflowSlots count;
  let newSlot := mkSlotInfo (Z.of_nat (length (pSlots ix)) - 1) PRIMARY in
  ix ← st_get;
  st ← split_chain (chain_fuel ix) originalSlot (mkSplit originalSlot 0 newSlot 0 false);
  _ ← reclaimOverflowSlots (originalSlotForInsert st);
  on_indexHeader incrementNextSplitSlotId.

(** ** Size *)
Definition allocateSlots (newNumSlots : Z) : Ix () :=
  ix ← st_get;
  let existingSlots := Z.of_nat (length (pSlots ix)) in
  _ ← (if decide (existingSlots < newNumSlots) then add_slots PRIMARY (Z.to_nat (newNumSlots - existingSlots)) else mret ());
  on_indexHeader (header_for newNumSlots).

Fixpoint split_until (fuel : nat) (numRequiredSlots : Z) : Ix () :=
  ix ← st_get;
  if decide (Z.of_nat (length (pSlots ix)) < numRequiredSlots) then
    match fuel with
    | O => st_lift UB
    | S fuel => _ ← splitSlot; split_until fuel numRequiredSlots
    end
  else mret ().

Definition required_slots (numEntries : Z) : Z :=
  (getNumRequiredEntries numEntries + Z.of_nat getSlotCapacity - 1) / Z.of_nat getSlotCapacity.

(** The argument is a [uint32_t]. *)
Definition reserve (numEntries : Z) : Ix () :=
  let numRequiredSlots := required_slots (wrap 32 numEntries) in
  ix ← st_get;
  if decide (numRequiredSlots ≤ Z.of_nat (length (pSlots ix))) then mret ()
  else if decide (indexEntries (indexHeader ix) = 0) then allocateSlots (wrap 32 numRequiredSlots)
  else split_until (Z.to_nat numRequiredSlots) numRequiredSlots.

(** The constructor, and what is left after [clear]: the count of free slots stays. *)
Definition emptied (freeSlots : Z) : InMemHashIndex := mkIndex [] [] newIndexHeader freeSlots.
Definition newInMemHashIndex : InMemHashIndex * result () := allocateSlots slotsPerPage (emptied 0).
Definition clear : Ix () := λ ix, allocateSlots slotsPerPage (emptied (numFreeSlots ix)).

(** ** Entries *)
Variable isVisible : Z → bool.

Fixpoint find_in_slot (todo entryPos : nat) (slot : Slot) (k : Key) (fingerprint : Z) : result (option nat) :=
  match todo with
  | O => mret None
  | S todo =>
      e ← deref (slotEntries slot !! entryPos);
      fp ← deref (fingerprints (header slot) !! entryPos);
      if bool_decide (fp = fingerprint) && bool_decide (k = key e) && isVisible (value e)
      then mret (Some entryPos)
      else find_in_slot todo (S entryPos) slot k fingerprint
  end.

(** Where the iterator ends, and the position of the entry if there is one. *)
Fixpoint findEntry (fuel : nat) (i : SlotInfo) (k : Key) (fingerprint : Z) : Ix (SlotInfo * option nat) :=
  match fuel with
  | O => st_lift UB
  | S fuel =>
      slot ← read_slot i;
      _ ← no_gaps i;
      pos ← st_lift (find_in_slot (numEntries (header slot)) 0 slot k fingerprint);
      match pos with
      | Some pos => mret (i, Some pos)
      | None =>
          if decide (numEntries (header slot) < getSlotCapacity)%nat then mret (i, None)
          else
            n ← nextChainedSlot i;
            match n with
            | Some j => findEntry fuel j k fingerprint
            | None => mret (i, None)
            end
      end
  end.

Definition primarySlot (k : Key) (ix : InMemHashIndex) : SlotInfo :=
  mkSlotInfo (getPrimarySlotIdForHash (indexHeader ix) (hash k)) PRIMARY.

Definition lookup (k : Key) : Ix (option Z) :=
  ix ← st_get;
  if decide (indexEntries (indexHeader ix) = 0) then mret None
  else
    '(i, pos) ← findEntry (chain_fuel ix) (primarySlot k ix) k (fingerprint_of k);
    match pos with
    | Some pos =>
        slot ← read_slot i;
        e ← st_lift (deref (slotEntries slot !! pos));
        mret (Some (value e))
    | None => mret None
    end.

Definition insertToNewOvfSlot (e : SlotEntry) (previousSlot : SlotInfo) (fingerprint : Z) : Ix () :=
  newSlotId ← allocateAOSlot;
  _ ← write_slot previousSlot (on_header (set_nextOvfSlotId newSlotId));
  write_slot (mkSlotInfo newSlotId OVF) (put_entry 0 e fingerprint).

Definition count_entry : Ix () :=
  on_indexHeader (λ h, mret (set_indexEntries (wrap 64 (indexEntries h + 1)) h)).

Definition appendInternal (k : Key) (v : Z) : Ix bool :=
  ix ← st_get;
  '(i, pos) ← findEntry (chain_fuel ix) (primarySlot k ix) k (fingerprint_of k);
  slot ← read_slot i;
  let n := numEntries (header slot) in
  match pos with
  | Some _ => mret false
  | None =>
      if decide (n < getSlotCapacity)%nat then
        _ ← write_slot i (put_entry n (mkSlotEntry k v) (fingerprint_of k));
        _ ← count_entry; mret true
      else
        _ ← insertToNewOvfSlot (mkSlotEntry k v) i (fingerprint_of k);
        _ ← count_entry; mret true
  end.

Definition append (k : Key) (v : Z) : Ix bool :=
  ix ← st_get;
  _ ← reserve (wrap 64 (indexEntries (indexHeader ix) + 1));
  appendInternal k v.

(** The number of entries of the buffer that went in before one was there already. *)
Fixpoint append_all (entries : list SlotEntry) : Ix nat :=
  match entries with
  | [] => mret 0%nat
  | e :: entries =>
      ok ← appendInternal (key e) (value e);
      if ok : bool then n ← append_all entries; mret (S n) else mret 0%nat
  end.
Definition append_buffer (buffer : list SlotEntry) (bufferOffset : nat) : Ix nat :=
  ix ← st_get;
  _ ← reserve (wrap 64 (indexEntries (indexHeader ix) + Z.of_nat (length buffer) - Z.of_nat bufferOffset));
  append_all (drop bufferOffset buffer).

(** *** Deletion: the last entry of the chain takes the place of the deleted one. *)
Fixpoint match_in_slot (todo entryPos : nat) (slot : Slot) (k : Key) (fingerprint : Z) : result (option nat) :=
  match todo with
  | O => mret None
  | S todo =>
      if isEntryValid (header slot) entryPos then
        e ← deref (slotEntries slot !! entryPos);
        fp ← deref (fingerprints (header slot) !! entryPos);
        if bool_decide (fp = fingerprint) && bool_decide (k = key e)
        then mret (Some entryPos)
        else match_in_slot todo (S entryPos) slot k fingerprint
      else match_in_slot todo (S entryPos) slot k fingerprint
  end.

Fixpoint find_deleted (fuel : nat) (i : SlotInfo) (k : Key) (fingerprint : Z) : Ix (option (SlotInfo * nat)) :=
  match fuel with
  | O => st_lift UB
  | S fuel =>
      slot ← read_slot i;
      pos ← st_lift (match_in_slot getSlotCapacity 0 slot k fingerprint);
      match pos with
      | Some pos => mret (Some (i, pos))
      | None =>
          n ← nextChainedSlot i;
          match n with
          | Some j => find_deleted fuel j k fingerprint
          | None => mret None
          end
      end
  end.

Fixpoint last_chained (fuel : nat) (i : SlotInfo) : Ix SlotInfo :=
  match fuel with
  | O => st_lift UB
  | S fuel =>
      n ← nextChainedSlot i;
      match n with
      | Some j => last_chained fuel j
      | None => mret i
      end
  end.

Definition remove_entry (i : SlotInfo) (deletedPos : nat) (last : SlotInfo) (lastSlot : Slot) : Ix () :=
  let n := numEntries (header lastSlot) in
  if decide (last ≠ i ∨ Z.of_nat deletedPos ≠ Z.of_nat n - 1) then
    _ ← dassert (bool_decide (0 < n)%nat);
    e ← st_lift (deref (slotEntries lastSlot !! (n - 1)%nat));
    fp ← st_lift (deref (fingerprints (header lastSlot) !! (n - 1)%nat));
    _ ← write_slot i (put_entry deletedPos e fp);
    write_slot last (on_header (setEntryInvalid (n - 1)))
  else write_slot i (on_header (setEntryInvalid deletedPos)).

(** The count of entries in the header is not decreased. *)
Definition deleteKey (k : Key) : Ix bool :=
  ix ← st_get;
  if decide (indexEntries (indexHeader ix) = 0) then mret false
  else
    found ← find_deleted (chain_fuel ix) (primarySlot k ix) k (fingerprint_of k);
    match found with
    | None => mret false
    | Some (i, deletedPos) =>
        last ← last_chained (chain_fuel ix) i;
        lastSlot ← read_slot last;
        _ ← remove_entry i deletedPos last lastSlot;
        lastSlot ← read_slot last;
        _ ← (if decide (numEntries (header lastSlot) = 0%nat)
             then reclaimOverflowSlots (primarySlot k ix) else mret ());
        mret true
    end.
End InMemHashIndex.
