(* ===== verification/InMemHashIndexFacts.v ===== *)
(** * Chains of slots

    A chain of slots is a function from positions to entries: the slots one after the
    other.  Reading, writing and extending slots are shown as changes of these functions,
    and of the chain of free slots. *)

From stdpp Require Import functions.
From S2P Require Import Prelude.
From S2P Require Import HashSlot.
From S2P Require Import InMemHashIndex.

(** ** Masks *)
Lemma countr_one_from_spec mask n k : ∀ i,
  (∀ j, (i ≤ j < i + k)%nat → Z.testbit mask (Z.of_nat j) = bool_decide (j < n)%nat) → (i ≤ n ≤ i + k)%nat →
  countr_one_from mask i k = (n - i)%nat.
Proof.
  induction k as [|k IH]; intros i Hbits Hn; cbn [countr_one_from]; [lia|].
  rewrite Hbits by lia. case_bool_decide; [|lia].
  rewrite IH by (intros; apply Hbits || lia; lia). lia.
Qed.

Lemma countr_one_spec mask n :
  (∀ j, Z.testbit mask (Z.of_nat j) = bool_decide (j < n)%nat) → (n ≤ 32)%nat → countr_one mask = n.
Proof. intros Hb Hn. unfold countr_one. rewrite (countr_one_from_spec _ n) by (done || lia). lia. Qed.

Lemma popcount_spec mask n :
  (∀ j, Z.testbit mask (Z.of_nat j) = bool_decide (j < n)%nat) → (n ≤ 32)%nat → popcount mask = n.
Proof.
  intros Hb Hn. unfold popcount.
  replace (seq 0 32) with (seq 0 n ++ seq n (32 - n)) by (rewrite <- seq_app; f_equal; lia).
  rewrite filter_app, filter_all, filter_seq_none, app_nil_r, length_seq; [done| |].
  - intros i Hi. rewrite Hb, bool_decide_eq_false_2 by lia. auto.
  - intros i Hi%elem_of_seq. rewrite Hb, bool_decide_eq_true_2 by lia. done.
Qed.

Lemma popcount_zero mask : popcount mask = 0%nat → ∀ j, (j < 32)%nat → Z.testbit mask (Z.of_nat j) = false.
Proof.
  unfold popcount. intros Hz%nil_length_inv j Hj. destruct (Z.testbit mask (Z.of_nat j)) eqn:E; [|done].
  assert (j ∈ filter (λ i, Z.testbit mask (Z.of_nat i)) (seq 0 32)) as Hin.
  { apply list_elem_of_filter. rewrite E. split; [done|]. apply elem_of_seq. lia. }
  rewrite Hz in Hin. by apply not_elem_of_nil in Hin.
Qed.

Lemma setbit_test mask j i : (0 ≤ j)%Z → (0 ≤ i)%Z →
  Z.testbit (Z.lor mask (Z.shiftl 1 j)) i = bool_decide (i = j) || Z.testbit mask i.
Proof.
  intros Hj Hi. rewrite Z.lor_spec, Z.shiftl_spec by done. case_bool_decide as E.
  - subst. rewrite Z.sub_diag. by rewrite orb_true_r.
  - destruct (Z.ltb_spec (i - j) 0).
    + rewrite (Z.testbit_neg_r 1) by lia. by rewrite orb_false_r.
    + replace (Z.testbit 1 (i - j)) with false; [by rewrite orb_false_r|].
      symmetry. apply (Z.bits_above_log2 1); cbn; lia.
Qed.

Lemma clearbit_test mask j i : (0 ≤ j)%Z → (0 ≤ i)%Z →
  Z.testbit (Z.land mask (Z.lnot (Z.shiftl 1 j))) i = negb (bool_decide (i = j)) && Z.testbit mask i.
Proof.
  intros Hj Hi. rewrite Z.land_spec, Z.lnot_spec by done.
  assert (Z.testbit (Z.shiftl 1 j) i = bool_decide (i = j)) as ->; [|by rewrite andb_comm].
  replace (Z.shiftl 1 j) with (Z.lor 0 (Z.shiftl 1 j)) by apply Z.lor_0_l.
  rewrite setbit_test by done. by rewrite Z.bits_0, orb_false_r.
Qed.

Section Facts.
Context `{HashKeyLaws}.

#[local] Abbreviation cap := getSlotCapacity.

Lemma cap_bounds : (1 ≤ cap ≤ 20)%nat.
Proof.
  pose proof entry_fits. unfold getSlotCapacity, SLOT_CAPACITY_BYTES, sizeofSlotHeader, FINGERPRINT_CAPACITY.
  assert (1 ≤ (256 - 32) / sizeofSlotEntry) by (apply Z.div_le_lower_bound; lia). lia.
Qed.

(** ** What a slot holds *)
Record holds (sl : Slot) (cell : nat → option SlotEntry) : Prop := {
  ho_entries : length (slotEntries sl) = cap;
  ho_fingerprints : length (fingerprints (header sl)) = FINGERPRINT_CAPACITY;
  ho_valid j : isEntryValid (header sl) j = bool_decide (j < cap ∧ is_Some (cell j))%nat;
  ho_entry j e : (j < cap)%nat → cell j = Some e →
    slotEntries sl !! j = Some e ∧ fingerprints (header sl) !! j = Some (fingerprint_of (key e));
}.

Lemma holds_ext sl cell cell' : holds sl cell → (∀ j, (j < cap)%nat → cell j = cell' j) → holds sl cell'.
Proof.
  intros [H1 H2 H3 H4] E. split; [done..| |].
  - intros j. rewrite H3. apply bool_decide_ext. split; intros [Hj Hc]; (split; [done|]); [by rewrite <- E|by rewrite E].
  - intros j e Hj Hc. apply H4; [done|]. by rewrite E.
Qed.

Lemma holds_new : holds newSlot (λ _, None).
Proof.
  split; cbn [newSlot header slotEntries newSlotHeader fingerprints]; [by rewrite length_replicate..| |done].
  intros j. unfold isEntryValid. cbn [header newSlot newSlotHeader validityMask]. rewrite Z.bits_0.
  symmetry. apply bool_decide_eq_false_2. intros [_ [? ?]]. done.
Qed.

Lemma holds_next sl cell id : holds sl cell → holds (on_header (set_nextOvfSlotId id) sl) cell.
Proof. intros [H1 H2 H3 H4]. by split. Qed.

Lemma holds_put sl cell pos e : (pos < cap)%nat → holds sl cell →
  holds (put_entry pos e (fingerprint_of (key e)) sl) (<[pos := Some e]> cell).
Proof.
  intros Hpos [H1 H2 H3 H4]. pose proof cap_bounds. split; cbn.
  - by rewrite length_insert.
  - by rewrite length_insert.
  - intros j. unfold isEntryValid. cbn. rewrite setbit_test by lia.
    replace (bool_decide (Z.of_nat j = Z.of_nat pos)) with (bool_decide (j = pos)) by (apply bool_decide_ext; lia). unfold isEntryValid in H3. rewrite H3.
    destruct (decide (j = pos)) as [->|Hne].
    + rewrite fn_lookup_insert, (bool_decide_eq_true_2 (pos = pos)) by done. symmetry. apply bool_decide_eq_true_2. eauto.
    + rewrite fn_lookup_insert_ne by done. by rewrite (bool_decide_eq_false_2 (j = pos)).
  - intros j e' Hj. destruct (decide (j = pos)) as [->|Hne].
    + rewrite fn_lookup_insert. intros [= <-]. split; apply list_lookup_insert_eq; [lia|].
      unfold FINGERPRINT_CAPACITY in H2. lia.
    + rewrite fn_lookup_insert_ne by done. intros Hc. rewrite !list_lookup_insert_ne by done. by apply H4.
Qed.

Lemma holds_invalid sl cell pos : holds sl cell → holds (on_header (setEntryInvalid pos) sl) (<[pos := None]> cell).
Proof.
  intros [H1 H2 H3 H4]. split; cbn; [done..| |].
  - intros j. unfold isEntryValid. cbn. rewrite clearbit_test by lia.
    replace (bool_decide (Z.of_nat j = Z.of_nat pos)) with (bool_decide (j = pos)) by (apply bool_decide_ext; lia). unfold isEntryValid in H3. rewrite H3.
    destruct (decide (j = pos)) as [->|Hne].
    + rewrite fn_lookup_insert, bool_decide_eq_true_2 by done. symmetry. apply bool_decide_eq_false_2. intros [_ [? ?]]. done.
    + rewrite fn_lookup_insert_ne by done. by rewrite (bool_decide_eq_false_2 (j = pos)).
  - intros j e' Hj. destruct (decide (j = pos)) as [->|Hne]; [by rewrite fn_lookup_insert|].
    rewrite fn_lookup_insert_ne by done. by apply H4.
Qed.

(** The number of entries of a slot without gaps. *)
Lemma holds_dense sl (es : list SlotEntry) : holds sl (λ j, es !! j) →
  numEntries (header sl) = (length es `min` cap)%nat ∧
  countr_one (validityMask (header sl)) = (length es `min` cap)%nat.
Proof.
  intros [_ _ Hv _]. pose proof cap_bounds.
  assert (∀ j, Z.testbit (validityMask (header sl)) (Z.of_nat j) = bool_decide (j < length es `min` cap)%nat).
  { intros j. unfold isEntryValid in Hv. rewrite Hv. apply bool_decide_ext. rewrite lookup_lt_is_Some. lia. }
  split; [apply popcount_spec|apply countr_one_spec]; done || lia.
Qed.

Lemma holds_empty sl cell : holds sl cell → numEntries (header sl) = 0%nat → ∀ j, (j < cap)%nat → cell j = None.
Proof.
  intros Hh Hz j Hj. pose proof cap_bounds. pose proof (popcount_zero _ Hz j ltac:(lia)) as Hb.
  pose proof (ho_valid _ _ Hh j) as Hv. unfold isEntryValid in Hv. rewrite Hb in Hv.
  symmetry in Hv. apply bool_decide_eq_false in Hv. destruct (cell j); [|done]. destruct Hv. eauto.
Qed.

(** ** Outcomes

    An operation ends with a result, or because the memory for a number of new slots that
    is in proportion to those there are was refused. *)
Definition number_of (ty : SlotType) (ix : InMemHashIndex) : nat :=
  match ty with PRIMARY => length (pSlots ix) | OVF => length (oSlots ix) end.
Definition refused (grows : SlotType → nat → nat → bool) (ix : InMemHashIndex) : Prop :=
  ∃ ty n, grows ty (number_of ty ix) n = false ∧ (n ≤ 2048 + length (oSlots ix))%nat.

Definition post (grows : SlotType → nat → nat → bool) {A} (r : InMemHashIndex * result A) (Q : InMemHashIndex → A → Prop) : Prop :=
  match r with
  | (ix, Ok a) => Q ix a
  | (ix, Throw e) => e = outOfMemory ∧ refused grows ix
  | (_, UB) => False
  end.

Lemma post_bind {A B} grows (m : stM InMemHashIndex A) (f : A → stM InMemHashIndex B) ix R Q :
  post grows (m ix) R → (∀ ix' a, R ix' a → post grows (f a ix') Q) → post grows ((m ≫= f) ix) Q.
Proof. rewrite st_bind_run. destruct (m ix) as [ix' [a|e|]]; cbn; intros Hm Hf; [by apply Hf|done|done]. Qed.

Lemma post_mono {A} grows (r : InMemHashIndex * result A) (R Q : InMemHashIndex → A → Prop) :
  post grows r R → (∀ ix a, R ix a → Q ix a) → post grows r Q.
Proof. destruct r as [ix' [a|e|]]; cbn; auto. Qed.

(** ** Getting at slots *)
Definition infos (c : nat) (ids : list Z) : list SlotInfo :=
  mkSlotInfo (Z.of_nat c) PRIMARY :: ((λ id, mkSlotInfo id OVF) <$> ids).
Definition next_of (ids : list Z) (b : nat) : Z := default INVALID_OVERFLOW_SLOT_ID (ids !! b).

Lemma getSlot_update i j f ix : 0 ≤ slotId i → 0 ≤ slotId j →
  getSlot j (update_slot i f ix) = if decide (i = j) then f <$> getSlot j ix else getSlot j ix.
Proof.
  intros Hi Hj. unfold getSlot, update_slot. destruct i as [i []], j as [j []]; cbn in *;
    try (by rewrite decide_False by congruence).
  all: destruct (decide (mkSlotInfo i _ = _)) as [[= ->]|Hne]; [by rewrite list_lookup_alter_eq|].
  all: apply list_lookup_alter_ne; intros E; apply Hne; f_equal; lia.
Qed.

Lemma update_slot_lengths i f ix :
  length (pSlots (update_slot i f ix)) = length (pSlots ix) ∧
  length (oSlots (update_slot i f ix)) = length (oSlots ix) ∧
  indexHeader (update_slot i f ix) = indexHeader ix ∧ numFreeSlots (update_slot i f ix) = numFreeSlots ix.
Proof. unfold update_slot. destruct (slotType i); cbn; by rewrite ?length_alter. Qed.

Lemma infos_0 c ids : infos c ids !! 0%nat = Some (mkSlotInfo (Z.of_nat c) PRIMARY).
Proof. done. Qed.
Lemma infos_S c ids b : infos c ids !! S b = (λ id, mkSlotInfo id OVF) <$> ids !! b.
Proof. apply (list_lookup_fmap (λ id, mkSlotInfo id OVF) ids b). Qed.
Lemma infos_length c ids : length (infos c ids) = S (length ids).
Proof. unfold infos. cbn. by rewrite length_fmap. Qed.

Lemma infos_inv c ids b i : infos c ids !! b = Some i →
  (b = 0%nat ∧ i = mkSlotInfo (Z.of_nat c) PRIMARY) ∨ (∃ b' id, b = S b' ∧ ids !! b' = Some id ∧ i = mkSlotInfo id OVF).
Proof.
  destruct b as [|b]; [rewrite infos_0|rewrite infos_S]; intros E; [left; by injection E as <-|right].
  apply fmap_Some in E as (id & ? & ->). eauto.
Qed.

Lemma concat_lookup_inj {A} (ls : list (list A)) : NoDup (concat ls) → ∀ c c' l l' b b' x,
  ls !! c = Some l → ls !! c' = Some l' → l !! b = Some x → l' !! b' = Some x → c = c' ∧ b = b'.
Proof.
  induction ls as [|l0 ls IH]; intros Hnd c c' l l' b b' x Hc Hc' Hb Hb'; [done|].
  cbn in Hnd. apply NoDup_app in Hnd as (Hn0 & Hdisj & Hn).
  assert (∀ k m j, ls !! k = Some m → m !! j = Some x → x ∈ concat ls) as Hin.
  { intros k m j Hk Hm. apply list_elem_of_In, in_concat. exists m.
    split; apply list_elem_of_In; by eapply list_elem_of_lookup_2. }
  destruct c as [|c], c' as [|c']; cbn in *.
  - injection Hc as ->. injection Hc' as ->. split; [done|]. exact (NoDup_lookup _ _ _ _ Hn0 Hb Hb').
  - injection Hc as ->. destruct (Hdisj x); [by eapply list_elem_of_lookup_2|exact (Hin _ _ _ Hc' Hb')].
  - injection Hc' as ->. destruct (Hdisj x); [by eapply list_elem_of_lookup_2|exact (Hin _ _ _ Hc Hb)].
  - by destruct (IH Hn c c' l l' b b' x) as [-> ->].
Qed.

Lemma concat_elem {A} (ls : list (list A)) c l b x : ls !! c = Some l → l !! b = Some x → x ∈ concat ls.
Proof.
  intros Hc Hb. apply list_elem_of_In, in_concat. exists l.
  split; apply list_elem_of_In; by eapply list_elem_of_lookup_2.
Qed.

(** ** Chains *)
Record chain (ix : InMemHashIndex) (c : nat) (ids : list Z) (cell : nat → option SlotEntry) : Prop := {
  ch_slot b i : infos c ids !! b = Some i →
    ∃ sl, getSlot i ix = Some sl ∧ nextOvfSlotId (header sl) = next_of ids b ∧ holds sl (λ j, cell (b * cap + j)%nat);
  ch_end p : (cap * S (length ids) ≤ p)%nat → cell p = None;
}.

(** Empty overflow slots, one linked to the next. *)
Definition linked (ix : InMemHashIndex) (ids : list Z) : Prop := ∀ b id, ids !! b = Some id →
  ∃ sl, getSlot (mkSlotInfo id OVF) ix = Some sl ∧ nextOvfSlotId (header sl) = next_of ids (S b) ∧ holds sl (λ _, None).

Definition MAX_SLOTS : Z := 2 ^ 28.

(** [ix] has the chains [cs] with the entries [cells], the free slots [free], and the
    chain [loose] of empty slots that belong nowhere; [x] free slots are counted but do
    not exist. *)
Record rep (ix : InMemHashIndex) (cs : list (list Z)) (cells : nat → nat → option SlotEntry)
    (free loose : list Z) (x : Z) : Prop := {
  rp_primary : length (pSlots ix) = length cs;
  rp_chain c ids : cs !! c = Some ids → chain ix c ids (cells c);
  rp_first : firstFreeOverflowSlotId (indexHeader ix) = next_of free 0;
  rp_free : linked ix free;
  rp_loose : linked ix loose;
  rp_nodup : NoDup (concat cs ++ free ++ loose);
  rp_range id : id ∈ concat cs ++ free ++ loose → 0 ≤ id < Z.of_nat (length (oSlots ix));
  rp_bound : Z.of_nat (length (pSlots ix)) ≤ MAX_SLOTS ∧ Z.of_nat (length (oSlots ix)) ≤ MAX_SLOTS;
  rp_count : numFreeSlots ix = x + Z.of_nat (length free) ∧ 0 ≤ x ≤ 2 ^ 62;
}.

Section Rep.
Variables (ix : InMemHashIndex) (cs : list (list Z)) (cells : nat → nat → option SlotEntry) (free loose : list Z) (x : Z).
Hypothesis Hrep : rep ix cs cells free loose x.

Lemma rep_chain_nodup : NoDup (concat cs).
Proof. destruct Hrep as [_ _ _ _ _ Hn _ _ _]. by apply NoDup_app in Hn as (? & _ & _). Qed.

Lemma rep_info c ids b i : cs !! c = Some ids → infos c ids !! b = Some i → 0 ≤ slotId i < MAX_SLOTS.
Proof.
  intros Hc Hb. destruct (rp_bound _ _ _ _ _ _ Hrep) as [Hp Ho]. apply infos_inv in Hb as [[-> ->]|(b' & id & -> & Hid & ->)]; cbn.
  - apply lookup_lt_Some in Hc. pose proof (rp_primary _ _ _ _ _ _ Hrep). lia.
  - enough (0 ≤ id < Z.of_nat (length (oSlots ix))) by lia. apply (rp_range _ _ _ _ _ _ Hrep).
    apply elem_of_app. left. by eapply concat_elem.
Qed.

Lemma rep_infos_inj c c' ids ids' b b' i : cs !! c = Some ids → cs !! c' = Some ids' →
  infos c ids !! b = Some i → infos c' ids' !! b' = Some i → c = c' ∧ b = b'.
Proof.
  intros Hc Hc' Hb Hb'.
  apply infos_inv in Hb as [[-> ->]|(b1 & id & -> & Hid & ->)]; apply infos_inv in Hb' as [[-> E]|(b2 & id' & -> & Hid' & E)];
    try discriminate E; injection E; intros; subst.
  - split; [lia|done].
  - destruct (concat_lookup_inj _ rep_chain_nodup _ _ _ _ _ _ _ Hc Hc' Hid Hid'). by split; [|f_equal].
Qed.

(** Not in a chain means not touched by it. *)
Lemma rep_other c ids b i id : cs !! c = Some ids → infos c ids !! b = Some i → id ∈ free ++ loose → i ≠ mkSlotInfo id OVF.
Proof.
  intros Hc Hb Hid ->. apply infos_inv in Hb as [[_ [=]]|(b' & id' & _ & Hb & [= ->])].
  pose proof (rp_nodup _ _ _ _ _ _ Hrep) as Hn. apply NoDup_app in Hn as (_ & Hd & _).
  apply (Hd id'); [|done]. by eapply concat_elem.
Qed.

Lemma rep_extra id : id ∈ free ++ loose → 0 ≤ id < MAX_SLOTS.
Proof.
  intros Hid. destruct (rp_bound _ _ _ _ _ _ Hrep).
  enough (0 ≤ id < Z.of_nat (length (oSlots ix))) by lia.
  apply (rp_range _ _ _ _ _ _ Hrep), elem_of_app. by right.
Qed.

(** *** Reading *)
Lemma rep_slot c ids b i : cs !! c = Some ids → infos c ids !! b = Some i →
  ∃ sl, getSlot i ix = Some sl ∧ nextOvfSlotId (header sl) = next_of ids b ∧ holds sl (λ j, cells c (b * cap + j)%nat).
Proof. intros Hc Hb. by eapply ch_slot; [apply (rp_chain _ _ _ _ _ _ Hrep)|]. Qed.

Lemma read_chain c ids b i : cs !! c = Some ids → infos c ids !! b = Some i →
  ∃ sl, read_slot i ix = (ix, Ok sl) ∧ nextOvfSlotId (header sl) = next_of ids b ∧ holds sl (λ j, cells c (b * cap + j)%nat).
Proof.
  intros Hc Hb. destruct (rep_slot c ids b i Hc Hb) as (sl & Hs & Hn & Hh). exists sl.
  split; [|done]. unfold read_slot. by rewrite Hs.
Qed.

Lemma next_of_chain c ids b : cs !! c = Some ids →
  (next_of ids b = INVALID_OVERFLOW_SLOT_ID ∧ infos c ids !! S b = None) ∨
  (next_of ids b ≠ INVALID_OVERFLOW_SLOT_ID ∧ infos c ids !! S b = Some (mkSlotInfo (next_of ids b) OVF)).
Proof.
  intros Hc. rewrite infos_S. unfold next_of. destruct (ids !! b) as [id|] eqn:E; [right|by left]. split; [|done].
  assert (0 ≤ slotId (mkSlotInfo id OVF) < MAX_SLOTS) as Hr by (apply (rep_info c ids (S b)); [done|by rewrite infos_S, E]).
  cbn in *. unfold INVALID_OVERFLOW_SLOT_ID, UINT64_MAX, MAX_SLOTS in *. lia.
Qed.

Lemma next_chain c ids b i : cs !! c = Some ids → infos c ids !! b = Some i →
  nextChainedSlot i ix = (ix, Ok (infos c ids !! S b)).
Proof.
  intros Hc Hb. destruct (read_chain c ids b i Hc Hb) as (sl & Hr & Hn & _).
  unfold nextChainedSlot. rewrite st_bind_run, Hr. cbn [mret]. rewrite Hn.
  pose proof (rep_info c ids b i Hc Hb) as Hi.
  destruct (next_of_chain c ids b Hc) as [[E Hs]|[E Hs]].
  - rewrite bool_decide_eq_true_2. { st_run. rewrite decide_True by done. by rewrite Hs. }
    right. rewrite E. unfold INVALID_OVERFLOW_SLOT_ID, UINT64_MAX, MAX_SLOTS in *. lia.
  - rewrite bool_decide_eq_true_2. { st_run. rewrite decide_False by done. by rewrite Hs. }
    destruct i as [i []]; cbn; [by left|right]. intros ->.
    destruct (rep_infos_inj c c ids ids b (S b) _ Hc Hc Hb Hs). lia.
Qed.
End Rep.
End Facts.
