(* ===== verification/InMemHashIndexOps.v ===== *)
(** * Changes of chains of slots

    Writing an entry, growing and cutting a chain, taking and giving back free slots: each
    as a change of what the chains hold.  Counting the slots of a chain, reserving free
    slots and giving back the empty slots at the end of a chain: each loop ends. *)

From stdpp Require Import functions.
From S2P Require Import Prelude.
From S2P Require Import HashSlot.
From S2P Require Import InMemHashIndex.
From S2P Require Import InMemHashIndexFacts.

Lemma concat_insert_swap {A} (cs : list (list A)) c l l' :
  cs !! c = Some l → concat (<[c := l']> cs) ++ l ≡ₚ concat cs ++ l'.
Proof. intros Hc. by rewrite (Permutation_app_comm _ l), (Permutation_app_comm _ l'), concat_insert_perm. Qed.

Section Ops.
Context `{HashKeyLaws}.
#[local] Abbreviation cap := getSlotCapacity.

Variable grows : SlotType → nat → nat → bool.
Hypothesis grows_bound : ∀ ty size n, grows ty size n = true → Z.of_nat (size + n) ≤ MAX_SLOTS.

#[local] Abbreviation post := (post grows).

(** What operations on chains leave alone. *)
Definition hdr (ix : InMemHashIndex) : HashIndexHeader * nat :=
  (set_firstFreeOverflowSlotId 0 (indexHeader ix), length (pSlots ix)).

Lemma hdr_update i f ix : hdr (update_slot i f ix) = hdr ix.
Proof. unfold hdr. destruct (update_slot_lengths i f ix) as (-> & _ & -> & _). done. Qed.

Lemma rep_ext ix cs cells cells' free loose x : rep ix cs cells free loose x →
  (∀ c p, (c < length cs)%nat → cells c p = cells' c p) → rep ix cs cells' free loose x.
Proof.
  intros [H1 H2 H3 H4 H5 H6 H7 H8 H9] E. split; try done. intros c ids Hc.
  pose proof (lookup_lt_Some _ _ _ Hc) as Hlt. destruct (H2 c ids Hc) as [Hs He]. split.
  - intros b i Hb. destruct (Hs b i Hb) as (sl & ? & ? & Hh). exists sl. split_and!; [done..|].
    eapply holds_ext; [exact Hh|]. intros. by apply E.
  - intros p Hp. rewrite <- E by done. by apply He.
Qed.

Lemma linked_update ix ids i f : linked ix ids → 0 ≤ slotId i → (∀ id, id ∈ ids → 0 ≤ id ∧ i ≠ mkSlotInfo id OVF) →
  linked (update_slot i f ix) ids.
Proof.
  intros Hl Hi Hne b id Hb. destruct (Hl b id Hb) as (sl & Hs & Hn & Hh). exists sl. split_and!; [|done..].
  destruct (Hne id) as [? ?]; [by eapply list_elem_of_lookup_2|].
  by rewrite getSlot_update, decide_False.
Qed.

Section Write.
Variables (ix : InMemHashIndex) (cs : list (list Z)) (cells : nat → nat → option SlotEntry) (free loose : list Z) (x : Z).
Hypothesis Hrep : rep ix cs cells free loose x.

Lemma rep_extra_ne c ids b i id : cs !! c = Some ids → infos c ids !! b = Some i → id ∈ free ++ loose →
  0 ≤ id ∧ i ≠ mkSlotInfo id OVF.
Proof. intros Hc Hb Hid. split; [apply (rep_extra _ _ _ _ _ _ Hrep id Hid)|by eapply rep_other]. Qed.

(** A write to slot [b] of chain [c], which may change its entries and its link. *)
Lemma rep_write_chains c ids b i f cell' next' : cs !! c = Some ids → infos c ids !! b = Some i →
  (∀ sl, holds sl (λ j, cells c (b * cap + j)%nat) → nextOvfSlotId (header sl) = next_of ids b →
     holds (f sl) (λ j, cell' (b * cap + j)%nat) ∧ nextOvfSlotId (header (f sl)) = next') →
  (∀ p, (p / cap ≠ b)%nat → cell' p = cells c p) →
  linked (update_slot i f ix) free ∧ linked (update_slot i f ix) loose ∧
  (∀ c' ids', cs !! c' = Some ids' → c' ≠ c → chain (update_slot i f ix) c' ids' (cells c')) ∧
  (∀ b' i', infos c ids !! b' = Some i' → ∃ sl, getSlot i' (update_slot i f ix) = Some sl ∧
     nextOvfSlotId (header sl) = (if decide (b' = b) then next' else next_of ids b') ∧
     holds sl (λ j, cell' (b' * cap + j)%nat)).
Proof.
  intros Hc Hb Hf Hcell. pose proof (rep_info _ _ _ _ _ _ Hrep _ _ _ _ Hc Hb) as Hi. split_and!.
  - apply linked_update; [apply Hrep|lia|]. intros id Hid. eapply rep_extra_ne; [done..|]. apply elem_of_app. by left.
  - apply linked_update; [apply Hrep|lia|]. intros id Hid. eapply rep_extra_ne; [done..|]. apply elem_of_app. by right.
  - intros c' ids' Hc' Hne. destruct (rp_chain _ _ _ _ _ _ Hrep c' ids' Hc') as [Hs He]. split; [|done].
    intros b' i' Hb'. pose proof (rep_info _ _ _ _ _ _ Hrep _ _ _ _ Hc' Hb') as Hi'.
    rewrite getSlot_update, decide_False by (lia || (intros ->; by destruct (rep_infos_inj _ _ _ _ _ _ Hrep _ _ _ _ _ _ _ Hc Hc' Hb Hb'))).
    by apply Hs.
  - intros b' i' Hb'. pose proof (rep_info _ _ _ _ _ _ Hrep _ _ _ _ Hc Hb') as Hi'.
    destruct (rep_slot _ _ _ _ _ _ Hrep _ _ _ _ Hc Hb') as (sl & Hs & Hn & Hh).
    rewrite getSlot_update, Hs by lia. destruct (decide (i = i')) as [->|Hne].
    + destruct (rep_infos_inj _ _ _ _ _ _ Hrep _ _ _ _ _ _ _ Hc Hc Hb Hb') as [_ <-].
      rewrite decide_True by done. exists (f sl). destruct (Hf sl Hh Hn) as [? ?]. done.
    + rewrite decide_False by congruence. exists sl. split_and!; [done..|].
      eapply holds_ext; [exact Hh|]. intros j Hj. symmetry. apply Hcell.
      rewrite Nat.div_add_l, Nat.div_small by lia. intros E. apply Hne. rewrite Nat.add_0_r in E. congruence.
Qed.

Lemma rep_write c ids b i f cell' : cs !! c = Some ids → infos c ids !! b = Some i →
  (∀ sl, holds sl (λ j, cells c (b * cap + j)%nat) →
     holds (f sl) (λ j, cell' (b * cap + j)%nat) ∧ nextOvfSlotId (header (f sl)) = nextOvfSlotId (header sl)) →
  (∀ p, (p / cap ≠ b)%nat → cell' p = cells c p) →
  rep (update_slot i f ix) cs (<[c := cell']> cells) free loose x.
Proof.
  intros Hc Hb Hf Hcell.
  destruct (rep_write_chains c ids b i f cell' (next_of ids b) Hc Hb) as (Hfree & Hloose & Hother & Hsame); [|done|].
  { intros sl Hh Hn. destruct (Hf sl Hh) as [? ->]. done. }
  pose proof (update_slot_lengths i f ix) as (E1 & E2 & E3 & E4).
  destruct Hrep as [H1 H2 H3 H4 H5 H6 H7 H8 H9]. split; rewrite ?E1, ?E2, ?E3, ?E4; try done.
  intros c' ids' Hc'. destruct (decide (c' = c)) as [->|Hne].
  - rewrite fn_lookup_insert. assert (ids' = ids) as -> by congruence. split.
    + intros b' i' Hb'. destruct (Hsame b' i' Hb') as (sl & ? & E & ?). exists sl. split_and!; [done| |done].
      rewrite E. by destruct (decide (b' = b)) as [->|].
    + intros p Hp. rewrite Hcell; [by apply (ch_end _ _ _ _ (H2 c ids Hc))|].
      pose proof cap_bounds. apply lookup_lt_Some in Hb. rewrite infos_length in Hb.
      pose proof (Nat.div_le_lower_bound p cap (S (length ids)) ltac:(lia) Hp). lia.
  - rewrite fn_lookup_insert_ne by done. by apply Hother.
Qed.

Lemma pos_div b pos : (pos < cap)%nat → ((b * cap + pos) / cap = b)%nat.
Proof. intros. rewrite Nat.div_add_l, Nat.div_small; lia. Qed.

Lemma cell_insert (cell : nat → option SlotEntry) b pos o j : (j < cap)%nat → (pos < cap)%nat →
  (<[(b * cap + pos)%nat := o]> cell) (b * cap + j)%nat = (<[pos := o]> (λ j, cell (b * cap + j)%nat)) j.
Proof.
  intros. destruct (decide (j = pos)) as [->|]; [by rewrite !fn_lookup_insert|]. rewrite !fn_lookup_insert_ne by lia. done.
Qed.

Lemma rep_put c ids b i pos e : cs !! c = Some ids → infos c ids !! b = Some i → (pos < cap)%nat →
  rep (update_slot i (put_entry pos e (fingerprint_of (key e))) ix) cs
    (<[c := <[(b * cap + pos)%nat := Some e]> (cells c)]> cells) free loose x.
Proof.
  intros Hc Hb Hpos. eapply rep_write; [done..| |].
  - intros sl Hh. split; [|done]. eapply holds_ext; [by apply holds_put|]. intros j Hj. symmetry. by apply cell_insert.
  - intros p Hp. apply fn_lookup_insert_ne. intros <-. by rewrite pos_div in Hp.
Qed.

Lemma rep_invalid c ids b i pos : cs !! c = Some ids → infos c ids !! b = Some i → (pos < cap)%nat →
  rep (update_slot i (on_header (setEntryInvalid pos)) ix) cs
    (<[c := <[(b * cap + pos)%nat := None]> (cells c)]> cells) free loose x.
Proof.
  intros Hc Hb Hpos. eapply rep_write; [done..| |].
  - intros sl Hh. split; [|done]. eapply holds_ext; [by apply holds_invalid|]. intros j Hj. symmetry. by apply cell_insert.
  - intros p Hp. apply fn_lookup_insert_ne. intros <-. by rewrite pos_div in Hp.
Qed.

(** *** Changing links *)
(** The end of chain [c] is cut off behind slot [m]. *)
Lemma rep_cut c ids m i : cs !! c = Some ids → infos c ids !! m = Some i → loose = [] →
  (∀ p, (cap * S m ≤ p)%nat → cells c p = None) →
  rep (update_slot i (on_header (set_nextOvfSlotId INVALID_OVERFLOW_SLOT_ID)) ix)
    (<[c := firstn m ids]> cs) cells free (skipn m ids) x.
Proof.
  intros Hc Hm Hloose Hempty.
  pose proof (lookup_lt_Some _ _ _ Hm) as Hlen. rewrite infos_length in Hlen.
  edestruct (rep_write_chains c ids m i (on_header (set_nextOvfSlotId INVALID_OVERFLOW_SLOT_ID)) (cells c) INVALID_OVERFLOW_SLOT_ID)
    as (Hfree & _ & Hother & Hsame); [done..| | |].
  { intros sl Hh _. split; [by apply holds_next|done]. }
  { done. }
  pose proof (update_slot_lengths i (on_header (set_nextOvfSlotId INVALID_OVERFLOW_SLOT_ID)) ix) as (E1 & E2 & E3 & E4). subst loose.
  assert (concat (<[c:=firstn m ids]> cs) ++ free ++ skipn m ids ≡ₚ concat cs ++ free ++ []) as Hperm.
  { assert (concat (<[c:=firstn m ids]> cs) ++ skipn m ids ≡ₚ concat cs) as E.
    { apply (Permutation_app_inv_r (firstn m ids)). rewrite <- (concat_insert_swap _ _ _ (firstn m ids) Hc), <- app_assoc.
      f_equiv. rewrite Permutation_app_comm. by rewrite firstn_skipn. }
    by rewrite app_nil_r, <- E, (Permutation_app_comm free), app_assoc. }
  destruct Hrep as [H1 H2 H3 H4 H5 H6 H7 H8 H9]. split; rewrite ?E1, ?E2, ?E3, ?E4, ?length_insert; try done.
  - intros c' ids' Hc'. destruct (decide (c' = c)) as [->|Hne].
    + rewrite list_lookup_insert_eq in Hc' by (by eapply lookup_lt_Some). injection Hc' as <-. split.
      * intros b' i' Hb'. pose proof (lookup_lt_Some _ _ _ Hb') as Hlt. rewrite infos_length, length_firstn in Hlt.
        destruct (Hsame b' i') as (sl & ? & E & ?).
        { destruct b' as [|b']; [done|]. rewrite infos_S in *. by rewrite lookup_take_lt in Hb' by lia. }
        exists sl. split_and!; [done| |done]. rewrite E. unfold next_of.
        destruct (decide (b' = m)) as [->|]; [by rewrite lookup_take_ge by lia|by rewrite lookup_take_lt by lia].
      * intros p Hp. rewrite length_firstn in Hp. apply Hempty. pose proof cap_bounds. nia.
    + rewrite list_lookup_insert_ne in Hc' by done. by apply Hother.
  - intros b id Hb. rewrite lookup_drop in Hb.
    destruct (Hsame (S (m + b)) (mkSlotInfo id OVF)) as (sl & ? & E & Hh); [by rewrite infos_S, Hb|].
    exists sl. split_and!; [done| |].
    + rewrite E, decide_False by lia. unfold next_of. rewrite lookup_drop. f_equal. f_equal. lia.
    + eapply holds_ext; [exact Hh|]. intros j Hj. apply Hempty. nia.
  - by rewrite Hperm.
  - intros id. rewrite Hperm. apply H7.
Qed.

(** A loose slot is added at the end of chain [c]. *)
Lemma rep_extend c ids id i : cs !! c = Some ids → infos c ids !! length ids = Some i → loose = [id] →
  rep (update_slot i (on_header (set_nextOvfSlotId id)) ix) (<[c := ids ++ [id]]> cs) cells free [] x.
Proof.
  intros Hc Hm Hloose.
  edestruct (rep_write_chains c ids (length ids) i (on_header (set_nextOvfSlotId id)) (cells c) id)
    as (Hfree & Hnew & Hother & Hsame); [done..| | |].
  { intros sl Hh _. split; [by apply holds_next|done]. }
  { done. }
  pose proof (update_slot_lengths i (on_header (set_nextOvfSlotId id)) ix) as (E1 & E2 & E3 & E4). subst loose.
  assert (concat (<[c:=ids ++ [id]]> cs) ++ free ++ [] ≡ₚ concat cs ++ free ++ [id]) as Hperm.
  { rewrite app_nil_r. rewrite (Permutation_app_comm free [id]), !app_assoc. f_equiv.
    apply (Permutation_app_inv_r ids). rewrite (concat_insert_swap _ _ _ _ Hc), <- app_assoc. f_equiv.
    apply Permutation_app_comm. }
  destruct Hrep as [H1 H2 H3 H4 H5 H6 H7 H8 H9]. split; rewrite ?E1, ?E2, ?E3, ?E4, ?length_insert; try done.
  - intros c' ids' Hc'. destruct (decide (c' = c)) as [->|Hne].
    + rewrite list_lookup_insert_eq in Hc' by (by eapply lookup_lt_Some). injection Hc' as <-.
      pose proof (ch_end _ _ _ _ (H2 c ids Hc)) as Hend. split.
      * intros b' i' Hb'. destruct (decide (b' = S (length ids))) as [->|Hne].
        -- rewrite infos_S, lookup_app_r, Nat.sub_diag in Hb' by lia. injection Hb' as <-.
           destruct (Hnew 0%nat id eq_refl) as (sl & Hs & Hn & Hh). exists sl. split_and!; [done| |].
           ++ rewrite Hn. unfold next_of. rewrite (lookup_ge_None_2 (ids ++ [id])); [done|]. rewrite length_app. cbn. lia.
           ++ eapply holds_ext; [exact Hh|]. intros j Hj. symmetry. apply Hend. lia.
        -- pose proof (lookup_lt_Some _ _ _ Hb') as Hlt. rewrite infos_length, length_app in Hlt. cbn in Hlt.
           destruct (Hsame b' i') as (sl & ? & E & ?).
           { destruct b' as [|b']; [done|]. rewrite infos_S in *. by rewrite lookup_app_l in Hb' by lia. }
           exists sl. split_and!; [done| |done]. rewrite E. unfold next_of.
           destruct (decide (b' = length ids)) as [->|]; [by rewrite list_lookup_middle|by rewrite lookup_app_l by lia].
      * intros p Hp. rewrite length_app in Hp. cbn in Hp. apply Hend. lia.
    + rewrite list_lookup_insert_ne in Hc' by done. by apply Hother.
  - by rewrite Hperm.
  - intros id'. rewrite Hperm. apply H7.
Qed.
End Write.

(** *** Free slots *)
Lemma rep_loose_empty ix cs cells free loose x id : rep ix cs cells free loose x → loose = [] →
  id ∉ concat cs ++ free → 0 ≤ id < Z.of_nat (length (oSlots ix)) →
  (∃ sl, getSlot (mkSlotInfo id OVF) ix = Some sl ∧ nextOvfSlotId (header sl) = INVALID_OVERFLOW_SLOT_ID ∧ holds sl (λ _, None)) →
  rep ix cs cells free [id] x.
Proof.
  intros [H1 H2 H3 H4 H5 H6 H7 H8 H9] -> Hid Hr (sl & Hs & Hn & Hh). rewrite app_nil_r in H6, H7. split; try done.
  - intros [|b] id' Hb; [|done]. injection Hb as <-. exists sl. by rewrite Hn.
  - rewrite app_assoc. apply NoDup_app. split_and!; [done| |apply NoDup_singleton].
    intros i Hi ->%list_elem_of_singleton. done.
  - intros i. rewrite app_assoc, elem_of_app, list_elem_of_singleton. intros [Hi| ->]; [by apply H7|done].
Qed.

(** Slots appended to the overflow slots. *)
Lemma rep_append_oSlots ix cs cells free loose x n : rep ix cs cells free loose x →
  Z.of_nat (length (oSlots ix) + n) ≤ MAX_SLOTS →
  rep (set_oSlots (oSlots ix ++ replicate n newSlot) ix) cs cells free loose x.
Proof.
  intros Hrep Hn. assert (∀ i sl, getSlot i ix = Some sl → getSlot i (set_oSlots (oSlots ix ++ replicate n newSlot) ix) = Some sl) as Hget.
  { intros [i []] sl; cbn; [done|]. intros Hs. by apply lookup_app_l_Some. }
  destruct Hrep as [H1 H2 H3 H4 H5 H6 H7 [H8 H8'] H9]. split; cbn; try done.
  - intros c ids Hc. destruct (H2 c ids Hc) as [Hs He]. split; [|done].
    intros b i Hb. destruct (Hs b i Hb) as (sl & Hg & Hr). exists sl. split; [by apply Hget|done].
  - intros b id Hb. destruct (H4 b id Hb) as (sl & Hg & Hr). exists sl. split; [by apply Hget|done].
  - intros b id Hb. destruct (H5 b id Hb) as (sl & Hg & Hr). exists sl. split; [by apply Hget|done].
  - intros id Hid. specialize (H7 id Hid). rewrite length_app. lia.
  - split; [done|]. rewrite length_app, length_replicate. done.
Qed.

(** Primary slots are added, each the chain of no entries. *)
Lemma rep_append_pSlots ix cs cells free loose x n : rep ix cs cells free loose x →
  (∀ c p, (length cs ≤ c)%nat → cells c p = None) → Z.of_nat (length (pSlots ix) + n) ≤ MAX_SLOTS →
  rep (set_pSlots (pSlots ix ++ replicate n newSlot) ix) (cs ++ replicate n []) cells free loose x.
Proof.
  intros Hrep Hnone Hn. set (ix' := set_pSlots _ ix).
  assert (∀ i sl, getSlot i ix = Some sl → getSlot i ix' = Some sl) as Hget.
  { intros [i []] sl; cbn; [|done]. intros Hs. by apply lookup_app_l_Some. }
  assert (∀ b id sl, getSlot (mkSlotInfo id OVF) ix = Some sl → nextOvfSlotId (header sl) = b → getSlot (mkSlotInfo id OVF) ix' = Some sl) as Hovf by done.
  assert (concat (cs ++ replicate n []) = concat cs) as Econcat.
  { rewrite concat_app. clear. induction n as [|n IH]; cbn in *; [by rewrite app_nil_r|done]. }
  destruct Hrep as [H1 H2 H3 H4 H5 H6 H7 [H8 H8'] H9]. split; rewrite ?Econcat; cbn; try done.
  - rewrite !length_app, !length_replicate. lia.
  - intros c ids Hc. apply lookup_app_Some in Hc as [Hc|[Hge Hc]].
    + destruct (H2 c ids Hc) as [Hs He]. split; [|done]. intros b i Hb. destruct (Hs b i Hb) as (sl & Hg & Hr).
      exists sl. split; [by apply Hget|done].
    + apply lookup_replicate in Hc as [-> Hlt]. split; [|intros p _; by apply Hnone].
      intros [|b] i Hb; [|done]. injection Hb as <-. exists newSlot. split_and!; [|done|].
      * cbn. rewrite Nat2Z.id, lookup_app_r by lia. apply lookup_replicate. split; [done|lia].
      * eapply holds_ext; [apply holds_new|]. intros j _. symmetry. by apply Hnone.
  - by rewrite length_app, length_replicate.
Qed.

Lemma add_slots_PRIMARY ix cs cells free loose x n : rep ix cs cells free loose x →
  (∀ c p, (length cs ≤ c)%nat → cells c p = None) → (n ≤ 2048)%nat →
  post (add_slots grows PRIMARY n ix) (λ ix' _, rep ix' (cs ++ replicate n []) cells free loose x ∧
    hdr ix' = ((hdr ix).1, (length cs + n)%nat) ∧ length (pSlots ix') = (length cs + n)%nat ∧ indexHeader ix' = indexHeader ix).
Proof.
  intros Hrep Hnone Hn. unfold add_slots. destruct (grows PRIMARY _ n) eqn:E; [|split; [done|exists PRIMARY, n; split; [done|lia]]].
  apply grows_bound in E. split_and!; [by apply rep_append_pSlots| | |done].
  - unfold hdr. cbn. by rewrite length_app, length_replicate, (rp_primary _ _ _ _ _ _ Hrep).
  - cbn. by rewrite length_app, length_replicate, (rp_primary _ _ _ _ _ _ Hrep).
Qed.

Lemma read_slot_inv i ix sl : read_slot i ix = (ix, Ok sl) → getSlot i ix = Some sl.
Proof. unfold read_slot. destruct (getSlot i ix) as [sl'|]; cbn; [|done]. by intros [= ->]. Qed.

Lemma linked_next ix id loose : linked ix (id :: loose) →
  ∃ sl, read_slot (mkSlotInfo id OVF) ix = (ix, Ok sl) ∧ nextOvfSlotId (header sl) = next_of loose 0 ∧
    holds sl (λ _, None) ∧ numEntries (header sl) = 0%nat.
Proof.
  intros Hl. destruct (Hl 0%nat id eq_refl) as (sl & Hs & Hn & Hh). exists sl. unfold read_slot. rewrite Hs.
  split_and!; [done..|]. destruct (holds_dense sl []) as [E _]; [by eapply holds_ext|]. by rewrite E.
Qed.

Lemma linked_tail ix id loose : linked ix (id :: loose) → linked ix loose.
Proof. intros Hl b i Hb. apply (Hl (S b) i Hb). Qed.

Lemma update_slot_compose i f g ix : update_slot i f (update_slot i g ix) = update_slot i (λ sl, f (g sl)) ix.
Proof. unfold update_slot, set_pSlots, set_oSlots. destruct (slotType i); cbn; by rewrite list_alter_alter_eq. Qed.

(** The first of the loose slots becomes a free one. *)
Lemma rep_release ix cs cells free id loose x f : rep ix cs cells free (id :: loose) x →
  (∀ sl, holds sl (λ _, None) → holds (f sl) (λ _, None) ∧ nextOvfSlotId (header (f sl)) = next_of free 0) →
  rep (set_numFreeSlots (wrap 64 (numFreeSlots ix + 1))
        (set_indexHeader (set_firstFreeOverflowSlotId id (indexHeader ix)) (update_slot (mkSlotInfo id OVF) f ix)))
    cs cells (id :: free) loose x.
Proof.
  intros Hrep Hf. pose proof (rep_extra _ _ _ _ _ _ Hrep) as Hex.
  assert (0 ≤ id < MAX_SLOTS) as Hid by (apply Hex; rewrite !elem_of_app; right; left).
  pose proof (update_slot_lengths (mkSlotInfo id OVF) f ix) as (E1 & E2 & E3 & E4).
  destruct Hrep as [H1 H2 H3 H4 H5 H6 H7 [H8 H8'] H9]. pose proof H6 as Hnd.
  assert (concat cs ++ free ++ id :: loose ≡ₚ concat cs ++ (id :: free) ++ loose) as Hperm.
  { f_equiv. symmetry. apply Permutation_middle. }
  rewrite Hperm in Hnd. pose proof Hnd as (_ & Hdisj & Hnd2)%NoDup_app.
  cbn in Hnd2. apply NoDup_cons in Hnd2 as [Hnin _].
  assert (∀ ids, linked ix ids → (∀ i, i ∈ ids → i ∈ free ++ loose) → linked (update_slot (mkSlotInfo id OVF) f ix) ids) as Hlink.
  { intros ids Hl Hin. apply linked_update; [done|cbn; lia|]. intros i Hi. split.
    - pose proof (Hin i Hi) as [?|?]%elem_of_app; apply Hex, elem_of_app; [by left|right; by right].
    - intros [= <-]. by apply Hnin, Hin. }
  split; cbn; rewrite ?length_alter; try done.
  - intros c ids Hc. destruct (H2 c ids Hc) as [Hs He]. split; [|done]. intros b i Hb. cbn.
    destruct (Hs b i Hb) as (sl & Hg & Hr). exists sl. split; [|done].
    change (getSlot i (update_slot (mkSlotInfo id OVF) f ix) = Some sl).
    apply infos_inv in Hb as [[_ ->]|(b' & id' & _ & Hb & ->)].
    + rewrite getSlot_update by (cbn; lia). by rewrite decide_False.
    + assert (id' ∈ concat cs) as Hin by (by eapply concat_elem).
      rewrite getSlot_update; [rewrite decide_False; [done|]|cbn; lia|].
      * intros [= <-]. apply (Hdisj id Hin). left.
      * cbn. assert (0 ≤ id' < Z.of_nat (length (oSlots ix))); [|lia]. apply H7, elem_of_app. by left.
  - intros b i Hb. destruct b as [|b]; cbn in Hb.
    + injection Hb as <-. destruct (H5 0%nat id eq_refl) as (sl & Hs & _ & Hh). exists (f sl).
      destruct (Hf sl Hh) as [Hh' Hn']. split_and!; [|by rewrite Hn'|done].
      change (getSlot (mkSlotInfo id OVF) (update_slot (mkSlotInfo id OVF) f ix) = Some (f sl)).
      rewrite getSlot_update, decide_True, Hs by (done || cbn; lia). done.
    + apply (Hlink free H4); [|done]. intros. apply elem_of_app. by left.
  - apply Hlink; [by eapply linked_tail|]. intros. apply elem_of_app. by right.
  - intros i. rewrite <- Hperm. apply H7.
  - destruct H9 as [-> ?]. split; [|done]. rewrite wrap_id; [lia|]. unfold in_u.
    assert (Z.of_nat (length free) ≤ MAX_SLOTS); [|unfold MAX_SLOTS in *; lia].
    etrans; [|exact H8']. apply inj_le.
    transitivity (length (seqZ 0 (Z.of_nat (length (oSlots ix))))); [|rewrite length_seqZ; lia].
    apply submseteq_length, NoDup_submseteq.
    + apply NoDup_app in H6 as (_ & _ & H6). by apply NoDup_app in H6 as (? & _ & _).
    + intros i Hi. apply elem_of_seqZ. rewrite Z.add_0_l. apply H7. rewrite !elem_of_app. tauto.
Qed.

Lemma INVALID_big z : z < MAX_SLOTS → z ≠ INVALID_OVERFLOW_SLOT_ID.
Proof. unfold MAX_SLOTS, INVALID_OVERFLOW_SLOT_ID, UINT64_MAX. lia. Qed.

(** *** The operations on free slots *)
Lemma add_slots_OVF ix cs cells free loose x n : rep ix cs cells free loose x → (n ≤ 2048 + length (oSlots ix))%nat →
  post (add_slots grows OVF n ix) (λ ix' _,
    ix' = set_oSlots (oSlots ix ++ replicate n newSlot) ix ∧ rep ix' cs cells free loose x).
Proof.
  intros Hrep Hn. unfold add_slots. destruct (grows OVF _ n) eqn:E; [|split; [done|by exists OVF, n]]. split; [done|].
  apply rep_append_oSlots; [done|]. by eapply grows_bound.
Qed.

Lemma add_slots_new ix n k : (k < n)%nat →
  getSlot (mkSlotInfo (Z.of_nat (length (oSlots ix) + k)) OVF) (set_oSlots (oSlots ix ++ replicate n newSlot) ix) = Some newSlot.
Proof.
  intros Hk. unfold getSlot. cbn. rewrite Nat2Z.id, lookup_app_r by lia. apply lookup_replicate. split; [done|lia].
Qed.

Lemma addFree_run ix id sl : getSlot (mkSlotInfo id OVF) ix = Some sl →
  nextOvfSlotId (header sl) = INVALID_OVERFLOW_SLOT_ID → id ≠ INVALID_OVERFLOW_SLOT_ID →
  addFreeOverflowSlot (mkSlotInfo id OVF) ix =
    (set_numFreeSlots (wrap 64 (numFreeSlots ix + 1))
      (set_indexHeader (set_firstFreeOverflowSlotId id (indexHeader ix))
        (update_slot (mkSlotInfo id OVF) (on_header (set_nextOvfSlotId (firstFreeOverflowSlotId (indexHeader ix)))) ix)), Ok ()).
Proof.
  intros Hs Hn Hid. unfold addFreeOverflowSlot, read_slot, write_slot. rewrite st_bind_run, Hs. cbn [deref].
  rewrite bool_decide_eq_true_2 by done. by st_run.
Qed.

Lemma addFree_works ix cs cells free id x : rep ix cs cells free [id] x →
  ∃ ix', addFreeOverflowSlot (mkSlotInfo id OVF) ix = (ix', Ok ()) ∧ rep ix' cs cells (id :: free) [] x ∧
    hdr ix' = hdr ix ∧ length (oSlots ix') = length (oSlots ix) ∧ numFreeSlots ix' = numFreeSlots ix + 1 ∧
    (∀ i, i ≠ mkSlotInfo id OVF → 0 ≤ slotId i → getSlot i ix' = getSlot i ix).
Proof.
  intros Hrep. destruct (linked_next ix id [] (rp_loose _ _ _ _ _ _ Hrep)) as (sl & Hr & Hn & Hh & _).
  assert (getSlot (mkSlotInfo id OVF) ix = Some sl) as Hs.
  { by apply read_slot_inv. }
  assert (0 ≤ id < MAX_SLOTS) as Hid by (eapply (rep_extra _ _ _ _ _ _ Hrep); rewrite elem_of_app; right; left).
  eexists. rewrite (addFree_run _ _ _ Hs) by (done || (apply INVALID_big; lia)). split; [done|].
  assert (rep (set_numFreeSlots (wrap 64 (numFreeSlots ix + 1))
      (set_indexHeader (set_firstFreeOverflowSlotId id (indexHeader ix))
        (update_slot (mkSlotInfo id OVF) (on_header (set_nextOvfSlotId (firstFreeOverflowSlotId (indexHeader ix)))) ix)))
     cs cells (id :: free) [] x) as Hrep'.
  { apply rep_release; [done|]. intros sl' Hh'. split; [by apply holds_next|]. apply (rp_first _ _ _ _ _ _ Hrep). }
  pose proof (rp_count _ _ _ _ _ _ Hrep') as [Hc' _]. pose proof (rp_count _ _ _ _ _ _ Hrep) as [Hc _].
  split_and!; [done|..].
  - unfold hdr. cbn. done.
  - cbn. by rewrite length_alter.
  - cbn in Hc'. cbn. lia.
  - intros i Hi Hi0. change (getSlot i (update_slot (mkSlotInfo id OVF)
      (on_header (set_nextOvfSlotId (firstFreeOverflowSlotId (indexHeader ix)))) ix) = getSlot i ix).
    rewrite getSlot_update by (done || cbn; lia). by rewrite decide_False.
Qed.

Lemma dassert_true {S} (b : bool) (s : S) : b = true → dassert b s = (s, Ok ()).
Proof. by intros ->. Qed.

Lemma on_header_run f ix : on_indexHeader (λ h, mret (f h)) ix = (set_indexHeader (f (indexHeader ix)) ix, Ok ()).
Proof. done. Qed.

(** The first free slot is taken out of the chain of free slots. *)
Lemma rep_take ix cs cells free id x sl : rep ix cs cells (id :: free) [] x →
  nextOvfSlotId (header sl) = next_of free 0 →
  rep (set_numFreeSlots (numFreeSlots ix - 1)
        (update_slot (mkSlotInfo id OVF) (on_header (set_nextOvfSlotId INVALID_OVERFLOW_SLOT_ID))
          (set_indexHeader (set_firstFreeOverflowSlotId (nextOvfSlotId (header sl)) (indexHeader ix)) ix)))
    cs cells free [id] x.
Proof.
  intros Hrep Hsl. pose proof (rep_extra _ _ _ _ _ _ Hrep) as Hex.
  assert (0 ≤ id < MAX_SLOTS) as Hid by (apply Hex; rewrite !elem_of_app; left; left).
  set (f := on_header (set_nextOvfSlotId INVALID_OVERFLOW_SLOT_ID)).
  pose proof (update_slot_lengths (mkSlotInfo id OVF) f ix) as (E1 & E2 & E3 & E4).
  destruct Hrep as [H1 H2 H3 H4 H5 H6 H7 H8 H9]. rewrite app_nil_r in H6, H7.
  assert (concat cs ++ free ++ [id] ≡ₚ concat cs ++ id :: free) as Hperm.
  { f_equiv. by rewrite Permutation_app_comm. }
  pose proof H6 as (_ & Hdisj & Hnd2)%NoDup_app. apply NoDup_cons in Hnd2 as [Hnin _].
  assert (∀ i, getSlot i (set_numFreeSlots (numFreeSlots ix - 1) (update_slot (mkSlotInfo id OVF) f
    (set_indexHeader (set_firstFreeOverflowSlotId (nextOvfSlotId (header sl)) (indexHeader ix)) ix)))
    = getSlot i (update_slot (mkSlotInfo id OVF) f ix)) as Hget by done.
  split; cbn; rewrite ?length_alter; try done.
  - intros c ids Hc. destruct (H2 c ids Hc) as [Hs He]. split; [|done]. intros b i Hb.
    destruct (Hs b i Hb) as (sl' & Hg & Hr). exists sl'. split; [|done]. rewrite Hget.
    apply infos_inv in Hb as [[_ ->]|(b' & id' & _ & Hb & ->)].
    + rewrite getSlot_update by (cbn; lia). by rewrite decide_False.
    + assert (id' ∈ concat cs) as Hin by (by eapply concat_elem).
      rewrite getSlot_update; [rewrite decide_False; [done|]|cbn; lia|].
      * intros [= <-]. apply (Hdisj id Hin). left.
      * cbn. assert (0 ≤ id' < Z.of_nat (length (oSlots ix))); [|lia]. apply H7, elem_of_app. by left.
  - intros b i Hb. destruct (H4 (S b) i Hb) as (sl' & Hs & Hn & Hh). exists sl'. split_and!; [|done..].
    rewrite Hget, getSlot_update, decide_False; [done| |cbn; lia|].
    + intros [= <-]. apply Hnin. by eapply list_elem_of_lookup_2.
    + cbn. assert (0 ≤ i < Z.of_nat (length (oSlots ix))); [|lia]. apply H7, elem_of_app. right. right.
      by eapply list_elem_of_lookup_2.
  - intros [|b] i Hb; [|done]. injection Hb as <-. destruct (H4 0%nat id eq_refl) as (sl' & Hs & _ & Hh).
    exists (f sl'). split_and!; [|done|by apply holds_next].
    rewrite Hget, getSlot_update, decide_True, Hs by (done || cbn; lia). done.
  - by rewrite Hperm.
  - intros i. rewrite Hperm. apply H7.
  - destruct H9 as [-> ?]. cbn. split; [lia|done].
Qed.

Lemma allocate_works ix cs cells free x : rep ix cs cells free [] x →
  post (allocateAOSlot grows ix) (λ ix' id, ∃ free', rep ix' cs cells free' [id] x ∧ hdr ix' = hdr ix).
Proof.
  intros Hrep. unfold allocateAOSlot. st_run. rewrite (rp_first _ _ _ _ _ _ Hrep).
  pose proof (rp_bound _ _ _ _ _ _ Hrep) as [_ Hbo].
  destruct free as [|id free].
  - rewrite decide_True by done. eapply post_bind; [eapply add_slots_OVF; [done|lia]|].
    intros ix1 _ [-> Hrep1]. cbn. rewrite wrap_id by (unfold in_u, MAX_SLOTS in *; lia). exists []. split; [|done].
    apply (rep_loose_empty _ cs cells [] []); [done..| | |].
    + intros Hin. rewrite app_nil_r in Hin. pose proof (rp_range _ _ _ _ _ _ Hrep (Z.of_nat (length (oSlots ix)))) as Hr.
      cbn in Hr. rewrite app_nil_r in Hr. specialize (Hr Hin). lia.
    + cbn. rewrite length_app. cbn. lia.
    + exists newSlot. split_and!; [|done|apply holds_new].
      pose proof (add_slots_new ix 1 0 ltac:(lia)) as E. by rewrite Nat.add_0_r in E.
  - assert (0 ≤ id < MAX_SLOTS) as Hid by (apply (rep_extra _ _ _ _ _ _ Hrep); left).
    change (next_of (id :: free) 0) with id. rewrite decide_False by (apply INVALID_big; lia).
    destruct (linked_next ix id free (rp_free _ _ _ _ _ _ Hrep)) as (sl & Hr & Hn & Hh & Hz).
    rewrite st_bind_run, Hr, st_bind_run, on_header_run. unfold write_slot.
    rewrite st_bind_run, dassert_true by by apply bool_decide_eq_true_2. st_run.
    pose proof (rp_count _ _ _ _ _ _ Hrep) as [Hc Hx].
    match goal with |- context [bool_decide (0 < numFreeSlots ?i)] => set (ix1 := i) end.
    assert (numFreeSlots ix1 = numFreeSlots ix) as E1 by done.
    rewrite dassert_true by (apply bool_decide_eq_true_2; rewrite E1, Hc; cbn; lia). st_run.
    rewrite wrap_id by (unfold in_u, MAX_SLOTS in *; lia). exists free. split; [|done].
    rewrite E1. apply rep_take; [done|]. by rewrite Hn.
Qed.
(** ** Walking along chains *)
Lemma rep_chain_length ix cs cells free loose x c ids : rep ix cs cells free loose x → cs !! c = Some ids →
  (length ids ≤ length (oSlots ix))%nat.
Proof.
  intros Hrep Hc. pose proof (rp_nodup _ _ _ _ _ _ Hrep) as (Hn & _ & _)%NoDup_app.
  replace (length (oSlots ix)) with (length (seqZ 0 (Z.of_nat (length (oSlots ix))))) by (rewrite length_seqZ; lia).
  apply submseteq_length. transitivity (concat cs).
  - clear -Hc. revert c Hc. induction cs as [|l cs IH]; intros [|c] Hc; try done; cbn in *.
    + injection Hc as ->. by apply submseteq_inserts_r.
    + apply submseteq_inserts_l. by eapply IH.
  - apply NoDup_submseteq; [done|]. intros i Hi. apply elem_of_seqZ. rewrite Z.add_0_l.
    apply (rp_range _ _ _ _ _ _ Hrep), elem_of_app. by left.
Qed.

(** ** Counting *)
Lemma count_chained_works ix cs cells free loose x c ids : rep ix cs cells free loose x → cs !! c = Some ids →
  ∀ fuel b i, infos c ids !! b = Some i → (length ids < b + fuel)%nat →
  count_chained fuel i ix = (ix, Ok (Z.of_nat (S (length ids) - b))).
Proof.
  intros Hrep Hc. pose proof (rep_chain_length _ _ _ _ _ _ _ _ Hrep Hc) as Hlen.
  pose proof (rp_bound _ _ _ _ _ _ Hrep) as [_ Hbo].
  induction fuel as [|fuel IH]; intros b i Hb Hf.
  - apply lookup_lt_Some in Hb. rewrite infos_length in Hb. lia.
  - cbn [count_chained]. rewrite st_bind_run, (next_chain _ _ _ _ _ _ Hrep _ _ _ _ Hc Hb).
    pose proof (lookup_lt_Some _ _ _ Hb) as Hlt. rewrite infos_length in Hlt.
    destruct (infos c ids !! S b) as [j|] eqn:Hj.
    + rewrite st_bind_run, (IH (S b)) by (done || lia). unfold mret, stM_ret. do 2 f_equal.
      apply lookup_lt_Some in Hj. rewrite infos_length in Hj.
      rewrite wrap_id by (unfold in_u, MAX_SLOTS in *; lia). lia.
    + apply lookup_ge_None in Hj. rewrite infos_length in Hj. unfold mret, stM_ret. do 2 f_equal. lia.
Qed.

Lemma countSlots_works ix cs cells free loose x c ids : rep ix cs cells free loose x → cs !! c = Some ids →
  countSlots (mkSlotInfo (Z.of_nat c) PRIMARY) ix = (ix, Ok (Z.of_nat (S (length ids)))).
Proof.
  intros Hrep Hc. unfold countSlots. rewrite decide_False by done. st_run.
  pose proof (rep_chain_length _ _ _ _ _ _ _ _ Hrep Hc).
  erewrite (count_chained_works _ _ _ _ _ _ c ids Hrep Hc _ 0) by (done || (unfold chain_fuel; lia)).
  by rewrite Nat.sub_0_r.
Qed.

(** ** Reserving free slots *)
Lemma add_free_slots_works cs cells x total : total ≤ 2 ^ 32 → ∀ fuel ix free i id,
  rep ix cs cells free [] x → 0 ≤ i → 0 ≤ total - numFreeSlots ix → 0 ≤ id →
  (∀ j, j ∈ concat cs ++ free → j < id) → id + (total - numFreeSlots ix) ≤ Z.of_nat (length (oSlots ix)) →
  (∀ j, id ≤ j < Z.of_nat (length (oSlots ix)) → getSlot (mkSlotInfo j OVF) ix = Some newSlot) →
  total - numFreeSlots ix < Z.of_nat fuel →
  ∃ ix' free', add_free_slots fuel i id total ix = (ix', Ok ()) ∧ rep ix' cs cells free' [] x ∧ hdr ix' = hdr ix.
Proof.
  intros Htotal. induction fuel as [|fuel IH]; intros ix free i id Hrep Hi Hd Hid Hold Hroom Hnew Hf; [lia|].
  cbn [add_free_slots]. st_run.
  pose proof (rp_bound _ _ _ _ _ _ Hrep) as [_ Hbo]. pose proof (rp_count _ _ _ _ _ _ Hrep) as [Hcount Hx].
  rewrite wrap_id by (unfold in_u, MAX_SLOTS in *; lia). case_decide; [|by exists ix, free].
  assert (id ∉ concat cs ++ free) as Hfresh by (intros Hin%Hold; lia).
  assert (rep ix cs cells free [id] x) as Hrep1.
  { apply (rep_loose_empty _ _ _ _ []); [done..|lia|]. exists newSlot. split_and!; [|done|apply holds_new]. apply Hnew. lia. }
  destruct (addFree_works _ _ _ _ _ _ Hrep1) as (ix1 & Hrun & Hrep2 & Hh & Ho & Hn & Hg).
  rewrite st_bind_run, Hrun. destruct (IH ix1 (id :: free) (i + 1) (id + 1)) as (ix' & free' & ? & ? & ?); try done; try lia.
  - intros j. rewrite elem_of_app, elem_of_cons. intros [Hj|[->|Hj]]; [|lia|];
      enough (j < id) by lia; apply Hold, elem_of_app; auto.
  - rewrite Ho. intros j Hj. rewrite Hg by (cbn; (lia || (intros [=]; lia))). apply Hnew. lia.
  - exists ix', free'. split_and!; [done..|congruence].
Qed.

Lemma reserve_works ix cs cells free x total : rep ix cs cells free [] x → total ≤ 2 ^ 32 → total ≤ Z.of_nat (2048 + length (oSlots ix)) →
  post (reserveOverflowSlots grows total ix) (λ ix' _, ∃ free', rep ix' cs cells free' [] x ∧ hdr ix' = hdr ix).
Proof.
  intros Hrep Ht Hto. unfold reserveOverflowSlots. st_run. case_decide as Hlt; [|by exists free].
  pose proof (rp_count _ _ _ _ _ _ Hrep) as [Hcount Hx].
  eapply post_bind; [apply add_slots_OVF; [done|lia]|]. intros ix1 _ [-> Hrep1].
  set (n := Z.to_nat (total - numFreeSlots ix)) in *.
  destruct (add_free_slots_works cs cells x total Ht (S n) (set_oSlots (oSlots ix ++ replicate n newSlot) ix)
    free 0 (Z.of_nat (length (oSlots ix)))) as (ix' & free' & -> & ? & Hh); try done; cbn; try lia.
  - intros j Hj. apply (rp_range _ _ _ _ _ _ Hrep). by rewrite app_nil_r.
  - rewrite length_app, length_replicate. lia.
  - rewrite length_app, length_replicate. intros j Hj.
    pose proof (add_slots_new ix n (Z.to_nat j - length (oSlots ix)) ltac:(lia)) as E. rewrite <- E.
    unfold getSlot. cbn. f_equal. lia.
  - exists free'. split; [done|]. by rewrite Hh.
Qed.

(** ** Giving back empty slots *)
Lemma advance_works ix cs cells free id loose x : rep ix cs cells free (id :: loose) x →
  ∃ ix1 ix2, clearNextOverflowAndAdvanceIter (mkSlotInfo id OVF) ix = (ix1, Ok (mkSlotInfo (next_of loose 0) OVF)) ∧
    addFreeOverflowSlot (mkSlotInfo id OVF) ix1 = (ix2, Ok ()) ∧
    rep ix2 cs cells (id :: free) loose x ∧ hdr ix2 = hdr ix.
Proof.
  intros Hrep. destruct (linked_next ix id loose (rp_loose _ _ _ _ _ _ Hrep)) as (sl & Hr & Hn & Hh & _).
  assert (0 ≤ id < MAX_SLOTS) as Hid by (apply (rep_extra _ _ _ _ _ _ Hrep), elem_of_app; right; left).
  set (i := mkSlotInfo id OVF) in *.
  exists (update_slot i (on_header (set_nextOvfSlotId INVALID_OVERFLOW_SLOT_ID)) ix).
  eexists. split_and!.
  - unfold clearNextOverflowAndAdvanceIter, write_slot. rewrite st_bind_run, Hr. st_run. by rewrite Hn.
  - apply (addFree_run _ id (on_header (set_nextOvfSlotId INVALID_OVERFLOW_SLOT_ID) sl)); [|done|apply INVALID_big; lia].
    fold i. apply read_slot_inv in Hr. by rewrite getSlot_update, decide_True, Hr by (done || cbn; lia).
  - fold i. rewrite update_slot_compose. cbn.
    apply (rep_release _ _ _ _ _ _ _ _ Hrep). intros sl' Hh'. split; [by do 2 apply holds_next|].
    apply (rp_first _ _ _ _ _ _ Hrep).
  - done.
Qed.

Lemma free_empty_works cs cells x : ∀ fuel ix free loose,
  rep ix cs cells free loose x → (length loose < fuel)%nat →
  ∃ ix' free', free_empty fuel (mkSlotInfo (next_of loose 0) OVF) ix = (ix', Ok ()) ∧
    rep ix' cs cells free' [] x ∧ hdr ix' = hdr ix.
Proof.
  induction fuel as [|fuel IH]; intros ix free loose Hrep Hf; [lia|]. cbn [free_empty].
  destruct loose as [|id loose].
  - rewrite decide_True by done. by exists ix, free.
  - assert (0 ≤ id < MAX_SLOTS) as Hid by (apply (rep_extra _ _ _ _ _ _ Hrep), elem_of_app; right; left).
    change (next_of (id :: loose) 0) with id.
    rewrite decide_False by (intros [= E]; revert E; apply INVALID_big; lia).
    destruct (linked_next ix id loose (rp_loose _ _ _ _ _ _ Hrep)) as (sl & Hr & Hn & _ & Hz).
    rewrite st_bind_run, Hr, st_bind_run, dassert_true by by apply bool_decide_eq_true_2.
    destruct (advance_works _ _ _ _ _ _ _ Hrep) as (ix1 & ix2 & Hadv & Hadd & Hrep2 & Hh2).
    rewrite st_bind_run, Hadv. cbn [slotType]. rewrite decide_True, st_bind_run, Hadd by done.
    destruct (IH ix2 (id :: free) loose Hrep2) as (ix' & free' & ? & ? & ?); [cbn in Hf; lia|].
    exists ix', free'. split_and!; [done..|congruence].
Qed.

(** The number of overflow slots that many entries need. *)
Definition overflow_of (es : list SlotEntry) : nat := ((length es - 1) / cap)%nat.

Lemma overflow_of_bounds es : (overflow_of es * cap ≤ length es ≤ S (overflow_of es) * cap)%nat ∧
  (es ≠ [] → overflow_of es * cap < length es)%nat.
Proof.
  pose proof cap_bounds. unfold overflow_of.
  pose proof (Nat.div_mod_eq (length es - 1) cap). pose proof (Nat.mod_upper_bound (length es - 1) cap ltac:(lia)).
  split; [nia|]. intros Hne. assert (length es ≠ 0%nat) by (by destruct es). nia.
Qed.

Lemma dense_slot ix cs cells free loose x c ids es b i : rep ix cs cells free loose x → cs !! c = Some ids →
  (∀ p, cells c p = es !! p) → infos c ids !! b = Some i →
  ∃ sl, read_slot i ix = (ix, Ok sl) ∧ nextOvfSlotId (header sl) = next_of ids b ∧
    holds sl (λ j, es !! (b * cap + j)%nat) ∧
    numEntries (header sl) = ((length es - b * cap) `min` cap)%nat ∧
    countr_one (validityMask (header sl)) = ((length es - b * cap) `min` cap)%nat.
Proof.
  intros Hrep Hc Hd Hb. destruct (read_chain _ _ _ _ _ _ Hrep _ _ _ _ Hc Hb) as (sl & Hr & Hn & Hh).
  assert (holds sl (λ j, es !! (b * cap + j)%nat)) as Hh1 by (eapply holds_ext; [exact Hh|]; intros; apply Hd).
  destruct (holds_dense sl (drop (b * cap) es)) as [E1 E2].
  { eapply holds_ext; [exact Hh1|]. intros j _. by rewrite lookup_drop. }
  rewrite length_drop in *. by exists sl.
Qed.

Section Reclaim.
Variables (ix : InMemHashIndex) (cs : list (list Z)) (cells : nat → nat → option SlotEntry) (free : list Z) (x : Z).
Hypothesis Hrep : rep ix cs cells free [] x.
Variables (c : nat) (ids : list Z) (es : list SlotEntry).
Hypothesis Hc : cs !! c = Some ids.
Hypothesis Hd : ∀ p, cells c p = es !! p.

Lemma overflow_of_ids : (overflow_of es ≤ length ids)%nat.
Proof.
  assert (es !! (cap * S (length ids))%nat = None) as Hn.
  { rewrite <- Hd. apply (ch_end _ _ _ _ (rp_chain _ _ _ _ _ _ Hrep c ids Hc)). lia. }
  apply lookup_ge_None in Hn. pose proof cap_bounds. unfold overflow_of.
  apply Nat.lt_succ_r, Nat.Div0.div_lt_upper_bound. nia.
Qed.

Lemma last_non_empty_works : ∀ fuel b i last, infos c ids !! b = Some i →
  (b ≤ overflow_of es)%nat → (length ids < b + fuel)%nat →
  ∃ im, infos c ids !! overflow_of es = Some im ∧
    last_non_empty fuel i last ix = (ix, Ok (mkSlotInfo (next_of ids (overflow_of es)) OVF, im)).
Proof.
  pose proof (overflow_of_bounds es) as [Hob1 Hob2]. pose proof cap_bounds.
  pose proof overflow_of_ids as Hov.
  induction fuel as [|fuel IH]; intros b i last Hb Hle Hf; [lia|]. cbn [last_non_empty].
  destruct (dense_slot _ _ _ _ _ _ _ _ _ _ _ Hrep Hc Hd Hb) as (sl & Hr & Hn & Hh & Hnum & _).
  rewrite st_bind_run, Hr. rewrite decide_True.
  2:{ apply infos_inv in Hb as [[-> ->]|(b' & id & -> & _ & ->)]; [by right|left]. rewrite Hnum.
      assert (es ≠ []) as Hne%Hob2 by (intros ->; unfold overflow_of in Hle; cbn in Hle; rewrite Nat.Div0.div_0_l in Hle; lia). nia. }
  rewrite st_bind_run, (next_chain _ _ _ _ _ _ Hrep _ _ _ _ Hc Hb).
  destruct (decide (b = overflow_of es)) as [->|Hne].
  - exists i. split; [done|].
    destruct (next_of_chain _ _ _ _ _ _ Hrep c ids (overflow_of es) Hc) as [[E ->]|[E Hs]]; [by rewrite E|].
    rewrite Hs. pose proof (lookup_lt_Some _ _ _ Hs) as Hlt. rewrite infos_length in Hlt.
    destruct fuel as [|fuel]; [lia|]. cbn [last_non_empty].
    destruct (dense_slot _ _ _ _ _ _ _ _ _ _ _ Hrep Hc Hd Hs) as (sl' & Hr' & _ & _ & Hnum' & _).
    rewrite st_bind_run, Hr', decide_False; [done|]. rewrite Hnum'. intros [Hpos|[=]]. nia.
  - destruct (infos c ids !! S b) as [j|] eqn:Hj.
    + apply (IH (S b)); [done|lia..].
    + apply lookup_ge_None in Hj. rewrite infos_length in Hj. lia.
Qed.

Lemma reclaim_works b i : infos c ids !! b = Some i → (b ≤ overflow_of es)%nat →
  ∃ ix' free', reclaimOverflowSlots i ix = (ix', Ok ()) ∧
    rep ix' (<[c := firstn (overflow_of es) ids]> cs) cells free' [] x ∧ hdr ix' = hdr ix.
Proof.
  intros Hb Hle. pose proof overflow_of_ids as Hlen. unfold reclaimOverflowSlots.
  destruct (dense_slot _ _ _ _ _ _ _ _ _ _ _ Hrep Hc Hd Hb) as (sl & Hr & Hn & _).
  rewrite st_bind_run, Hr, Hn.
  pose proof (rep_chain_length _ _ _ _ _ _ _ _ Hrep Hc) as Hol.
  destruct (next_of_chain _ _ _ _ _ _ Hrep c ids b Hc) as [[E Hs]|[E Hs]].
  - rewrite decide_True by done. exists ix, free. split_and!; [done| |done].
    apply lookup_ge_None in Hs. rewrite infos_length in Hs.
    rewrite firstn_all2 by lia. by rewrite list_insert_id.
  - rewrite decide_False by done. st_run.
    destruct (last_non_empty_works (chain_fuel ix) b i i Hb Hle) as (im & Him & Hlast).
    { unfold chain_fuel. apply lookup_lt_Some in Hs. rewrite infos_length in Hs. lia. }
    rewrite Hlast. unfold write_slot. st_run.
    assert (rep (update_slot im (on_header (set_nextOvfSlotId INVALID_OVERFLOW_SLOT_ID)) ix)
      (<[c := firstn (overflow_of es) ids]> cs) cells free (skipn (overflow_of es) ids) x) as Hcut.
    { eapply rep_cut; [done..|]. intros p Hp. rewrite Hd. apply lookup_ge_None.
      pose proof (overflow_of_bounds es) as [? _]. lia. }
    destruct (free_empty_works _ _ _ (S (chain_fuel ix)) _ _ _ Hcut) as (ix' & free' & Hrun & Hrep' & Hh').
    { rewrite length_skipn. unfold chain_fuel. lia. }
    assert (next_of (skipn (overflow_of es) ids) 0 = next_of ids (overflow_of es)) as E0.
    { unfold next_of. by rewrite lookup_drop, Nat.add_0_r. }
    rewrite <- E0, Hrun. exists ix', free'. split_and!; [done..|]. rewrite Hh'. apply hdr_update.
Qed.
End Reclaim.
End Ops.
