(* ===== verification/InMemHashIndexEntries.v ===== *)
(** * Entries of chains

    Looking for an entry, adding one at the end of its chain and deleting one, as
    operations on the lists of entries that chains hold without gaps. *)

From stdpp Require Import functions.
From S2P Require Import Prelude.
From S2P Require Import HashSlot.
From S2P Require Import InMemHashIndex.
From S2P Require Import InMemHashIndexFacts.
From S2P Require Import InMemHashIndexOps.

Section Entries.
Context `{HashKeyLaws}.
#[local] Abbreviation cap := getSlotCapacity.

Variable grows : SlotType → nat → nat → bool.
Hypothesis grows_bound : ∀ ty size n, grows ty size n = true → Z.of_nat (size + n) ≤ MAX_SLOTS.

#[local] Abbreviation post := (post grows).

(** The free slots that are counted but do not exist. *)
Variable phantom : Z.

(** ** Chains without gaps and without empty slots at their end *)
Definition cells_of (L : list (list SlotEntry)) (c p : nat) : option SlotEntry := L !! c ≫= λ es, es !! p.

Definition dense (ix : InMemHashIndex) (L : list (list SlotEntry)) : Prop :=
  ∃ cs free, rep ix cs (cells_of L) free [] phantom ∧ Forall2 (λ ids es, length ids = overflow_of es) cs L.

Definition matches (isVisible : Z → bool) (k : Key) (e : SlotEntry) : bool := bool_decide (k = key e) && isVisible (value e).

Lemma cells_of_chain L c es : L !! c = Some es → ∀ p, cells_of L c p = es !! p.
Proof. intros Hc p. unfold cells_of. by rewrite Hc. Qed.

(** ** Looking for an entry *)
Section Find.
Variables (ix : InMemHashIndex) (cs : list (list Z)) (cells : nat → nat → option SlotEntry) (free : list Z) (x : Z).
Hypothesis Hrep : rep ix cs cells free [] x.
Variables (c : nat) (ids : list Z) (es : list SlotEntry).
Hypothesis Hc : cs !! c = Some ids.
Hypothesis Hd : ∀ p, cells c p = es !! p.
Variable k : Key.

Lemma find_in_slot_works isVisible b sl : holds sl (λ j, es !! (b * cap + j)%nat) → ∀ todo pos,
  (pos + todo ≤ (length es - b * cap) `min` cap)%nat →
  (∃ p e, find_in_slot isVisible todo pos sl k (fingerprint_of k) = Ok (Some p) ∧ (p < cap)%nat ∧
     es !! (b * cap + p)%nat = Some e ∧ matches isVisible k e = true) ∨
  (find_in_slot isVisible todo pos sl k (fingerprint_of k) = Ok None ∧
     ∀ p e, (pos ≤ p < pos + todo)%nat → es !! (b * cap + p)%nat = Some e → matches isVisible k e = false).
Proof.
  intros Hh. induction todo as [|todo IH]; intros pos Hle; cbn [find_in_slot].
  - right. split; [done|]. lia.
  - destruct (es !! (b * cap + pos)%nat) as [e|] eqn:He; [|apply lookup_ge_None in He; lia].
    destruct (ho_entry _ _ Hh pos e) as [-> ->]; [lia|done|]. cbn [deref mbind result_bind].
    destruct (matches isVisible k e) eqn:Em.
    + left. exists pos, e. unfold matches in Em. apply andb_true_iff in Em as [Ek Ev].
      pose proof Ek as ->%bool_decide_eq_true. split_and!; [|lia|done|].
      * by rewrite Ev, !bool_decide_eq_true_2.
      * unfold matches. by rewrite Ev, bool_decide_eq_true_2.
    + assert (bool_decide (fingerprint_of (key e) = fingerprint_of k) && bool_decide (k = key e) && isVisible (value e) = false) as ->.
      { rewrite <- andb_assoc. unfold matches in Em. rewrite Em. apply andb_false_r. }
      destruct (IH (S pos)) as [(p & e' & ? & ? & ? & ?)|[-> Hno]]; [lia|left; by eauto 10|right].
      split; [done|]. intros p e' Hp Hl. destruct (decide (p = pos)) as [->|]; [congruence|].
      apply (Hno p e'); [lia|done].
Qed.

Lemma no_gaps_works b i : infos c ids !! b = Some i → no_gaps i ix = (ix, Ok ()).
Proof.
  intros Hb. destruct (dense_slot _ _ _ _ _ _ _ _ _ _ _ Hrep Hc Hd Hb) as (sl & Hr & _ & _ & E1 & E2).
  unfold no_gaps. rewrite st_bind_run, Hr. apply dassert_true, bool_decide_eq_true_2. congruence.
Qed.

(** An entry that matches, or where to put one. *)
Definition found (isVisible : Z → bool) (i : SlotInfo) (pos : option nat) : Prop :=
  ∃ b, infos c ids !! b = Some i ∧
    match pos with
    | Some p => (p < cap)%nat ∧ ∃ e, es !! (b * cap + p)%nat = Some e ∧ matches isVisible k e = true
    | None => (∀ e, e ∈ es → matches isVisible k e = false) ∧ (b * cap ≤ length es ≤ S b * cap)%nat ∧
        (length es = (S b * cap)%nat → b = length ids)
    end.

Lemma findEntry_works isVisible : ∀ fuel b i, infos c ids !! b = Some i → (length ids < b + fuel)%nat →
  (b * cap ≤ length es)%nat → (∀ p e, (p < b * cap)%nat → es !! p = Some e → matches isVisible k e = false) →
  ∃ i' pos, findEntry isVisible fuel i k (fingerprint_of k) ix = (ix, Ok (i', pos)) ∧ found isVisible i' pos.
Proof.
  assert (length es ≤ S (length ids) * cap)%nat as Hlen.
  { assert (es !! (cap * S (length ids))%nat = None) as Hn%lookup_ge_None; [|lia].
    rewrite <- Hd. apply (ch_end _ _ _ _ (rp_chain _ _ _ _ _ _ Hrep c ids Hc)). lia. }
  induction fuel as [|fuel IH]; intros b i Hb Hf Hle Hbefore.
  { apply lookup_lt_Some in Hb. rewrite infos_length in Hb. lia. }
  cbn [findEntry]. destruct (dense_slot _ _ _ _ _ _ _ _ _ _ _ Hrep Hc Hd Hb) as (sl & Hr & Hn & Hh & E1 & E2).
  rewrite st_bind_run, Hr, st_bind_run, (no_gaps_works _ _ Hb), st_bind_run.
  destruct (find_in_slot_works isVisible b sl Hh (numEntries (header sl)) 0) as [(p & e & -> & Hp & He & Hm)|[-> Hno]]; [lia| |].
  - exists i, (Some p). split; [done|]. exists b. split; [done|]. eauto.
  - cbn [st_lift]. assert (∀ p e, (p < S b * cap)%nat → es !! p = Some e → matches isVisible k e = false) as Hbefore'.
    { intros p e Hp He. destruct (decide (p < b * cap)%nat); [by eapply Hbefore|].
      apply (Hno (p - b * cap)%nat); [|by replace (b * cap + (p - b * cap))%nat with p by lia].
      rewrite E1. apply lookup_lt_Some in He. lia. }
    assert ((length es ≤ S b * cap)%nat → ∀ e, e ∈ es → matches isVisible k e = false) as Hall.
    { intros Hl e (p & He)%list_elem_of_lookup. eapply Hbefore'; [|done]. apply lookup_lt_Some in He. lia. }
    case_decide as Hnum.
    + exists i, None. split; [done|]. exists b. rewrite E1 in Hnum. split_and!; [done|apply Hall; lia|lia..].
    + rewrite st_bind_run, (next_chain _ _ _ _ _ _ Hrep _ _ _ _ Hc Hb). rewrite E1 in Hnum.
      destruct (infos c ids !! S b) as [j|] eqn:Hj.
      * apply (IH (S b)); [done|lia|lia|done].
      * exists i, None. split; [done|]. exists b. apply lookup_ge_None in Hj. rewrite infos_length in Hj.
        apply lookup_lt_Some in Hb as Hb'. rewrite infos_length in Hb'. assert (b = length ids) by lia.
        split_and!; [done|apply Hall; subst b; lia|lia|subst b; lia|done].
Qed.
End Find.

(** ** Changes of one chain *)
Lemma cells_of_insert L c es : (c < length L)%nat → ∀ c' p,
  cells_of (<[c := es]> L) c' p = (<[c := (λ p, es !! p)]> (cells_of L)) c' p.
Proof.
  intros Hlt c' p. unfold cells_of. destruct (decide (c' = c)) as [->|Hne].
  - by rewrite fn_lookup_insert, list_lookup_insert_eq.
  - by rewrite fn_lookup_insert_ne, list_lookup_insert_ne.
Qed.

(** The chain [c] is the only one that changed. *)
Lemma rep_one ix cs L cells free loose x c es : rep ix cs cells free loose x → (c < length L)%nat →
  (∀ p, cells c p = es !! p) → (∀ c' p, c' ≠ c → cells c' p = cells_of L c' p) →
  rep ix cs (cells_of (<[c := es]> L)) free loose x.
Proof.
  intros Hrep Hlt Hsame Hother. eapply rep_ext; [exact Hrep|]. intros c' p _. rewrite cells_of_insert by done.
  destruct (decide (c' = c)) as [->|Hne]; [by rewrite fn_lookup_insert|].
  rewrite fn_lookup_insert_ne by done. by apply Hother.
Qed.

Lemma rep_set_header ix cs cells free loose x h : rep ix cs cells free loose x →
  firstFreeOverflowSlotId h = firstFreeOverflowSlotId (indexHeader ix) → rep (set_indexHeader h ix) cs cells free loose x.
Proof. intros [H1 H2 H3 H4 H5 H6 H7 H8 H9] Hh. split; cbn; try done; [|congruence]. intros c ids Hc. destruct (H2 c ids Hc). by split. Qed.

Lemma dense_lookup (cs : list (list Z)) L c es : Forall2 (λ ids es, length ids = overflow_of es) cs L → L !! c = Some es →
  ∃ ids, cs !! c = Some ids ∧ length ids = overflow_of es.
Proof. intros Hall Hc. destruct (Forall2_lookup_r _ _ _ _ _ Hall Hc) as (ids & ? & ?). eauto. Qed.

Definition with_entries (n : Z) (h : HashIndexHeader * nat) : HashIndexHeader * nat := (set_indexEntries n h.1, h.2).

Lemma count_entry_works ix cs cells free x : rep ix cs cells free [] x →
  ∃ ix', count_entry ix = (ix', Ok ()) ∧ rep ix' cs cells free [] x ∧
    hdr ix' = with_entries (wrap 64 (indexEntries (indexHeader ix) + 1)) (hdr ix).
Proof. intros Hrep. eexists. split; [done|]. split; [|done]. by apply rep_set_header. Qed.

Lemma hdr_entries ix ix' : hdr ix' = hdr ix → indexEntries (indexHeader ix') = indexEntries (indexHeader ix).
Proof. unfold hdr, set_firstFreeOverflowSlotId. by intros [=]. Qed.

(** ** Adding an entry *)
Lemma append_room (es : list SlotEntry) e b n : n = overflow_of es → (b ≤ n)%nat → (b * cap ≤ length es < S b * cap)%nat →
  b = n ∧ overflow_of (es ++ [e]) = n.
Proof.
  intros Hl Hle Hb. pose proof cap_bounds. unfold overflow_of in *. rewrite length_app. cbn [length].
  replace (length es + 1 - 1)%nat with (length es) by lia.
  assert (length es / cap = b)%nat as Ediv by (symmetry; apply (Nat.div_unique _ _ _ (length es - b * cap)); lia).
  assert ((length es - 1) / cap ≤ length es / cap)%nat by (apply Nat.Div0.div_le_mono; lia). lia.
Qed.

Lemma append_full (es : list SlotEntry) e b : length es = (S b * cap)%nat → overflow_of (es ++ [e]) = S b.
Proof.
  intros Hb. pose proof cap_bounds. unfold overflow_of. rewrite length_app, Hb. cbn [length].
  replace (S b * cap + 1 - 1)%nat with (S b * cap)%nat by lia. by apply Nat.div_mul; lia.
Qed.

Lemma snoc_cells (cell : nat → option SlotEntry) es e : (∀ p, cell p = es !! p) → ∀ p, <[length es := Some e]> cell p = (es ++ [e]) !! p.
Proof.
  intros Hd p. destruct (decide (p = length es)) as [->|Hne].
  - by rewrite fn_lookup_insert, list_lookup_middle.
  - rewrite fn_lookup_insert_ne, Hd by done. destruct (decide (p < length es)%nat); [by rewrite lookup_app_l|].
    rewrite !lookup_ge_None_2; [done|rewrite length_app; cbn; lia|lia].
Qed.

Lemma write_slot_run i f ix : write_slot i f ix = (update_slot i f ix, Ok ()).
Proof. done. Qed.

Section Append.
Variables (ix : InMemHashIndex) (L : list (list SlotEntry)) (k : Key) (c : nat) (es : list SlotEntry).
Hypothesis Hdense : dense ix L.
Hypothesis Hc : L !! c = Some es.
Hypothesis Hprimary : getPrimarySlotIdForHash (indexHeader ix) (hash k) = Z.of_nat c.

(** An entry is there already, or it becomes the last one of its chain. *)
Lemma appendInternal_works isVisible v :
  post (appendInternal grows isVisible k v ix) (λ ix' added,
    if added then (∀ e, e ∈ es → matches isVisible k e = false) ∧ dense ix' (<[c := es ++ [mkSlotEntry k v]]> L) ∧
      hdr ix' = with_entries (wrap 64 (indexEntries (indexHeader ix) + 1)) (hdr ix)
    else ix' = ix ∧ ∃ e, e ∈ es ∧ matches isVisible k e = true).
Proof.
  destruct Hdense as (cs & free & Hrep & Hall). destruct (dense_lookup _ _ _ _ Hall Hc) as (ids & Hids & Hlen).
  pose proof (lookup_lt_Some _ _ _ Hc) as Hlt. pose proof (lookup_lt_Some _ _ _ Hids) as Hlt'.
  pose proof (cells_of_chain _ _ _ Hc) as Hd. pose proof (rep_chain_length _ _ _ _ _ _ _ _ Hrep Hids).
  destruct (findEntry_works ix cs _ free phantom Hrep c ids es Hids Hd k isVisible (chain_fuel ix) 0 (mkSlotInfo (Z.of_nat c) PRIMARY))
    as (i & pos & Hrun & b & Hb & Hf); [done|unfold chain_fuel; lia|lia|lia|].
  unfold appendInternal, primarySlot. st_run. rewrite Hprimary, Hrun.
  destruct (dense_slot _ _ _ _ _ _ _ _ _ _ _ Hrep Hids Hd Hb) as (sl & Hr & _ & _ & Hn & _).
  rewrite st_bind_run, Hr. destruct pos as [p|].
  { cbn. split; [done|]. destruct Hf as (_ & e & He & Hm). exists e. split; [by eapply list_elem_of_lookup_2|done]. }
  destruct Hf as (Hno & Hrange & Hfull). pose proof (lookup_lt_Some _ _ _ Hb) as Hbl. rewrite infos_length in Hbl.
  set (e := mkSlotEntry k v) in *. rewrite Hn. case_decide as Hroom.
  - destruct (append_room es e b (length ids)) as [_ Hov]; [done|lia|lia|].
    rewrite st_bind_run, write_slot_run.
    pose proof (rep_put _ _ _ _ _ _ Hrep c ids b i ((length es - b * cap) `min` cap)%nat e Hids Hb Hroom) as Hput.
    replace (b * cap + (length es - b * cap) `min` cap)%nat with (length es) in Hput by lia.
    change (fingerprint_of (key e)) with (fingerprint_of k) in Hput.
    apply (rep_one _ _ L _ _ _ _ c (es ++ [e])) in Hput; [|done| |].
    + destruct (count_entry_works _ _ _ _ _ Hput) as (ix' & Hcount & Hrep' & Hhdr).
      rewrite st_bind_run, Hcount. cbn [post mret stM_ret]. split_and!; [done| |].
      * exists cs, free. split; [done|]. rewrite <- (list_insert_id cs c ids Hids). by apply Forall2_insert.
      * rewrite Hhdr, hdr_update. by destruct (update_slot_lengths i (put_entry ((length es - b * cap) `min` cap)%nat e (fingerprint_of k)) ix) as (_ & _ & -> & _).
    + intros p. rewrite fn_lookup_insert. by apply snoc_cells.
    + intros c' p Hne. by rewrite fn_lookup_insert_ne.
  - assert (length es = S b * cap)%nat as Hes by lia. specialize (Hfull Hes). subst b.
    unfold insertToNewOvfSlot. eapply post_bind; [eapply post_bind; [by eapply allocate_works|]|].
    { intros ix1 id (free' & Hrep1 & Hh1). rewrite st_bind_run, !write_slot_run.
      pose proof (rep_extend _ _ _ _ _ _ Hrep1 c ids id i Hids Hb eq_refl) as Hext.
      set (ix2 := update_slot i _ ix1) in *. change (fingerprint_of k) with (fingerprint_of (key e)).
      assert (<[c := ids ++ [id]]> cs !! c = Some (ids ++ [id])) as Hids2 by by apply list_lookup_insert_eq.
      pose proof (rep_put _ _ _ _ _ _ Hext c (ids ++ [id]) (S (length ids)) (mkSlotInfo id OVF) 0 e Hids2) as Hput.
      cbn [post]. instantiate (1 := λ ix' _, ∃ cs' free', rep ix' cs' (cells_of (<[c := es ++ [e]]> L)) free' [] phantom ∧
        Forall2 (λ ids es, length ids = overflow_of es) cs' (<[c := es ++ [e]]> L) ∧ hdr ix' = hdr ix).
      eexists _, free'. split_and!.
      - eapply (rep_one _ _ L _ _ _ _ c (es ++ [e])); [apply Hput|done| |].
        + rewrite infos_S, list_lookup_middle; done.
        + pose proof cap_bounds. lia.
        + intros p. rewrite fn_lookup_insert. replace (S (length ids) * cap + 0)%nat with (length es) by lia. by apply snoc_cells.
        + intros c' p Hne. by rewrite fn_lookup_insert_ne.
      - apply Forall2_insert; [done|]. rewrite length_app, (append_full _ _ (length ids)) by done. cbn. lia.
      - rewrite hdr_update. unfold ix2. by rewrite hdr_update. }
    intros ix3 _ (cs3 & free3 & Hrep3 & Hall3 & Hh3).
    destruct (count_entry_works _ _ _ _ _ Hrep3) as (ix' & Hcount & Hrep' & Hhdr).
    rewrite st_bind_run, Hcount. cbn [post mret stM_ret]. split_and!; [done|by exists cs3, free3|].
    by rewrite Hhdr, Hh3, (hdr_entries _ _ Hh3).
Qed.

Lemma lookup_works isVisible : (indexEntries (indexHeader ix) = 0 → es = []) →
  ∃ r, lookup isVisible k ix = (ix, Ok r) ∧
    match r with
    | Some v => ∃ e, e ∈ es ∧ matches isVisible k e = true ∧ value e = v
    | None => ∀ e, e ∈ es → matches isVisible k e = false
    end.
Proof.
  intros Hzero. destruct Hdense as (cs & free & Hrep & Hall). destruct (dense_lookup _ _ _ _ Hall Hc) as (ids & Hids & Hlen).
  pose proof (cells_of_chain _ _ _ Hc) as Hd. pose proof (rep_chain_length _ _ _ _ _ _ _ _ Hrep Hids).
  unfold lookup, primarySlot. st_run. case_decide as Hz.
  { exists None. split; [done|]. rewrite (Hzero Hz). by intros e ?%not_elem_of_nil. }
  destruct (findEntry_works ix cs _ free phantom Hrep c ids es Hids Hd k isVisible (chain_fuel ix) 0 (mkSlotInfo (Z.of_nat c) PRIMARY))
    as (i & pos & Hrun & b & Hb & Hf); [done|unfold chain_fuel; lia|lia|lia|].
  rewrite st_bind_run, Hprimary, Hrun.
  destruct (dense_slot _ _ _ _ _ _ _ _ _ _ _ Hrep Hids Hd Hb) as (sl & Hr & _ & Hh & _).
  destruct pos as [p|]; [|exists None; split; [done|apply Hf]].
  destruct Hf as (Hp & e & He & Hm). destruct (ho_entry _ _ Hh p e Hp He) as [E _].
  exists (Some (value e)). rewrite st_bind_run, Hr, E. split; [done|].
  exists e. split_and!; [by eapply list_elem_of_lookup_2|done|done].
Qed.

(** ** Deleting an entry *)
Lemma match_in_slot_works b sl : holds sl (λ j, es !! (b * cap + j)%nat) → ∀ todo pos,
  (pos + todo = cap)%nat →
  (∃ p e, match_in_slot todo pos sl k (fingerprint_of k) = Ok (Some p) ∧ (p < cap)%nat ∧
     es !! (b * cap + p)%nat = Some e ∧ key e = k) ∨
  (match_in_slot todo pos sl k (fingerprint_of k) = Ok None ∧
     ∀ p e, (pos ≤ p < pos + todo)%nat → es !! (b * cap + p)%nat = Some e → key e ≠ k).
Proof.
  intros Hh. induction todo as [|todo IH]; intros pos Hle; cbn [match_in_slot].
  - right. split; [done|]. lia.
  - assert (∀ r, match_in_slot todo (S pos) sl k (fingerprint_of k) = r →
      (∀ e, es !! (b * cap + pos)%nat = Some e → key e ≠ k) →
      (∃ p e, r = Ok (Some p) ∧ (p < cap)%nat ∧ es !! (b * cap + p)%nat = Some e ∧ key e = k) ∨
      (r = Ok None ∧ ∀ p e, (pos ≤ p < pos + S todo)%nat → es !! (b * cap + p)%nat = Some e → key e ≠ k)) as Hrest.
    { intros r <- Hno. destruct (IH (S pos)) as [(p & e' & ? & ? & ? & ?)|[E Hno']]; [lia|left; by eauto 10|right].
      split; [done|]. intros p e' Hp Hl. destruct (decide (p = pos)) as [->|]; [by apply Hno|].
      apply (Hno' p e'); [lia|done]. }
    rewrite (ho_valid _ _ Hh pos). case_bool_decide as Hv.
    + destruct Hv as [Hpos [e He]]. destruct (ho_entry _ _ Hh pos e Hpos He) as [-> ->]. cbn [deref mbind result_bind].
      destruct (decide (k = key e)) as [->|Hne].
      * rewrite !bool_decide_eq_true_2 by done. left. by exists pos, e.
      * rewrite (bool_decide_eq_false_2 (k = key e)), andb_false_r by done. apply Hrest; [done|]. congruence.
    + apply Hrest; [done|]. intros e He. destruct Hv. split; [lia|by eexists].
Qed.

Section Delete.
Variables (cs : list (list Z)) (free : list Z) (x : Z) (ids : list Z).
Hypothesis Hrep : rep ix cs (cells_of L) free [] x.
Hypothesis Hids : cs !! c = Some ids.
Hypothesis Hlen : length ids = overflow_of es.

Lemma find_deleted_works : ∀ fuel b i, infos c ids !! b = Some i → (length ids < b + fuel)%nat →
  (∀ p e, (p < b * cap)%nat → es !! p = Some e → key e ≠ k) →
  (∃ b' i' p e, find_deleted fuel i k (fingerprint_of k) ix = (ix, Ok (Some (i', p))) ∧ infos c ids !! b' = Some i' ∧
     (p < cap)%nat ∧ es !! (b' * cap + p)%nat = Some e ∧ key e = k) ∨
  (find_deleted fuel i k (fingerprint_of k) ix = (ix, Ok None) ∧ ∀ e, e ∈ es → key e ≠ k).
Proof.
  pose proof (overflow_of_bounds es) as [Hob _]. pose proof (cells_of_chain _ _ _ Hc) as Hd.
  induction fuel as [|fuel IH]; intros b i Hb Hf Hbefore.
  { apply lookup_lt_Some in Hb. rewrite infos_length in Hb. lia. }
  cbn [find_deleted]. destruct (dense_slot _ _ _ _ _ _ _ _ _ _ _ Hrep Hids Hd Hb) as (sl & Hr & Hn & Hh & _).
  rewrite st_bind_run, Hr, st_bind_run.
  destruct (match_in_slot_works b sl Hh cap 0) as [(p & e & -> & Hp & He & Hk)|[-> Hno]]; [lia| |].
  - left. exists b, i, p, e. done.
  - cbn [st_lift]. rewrite st_bind_run, (next_chain _ _ _ _ _ _ Hrep _ _ _ _ Hids Hb).
    assert (∀ p e, (p < S b * cap)%nat → es !! p = Some e → key e ≠ k) as Hbefore'.
    { intros p e Hp He. destruct (decide (p < b * cap)%nat); [by eapply Hbefore|].
      apply (Hno (p - b * cap)%nat); [lia|by replace (b * cap + (p - b * cap))%nat with p by lia]. }
    destruct (infos c ids !! S b) as [j|] eqn:Hj; [apply (IH (S b)); [done|lia|done]|].
    right. split; [done|]. intros e (p & He)%list_elem_of_lookup. apply (Hbefore' p); [|done].
    apply lookup_ge_None in Hj. rewrite infos_length in Hj. apply lookup_lt_Some in He.
    rewrite <- Hlen in Hob. nia.
Qed.

Lemma last_chained_works : ∀ fuel b i, infos c ids !! b = Some i → (length ids < b + fuel)%nat →
  ∃ last, infos c ids !! length ids = Some last ∧ last_chained fuel i ix = (ix, Ok last).
Proof.
  induction fuel as [|fuel IH]; intros b i Hb Hf.
  { apply lookup_lt_Some in Hb. rewrite infos_length in Hb. lia. }
  cbn [last_chained]. rewrite st_bind_run, (next_chain _ _ _ _ _ _ Hrep _ _ _ _ Hids Hb).
  destruct (infos c ids !! S b) as [j|] eqn:Hj; [apply (IH (S b)); [done|lia]|].
  exists i. split; [|done]. apply lookup_ge_None in Hj. apply lookup_lt_Some in Hb as Hb'.
  rewrite infos_length in *. by replace (length ids) with b by lia.
Qed.

Lemma remove_cells (l : list SlotEntry) z q : (q ≤ length l)%nat → ∀ p,
  <[length l := None]> (<[q := Some z]> (λ p, (l ++ [z]) !! p)) p = <[q := z]> l !! p.
Proof.
  intros Hq p. destruct (decide (p = length l)) as [->|Hne].
  - rewrite fn_lookup_insert. symmetry. apply lookup_ge_None. rewrite length_insert. lia.
  - rewrite fn_lookup_insert_ne by done. destruct (decide (p = q)) as [->|Hne'].
    + rewrite fn_lookup_insert. symmetry. apply list_lookup_insert_eq. lia.
    + rewrite fn_lookup_insert_ne, list_lookup_insert_ne by done.
      destruct (decide (p < length l)%nat); [by rewrite lookup_app_l|].
      rewrite !lookup_ge_None_2; [done|lia|rewrite length_app; cbn; lia].
Qed.

Lemma remove_entry_works b i p l z : es = l ++ [z] → infos c ids !! b = Some i → (p < cap)%nat →
  (b * cap + p ≤ length l)%nat →
  ∃ last lastSlot ix', infos c ids !! length ids = Some last ∧ read_slot last ix = (ix, Ok lastSlot) ∧
    remove_entry i p last lastSlot ix = (ix', Ok ()) ∧
    rep ix' cs (cells_of (<[c := <[(b * cap + p)%nat := z]> l]> L)) free [] x ∧ hdr ix' = hdr ix.
Proof.
  intros Hes Hb Hp Hq. pose proof (overflow_of_bounds es) as [Hob1 Hob2]. pose proof (cells_of_chain _ _ _ Hc) as Hd.
  pose proof (lookup_lt_Some _ _ _ Hc) as Hlt. assert (es ≠ []) as Hne%Hob2 by (rewrite Hes; by destruct l).
  rewrite <- Hlen in *. destruct (infos c ids !! length ids) as [last|] eqn:Hlast.
  2:{ apply lookup_ge_None in Hlast. rewrite infos_length in Hlast. lia. }
  destruct (dense_slot _ _ _ _ _ _ _ _ _ _ _ Hrep Hids Hd Hlast) as (sl & Hr & _ & Hh & Hn & _).
  assert (length es = S (length l)) as El by (rewrite Hes, length_app; cbn; lia).
  assert (length ids * cap + (numEntries (header sl) - 1) = length l)%nat as Epos by lia.
  exists last, sl. unfold remove_entry. case_decide as Hmove.
  - destruct (ho_entry _ _ Hh (numEntries (header sl) - 1) z) as [-> ->]; [lia| |].
    { rewrite Epos, Hes. by apply list_lookup_middle. }
    rewrite st_bind_run, dassert_true by (apply bool_decide_eq_true_2; lia). cbn [deref].
    eexists. split_and!; [done|done|reflexivity| |].
    + pose proof (rep_put _ _ _ _ _ _ Hrep c ids b i p z Hids Hb Hp) as H1.
      pose proof (rep_invalid _ _ _ _ _ _ H1 c ids (length ids) last (numEntries (header sl) - 1) Hids Hlast ltac:(lia)) as H2.
      eapply rep_one; [exact H2|done| |].
      * intros q. rewrite fn_lookup_insert, fn_lookup_insert, Epos, <- remove_cells by done.
        unfold fn_insert, insert. repeat case_decide; try done. by rewrite Hd, Hes.
      * intros c' q Hne'. by rewrite !fn_lookup_insert_ne.
    + rewrite !hdr_update. done.
  - assert (i = last) as -> by (destruct (decide (i = last)); [done|]; destruct Hmove; left; congruence).
    destruct (rep_infos_inj _ _ _ _ _ _ Hrep c c ids ids b (length ids) last Hids Hids Hb Hlast) as [_ ->].
    assert (p = numEntries (header sl) - 1)%nat as -> by (assert (¬ Z.of_nat p ≠ Z.of_nat (numEntries (header sl)) - 1) by tauto; lia).
    eexists. split_and!; [done|done|reflexivity| |apply hdr_update].
    pose proof (rep_invalid _ _ _ _ _ _ Hrep c ids (length ids) last (numEntries (header sl) - 1) Hids Hlast Hp) as H1.
    rewrite Epos in H1. rewrite Epos, (list_insert_ge l) by lia.
    eapply rep_one; [exact H1|done| |].
    + intros q. rewrite fn_lookup_insert. destruct (decide (q = length l)) as [->|Hne'].
      * rewrite fn_lookup_insert. symmetry. apply lookup_ge_None. lia.
      * rewrite fn_lookup_insert_ne, Hd, Hes by done. destruct (decide (q < length l)%nat); [by rewrite lookup_app_l|].
        rewrite !lookup_ge_None_2; [done|lia|rewrite length_app; cbn; lia].
    + intros c' q Hne'. by rewrite fn_lookup_insert_ne.
Qed.
End Delete.

Lemma remove_permutation (l : list SlotEntry) z q e : (l ++ [z]) !! q = Some e → l ++ [z] ≡ₚ e :: <[q := z]> l.
Proof.
  intros Hq. destruct (decide (q < length l)%nat) as [Hlt|Hge].
  - rewrite lookup_app_l in Hq by done.
    rewrite <- (take_drop_middle l q e Hq) at 1. rewrite insert_take_drop by done.
    rewrite <- app_assoc. cbn [app]. rewrite <- Permutation_middle. f_equiv. f_equiv.
    by rewrite (Permutation_app_comm _ [z]).
  - pose proof (lookup_lt_Some _ _ _ Hq) as Hl. rewrite length_app in Hl. cbn in Hl.
    rewrite list_lookup_middle in Hq by lia. injection Hq as ->. rewrite list_insert_ge by lia.
    symmetry. apply Permutation_cons_append.
Qed.

(** One of the entries with the key goes away. *)
Lemma deleteKey_works : (indexEntries (indexHeader ix) = 0 → es = []) →
  ∃ ix' deleted, deleteKey k ix = (ix', Ok deleted) ∧
    if deleted : bool
    then ∃ e es', key e = k ∧ es ≡ₚ e :: es' ∧ dense ix' (<[c := es']> L) ∧ hdr ix' = hdr ix
    else ix' = ix ∧ ∀ e, e ∈ es → key e ≠ k.
Proof.
  intros Hzero. destruct Hdense as (cs & free & Hrep & Hall). destruct (dense_lookup _ _ _ _ Hall Hc) as (ids & Hids & Hlen).
  pose proof (rep_chain_length _ _ _ _ _ _ _ _ Hrep Hids) as Hol. pose proof (lookup_lt_Some _ _ _ Hc) as Hlt.
  unfold deleteKey, primarySlot. st_run. case_decide as Hz.
  { exists ix, false. split; [done|]. split; [done|]. rewrite (Hzero Hz). by intros e ?%not_elem_of_nil. }
  rewrite st_bind_run, Hprimary.
  destruct (find_deleted_works cs free phantom ids Hrep Hids Hlen (chain_fuel ix) 0 (mkSlotInfo (Z.of_nat c) PRIMARY))
    as [(b & i & p & e & -> & Hb & Hp & He & Hk)|[-> Hno]]; [done|unfold chain_fuel; lia|lia| |by exists ix, false].
  destruct (last_chained_works cs free phantom ids Hrep Hids Hlen (chain_fuel ix) b i Hb) as (last & Hlast & Hrun).
  { unfold chain_fuel. lia. }
  rewrite st_bind_run, Hrun.
  assert (∃ l z, es = l ++ [z]) as (l & z & Hes).
  { destruct (exists_last (l := es)) as (l & z & ->); [|by exists l, z]. intros E. by rewrite E in He. }
  assert (b * cap + p ≤ length l)%nat as Hq by (apply lookup_lt_Some in He; rewrite Hes, length_app in He; cbn in He; lia).
  destruct (remove_entry_works cs free phantom ids Hrep Hids Hlen b i p l z Hes Hb Hp Hq)
    as (last' & lastSlot & ix1 & Hlast' & Hr & Hrem & Hrep1 & Hh1).
  assert (last' = last) as -> by congruence. rewrite st_bind_run, Hr, st_bind_run, Hrem.
  set (es' := <[(b * cap + p)%nat := z]> l) in *.
  assert (<[c := es']> L !! c = Some es') as Hc' by by apply list_lookup_insert_eq.
  pose proof (cells_of_chain _ _ _ Hc') as Hd'.
  destruct (dense_slot _ _ _ _ _ _ _ _ _ _ _ Hrep1 Hids Hd' Hlast) as (sl1 & Hr1 & _ & _ & Hn1 & _).
  assert (length es' = length l) as El by apply length_insert.
  pose proof (overflow_of_ids _ _ _ _ _ Hrep1 c ids es' Hids Hd') as Hov.
  assert (∃ ix2 cs2 free2, (if decide (numEntries (header sl1) = 0%nat)
      then reclaimOverflowSlots (mkSlotInfo (Z.of_nat c) PRIMARY) else mret ()) ix1 = (ix2, Ok ()) ∧
      rep ix2 cs2 (cells_of (<[c := es']> L)) free2 [] phantom ∧
      Forall2 (λ ids es, length ids = overflow_of es) cs2 (<[c := es']> L) ∧ hdr ix2 = hdr ix1) as (ix2 & cs2 & free2 & Hrun2 & Hrep2 & Hall2 & Hh2).
  { case_decide as Hempty.
    - destruct (reclaim_works _ _ _ _ _ Hrep1 c ids es' Hids Hd' 0 (mkSlotInfo (Z.of_nat c) PRIMARY)) as (ix2 & free2 & ? & ? & ?); [done|lia|].
      exists ix2, (<[c := firstn (overflow_of es') ids]> cs), free2. split_and!; [done..| |done].
      apply Forall2_insert; [done|]. rewrite length_firstn. lia.
    - exists ix1, cs, free. split_and!; [done..| |done]. rewrite <- (list_insert_id cs c ids Hids). apply Forall2_insert; [done|].
      pose proof (overflow_of_bounds es') as [Hob _]. nia. }
  rewrite st_bind_run, Hr1, st_bind_run, Hrun2. exists ix2, true. split; [done|].
  exists e, es'. split_and!; [done| |by exists cs2, free2|congruence].
  rewrite Hes in He |- *. by apply remove_permutation.
Qed.
End Append.
End Entries.
