(* ===== verification/InMemHashIndexSplit.v ===== *)
(** * Splitting a slot

    The entries of one chain are distributed over two: the loop moves an entry to the new
    chain, or forward into the first gap.  Its invariant describes both chains after any
    number of entries; in the end both are dense, and the entries are those there were. *)

From stdpp Require Import functions.
From S2P Require Import Prelude.
From S2P Require Import HashSlot.
From S2P Require Import InMemHashIndex.
From S2P Require Import InMemHashIndexFacts.
From S2P Require Import InMemHashIndexOps.
From S2P Require Import InMemHashIndexEntries.

(** ** The cells of the chain that is split *)
Section Cells.
Context {A : Type} (stay : A → bool) (es : list A).

Definition stays (k : nat) : list A := filter (λ e, stay e) (take k es).
Definition moves (k : nat) : list A := filter (λ e, ¬ stay e) (take k es).

(** After [k] entries: those that stayed, a gap, the others. *)
Definition mid_cell (k p : nat) : option A :=
  if decide (p < length (stays k))%nat then stays k !! p else if decide (p < k)%nat then None else es !! p.

Lemma stays_S k e : es !! k = Some e → stays (S k) = stays k ++ (if stay e then [e] else []).
Proof. intros He. unfold stays. rewrite (take_S_r _ _ _ He), filter_app, filter_cons. case_decide as Hd; destruct (stay e); try done; by destruct Hd. Qed.

Lemma moves_S k e : es !! k = Some e → moves (S k) = moves k ++ (if stay e then [] else [e]).
Proof. intros He. unfold moves. rewrite (take_S_r _ _ _ He), filter_app, filter_cons. case_decide as Hd; destruct (stay e); try done; exfalso; apply Hd; auto. Qed.

Lemma stays_length k : (length (stays k) ≤ k)%nat.
Proof. unfold stays. etrans; [apply length_filter|]. rewrite length_take. lia. Qed.

Lemma stays_moves k : (k ≤ length es)%nat → (length (stays k) + length (moves k) = k)%nat.
Proof.
  intros Hk. rewrite <- length_app. unfold stays, moves. rewrite filter_app_complement, length_take. lia.
Qed.

Lemma split_permutation : es ≡ₚ stays (length es) ++ moves (length es).
Proof. unfold stays, moves. by rewrite filter_app_complement, firstn_all. Qed.

Lemma mid_cell_0 p : mid_cell 0 p = es !! p.
Proof. unfold mid_cell. pose proof (stays_length 0). by rewrite !decide_False by lia. Qed.

Lemma mid_cell_now k : mid_cell k k = es !! k.
Proof. unfold mid_cell. pose proof (stays_length k). by rewrite !decide_False by lia. Qed.

Lemma mid_cell_done k p : (k ≤ length es)%nat → (p < k ∨ k = length es)%nat → mid_cell k p = stays k !! p.
Proof.
  intros Hk Hp. unfold mid_cell. pose proof (stays_length k). repeat case_decide; try done.
  - symmetry. apply lookup_ge_None. lia.
  - rewrite !lookup_ge_None_2 by lia. done.
Qed.

Lemma mid_cell_keep k e : es !! k = Some e → stay e = true → length (stays k) = k → ∀ p, mid_cell k p = mid_cell (S k) p.
Proof.
  intros He Hs Hl p. unfold mid_cell. rewrite (stays_S _ _ He), Hs, length_app, Hl. cbn [length].
  destruct (decide (p < k)%nat); [rewrite !decide_True by lia; by rewrite lookup_app_l by lia|].
  destruct (decide (p = k)) as [->|]; [|by rewrite !decide_False by lia].
  rewrite decide_True by lia. rewrite He. symmetry. apply list_lookup_middle. lia.
Qed.

Lemma mid_cell_forward k e : es !! k = Some e → stay e = true → (length (stays k) < k)%nat → ∀ p,
  <[k := None]> (<[length (stays k) := Some e]> (mid_cell k)) p = mid_cell (S k) p.
Proof.
  intros He Hs Hl p. unfold mid_cell. rewrite (stays_S _ _ He), Hs, length_app. cbn [length].
  destruct (decide (p = k)) as [->|Hk].
  { rewrite fn_lookup_insert. rewrite decide_False by lia. by rewrite decide_True by lia. }
  rewrite fn_lookup_insert_ne by done. destruct (decide (p = length (stays k))) as [->|Hp].
  { rewrite fn_lookup_insert, decide_True by lia. symmetry. by apply list_lookup_middle. }
  rewrite fn_lookup_insert_ne by done. destruct (decide (p < length (stays k))%nat).
  { rewrite !decide_True by lia. by rewrite lookup_app_l. }
  rewrite !(decide_False (P := (p < length (stays k) + 1)%nat)) by lia.
  destruct (decide (p < k)%nat); [by rewrite !decide_True by lia|by rewrite !decide_False by lia].
Qed.

Lemma mid_cell_move k e : es !! k = Some e → stay e = false → ∀ p, <[k := None]> (mid_cell k) p = mid_cell (S k) p.
Proof.
  intros He Hs p. unfold mid_cell. rewrite (stays_S _ _ He), Hs, app_nil_r. pose proof (stays_length k).
  destruct (decide (p = k)) as [->|Hk].
  { rewrite fn_lookup_insert. rewrite decide_False by lia. by rewrite decide_True by lia. }
  rewrite fn_lookup_insert_ne by done. destruct (decide (p < length (stays k))%nat); [done|].
  destruct (decide (p < k)%nat); [by rewrite !decide_True by lia|by rewrite !decide_False by lia].
Qed.
End Cells.

Section Split.
Context `{HashKeyLaws}.
#[local] Abbreviation cap := getSlotCapacity.

Variable grows : SlotType → nat → nat → bool.
Hypothesis grows_bound : ∀ ty size n, grows ty size n = true → Z.of_nat (size + n) ≤ MAX_SLOTS.

#[local] Abbreviation post := (post grows).

(** ** Finding the gap *)
Lemma find_gap_works ix cs cells free loose x c ids s : rep ix cs cells free loose x → cs !! c = Some ids →
  (∀ q, (q < s)%nat → is_Some (cells c q)) → cells c s = None → (s < cap * S (length ids))%nat →
  ∀ fuel b p i, infos c ids !! b = Some i → (p < cap)%nat → (b * cap + p ≤ s < b * cap + p + fuel)%nat →
  ∃ b' p' i', infos c ids !! b' = Some i' ∧ (p' < cap)%nat ∧ (b' * cap + p' = s)%nat ∧
    find_gap fuel i p ix = (ix, Ok (i', p')).
Proof.
  intros Hrep Hc Hbelow Hs Hend. induction fuel as [|fuel IH]; intros b p i Hb Hp Hle; [lia|]. cbn [find_gap].
  destruct (read_chain _ _ _ _ _ _ Hrep _ _ _ _ Hc Hb) as (sl & Hr & _ & Hh). rewrite st_bind_run, Hr.
  rewrite (ho_valid _ _ Hh p). case_bool_decide as Hv.
  - assert (b * cap + p ≠ s)%nat as Hne by (intros E; destruct Hv as [_ [? Hv]]; rewrite E, Hs in Hv; done).
    case_decide as Hlast.
    + rewrite st_bind_run, (next_chain _ _ _ _ _ _ Hrep _ _ _ _ Hc Hb).
      destruct (infos c ids !! S b) as [j|] eqn:Hj.
      * rewrite st_bind_run, dassert_true by by apply bool_decide_eq_true_2. cbn [default].
        apply (IH (S b) 0%nat); [done|lia..].
      * apply lookup_ge_None in Hj. rewrite infos_length in Hj. apply lookup_lt_Some in Hb. rewrite infos_length in Hb. nia.
    + apply (IH b (p + 1)%nat); [done|lia..].
  - exists b, p, i. split_and!; [done|done| |done].
    destruct (decide (b * cap + p = s)%nat) as [|Hne]; [done|]. destruct Hv. split; [done|]. apply Hbelow. lia.
Qed.

(** ** The loop *)
Section Loop.
Variables (cs : list (list Z)) (L : list (list SlotEntry)) (c : nat) (ids : list Z) (es : list SlotEntry) (x : Z).
Variable hd : HashIndexHeader * nat.
Hypothesis Hcs : length cs = length L.
Hypothesis Hids : cs !! c = Some ids.
Hypothesis Hes : L !! c = Some es.
Hypothesis Hlen : length ids = overflow_of es.
Hypothesis Hsplit : nextSplitSlotId hd.1 = Z.of_nat c.

Definition stay (e : SlotEntry) : bool := bool_decide (Z.land (hash (key e)) (higherLevelHashMask hd.1) = Z.of_nat c).

#[local] Abbreviation c' := (length L).
#[local] Abbreviation S_ := (stays stay es).
#[local] Abbreviation M_ := (moves stay es).

(** The cells after [k] entries, and the new chain. *)
Definition mid_cells (k : nat) : nat → nat → option SlotEntry :=
  <[c := mid_cell stay es k]> (<[c' := (λ p, M_ k !! p)]> (cells_of L)).

Record mid (ix : InMemHashIndex) (k : nat) (st : SplitState) : Prop := {
  mi_done : (k ≤ length es)%nat;
  mi_header : hdr ix = hd;
  mi_rep : ∃ ids' free, rep ix (cs ++ [ids']) (mid_cells k) free [] x ∧ length ids' = overflow_of (M_ k) ∧
    infos c' ids' !! length ids' = Some (split_newSlot st) ∧ (length ids' * cap + newSlotPos st = length (M_ k))%nat ∧
    (newSlotPos st ≤ cap)%nat;
  mi_insert : ∃ b, infos c ids !! b = Some (originalSlotForInsert st) ∧ (entryPosToInsert st < cap)%nat ∧
    (b * cap + entryPosToInsert st ≤ length (S_ k))%nat ∧ (b = 0%nat ∨ b * cap < length (S_ k))%nat;
  mi_gaps : gaps st = bool_decide (length (S_ k) < k)%nat;
}.

Lemma mid_cells_c k : mid_cells k c = mid_cell stay es k.
Proof. unfold mid_cells. apply fn_lookup_insert. Qed.

Lemma c_lt : (c < length L)%nat.
Proof. by eapply lookup_lt_Some. Qed.

Lemma mid_cells_c' k : mid_cells k c' = λ p, M_ k !! p.
Proof. unfold mid_cells. rewrite fn_lookup_insert_ne by (pose proof c_lt; lia). apply fn_lookup_insert. Qed.

Lemma ids_c ids' : (cs ++ [ids']) !! c = Some ids.
Proof. rewrite lookup_app_l; [done|]. pose proof c_lt. lia. Qed.
Lemma ids_c' ids' : (cs ++ [ids']) !! c' = Some ids'.
Proof. rewrite <- Hcs. by apply list_lookup_middle. Qed.

Lemma es_room : (length es ≤ S (length ids) * cap)%nat.
Proof. rewrite Hlen. apply overflow_of_bounds. Qed.

(** A change of the cells of the two chains. *)
Lemma rep_mid ix cs' cells free k : rep ix cs' cells free [] x → (∀ p, cells c p = mid_cell stay es k p) →
  (∀ p, cells c' p = M_ k !! p) → (∀ d, d ≠ c → d ≠ c' → cells d = cells_of L d) → rep ix cs' (mid_cells k) free [] x.
Proof.
  intros Hrep Hc Hc' Ho. eapply rep_ext; [exact Hrep|]. intros d p _. unfold mid_cells.
  destruct (decide (d = c)) as [->|Hne]; [by rewrite fn_lookup_insert|]. rewrite fn_lookup_insert_ne by done.
  destruct (decide (d = c')) as [->|Hne']; [by rewrite fn_lookup_insert|]. rewrite fn_lookup_insert_ne by done.
  by rewrite Ho.
Qed.

(** The entry at position [k] stays, and there is no gap before it. *)
Lemma mid_keep ix k st e : mid ix k st → es !! k = Some e → stay e = true → gaps st = false → mid ix (S k) st.
Proof.
  intros [H1 H2 (ids' & free & Hrep & H3 & H4 & H5 & H6) (b & H7 & H8 & H9 & H10) H11] He Hs Hg.
  pose proof (lookup_lt_Some _ _ _ He) as Hlt. pose proof (stays_length stay es k).
  rewrite Hg in H11. symmetry in H11. apply bool_decide_eq_false in H11.
  assert (M_ (S k) = M_ k) as EM by (rewrite (moves_S _ _ _ _ He), Hs; apply app_nil_r).
  assert (length (S_ (S k)) = S (length (S_ k))) as ES by (rewrite (stays_S _ _ _ _ He), Hs, length_app; cbn; lia).
  split; [lia|done| | |].
  - exists ids', free. rewrite EM. split_and!; try done. eapply rep_mid; [exact Hrep|..].
    + intros p. rewrite mid_cells_c. apply (mid_cell_keep _ _ _ e); [done..|lia].
    + intros p. by rewrite mid_cells_c', EM.
    + intros d Hd Hd'. unfold mid_cells. by rewrite !fn_lookup_insert_ne.
  - exists b. rewrite ES. split_and!; [done..|lia|]. destruct H10; [by left|right; lia].
  - rewrite Hg, ES. symmetry. apply bool_decide_eq_false_2. lia.
Qed.

Lemma hdr_masks ix : hdr ix = hd → higherLevelHashMask (indexHeader ix) = higherLevelHashMask hd.1 ∧
  nextSplitSlotId (indexHeader ix) = Z.of_nat c.
Proof. intros E. rewrite <- Hsplit, <- E. done. Qed.

(** The entry moves forward into the first gap. *)
Lemma mid_forward ix k st b pos i e : mid ix k st → infos c ids !! b = Some i → (pos < cap)%nat → k = (b * cap + pos)%nat →
  es !! k = Some e → stay e = true → gaps st = true →
  ∃ i' p', find_gap (chain_fuel ix * S cap) (originalSlotForInsert st) (entryPosToInsert st) ix = (ix, Ok (i', p')) ∧
    mid (update_slot i (on_header (setEntryInvalid pos)) (update_slot i' (put_entry p' e (fingerprint_of (key e))) ix))
      (S k) (mkSplit i' p' (split_newSlot st) (newSlotPos st) true).
Proof.
  intros [H1 H2 (ids' & free & Hrep & H3 & H4 & H5 & H6) (bi & H7 & H8 & H9 & H10) H11] Hb Hpos Hk He Hs Hg.
  pose proof (lookup_lt_Some _ _ _ He) as Hlt. pose proof (stays_length stay es k). pose proof es_room as Hroom.
  rewrite Hg in H11. symmetry in H11. apply bool_decide_eq_true in H11.
  pose proof (rep_chain_length _ _ _ _ _ _ _ _ Hrep (ids_c ids')) as Hol.
  destruct (find_gap_works ix _ _ _ _ _ c ids (length (S_ k)) Hrep (ids_c ids')) with (fuel := (chain_fuel ix * S cap)%nat)
    (b := bi) (p := entryPosToInsert st) (i := originalSlotForInsert st) as (b' & p' & i' & Hb' & Hp' & Epos & Hrun); try done.
  { intros q Hq. rewrite mid_cells_c. unfold mid_cell. rewrite decide_True by done. by apply lookup_lt_is_Some. }
  { rewrite mid_cells_c. unfold mid_cell. rewrite decide_False by lia. by rewrite decide_True. }
  { nia. }
  { unfold chain_fuel. nia. }
  exists i', p'. split; [done|].
  pose proof (rep_put _ _ _ _ _ _ Hrep c ids b' i' p' e (ids_c ids') Hb' Hp') as Hput.
  pose proof (rep_invalid _ _ _ _ _ _ Hput c ids b i pos (ids_c ids') Hb Hpos) as Hinv.
  assert (M_ (S k) = M_ k) as EM by (rewrite (moves_S _ _ _ _ He), Hs; apply app_nil_r).
  assert (length (S_ (S k)) = S (length (S_ k))) as ES by (rewrite (stays_S _ _ _ _ He), Hs, length_app; cbn; lia).
  split; cbn [gaps originalSlotForInsert entryPosToInsert split_newSlot newSlotPos]; [lia|by rewrite !hdr_update| | |].
  - exists ids', free. rewrite EM. split_and!; try done. eapply rep_mid; [exact Hinv|..].
    + intros p. rewrite !fn_lookup_insert, mid_cells_c, <- Hk, Epos. by apply mid_cell_forward.
    + intros p. pose proof c_lt. rewrite !fn_lookup_insert_ne by lia. by rewrite mid_cells_c', EM.
    + intros d Hd Hd'. unfold mid_cells. by rewrite !fn_lookup_insert_ne.
  - exists b'. rewrite ES. split_and!; [done..|lia|]. destruct b'; [by left|right; lia].
  - rewrite ES. symmetry. apply bool_decide_eq_true_2. lia.
Qed.

Definition place (ix : InMemHashIndex) (k : nat) (new : SlotInfo) (pos : nat) : Prop :=
  ∃ ids' free, rep ix (cs ++ [ids']) (mid_cells k) free [] x ∧ hdr ix = hd ∧ infos c' ids' !! length ids' = Some new ∧
    (length ids' * cap + pos = length (M_ k))%nat ∧ (pos < cap)%nat.

Lemma next_place_works ix k st : mid ix k st → post (next_place grows st ix) (λ ix' '(new, pos), place ix' k new pos).
Proof.
  intros [H1 H2 (ids' & free & Hrep & H3 & H4 & H5 & H6) _ _]. unfold next_place. case_decide as Hfull.
  2:{ exists ids', free. split_and!; try done. lia. }
  eapply post_bind; [by eapply allocate_works|]. intros ix1 id (free' & Hrep1 & Hh1).
  rewrite st_bind_run, write_slot_run, st_bind_run.
  pose proof (rep_extend _ _ _ _ _ _ Hrep1 c' ids' id (split_newSlot st) (ids_c' ids') H4 eq_refl) as Hext.
  assert (<[c' := ids' ++ [id]]> (cs ++ [ids']) = cs ++ [ids' ++ [id]]) as Ecs.
  { rewrite insert_app_r_alt by lia. by rewrite Hcs, Nat.sub_diag. }
  rewrite Ecs in Hext.
  assert (infos c' (ids' ++ [id]) !! length ids' = Some (split_newSlot st)) as Hnew.
  { rewrite <- H4. destruct (length ids') eqn:E; [done|]. rewrite !infos_S. by rewrite lookup_app_l by lia. }
  rewrite (next_chain _ _ _ _ _ _ Hext c' _ _ _ (ids_c' _) Hnew), infos_S, list_lookup_middle by done.
  cbn [fmap option_fmap option_map]. rewrite st_bind_run, dassert_true by by apply bool_decide_eq_true_2.
  exists (ids' ++ [id]), free'. split_and!.
  - exact Hext.
  - by rewrite hdr_update, Hh1.
  - rewrite length_app, Nat.add_1_r, infos_S. by rewrite list_lookup_middle.
  - rewrite length_app. cbn. lia.
  - pose proof cap_bounds. lia.
Qed.

Lemma mid_move ix k st b pos i e ix' new newPos : mid ix k st → place ix' k new newPos →
  infos c ids !! b = Some i → (pos < cap)%nat → k = (b * cap + pos)%nat → es !! k = Some e → stay e = false →
  mid (update_slot i (on_header (setEntryInvalid pos)) (update_slot new (put_entry newPos e (fingerprint_of (key e))) ix'))
    (S k) (mkSplit (originalSlotForInsert st) (entryPosToInsert st) new (newPos + 1) true).
Proof.
  intros [H1 H2 _ (bi & H7 & H8 & H9 & H10) H11] (ids' & free & Hrep & Hh & Hnew & Epos & Hnp) Hb Hpos Hk He Hs.
  pose proof (lookup_lt_Some _ _ _ He) as Hlt. pose proof (stays_length stay es k).
  pose proof (rep_put _ _ _ _ _ _ Hrep c' ids' _ new newPos e (ids_c' ids') Hnew Hnp) as Hput.
  pose proof (rep_invalid _ _ _ _ _ _ Hput c ids b i pos (ids_c ids') Hb Hpos) as Hinv.
  assert (M_ (S k) = M_ k ++ [e]) as EM by (by rewrite (moves_S _ _ _ _ He), Hs).
  assert (S_ (S k) = S_ k) as ES by (rewrite (stays_S _ _ _ _ He), Hs; apply app_nil_r).
  pose proof c_lt.
  split; cbn [gaps originalSlotForInsert entryPosToInsert split_newSlot newSlotPos]; [lia|by rewrite !hdr_update| | |].
  - exists ids', free. split_and!.
    + eapply rep_mid; [exact Hinv|..].
      * intros p. rewrite fn_lookup_insert, (fn_lookup_insert_ne (mid_cells k)), mid_cells_c, <- Hk by lia. by apply (mid_cell_move _ _ _ e).
      * intros p. rewrite fn_lookup_insert_ne, fn_lookup_insert, Epos by lia. rewrite EM. apply snoc_cells.
        intros q. by rewrite mid_cells_c'.
      * intros d Hd Hd'. unfold mid_cells. by rewrite !fn_lookup_insert_ne.
    + rewrite EM. unfold overflow_of. rewrite length_app. cbn [length].
      apply (Nat.div_unique _ _ _ newPos); lia.
    + done.
    + rewrite EM, length_app. cbn. lia.
    + lia.
  - exists bi. rewrite ES. split_and!; try done.
  - rewrite ES. symmetry. apply bool_decide_eq_true_2. lia.
Qed.

(** A slot all of whose entries were considered has no gaps. *)
Lemma mid_no_gaps ix k st b i : mid ix k st → infos c ids !! b = Some i → (S b * cap ≤ k ∨ k = length es)%nat →
  no_gaps i ix = (ix, Ok ()).
Proof.
  intros Hmid Hb Hk. pose proof (mi_rep _ _ _ Hmid) as (ids' & free & Hrep & _).
  destruct (read_chain _ _ _ _ _ _ Hrep _ _ _ _ (ids_c ids') Hb) as (sl & Hr & _ & Hh).
  rewrite mid_cells_c in Hh. unfold no_gaps. rewrite st_bind_run, Hr.
  apply dassert_true, bool_decide_eq_true_2. destruct (holds_dense sl (drop (b * cap) (S_ k))) as [-> ->]; [|done].
  eapply holds_ext; [exact Hh|]. intros j Hj. cbn. rewrite lookup_drop. apply mid_cell_done; [apply Hmid|lia].
Qed.

Lemma split_entry_works ix k st b i pos : mid ix k st → infos c ids !! b = Some i → (pos < cap)%nat → k = (b * cap + pos)%nat →
  post (split_entry grows i pos st ix) (λ ix' r,
    match r with Some st' => mid ix' (S k) st' | None => mid ix' k st ∧ k = length es end).
Proof.
  intros Hmid Hb Hpos Hk. pose proof (mi_rep _ _ _ Hmid) as (ids' & free & Hrep & _).
  destruct (read_chain _ _ _ _ _ _ Hrep _ _ _ _ (ids_c ids') Hb) as (sl & Hr & _ & Hh).
  rewrite mid_cells_c in Hh. unfold split_entry. rewrite st_bind_run, Hr.
  rewrite (ho_valid _ _ Hh pos), <- Hk, mid_cell_now. case_bool_decide as Hv; cbn [negb].
  - destruct Hv as [_ [e He]]. destruct (ho_entry _ _ Hh pos e Hpos) as [E _]; [by rewrite <- Hk, mid_cell_now|].
    rewrite E. cbn [deref]. rewrite st_bind_run. cbn [st_lift]. rewrite st_bind_run. cbn [st_get].
    destruct (hdr_masks ix (mi_header _ _ _ Hmid)) as [-> ->].
    destruct (decide (_ = _)) as [Hs|Hs].
    + destruct (gaps st) eqn:Hg.
      * destruct (mid_forward ix k st b pos i e Hmid Hb Hpos Hk He) as (i' & p' & Hrun & Hmid'); [by apply bool_decide_eq_true_2|done|].
        rewrite st_bind_run, Hrun, st_bind_run, write_slot_run, st_bind_run, write_slot_run. exact Hmid'.
      * apply (mid_keep _ _ _ e); [done..|by apply bool_decide_eq_true_2|done].
    + eapply post_bind; [by apply (next_place_works ix k st)|]. intros ix' [new newPos] Hplace.
      rewrite st_bind_run, write_slot_run, st_bind_run, write_slot_run.
      eapply mid_move; [done..|by apply bool_decide_eq_false_2].
  - assert (k = length es) as E.
    { apply Nat.le_antisymm; [apply Hmid|]. apply Nat.nlt_ge. intros Hlt. destruct Hv. split; [done|]. by apply lookup_lt_is_Some. }
    rewrite st_bind_run, (mid_no_gaps _ _ _ _ _ Hmid Hb) by (by right). done.
Qed.

Lemma split_slot_works b i : infos c ids !! b = Some i → ∀ todo pos ix st,
  mid ix (b * cap + pos) st → (pos + todo = cap)%nat →
  post (split_slot grows todo pos i st ix) (λ ix' '(st', more),
    if more : bool then mid ix' (S b * cap) st' else mid ix' (length es) st').
Proof.
  intros Hb. induction todo as [|todo IH]; intros pos ix st Hmid Hpos; cbn [split_slot].
  - cbn [post mret stM_ret]. replace (S b * cap)%nat with (b * cap + pos)%nat by lia. done.
  - eapply post_bind; [by eapply (split_entry_works _ _ _ b); [done..|lia|done]|].
    intros ix' [st'|].
    + rewrite <- Nat.add_succ_r. intros Hmid'. apply IH; [done|lia].
    + intros [Hmid' E]. cbn. by rewrite <- E.
Qed.

Lemma split_chain_works : ∀ fuel b i ix st, infos c ids !! b = Some i → mid ix (b * cap) st → (length ids < b + fuel)%nat →
  post (split_chain grows fuel i st ix) (λ ix' st', mid ix' (length es) st').
Proof.
  induction fuel as [|fuel IH]; intros b i ix st Hb Hmid Hf.
  { apply lookup_lt_Some in Hb. rewrite infos_length in Hb. lia. }
  cbn [split_chain]. eapply post_bind.
  { apply (split_slot_works b i Hb cap 0); [by rewrite Nat.add_0_r|lia]. }
  intros ix' [st' []] Hmid'; [|exact Hmid'].
  rewrite st_bind_run, (mid_no_gaps _ _ _ _ _ Hmid' Hb) by (left; lia).
  pose proof (mi_rep _ _ _ Hmid') as (ids' & free & Hrep & _).
  rewrite st_bind_run, (next_chain _ _ _ _ _ _ Hrep _ _ _ _ (ids_c ids') Hb).
  destruct (infos c ids !! S b) as [j|] eqn:Hj; [apply (IH (S b)); [done..|lia]|].
  apply lookup_ge_None in Hj. rewrite infos_length in Hj. apply lookup_lt_Some in Hb. rewrite infos_length in Hb.
  pose proof es_room. pose proof (mi_done _ _ _ Hmid') as Hle. replace (length ids) with b in * by lia.
  cbn [post mret stM_ret]. by replace (length es) with (S b * cap)%nat by lia.
Qed.
End Loop.

Lemma mid_cells_end L c es hd d p : L !! c = Some es →
  mid_cells L c es hd (length es) d p =
  cells_of (<[c := stays (stay c hd) es (length es)]> L ++ [moves (stay c hd) es (length es)]) d p.
Proof.
  intros Hc. pose proof (lookup_lt_Some _ _ _ Hc) as Hlt. unfold mid_cells, cells_of.
  destruct (decide (d = c)) as [->|Hne].
  - rewrite fn_lookup_insert, lookup_app_l, list_lookup_insert_eq by (rewrite ?length_insert; done).
    cbn. apply mid_cell_done; [done|by right].
  - rewrite fn_lookup_insert_ne by done. destruct (decide (d = length L)) as [->|Hne'].
    + rewrite fn_lookup_insert, list_lookup_middle by (by rewrite length_insert). done.
    + rewrite fn_lookup_insert_ne by done. destruct (decide (d < length L)%nat) as [Hd|Hd].
      * by rewrite lookup_app_l, list_lookup_insert_ne by (rewrite ?length_insert; done).
      * rewrite !lookup_ge_None_2; [done|rewrite length_app, length_insert; cbn; lia|lia].
Qed.

(** ** The operation *)
Lemma increment_first o h : incrementNextSplitSlotId (set_firstFreeOverflowSlotId o h) =
  set_firstFreeOverflowSlotId o <$> incrementNextSplitSlotId h.
Proof. unfold incrementNextSplitSlotId, incrementLevel. cbn. repeat case_decide; done. Qed.

Lemma increment_works ix h' : incrementNextSplitSlotId (hdr ix).1 = Ok h' →
  ∃ h, on_indexHeader incrementNextSplitSlotId ix = (set_indexHeader h ix, Ok ()) ∧
    firstFreeOverflowSlotId h = firstFreeOverflowSlotId (indexHeader ix) ∧ h' = set_firstFreeOverflowSlotId 0 h.
Proof.
  unfold hdr. cbn [fst]. rewrite increment_first. unfold on_indexHeader. st_run.
  destruct (incrementNextSplitSlotId (indexHeader ix)) as [h|e|] eqn:E; try done. intros [= <-].
  exists h. split_and!; [done| |done].
  unfold incrementNextSplitSlotId, incrementLevel in E. repeat case_decide; inversion E; done.
Qed.

Lemma dense_length cs L : Forall2 (λ (ids : list Z) es, length ids = overflow_of es) cs L → length cs = length L.
Proof. apply Forall2_length. Qed.

Lemma splitSlot_works x ix L c es h' : dense x ix L → L !! c = Some es →
  nextSplitSlotId (indexHeader ix) = Z.of_nat c → incrementNextSplitSlotId (hdr ix).1 = Ok h' →
  post (splitSlot grows ix) (λ ix' _,
    dense x ix' (<[c := stays (stay c (hdr ix)) es (length es)]> L ++ [moves (stay c (hdr ix)) es (length es)]) ∧
    hdr ix' = (h', S (length L))).
Proof.
  intros (cs & free & Hrep & Hall) Hes Hnext Hinc. pose proof (dense_length _ _ Hall) as Hcs.
  destruct (dense_lookup _ _ _ _ Hall Hes) as (ids & Hids & Hlen). pose proof (lookup_lt_Some _ _ _ Hes) as Hlt.
  unfold splitSlot. eapply post_bind.
  { apply (add_slots_PRIMARY _ grows_bound _ _ _ _ _ _ 1 Hrep); [|lia]. intros c0 p Hc0. unfold cells_of. by rewrite lookup_ge_None_2 by lia. }
  intros ix1 _ (Hrep1 & Hh1 & Hp1 & Hi1). st_run. rewrite Hi1, Hnext.
  assert ((cs ++ [[]]) !! c = Some ids) as Hids1 by by apply lookup_app_l_Some.
  rewrite (countSlots_works _ _ _ _ _ _ _ _ Hrep1 Hids1).
  eapply post_bind.
  { pose proof (rep_chain_length _ _ _ _ _ _ _ _ Hrep1 Hids1).
    pose proof (rp_bound _ _ _ _ _ _ Hrep1) as [_ ?].
    apply (reserve_works _ grows_bound _ _ _ _ _ _ Hrep1); unfold MAX_SLOTS in *; lia. }
  intros ix2 _ (free2 & Hrep2 & Hh2). rewrite Hp1. st_run.
  set (st0 := mkSplit _ 0 _ 0 false).
  assert (hdr ix2 = ((hdr ix).1, S (length L))) as Hhd by (rewrite Hh2, Hh1, Hcs; f_equal; lia).
  assert (mid cs L c ids es x (hdr ix2) ix2 0 st0) as Hmid.
  { split; [lia|done| | |done].
    - exists [], free2. split_and!.
      + eapply rep_ext; [exact Hrep2|]. intros d p _. unfold mid_cells.
        destruct (decide (d = c)) as [->|Hne]; [rewrite fn_lookup_insert, mid_cell_0; by apply cells_of_chain|].
        rewrite fn_lookup_insert_ne by done.
        destruct (decide (d = length L)) as [->|Hne']; [|by rewrite fn_lookup_insert_ne].
        rewrite fn_lookup_insert. unfold cells_of. by rewrite lookup_ge_None_2.
      + unfold overflow_of. cbn. symmetry. apply Nat.Div0.div_0_l.
      + cbn. do 2 f_equal. lia.
      + done.
      + cbn. lia.
    - exists 0%nat. pose proof cap_bounds. split_and!; [done|cbn; lia|cbn; lia|by left]. }
  eapply post_bind.
  { refine (split_chain_works _ _ _ _ _ _ _ Hcs Hids Hes Hlen _ (chain_fuel ix2) 0 _ ix2 st0 _ Hmid _).
    - rewrite Hhd. exact Hnext.
    - done.
    - pose proof (rep_chain_length _ _ _ _ _ _ _ _ Hrep2 Hids1). unfold chain_fuel. lia. }
  intros ix3 st Hdone. destruct Hdone as [_ Hh3 (ids' & free3 & Hrep3 & Hlen' & _) (b & Hb & _ & _ & Hstart) _].
  rewrite Hhd in *. set (sts := stays _ es (length es)) in *. set (mvs := moves _ es (length es)) in *.
  assert ((cs ++ [ids']) !! c = Some ids) as Hids3 by by apply lookup_app_l_Some.
  assert (∀ p, mid_cells L c es ((hdr ix).1, S (length L)) (length es) c p = sts !! p) as Hsts.
  { intros p. rewrite mid_cells_c. apply mid_cell_done; [done|by right]. }
  pose proof (overflow_of_ids _ _ _ _ _ Hrep3 c ids sts Hids3 Hsts) as Hov.
  destruct (reclaim_works _ _ _ _ _ Hrep3 c ids sts Hids3) with (b := b) (i := originalSlotForInsert st)
    as (ix4 & free4 & Hrun4 & Hrep4 & Hh4).
  { exact Hsts. }
  { done. }
  { pose proof (overflow_of_bounds sts) as [Hob _]. destruct Hstart as [->|Hstart]; [lia|]. unfold sts in *. cbn in *. nia. }
  rewrite st_bind_run, Hrun4.
  assert (hdr ix4 = ((hdr ix).1, S (length L))) as Hhd4 by congruence.
  destruct (increment_works ix4 h') as (h4 & -> & Hfirst & ->); [by rewrite Hhd4|].
  split; [|unfold hdr in *; cbn; f_equal; congruence].
  exists (<[c := firstn (overflow_of sts) ids]> cs ++ [ids']), free4. split.
  - apply rep_set_header; [|done]. rewrite <- insert_app_l by lia. eapply rep_ext; [exact Hrep4|].
    intros d p _. by apply mid_cells_end.
  - apply Forall2_app; [|by repeat constructor]. apply Forall2_insert; [done|]. rewrite length_firstn. lia.
Qed.
End Split.
