(* ===== verification/InMemHashIndexTheorems.v ===== *)
(** * The hash index in memory is a collection of entries

    The header that linear hashing keeps and the slots that keys hash to; the invariant of
    an index; every operation implements one on the collection of all entries. *)

From stdpp Require Import functions.
From S2P Require Import Prelude.
From S2P Require Import HashSlot.
From S2P Require Import InMemHashIndex.
From S2P Require Import InMemHashIndexFacts.
From S2P Require Import InMemHashIndexOps.
From S2P Require Import InMemHashIndexEntries.
From S2P Require Import InMemHashIndexSplit.

(** ** Levels *)
Record level_ok (h : HashIndexHeader) (total : Z) : Prop := {
  lo_level : 1 ≤ currentLevel h;
  lo_mask : levelHashMask h = 2 ^ currentLevel h - 1;
  lo_higher : higherLevelHashMask h = 2 ^ (currentLevel h + 1) - 1;
  lo_next : 0 ≤ nextSplitSlotId h < 2 ^ currentLevel h;
  lo_total : total = 2 ^ currentLevel h + nextSplitSlotId h;
}.

Lemma land_mask a n : 0 ≤ n → Z.land a (2 ^ n - 1) = a mod 2 ^ n.
Proof. intros Hn. rewrite <- Z.land_ones by done. f_equal. rewrite Z.ones_equiv. lia. Qed.

Lemma mod_double a n : 0 ≤ n → a mod 2 ^ (n + 1) = a mod 2 ^ n ∨ a mod 2 ^ (n + 1) = a mod 2 ^ n + 2 ^ n.
Proof.
  intros Hn. pose proof (Z.pow_pos_nonneg 2 n ltac:(lia) Hn) as Hpos. rewrite Z.pow_add_r by lia.
  change (2 ^ 1) with 2. rewrite Z.rem_mul_r by lia.
  pose proof (Z.mod_pos_bound (a / 2 ^ n) 2 ltac:(lia)).
  assert (a / 2 ^ n mod 2 = 0 ∨ a / 2 ^ n mod 2 = 1) as [->| ->] by lia; [left|right]; lia.
Qed.

Section Level.
Variables (h : HashIndexHeader) (total : Z).
Hypothesis Hok : level_ok h total.

Lemma primary_spec hash : getPrimarySlotIdForHash h hash =
  if decide (hash mod 2 ^ currentLevel h < nextSplitSlotId h) then hash mod 2 ^ (currentLevel h + 1) else hash mod 2 ^ currentLevel h.
Proof.
  destruct Hok as [H1 H2 H3 H4 H5]. unfold getPrimarySlotIdForHash. rewrite H2, H3, !land_mask by lia.
  case_bool_decide; [by rewrite decide_True|by rewrite decide_False].
Qed.

Lemma primary_range hash : 0 ≤ getPrimarySlotIdForHash h hash < total.
Proof.
  rewrite primary_spec. destruct Hok as [H1 _ _ H4 ->].
  pose proof (Z.mod_pos_bound hash (2 ^ currentLevel h) ltac:(lia)).
  case_decide; [|lia]. destruct (mod_double hash (currentLevel h) ltac:(lia)); lia.
Qed.

(** The keys of the slot to split go there or to the new slot. *)
Lemma split_targets hash : getPrimarySlotIdForHash h hash = nextSplitSlotId h →
  Z.land hash (higherLevelHashMask h) = nextSplitSlotId h ∨ Z.land hash (higherLevelHashMask h) = total.
Proof.
  rewrite primary_spec. destruct Hok as [H1 _ H3 H4 ->]. rewrite H3, land_mask by lia.
  pose proof (Z.mod_pos_bound hash (2 ^ currentLevel h) ltac:(lia)).
  destruct (mod_double hash (currentLevel h) ltac:(lia)); case_decide; lia.
Qed.

Lemma increment_ok : total ≤ MAX_SLOTS → ∃ h', incrementNextSplitSlotId h = Ok h' ∧ level_ok h' (total + 1) ∧
  indexEntries h' = indexEntries h ∧
  (∀ hash, getPrimarySlotIdForHash h' hash =
    if decide (getPrimarySlotIdForHash h hash = nextSplitSlotId h) then Z.land hash (higherLevelHashMask h)
    else getPrimarySlotIdForHash h hash).
Proof.
  intros Hmax. pose proof primary_spec as Hspec. destruct Hok as [H1 H2 H3 H4 H5]. unfold incrementNextSplitSlotId. case_decide as Hlast.
  - assert (level_ok (set_nextSplitSlotId (nextSplitSlotId h + 1) h) (total + 1)) as Hok' by (split; cbn; lia).
    eexists. split_and!; [done..|]. intros hash.
    unfold getPrimarySlotIdForHash in *. cbn. specialize (Hspec hash). rewrite H2, H3, !land_mask in * by lia.
    pose proof (Z.mod_pos_bound hash (2 ^ currentLevel h) ltac:(lia)).
    pose proof (mod_double hash (currentLevel h) ltac:(lia)). repeat case_bool_decide; repeat case_decide; lia.
  - assert (nextSplitSlotId h = 2 ^ currentLevel h - 1) as Hn by lia.
    assert (currentLevel h + 1 + 1 < 31).
    { assert (currentLevel h < 29); [|lia]. apply (Z.pow_lt_mono_r_iff 2); [lia|lia|]. unfold MAX_SLOTS in Hmax. lia. }
    unfold incrementLevel. rewrite decide_True by done. eexists. split_and!; [done| |done|].
    + split; cbn; try lia. rewrite Z.pow_add_r by lia. lia.
    + intros hash. unfold getPrimarySlotIdForHash in *. cbn. specialize (Hspec hash). rewrite H2, H3, !land_mask in * by lia.
      pose proof (Z.mod_pos_bound hash (2 ^ currentLevel h) ltac:(lia)).
      pose proof (Z.mod_pos_bound hash (2 ^ (currentLevel h + 1)) ltac:(lia)).
      pose proof (mod_double hash (currentLevel h) ltac:(lia)).
      rewrite (bool_decide_eq_false_2 (_ < 0)) by lia.
      repeat case_bool_decide; repeat case_decide; lia.
Qed.
End Level.

(** The level for a number of slots. *)
Definition masks_ok (h : HashIndexHeader) : Prop :=
  1 ≤ currentLevel h ∧ levelHashMask h = 2 ^ currentLevel h - 1 ∧ higherLevelHashMask h = 2 ^ (currentLevel h + 1) - 1.

Lemma small_level l : 0 ≤ l → 2 ^ l ≤ MAX_SLOTS → l ≤ 28.
Proof. intros Hl Hm. apply (Z.pow_le_mono_r_iff 2); [lia|lia|]. exact Hm. Qed.

Lemma raise_level_works newNumSlots : newNumSlots ≤ MAX_SLOTS → ∀ fuel h,
  masks_ok h → 2 ^ currentLevel h ≤ newNumSlots < 2 ^ (currentLevel h + Z.of_nat fuel) →
  ∃ h', raise_level fuel newNumSlots (2 ^ currentLevel h) h = Ok (h', 2 ^ currentLevel h') ∧ masks_ok h' ∧
    2 ^ currentLevel h' ≤ newNumSlots < 2 ^ (currentLevel h' + 1) ∧
    indexEntries h' = indexEntries h ∧ firstFreeOverflowSlotId h' = firstFreeOverflowSlotId h.
Proof.
  intros Hmax. induction fuel as [|fuel IH]; intros h Hok Hnum.
  { rewrite Z.add_0_r in Hnum. lia. }
  pose proof Hok as (H1 & H2 & H3). cbn [raise_level].
  assert (2 * 2 ^ currentLevel h = 2 ^ (currentLevel h + 1)) as Edouble by (rewrite Z.pow_add_r; lia).
  rewrite wrap_id, Edouble by (unfold in_u, MAX_SLOTS in *; lia).
  case_decide as Hle; [|exists h; split_and!; try done; lia].
  assert (currentLevel h + 1 ≤ 28) by (apply small_level; lia).
  unfold incrementLevel. rewrite decide_True by lia. cbn [mbind result_bind].
  destruct (IH (mkIndexHeader (currentLevel h + 1) (2 ^ (currentLevel h + 1) - 1) (2 ^ (currentLevel h + 1 + 1) - 1) 0
    (indexEntries h) (firstFreeOverflowSlotId h))) as (h' & Hrun & ? & ? & ? & ?); cbn [currentLevel].
  - split_and!; cbn; lia.
  - split; [lia|]. replace (currentLevel h + 1 + Z.of_nat fuel) with (currentLevel h + Z.of_nat (S fuel)) by lia. lia.
  - exists h'. done.
Qed.

Lemma header_for_ok newNumSlots h : masks_ok h → 2 ^ currentLevel h ≤ newNumSlots ≤ MAX_SLOTS →
  ∃ h', header_for newNumSlots h = Ok h' ∧ level_ok h' newNumSlots ∧
    indexEntries h' = indexEntries h ∧ firstFreeOverflowSlotId h' = firstFreeOverflowSlotId h.
Proof.
  intros Hok Hnum. destruct (raise_level_works newNumSlots ltac:(lia) 64 h Hok) as (h1 & Hrun & (H1 & H2 & H3) & Hr & ? & ?).
  { split; [lia|]. destruct Hok as (? & _ & _). apply Z.le_lt_trans with MAX_SLOTS; [lia|]. unfold MAX_SLOTS.
    apply Z.pow_lt_mono_r; lia. }
  unfold header_for. rewrite Hrun. cbn [mbind result_bind]. rewrite decide_True by lia.
  eexists. split_and!; [done| |done|done]. rewrite Z.pow_add_r in Hr by lia. split; cbn; lia.
Qed.

(** ** The invariant *)
Section Index.
Context `{HashKeyLaws}.
#[local] Abbreviation cap := getSlotCapacity.

Variable grows : SlotType → nat → nat → bool.
Hypothesis grows_bound : ∀ ty size n, grows ty size n = true → Z.of_nat (size + n) ≤ MAX_SLOTS.

#[local] Abbreviation post := (post grows).

Record placed (h : HashIndexHeader) (n : nat) (L : list (list SlotEntry)) : Prop := {
  pl_length : length L = n;
  pl_level : level_ok h (Z.of_nat n);
  pl_entry c es e : L !! c = Some es → e ∈ es → getPrimarySlotIdForHash h (hash (key e)) = Z.of_nat c;
}.

(** The free slots that are counted but do not exist. *)
Variable phantom : Z.

(** [n] bounds the entries ever added. *)
Record wf (ix : InMemHashIndex) (L : list (list SlotEntry)) (n : Z) : Prop := {
  wf_dense : dense phantom ix L;
  wf_placed : placed (hdr ix).1 (hdr ix).2 L;
  wf_entries : 0 ≤ indexEntries (indexHeader ix) ≤ n;
  wf_empty : indexEntries (indexHeader ix) = 0 → concat L = [];
}.

(** The chain of a key. *)
Lemma wf_chain ix L n k : wf ix L n → ∃ c es, L !! c = Some es ∧
  getPrimarySlotIdForHash (indexHeader ix) (hash k) = Z.of_nat c ∧
  (∀ e, e ∈ concat L → key e = k → e ∈ es) ∧ (∀ e, e ∈ es → e ∈ concat L).
Proof.
  intros [_ [Hlen Hlevel Hentry] _ _].
  pose proof (primary_range _ _ Hlevel (hash k)) as Hr.
  change (getPrimarySlotIdForHash (hdr ix).1) with (getPrimarySlotIdForHash (indexHeader ix)) in *. set (p := getPrimarySlotIdForHash _ _) in *.
  destruct (lookup_lt_is_Some_2 L (Z.to_nat p)) as [es Hes]; [lia|].
  exists (Z.to_nat p), es. split_and!; [done|lia| |].
  - intros e He <-. apply list_elem_of_In, in_concat in He as (es' & Hes' & He).
    apply list_elem_of_In, list_elem_of_lookup in Hes' as [c' Hc'].
    pose proof (Hentry c' es' e Hc' ltac:(by apply list_elem_of_In)) as E. fold p in E.
    assert (Z.to_nat p = c') as Ec by lia. rewrite Ec in Hes. rewrite Hes in Hc'. injection Hc' as ->. by apply list_elem_of_In.
  - intros e He. apply list_elem_of_lookup in He as [b Hb]. by eapply concat_elem.
Qed.

(** ** Appending *)
Definition append_result (isVisible : Z → bool) (k : Key) (v : Z) (es : list SlotEntry) (added : bool) (es' : list SlotEntry) : Prop :=
  if added then (∀ e, e ∈ es → matches isVisible k e = false) ∧ es' ≡ₚ mkSlotEntry k v :: es
  else es' ≡ₚ es ∧ ∃ e, e ∈ es ∧ matches isVisible k e = true.

Lemma append_result_perm isVisible k v es1 es2 added es' : es1 ≡ₚ es2 →
  append_result isVisible k v es1 added es' → append_result isVisible k v es2 added es'.
Proof.
  unfold append_result. intros Hperm. destruct added.
  - intros [Hno Hes]. split; [|by rewrite <- Hperm]. intros e He. apply Hno. by rewrite Hperm.
  - intros [Hes (e & He & Hm)]. split; [by rewrite <- Hperm|]. exists e. by rewrite <- Hperm.
Qed.

Lemma appendInternal_wf ix L n k v isVisible : wf ix L n → n < UINT64_MAX →
  post (appendInternal grows isVisible k v ix) (λ ix' added,
    ∃ L', wf ix' L' (n + 1) ∧ append_result isVisible k v (concat L) added (concat L') ∧
      indexEntries (indexHeader ix') = indexEntries (indexHeader ix) + Z.b2z added).
Proof.
  intros Hwf Hn. destruct (wf_chain _ _ _ k Hwf) as (c & es & Hc & Hprim & Hin & Hout).
  pose proof Hwf as [Hdense [Hlen Hlevel Hentry] Hbound Hempty].
  eapply post_mono; [by apply (appendInternal_works _ grows_bound _ _ _ _ _ _ Hdense Hc Hprim)|].
  intros ix' [|] Hres; unfold append_result; cbn.
  - destruct Hres as (Hno & Hdense' & Hh). rewrite wrap_id in Hh by (unfold in_u, UINT64_MAX in *; lia).
    exists (<[c := es ++ [mkSlotEntry k v]]> L).
    assert (concat (<[c := es ++ [mkSlotEntry k v]]> L) ≡ₚ mkSlotEntry k v :: concat L) as Hperm.
    { apply (Permutation_app_inv_r es). rewrite (concat_insert_swap _ _ _ _ Hc), app_assoc. by rewrite <- Permutation_cons_append. }
    assert (indexEntries (indexHeader ix') = indexEntries (indexHeader ix) + 1) as Hcount.
    { change (indexEntries (hdr ix').1 = indexEntries (indexHeader ix) + 1). by rewrite Hh. }
    split_and!; [split|..]; try done.
    + rewrite Hh. split; cbn [with_entries fst snd]; [by rewrite length_insert|..].
      * destruct Hlevel. by split.
      * intros c' es' e Hc' He. change (getPrimarySlotIdForHash (hdr ix).1 (hash (key e)) = Z.of_nat c').
        destruct (decide (c' = c)) as [->|Hne].
        -- rewrite list_lookup_insert_eq in Hc' by (by eapply lookup_lt_Some). injection Hc' as <-.
           apply elem_of_app in He as [He|He%list_elem_of_singleton]; [by eapply Hentry|by subst e].
        -- rewrite list_lookup_insert_ne in Hc' by done. by eapply Hentry.
    + lia.
    + intros E. lia.
    + intros e He. unfold matches. destruct (decide (k = key e)) as [->|Hne]; [|by rewrite bool_decide_eq_false_2].
      apply Hno. by apply Hin.
  - destruct Hres as (-> & e & He & Hm). exists L. split_and!; [|done|by exists e; eauto|cbn; lia].
    split; [done..|lia|done].
Qed.

Lemma lookup_wf ix L n k isVisible : wf ix L n →
  ∃ r, lookup isVisible k ix = (ix, Ok r) ∧
    match r with
    | Some v => ∃ e, e ∈ concat L ∧ matches isVisible k e = true ∧ value e = v
    | None => ∀ e, e ∈ concat L → matches isVisible k e = false
    end.
Proof.
  intros Hwf. destruct (wf_chain _ _ _ k Hwf) as (c & es & Hc & Hprim & Hin & Hout).
  destruct (lookup_works _ _ _ _ _ _ (wf_dense _ _ _ Hwf) Hc Hprim isVisible) as (r & Hrun & Hr).
  { intros Hz%(wf_empty _ _ _ Hwf). destruct es as [|e es]; [done|]. assert (e ∈ concat L) as He by apply Hout, list_elem_of_here. rewrite Hz in He. by apply not_elem_of_nil in He. }
  exists r. split; [done|]. destruct r as [v|].
  - destruct Hr as (e & ? & ? & ?). exists e. eauto.
  - intros e He. unfold matches. destruct (decide (k = key e)) as [->|Hne]; [|by rewrite bool_decide_eq_false_2].
    apply Hr. by apply Hin.
Qed.

Lemma deleteKey_wf ix L n k : wf ix L n →
  ∃ ix' L' deleted, deleteKey k ix = (ix', Ok deleted) ∧ wf ix' L' n ∧
    if deleted : bool then ∃ e, key e = k ∧ concat L ≡ₚ e :: concat L'
    else concat L' ≡ₚ concat L ∧ ∀ e, e ∈ concat L → key e ≠ k.
Proof.
  intros Hwf. destruct (wf_chain _ _ _ k Hwf) as (c & es & Hc & Hprim & Hin & Hout).
  pose proof Hwf as [Hdense [Hlen Hlevel Hentry] Hbound Hempty].
  destruct (deleteKey_works _ _ _ _ _ _ Hdense Hc Hprim) as (ix' & deleted & Hrun & Hres).
  { intros Hz%Hempty. destruct es as [|e es]; [done|]. assert (e ∈ concat L) as He by apply Hout, list_elem_of_here. rewrite Hz in He. by apply not_elem_of_nil in He. }
  destruct deleted.
  - destruct Hres as (e & es' & Hk & Hes & Hdense' & Hh).
    assert (concat L ≡ₚ e :: concat (<[c := es']> L)) as Hperm.
    { apply (Permutation_app_inv_r es'). rewrite <- (concat_insert_swap _ _ _ _ Hc), Hes. by rewrite <- Permutation_middle. }
    exists ix', (<[c := es']> L), true. split_and!; [done| |by exists e].
    split; [done| | |].
    + rewrite Hh. split; [by rewrite length_insert|done|]. intros c' es1 e1 Hc' He1.
      destruct (decide (c' = c)) as [->|Hne].
      * rewrite list_lookup_insert_eq in Hc' by (by eapply lookup_lt_Some). injection Hc' as <-.
        eapply Hentry; [done|]. rewrite Hes. by right.
      * rewrite list_lookup_insert_ne in Hc' by done. by eapply Hentry.
    + by rewrite (hdr_entries _ _ Hh).
    + rewrite (hdr_entries _ _ Hh). intros Hz%Hempty. rewrite Hz in Hperm. by apply Permutation_nil_cons in Hperm.
  - destruct Hres as [-> Hno]. exists ix, L, false. split_and!; [done..|]. intros e He Hk. by apply (Hno e (Hin e He Hk)).
Qed.

(** ** More slots *)
Lemma elem_of_take_in {A} n (l : list A) e : e ∈ take n l → e ∈ l.
Proof. intros He. rewrite <- (firstn_skipn n l). apply elem_of_app. by left. Qed.

Lemma dense_bound ix L : dense phantom ix L → length (pSlots ix) = length L ∧ Z.of_nat (length L) ≤ MAX_SLOTS.
Proof.
  intros (cs & free & Hrep & Hall). pose proof (rp_primary _ _ _ _ _ _ Hrep) as Hp.
  pose proof (Forall2_length _ _ _ Hall). pose proof (rp_bound _ _ _ _ _ _ Hrep). lia.
Qed.

(** The entries of the slot that is split go to their slots under the next header. *)
Lemma placed_split h n L m : placed h n L → Z.of_nat n ≤ MAX_SLOTS → ∃ c es h', L !! c = Some es ∧
  nextSplitSlotId h = Z.of_nat c ∧ incrementNextSplitSlotId h = Ok h' ∧ indexEntries h' = indexEntries h ∧
  (∀ e, e ∈ es → Z.land (hash (key e)) (higherLevelHashMask h) = Z.of_nat c ∨
     Z.land (hash (key e)) (higherLevelHashMask h) = Z.of_nat n) ∧
  let L' := <[c := stays (stay c (h, m)) es (length es)]> L ++ [moves (stay c (h, m)) es (length es)] in
  placed h' (S n) L' ∧ concat L' ≡ₚ concat L.
Proof.
  intros [Hlen Hlevel Hentry] Hmax. set (c := Z.to_nat (nextSplitSlotId h)).
  pose proof (lo_next _ _ Hlevel) as Hnext. pose proof (lo_total _ _ Hlevel) as Htotal.
  destruct (lookup_lt_is_Some_2 L c) as [es Hes]; [lia|].
  destruct (increment_ok h _ Hlevel Hmax) as (h' & Hinc & Hlevel' & Hcount & Hprim).
  assert (nextSplitSlotId h = Z.of_nat c) as Ec by lia.
  assert (∀ e, e ∈ es → Z.land (hash (key e)) (higherLevelHashMask h) = Z.of_nat c ∨
     Z.land (hash (key e)) (higherLevelHashMask h) = Z.of_nat n) as Htargets.
  { intros e He. rewrite <- Ec. apply (split_targets _ _ Hlevel). rewrite Ec. by eapply Hentry. }
  exists c, es, h'. do 5 (split; [done|]). split.
  - set (sts := stays (stay c (h, m)) es (length es)). set (mvs := moves (stay c (h, m)) es (length es)).
    split; [by rewrite length_app, length_insert, Nat.add_1_r, Hlen|by rewrite Nat2Z.inj_succ|].
    intros c' es' e Hc' He. rewrite Hprim, Ec. apply lookup_app_Some in Hc' as [Hc'|[Hge Hc']].
    + destruct (decide (c' = c)) as [->|Hne].
      * rewrite list_lookup_insert_eq in Hc' by (by eapply lookup_lt_Some). injection Hc' as <-.
        apply list_elem_of_filter in He as [Hs He%elem_of_take_in]. apply Is_true_true in Hs. apply bool_decide_eq_true in Hs.
        rewrite decide_True by (by eapply Hentry). exact Hs.
      * rewrite list_lookup_insert_ne in Hc' by done. pose proof (Hentry _ _ _ Hc' He) as E.
        rewrite decide_False; [exact E|]. rewrite E. lia.
    + rewrite length_insert in *. destruct (c' - length L)%nat eqn:E; [|done]. injection Hc' as <-.
      apply list_elem_of_filter in He as [Hs He%elem_of_take_in].
      pose proof (Hentry _ _ _ Hes He) as Hold. rewrite decide_True by done.
      destruct (Htargets e He) as [Et|Et]; [|rewrite Et; lia].
      destruct Hs. by apply Is_true_true, bool_decide_eq_true.
  - apply (Permutation_app_inv_r es). rewrite concat_app. cbn. rewrite app_nil_r, <- app_assoc, (Permutation_app_comm (moves _ _ _)), app_assoc.
    rewrite (concat_insert_swap _ _ _ _ Hes), <- app_assoc. f_equiv. symmetry. apply split_permutation.
Qed.

Lemma splitSlot_wf ix L n : wf ix L n →
  post (splitSlot grows ix) (λ ix' _, ∃ L', wf ix' L' n ∧ concat L' ≡ₚ concat L ∧
    length (pSlots ix') = S (length (pSlots ix)) ∧ indexEntries (indexHeader ix') = indexEntries (indexHeader ix)).
Proof.
  intros [Hdense Hplaced Hbound Hempty]. destruct (dense_bound _ _ Hdense) as [Hp Hmax].
  pose proof (pl_length _ _ _ Hplaced) as Hlen. rewrite Hlen in Hmax.
  destruct (placed_split _ _ _ (hdr ix).2 Hplaced Hmax) as (c & es & h' & Hes & Ec & Hinc & Hcount & _ & Hplaced' & Hperm).
  eapply post_mono; [apply (splitSlot_works _ grows_bound _ _ _ c es h' Hdense Hes Ec Hinc)|].
  intros ix' _ [Hdense' Hh]. rewrite <- surjective_pairing in *.
  assert (indexEntries (indexHeader ix') = indexEntries (indexHeader ix)) as Hcount'.
  { change (indexEntries (hdr ix').1 = indexEntries (hdr ix).1). by rewrite Hh. }
  eexists. split_and!; [split|exact Hperm| |done].
  - done.
  - rewrite Hh, Hlen. exact Hplaced'.
  - by rewrite Hcount'.
  - rewrite Hcount'. intros Hz%Hempty. rewrite Hz in Hperm. by apply Permutation_nil_r.
  - change (length (pSlots ix')) with ((hdr ix').2). rewrite Hh. cbn. lia.
Qed.

Lemma split_until_wf numRequired : ∀ fuel ix L n, wf ix L n → numRequired ≤ Z.of_nat (length (pSlots ix) + fuel) →
  post (split_until grows fuel numRequired ix) (λ ix' _, ∃ L', wf ix' L' n ∧ concat L' ≡ₚ concat L ∧
    indexEntries (indexHeader ix') = indexEntries (indexHeader ix)).
Proof.
  induction fuel as [|fuel IH]; intros ix L n Hwf Hf; cbn [split_until]; st_run.
  { rewrite decide_False by lia. by exists L. }
  case_decide; [|by exists L].
  eapply post_bind; [by apply (splitSlot_wf _ _ _ Hwf)|]. intros ix1 _ (L1 & Hwf1 & Hperm1 & Hlen1 & Hc1).
  eapply post_mono; [apply (IH _ _ _ Hwf1); lia|]. intros ix2 _ (L2 & Hwf2 & Hperm2 & Hc2).
  exists L2. split_and!; [done|by rewrite Hperm2|congruence].
Qed.

Lemma allocateSlots_works ix L num : dense phantom ix L → concat L = [] → masks_ok (indexHeader ix) →
  indexEntries (indexHeader ix) = 0 → 2 ^ currentLevel (indexHeader ix) ≤ num →
  Z.of_nat (length L) < num ≤ Z.of_nat (length L) + 2048 →
  post (allocateSlots grows num ix) (λ ix' _, ∃ L', wf ix' L' 0 ∧ concat L' = [] ∧ indexEntries (indexHeader ix') = 0).
Proof.
  intros Hdense Hempty Hmasks Hzero Hlevel Hnum. destruct (dense_bound _ _ Hdense) as [Hp _].
  destruct Hdense as (cs & free & Hrep & Hall). pose proof (Forall2_length _ _ _ Hall) as Hlen.
  unfold allocateSlots. st_run. rewrite Hp, decide_True by lia.
  set (m := Z.to_nat (num - Z.of_nat (length L))).
  eapply post_bind.
  { apply (add_slots_PRIMARY _ grows_bound _ _ _ _ _ _ m Hrep); [|lia]. intros c p Hc. unfold cells_of. by rewrite lookup_ge_None_2 by lia. }
  intros ix1 _ (Hrep1 & Hh1 & Hp1 & Hi1). pose proof (rp_bound _ _ _ _ _ _ Hrep1) as [Hmax _]. unfold on_indexHeader. st_run. rewrite Hi1.
  destruct (header_for_ok num (indexHeader ix)) as (h' & -> & Hok & Hc & Hfirst); [done|lia|].
  assert (concat (L ++ replicate m []) = []) as Hcat.
  { rewrite concat_app, Hempty. clear. induction m; done. }
  exists (L ++ replicate m []). split_and!; [split|done|cbn; congruence].
  - exists (cs ++ replicate m []), free. split.
    + apply rep_set_header; [|congruence]. eapply rep_ext; [exact Hrep1|]. intros c p _. unfold cells_of.
      destruct (decide (c < length L)%nat); [by rewrite lookup_app_l|]. rewrite lookup_ge_None_2, lookup_app_r by lia. cbn.
      destruct (replicate m [] !! (c - length L)%nat) as [l|] eqn:E; [|done]. by apply lookup_replicate in E as [-> _].
    + apply Forall2_app; [done|]. apply Forall2_replicate. unfold overflow_of. cbn. symmetry. apply Nat.Div0.div_0_l.
  - split; cbn.
    + rewrite length_app, length_replicate, Hp1. lia.
    + rewrite Hp1. replace (Z.of_nat (length cs + m)) with num by lia. destruct Hok. by split.
    + intros c es e Hc' He. exfalso. apply (not_elem_of_nil e). rewrite <- Hcat.
      apply list_elem_of_lookup in He as [b Hb]. by eapply concat_elem.
  - cbn. lia.
  - done.
Qed.

Lemma wf_mono ix L n n' : wf ix L n → n ≤ n' → wf ix L n'.
Proof. intros [H1 H2 H3 H4] Hle. split; try done. lia. Qed.

Lemma required_slots_bound n : 0 ≤ n → required_slots n ≤ (3 * n + 1) / 2.
Proof.
  intros Hn. unfold required_slots, getNumRequiredEntries. pose proof cap_bounds.
  set (r := (3 * n + 1) / 2). assert (0 ≤ r) by (apply Z.div_pos; lia).
  destruct (decide (r = 0)) as [->|]; [rewrite Z.div_small by lia; lia|].
  apply Z.div_le_upper_bound; [lia|]. nia.
Qed.

Lemma reserve_wf ix L n num : wf ix L n → 0 ≤ num → (indexEntries (indexHeader ix) = 0 → num ≤ 1024) →
  post (reserve grows num ix) (λ ix' _, ∃ L', wf ix' L' n ∧ concat L' ≡ₚ concat L ∧
    indexEntries (indexHeader ix') = indexEntries (indexHeader ix)).
Proof.
  intros Hwf Hnum Hsmall. pose proof Hwf as [Hdense [Hlen Hlevel Hentry] Hbound Hempty]. destruct (dense_bound _ _ Hdense) as [Hp _].
  unfold reserve. st_run. case_decide as Henough; [by exists L|]. case_decide as Hzero.
  - rewrite (wrap_id 32 num) in * by (unfold in_u; specialize (Hsmall Hzero); lia).
    assert (required_slots num ≤ 1537).
    { etrans; [by apply required_slots_bound|]. apply Z.div_le_upper_bound; [lia|]. specialize (Hsmall Hzero). lia. }
    rewrite wrap_id by (unfold in_u; lia). rewrite Hzero.
    eapply post_mono; [apply (allocateSlots_works ix L); try done|].
    + by apply Hempty.
    + destruct Hlevel. by split_and!.
    + pose proof (lo_total _ _ Hlevel) as Ht. pose proof (lo_next _ _ Hlevel). cbn in *. lia.
    + lia.
    + intros ix' _ (L' & Hwf' & HL' & Hc'). exists L'. split_and!; [|by rewrite HL', Hempty|done].
      eapply wf_mono; [done|lia].
  - eapply split_until_wf; [done|]. lia.
Qed.

(** ** Appending buffers *)
Lemma append_wf ix L n k v isVisible : wf ix L n → n < UINT64_MAX →
  post (append grows isVisible k v ix) (λ ix' added, ∃ L', wf ix' L' (n + 1) ∧ append_result isVisible k v (concat L) added (concat L') ∧
    indexEntries (indexHeader ix') = indexEntries (indexHeader ix) + Z.b2z added).
Proof.
  intros Hwf Hn. pose proof (wf_entries _ _ _ Hwf) as Hb. unfold append. rewrite st_bind_run. cbn [st_get].
  rewrite wrap_id by (unfold in_u, UINT64_MAX in *; lia).
  eapply post_bind; [apply (reserve_wf _ _ _ _ Hwf); lia|]. intros ix1 _ (L1 & Hwf1 & Hperm & Hc1).
  eapply post_mono; [by apply (appendInternal_wf _ _ _ k v isVisible Hwf1)|].
  intros ix2 added (L2 & Hwf2 & Hres & Hc2). exists L2. split_and!; [done| |congruence].
  by apply append_result_perm with (concat L1).
Qed.

(** The entries of a buffer go in one after the other, up to the first that is there. *)
Inductive buffer_result (isVisible : Z → bool) : list SlotEntry → list SlotEntry → nat → list SlotEntry → Prop :=
| buffer_end es es' : es' ≡ₚ es → buffer_result isVisible [] es 0 es'
| buffer_stop e entries es es' : append_result isVisible (key e) (value e) es false es' →
    buffer_result isVisible (e :: entries) es 0 es'
| buffer_next e entries es es1 n es' : append_result isVisible (key e) (value e) es true es1 →
    buffer_result isVisible entries es1 n es' → buffer_result isVisible (e :: entries) es (S n) es'.

Lemma append_all_wf isVisible : ∀ entries ix L n es, wf ix L n → concat L ≡ₚ es → n + Z.of_nat (length entries) ≤ UINT64_MAX →
  post (append_all grows isVisible entries ix) (λ ix' added, ∃ L', wf ix' L' (n + Z.of_nat (length entries)) ∧
    buffer_result isVisible entries es added (concat L')).
Proof.
  induction entries as [|e entries IH]; intros ix L n es Hwf Hes Hn; cbn [append_all].
  - exists L. rewrite Z.add_0_r. split; [done|by constructor].
  - cbn [length] in Hn |- *. eapply post_bind; [apply (appendInternal_wf _ _ _ (key e) (value e) isVisible Hwf); lia|].
    intros ix1 [|] (L1 & Hwf1 & Hres & _).
    + apply (append_result_perm _ _ _ _ _ _ _ Hes) in Hres.
      eapply post_bind; [apply (IH ix1 L1 (n + 1) (concat L1)); [done|done|lia]|].
      intros ix2 m (L2 & Hwf2 & Hres2). exists L2.
      replace (n + Z.of_nat (S (length entries))) with (n + 1 + Z.of_nat (length entries)) by lia.
      split; [done|by econstructor].
    + apply (append_result_perm _ _ _ _ _ _ _ Hes) in Hres. exists L1. split; [|by constructor].
      eapply wf_mono; [done|lia].
Qed.

Lemma append_buffer_wf ix L n buffer off isVisible : wf ix L n → (off ≤ length buffer ≤ 1024)%nat → n + 1024 ≤ UINT64_MAX →
  post (append_buffer grows isVisible buffer off ix) (λ ix' added, ∃ L', wf ix' L' (n + 1024) ∧
    buffer_result isVisible (drop off buffer) (concat L) added (concat L')).
Proof.
  intros Hwf Hoff Hn. pose proof (wf_entries _ _ _ Hwf) as Hb.
  unfold append_buffer. rewrite st_bind_run. cbn [st_get]. rewrite wrap_id by (unfold in_u, UINT64_MAX in *; lia).
  eapply post_bind; [apply (reserve_wf _ _ _ _ Hwf); lia|]. intros ix1 _ (L1 & Hwf1 & Hperm & _).
  eapply post_mono; [apply (append_all_wf isVisible (drop off buffer) ix1 L1 n (concat L) Hwf1 Hperm)|].
  - rewrite length_drop. lia.
  - intros ix2 m (L2 & Hwf2 & Hres). exists L2. split; [|done]. eapply wf_mono; [done|]. rewrite length_drop. lia.
Qed.

(** ** Histories *)
Inductive op : Type :=
| Append (k : Key) (v : Z) (isVisible : Z → bool)
| AppendBuffer (buffer : list SlotEntry) (bufferOffset : nat) (isVisible : Z → bool)
| Lookup (k : Key) (isVisible : Z → bool)
| Delete (k : Key).

Inductive answer : Type := Added (added : bool) | Inserted (n : nat) | Found (v : option Z) | Deleted (deleted : bool).

Definition run_op (o : op) : stM InMemHashIndex answer :=
  match o with
  | Append k v isVisible => added ← append grows isVisible k v; mret (Added added)
  | AppendBuffer buffer off isVisible => n ← append_buffer grows isVisible buffer off; mret (Inserted n)
  | Lookup k isVisible => v ← lookup isVisible k; mret (Found v)
  | Delete k => deleted ← deleteKey k; mret (Deleted deleted)
  end.

Fixpoint run (ops : list op) : stM InMemHashIndex (list answer) :=
  match ops with
  | [] => mret []
  | o :: ops => a ← run_op o; l ← run ops; mret (a :: l)
  end.

(** What an operation may do to a collection of entries. *)
Definition spec_op (o : op) (es : list SlotEntry) (a : answer) (es' : list SlotEntry) : Prop :=
  match o, a with
  | Append k v isVisible, Added added => append_result isVisible k v es added es'
  | AppendBuffer buffer off isVisible, Inserted n => buffer_result isVisible (drop off buffer) es n es'
  | Lookup k isVisible, Found (Some v) => es' ≡ₚ es ∧ ∃ e, e ∈ es ∧ key e = k ∧ isVisible v = true ∧ value e = v
  | Lookup k isVisible, Found None => es' ≡ₚ es ∧ ∀ e, e ∈ es → key e = k → isVisible (value e) = false
  | Delete k, Deleted true => ∃ e, key e = k ∧ es ≡ₚ e :: es'
  | Delete k, Deleted false => es' ≡ₚ es ∧ ∀ e, e ∈ es → key e ≠ k
  | _, _ => False
  end.

Inductive spec_run : list op → list SlotEntry → list answer → list SlotEntry → Prop :=
| spec_nil es : spec_run [] es [] es
| spec_cons o ops es a es1 l es' : spec_op o es a es1 → spec_run ops es1 l es' → spec_run (o :: ops) es (a :: l) es'.

Definition op_ok (o : op) : Prop :=
  match o with AppendBuffer buffer off _ => (off ≤ length buffer ≤ 1024)%nat | _ => True end.

Lemma run_op_works o ix L n : wf ix L n → op_ok o → n + 1024 ≤ UINT64_MAX →
  post (run_op o ix) (λ ix' a, ∃ L', wf ix' L' (n + 1024) ∧ spec_op o (concat L) a (concat L')).
Proof.
  intros Hwf Hok Hn. destruct o as [k v vis|buffer off vis|k vis|k]; cbn [run_op].
  - eapply post_bind; [apply (append_wf _ _ _ k v vis Hwf); lia|]. intros ix1 added (L1 & Hwf1 & Hres & _).
    exists L1. split; [eapply wf_mono; [done|lia]|done].
  - eapply post_bind; [by apply (append_buffer_wf _ _ _ buffer off vis Hwf)|]. intros ix1 m (L1 & Hwf1 & Hres). by exists L1.
  - destruct (lookup_wf _ _ _ k vis Hwf) as (r & Hrun & Hr). rewrite st_bind_run, Hrun.
    exists L. split; [eapply wf_mono; [done|lia]|]. destruct r as [v|]; cbn; (split; [done|]).
    + destruct Hr as (e & He & Hm & Hv). unfold matches in Hm. apply andb_true_iff in Hm as [Hk%bool_decide_eq_true Hvis].
      exists e. split_and!; [done..|congruence|done].
    + intros e He <-. specialize (Hr e He). unfold matches in Hr. by rewrite bool_decide_eq_true_2 in Hr.
  - destruct (deleteKey_wf _ _ _ k Hwf) as (ix' & L' & deleted & Hrun & Hwf' & Hres). rewrite st_bind_run, Hrun.
    exists L'. split; [eapply wf_mono; [done|lia]|by destruct deleted].
Qed.

Lemma run_works : ∀ ops ix L n, wf ix L n → Forall op_ok ops → n + 1024 * Z.of_nat (length ops) ≤ UINT64_MAX →
  post (run ops ix) (λ _ l, ∃ es, spec_run ops (concat L) l es).
Proof.
  induction ops as [|o ops IH]; intros ix L n Hwf Hok Hn; cbn [run].
  - exists (concat L). constructor.
  - apply Forall_cons in Hok as [Ho Hok]. cbn [length] in Hn.
    eapply post_bind; [apply (run_op_works o ix L n Hwf Ho); lia|]. intros ix1 a (L1 & Hwf1 & Hres).
    eapply post_bind; [apply (IH ix1 L1 _ Hwf1 Hok); lia|]. intros ix2 l (es & Hl).
    exists es. by econstructor.
Qed.

Lemma dense_emptied : 0 ≤ phantom ≤ 2 ^ 62 → dense phantom (emptied phantom) [].
Proof.
  intros Hx. exists [], []. split; [|constructor]. split; try done.
  - by constructor.
  - intros id Hid. by apply not_elem_of_nil in Hid.
  - cbn. lia.
Qed.

Lemma emptied_works : 0 ≤ phantom ≤ 2 ^ 62 →
  post (allocateSlots grows slotsPerPage (emptied phantom)) (λ ix _, ∃ L, wf ix L 0 ∧ concat L = []).
Proof.
  intros Hx. pose proof page_size as Hpage.
  assert (2 ≤ slotsPerPage ≤ 1024) as Hslots.
  { unfold slotsPerPage, SLOT_CAPACITY_BYTES. split; [apply Z.div_le_lower_bound|apply Z.div_le_upper_bound]; lia. }
  eapply post_mono; [apply (allocateSlots_works _ _ _ (dense_emptied Hx)); try done; cbn; lia|].
  intros ix _ (L & Hwf & HL & _). by exists L.
Qed.

(** A new index, or one that was cleared. *)
Definition starts (start : InMemHashIndex * result ()) : Prop :=
  start = newInMemHashIndex grows ∨ ∃ ix, 0 ≤ numFreeSlots ix ≤ 2 ^ 62 ∧ start = clear grows ix.

Definition run_from (start : InMemHashIndex * result ()) (ops : list op) : InMemHashIndex * result (list answer) :=
  match start with
  | (ix, Ok _) => run ops ix
  | (ix, Throw e) => (ix, Throw e)
  | (ix, UB) => (ix, UB)
  end.
End Index.

(** C3: An index in memory, new or cleared, answers every sequence of appends, buffered
    appends, lookups and deletions like a collection of entries: an append is refused
    exactly if a visible entry has the key, a buffer goes in up to the first refused
    entry, a lookup gives the value of a visible entry with the key or there is none, a
    deletion takes out one entry with the key.  The only exception is that the memory for
    new slots was refused; no assertion of the code fails, no slot is out of range. *)
Theorem memory_index_refines `{HashKeyLaws} grows start ops :
  (∀ ty size n, grows ty size n = true → Z.of_nat (size + n) ≤ MAX_SLOTS) →
  starts grows start → Forall op_ok ops → 1024 * Z.of_nat (length ops) ≤ UINT64_MAX →
  match run_from grows start ops with
  | (_, Ok answers) => ∃ es, spec_run ops [] answers es
  | (ix, Throw e) => e = outOfMemory ∧ refused grows ix
  | (_, UB) => False
  end.
Proof.
  intros Hgrows Hstart Hok Hn.
  change (post grows (run_from grows start ops) (λ _ answers, ∃ es, spec_run ops [] answers es)).
  assert (∃ x, post grows start (λ ix _, ∃ L, wf x ix L 0 ∧ concat L = [])) as [x Hpost].
  { destruct Hstart as [->|(ix & Hx & ->)]; eexists; by apply emptied_works. }
  destruct start as [ix [u|e|]]; cbn in *; try done. destruct Hpost as (L & Hwf & HL).
  rewrite <- HL. by apply (run_works grows Hgrows x ops ix L 0).
Qed.

#[local] Existing Instance int64_key.
#[local] Existing Instance int64_key_laws.

Lemma memory_index_refines_witness :
  let room := λ (_ : SlotType) (size n : nat), Z.of_nat (size + n) <=? 1000 in
  let entries := λ from n, (λ k, mkSlotEntry k (10 * k)) <$> seqZ from n in
  let visible := λ v : Z, negb (v =? 70) in
  let ops := [AppendBuffer (entries 0 300) 0 visible; AppendBuffer (entries 290 120) 15 visible; Append 5 1 visible;
    Append 7 1 visible; Lookup 300 visible; Lookup 306 visible; Delete 306; Lookup 306 visible; Delete 1000] in
  (run_from room (newInMemHashIndex room) ops).2 = Ok [Inserted 300; Inserted 105; Added false; Added true; Found None; Found (Some 3060);
    Deleted true; Found None; Deleted false] ∧
  match run_from room (newInMemHashIndex room) ops with
  | (_, Ok answers) => ∃ es, spec_run ops [] answers es
  | (ix, Throw e) => e = outOfMemory ∧ refused room ix
  | (_, UB) => False
  end.
Proof.
  intros room entries visible ops. split; [vm_compute; reflexivity|]. apply memory_index_refines.
  - intros ty size n Hroom%Z.leb_le. unfold MAX_SLOTS. lia.
  - by left.
  - repeat constructor; cbn [op_ok]; unfold entries; rewrite ?length_fmap, ?length_seqZ; lia.
  - cbn. unfold UINT64_MAX. lia.
Defined.

(** ** The header *)
Fixpoint increments (n : nat) (h : HashIndexHeader) : result HashIndexHeader :=
  match n with
  | O => mret h
  | S n => h ← increments n h; incrementNextSplitSlotId h
  end.

Lemma level_unique h h' total : level_ok h total → level_ok h' total →
  indexEntries h = indexEntries h' → firstFreeOverflowSlotId h = firstFreeOverflowSlotId h' → h = h'.
Proof.
  intros [A1 A2 A3 A4 A5] [B1 B2 B3 B4 B5] He Hf.
  assert (currentLevel h = currentLevel h') as El.
  { apply Z.le_antisymm; apply Z.lt_succ_r, (Z.pow_lt_mono_r_iff 2); try lia; rewrite Z.pow_succ_r by lia; lia. }
  assert (nextSplitSlotId h = nextSplitSlotId h') as En by (rewrite El in *; lia).
  destruct h, h'. cbn in *. congruence.
Qed.

Lemma increments_works n : Z.of_nat (2 + n) ≤ MAX_SLOTS →
  ∃ h, increments n newIndexHeader = Ok h ∧ level_ok h (Z.of_nat (2 + n)) ∧
    indexEntries h = 0 ∧ firstFreeOverflowSlotId h = INVALID_OVERFLOW_SLOT_ID.
Proof.
  induction n as [|n IH]; intros Hn.
  - exists newIndexHeader. split_and!; [done| |done..]. split; cbn; lia.
  - destruct IH as (h & Hrun & Hok & He & Hf); [lia|]. cbn [increments]. rewrite Hrun. cbn [mbind result_bind].
    destruct (increment_ok h _ Hok) as (h' & Hrun' & Hok' & He' & _); [lia|]. rewrite Hrun'. exists h'.
    replace (Z.of_nat (2 + S n)) with (Z.of_nat (2 + n) + 1) by lia. split_and!; [done..|congruence|].
    rewrite <- Hf. unfold incrementNextSplitSlotId, incrementLevel in Hrun'. repeat case_decide; inversion Hrun'; done.
Qed.

(** C28: Growing an index slot by slot and growing it at once lead to the same header, up to
    2^28 slots: the header is a function of the number of slots.  It survives being
    written and read, and every key belongs to one of these slots. *)
Theorem header_path_independent n hash : Z.of_nat (2 + n) ≤ MAX_SLOTS →
  ∃ h, increments n newIndexHeader = Ok h ∧ header_for (Z.of_nat (2 + n)) newIndexHeader = Ok h ∧
    header_of_disk (header_write h) = h ∧ 0 ≤ getPrimarySlotIdForHash h hash < Z.of_nat (2 + n).
Proof.
  intros Hn. destruct (increments_works n Hn) as (h & Hrun & Hok & He & Hf). exists h. split; [done|]. split; [|split; [|by apply primary_range]].
  - destruct (header_for_ok (Z.of_nat (2 + n)) newIndexHeader) as (h' & -> & Hok' & He' & Hf'); [by split_and!|cbn; lia|].
    f_equal. symmetry. eapply level_unique; [done..|by rewrite He'|by rewrite Hf'].
  - pose proof (lo_next _ _ Hok). pose proof (lo_total _ _ Hok). pose proof (lo_level _ _ Hok).
    assert (currentLevel h ≤ 28) by (apply small_level; lia).
    unfold header_of_disk, header_write. cbn. rewrite wrap_id by (unfold in_u; lia).
    destruct h as [l m1 m2 nx en fr]. f_equal; symmetry; apply Hok.
Qed.

Lemma header_path_independent_witness : Z.of_nat (2 + 14) ≤ MAX_SLOTS ∧
  ∃ h, increments 14 newIndexHeader = Ok h ∧ header_for (Z.of_nat (2 + 14)) newIndexHeader = Ok h ∧
    header_of_disk (header_write h) = h ∧ 0 ≤ getPrimarySlotIdForHash h 12345 < Z.of_nat (2 + 14).
Proof. split; [done|]. apply (header_path_independent 14 12345). done. Defined.
