(* ===== verification/HashIndex.v ===== *)
(** * The hash index on disk (storage/index/hash_index.cpp, include/storage/index/hash_index.h,
    include/storage/local_storage/local_hash_index.h)

    A hash index is a pair of disk arrays of slots with their header, and a local storage:
    an index in memory of the insertions since the last checkpoint, and the set of deleted
    keys.  Lookups go through the local storage, then to the slots on disk.  A checkpoint
    splits slots on disk until there are enough and merges the insertions into them. *)

From S2P Require Import Prelude.
From S2P Require Import Transaction.
From S2P Require Import HashSlot.
From S2P Require Import InMemHashIndex.

(** ** Disk arrays

    What the index relies on of a disk array (DiskArray): readers see the elements of the
    last checkpoint, a checkpoint sees and changes those it works on, which become the
    committed ones or are dropped. *)
Record VersionedArray (A : Type) : Type := mkVersioned { committed : list A; current : list A }.
Arguments mkVersioned {A}.
Arguments committed {A}.
Arguments current {A}.

Definition seen {A} (trxType : TransactionType) (a : VersionedArray A) : list A :=
  if decide (trxType = CHECKPOINT) then current a else committed a.
Definition array_checkpoint {A} (a : VersionedArray A) : VersionedArray A := mkVersioned (current a) (current a).

Section HashIndex.
Context `{HashKey}.

(** An entry of the local storage on its way to the slot on disk. *)
Record HashIndexEntryView : Type := mkView { diskSlotId : Z; fingerprint : Z; entry : SlotEntry }.

Record HashIndex : Type := mkHashIndex {
  pArray : VersionedArray Slot;
  oArray : VersionedArray Slot;
  indexHeaderForReadTrx : HashIndexHeader;
  indexHeaderForWriteTrx : HashIndexHeader;
  localDeletions : list Key;
  localInsertions : InMemHashIndex;
}.

(** Whether elements can be added to a disk array, or memory for new slots be had. *)
Variable grows : SlotType → nat → nat → bool.
(** [std::sort] by the slot on disk, the first slot last. *)
Variable std_sort : list HashIndexEntryView → list HashIndexEntryView.

#[local] Abbreviation Ix := (stM InMemHashIndex).
#[local] Abbreviation HIx := (stM HashIndex).

(** The slots and the header that a transaction of a type works on. *)
Definition view (trxType : TransactionType) (ix : HashIndex) : InMemHashIndex :=
  mkIndex (seen trxType (pArray ix)) (seen trxType (oArray ix))
    (if decide (trxType = CHECKPOINT) then indexHeaderForWriteTrx ix else indexHeaderForReadTrx ix) 0.

Definition on_disk {A} (m : Ix A) : HIx A := λ ix,
  let (v, r) := m (view CHECKPOINT ix) in
  (mkHashIndex (mkVersioned (committed (pArray ix)) (pSlots v)) (mkVersioned (committed (oArray ix)) (oSlots v))
     (indexHeaderForReadTrx ix) (indexHeader v) (localDeletions ix) (localInsertions ix), r).

Definition on_local {A} (m : Ix A) : HIx A := λ ix,
  let (l, r) := m (localInsertions ix) in
  (mkHashIndex (pArray ix) (oArray ix) (indexHeaderForReadTrx ix) (indexHeaderForWriteTrx ix) (localDeletions ix) l, r).

Definition set_localDeletions (d : list Key) (ix : HashIndex) : HashIndex :=
  mkHashIndex (pArray ix) (oArray ix) (indexHeaderForReadTrx ix) (indexHeaderForWriteTrx ix) d (localInsertions ix).

(** ** Local storage *)
Inductive HashIndexLocalLookupState : Type := KEY_FOUND (result : Z) | KEY_DELETED | KEY_NOT_EXIST.

Definition local_lookup (isVisible : Z → bool) (k : Key) : HIx HashIndexLocalLookupState :=
  ix ← st_get;
  if decide (k ∈ localDeletions ix) then mret KEY_DELETED
  else
    r ← on_local (lookup isVisible k);
    mret (match r with Some v => KEY_FOUND v | None => KEY_NOT_EXIST end).

Definition local_deleteKey (k : Key) : HIx () :=
  deleted ← on_local (deleteKey k);
  if deleted : bool then mret ()
  else st_modify (λ ix, set_localDeletions (if decide (k ∈ localDeletions ix) then localDeletions ix else k :: localDeletions ix) ix).

Definition local_insert (isVisible : Z → bool) (k : Key) (v : Z) : HIx bool :=
  _ ← st_modify (λ ix, set_localDeletions (filter (λ k', k' ≠ k) (localDeletions ix)) ix);
  on_local (append grows isVisible k v).

Definition hasUpdates (ix : HashIndex) : bool :=
  negb (bool_decide (indexEntries (indexHeader (localInsertions ix)) = 0) && bool_decide (localDeletions ix = [])).
Definition getNetInserts (ix : HashIndex) : Z :=
  swrap 64 (indexEntries (indexHeader (localInsertions ix)) - Z.of_nat (length (localDeletions ix))).

Definition local_clear : HIx () :=
  _ ← on_local (clear grows);
  st_modify (set_localDeletions []).

(** ** Lookups *)
Fixpoint findMatchedEntryInSlot (isVisible : Z → bool) (todo entryPos : nat) (slot : Slot) (k : Key) (fp : Z) : result (option nat) :=
  match todo with
  | O => mret None
  | S todo =>
      if isEntryValid (header slot) entryPos then
        e ← deref (slotEntries slot !! entryPos);
        f ← deref (fingerprints (header slot) !! entryPos);
        if bool_decide (f = fp) && bool_decide (k = key e) && isVisible (value e)
        then mret (Some entryPos)
        else findMatchedEntryInSlot isVisible todo (S entryPos) slot k fp
      else findMatchedEntryInSlot isVisible todo (S entryPos) slot k fp
  end.

Fixpoint find_persistent (isVisible : Z → bool) (fuel : nat) (i : SlotInfo) (k : Key) (fp : Z) : Ix (option Z) :=
  match fuel with
  | O => st_lift UB
  | S fuel =>
      slot ← read_slot i;
      pos ← st_lift (findMatchedEntryInSlot isVisible getSlotCapacity 0 slot k fp);
      match pos with
      | Some pos => e ← st_lift (deref (slotEntries slot !! pos)); mret (Some (value e))
      | None =>
          n ← nextChainedSlot i;
          match n with
          | Some j => find_persistent isVisible fuel j k fp
          | None => mret None
          end
      end
  end.

Definition lookupInPersistentIndex (trxType : TransactionType) (isVisible : Z → bool) (k : Key) : HIx (option Z) := λ ix,
  let v := view trxType ix in
  (ix, if decide (indexEntries (indexHeader v) = 0) then Ok None
       else (find_persistent isVisible (chain_fuel v) (primarySlot k v) k (fingerprint_of k) v).2).

Definition lookupInternal (trxType : TransactionType) (isVisible : Z → bool) (k : Key) : HIx (option Z) :=
  s ← local_lookup isVisible k;
  match s with
  | KEY_DELETED => mret None
  | KEY_FOUND v => mret (Some v)
  | KEY_NOT_EXIST => lookupInPersistentIndex trxType isVisible k
  end.

Definition insertInternal (trxType : TransactionType) (isVisible : Z → bool) (k : Key) (v : Z) : HIx bool :=
  s ← local_lookup isVisible k;
  match s with
  | KEY_FOUND _ => mret false
  | KEY_DELETED => local_insert isVisible k v
  | KEY_NOT_EXIST =>
      r ← lookupInPersistentIndex trxType isVisible k;
      match r with
      | Some _ => mret false
      | None => local_insert isVisible k v
      end
  end.

Definition deleteInternal (k : Key) : HIx () := local_deleteKey k.
Definition discardLocal (k : Key) : HIx bool := on_local (deleteKey k).

(** The loop over a buffer when there are entries on disk: it ends at a key on disk, but
    goes on behind a key that the local storage has. *)
Fixpoint append_each (trxType : TransactionType) (isVisible : Z → bool) (buffer : list SlotEntry)
    (i : nat) (numValuesInserted : nat) : HIx nat :=
  match buffer with
  | [] => mret numValuesInserted
  | e :: buffer =>
      r ← lookupInPersistentIndex trxType isVisible (key e);
      match r with
      | Some _ => mret i
      | None =>
          added ← on_local (append grows isVisible (key e) (value e));
          append_each trxType isVisible buffer (S i) (numValuesInserted + Nat.b2n added)
      end
  end.

Definition appendNoLock (trxType : TransactionType) (isVisible : Z → bool) (buffer : list SlotEntry) (bufferOffset : nat) : HIx nat :=
  ix ← st_get;
  if decide (0 < indexEntries (indexHeaderForWriteTrx ix)) then
    _ ← on_local (reserve grows (wrap 64 (indexEntries (indexHeader (localInsertions ix)) + Z.of_nat (length buffer - bufferOffset))));
    append_each trxType isVisible (drop bufferOffset buffer) 0 0
  else on_local (append_buffer grows isVisible buffer bufferOffset).

Definition bulkReserve (newEntries : Z) : HIx () := on_local (reserve grows newEntries).

(** ** Splitting slots on disk *)

(** Slots on disk, and new overflow slots in a vector until the end. *)
Inductive SlotPtr : Type := OnDisk (i : SlotInfo) | InVector (n : nat).
Record SplitDisk : Type := mkSplitDisk { sd_disk : InMemHashIndex; newOverflowSlots : list Slot }.

#[local] Abbreviation Sd := (stM SplitDisk).

Definition sd_lift {A} (m : Ix A) : Sd A := λ sd, let (d, r) := m (sd_disk sd) in (mkSplitDisk d (newOverflowSlots sd), r).
Definition read_ptr (p : SlotPtr) : Sd Slot :=
  match p with
  | OnDisk i => sd_lift (read_slot i)
  | InVector n => λ sd, (sd, deref (newOverflowSlots sd !! n))
  end.
Definition write_ptr (p : SlotPtr) (f : Slot → Slot) : Sd () :=
  match p with
  | OnDisk i => sd_lift (write_slot i f)
  | InVector n => st_modify (λ sd, mkSplitDisk (sd_disk sd) (alter f n (newOverflowSlots sd)))
  end.

Section Checkpoint.
(** [oSlots->getNumElements()] reads the header for readers. *)
Variable numElements : nat.

Definition getNextOvfSlot (nextOvfSlotId : Z) : Sd SlotPtr :=
  if decide (Z.of_nat numElements ≤ nextOvfSlotId) then mret (InVector (Z.to_nat (nextOvfSlotId - Z.of_nat numElements)))
  else
    sd ← st_get;
    _ ← dassert (bool_decide (nextOvfSlotId < Z.of_nat (length (oSlots (sd_disk sd)))));
    mret (OnDisk (mkSlotInfo nextOvfSlotId OVF)).

(** A new element may move the others: a pointer into the vector is not valid any more. *)
Definition emplace_back (originalSlot : SlotPtr) : Sd () :=
  match originalSlot with
  | OnDisk _ => λ sd,
      if grows OVF (length (oSlots (sd_disk sd)) + length (newOverflowSlots sd)) 1
      then (mkSplitDisk (sd_disk sd) (newOverflowSlots sd ++ [newSlot]), Ok ())
      else (sd, Throw outOfMemory)
  | InVector _ => st_lift UB
  end.

(** The slot for the next entry that moves. *)
Definition disk_place (originalSlot newSlot : SlotPtr) (newEntryPos : nat) : Sd (SlotPtr * nat) :=
  if decide (getSlotCapacity ≤ newEntryPos)%nat then
    sd ← st_get;
    let n := length (newOverflowSlots sd) in
    _ ← write_ptr newSlot (on_header (set_nextOvfSlotId (Z.of_nat (n + numElements))));
    _ ← emplace_back originalSlot;
    mret (InVector n, 0%nat)
  else mret (newSlot, newEntryPos).

Definition disk_split_entry (newPrimary : Z) (originalSlot : SlotPtr) (originalEntryPos : nat)
    (new : SlotPtr * nat) : Sd (SlotPtr * nat) :=
  slot ← read_ptr originalSlot;
  if negb (isEntryValid (header slot) originalEntryPos) then mret new
  else
    '(newSlot, newEntryPos) ← disk_place originalSlot new.1 new.2;
    e ← st_lift (deref (slotEntries slot !! originalEntryPos));
    fp ← st_lift (deref (fingerprints (header slot) !! originalEntryPos));
    sd ← st_get;
    let h := indexHeader (sd_disk sd) in
    let newSlotId := Z.land (hash (key e)) (higherLevelHashMask h) in
    if decide (newSlotId = nextSplitSlotId h) then mret (newSlot, newEntryPos)
    else
      _ ← dassert (bool_decide (newSlotId = newPrimary));
      _ ← write_ptr newSlot (put_entry newEntryPos e fp);
      _ ← write_ptr originalSlot (on_header (setEntryInvalid originalEntryPos));
      mret (newSlot, S newEntryPos).

Fixpoint disk_split_slot (todo originalEntryPos : nat) (newPrimary : Z) (originalSlot : SlotPtr) (new : SlotPtr * nat) : Sd (SlotPtr * nat) :=
  match todo with
  | O => mret new
  | S todo =>
      new ← disk_split_entry newPrimary originalSlot originalEntryPos new;
      disk_split_slot todo (S originalEntryPos) newPrimary originalSlot new
  end.

Fixpoint disk_split_chain (fuel : nat) (newPrimary : Z) (originalSlot : SlotPtr) (new : SlotPtr * nat) : Sd () :=
  match fuel with
  | O => st_lift UB
  | S fuel =>
      new ← disk_split_slot getSlotCapacity 0 newPrimary originalSlot new;
      slot ← read_ptr originalSlot;
      if decide (nextOvfSlotId (header slot) = INVALID_OVERFLOW_SLOT_ID) then mret ()
      else
        next ← getNextOvfSlot (nextOvfSlotId (header slot));
        disk_split_chain fuel newPrimary next new
  end.

Definition disk_split : Sd () :=
  _ ← sd_lift (add_slots grows PRIMARY 1);
  sd ← st_get;
  let newPrimary := Z.of_nat (length (pSlots (sd_disk sd))) - 1 in
  let original := nextSplitSlotId (indexHeader (sd_disk sd)) in
  _ ← dassert (bool_decide (original < Z.of_nat (length (pSlots (sd_disk sd)))));
  _ ← disk_split_chain (S (length (oSlots (sd_disk sd)) + length (newOverflowSlots sd))) newPrimary
        (OnDisk (mkSlotInfo original PRIMARY)) (OnDisk (mkSlotInfo newPrimary PRIMARY), 0%nat);
  sd_lift (on_indexHeader incrementNextSplitSlotId).

Fixpoint disk_splits (numSlotsToSplit : nat) : Sd () :=
  match numSlotsToSplit with
  | O => mret ()
  | S n => _ ← disk_split; disk_splits n
  end.

(** [pushBack] on the disk array of overflow slots. *)
Definition push_ovf (slot : Slot) : Ix () :=
  ix ← st_get;
  _ ← add_slots grows OVF 1;
  write_slot (mkSlotInfo (Z.of_nat (length (oSlots ix))) OVF) (λ _, slot).

Fixpoint push_all (slots : list Slot) : Ix () :=
  match slots with
  | [] => mret ()
  | s :: slots => _ ← push_ovf s; push_all slots
  end.

Definition splitSlots (numSlotsToSplit : nat) : Ix () := λ ix,
  match disk_splits numSlotsToSplit (mkSplitDisk ix []) with
  | (sd, Ok _) => push_all (newOverflowSlots sd) (sd_disk sd)
  | (sd, Throw e) => (sd_disk sd, Throw e)
  | (sd, UB) => (sd_disk sd, UB)
  end.

(** ** Room for new entries *)
Definition disk_required_slots (h : HashIndexHeader) (newEntries : Z) : Z :=
  Z.max (Z.max (required_slots (wrap 64 (indexEntries h + newEntries))) (2 ^ currentLevel h)) slotsPerPage.

Definition disk_reserve (newEntries : Z) : Ix () :=
  ix ← st_get;
  let numRequiredSlots := disk_required_slots (indexHeader ix) newEntries in
  if decide (indexEntries (indexHeader ix) = 0) then
    _ ← (if decide (Z.of_nat (length (pSlots ix)) < numRequiredSlots)
         then add_slots grows PRIMARY (Z.to_nat numRequiredSlots - length (pSlots ix)) else mret ());
    on_indexHeader (header_for numRequiredSlots)
  else splitSlots (Z.to_nat (wrap 64 (numRequiredSlots - Z.of_nat (length (pSlots ix))))).

(** ** Merging the insertions *)

(** The first empty position of the chain from a position on, in a new slot if there is none. *)
Fixpoint find_empty (fuel : nat) (diskSlot : SlotInfo) (diskEntryPos : nat) : Ix (SlotInfo * nat) :=
  match fuel with
  | O => st_lift UB
  | S fuel =>
      slot ← read_slot diskSlot;
      if isEntryValid (header slot) diskEntryPos || bool_decide (getSlotCapacity ≤ diskEntryPos)%nat then
        if decide (getSlotCapacity ≤ S diskEntryPos)%nat then
          ix ← st_get;
          let size := Z.of_nat (length (oSlots ix)) in
          next ← (if decide (nextOvfSlotId (header slot) = INVALID_OVERFLOW_SLOT_ID) then
                    _ ← write_slot diskSlot (on_header (set_nextOvfSlotId size));
                    _ ← push_ovf newSlot; mret size
                  else
                    _ ← dassert (bool_decide (nextOvfSlotId (header slot) < size));
                    mret (nextOvfSlotId (header slot)));
          slot ← read_slot (mkSlotInfo next OVF);
          _ ← dassert (bool_decide (next ≠ nextOvfSlotId (header slot)));
          find_empty fuel (mkSlotInfo next OVF) 0
        else find_empty fuel diskSlot (S diskEntryPos)
      else mret (diskSlot, diskEntryPos)
  end.

(** The entries of the vector from its end, as far as they belong to the slot. *)
Fixpoint merge_entries (slotToMerge : list HashIndexEntryView) (id : Z) (diskSlot : SlotInfo) (diskEntryPos merged : nat) : Ix nat :=
  match slotToMerge with
  | [] => mret merged
  | it :: slotToMerge =>
      if decide (diskSlotId it ≠ id) then mret merged
      else
        ix ← st_get;
        '(diskSlot, diskEntryPos) ← find_empty ((2 + length (oSlots ix)) * S getSlotCapacity) diskSlot diskEntryPos;
        _ ← dassert (bool_decide (diskEntryPos < getSlotCapacity)%nat);
        _ ← write_slot diskSlot (put_entry diskEntryPos (entry it) (fingerprint it));
        _ ← dassert (bool_decide (fingerprint it = fingerprint_of (key (entry it)) ∧
               getPrimarySlotIdForHash (indexHeader ix) (hash (key (entry it))) = id));
        _ ← count_entry;
        merge_entries slotToMerge id diskSlot (S diskEntryPos) (S merged)
  end.

Definition mergeSlot (slotToMerge : list HashIndexEntryView) (id : Z) : Ix nat :=
  let diskSlot := mkSlotInfo id PRIMARY in
  slot ← read_slot diskSlot;
  ix ← st_get;
  _ ← dassert (bool_decide (nextOvfSlotId (header slot) = INVALID_OVERFLOW_SLOT_ID ∨
         nextOvfSlotId (header slot) < Z.of_nat (length (oSlots ix))));
  merge_entries (rev slotToMerge) id diskSlot 0 0.

(** The entries of a local slot and the slots behind it. *)
Fixpoint slot_views (todo entryPos : nat) (h : HashIndexHeader) (slot : Slot) : result (list HashIndexEntryView) :=
  match todo with
  | O => mret []
  | S todo =>
      e ← deref (slotEntries slot !! entryPos);
      fp ← deref (fingerprints (header slot) !! entryPos);
      rest ← slot_views todo (S entryPos) h slot;
      mret (mkView (getPrimarySlotIdForHash h (hash (key e))) fp e :: rest)
  end.
Fixpoint chain_views (fuel : nat) (h : HashIndexHeader) (slotToMerge : SlotInfo) : Ix (list HashIndexEntryView) :=
  match fuel with
  | O => st_lift UB
  | S fuel =>
      slot ← read_slot slotToMerge;
      l ← st_lift (slot_views (numEntries (header slot)) 0 h slot);
      n ← nextChainedSlot slotToMerge;
      match n with
      | Some j => rest ← chain_views fuel h j; mret (l ++ rest)
      | None => mret l
      end
  end.
Definition sortEntries (h : HashIndexHeader) (insertLocalStorage : InMemHashIndex) (id : nat) : result (list HashIndexEntryView) :=
  l ← (chain_views (chain_fuel insertLocalStorage) h (mkSlotInfo (Z.of_nat id) PRIMARY) insertLocalStorage).2;
  mret (std_sort l).

(** One pass over the partitions: those whose next slot is on the page of the first one. *)
Fixpoint merge_pass (partitionedEntries : list (list HashIndexEntryView * bool)) (diskSlotPage : option Z) :
    Ix (list (list HashIndexEntryView * bool)) :=
  match partitionedEntries with
  | [] => mret []
  | (entries, done) :: partitionedEntries =>
      match last entries, done with
      | Some v, false =>
          let page := default (diskSlotId v / slotsPerPage) diskSlotPage in
          p ← (if decide (diskSlotId v / slotsPerPage = page) then
                 merged ← mergeSlot entries (diskSlotId v);
                 _ ← dassert (bool_decide (merged ≤ length entries)%nat);
                 let entries := take (length entries - merged) entries in
                 mret (entries, bool_decide (entries = []))
               else mret (entries, false));
          rest ← merge_pass partitionedEntries (Some page);
          mret (p :: rest)
      | _, _ => rest ← merge_pass partitionedEntries diskSlotPage; mret ((entries, true) :: rest)
      end
  end.

Fixpoint merge_passes (fuel : nat) (partitionedEntries : list (list HashIndexEntryView * bool)) : Ix () :=
  if forallb snd partitionedEntries then mret ()
  else
    match fuel with
    | O => st_lift UB
    | S fuel => p ← merge_pass partitionedEntries None; merge_passes fuel p
    end.

(** A page of local slots at a time. *)
Fixpoint merge_pages (fuel : nat) (localSlotId : nat) (insertLocalStorage : InMemHashIndex) : Ix () :=
  if decide (localSlotId < length (pSlots insertLocalStorage))%nat then
    match fuel with
    | O => st_lift UB
    | S fuel =>
        ix ← st_get;
        let ids := seq localSlotId (Z.to_nat slotsPerPage `min` (length (pSlots insertLocalStorage) - localSlotId)) in
        partitionedEntries ← st_lift (mapM (λ i, v ← sortEntries (indexHeader ix) insertLocalStorage i; mret (v, false)) ids);
        _ ← merge_passes (S (length (concat (partitionedEntries.*1)))) partitionedEntries;
        merge_pages fuel (localSlotId + Z.to_nat slotsPerPage) insertLocalStorage
    end
  else mret ().

Definition mergeBulkInserts (insertLocalStorage : InMemHashIndex) : Ix () :=
  _ ← disk_reserve (indexEntries (indexHeader insertLocalStorage));
  merge_pages (length (pSlots insertLocalStorage)) 0 insertLocalStorage.
End Checkpoint.

(** ** Checkpoints *)

(** The sum is taken to [uint64_t] for [reserve]; the deletions are not applied. *)
Definition checkpoint : HIx bool :=
  ix ← st_get;
  if hasUpdates ix then
    let numElements := length (committed (oArray ix)) in
    _ ← (if decide (0 < getNetInserts ix) then on_disk (disk_reserve numElements (getNetInserts ix)) else mret ());
    _ ← on_disk (mergeBulkInserts numElements (localInsertions ix));
    mret true
  else mret false.

Definition arrays_checkpointed (ix : HashIndex) : HashIndex :=
  mkHashIndex (array_checkpoint (pArray ix)) (array_checkpoint (oArray ix)) (indexHeaderForReadTrx ix)
    (indexHeaderForWriteTrx ix) (localDeletions ix) (localInsertions ix).
Definition checkpointInMemory : HIx bool :=
  ix ← st_get;
  if hasUpdates ix then
    _ ← st_modify arrays_checkpointed;
    _ ← local_clear;
    mret true
  else mret false.
Definition copy_header (ix : HashIndex) : HashIndex :=
  mkHashIndex (pArray ix) (oArray ix) (indexHeaderForWriteTrx ix) (indexHeaderForWriteTrx ix) (localDeletions ix) (localInsertions ix).

(** ** The index of a primary key

    It is a list of 256 indexes; a key belongs to one of them by the topmost bits of its
    hash. *)
Definition NUM_HASH_INDEXES : nat := 256.
#[local] Abbreviation Pk := (stM (list HashIndex)).

Definition newHashIndex : result HashIndex :=
  match newInMemHashIndex grows with
  | (l, Ok _) => Ok (mkHashIndex (mkVersioned [] []) (mkVersioned [] []) newIndexHeader newIndexHeader [] l)
  | (_, Throw e) => Throw e
  | (_, UB) => UB
  end.
Fixpoint new_indexes (n : nat) : result (list HashIndex) :=
  match n with
  | O => mret []
  | S n => ix ← newHashIndex; l ← new_indexes n; mret (ix :: l)
  end.
Definition newPrimaryKeyIndex : result (list HashIndex) := new_indexes NUM_HASH_INDEXES.

Definition getTypedHashIndexByPos {A} (indexPos : nat) (m : HIx A) : Pk A := λ pk,
  match pk !! indexPos with
  | Some ix => let (ix, r) := m ix in (<[indexPos := ix]> pk, r)
  | None => (pk, UB)
  end.
Definition getTypedHashIndex {A} (k : Key) (m : HIx A) : Pk A := getTypedHashIndexByPos (Z.to_nat (getHashIndexPosition k)) m.

Definition pk_lookup (trxType : TransactionType) (isVisible : Z → bool) (k : Key) : Pk (option Z) :=
  getTypedHashIndex k (lookupInternal trxType isVisible k).
Definition pk_insert (trxType : TransactionType) (isVisible : Z → bool) (k : Key) (v : Z) : Pk bool :=
  getTypedHashIndex k (insertInternal trxType isVisible k v).
Definition pk_discardLocal (k : Key) : Pk bool := getTypedHashIndex k (discardLocal k).
Definition appendWithIndexPosNoLock (trxType : TransactionType) (isVisible : Z → bool) (buffer : list SlotEntry)
    (bufferOffset indexPos : nat) : Pk nat :=
  _ ← dassert (forallb (λ e, bool_decide (getHashIndexPosition (key e) = Z.of_nat indexPos)) buffer);
  getTypedHashIndexByPos indexPos (appendNoLock trxType isVisible buffer bufferOffset).

Fixpoint each_index (m : HIx bool) (todo i : nat) (indexChanged : bool) : Pk bool :=
  match todo with
  | O => mret indexChanged
  | S todo => changed ← getTypedHashIndexByPos i m; each_index m todo (S i) (changed || indexChanged)
  end.
Definition pk_checkpointInMemory : Pk () :=
  indexChanged ← each_index checkpointInMemory NUM_HASH_INDEXES 0 false;
  if indexChanged : bool then st_modify (fmap copy_header) else mret ().

(** Headers and page indexes are written to shadow pages in between. *)
Definition pk_checkpoint : Pk () :=
  _ ← each_index checkpoint NUM_HASH_INDEXES 0 false;
  pk_checkpointInMemory.
End HashIndex.
