(* ===== verification/HashIndexFacts.v ===== *)
(** * Changes of the slots on disk

    Slots on disk hold their entries with gaps.  Splitting slots, with the new overflow
    slots in a vector, reserving slots and merging the entries of the local storage, each
    as a change of the contents of the slots. *)

From stdpp Require Import functions.
From S2P Require Import Prelude.
From S2P Require Import Transaction.
From S2P Require Import HashSlot.
From S2P Require Import InMemHashIndex.
From S2P Require Import InMemHashIndexFacts.
From S2P Require Import InMemHashIndexOps.
From S2P Require Import InMemHashIndexEntries.
From S2P Require Import InMemHashIndexSplit.
From S2P Require Import InMemHashIndexTheorems.
From S2P Require Import HashIndex.

(** ** The contents of cells *)
Section Upto.
Context {A : Type}.
Implicit Types f g : nat → option A.

Definition upto f (n : nat) : list A := omap f (seq 0 n).

Lemma upto_S f n : upto f (S n) = upto f n ++ match f n with Some a => [a] | None => [] end.
Proof. unfold upto. rewrite seq_S, omap_app. cbn. by destruct (f n). Qed.

Lemma upto_ext f g n : (∀ p, (p < n)%nat → f p = g p) → upto f n = upto g n.
Proof. induction n as [|n IH]; intros E; [done|]. rewrite !upto_S, IH, E by (auto with lia). done. Qed.

Lemma upto_more f n m : (n ≤ m)%nat → (∀ p, (n ≤ p)%nat → f p = None) → upto f m = upto f n.
Proof.
  intros Hle Hnone. induction Hle as [|m Hle IH]; [done|]. by rewrite upto_S, IH, Hnone, app_nil_r by lia.
Qed.

Lemma upto_put f p a n : f p = None → (p < n)%nat → upto (<[p := Some a]> f) n ≡ₚ a :: upto f n.
Proof.
  intros Hp. induction n as [|n IH]; intros Hlt; [lia|]. rewrite !upto_S. destruct (decide (p = n)) as [->|Hne].
  - rewrite fn_lookup_insert, Hp, app_nil_r, (upto_ext _ f); [by rewrite <- Permutation_cons_append|].
    intros q Hq. by rewrite fn_lookup_insert_ne by lia.
  - rewrite fn_lookup_insert_ne, IH by lia. done.
Qed.

Lemma elem_of_upto a f n : a ∈ upto f n ↔ ∃ p, (p < n)%nat ∧ f p = Some a.
Proof.
  unfold upto. rewrite list_elem_of_omap. split.
  - intros (p & Hp%elem_of_seq & Hf). exists p. split; [lia|done].
  - intros (p & Hp & Hf). exists p. split; [apply elem_of_seq; lia|done].
Qed.

Lemma upto_list (l : list A) n : (length l ≤ n)%nat → upto (λ p, l !! p) n = l.
Proof.
  revert n. induction l as [|a l IH] using rev_ind; intros n Hn.
  - by rewrite (upto_more _ 0) by (lia || done).
  - rewrite length_app in Hn. cbn in Hn. rewrite (upto_more _ (S (length l))); [|lia|].
    + rewrite upto_S, list_lookup_middle by done. f_equal.
      rewrite <- (IH (length l) (le_n _)) at 2. apply upto_ext. intros p Hp. by rewrite lookup_app_l.
    + intros p Hp. apply lookup_ge_None. rewrite length_app. cbn. lia.
Qed.
End Upto.

(** ** Outcomes *)
Section Ends.
Variable grows : SlotType → nat → nat → bool.

Definition outcome {S A} (r : S * result A) (Q : S → A → Prop) : Prop :=
  match r with
  | (s, Ok a) => Q s a
  | (_, Throw e) => e = outOfMemory ∧ ∃ ty size n, grows ty size n = false
  | (_, UB) => False
  end.

Lemma ends_bind {S A B} (m : stM S A) (f : A → stM S B) s R Q :
  outcome (m s) R → (∀ s' a, R s' a → outcome (f a s') Q) → outcome ((m ≫= f) s) Q.
Proof. rewrite st_bind_run. destruct (m s) as [s' [a|e|]]; cbn; intros Hm Hf; [by apply Hf|done|done]. Qed.

Lemma ends_mono {S A} (r : S * result A) (R Q : S → A → Prop) : outcome r R → (∀ s a, R s a → Q s a) → outcome r Q.
Proof. destruct r as [s' [a|e|]]; cbn; auto. Qed.

Lemma post_ends `{HashKey} {A} (r : InMemHashIndex * result A) Q : post grows r Q → outcome r Q.
Proof. destruct r as [ix [a|e|]]; cbn; [done| |done]. intros (-> & ty & n & Hg & _). eauto. Qed.
End Ends.

Section Facts.
Context `{HashKeyLaws}.
#[local] Abbreviation cap := getSlotCapacity.

Variable grows : SlotType → nat → nat → bool.
Hypothesis grows_bound : ∀ ty size n, grows ty size n = true → Z.of_nat (size + n) ≤ MAX_SLOTS.

#[local] Abbreviation ends := (outcome grows).

(** ** Slots with contents *)
Definition room (ids : list Z) : nat := (cap * S (length ids))%nat.

Record holding (d : InMemHashIndex) (L : list (list SlotEntry)) (cs : list (list Z)) (cells : nat → nat → option SlotEntry) : Prop := {
  hl_rep : rep d cs cells [] [] 0;
  hl_length : length cs = length L;
  hl_contents c ids : cs !! c = Some ids → L !! c = Some (upto (cells c) (room ids));
  hl_none c p : (length cs ≤ c)%nat → cells c p = None;
}.

Definition stored (d : InMemHashIndex) (L : list (list SlotEntry)) : Prop := ∃ cs cells, holding d L cs cells.

Lemma holding_chain d L cs cells c l : holding d L cs cells → L !! c = Some l →
  ∃ ids, cs !! c = Some ids ∧ l = upto (cells c) (room ids).
Proof.
  intros Hh Hc. destruct (lookup_lt_is_Some_2 cs c) as [ids Hids].
  { rewrite (hl_length _ _ _ _ Hh). by eapply lookup_lt_Some. }
  exists ids. split; [done|]. pose proof (hl_contents _ _ _ _ Hh c ids Hids). congruence.
Qed.

Lemma holding_bound d L cs cells : holding d L cs cells → length (pSlots d) = length L ∧ Z.of_nat (length L) ≤ MAX_SLOTS.
Proof.
  intros Hh. pose proof (hl_rep _ _ _ _ Hh) as Hrep. pose proof (rp_primary _ _ _ _ _ _ Hrep).
  pose proof (rp_bound _ _ _ _ _ _ Hrep). pose proof (hl_length _ _ _ _ Hh). lia.
Qed.

(** A chain changed its entries. *)
Lemma holding_one d L cs cells cs' cells' d' c ids' : holding d L cs cells → rep d' cs' cells' [] [] 0 →
  length cs' = length cs → (c < length cs)%nat → cs' !! c = Some ids' →
  (∀ c', c' ≠ c → cs' !! c' = cs !! c' ∧ cells' c' = cells c') →
  holding d' (<[c := upto (cells' c) (room ids')]> L) cs' cells'.
Proof.
  intros [H1 H2 H3 H4] Hrep Hl Hc Hids Hother. split; [done|by rewrite length_insert; congruence| |].
  - intros c' ids Hc'. destruct (decide (c' = c)) as [->|Hne].
    + rewrite list_lookup_insert_eq by lia. congruence.
    + rewrite list_lookup_insert_ne by done. destruct (Hother c' Hne) as [E ->]. apply H3. congruence.
  - intros c' p Hp. destruct (Hother c') as [_ ->]; [lia|]. apply H4. lia.
Qed.

(** ** A new overflow slot at the end of a chain *)
Lemma update_push i f ix l : (slotType i = OVF → (Z.to_nat (slotId i) < length (oSlots ix))%nat) →
  update_slot i f (set_oSlots (oSlots ix ++ l) ix) = set_oSlots (oSlots (update_slot i f ix) ++ l) (update_slot i f ix).
Proof.
  destruct i as [i []]; cbn; intros Hi; [done|]. unfold update_slot, set_oSlots. cbn. by rewrite alter_app_l by auto.
Qed.

Lemma rep_info_range ix cs cells free loose x c ids b i : rep ix cs cells free loose x → cs !! c = Some ids →
  infos c ids !! b = Some i → 0 ≤ slotId i ∧ (slotType i = OVF → (Z.to_nat (slotId i) < length (oSlots ix))%nat).
Proof.
  intros Hrep Hc Hb. split; [apply (rep_info _ _ _ _ _ _ Hrep _ _ _ _ Hc Hb)|].
  apply infos_inv in Hb as [[-> ->]|(b' & id & -> & Hid & ->)]; cbn; [done|intros _].
  enough (0 ≤ id < Z.of_nat (length (oSlots ix))) by lia.
  apply (rp_range _ _ _ _ _ _ Hrep). rewrite app_nil_r || idtac. apply elem_of_app. left. by eapply concat_elem.
Qed.

Lemma rep_grow ix cs cells c ids i : rep ix cs cells [] [] 0 → cs !! c = Some ids → infos c ids !! length ids = Some i →
  Z.of_nat (S (length (oSlots ix))) ≤ MAX_SLOTS →
  let id := Z.of_nat (length (oSlots ix)) in
  let ix' := update_slot i (on_header (set_nextOvfSlotId id)) ix in
  rep (set_oSlots (oSlots ix' ++ [newSlot]) ix') (<[c := ids ++ [id]]> cs) cells [] [] 0.
Proof.
  intros Hrep Hc Hi Hmax id ix'. destruct (rep_info_range _ _ _ _ _ _ _ _ _ _ Hrep Hc Hi) as [_ Hr].
  unfold ix'. rewrite <- (update_push _ _ ix [newSlot]) by done.
  pose proof (rep_append_oSlots _ _ _ _ _ _ 1 Hrep ltac:(lia)) as H1. cbn [replicate] in H1.
  assert (rep (set_oSlots (oSlots ix ++ [newSlot]) ix) cs cells [] [id] 0) as H2.
  { apply (rep_loose_empty _ _ _ _ _ _ _ H1); [done| | |].
    - intros Hid. assert (0 ≤ id < Z.of_nat (length (oSlots ix))); [|lia]. by apply (rp_range _ _ _ _ _ _ Hrep).
    - cbn. rewrite length_app. cbn. lia.
    - exists newSlot. split; [|split; [done|apply holds_new]]. cbn. unfold id. rewrite Nat2Z.id. by apply list_lookup_middle. }
  by apply (rep_extend _ _ _ _ _ _ H2).
Qed.

(** ** Slots on disk and in the vector *)

(** The slots as they will be when the vector is added. *)
Definition virt (sd : SplitDisk) : InMemHashIndex := set_oSlots (oSlots (sd_disk sd) ++ newOverflowSlots sd) (sd_disk sd).

Section Split.
Variable numElements : nat.

Definition ptr_info (p : SlotPtr) : SlotInfo :=
  match p with OnDisk i => i | InVector n => mkSlotInfo (Z.of_nat (numElements + n)) OVF end.
Definition ptr_ok (p : SlotPtr) : Prop :=
  match p with OnDisk i => 0 ≤ slotId i ∧ (slotType i = OVF → slotId i < Z.of_nat numElements) | InVector _ => True end.

(** What writing to slots does not change. *)
Definition frame (sd : SplitDisk) : HashIndexHeader * nat * nat * nat :=
  (indexHeader (sd_disk sd), length (pSlots (sd_disk sd)), length (oSlots (sd_disk sd)), length (newOverflowSlots sd)).

Lemma read_ptr_virt sd p sl : length (oSlots (sd_disk sd)) = numElements → ptr_ok p →
  getSlot (ptr_info p) (virt sd) = Some sl → read_ptr p sd = (sd, Ok sl).
Proof.
  destruct sd as [d v]. cbn. intros Hn Hok Hs. destruct p as [[i []]|n]; cbn in *; unfold sd_lift, read_slot, getSlot in *; cbn in *.
  - by rewrite Hs.
  - rewrite lookup_app_l in Hs; [by rewrite Hs|]. destruct Hok as [? Hi]. specialize (Hi eq_refl). lia.
  - rewrite Nat2Z.id, <- Hn in Hs. rewrite lookup_app_r, Nat.add_comm, Nat.add_sub in Hs by lia. by rewrite Hs.
Qed.

Lemma write_ptr_virt sd p f : length (oSlots (sd_disk sd)) = numElements → ptr_ok p →
  ∃ sd', write_ptr p f sd = (sd', Ok ()) ∧ virt sd' = update_slot (ptr_info p) f (virt sd) ∧ frame sd' = frame sd.
Proof.
  destruct sd as [d v]. cbn. intros Hn Hok. destruct p as [[i []]|n]; cbn in *; unfold sd_lift, write_slot; cbn; eexists; (split; [done|]);
    unfold virt, update_slot, frame, set_pSlots, set_oSlots; cbn; rewrite ?length_alter.
  - done.
  - rewrite alter_app_l; [done|]. destruct Hok as [? Hi]. specialize (Hi eq_refl). lia.
  - rewrite Nat2Z.id, <- Hn. by rewrite alter_app_r.
Qed.

Lemma write_ptr_bind {A} sd p f (m : stM SplitDisk A) : length (oSlots (sd_disk sd)) = numElements → ptr_ok p →
  ∃ sd', (write_ptr p f ≫= λ _, m) sd = m sd' ∧ virt sd' = update_slot (ptr_info p) f (virt sd) ∧ frame sd' = frame sd.
Proof.
  intros Hn Hok. destruct (write_ptr_virt sd p f Hn Hok) as (sd' & Hrun & ? & ?). exists sd'. split; [|done].
  by rewrite st_bind_run, Hrun.
Qed.

(** ** The entries of one chain *)
Section Chain.
Variables (cs : list (list Z)) (cells : nat → nat → option SlotEntry) (c : nat) (ids : list Z) (fr : HashIndexHeader * nat).
#[local] Abbreviation c' := (length cs).
#[local] Abbreviation f0 := (cells c).
#[local] Abbreviation stay := (stay c fr).
Hypothesis Hids : cs !! c = Some ids.
Hypothesis Hold : ∀ id, id ∈ ids → 0 ≤ id < Z.of_nat numElements.
Hypothesis Hsplit : nextSplitSlotId fr.1 = Z.of_nat c.
Hypothesis Htargets : ∀ p e, f0 p = Some e → Z.land (hash (key e)) (higherLevelHashMask fr.1) = Z.of_nat c ∨
  Z.land (hash (key e)) (higherLevelHashMask fr.1) = Z.of_nat c'.

Definition remaining (k p : nat) : option SlotEntry :=
  if decide (p < k)%nat then f0 p ≫= (λ e, if stay e then Some e else None) else f0 p.
Definition moved (k : nat) : list SlotEntry := filter (λ e, ¬ stay e) (upto f0 k).
Definition split_cells (k : nat) : nat → nat → option SlotEntry :=
  <[c := remaining k]> (<[c' := λ p, moved k !! p]> cells).

Record splitting (sd : SplitDisk) (k : nat) (new : SlotPtr) (pos : nat) : Prop := {
  sp_frame : (frame sd).1.1 = fr;
  sp_num : length (oSlots (sd_disk sd)) = numElements;
  sp_rep : ∃ ids', rep (virt sd) (cs ++ [ids']) (split_cells k) [] [] 0 ∧
    infos c' ids' !! length ids' = Some (ptr_info new) ∧ (length ids' * cap + pos = length (moved k))%nat;
  sp_ptr : ptr_ok new;
  sp_pos : (pos ≤ cap)%nat;
}.

Lemma chain_lt : (c < c')%nat.
Proof. by eapply lookup_lt_Some. Qed.
Lemma old_ids ids' : (cs ++ [ids']) !! c = Some ids.
Proof. by apply lookup_app_l_Some. Qed.
Lemma new_ids ids' : (cs ++ [ids']) !! c' = Some ids'.
Proof. by apply list_lookup_middle. Qed.
Lemma split_cells_old k : split_cells k c = remaining k.
Proof. apply fn_lookup_insert. Qed.
Lemma split_cells_new k : split_cells k c' = λ p, moved k !! p.
Proof. unfold split_cells. pose proof chain_lt. by rewrite fn_lookup_insert_ne, fn_lookup_insert by lia. Qed.

Lemma moved_S k : moved (S k) = moved k ++ match f0 k with Some e => if stay e then [] else [e] | None => [] end.
Proof.
  unfold moved. rewrite upto_S, filter_app. destruct (f0 k) as [e|]; [|done]. rewrite filter_cons.
  f_equal. destruct (stay e); case_decide as Hd; try done; exfalso; apply Hd; auto.
Qed.

Lemma remaining_now k : remaining k k = f0 k.
Proof. unfold remaining. by rewrite decide_False by lia. Qed.

Lemma remaining_S k : (∀ e, f0 k = Some e → stay e = true) → ∀ p, remaining (S k) p = remaining k p.
Proof.
  intros Hs p. unfold remaining. destruct (decide (p = k)) as [->|].
  - rewrite decide_True, decide_False by lia. destruct (f0 k) as [e|]; [|done]. cbn. by rewrite Hs.
  - destruct (decide (p < k)%nat); [by rewrite !decide_True by lia|by rewrite !decide_False by lia].
Qed.

Lemma remaining_move k e : f0 k = Some e → stay e = false → ∀ p, <[k := None]> (remaining k) p = remaining (S k) p.
Proof.
  intros He Hs p. unfold remaining. destruct (decide (p = k)) as [->|].
  - rewrite fn_lookup_insert, decide_True, He by lia. cbn. by rewrite Hs.
  - rewrite fn_lookup_insert_ne by done. destruct (decide (p < k)%nat); [by rewrite !decide_True by lia|by rewrite !decide_False by lia].
Qed.

Lemma splitting_rep sd k cells' ids' : rep (virt sd) (cs ++ [ids']) cells' [] [] 0 →
  (∀ p, cells' c p = remaining k p) → (∀ p, cells' c' p = moved k !! p) →
  (∀ d, d ≠ c → d ≠ c' → cells' d = cells d) → rep (virt sd) (cs ++ [ids']) (split_cells k) [] [] 0.
Proof.
  intros Hrep Hc Hc' Ho. eapply rep_ext; [exact Hrep|]. intros d p _. unfold split_cells.
  destruct (decide (d = c)) as [->|]; [by rewrite fn_lookup_insert|]. rewrite fn_lookup_insert_ne by done.
  destruct (decide (d = c')) as [->|]; [by rewrite fn_lookup_insert|]. rewrite fn_lookup_insert_ne by done. by rewrite Ho.
Qed.

(** Nothing to move at a position. *)
Lemma splitting_skip sd k new pos : splitting sd k new pos → (∀ e, f0 k = Some e → stay e = true) → splitting sd (S k) new pos.
Proof.
  intros [H1 H2 (ids' & Hrep & H3 & H4) H5 H6] Hs.
  assert (moved (S k) = moved k) as EM.
  { rewrite moved_S. destruct (f0 k) as [e|] eqn:E; [|apply app_nil_r]. rewrite Hs by done. apply app_nil_r. }
  split; try done. exists ids'. rewrite EM. split_and!; try done. eapply splitting_rep; [exact Hrep|..].
  - intros p. rewrite split_cells_old. symmetry. by apply remaining_S.
  - intros p. by rewrite split_cells_new, EM.
  - intros d Hd Hd'. unfold split_cells. by rewrite !fn_lookup_insert_ne.
Qed.

Lemma old_ptr b i : infos c ids !! b = Some i → ptr_ok (OnDisk i).
Proof.
  intros Hb. apply infos_inv in Hb as [[_ ->]|(b' & id & _ & Hid & ->)]; cbn; [split; [lia|done]|].
  destruct (Hold id) as [? ?]; [by eapply list_elem_of_lookup_2|by split].
Qed.

Lemma disk_place_works sd k new pos i : splitting sd k new pos →
  ends (disk_place grows numElements (OnDisk i) new pos sd) (λ sd' '(new', pos'), splitting sd' k new' pos' ∧ (pos' < cap)%nat).
Proof.
  intros Hsp. pose proof Hsp as [H1 H2 (ids' & Hrep & H3 & H4) H5 H6]. unfold disk_place.
  case_decide as Hfull; [|cbn; split; [done|lia]]. rewrite st_bind_run. cbn [st_get].
  assert (pos = cap) as -> by lia.
  match goal with |- ends ((write_ptr new ?f ≫= λ _, ?m) sd) _ =>
    destruct (write_ptr_bind sd new f m H2 H5) as (sd1 & -> & Hv1 & Hf1) end.
  cbn [emplace_back]. rewrite st_bind_run. unfold frame in *. injection Hf1 as E1 E2 E3 E4. rewrite E3, E4.
  destruct (grows OVF _ 1) eqn:Hg; [|cbn; split; [done|by eauto]]. apply grows_bound in Hg. cbn [outcome mret stM_ret].
  assert (length (oSlots (virt sd)) = (length (oSlots (sd_disk sd)) + length (newOverflowSlots sd))%nat) as El by (cbn; apply length_app).
  pose proof (rep_grow (virt sd) _ _ c' ids' _ Hrep (new_ids ids') H3 ltac:(lia)) as Hgrow. cbn zeta in Hgrow.
  replace (Z.of_nat (length (oSlots (virt sd)))) with (Z.of_nat (length (newOverflowSlots sd) + numElements)) in Hgrow by lia.
  rewrite insert_app_r_alt, Nat.sub_diag in Hgrow by lia. cbn in Hgrow. rewrite <- Hv1 in Hgrow. pose proof cap_bounds.
  split; [split|lia].
  - unfold frame. cbn. rewrite E1, E2. exact H1.
  - cbn. by rewrite E3.
  - exists (ids' ++ [Z.of_nat (length (newOverflowSlots sd) + numElements)]). split_and!.
    + replace (virt (mkSplitDisk _ _)) with (set_oSlots (oSlots (virt sd1) ++ [newSlot]) (virt sd1)); [exact Hgrow|].
      unfold virt, set_oSlots. cbn. by rewrite app_assoc.
    + rewrite length_app, Nat.add_1_r, infos_S, list_lookup_middle by done. cbn. do 3 f_equal. lia.
    + rewrite length_app. cbn. lia.
  - done.
  - lia.
Qed.

Lemma splitting_move sd k new pos b i q e : splitting sd k new pos → (pos < cap)%nat →
  infos c ids !! b = Some i → (q < cap)%nat → k = (b * cap + q)%nat → f0 k = Some e → stay e = false →
  ∃ sd', (write_ptr new (put_entry pos e (fingerprint_of (key e))) ≫= λ _,
          write_ptr (OnDisk i) (on_header (setEntryInvalid q)) ≫= λ _, mret (new, S pos)) sd = (sd', Ok (new, S pos)) ∧
    splitting sd' (S k) new (S pos).
Proof.
  intros [H1 H2 (ids' & Hrep & H3 & H4) H5 H6] Hpos Hb Hq Hk He Hs. pose proof chain_lt.
  match goal with |- context [(write_ptr new ?f ≫= λ _, ?m) sd] =>
    destruct (write_ptr_bind sd new f m H2 H5) as (sd1 & -> & Hv1 & Hf1) end.
  unfold frame in *. injection Hf1 as E1 E2 E3 E4.
  match goal with |- context [(write_ptr _ ?f ≫= λ _, ?m) sd1] =>
    destruct (write_ptr_bind sd1 (OnDisk i) f m ltac:(congruence) (old_ptr _ _ Hb)) as (sd2 & -> & Hv2 & Hf2) end.
  unfold frame in *. injection Hf2 as F1 F2 F3 F4. exists sd2. split; [done|].
  pose proof (rep_put _ _ _ _ _ _ Hrep c' ids' _ _ pos e (new_ids ids') H3 Hpos) as Hput.
  pose proof (rep_invalid _ _ _ _ _ _ Hput c ids b i q (old_ids ids') Hb Hq) as Hinv.
  rewrite <- Hv1 in Hinv. cbn [ptr_info] in Hv2. rewrite <- Hv2 in Hinv.
  assert (moved (S k) = moved k ++ [e]) as EM by (by rewrite moved_S, He, Hs).
  split.
  - unfold frame. cbn. rewrite F1, F2, E1, E2. exact H1.
  - congruence.
  - exists ids'. rewrite EM, length_app. cbn [length]. split_and!; [|done|lia]. eapply splitting_rep; [exact Hinv|..].
    + intros p. rewrite fn_lookup_insert, (fn_lookup_insert_ne (split_cells k)), split_cells_old, <- Hk by lia. by apply (remaining_move _ e).
    + intros p. rewrite fn_lookup_insert_ne, fn_lookup_insert, H4 by lia. rewrite EM. apply snoc_cells.
      intros p'. by rewrite split_cells_new.
    + intros d Hd Hd'. unfold split_cells. by rewrite !fn_lookup_insert_ne.
  - done.
  - lia.
Qed.

Lemma disk_split_entry_works sd k new pos b i q : splitting sd k new pos → infos c ids !! b = Some i →
  (q < cap)%nat → k = (b * cap + q)%nat →
  ends (disk_split_entry grows numElements (Z.of_nat c') (OnDisk i) q (new, pos) sd)
    (λ sd' '(new', pos'), splitting sd' (S k) new' pos').
Proof.
  intros Hsp Hb Hq Hk. pose proof Hsp as [H1 H2 (ids' & Hrep & H3 & H4) H5 H6].
  destruct (rep_slot _ _ _ _ _ _ Hrep _ _ _ _ (old_ids ids') Hb) as (sl & Hs & _ & Hh).
  rewrite split_cells_old in Hh. unfold disk_split_entry.
  rewrite st_bind_run, (read_ptr_virt sd (OnDisk i) sl H2 (old_ptr _ _ Hb) Hs).
  rewrite (ho_valid _ _ Hh q), <- Hk, remaining_now.
  case_bool_decide as Hv; cbn [negb].
  2:{ cbn. apply splitting_skip; [done|]. intros e He. destruct Hv. split; [done|by eexists]. }
  destruct Hv as [_ [e He]]. destruct (ho_entry _ _ Hh q e Hq) as [Ee Ef].
  { by rewrite <- Hk, remaining_now. }
  cbn [fst snd]. eapply ends_bind; [by apply (disk_place_works _ _ _ _ i Hsp)|].
  intros sd1 [new1 pos1] [Hsp1 Hpos1]. rewrite Ee, Ef. cbn [deref]. rewrite st_bind_run. cbn [st_lift]. rewrite st_bind_run. cbn [st_lift].
  rewrite st_bind_run. cbn [st_get]. pose proof (sp_frame _ _ _ _ Hsp1) as Hfr.
  assert (indexHeader (sd_disk sd1) = fr.1) as -> by (unfold frame in Hfr; cbn in Hfr; by rewrite <- Hfr).
  rewrite Hsplit. case_decide as Hstay.
  - cbn. apply splitting_skip; [done|]. intros e' He'. assert (e' = e) as -> by congruence. by apply bool_decide_eq_true_2.
  - rewrite st_bind_run, dassert_true.
    + destruct (splitting_move sd1 k new1 pos1 b i q e) as (sd2 & -> & Hsp2); try done. by apply bool_decide_eq_false_2.
    + apply bool_decide_eq_true_2. by destruct (Htargets k e He).
Qed.

Lemma disk_split_slot_works b i : infos c ids !! b = Some i → ∀ todo q sd new pos,
  splitting sd (b * cap + q) new pos → (q + todo = cap)%nat →
  ends (disk_split_slot grows numElements todo q (Z.of_nat c') (OnDisk i) (new, pos) sd)
    (λ sd' '(new', pos'), splitting sd' (S b * cap) new' pos').
Proof.
  intros Hb. induction todo as [|todo IH]; intros q sd new pos Hsp Hq; cbn [disk_split_slot].
  - cbn [outcome mret stM_ret]. by replace (S b * cap)%nat with (b * cap + q)%nat by lia.
  - eapply ends_bind; [by eapply (disk_split_entry_works _ _ _ _ b); [done..|lia|done]|].
    intros sd' [new' pos']. rewrite <- Nat.add_succ_r. intros Hsp'. apply IH; [done|lia].
Qed.

Lemma disk_split_chain_works : ∀ fuel b i sd new pos, infos c ids !! b = Some i → splitting sd (b * cap) new pos →
  (length ids < b + fuel)%nat →
  ends (disk_split_chain grows numElements fuel (Z.of_nat c') (OnDisk i) (new, pos) sd)
    (λ sd' _, ∃ new' pos', splitting sd' (room ids) new' pos').
Proof.
  induction fuel as [|fuel IH]; intros b i sd new pos Hb Hsp Hf.
  { apply lookup_lt_Some in Hb. rewrite infos_length in Hb. lia. }
  cbn [disk_split_chain]. eapply ends_bind.
  { apply (disk_split_slot_works b i Hb cap 0); [by rewrite Nat.add_0_r|lia]. }
  intros sd1 [new1 pos1] Hsp1. pose proof Hsp1 as [H1 H2 (ids' & Hrep & H3 & H4) H5 H6].
  destruct (rep_slot _ _ _ _ _ _ Hrep _ _ _ _ (old_ids ids') Hb) as (sl & Hs & Hn & _).
  rewrite st_bind_run, (read_ptr_virt sd1 (OnDisk i) sl H2 (old_ptr _ _ Hb) Hs), Hn.
  destruct (next_of_chain _ _ _ _ _ _ Hrep c ids b (old_ids ids')) as [[E Hj]|[E Hj]].
  - rewrite decide_True by done. exists new1, pos1. unfold room.
    apply lookup_ge_None in Hj. rewrite infos_length in Hj. apply lookup_lt_Some in Hb. rewrite infos_length in Hb.
    replace (cap * S (length ids))%nat with (S b * cap)%nat by nia. done.
  - rewrite decide_False by done. unfold getNextOvfSlot. pose proof (old_ptr _ _ Hj) as [Hz Hlt]. cbn in Hz, Hlt. specialize (Hlt eq_refl).
    rewrite decide_False by lia. rewrite st_bind_run, st_bind_run. cbn [st_get].
    rewrite st_bind_run, dassert_true by (apply bool_decide_eq_true_2; by rewrite H2). cbn [mret stM_ret].
    apply (IH (S b)); [done..|lia].
Qed.

Lemma upto_remaining k n : (n ≤ k)%nat → upto (remaining k) n = filter (λ e, stay e) (upto f0 n).
Proof.
  induction n as [|n IH]; intros Hn; [done|]. rewrite !upto_S, filter_app, IH by lia. f_equal.
  unfold remaining. rewrite decide_True by lia. destruct (f0 n) as [e|]; [|done].
  rewrite filter_cons. cbn [mbind option_bind]. destruct (stay e); case_decide as Hd; try done; exfalso; apply Hd; auto.
Qed.
End Chain.

(** ** Splitting slots *)
Lemma increment_free h h' : incrementNextSplitSlotId h = Ok h' → firstFreeOverflowSlotId h' = firstFreeOverflowSlotId h.
Proof. unfold incrementNextSplitSlotId, incrementLevel. repeat case_decide; by intros [= <-]. Qed.

(** The chains of the first [start] slots are all on disk. *)
Record split_state (start : nat) (n : Z) (sd : SplitDisk) (L : list (list SlotEntry)) : Prop := {
  ss_num : length (oSlots (sd_disk sd)) = numElements;
  ss_holding : ∃ cs cells, holding (virt sd) L cs cells ∧
    ∀ c ids id, (c < start)%nat → cs !! c = Some ids → id ∈ ids → 0 ≤ id < Z.of_nat numElements;
  ss_placed : placed (indexHeader (sd_disk sd)) (length L) L;
  ss_entries : indexEntries (indexHeader (sd_disk sd)) = n;
  ss_start : (start ≤ length L)%nat;
}.

Lemma disk_split_works start n sd L : split_state start n sd L → (length L < 2 * start)%nat →
  ends (disk_split grows numElements sd) (λ sd' _, ∃ L', split_state start n sd' L' ∧ concat L' ≡ₚ concat L ∧ length L' = S (length L)).
Proof.
  intros [Hnum (cs & cells & Hhold & Hstart) Hplaced Hn Hst] Hlt. destruct (holding_bound _ _ _ _ Hhold) as [Hp Hmax].
  pose proof Hhold as [Hrep Hlen Hcont Hnone].
  destruct (placed_split _ _ _ (S (length L)) Hplaced Hmax) as (c & es & h' & Hes & Ec & Hinc & Hcount & Htargets & Hplaced' & Hperm).
  destruct (holding_chain _ _ _ _ _ _ Hhold Hes) as (ids & Hids & Ees).
  pose proof (pl_level _ _ _ Hplaced) as Hlevel. pose proof (lo_next _ _ Hlevel). pose proof (lo_total _ _ Hlevel).
  assert (c < start)%nat as Hc by lia.
  unfold disk_split. rewrite st_bind_run. unfold sd_lift at 1, add_slots. cbn [sd_disk].
  destruct (grows PRIMARY _ 1) eqn:Hg; [|cbn; split; [done|by eauto]]. apply grows_bound in Hg.
  set (sd1 := mkSplitDisk _ _). rewrite st_bind_run. cbn [st_get].
  assert (length (pSlots (sd_disk sd1)) = S (length cs)) as Ep.
  { cbn. rewrite length_app. cbn. change (pSlots (sd_disk sd)) with (pSlots (virt sd)). lia. }
  rewrite Ep. change (indexHeader (sd_disk sd1)) with (indexHeader (sd_disk sd)). rewrite Ec.
  rewrite st_bind_run, dassert_true by (apply bool_decide_eq_true_2; apply lookup_lt_Some in Hids; lia).
  replace (Z.of_nat (S (length cs)) - 1) with (Z.of_nat (length cs)) by lia.
  set (fr := (indexHeader (sd_disk sd), S (length cs))).
  assert (splitting cs cells c fr sd1 0 (OnDisk (mkSlotInfo (Z.of_nat (length cs)) PRIMARY)) 0) as Hsp.
  { split; [|done| |split; [cbn; lia|done]|lia].
    - unfold frame, fr. cbn [fst]. by rewrite Ep.
    - exists []. split_and!; [|done|done].
      pose proof (rep_append_pSlots _ _ _ _ _ _ 1 Hrep Hnone ltac:(cbn; lia)) as Hrep1.
      eapply rep_ext; [exact Hrep1|]. intros d p _. unfold split_cells.
      destruct (decide (d = c)) as [->|]; [by rewrite fn_lookup_insert|]. rewrite fn_lookup_insert_ne by done.
      destruct (decide (d = length cs)) as [->|]; [|by rewrite fn_lookup_insert_ne].
      rewrite fn_lookup_insert. by apply Hnone. }
  eapply ends_bind.
  { refine (disk_split_chain_works cs cells c ids fr Hids _ Ec _ _ 0 _ sd1 _ 0%nat _ Hsp _).
    - intros id Hid. by eapply Hstart.
    - intros p e He. rewrite Hlen. apply Htargets. rewrite Ees. apply elem_of_upto.
      destruct (decide (p < room ids)%nat); [by exists p|].
      rewrite (ch_end _ _ _ _ (rp_chain _ _ _ _ _ _ Hrep c ids Hids)) in He by (unfold room in *; lia). done.
    - done.
    - pose proof (rep_chain_length _ _ _ _ _ _ _ _ Hrep Hids) as Hl. cbn in Hl |- *. rewrite length_app in Hl. lia. }
  intros sd2 _ (new & pos & [Hf2 Hn2 (ids' & Hrep2 & Hi2 & Hl2) _ Hpos2]). unfold frame in Hf2. cbn [fst] in Hf2. injection Hf2 as E1 E2.
  unfold sd_lift, on_indexHeader. st_run. rewrite E1, Hinc. cbn [outcome].
  eexists. split; [split|split; [exact Hperm|]].
  - done.
  - exists (cs ++ [ids']), (split_cells cs cells c fr (room ids)). split.
    + change (virt _) with (set_indexHeader h' (virt sd2)). split.
      * apply rep_set_header; [done|]. rewrite (increment_free _ _ Hinc). cbn. by rewrite E1.
      * rewrite !length_app, length_insert. cbn. lia.
      * intros d idsd Hd. apply lookup_app_Some in Hd as [Hd|[Hge Hd]].
        -- rewrite lookup_app_l by (rewrite length_insert, <- Hlen; by eapply lookup_lt_Some).
           destruct (decide (d = c)) as [->|Hne].
           ++ rewrite list_lookup_insert_eq by (by eapply lookup_lt_Some). assert (idsd = ids) as -> by congruence.
              rewrite split_cells_old, upto_remaining, <- Ees by done. unfold stays. by rewrite firstn_all.
           ++ rewrite list_lookup_insert_ne by done. unfold split_cells. rewrite fn_lookup_insert_ne by done.
              rewrite fn_lookup_insert_ne by (apply lookup_lt_Some in Hd; lia). by apply Hcont.
        -- apply list_lookup_singleton_Some in Hd as [Hd <-]. assert (d = length cs) as -> by lia.
           rewrite list_lookup_middle by (rewrite length_insert; lia).
           rewrite (split_cells_new _ _ _ _ _ Hids).
           rewrite upto_list by (rewrite <- Hl2; unfold room; nia). unfold moves, moved. by rewrite firstn_all, <- Ees.
      * intros d p Hd. rewrite length_app in Hd. cbn in Hd. pose proof (lookup_lt_Some _ _ _ Hids). unfold split_cells.
        rewrite !fn_lookup_insert_ne by lia. apply Hnone. lia.
    + intros d idsd id Hd Hdi Hid. pose proof (lookup_lt_Some _ _ _ Hids). apply lookup_app_Some in Hdi as [Hdi|[Hge _]]; [by eapply Hstart|lia].
  - rewrite length_app, length_insert, Nat.add_1_r. exact Hplaced'.
  - cbn. congruence.
  - rewrite length_app, length_insert. lia.
  - rewrite length_app, length_insert. cbn. lia.
Qed.

Lemma disk_splits_works start n : ∀ m sd L, split_state start n sd L → (length L + m ≤ 2 * start)%nat →
  ends (disk_splits grows numElements m sd) (λ sd' _, ∃ L', split_state start n sd' L' ∧ concat L' ≡ₚ concat L ∧
    length L' = (length L + m)%nat).
Proof.
  induction m as [|m IH]; intros sd L Hst Hm; cbn [disk_splits].
  - exists L. split_and!; [done..|lia].
  - eapply ends_bind; [apply (disk_split_works start n sd L Hst); lia|]. intros sd1 _ (L1 & Hst1 & Hperm1 & Hlen1).
    eapply ends_mono; [apply (IH sd1 L1 Hst1); lia|]. intros sd2 _ (L2 & Hst2 & Hperm2 & Hlen2).
    exists L2. split_and!; [done|by rewrite Hperm2|lia].
Qed.
End Split.

Lemma push_ovf_works slot d : ends (push_ovf grows slot d) (λ d' _, d' = set_oSlots (oSlots d ++ [slot]) d ∧
  Z.of_nat (S (length (oSlots d))) ≤ MAX_SLOTS).
Proof.
  unfold push_ovf. rewrite st_bind_run. cbn [st_get]. rewrite st_bind_run. unfold add_slots.
  destruct (grows OVF _ 1) eqn:Hg; [|cbn; split; [done|by eauto]]. apply grows_bound in Hg. cbn. split; [|lia].
  unfold update_slot, set_oSlots. cbn. rewrite Nat2Z.id. f_equal.
  pose proof (alter_app_r (λ _, slot) (oSlots d) [newSlot] 0) as E. by rewrite Nat.add_0_r in E.
Qed.

Lemma push_all_works : ∀ slots d, ends (push_all grows slots d) (λ d' _, d' = set_oSlots (oSlots d ++ slots) d).
Proof.
  induction slots as [|s slots IH]; intros d; cbn [push_all].
  - cbn. destruct d. unfold set_oSlots. cbn. by rewrite app_nil_r.
  - eapply ends_bind; [apply push_ovf_works|]. intros d1 _ [-> _]. eapply ends_mono; [apply IH|].
    intros d2 _ ->. unfold set_oSlots. cbn. by rewrite <- app_assoc.
Qed.

(** ** Reserving slots *)
Record disk_state (d : InMemHashIndex) (L : list (list SlotEntry)) : Prop := {
  ds_stored : stored d L;
  ds_placed : placed (indexHeader d) (length L) L;
  ds_entries : indexEntries (indexHeader d) = Z.of_nat (length (concat L));
}.

Lemma splitSlots_works numElements d L m : disk_state d L → (m ≤ length L)%nat → numElements = length (oSlots d) →
  ends (splitSlots grows numElements m d) (λ d' _, ∃ L', disk_state d' L' ∧ concat L' ≡ₚ concat L ∧
    length L' = (length L + m)%nat).
Proof.
  intros [(cs & cells & Hhold) Hplaced Hn] Hm Hnum.
  assert (split_state numElements (length L) (indexEntries (indexHeader d)) (mkSplitDisk d []) L) as Hst.
  { split; try done. exists cs, cells. split.
    - replace (virt _) with d; [done|]. unfold virt, set_oSlots. cbn. rewrite app_nil_r. by destruct d.
    - intros c ids id _ Hc Hid. rewrite Hnum. apply (rp_range _ _ _ _ _ _ (hl_rep _ _ _ _ Hhold)).
      rewrite app_nil_r. apply list_elem_of_lookup in Hid as [b Hb]. by eapply concat_elem. }
  pose proof (disk_splits_works numElements _ _ m _ _ Hst ltac:(lia)) as Hends. unfold splitSlots.
  destruct (disk_splits _ _ _ _) as [sd [[]|e|]]; cbn [outcome] in Hends; [|done..].
  destruct Hends as (L' & [H1 (cs' & cells' & Hhold' & _) H3 H4 _] & Hperm & Hlen).
  eapply ends_mono; [apply push_all_works|]. intros d' _ ->. exists L'. split; [split|done].
  - by exists cs', cells'.
  - done.
  - change (indexEntries _) with (indexEntries (indexHeader (sd_disk sd))). by rewrite H4, Hn, Hperm.
Qed.

Lemma holding_append d L cs cells m : holding d L cs cells → Z.of_nat (length (pSlots d) + m) ≤ MAX_SLOTS →
  holding (set_pSlots (pSlots d ++ replicate m newSlot) d) (L ++ replicate m []) (cs ++ replicate m []) cells.
Proof.
  intros [H1 H2 H3 H4] Hm. split.
  - by apply rep_append_pSlots.
  - rewrite !length_app, !length_replicate. lia.
  - intros c ids Hc. apply lookup_app_Some in Hc as [Hc|[Hge Hc]].
    + rewrite lookup_app_l by (rewrite <- H2; by eapply lookup_lt_Some). by apply H3.
    + apply lookup_replicate in Hc as [-> Hlt]. rewrite lookup_app_r by lia. rewrite (upto_ext _ (λ p, [] !! p)).
      * rewrite upto_list by (cbn; lia). apply lookup_replicate. split; [done|lia].
      * intros p _. by apply H4.
  - intros c p Hc. rewrite length_app in Hc. apply H4. lia.
Qed.

Lemma placed_nil h n L : level_ok h (Z.of_nat n) → length L = n → concat L = [] → placed h n L.
Proof.
  intros Hl Hlen Hnil. split; [done..|]. intros c es e Hc He. exfalso. apply (not_elem_of_nil e). rewrite <- Hnil.
  apply list_elem_of_lookup in He as [b Hb]. by eapply concat_elem.
Qed.

(** An index on disk; without entries the header may be for another number of slots. *)
Record disk_ok (d : InMemHashIndex) (L : list (list SlotEntry)) : Prop := {
  do_stored : stored d L;
  do_entries : indexEntries (indexHeader d) = Z.of_nat (length (concat L));
  do_masks : masks_ok (indexHeader d);
  do_placed : concat L ≠ [] → placed (indexHeader d) (length L) L;
}.

(** The slots needed for new entries are no fewer than there are, and at most twice as many. *)
Definition fits (newEntries : Z) (d : InMemHashIndex) : bool :=
  let required := disk_required_slots (indexHeader d) newEntries in
  bool_decide (Z.of_nat (length (pSlots d)) ≤ required) &&
  (bool_decide (indexEntries (indexHeader d) = 0) || bool_decide (required ≤ 2 * Z.of_nat (length (pSlots d)))).

Lemma disk_reserve_works numElements d L newEntries : disk_ok d L → fits newEntries d = true →
  (Z.of_nat (length (pSlots d)) < disk_required_slots (indexHeader d) newEntries → numElements = length (oSlots d)) →
  ends (disk_reserve grows numElements newEntries d) (λ d' _, ∃ L', disk_state d' L' ∧ concat L' ≡ₚ concat L ∧
    Z.of_nat (length L') = disk_required_slots (indexHeader d) newEntries).
Proof.
  intros [(cs & cells & Hhold) Hn Hmasks Hplaced] Hfits Hnum. unfold fits in Hfits. set (req := disk_required_slots _ _) in *.
  apply andb_true_iff in Hfits as [Hle%bool_decide_eq_true Hdouble]. destruct (holding_bound _ _ _ _ Hhold) as [Hp Hmax].
  assert (2 ^ currentLevel (indexHeader d) ≤ req) by (unfold req, disk_required_slots; lia).
  unfold disk_reserve. rewrite st_bind_run. cbn [st_get]. fold req. case_decide as Hzero.
  - assert (concat L = []) as Hnil by (apply length_zero_iff_nil; lia). set (m := (Z.to_nat req - length (pSlots d))%nat).
    eapply ends_bind with (R := λ d' _, d' = set_pSlots (pSlots d ++ replicate m newSlot) d ∧ Z.of_nat (length (pSlots d) + m) ≤ MAX_SLOTS).
    { destruct (decide (Z.of_nat (length (pSlots d)) < req)) as [Hlt|Hlt].
      - unfold add_slots. destruct (grows PRIMARY _ _) eqn:Hg; [|cbn; split; [done|by eauto]]. apply grows_bound in Hg. done.
      - cbn. assert (m = 0%nat) as -> by lia. cbn. split; [|lia]. rewrite app_nil_r. by destruct d. }
    intros d1 _ [-> Hm]. pose proof (holding_append _ _ _ _ m Hhold Hm) as Hhold1. unfold on_indexHeader. st_run.
    change (indexHeader (set_pSlots _ d)) with (indexHeader d).
    destruct (header_for_ok req (indexHeader d) Hmasks) as (h' & -> & Hlevel & Hcount & Hfree); [lia|]. cbn [outcome].
    assert (concat (L ++ replicate m []) = []) as Hnil'. { rewrite concat_app, Hnil. clear. induction m; done. }
    assert (Z.of_nat (length (L ++ replicate m [])) = req) as Hlen'. { rewrite length_app, length_replicate. lia. }
    exists (L ++ replicate m []). split; [split|split; [by rewrite Hnil, Hnil'|done]].
    + exists (cs ++ replicate m []), cells. destruct Hhold1. split; [|done..]. by apply rep_set_header.
    + apply placed_nil; [by rewrite Hlen'|done|done].
    + cbn. by rewrite Hcount, Hzero, Hnil'.
  - apply orb_true_iff in Hdouble as [?%bool_decide_eq_true|Hdouble%bool_decide_eq_true]; [done|].
    assert (concat L ≠ []) as Hne by (intros E; rewrite E in Hn; done).
    assert (disk_state d L) as Hd by (split; [by exists cs, cells|by apply Hplaced|done]).
    rewrite wrap_id by (unfold in_u, MAX_SLOTS in *; lia).
    destruct (decide (Z.of_nat (length (pSlots d)) < req)) as [Hlt|Hge].
    + eapply ends_mono; [apply (splitSlots_works _ _ _ _ Hd); [lia|by apply Hnum]|].
      intros d' _ (L' & ? & ? & Hlen). exists L'. split; [done|]. split; [done|lia].
    + replace (Z.to_nat (req - Z.of_nat (length (pSlots d)))) with 0%nat by lia. cbn. exists L.
      split; [by destruct d|]. split; [done|lia].
Qed.
(** ** Merging into one chain *)
Lemma holding_grow d L cs cells c ids i : holding d L cs cells → cs !! c = Some ids →
  infos c ids !! length ids = Some i → Z.of_nat (S (length (oSlots d))) ≤ MAX_SLOTS →
  let id := Z.of_nat (length (oSlots d)) in
  let d' := update_slot i (on_header (set_nextOvfSlotId id)) d in
  holding (set_oSlots (oSlots d' ++ [newSlot]) d') L (<[c := ids ++ [id]]> cs) cells.
Proof.
  intros [H1 H2 H3 H4] Hc Hi Hmax id d'. pose proof (rep_grow _ _ _ _ _ _ H1 Hc Hi Hmax) as Hrep. split.
  - exact Hrep.
  - by rewrite length_insert.
  - intros c' ids' Hc'. destruct (decide (c' = c)) as [->|Hne].
    + rewrite list_lookup_insert_eq in Hc' by (by eapply lookup_lt_Some). injection Hc' as <-. rewrite (H3 c ids Hc). f_equal.
      symmetry. apply upto_more; [unfold room; rewrite length_app; lia|]. apply (ch_end _ _ _ _ (rp_chain _ _ _ _ _ _ H1 c ids Hc)).
    + rewrite list_lookup_insert_ne in Hc' by done. by apply H3.
  - intros c' p. rewrite length_insert. apply H4.
Qed.

(** An empty position of the chain [c], in a slot that may be new. *)
Definition empty_place (d : InMemHashIndex) (L : list (list SlotEntry)) (c : nat) (i : SlotInfo) (pos : nat) : Prop :=
  ∃ cs cells ids b, holding d L cs cells ∧ cs !! c = Some ids ∧ infos c ids !! b = Some i ∧ (pos < cap)%nat ∧
    cells c (b * cap + pos)%nat = None.
Definition any_place (d : InMemHashIndex) (L : list (list SlotEntry)) (c : nat) (i : SlotInfo) (pos : nat) : Prop :=
  ∃ cs cells ids b, holding d L cs cells ∧ cs !! c = Some ids ∧ infos c ids !! b = Some i ∧ (pos ≤ cap)%nat.

Lemma find_empty_works d L cs cells c ids : holding d L cs cells → cs !! c = Some ids → ∀ fuel b i pos,
  infos c ids !! b = Some i → (pos ≤ cap)%nat → ((length ids - b) * S cap + (cap - pos) + 2 ≤ fuel)%nat →
  ends (find_empty grows fuel i pos d) (λ d' '(i', pos'), empty_place d' L c i' pos' ∧ indexHeader d' = indexHeader d).
Proof.
  intros Hhold Hc. pose proof (hl_rep _ _ _ _ Hhold) as Hrep. pose proof cap_bounds as Hcap.
  induction fuel as [|fuel IH]; intros b i pos Hb Hpos Hf; [nia|]. cbn [find_empty].
  destruct (read_chain _ _ _ _ _ _ Hrep _ _ _ _ Hc Hb) as (sl & Hr & Hn & Hh). rewrite st_bind_run, Hr.
  rewrite (ho_valid _ _ Hh pos).
  destruct (bool_decide (pos < cap ∧ is_Some (cells c (b * cap + pos)))%nat || bool_decide (cap ≤ pos)%nat) eqn:Hv.
  2:{ apply orb_false_iff in Hv as [Hv%bool_decide_eq_false Hlt%bool_decide_eq_false]. cbn. split; [|done].
      exists cs, cells, ids, b. split_and!; [done..|lia|]. destruct (cells c _); [|done]. destruct Hv. split; [lia|by eexists]. }
  destruct (decide (cap ≤ S pos)%nat) as [Hlast|Hnext]; [|apply (IH b); [done|lia..]].
  rewrite st_bind_run. cbn [st_get]. rewrite Hn. destruct (next_of_chain _ _ _ _ _ _ Hrep c ids b Hc) as [[E Hj]|[E Hj]].
  - rewrite decide_True by done. apply lookup_ge_None in Hj. rewrite infos_length in Hj.
    pose proof (lookup_lt_Some _ _ _ Hb) as Hb'. rewrite infos_length in Hb'. assert (b = length ids) as -> by lia.
    set (id := Z.of_nat (length (oSlots d))). set (d1 := update_slot i (on_header (set_nextOvfSlotId id)) d).
    eapply ends_bind with (R := λ d' next, next = id ∧ holding d' L (<[c := ids ++ [id]]> cs) cells ∧ indexHeader d' = indexHeader d).
    { rewrite st_bind_run, write_slot_run. eapply ends_bind; [apply push_ovf_works|]. intros d2 _ [-> Hmax].
      destruct (update_slot_lengths i (on_header (set_nextOvfSlotId id)) d) as (_ & El & Eh & _).
      cbn [outcome mret stM_ret]. split_and!; [done|by apply holding_grow; [..|rewrite <- El]|exact Eh]. }
    intros d2 next (-> & Hhold2 & Hh2). assert (<[c := ids ++ [id]]> cs !! c = Some (ids ++ [id])) as Hc2.
    { apply list_lookup_insert_eq. by eapply lookup_lt_Some. }
    assert (infos c (ids ++ [id]) !! S (length ids) = Some (mkSlotInfo id OVF)) as Hi2 by (by rewrite infos_S, list_lookup_middle).
    pose proof (hl_rep _ _ _ _ Hhold2) as Hrep2.
    destruct (read_chain _ _ _ _ _ _ Hrep2 _ _ _ _ Hc2 Hi2) as (sl2 & Hr2 & Hn2 & Hh2').
    rewrite st_bind_run, Hr2, st_bind_run, Hn2.
    assert (next_of (ids ++ [id]) (S (length ids)) = INVALID_OVERFLOW_SLOT_ID) as ->.
    { unfold next_of. rewrite lookup_ge_None_2; [done|]. rewrite length_app. cbn. lia. }
    pose proof (rep_info _ _ _ _ _ _ Hrep2 _ _ _ _ Hc2 Hi2) as Hid. cbn in Hid.
    rewrite dassert_true by (apply bool_decide_eq_true_2, INVALID_big; lia).
    assert (cells c (S (length ids) * cap + 0)%nat = None) as Hnone.
    { apply (ch_end _ _ _ _ (rp_chain _ _ _ _ _ _ Hrep c ids Hc)). lia. }
    destruct fuel as [|fuel]; [lia|]. cbn [find_empty]. rewrite st_bind_run, Hr2, (ho_valid _ _ Hh2' 0), Hnone.
    rewrite bool_decide_eq_false_2 by (intros [_ [? ?]]; done). rewrite bool_decide_eq_false_2 by lia. cbn. split; [|done].
    exists (<[c := ids ++ [id]]> cs), cells, (ids ++ [id]), (S (length ids)). split_and!; [done..|lia|done].
  - rewrite decide_False by done. pose proof (rep_info_range _ _ _ _ _ _ _ _ _ _ Hrep Hc Hj) as [Hr0 Hr1]. cbn in Hr0, Hr1. specialize (Hr1 eq_refl).
    rewrite st_bind_run, st_bind_run, dassert_true by (apply bool_decide_eq_true_2; lia). cbn [mret stM_ret].
    destruct (read_chain _ _ _ _ _ _ Hrep _ _ _ _ Hc Hj) as (sl2 & Hr2 & Hn2 & _). rewrite st_bind_run, Hr2, st_bind_run, Hn2.
    rewrite dassert_true.
    { apply (IH (S b)); [done|lia|]. pose proof (lookup_lt_Some _ _ _ Hj) as Hb'. rewrite infos_length in Hb'.
      replace (length ids - b)%nat with (S (length ids - S b))%nat in Hf by lia. cbn in Hf. lia. }
    apply bool_decide_eq_true_2. intros E2. destruct (next_of_chain _ _ _ _ _ _ Hrep c ids (S b) Hc) as [[E3 _]|[E3 Hj2]]; [congruence|].
    rewrite <- E2 in Hj2. destruct (rep_infos_inj _ _ _ _ _ _ Hrep c c ids ids (S b) (S (S b)) _ Hc Hc Hj Hj2). lia.
Qed.

(** An entry at an empty position. *)
Lemma disk_put_works d L c i pos e : empty_place d L c i pos → disk_state d L →
  getPrimarySlotIdForHash (indexHeader d) (hash (key e)) = Z.of_nat c → Z.of_nat (length (concat L)) < UINT64_MAX →
  ∃ d' L', (write_slot i (put_entry pos e (fingerprint_of (key e))) ≫= λ _, count_entry) d = (d', Ok ()) ∧
    disk_state d' L' ∧ any_place d' L' c i (S pos) ∧ concat L' ≡ₚ e :: concat L ∧ length L' = length L ∧
    ∀ hash, getPrimarySlotIdForHash (indexHeader d') hash = getPrimarySlotIdForHash (indexHeader d) hash.
Proof.
  intros (cs & cells & ids & b & Hhold & Hc & Hb & Hpos & Hnone) [_ [_ Hlevel Hentry] Hn] Hprim Hmax.
  pose proof (hl_contents _ _ _ _ Hhold c ids Hc) as Hl. pose proof (lookup_lt_Some _ _ _ Hl) as Hlt.
  set (put := put_entry pos e (fingerprint_of (key e))). set (q := (b * cap + pos)%nat) in *.
  set (l' := upto (<[q := Some e]> (cells c)) (room ids)).
  assert (l' ≡ₚ e :: upto (cells c) (room ids)) as Hl'.
  { apply upto_put; [done|]. apply lookup_lt_Some in Hb. rewrite infos_length in Hb. unfold room. nia. }
  pose proof (rep_put _ _ _ _ _ _ (hl_rep _ _ _ _ Hhold) c ids b i pos e Hc Hb Hpos) as Hput. fold put q in Hput.
  pose proof (holding_one _ _ _ _ _ _ _ c ids Hhold Hput eq_refl (lookup_lt_Some _ _ _ Hc) Hc) as Hhold1.
  rewrite fn_lookup_insert in Hhold1. fold l' in Hhold1.
  assert (holding (update_slot i put d) (<[c := l']> L) cs (<[c := <[q := Some e]> (cells c)]> (cells))) as Hhold2.
  { apply Hhold1. intros c' Hne. split; [done|by apply fn_lookup_insert_ne]. }
  assert (concat (<[c := l']> L) ≡ₚ e :: concat L) as Hperm.
  { apply (Permutation_app_inv_r (upto (cells c) (room ids))). rewrite (concat_insert_swap _ _ _ _ Hl), Hl'.
    by rewrite <- Permutation_middle. }
  destruct (update_slot_lengths i put d) as (_ & _ & Eh & _).
  eexists _, (<[c := l']> L). split; [rewrite st_bind_run, write_slot_run; done|].
  cbn [indexHeader set_indexHeader]. rewrite Eh, Hn, wrap_id by (unfold in_u, UINT64_MAX in *; lia).
  assert (holding (set_indexHeader (set_indexEntries (Z.of_nat (length (concat L)) + 1) (indexHeader d)) (update_slot i put d))
    (<[c := l']> L) cs (<[c := <[q := Some e]> (cells c)]> cells)) as Hhold3.
  { destruct Hhold2. split; [|done..]. apply rep_set_header; [done|by rewrite Eh]. }
  split_and!; [split|..].
  - by exists cs, (<[c := <[q := Some e]> (cells c)]> cells).
  - cbn. rewrite length_insert. split; [by rewrite length_insert|destruct Hlevel; by split|].
    intros c' es' e' Hc' He'. change (getPrimarySlotIdForHash (indexHeader d) (hash (key e')) = Z.of_nat c').
    destruct (decide (c' = c)) as [->|Hne].
    + rewrite list_lookup_insert_eq in Hc' by done. injection Hc' as <-. rewrite Hl' in He'.
      apply elem_of_cons in He' as [->|He']; [done|by eapply Hentry].
    + rewrite list_lookup_insert_ne in Hc' by done. by eapply Hentry.
  - cbn. rewrite Hperm. cbn. lia.
  - eexists cs, _, ids, b. split_and!; [done..|lia].
  - done.
  - apply length_insert.
  - done.
Qed.

(** ** Entries on their way *)
Definition view_of (h : HashIndexHeader) (e : SlotEntry) : HashIndexEntryView :=
  mkView (getPrimarySlotIdForHash h (hash (key e))) (fingerprint_of (key e)) e.

Section Merge.
Variable h0 : HashIndexHeader.
#[local] Abbreviation slot_of e := (getPrimarySlotIdForHash h0 (hash (key e))).
#[local] Abbreviation views es := (view_of h0 <$> es).

(** The slots on disk for which the entries are meant, and room for [more] entries. *)
Record merging (d : InMemHashIndex) (L : list (list SlotEntry)) (more : nat) : Prop := {
  mg_state : disk_state d L;
  mg_slots hash : getPrimarySlotIdForHash (indexHeader d) hash = getPrimarySlotIdForHash h0 hash;
  mg_max : Z.of_nat (length (concat L) + more) ≤ UINT64_MAX;
}.

(** The entries [es] were merged. *)
Record merged_in (d : InMemHashIndex) (L : list (list SlotEntry)) (more : nat) (es : list SlotEntry)
    (L' : list (list SlotEntry)) : Prop := {
  mi_merging : merging d L' more;
  mi_entries : concat L' ≡ₚ es ++ concat L;
  mi_length : length L' = length L;
}.

Lemma merged_none d L n : merging d L n → merged_in d L n [] L.
Proof. by split. Qed.

Lemma merged_trans d1 L n1 es1 L1 d2 n2 es2 L2 : merged_in d1 L n1 es1 L1 → merged_in d2 L1 n2 es2 L2 →
  merged_in d2 L n2 (es1 ++ es2) L2.
Proof.
  intros [_ P1 E1] [? P2 E2]. split; [done| |congruence].
  by rewrite P2, P1, (Permutation_app_comm es1 es2), app_assoc.
Qed.

Lemma merge_entries_works c : ∀ es d L i pos merged n, merging d L (length es + n) → any_place d L c i pos →
  ends (merge_entries grows (views es) (Z.of_nat c) i pos merged d) (λ d' m, ∃ L' es1 es2, es = es1 ++ es2 ∧
    m = (merged + length es1)%nat ∧ merged_in d' L (length es2 + n) es1 L' ∧
    (∀ e rest, es = e :: rest → slot_of e = Z.of_nat c → es1 ≠ [])).
Proof.
  induction es as [|e es IH]; intros d L i pos merged n Hm Hp; cbn [merge_entries fmap list_fmap].
  { exists L, [], []. split_and!; [done|cbn; lia|by apply merged_none|done]. }
  cbn [diskSlotId view_of entry fingerprint]. case_decide as Hslot.
  { exists L, [], (e :: es). split_and!; [done|cbn; lia|by apply merged_none|]. by intros ? ? [= -> ->]. }
  rewrite st_bind_run. cbn [st_get].
  destruct Hp as (cs & cells & ids & b & Hhold & Hc & Hb & Hpos). pose proof (hl_rep _ _ _ _ Hhold) as Hrep.
  pose proof (rep_chain_length _ _ _ _ _ _ _ _ Hrep Hc) as Hlen.
  eapply ends_bind; [apply (find_empty_works _ _ _ _ _ _ Hhold Hc _ b); [done|done|nia]|].
  intros d1 [i1 pos1] [Hplace Hh1]. pose proof Hm as [Hstate Hslots Hmax].
  assert (disk_state d1 L) as Hstate1.
  { pose proof Hplace as (cs1 & cells1 & _ & _ & Hhold1 & _). destruct Hstate as [_ H2 H3].
    split; rewrite ?Hh1; [by exists cs1, cells1|done..]. }
  assert (pos1 < cap)%nat as Hpos1 by by destruct Hplace as (? & ? & ? & ? & ? & ? & ? & ? & ?).
  rewrite st_bind_run, dassert_true by by apply bool_decide_eq_true_2.
  destruct (disk_put_works d1 L c i1 pos1 e Hplace Hstate1) as (d2 & L2 & Hrun & Hstate2 & Hplace2 & Hperm2 & Hlen2 & Hslots2).
  { by rewrite Hh1, Hslots. }
  { cbn in Hmax. lia. }
  rewrite st_bind_run, write_slot_run in Hrun. rewrite st_bind_run, write_slot_run, st_bind_run, dassert_true.
  2:{ apply bool_decide_eq_true_2. split; [done|]. by rewrite Hslots. }
  rewrite st_bind_run, Hrun.
  assert (merging d2 L2 (length es + n)) as Hm2.
  { split; [done| |].
    - intros hash. by rewrite Hslots2, Hh1.
    - rewrite Hperm2. cbn in *. lia. }
  eapply ends_mono; [apply (IH d2 L2 i1 (S pos1) (S merged) n Hm2 Hplace2)|].
  intros d3 m (L3 & es1 & es2 & -> & -> & Hin & _). exists L3, (e :: es1), es2. split_and!; [done|cbn; lia| |done].
  apply (merged_trans d2 L (length (es1 ++ es2) + n) [e] L2 d3 _ es1); [|done].
  split; [by rewrite length_app in *|by rewrite Hperm2|done].
Qed.

(** The last entries of a partition go into the slot of the last one. *)
Lemma mergeSlot_works es e d L n : merging d L (length (es ++ [e]) + n) →
  ends (mergeSlot grows (views (es ++ [e])) (slot_of e) d) (λ d' m, ∃ L' es1 es2, es ++ [e] = es1 ++ es2 ∧
    m = length es2 ∧ es2 ≠ [] ∧ merged_in d' L (length es1 + n) es2 L').
Proof.
  intros Hm. pose proof Hm as [[(cs & cells & Hhold) [Hlen Hlevel Hentry] Hn] Hslots Hmax].
  pose proof (primary_range _ _ Hlevel (hash (key e))) as Hr. rewrite Hslots in Hr. set (c := Z.to_nat (slot_of e)).
  assert (slot_of e = Z.of_nat c) as Ec by lia. rewrite Ec.
  destruct (lookup_lt_is_Some_2 cs c) as [ids Hc]; [pose proof (hl_length _ _ _ _ Hhold); lia|].
  pose proof (hl_rep _ _ _ _ Hhold) as Hrep. unfold mergeSlot.
  destruct (read_chain _ _ _ _ _ _ Hrep _ _ _ _ Hc (infos_0 c ids)) as (sl & Hrd & Hnx & _).
  rewrite st_bind_run, Hrd, st_bind_run. cbn [st_get]. rewrite st_bind_run, Hnx, dassert_true.
  2:{ apply bool_decide_eq_true_2. destruct (next_of_chain _ _ _ _ _ _ Hrep c ids 0 Hc) as [[E _]|[_ Hj]]; [by left|right].
      destruct (rep_info_range _ _ _ _ _ _ _ _ _ _ Hrep Hc Hj) as [? Hr2]. cbn in *. specialize (Hr2 eq_refl). lia. }
  assert (rev (views (es ++ [e])) = views (e :: rev es)) as ->.
  { rewrite <- (rev_unit es e). symmetry. apply map_rev. }
  eapply ends_mono; [apply (merge_entries_works c (e :: rev es) d L _ 0 0 n)|].
  - rewrite length_app in Hm. cbn [length] in *. rewrite length_rev. by rewrite Nat.add_1_r in Hm.
  - exists cs, cells, ids, 0%nat. split_and!; [done..|lia].
  - intros d' m (L' & es1 & es2 & Hes & -> & Hin & Hne). exists L', (rev es2), (rev es1).
    assert (es ++ [e] = rev es2 ++ rev es1) as E.
    { rewrite <- rev_app_distr, <- Hes. cbn. by rewrite rev_involutive. }
    assert (rev es1 ≡ₚ es1) as Prev by by rewrite <- Permutation_rev.
    split_and!; [done|by rewrite length_rev| |].
    + intros Enil. apply (Hne e (rev es)); [done|done|]. by rewrite <- (rev_involutive es1), Enil.
    + destruct Hin as [H1 H2 H3]. rewrite length_rev. split; [done|by rewrite Prev|done].
Qed.
(** *** Passes over partitions *)
#[local] Abbreviation parts ps := ((λ p : list SlotEntry * bool, (views p.1, p.2)) <$> ps).
Definition total (ps : list (list SlotEntry * bool)) : nat := length (concat ps.*1).

Lemma merge_pass_works : ∀ ps page d L n, Forall (λ p, p.2 = true → p.1 = []) ps → merging d L (total ps + n) →
  ends (merge_pass grows (parts ps) page d) (λ d' r, ∃ ps' es L', r = parts ps' ∧
    Forall (λ p, p.2 = true ↔ p.1 = []) ps' ∧ concat ps.*1 ≡ₚ es ++ concat ps'.*1 ∧
    merged_in d' L (total ps' + n) es L' ∧ (page = None → concat ps.*1 ≠ [] → es ≠ [])).
Proof.
  induction ps as [|[pe dn] ps IH]; intros page d L n Hok Hm; cbn [merge_pass fmap list_fmap fst snd].
  { exists [], [], L. split_and!; [done|constructor|done|by apply merged_none|done]. }
  apply Forall_cons in Hok as [Hdone Hok]. cbn [fst snd] in Hdone.
  assert (total ((pe, dn) :: ps) = (length pe + total ps)%nat) as Etotal by (unfold total; cbn; apply length_app).
  rewrite Etotal in Hm. induction pe as [|e pe _] using rev_ind.
  { cbn [last]. eapply ends_bind; [by apply (IH page d L n)|].
    intros d1 r (ps' & es & L' & -> & Hok' & Hperm & Hin & Hne). exists (([], true) :: ps'), es, L'.
    split_and!; [done|by constructor|done..]. }
  destruct dn; [by destruct pe; specialize (Hdone eq_refl)|].
  rewrite fmap_app, fmap_cons, fmap_nil, last_snoc. cbn [diskSlotId view_of]. set (pg := slot_of e / slotsPerPage).
  destruct (decide (pg = default pg page)) as [Hpage|Hpage].
  - eapply ends_bind with (R := λ d' p, ∃ es1 es2 L', pe ++ [e] = es1 ++ es2 ∧ p = (views es1, bool_decide (es1 = [])) ∧ es2 ≠ [] ∧
      merged_in d' L (length es1 + (total ps + n)) es2 L').
    { eapply ends_bind.
      - replace (views pe ++ [view_of h0 e]) with (views (pe ++ [e])) by apply (fmap_app (view_of h0) pe [e]).
        apply (mergeSlot_works pe e d L (total ps + n)%nat). by rewrite Nat.add_assoc.
      - intros d1 m (L1 & es1 & es2 & E & -> & Hne & Hin).
        replace (views pe ++ [view_of h0 e]) with (views es1 ++ views es2) by (rewrite <- !fmap_app, <- E; apply (fmap_app (view_of h0) pe [e])).
        rewrite st_bind_run, dassert_true by (apply bool_decide_eq_true_2; rewrite length_app, !length_fmap; lia).
        cbn [outcome mret stM_ret]. exists es1, es2, L1. split_and!; [done| |done..].
        rewrite length_app, !length_fmap, Nat.add_sub, take_app_length' by (by rewrite length_fmap).
        f_equal. apply bool_decide_ext. by destruct es1. }
    intros d1 p (es1 & es2 & L1 & E & -> & Hne & Hin). pose proof (mi_merging _ _ _ _ _ Hin) as Hm1.
    eapply ends_bind; [apply (IH (Some (default pg page)) d1 L1 (length es1 + n)%nat Hok)|].
    { destruct Hm1 as [H1 H2 H3]. split; [done..|lia]. }
    intros d2 r (ps' & es & L2 & -> & Hok' & Hperm & Hin2 & _). exists ((es1, bool_decide (es1 = [])) :: ps'), (es2 ++ es), L2.
    split_and!.
    + done.
    + constructor; [apply bool_decide_eq_true|done].
    + cbn. rewrite E, Hperm, (Permutation_app_comm es1 es2), <- !app_assoc. f_equiv. apply Permutation_app_swap_app.
    + apply (merged_trans d1 L _ es2 L1 d2 _ es L2 Hin). destruct Hin2 as [[H1 H2 H3] H4 H5].
      split; [split; [done..|]|done|done]. unfold total in *. cbn. rewrite length_app. lia.
    + intros _ _. by destruct es2.
  - destruct page as [page|]; [|done]. rewrite st_bind_run. cbn [mret stM_ret].
    eapply ends_bind; [apply (IH (Some page) d L (length (pe ++ [e]) + n)%nat Hok)|].
    { destruct Hm as [H1 H2 H3]. split; [done..|lia]. }
    intros d1 r (ps' & es & L1 & -> & Hok' & Hperm & Hin & _). exists ((pe ++ [e], false) :: ps'), es, L1. split_and!.
    + cbn. by rewrite fmap_app.
    + constructor; [|done]. cbn. split; [done|]. by destruct pe.
    + cbn. rewrite Hperm. apply Permutation_app_swap_app.
    + destruct Hin as [[H1 H2 H3] H4 H5]. split; [split; [done..|]|done|done]. unfold total in *. cbn. rewrite length_app. lia.
    + done.
Qed.

Lemma merged_perm d L n es es' L' : es ≡ₚ es' → merged_in d L n es L' → merged_in d L n es' L'.
Proof. intros E [H1 H2 H3]. split; [done|by rewrite <- E|done]. Qed.

Lemma merge_passes_works : ∀ fuel ps d L n, Forall (λ p, p.2 = true → p.1 = []) ps →
  (Forall (λ p, p.2 = true ↔ p.1 = []) ps ∧ total ps ≤ fuel ∨ total ps < fuel)%nat → merging d L (total ps + n) →
  ends (merge_passes grows fuel (parts ps) d) (λ d' _, ∃ L', merged_in d' L n (concat ps.*1) L').
Proof.
  assert (∀ ps, forallb snd (parts ps) = true → Forall (λ p, p.2 = true → p.1 = []) ps → concat ps.*1 = []) as Hempty.
  { intros ps Hall Hok. induction Hok as [|[pe dn] ps Hd _ IH]; [done|]. cbn in *. apply andb_true_iff in Hall as [Hd' Hall].
    by rewrite Hd, IH. }
  induction fuel as [|fuel IH]; intros ps d L n Hok Hf Hm; cbn [merge_passes];
    (destruct (forallb snd (parts ps)) eqn:Hall;
     [exists L; rewrite (Hempty ps Hall Hok) in *; apply merged_none; destruct Hm as [H1 H2 H3]; split; [done..|lia]|]).
  - exfalso. destruct Hf as [[Hnorm Hf]|Hf]; [|lia]. apply not_true_iff_false in Hall. apply Hall.
    unfold total in Hf. clear - Hnorm Hf. induction Hnorm as [|[pe dn] ps Hd _ IH]; [done|]. cbn in *.
    rewrite length_app in Hf. rewrite IH, andb_true_r by lia. apply Hd, length_zero_iff_nil. lia.
  - eapply ends_bind; [by apply (merge_pass_works ps None d L n)|].
    intros d1 r (ps' & es & L1 & -> & Hok' & Hperm & Hin & Hne). pose proof (mi_merging _ _ _ _ _ Hin) as Hm1.
    assert (total ps = (length es + total ps')%nat) as Et by (unfold total; by rewrite Hperm, length_app).
    eapply ends_mono; [apply (IH ps' d1 L1 n)|].
    + eapply Forall_impl; [exact Hok'|]. by intros p [? _].
    + left. split; [done|]. destruct Hf as [[Hnorm Hf]|Hf]; [|lia].
      assert (es ≠ []) as Hes.
      { apply Hne; [done|]. intros Enil. apply not_true_iff_false in Hall. apply Hall.
        clear - Hnorm Enil. induction Hnorm as [|[pe dn] ps Hd _ IH]; [done|]. cbn in *. apply app_eq_nil in Enil as [-> Enil].
        rewrite IH, andb_true_r by done. by apply Hd. }
      destruct es; [done|]. cbn in Et. lia.
    + done.
    + intros d2 _ (L2 & Hin2). exists L2. apply (merged_perm _ _ _ (es ++ concat ps'.*1)); [by rewrite Hperm|].
      eapply merged_trans; [exact Hin|exact Hin2].
Qed.
End Merge.

(** ** The local entries, a page of slots at a time *)
Lemma slot_views_works h (es : list SlotEntry) s sl : holds sl (λ j, es !! (s + j)%nat) → ∀ todo pos,
  (pos + todo ≤ (length es - s) `min` cap)%nat →
  slot_views todo pos h sl = Ok (view_of h <$> take todo (drop (s + pos) es)).
Proof.
  intros Hh. induction todo as [|todo IH]; intros pos Hle; cbn [slot_views]; [done|].
  destruct (es !! (s + pos)%nat) as [e|] eqn:He; [|apply lookup_ge_None in He; lia].
  destruct (ho_entry _ _ Hh pos e) as [-> ->]; [lia|done|]. cbn [deref mbind result_bind].
  rewrite IH by lia. cbn [mret result_ret]. rewrite (drop_S _ _ _ He). cbn. by rewrite Nat.add_succ_r.
Qed.

Section Local.
Variables (phantom : Z) (l : InMemHashIndex) (Ll : list (list SlotEntry)).
Hypothesis Hdense : dense phantom l Ll.
Variable std_sort : list HashIndexEntryView → list HashIndexEntryView.
Hypothesis std_sort_perm : ∀ vs, std_sort vs ≡ₚ vs.

Lemma chain_views_works h c ids es cs free : rep l cs (cells_of Ll) free [] phantom → cs !! c = Some ids →
  Ll !! c = Some es → length ids = overflow_of es → ∀ fuel b i,
  infos c ids !! b = Some i → (length ids < b + fuel)%nat →
  chain_views fuel h i l = (l, Ok (view_of h <$> drop (b * cap) es)).
Proof.
  intros Hrep Hids Hes Hlen. pose proof (cells_of_chain _ _ _ Hes) as Hd. pose proof (overflow_of_bounds es) as [Hb1 _].
  induction fuel as [|fuel IH]; intros b i Hb Hf.
  { apply lookup_lt_Some in Hb. rewrite infos_length in Hb. lia. }
  cbn [chain_views]. destruct (dense_slot _ _ _ _ _ _ _ _ _ _ _ Hrep Hids Hd Hb) as (sl & Hr & _ & Hh & Hn & _).
  rewrite st_bind_run, Hr, st_bind_run, Hn, (slot_views_works h es (b * cap) sl Hh _ 0), Nat.add_0_r by lia. cbn [st_lift].
  rewrite st_bind_run, (next_chain _ _ _ _ _ _ Hrep _ _ _ _ Hids Hb).
  destruct (infos c ids !! S b) as [j|] eqn:Hj.
  - rewrite st_bind_run, (IH (S b) j Hj) by lia. rewrite <- fmap_app.
    pose proof (lookup_lt_Some _ _ _ Hj) as Hlt. rewrite infos_length in Hlt. rewrite <- Hlen in Hb1.
    assert (S b * cap ≤ length es)%nat by nia.
    assert (take ((length es - b * cap) `min` cap) (drop (b * cap) es) ++ drop (S b * cap) es = drop (b * cap) es) as ->; [|done].
    rewrite <- (firstn_skipn ((length es - b * cap) `min` cap) (drop (b * cap) es)) at 2. f_equal. rewrite drop_drop. f_equal. lia.
  - apply lookup_ge_None in Hj. rewrite infos_length in Hj. pose proof (lookup_lt_Some _ _ _ Hb) as Hlt. rewrite infos_length in Hlt.
    rewrite <- Hlen in Hb1. assert (b = length ids) as -> by lia. rewrite take_ge; [done|]. rewrite length_drop. lia.
Qed.

Lemma sortEntries_works h c es : Ll !! c = Some es → ∃ es', sortEntries std_sort h l c = Ok (view_of h <$> es') ∧ es' ≡ₚ es.
Proof.
  intros Hes. destruct Hdense as (cs & free & Hrep & Hall). destruct (dense_lookup _ _ _ _ Hall Hes) as (ids & Hids & Hlen).
  pose proof (rep_chain_length _ _ _ _ _ _ _ _ Hrep Hids). unfold sortEntries.
  rewrite (chain_views_works h c ids es cs free Hrep Hids Hes Hlen (chain_fuel l) 0) by (done || (unfold chain_fuel; lia)).
  cbn [mbind result_bind mret result_ret snd]. rewrite drop_0.
  destruct (Permutation_map_inv (view_of h) es (std_sort_perm (view_of h <$> es))) as (es' & E & Hperm).
  exists es'. split; [f_equal; exact E|by symmetry].
Qed.

Lemma sort_page_works h : ∀ n s, (s + n ≤ length Ll)%nat → ∃ ps,
  mapM (λ i, v ← sortEntries std_sort h l i; mret (v, false)) (seq s n) = Ok ((λ p : list SlotEntry * bool, (view_of h <$> p.1, p.2)) <$> ps) ∧
  Forall (λ p, p.2 = false) ps ∧ concat ps.*1 ≡ₚ concat (take n (drop s Ll)).
Proof.
  induction n as [|n IH]; intros s Hn; [by exists []|]. destruct (lookup_lt_is_Some_2 Ll s) as [es Hes]; [lia|].
  destruct (sortEntries_works h s es Hes) as (es' & Hsort & Hperm). destruct (IH (S s)) as (ps & Hrun & Hall & Hperm'); [lia|].
  exists ((es', false) :: ps). cbn [seq mapM]. rewrite Hsort. cbn [mbind result_bind mret result_ret]. rewrite Hrun.
  split_and!; [done|by constructor|]. rewrite (drop_S _ _ _ Hes). cbn. by rewrite Hperm, Hperm'.
Qed.

Lemma merge_pages_works : ∀ fuel s d L, disk_state d L →
  Z.of_nat (length (concat L) + length (concat (drop s Ll))) ≤ UINT64_MAX → (length Ll - s ≤ fuel)%nat →
  ends (merge_pages grows std_sort fuel s l d) (λ d' _, ∃ L', disk_state d' L' ∧ concat L' ≡ₚ concat (drop s Ll) ++ concat L ∧
    length L' = length L).
Proof.
  destruct (dense_bound _ _ _ Hdense) as [Hp _].
  assert (2 ≤ Z.to_nat slotsPerPage)%nat as Hspp.
  { pose proof page_size. enough (2 ≤ slotsPerPage) by lia. unfold slotsPerPage, SLOT_CAPACITY_BYTES. apply Z.div_le_lower_bound; lia. }
  induction fuel as [|fuel IH]; intros s d L Hd Hmax Hf; cbn [merge_pages]; rewrite Hp.
  - rewrite decide_False by lia. exists L. by rewrite drop_ge by lia.
  - case_decide as Hlt; [|exists L; by rewrite drop_ge by lia].
    rewrite st_bind_run. cbn [st_get]. set (k := (Z.to_nat slotsPerPage `min` (length Ll - s))%nat).
    destruct (sort_page_works (indexHeader d) k s) as (ps & -> & Hall & Hperm); [lia|]. rewrite st_bind_run. cbn [st_lift].
    assert (concat (drop s Ll) = concat (take k (drop s Ll)) ++ concat (drop (s + Z.to_nat slotsPerPage) Ll)) as Ecat.
    { rewrite <- concat_app. f_equal. rewrite <- (firstn_skipn k (drop s Ll)) at 1. f_equal. rewrite drop_drop.
      destruct (decide (k = Z.to_nat slotsPerPage)) as [->|]; [done|]. rewrite !drop_ge by lia. done. }
    assert (total ps = length (concat (take k (drop s Ll)))) as Et by (unfold total; by rewrite Hperm).
    rewrite Ecat, length_app in Hmax.
    assert (length (concat ((λ p : list SlotEntry * bool, (view_of (indexHeader d) <$> p.1, p.2)) <$> ps).*1) = total ps) as ->.
    { unfold total. clear. induction ps as [|p ps IH]; [done|]. cbn in *. by rewrite !length_app, length_fmap, IH. }
    eapply ends_bind.
    { apply (merge_passes_works (indexHeader d) _ ps d L (length (concat (drop (s + Z.to_nat slotsPerPage) Ll)))).
      - eapply Forall_impl; [exact Hall|]. by intros p ->.
      - right. lia.
      - split; [done..|lia]. }
    intros d1 _ (L1 & [[Hd1 _ Hmax1] Hperm1 Hlen1]).
    eapply ends_mono; [apply (IH (s + Z.to_nat slotsPerPage)%nat d1 L1 Hd1); [lia|lia]|].
    intros d2 _ (L2 & Hd2 & Hperm2 & Hlen2). exists L2. split_and!; [done| |congruence].
    rewrite Hperm2, Hperm1, Hperm, Ecat. rewrite !app_assoc. f_equiv. apply Permutation_app_comm.
Qed.

Lemma mergeBulkInserts_works numElements d L : disk_ok d L → fits (indexEntries (indexHeader l)) d = true →
  (Z.of_nat (length (pSlots d)) < disk_required_slots (indexHeader d) (indexEntries (indexHeader l)) → numElements = length (oSlots d)) →
  Z.of_nat (length (concat L) + length (concat Ll)) ≤ UINT64_MAX →
  ends (mergeBulkInserts grows std_sort numElements l d) (λ d' _, ∃ L', disk_state d' L' ∧ concat L' ≡ₚ concat Ll ++ concat L).
Proof.
  intros Hd Hfits Hnum Hmax. destruct (dense_bound _ _ _ Hdense) as [Hp _]. unfold mergeBulkInserts.
  eapply ends_bind; [by apply (disk_reserve_works _ _ _ _ Hd)|]. intros d1 _ (L1 & Hd1 & Hperm1 & _).
  eapply ends_mono; [apply (merge_pages_works _ 0 d1 L1 Hd1)|].
  - rewrite drop_0, Hperm1. done.
  - lia.
  - intros d2 _ (L2 & Hd2 & Hperm2 & _). exists L2. split; [done|]. by rewrite Hperm2, drop_0, Hperm1.
Qed.
End Local.
End Facts.
