(* ===== verification/HashIndexTheorems.v ===== *)
(** * The hash index is a collection of entries

    Every operation of an index with its local storage, and of the 256 indexes together,
    implements one on two collections of entries, those on disk and the local ones; a
    checkpoint moves the local ones to the disk, and a lookup cannot tell the difference. *)

From stdpp Require Import functions.
From S2P Require Import Prelude.
From S2P Require Import Transaction.
From S2P Require Import HashSlot.
From S2P Require Import InMemHashIndex.
From S2P Require Import InMemHashIndexFacts.
From S2P Require Import InMemHashIndexOps.
From S2P Require Import InMemHashIndexEntries.
From S2P Require Import InMemHashIndexSplit.
From S2P Require Import InMemHashIndexTheorems.
From S2P Require Import HashIndex.
From S2P Require Import HashIndexFacts.

Section Index.
Context `{HashKeyLaws}.
#[local] Abbreviation cap := getSlotCapacity.

Variable grows : SlotType → nat → nat → bool.
Hypothesis grows_bound : ∀ ty size n, grows ty size n = true → Z.of_nat (size + n) ≤ MAX_SLOTS.
Variable std_sort : list HashIndexEntryView → list HashIndexEntryView.
Hypothesis std_sort_perm : ∀ vs, std_sort vs ≡ₚ vs.

#[local] Abbreviation ends := (outcome grows).

(** ** Lookups on disk *)
Lemma matched_works isVisible k (cell : nat → option SlotEntry) sl : holds sl cell → ∀ todo pos, (pos + todo = cap)%nat →
  (∃ p e, findMatchedEntryInSlot isVisible todo pos sl k (fingerprint_of k) = Ok (Some p) ∧ (p < cap)%nat ∧
     cell p = Some e ∧ matches isVisible k e = true) ∨
  (findMatchedEntryInSlot isVisible todo pos sl k (fingerprint_of k) = Ok None ∧
     ∀ p e, (pos ≤ p < cap)%nat → cell p = Some e → matches isVisible k e = false).
Proof.
  intros Hh. induction todo as [|todo IH]; intros pos Hpos; cbn [findMatchedEntryInSlot].
  - right. split; [done|]. lia.
  - rewrite (ho_valid _ _ Hh pos). case_bool_decide as Hv.
    + destruct Hv as [Hlt [e He]]. destruct (ho_entry _ _ Hh pos e Hlt He) as [-> ->]. cbn [deref mbind result_bind].
      destruct (matches isVisible k e) eqn:Em.
      * left. exists pos, e. unfold matches in Em. apply andb_true_iff in Em as [Ek Ev].
        pose proof Ek as ->%bool_decide_eq_true. split_and!; [|done..|].
        -- by rewrite Ev, !bool_decide_eq_true_2.
        -- unfold matches. by rewrite Ev, bool_decide_eq_true_2.
      * assert (bool_decide (fingerprint_of (key e) = fingerprint_of k) && bool_decide (k = key e) && isVisible (value e) = false) as ->.
        { rewrite <- andb_assoc. unfold matches in Em. rewrite Em. apply andb_false_r. }
        destruct (IH (S pos)) as [(p & e' & ? & ? & ? & ?)|[-> Hno]]; [lia|left; by eauto 10|right].
        split; [done|]. intros p e' Hp Hl. destruct (decide (p = pos)) as [->|]; [congruence|].
        apply (Hno p e'); [lia|done].
    + destruct (IH (S pos)) as [(p & e' & ? & ? & ? & ?)|[-> Hno]]; [lia|left; by eauto 10|right].
      split; [done|]. intros p e' Hp Hl. destruct (decide (p = pos)) as [->|]; [|by apply (Hno p e'); [lia|]].
      destruct Hv. split; [lia|by eexists].
Qed.

(** What a lookup finds among entries. *)
Definition find_result (isVisible : Z → bool) (k : Key) (es : list SlotEntry) (r : option Z) : Prop :=
  match r with
  | Some v => ∃ e, e ∈ es ∧ matches isVisible k e = true ∧ value e = v
  | None => ∀ e, e ∈ es → matches isVisible k e = false
  end.

Lemma find_result_perm isVisible k es es' r : es ≡ₚ es' → find_result isVisible k es r → find_result isVisible k es' r.
Proof.
  intros E. destruct r as [v|]; cbn.
  - intros (e & He & Hm). exists e. by rewrite <- E.
  - intros Hno e He. apply Hno. by rewrite E.
Qed.

Lemma find_persistent_works isVisible k d cs cells c ids : rep d cs cells [] [] 0 → cs !! c = Some ids → ∀ fuel b i,
  infos c ids !! b = Some i → (length ids < b + fuel)%nat →
  ∃ r, find_persistent isVisible fuel i k (fingerprint_of k) d = (d, Ok r) ∧
    match r with
    | Some v => ∃ p e, cells c p = Some e ∧ matches isVisible k e = true ∧ value e = v
    | None => ∀ p e, (b * cap ≤ p)%nat → cells c p = Some e → matches isVisible k e = false
    end.
Proof.
  intros Hrep Hc. induction fuel as [|fuel IH]; intros b i Hb Hf.
  { apply lookup_lt_Some in Hb. rewrite infos_length in Hb. lia. }
  cbn [find_persistent]. destruct (read_chain _ _ _ _ _ _ Hrep _ _ _ _ Hc Hb) as (sl & Hr & _ & Hh).
  rewrite st_bind_run, Hr, st_bind_run.
  destruct (matched_works isVisible k _ sl Hh cap 0 eq_refl) as [(p & e & -> & Hp & He & Hm)|[-> Hno]]; cbn [st_lift].
  - destruct (ho_entry _ _ Hh p e Hp He) as [-> _]. exists (Some (value e)). split; [done|]. by exists (b * cap + p)%nat, e.
  - assert (∀ p e, (b * cap ≤ p < S b * cap)%nat → cells c p = Some e → matches isVisible k e = false) as Hblock.
    { intros p e Hp He. apply (Hno (p - b * cap)%nat); [lia|]. by replace (b * cap + (p - b * cap))%nat with p by lia. }
    rewrite st_bind_run, (next_chain _ _ _ _ _ _ Hrep _ _ _ _ Hc Hb). destruct (infos c ids !! S b) as [j|] eqn:Hj.
    + destruct (IH (S b) j Hj) as (r & -> & Hres); [lia|]. exists r. split; [done|]. destruct r as [v|]; [done|].
      intros p e Hp He. destruct (decide (p < S b * cap)%nat); [by apply (Hblock p)|]. apply (Hres p); [lia|done].
    + exists None. split; [done|]. intros p e Hp He. apply (Hblock p); [|done]. split; [done|].
      apply lookup_ge_None in Hj. rewrite infos_length in Hj. apply lookup_lt_Some in Hb. rewrite infos_length in Hb.
      apply Nat.nle_gt. intros Hge. rewrite (ch_end _ _ _ _ (rp_chain _ _ _ _ _ _ Hrep c ids Hc)) in He; [done|]. nia.
Qed.

(** ** An index *)
Definition at_rest (ix : HashIndex) : Prop :=
  current (pArray ix) = committed (pArray ix) ∧ current (oArray ix) = committed (oArray ix) ∧
  indexHeaderForWriteTrx ix = indexHeaderForReadTrx ix.

Lemma view_at_rest trxType ix : at_rest ix → view trxType ix = view CHECKPOINT ix.
Proof. intros (E1 & E2 & E3). unfold view, seen. repeat case_decide; congruence. Qed.

(** The local storage with the entries [Lc], after [n] operations. *)
Definition local_ok (n : Z) (l : InMemHashIndex) (Lc : list SlotEntry) : Prop :=
  ∃ x L, 0 ≤ x ≤ n * 2 ^ 28 ∧ wf x l L (1024 * n) ∧ concat L ≡ₚ Lc.

Definition MAX_OPS : Z := 2 ^ 33.

Record local_state (n : Z) (ix : HashIndex) (Lc : list SlotEntry) : Prop := {
  ls_local : local_ok n (localInsertions ix) Lc;
  ls_deletions : localDeletions ix = [];
}.

(** The slots on disk with the entries [P]. *)
Record disk_part (ix : HashIndex) (P : list SlotEntry) : Prop := {
  dp_rest : at_rest ix;
  dp_disk : ∃ L, disk_ok (view CHECKPOINT ix) L ∧ concat L ≡ₚ P;
}.

Record index_ok (n : Z) (ix : HashIndex) (P Lc : list SlotEntry) : Prop := {
  io_disk : disk_part ix P;
  io_local : local_state n ix Lc;
  io_size : Z.of_nat (length P + length Lc) ≤ 1024 * n;
  io_ops : 0 ≤ n ≤ MAX_OPS;
}.

Lemma local_ok_mono n n' l Lc : local_ok n l Lc → n ≤ n' → local_ok n' l Lc.
Proof. intros (x & L & Hx & Hwf & Hp) Hn. exists x, L. split_and!; [lia|lia| |done]. eapply wf_mono; [done|lia]. Qed.

Lemma index_ok_mono n n' ix P Lc : index_ok n ix P Lc → n ≤ n' ≤ MAX_OPS → index_ok n' ix P Lc.
Proof. intros [H1 [H3 H4] H5 H6] Hn. split; [done| |lia|lia]. split; [|done]. eapply local_ok_mono; [done|lia]. Qed.

Lemma persistent_works trxType isVisible k ix P : disk_part ix P →
  ∃ r, lookupInPersistentIndex trxType isVisible k ix = (ix, Ok r) ∧ find_result isVisible k P r.
Proof.
  intros [Hrest (L & [(cs & cells & Hhold) Hn Hmasks Hplaced] & Hperm)]. unfold lookupInPersistentIndex.
  rewrite (view_at_rest trxType ix Hrest). set (d := view CHECKPOINT ix) in *. case_decide as Hzero.
  { assert (concat L = []) as Hnil by (apply length_zero_iff_nil; lia). exists None. split; [done|]. intros e He.
    rewrite <- Hperm, Hnil in He. by apply not_elem_of_nil in He. }
  assert (concat L ≠ []) as Hne by (intros E; rewrite E in Hn; done).
  destruct (Hplaced Hne) as [_ Hlevel Hentry]. pose proof (primary_range _ _ Hlevel (hash k)) as Hr.
  unfold primarySlot. set (p := getPrimarySlotIdForHash (indexHeader d) (hash k)) in *.
  destruct (lookup_lt_is_Some_2 L (Z.to_nat p)) as [es Hes]; [lia|].
  destruct (holding_chain _ _ _ _ _ _ Hhold Hes) as (ids & Hids & Ees). pose proof (hl_rep _ _ _ _ Hhold) as Hrep.
  pose proof (rep_chain_length _ _ _ _ _ _ _ _ Hrep Hids).
  destruct (find_persistent_works isVisible k d cs cells _ ids Hrep Hids (chain_fuel d) 0 (mkSlotInfo p PRIMARY)) as (r & Hrun & Hres).
  { rewrite infos_0. by rewrite Z2Nat.id by lia. }
  { unfold chain_fuel. lia. }
  rewrite Hrun. exists r. split; [done|]. apply (find_result_perm _ _ _ _ _ Hperm). destruct r as [v|]; cbn.
  - destruct Hres as (q & e & He & Hm & Hv). exists e. split; [|done]. apply list_elem_of_In, in_concat. exists es.
    split; [apply list_elem_of_In; by eapply list_elem_of_lookup_2|]. apply list_elem_of_In. rewrite Ees. apply elem_of_upto.
    exists q. split; [|done]. apply Nat.nle_gt. intros Hge.
    rewrite (ch_end _ _ _ _ (rp_chain _ _ _ _ _ _ Hrep _ _ Hids)) in He; [done|]. done.
  - intros e He. unfold matches. destruct (decide (k = key e)) as [E|Hne']; [|by rewrite bool_decide_eq_false_2].
    apply list_elem_of_In, in_concat in He as (es' & Hes' & He). apply list_elem_of_In, list_elem_of_lookup in Hes' as [c' Hc'].
    apply list_elem_of_In in He. pose proof (Hentry c' es' e Hc' He) as Ec. rewrite <- E in Ec. fold p in Ec.
    assert (c' = Z.to_nat p) as -> by lia. assert (es' = es) as -> by congruence. rewrite Ees in He.
    apply elem_of_upto in He as (q & Hq & He). apply (Hres q); [lia|done].
Qed.
(** ** The local storage *)
Definition with_local (l : InMemHashIndex) (ix : HashIndex) : HashIndex :=
  mkHashIndex (pArray ix) (oArray ix) (indexHeaderForReadTrx ix) (indexHeaderForWriteTrx ix) (localDeletions ix) l.

Lemma with_local_same ix : with_local (localInsertions ix) ix = ix.
Proof. by destruct ix. Qed.

Lemma disk_part_local l ix P : disk_part ix P → disk_part (with_local l ix) P.
Proof. intros [H1 H2]. by split. Qed.

Lemma on_local_ends {A} (m : stM InMemHashIndex A) ix Q : post grows (m (localInsertions ix)) Q →
  ends (on_local m ix) (λ ix' a, ∃ l, ix' = with_local l ix ∧ Q l a).
Proof.
  unfold on_local. destruct (m (localInsertions ix)) as [l [a|e|]]; cbn; [by exists l| |done].
  intros (-> & ty & n & Hg & _). split; [done|]. eauto.
Qed.

Lemma index_ok_local n n' ix P Lc Lc' l : index_ok n ix P Lc → local_ok n' l Lc' → n ≤ n' ≤ MAX_OPS →
  Z.of_nat (length P + length Lc') ≤ 1024 * n' → index_ok n' (with_local l ix) P Lc'.
Proof. intros [H1 [H2 H3] H4 H5] Hl Hn Hs. split; [by apply disk_part_local|by split|done|lia]. Qed.

Lemma ops_bound n : n ≤ MAX_OPS → 1024 * n + 1024 ≤ UINT64_MAX.
Proof. unfold MAX_OPS, UINT64_MAX. lia. Qed.

Lemma local_lookup_works isVisible k n ix Lc : local_state n ix Lc → ∃ r, find_result isVisible k Lc r ∧
  local_lookup isVisible k ix = (ix, Ok (match r with Some v => KEY_FOUND v | None => KEY_NOT_EXIST end)).
Proof.
  intros [(x & L & Hx & Hwf & Hperm) Hd]. unfold local_lookup. rewrite st_bind_run. cbn [st_get].
  rewrite Hd, decide_False by apply not_elem_of_nil. destruct (lookup_wf _ _ _ _ k isVisible Hwf) as (r & Hrun & Hr).
  exists r. split; [by apply (find_result_perm _ _ _ _ _ Hperm)|]. rewrite st_bind_run. unfold on_local. rewrite Hrun.
  cbn. f_equal. by destruct ix.
Qed.

(** ** Operations of an index *)
Lemma lookupInternal_works trxType isVisible k n ix P Lc : index_ok n ix P Lc →
  ∃ r, lookupInternal trxType isVisible k ix = (ix, Ok r) ∧ find_result isVisible k (P ++ Lc) r.
Proof.
  intros Hix. destruct (local_lookup_works isVisible k n ix Lc (io_local _ _ _ _ Hix)) as (r & Hr & Hrun).
  unfold lookupInternal. rewrite st_bind_run, Hrun. destruct r as [v|].
  - exists (Some v). split; [done|]. destruct Hr as (e & He & Hm). exists e. split; [apply elem_of_app; by right|done].
  - destruct (persistent_works trxType isVisible k ix P (io_disk _ _ _ _ Hix)) as (r & -> & Hr').
    exists r. split; [done|]. destruct r as [v|]; cbn.
    + destruct Hr' as (e & He & Hm). exists e. split; [apply elem_of_app; by left|done].
    + intros e [He|He]%elem_of_app; auto.
Qed.

(** An entry goes in unless there is a visible one with its key. *)
Definition insert_result (isVisible : Z → bool) (k : Key) (v : Z) (P Lc : list SlotEntry) (added : bool) (Lc' : list SlotEntry) : Prop :=
  if added then (∀ e, e ∈ P ++ Lc → matches isVisible k e = false) ∧ Lc' ≡ₚ mkSlotEntry k v :: Lc
  else Lc' ≡ₚ Lc ∧ ∃ e, e ∈ P ++ Lc ∧ matches isVisible k e = true.

Lemma local_append_works isVisible k v n l Lc : local_ok n l Lc → n < MAX_OPS →
  post grows (append grows isVisible k v l) (λ l' added, ∃ Lc', local_ok (n + 1) l' Lc' ∧ append_result isVisible k v Lc added Lc').
Proof.
  intros (x & L & Hx & Hwf & Hperm) Hn. pose proof (ops_bound n ltac:(lia)).
  eapply post_mono; [apply (append_wf grows grows_bound x l L _ k v isVisible Hwf); lia|].
  intros l' added (L' & Hwf' & Hres & _). exists (concat L'). split; [|by apply append_result_perm with (concat L)].
  exists x, L'. split_and!; [lia|lia| |done]. eapply wf_mono; [done|lia].
Qed.

Lemma append_result_length isVisible k v es added es' : append_result isVisible k v es added es' → (length es' ≤ S (length es))%nat.
Proof. unfold append_result. destruct added; [intros [_ ->]|intros [-> _]]; cbn; lia. Qed.

Lemma insertInternal_works trxType isVisible k v n ix P Lc : index_ok n ix P Lc → n < MAX_OPS →
  ends (insertInternal grows trxType isVisible k v ix) (λ ix' added, ∃ Lc', index_ok (n + 1) ix' P Lc' ∧
    insert_result isVisible k v P Lc added Lc').
Proof.
  intros Hix Hn. pose proof (index_ok_mono n (n + 1) ix P Lc Hix ltac:(lia)) as Hix'.
  destruct (local_lookup_works isVisible k n ix Lc (io_local _ _ _ _ Hix)) as (r & Hr & Hrun).
  unfold insertInternal. rewrite st_bind_run, Hrun. destruct r as [v'|].
  { exists Lc. split; [done|]. split; [done|]. destruct Hr as (e & He & Hm & _). exists e. split; [apply elem_of_app; by right|done]. }
  destruct (persistent_works trxType isVisible k ix P (io_disk _ _ _ _ Hix)) as (r & Hrun' & Hr').
  rewrite st_bind_run, Hrun'. destruct r as [v'|].
  { exists Lc. split; [done|]. split; [done|]. destruct Hr' as (e & He & Hm & _). exists e. split; [apply elem_of_app; by left|done]. }
  unfold local_insert. rewrite st_bind_run. cbn [st_modify].
  assert (set_localDeletions (filter (λ k', k' ≠ k) (localDeletions ix)) ix = ix) as ->.
  { destruct Hix as [_ [_ Hd] _ _]. unfold set_localDeletions. rewrite Hd. destruct ix. cbn in *. by rewrite Hd. }
  pose proof Hix as [_ [Hl _] Hs Ho].
  eapply ends_mono; [apply on_local_ends, (local_append_works isVisible k v n _ Lc Hl Hn)|].
  intros ix1 added (l & -> & Lc' & Hl' & Hres). exists Lc'. pose proof (append_result_length _ _ _ _ _ _ Hres). split.
  - eapply index_ok_local; [done..|lia|lia].
  - destruct added; [|destruct Hres as [_ (e & He & Hm)]; by rewrite (Hr e He) in Hm].
    destruct Hres as [_ Hres]. split; [|done]. intros e [He|He]%elem_of_app; [by apply Hr'|by apply Hr].
Qed.

Lemma discardLocal_works k n ix P Lc : index_ok n ix P Lc → ∃ ix' Lc' deleted, discardLocal k ix = (ix', Ok deleted) ∧
  index_ok n ix' P Lc' ∧
  if deleted : bool then ∃ e, key e = k ∧ Lc ≡ₚ e :: Lc' else Lc' ≡ₚ Lc ∧ ∀ e, e ∈ Lc → key e ≠ k.
Proof.
  intros Hix. pose proof Hix as [_ [(x & L & Hx & Hwf & Hperm) _] Hs Ho].
  destruct (deleteKey_wf _ _ _ _ k Hwf) as (l & L' & deleted & Hrun & Hwf' & Hres).
  exists (with_local l ix), (concat L'), deleted. unfold discardLocal, on_local. rewrite Hrun. split; [done|].
  assert (local_ok n l (concat L')) as Hl by by exists x, L'. split.
  - eapply index_ok_local; [done..|lia|]. destruct deleted.
    + destruct Hres as (e & _ & Hp). rewrite Hperm in Hp. rewrite Hp in Hs. cbn in Hs. lia.
    + destruct Hres as [-> _]. by rewrite Hperm.
  - destruct deleted.
    + destruct Hres as (e & Hk & Hp). exists e. split; [done|]. by rewrite <- Hperm.
    + destruct Hres as [Hp Hno]. split; [by rewrite Hp|]. intros e He. apply Hno. by rewrite Hperm.
Qed.

(** *** Appending buffers *)

(** The contract of a buffered append (hash_index.h:422-424): entries go in one after the
    other until one is refused; the result is the number of those that went in, and so the
    index of the one that did not. *)
Inductive append_contract (isVisible : Z → bool) (P : list SlotEntry) :
    list SlotEntry → list SlotEntry → nat → list SlotEntry → Prop :=
| contract_end Lc Lc' : Lc' ≡ₚ Lc → append_contract isVisible P [] Lc 0 Lc'
| contract_stop e buffer Lc Lc' : insert_result isVisible (key e) (value e) P Lc false Lc' →
    append_contract isVisible P (e :: buffer) Lc 0 Lc'
| contract_next e buffer Lc Lc1 n Lc' : insert_result isVisible (key e) (value e) P Lc true Lc1 →
    append_contract isVisible P buffer Lc1 n Lc' → append_contract isVisible P (e :: buffer) Lc (S n) Lc'.

(** An entry that is visible in the local storage and not on disk, with more behind it: the
    code does not stop there when there are entries on disk (see the findings). *)
Fixpoint passes_over (isVisible : Z → bool) (P Lc buffer : list SlotEntry) : Prop :=
  match buffer with
  | [] => False
  | e :: buffer =>
      (∀ e', e' ∈ P → matches isVisible (key e) e' = false) ∧
      ((buffer ≠ [] ∧ ∃ e', e' ∈ Lc ∧ matches isVisible (key e) e' = true) ∨ passes_over isVisible P (e :: Lc) buffer)
  end.

(** The same, asked of an index; [seen] has gone in before. *)
Fixpoint would_pass_over (trxType : TransactionType) (isVisible : Z → bool) (seen buffer : list SlotEntry)
    (ix : HashIndex) : bool :=
  match buffer with
  | [] => false
  | e :: buffer =>
      match (lookupInPersistentIndex trxType isVisible (key e) ix).2 with
      | Ok None =>
          (match buffer with [] => false | _ => true end &&
           (existsb (matches isVisible (key e)) seen ||
            match (local_lookup isVisible (key e) ix).2 with Ok (KEY_FOUND _) => true | _ => false end)) ||
          would_pass_over trxType isVisible (e :: seen) buffer ix
      | _ => false
      end
  end.

Lemma would_pass_over_works trxType isVisible n ix P Lc : disk_part ix P → local_state n ix Lc → ∀ buffer seen,
  would_pass_over trxType isVisible seen buffer ix = true ↔ passes_over isVisible P (seen ++ Lc) buffer.
Proof.
  intros Hdisk Hlocal. induction buffer as [|e buffer IH]; intros seen; [done|]. cbn [would_pass_over passes_over].
  destruct (persistent_works trxType isVisible (key e) ix P Hdisk) as (r & -> & Hr). cbn [snd]. destruct r as [v|].
  { split; [done|]. intros [Hno _]. destruct Hr as (e' & He & Hm & _). by rewrite (Hno e' He) in Hm. }
  destruct (local_lookup_works isVisible (key e) n ix Lc Hlocal) as (r & Hr' & ->). cbn [snd].
  rewrite orb_true_iff, andb_true_iff, orb_true_iff, (IH (e :: seen)).
  assert (match buffer with [] => false | _ => true end = true ↔ buffer ≠ []) as -> by (by destruct buffer).
  assert (existsb (matches isVisible (key e)) seen = true ∨
          match r with Some v => KEY_FOUND v | None => KEY_NOT_EXIST end = KEY_FOUND (default 0 r) ↔
          ∃ e', e' ∈ seen ++ Lc ∧ matches isVisible (key e) e' = true) as Hex.
  { rewrite existsb_exists. setoid_rewrite elem_of_app. setoid_rewrite list_elem_of_In. destruct r as [v|].
    - split; [|by right]. intros _. destruct Hr' as (e' & He & Hm & _). exists e'. split; [by right; apply list_elem_of_In|done].
    - split; [intros [(e' & He & Hm)|[=]]; exists e'; auto|]. intros (e' & [He|He] & Hm); [left; by exists e'|].
      by rewrite (Hr' e') in Hm by (by apply list_elem_of_In). }
  rewrite <- Hex. destruct r as [v|]; cbn; intuition congruence.
Qed.

(** What the code does with entries on disk: it goes on to the first key that is visible
    there, and passes over entries that the local storage has. *)
Inductive each_result (isVisible : Z → bool) (P : list SlotEntry) :
    list SlotEntry → nat → nat → list SlotEntry → nat → list SlotEntry → Prop :=
| each_end i n Lc Lc' : Lc' ≡ₚ Lc → each_result isVisible P [] i n Lc n Lc'
| each_stop e buffer i n Lc Lc' : Lc' ≡ₚ Lc → (∃ e', e' ∈ P ∧ matches isVisible (key e) e' = true) →
    each_result isVisible P (e :: buffer) i n Lc i Lc'
| each_next e buffer i n Lc added Lc1 r Lc' : (∀ e', e' ∈ P → matches isVisible (key e) e' = false) →
    append_result isVisible (key e) (value e) Lc added Lc1 →
    each_result isVisible P buffer (S i) (n + Nat.b2n added) Lc1 r Lc' →
    each_result isVisible P (e :: buffer) i n Lc r Lc'.

Definition append_index_result (isVisible : Z → bool) (P buffer Lc : list SlotEntry) (r : nat) (Lc' : list SlotEntry) : Prop :=
  if decide (P = []) then buffer_result isVisible buffer Lc r Lc' else each_result isVisible P buffer 0 0 Lc r Lc'.

Lemma append_each_works trxType isVisible P x : ∀ buffer ix L w i m Lc, disk_part ix P → wf x (localInsertions ix) L w →
  concat L ≡ₚ Lc → w + Z.of_nat (length buffer) ≤ UINT64_MAX →
  ends (append_each grows trxType isVisible buffer i m ix) (λ ix' r, ∃ l L' Lc', ix' = with_local l ix ∧
    wf x l L' (w + Z.of_nat (length buffer)) ∧ concat L' ≡ₚ Lc' ∧ each_result isVisible P buffer i m Lc r Lc' ∧
    (length Lc' ≤ length Lc + length buffer)%nat).
Proof.
  induction buffer as [|e buffer IH]; intros ix L w i m Lc Hdisk Hwf Hperm Hw; cbn [append_each].
  { exists (localInsertions ix), L, Lc. split_and!; [by rewrite with_local_same|by rewrite Z.add_0_r|done|by constructor|lia]. }
  destruct (persistent_works trxType isVisible (key e) ix P Hdisk) as (r & Hrun & Hr). rewrite st_bind_run, Hrun.
  destruct r as [v|].
  - exists (localInsertions ix), L, Lc. split_and!; [by rewrite with_local_same|eapply wf_mono; [done|lia]|done| |lia].
    constructor; [done|]. destruct Hr as (e' & He & Hm & _). by exists e'.
  - cbn [length] in Hw |- *. eapply ends_bind.
    { apply on_local_ends, (append_wf grows grows_bound x _ L w (key e) (value e) isVisible Hwf). lia. }
    intros ix1 added (l1 & -> & L1 & Hwf1 & Hres & _).
    apply (append_result_perm _ _ _ _ _ _ _ Hperm) in Hres. pose proof (append_result_length _ _ _ _ _ _ Hres).
    eapply ends_mono; [apply (IH (with_local l1 ix) L1 (w + 1) (S i) (m + Nat.b2n added)%nat (concat L1))|].
    + by apply disk_part_local.
    + done.
    + done.
    + lia.
    + intros ix2 r (l & L' & Lc' & -> & Hwf' & Hperm' & Hres' & Hlen). exists l, L', Lc'. split_and!; [done| |done| |lia].
      * eapply wf_mono; [exact Hwf'|lia].
      * by eapply each_next.
Qed.

Lemma buffer_result_perm isVisible buffer es es1 r es' : es ≡ₚ es1 → buffer_result isVisible buffer es r es' →
  buffer_result isVisible buffer es1 r es'.
Proof.
  intros E Hres. destruct Hres as [es es' He|e buffer es es' Ha|e buffer es es2 n es' Ha Hrest].
  - constructor. by rewrite He.
  - constructor. by apply append_result_perm with es.
  - econstructor; [by apply append_result_perm with es|done].
Qed.

Lemma each_result_perm isVisible P buffer i m es es1 r es' : es ≡ₚ es1 → each_result isVisible P buffer i m es r es' →
  each_result isVisible P buffer i m es1 r es'.
Proof.
  intros E Hres. destruct Hres as [i m Lc Lc' He|e buffer i m Lc Lc' He Hm|e buffer i m Lc added Lc1 r Lc' Hno Ha Hr].
  - constructor. by rewrite He.
  - constructor; [by rewrite He|done].
  - eapply each_next; [done|by apply append_result_perm with Lc|done].
Qed.

Lemma passes_over_perm isVisible P buffer : ∀ Lc Lc1, Lc ≡ₚ Lc1 → passes_over isVisible P Lc buffer → passes_over isVisible P Lc1 buffer.
Proof.
  induction buffer as [|e buffer IH]; intros Lc Lc1 E; [done|]. cbn. intros [Hno [[Hne (e' & He & Hm)]|Hrest]]; (split; [done|]).
  - left. split; [done|]. exists e'. by rewrite <- E.
  - right. apply (IH (e :: Lc)); [by rewrite E|done].
Qed.

Lemma insert_result_perm isVisible k v P Lc Lc1 added Lc' : Lc ≡ₚ Lc1 → insert_result isVisible k v P Lc added Lc' →
  insert_result isVisible k v P Lc1 added Lc'.
Proof.
  intros E. unfold insert_result. destruct added.
  - intros [Hno Hp]. split; [|by rewrite <- E]. intros e. rewrite <- E. apply Hno.
  - intros [Hp (e & He & Hm)]. split; [by rewrite <- E|]. exists e. by rewrite <- E.
Qed.

Lemma contract_perm isVisible P buffer Lc Lc1 r Lc' : Lc ≡ₚ Lc1 → append_contract isVisible P buffer Lc r Lc' →
  append_contract isVisible P buffer Lc1 r Lc'.
Proof.
  intros E Hc. destruct Hc as [Lc Lc' E'|e buffer Lc Lc' Hi|e buffer Lc Lc2 n Lc' Hi Hc].
  - constructor. by rewrite E'.
  - constructor. by eapply insert_result_perm.
  - econstructor; [by eapply insert_result_perm|done].
Qed.

(** Without such an entry the code keeps the contract. *)
Lemma each_contract isVisible P buffer i n Lc r Lc' : each_result isVisible P buffer i n Lc r Lc' → n = i →
  ¬ passes_over isVisible P Lc buffer → ∃ m, r = (i + m)%nat ∧ append_contract isVisible P buffer Lc m Lc'.
Proof.
  induction 1 as [i n Lc Lc' E|e buffer i n Lc Lc' E (e' & He & Hm)|e buffer i n Lc added Lc1 r Lc' Hno Ha Hr IH];
    intros ->; cbn [passes_over]; intros Hp.
  - exists 0%nat. split; [lia|by constructor].
  - exists 0%nat. split; [lia|]. constructor. split; [done|]. exists e'. by rewrite elem_of_app; auto.
  - destruct added; cbn [Nat.b2n] in *.
    + destruct Ha as [Hl E]. destruct IH as (m & -> & Hc); [lia| |].
      { intros Hrest. apply Hp. split; [done|]. right. eapply passes_over_perm; [|exact Hrest].
        rewrite E. by destruct e. }
      exists (S m). split; [lia|]. apply contract_next with Lc1; [|done]. split; [|done].
      intros e' [He|He]%elem_of_app; auto.
    + destruct Ha as [E Hex]. assert (buffer = []) as ->.
      { destruct buffer; [done|]. destruct Hp. split; [done|]. left. by split. }
      inversion Hr; subst. exists 0%nat. split; [lia|]. constructor. split; [by etransitivity|].
      destruct Hex as (e' & He & Hm). exists e'. split; [|done]. rewrite elem_of_app. by right.
Qed.

Lemma buffer_contract isVisible buffer es r es' : buffer_result isVisible buffer es r es' →
  append_contract isVisible [] buffer es r es'.
Proof.
  induction 1 as [es es' E|e buffer es es' Ha|e buffer es es1 n es' Ha Hr IH].
  - by constructor.
  - by apply contract_stop.
  - by apply contract_next with es1.
Qed.

Lemma append_index_contract isVisible P buffer Lc r Lc' : append_index_result isVisible P buffer Lc r Lc' →
  (P ≠ [] → ¬ passes_over isVisible P Lc buffer) → append_contract isVisible P buffer Lc r Lc'.
Proof.
  unfold append_index_result. case_decide as HP; intros Hres Hp.
  - subst P. by apply buffer_contract.
  - apply each_contract in Hres as (m & -> & Hc); auto.
Qed.

Lemma buffer_result_length isVisible buffer es r es' : buffer_result isVisible buffer es r es' →
  (length es' ≤ length es + length buffer)%nat.
Proof.
  induction 1 as [es es' E|e buffer es es' Ha|e buffer es es1 n es' Ha _ IH]; cbn.
  - rewrite E. lia.
  - apply append_result_length in Ha. lia.
  - apply append_result_length in Ha. lia.
Qed.

Lemma disk_part_entries ix P : disk_part ix P → indexEntries (indexHeaderForWriteTrx ix) = Z.of_nat (length P).
Proof. intros [_ (L & Hd & Hp)]. rewrite <- Hp. exact (do_entries _ _ Hd). Qed.

Lemma appendNoLock_works trxType isVisible buffer off n ix P Lc : index_ok n ix P Lc → n < MAX_OPS →
  (off ≤ length buffer ≤ 1024)%nat →
  ends (appendNoLock grows trxType isVisible buffer off ix) (λ ix' r, ∃ Lc', index_ok (n + 1) ix' P Lc' ∧
    append_index_result isVisible P (drop off buffer) Lc r Lc').
Proof.
  intros Hix Hn Hoff. pose proof Hix as [Hdisk [(x & L & Hx & Hwf & Hperm) Hd] Hs Ho].
  pose proof (ops_bound n ltac:(lia)) as Hmax. pose proof (wf_entries _ _ _ _ Hwf) as Hb.
  unfold appendNoLock, append_index_result. rewrite st_bind_run. cbn [st_get]. rewrite (disk_part_entries _ _ Hdisk).
  destruct (decide (P = [])) as [->|HP].
  2:{ rewrite decide_True by (destruct P; [done|cbn; lia]). rewrite wrap_id by (unfold in_u, UINT64_MAX in *; lia).
    eapply ends_bind; [apply on_local_ends, (reserve_wf grows grows_bound x _ _ _ _ Hwf); lia|].
    intros ix1 _ (l1 & -> & L1 & Hwf1 & Hperm1 & _).
    eapply ends_mono; [apply (append_each_works trxType isVisible P x (drop off buffer) (with_local l1 ix) L1 (1024 * n) 0 0 Lc)|].
    + by apply disk_part_local.
    + done.
    + by rewrite Hperm1.
    + rewrite length_drop. lia.
    + intros ix2 r (l & L' & Lc' & -> & Hwf' & Hperm' & Hres & Hlen). exists Lc'. split; [|done].
      rewrite length_drop in Hlen, Hwf'. change (with_local l (with_local l1 ix)) with (with_local l ix).
      eapply index_ok_local; [done| |lia|lia]. exists x, L'. split_and!; [lia|lia| |done]. eapply wf_mono; [done|lia]. }
  rewrite decide_False by done. eapply ends_mono; [apply on_local_ends, (append_buffer_wf grows grows_bound x _ _ _ buffer off isVisible Hwf Hoff); lia|].
  intros ix2 r (l & -> & L' & Hwf' & Hres). exists (concat L'). apply (buffer_result_perm _ _ _ _ _ _ Hperm) in Hres.
  pose proof (buffer_result_length _ _ _ _ _ Hres) as Hlen. rewrite length_drop in Hlen. split; [|done].
  eapply index_ok_local; [done| |lia|cbn in *; lia]. exists x, L'. split_and!; [lia|lia| |done]. eapply wf_mono; [done|lia].
Qed.

(** ** Checkpoints *)

(** Nothing to do, or room for the local entries without splitting a slot twice. *)
Definition index_fits (ix : HashIndex) : bool :=
  negb (hasUpdates ix) || fits (indexEntries (indexHeader (localInsertions ix))) (view CHECKPOINT ix).

(** Between the two steps of a checkpoint. *)
Record written (n : Z) (ix : HashIndex) (P Lc : list SlotEntry) : Prop := {
  wr_local : local_state n ix Lc;
  wr_size : Z.of_nat (length P + length Lc) ≤ 1024 * n;
  wr_ops : 0 ≤ n ≤ MAX_OPS;
  wr_disk : if hasUpdates ix then ∃ L, disk_state (view CHECKPOINT ix) L ∧ concat L ≡ₚ P ++ Lc else disk_part ix P;
}.

Lemma on_disk_ends {A} (m : stM InMemHashIndex A) ix Q : ends (m (view CHECKPOINT ix)) (λ d a, numFreeSlots d = 0 ∧ Q d a) →
  ends (on_disk m ix) (λ ix' a, Q (view CHECKPOINT ix') a ∧ localInsertions ix' = localInsertions ix ∧
    localDeletions ix' = localDeletions ix ∧ length (committed (oArray ix')) = length (committed (oArray ix))).
Proof.
  unfold on_disk. destruct (m (view CHECKPOINT ix)) as [d [a|e|]]; cbn; [|done..]. intros [Hf HQ]. split_and!; [|done..].
  unfold view. cbn. destruct d. cbn in *. by rewrite <- Hf.
Qed.

Lemma stored_free d L : stored d L → numFreeSlots d = 0.
Proof. intros (cs & cells & Hhold). destruct (rp_count _ _ _ _ _ _ (hl_rep _ _ _ _ Hhold)) as [-> _]. done. Qed.

Lemma disk_state_ok d L : disk_state d L → disk_ok d L.
Proof. intros [H1 H2 H3]. split; [done..| |done]. pose proof (pl_level _ _ _ H2) as []. by split. Qed.

(** The slots that are needed are as many once they are there. *)
Lemma fits_again h newEntries d L : 0 ≤ currentLevel h → disk_state d L →
  Z.of_nat (length L) = disk_required_slots h newEntries → indexEntries (indexHeader d) = indexEntries h →
  disk_required_slots (indexHeader d) newEntries = Z.of_nat (length (pSlots d)) ∧ fits newEntries d = true.
Proof.
  intros Hl [(cs & cells & Hhold) [_ Hlevel _] _] Hlen He. destruct (holding_bound _ _ _ _ Hhold) as [Hp _].
  pose proof (lo_total _ _ Hlevel) as Ht. pose proof (lo_next _ _ Hlevel) as Hn. pose proof (lo_level _ _ Hlevel) as Hl'.
  assert (disk_required_slots (indexHeader d) newEntries = Z.of_nat (length (pSlots d))) as E.
  { rewrite Hp, Hlen. unfold disk_required_slots in *. rewrite He in *. rewrite Hlen in Ht.
    set (a := required_slots _) in *. assert (2 ^ currentLevel h ≤ 2 ^ currentLevel (indexHeader d)); [|lia].
    apply Z.pow_le_mono_r; [lia|]. apply Z.lt_succ_r, (Z.pow_lt_mono_r_iff 2); [lia|lia|]. rewrite Z.pow_succ_r by lia. lia. }
  split; [done|]. unfold fits. rewrite E. rewrite (bool_decide_eq_true_2 (_ ≤ _)) by lia.
  rewrite (bool_decide_eq_true_2 (_ ≤ 2 * _)) by lia. apply orb_true_r.
Qed.

Lemma checkpoint_works n ix P Lc : index_ok n ix P Lc → index_fits ix = true →
  ends (checkpoint grows std_sort ix) (λ ix' _, written n ix' P Lc).
Proof.
  intros [[Hrest (L & Hd & HL)] Hlocal Hs Ho] Hfits. unfold checkpoint, index_fits in *. rewrite st_bind_run. cbn [st_get].
  destruct (hasUpdates ix) eqn:Hup; cbn [negb orb] in Hfits.
  2:{ split; [done..|]. rewrite Hup. split; [done|by exists L]. }
  pose proof Hlocal as [(x & Ll & Hx & Hwf & HLl) Hdel]. set (l := localInsertions ix) in *. set (d := view CHECKPOINT ix) in *.
  pose proof (wf_entries _ _ _ _ Hwf) as Hb. pose proof (ops_bound n ltac:(lia)) as Hmax.
  assert (getNetInserts ix = indexEntries (indexHeader l)) as Enet.
  { unfold getNetInserts. rewrite Hdel. cbn [length]. rewrite Z.sub_0_r. apply swrap_id; [lia|]. unfold in_s, UINT64_MAX, MAX_OPS in *. lia. }
  assert (indexEntries (indexHeader l) ≠ 0) as Hne.
  { unfold hasUpdates in Hup. fold l in Hup. rewrite Hdel in Hup. intros E. rewrite E in Hup.
    by rewrite !bool_decide_eq_true_2 in Hup. }
  rewrite Enet, decide_True by lia.
  destruct Hrest as (Ep & Eo & Eh). pose proof (proj1 (do_masks _ _ Hd)) as Hlv.
  eapply ends_bind.
  { apply on_disk_ends with (Q := λ d' _, ∃ L', disk_state d' L' ∧ concat L' ≡ₚ concat L ∧
      Z.of_nat (length L') = disk_required_slots (indexHeader d) (indexEntries (indexHeader l))).
    eapply ends_mono; [apply (disk_reserve_works grows grows_bound _ _ L _ Hd Hfits); intros _; symmetry; exact (f_equal length Eo)|].
    intros d' _ (L' & Hd' & ? & ?). split; [|by exists L']. by apply (stored_free _ L'), Hd'. }
  intros ix1 _ ((L1 & Hd1 & HL1 & Hlen1) & El & Edel & _).
  destruct (fits_again (indexHeader d) (indexEntries (indexHeader l)) _ L1 ltac:(lia) Hd1 Hlen1) as [Ereq Hfits1].
  { by rewrite (ds_entries _ _ Hd1), (do_entries _ _ Hd), HL1. }
  eapply ends_bind.
  { apply on_disk_ends with (Q := λ d' _, ∃ L', disk_state d' L' ∧ concat L' ≡ₚ concat Ll ++ concat L1).
    eapply ends_mono; [apply (mergeBulkInserts_works grows grows_bound x l Ll (wf_dense _ _ _ _ Hwf) std_sort std_sort_perm _ _ L1)|].
    - by apply disk_state_ok.
    - exact Hfits1.
    - rewrite Ereq. lia.
    - rewrite HL1, HL, HLl. lia.
    - intros d' _ (L' & Hd' & ?). split; [|by exists L']. by apply (stored_free _ L'), Hd'. }
  intros ix2 _ ((L2 & Hd2 & HL2) & El2 & Edel2 & _). cbn [outcome mret stM_ret].
  assert (localInsertions ix2 = l ∧ localDeletions ix2 = []) as [E1 E2] by (split; [by rewrite El2, El|congruence]).
  split; [|done|lia|].
  - split; [rewrite E1; by exists x, Ll|done].
  - unfold hasUpdates in *. rewrite E1, E2. rewrite Hdel in Hup. fold l in Hup. rewrite Hup.
    exists L2. split; [done|]. by rewrite HL2, HL1, HL, HLl, Permutation_app_comm.
Qed.

Lemma dense_free x l L : dense x l L → x ≤ numFreeSlots l ≤ x + 2 ^ 28.
Proof.
  intros (cs & free & Hrep & _). destruct (rp_count _ _ _ _ _ _ Hrep) as [-> _].
  pose proof (rp_bound _ _ _ _ _ _ Hrep) as [_ Ho]. unfold MAX_SLOTS in Ho.
  enough (length free ≤ length (oSlots l))%nat by lia.
  replace (length (oSlots l)) with (length (seqZ 0 (Z.of_nat (length (oSlots l))))) by (rewrite length_seqZ; lia).
  apply submseteq_length, NoDup_submseteq.
  - pose proof (rp_nodup _ _ _ _ _ _ Hrep) as (_ & _ & (? & _)%NoDup_app)%NoDup_app. done.
  - intros i Hi. apply elem_of_seqZ. rewrite Z.add_0_l. apply (rp_range _ _ _ _ _ _ Hrep). rewrite !elem_of_app. by right; left.
Qed.

Lemma clear_works n l Lc : local_ok n l Lc → n < MAX_OPS → 0 ≤ n →
  post grows (clear grows l) (λ l' _, local_ok (n + 1) l' []).
Proof.
  intros (x & L & Hx & Hwf & _) Hn Hn0. pose proof (dense_free _ _ _ (wf_dense _ _ _ _ Hwf)) as Hfree.
  unfold MAX_OPS in *. eapply post_mono; [apply (emptied_works grows grows_bound (numFreeSlots l)); lia|].
  intros l' _ (L' & Hwf' & Hnil). exists (numFreeSlots l), L'. split_and!; [lia|lia| |by rewrite Hnil]. eapply wf_mono; [done|lia].
Qed.

Lemma checkpointInMemory_works n ix P Lc : written n ix P Lc → n < MAX_OPS →
  ends (checkpointInMemory grows ix) (λ ix' c, index_ok (n + 1) (copy_header ix') (P ++ Lc) [] ∧ (c = false → copy_header ix' = ix')).
Proof.
  intros [Hlocal Hs Ho Hw] Hn. unfold checkpointInMemory. rewrite st_bind_run. cbn [st_get].
  pose proof Hlocal as [(x & Ll & Hx & Hwf & HLl) Hdel].
  destruct (hasUpdates ix) eqn:Hup.
  - destruct Hw as (L & Hd & HL). rewrite st_bind_run. cbn [st_modify]. rewrite st_bind_run. unfold local_clear.
    eapply ends_bind; [eapply ends_bind|].
    + apply on_local_ends. cbn. eapply (clear_works n _ Lc); [by exists x, Ll|done|lia].
    + intros ix1 _ (l & -> & Hl). cbn [outcome st_modify mret stM_ret].
      instantiate (1 := λ ix' _, ∃ l, local_ok (n + 1) l [] ∧ ix' = set_localDeletions [] (with_local l (arrays_checkpointed ix))).
      by exists l.
    + intros ix2 _ (l & Hl & ->). cbn [outcome mret stM_ret]. split; [|done]. split; [|by split| |lia].
      * split; [done|]. exists L. split; [|done]. apply disk_state_ok in Hd. exact Hd.
      * rewrite length_app. cbn. lia.
  - cbn [outcome mret stM_ret].
    assert (Lc = []) as ->.
    { apply Permutation_nil_r. rewrite <- HLl. rewrite (wf_empty _ _ _ _ Hwf); [done|]. unfold hasUpdates in Hup. rewrite Hdel in Hup.
      rewrite (bool_decide_eq_true_2 (_ = [])), andb_true_r in Hup by done. apply negb_false_iff, bool_decide_eq_true in Hup. done. }
    destruct Hw as [Hrest Hdisk]. pose proof Hrest as (Ep & Eo & Eh). rewrite app_nil_r in *.
    assert (copy_header ix = ix) as -> by (destruct ix; unfold copy_header; cbn in *; congruence).
    split; [|done]. split; [by split| |cbn in *; lia|lia]. split; [eapply local_ok_mono; [by exists x, Ll|lia]|done].
Qed.

(** ** The index of a primary key *)
Definition at_pos (i : nat) (e : SlotEntry) : Prop := getHashIndexPosition (key e) = Z.of_nat i.
#[local] Instance at_pos_dec i e : Decision (at_pos i e).
Proof. unfold at_pos. apply _. Defined.

Definition of_pos (i : nat) (es : list SlotEntry) : list SlotEntry := filter (at_pos i) es.
Definition others (i : nat) (es : list SlotEntry) : list SlotEntry := filter (λ e, ¬ at_pos i e) es.

Record pk_ok (n : Z) (pk : list HashIndex) (P Lc : list SlotEntry) : Prop := {
  pk_length : length pk = NUM_HASH_INDEXES;
  pk_index i ix : pk !! i = Some ix → index_ok n ix (of_pos i P) (of_pos i Lc);
}.

Lemma position_range k : 0 ≤ getHashIndexPosition k < Z.of_nat NUM_HASH_INDEXES.
Proof. unfold getHashIndexPosition, hashIndexPosition. change 255 with (Z.ones 8). rewrite Z.land_ones by lia. apply Z.mod_pos_bound. done. Qed.

Lemma pos_split i es : es ≡ₚ of_pos i es ++ others i es.
Proof. symmetry. apply filter_app_complement. Qed.

Lemma of_pos_all i es : (∀ e, e ∈ es → at_pos i e) → of_pos i es = es.
Proof.
  induction es as [|e es IH]; intros Hall; [done|]. unfold of_pos in *. rewrite filter_cons_True by (apply Hall; left).
  f_equal. apply IH. intros e' He'. apply Hall. by right.
Qed.

Lemma of_pos_none i es : (∀ e, e ∈ es → ¬ at_pos i e) → of_pos i es = [].
Proof.
  induction es as [|e es IH]; intros Hall; [done|]. unfold of_pos in *. rewrite filter_cons_False by (apply Hall; left).
  apply IH. intros e' He'. apply Hall. by right.
Qed.

Lemma others_out i e es : e ∈ others i es → ¬ at_pos i e.
Proof. by intros [? _]%list_elem_of_filter. Qed.

Lemma at_pos_unique i j e : at_pos i e → at_pos j e → i = j.
Proof. unfold at_pos. lia. Qed.

Lemma of_pos_replace i j Li es : (∀ e, e ∈ Li → at_pos i e) → of_pos j (Li ++ others i es) = if decide (j = i) then Li else of_pos j es.
Proof.
  intros Hall. unfold of_pos at 1. rewrite filter_app. change (of_pos j Li ++ of_pos j (others i es) = if decide (j = i) then Li else of_pos j es).
  case_decide as Hj.
  - subst j. rewrite (of_pos_all i Li Hall), of_pos_none; [apply app_nil_r|]. intros e He. by apply (others_out i e es).
  - rewrite (of_pos_none j Li) by (intros e He Hj'; apply Hj; symmetry; eapply at_pos_unique; [by apply Hall|done]).
    unfold of_pos, others. rewrite list_filter_filter. apply list_filter_iff. intros e. split; [by intros [? _]|].
    intros Hj'. split; [done|]. intros Hi. apply Hj. by eapply at_pos_unique.
Qed.

(** An operation of one of the indexes. *)
Lemma typed_works {A} (m : stM HashIndex A) i n pk P Lc (R : A → list SlotEntry → Prop) : pk_ok n pk P Lc →
  (i < NUM_HASH_INDEXES)%nat → n < MAX_OPS →
  (∀ ix, index_ok n ix (of_pos i P) (of_pos i Lc) → ends (m ix) (λ ix' a, ∃ Li, index_ok (n + 1) ix' (of_pos i P) Li ∧
     (∀ e, e ∈ Li → at_pos i e) ∧ R a Li)) →
  ends (getTypedHashIndexByPos i m pk) (λ pk' a, ∃ Li, pk_ok (n + 1) pk' P (Li ++ others i Lc) ∧ R a Li).
Proof.
  intros [Hlen Hpk] Hi Hn Hm. unfold getTypedHashIndexByPos. destruct (lookup_lt_is_Some_2 pk i) as [ix Hix]; [lia|].
  rewrite Hix. specialize (Hm ix (Hpk i ix Hix)). destruct (m ix) as [ix' [a|e|]]; cbn in *; [|done..].
  destruct Hm as (Li & Hix' & Hat & HR). exists Li. split; [|done]. split; [by rewrite length_insert|].
  intros j ixj Hj. rewrite of_pos_replace by done. case_decide as Hji.
  - subst j. rewrite list_lookup_insert_eq in Hj by lia. by injection Hj as <-.
  - rewrite list_lookup_insert_ne in Hj by done. eapply index_ok_mono; [by apply Hpk|lia].
Qed.

(** Entries at other positions do not match. *)
Lemma not_matching isVisible k i e : getHashIndexPosition k = Z.of_nat i → ¬ at_pos i e → matches isVisible k e = false.
Proof. intros Hk He. unfold matches. rewrite bool_decide_eq_false_2; [done|]. by intros ->. Qed.

Lemma matching_whole isVisible k i es : getHashIndexPosition k = Z.of_nat i →
  (∀ e, e ∈ of_pos i es → matches isVisible k e = false) → ∀ e, e ∈ es → matches isVisible k e = false.
Proof.
  intros Hk Hno e He. destruct (decide (at_pos i e)) as [Hat|Hat]; [|by eapply not_matching].
  apply Hno. by apply list_elem_of_filter.
Qed.

Lemma of_pos_in i e es : e ∈ of_pos i es → e ∈ es.
Proof. by intros [_ ?]%list_elem_of_filter. Qed.

Lemma find_result_whole isVisible k i P Lc r : getHashIndexPosition k = Z.of_nat i →
  find_result isVisible k (of_pos i P ++ of_pos i Lc) r → find_result isVisible k (P ++ Lc) r.
Proof.
  intros Hk. unfold of_pos. rewrite <- filter_app. destruct r as [v|]; cbn.
  - intros (e & He%of_pos_in & Hm). by exists e.
  - by apply (matching_whole _ _ i).
Qed.

Lemma append_result_whole isVisible k v i Lc added Li : getHashIndexPosition k = Z.of_nat i →
  append_result isVisible k v (of_pos i Lc) added Li → append_result isVisible k v Lc added (Li ++ others i Lc).
Proof.
  intros Hk. unfold append_result. destruct added.
  - intros [Hno ->]. split; [by apply (matching_whole _ _ i)|]. cbn. by rewrite <- pos_split.
  - intros [-> (e & He%of_pos_in & Hm)]. rewrite <- pos_split. split; [done|by exists e].
Qed.

Lemma insert_result_whole isVisible k v i P Lc added Li : getHashIndexPosition k = Z.of_nat i →
  insert_result isVisible k v (of_pos i P) (of_pos i Lc) added Li → insert_result isVisible k v P Lc added (Li ++ others i Lc).
Proof.
  intros Hk. unfold insert_result, of_pos. rewrite <- filter_app. destruct added.
  - intros [Hno ->]. split; [by apply (matching_whole _ _ i)|]. cbn. by rewrite <- (pos_split i Lc).
  - intros [-> (e & He%of_pos_in & Hm)]. rewrite <- (pos_split i Lc). split; [done|by exists e].
Qed.

(** More entries at other positions. *)
Section Rest.
Variables (i : nat) (isVisible : Z → bool) (P rest : list SlotEntry).
Hypothesis Hrest : ∀ e, e ∈ rest → ¬ at_pos i e.

Lemma insert_result_more k v Li added Li' : getHashIndexPosition k = Z.of_nat i →
  insert_result isVisible k v (of_pos i P) Li added Li' → insert_result isVisible k v P (Li ++ rest) added (Li' ++ rest).
Proof.
  intros Hk. unfold insert_result. destruct added.
  - intros [Hno ->]. split; [|done].
    assert (∀ e, e ∈ P → matches isVisible k e = false) as HP.
    { apply (matching_whole _ _ i); [done|]. intros e He. apply Hno, elem_of_app. by left. }
    intros e [He|[He|He]%elem_of_app]%elem_of_app; [by apply HP|apply Hno, elem_of_app; by right|].
    eapply not_matching; [exact Hk|auto].
  - intros [-> (e & [He%of_pos_in|He]%elem_of_app & Hm)]; (split; [done|]); exists e; rewrite !elem_of_app; auto.
Qed.

Lemma contract_more buffer Li r Li' : Forall (at_pos i) buffer → append_contract isVisible (of_pos i P) buffer Li r Li' →
  append_contract isVisible P buffer (Li ++ rest) r (Li' ++ rest).
Proof.
  intros Hat Hres. induction Hres as [Lc Lc' E|e buffer Lc Lc' Hi|e buffer Lc Lc1 n Lc' Hi Hr IH].
  - constructor. by rewrite E.
  - apply Forall_cons in Hat as [He _]. constructor. by apply insert_result_more.
  - apply Forall_cons in Hat as [He Hat]. econstructor; [by apply insert_result_more|by apply IH].
Qed.
End Rest.

(** The entries that go in are at their position. *)
Lemma contract_at isVisible P buffer i Li r Li' : Forall (at_pos i) buffer → (∀ e, e ∈ Li → at_pos i e) →
  append_contract isVisible P buffer Li r Li' → ∀ e, e ∈ Li' → at_pos i e.
Proof.
  intros Hat Hes Hres. induction Hres as [Lc Lc' E|e buffer Lc Lc' [E _]|e buffer Lc Lc1 n Lc' [_ E] Hr IH].
  - intros e. rewrite E. apply Hes.
  - intros e'. rewrite E. apply Hes.
  - apply Forall_cons in Hat as [He Hat]. apply IH; [done|]. intros e'. rewrite E, elem_of_cons. intros [->|?]; auto.
Qed.

Lemma contract_whole isVisible P buffer i Lc r Li : Forall (at_pos i) buffer →
  append_contract isVisible (of_pos i P) buffer (of_pos i Lc) r Li →
  append_contract isVisible P buffer Lc r (Li ++ others i Lc).
Proof.
  intros Hat Hc. eapply contract_perm; [symmetry; apply pos_split|].
  apply (contract_more i); [|done|done]. intros e. apply others_out.
Qed.

(** *** All indexes *)
Lemma each_index_works (m : stM HashIndex bool) (Q R : nat → HashIndex → Prop) (unchanged : HashIndex → Prop) :
  (∀ i ix, Q i ix → ends (m ix) (λ ix' c, R i ix' ∧ (c = false → unchanged ix'))) → ∀ todo i changed pk,
  length pk = (i + todo)%nat →
  (∀ j ix, pk !! j = Some ix → if decide (j < i)%nat then R j ix ∧ (changed = false → unchanged ix) else Q j ix) →
  ends (each_index m todo i changed pk) (λ pk' changed, length pk' = length pk ∧
    ∀ j ix, pk' !! j = Some ix → R j ix ∧ (changed = false → unchanged ix)).
Proof.
  intros Hm. induction todo as [|todo IH]; intros i changed pk Hlen Hpk; cbn [each_index].
  - cbn. split; [done|]. intros j ix Hj. specialize (Hpk j ix Hj). rewrite decide_True in Hpk; [done|].
    apply lookup_lt_Some in Hj. lia.
  - destruct (lookup_lt_is_Some_2 pk i) as [ix Hix]; [lia|]. pose proof (Hpk i ix Hix) as HQ. rewrite decide_False in HQ by lia.
    eapply ends_bind with (R := λ pk' c, ∃ ix', pk' = <[i := ix']> pk ∧ R i ix' ∧ (c = false → unchanged ix')).
    { unfold getTypedHashIndexByPos. rewrite Hix. specialize (Hm i ix HQ). destruct (m ix) as [ix' [c|e|]]; cbn in *; [|done..].
      by exists ix'. }
    intros pk1 c (ix' & -> & HR & Hun). eapply ends_mono; [apply (IH (S i) (c || changed) (<[i := ix']> pk))|].
    + rewrite length_insert. lia.
    + intros j ixj Hj. destruct (decide (j = i)) as [->|Hne].
      * rewrite list_lookup_insert_eq in Hj by lia. injection Hj as <-. rewrite decide_True by lia. split; [done|].
        intros [? _]%orb_false_iff. auto.
      * rewrite list_lookup_insert_ne in Hj by done. specialize (Hpk j ixj Hj).
        destruct (decide (j < i)%nat); [rewrite decide_True by lia|by rewrite decide_False by lia].
        destruct Hpk as [? Hu]. split; [done|]. intros [_ ?]%orb_false_iff. auto.
    + intros pk2 ch [Hl Hall]. split; [by rewrite Hl, length_insert|done].
Qed.

Definition pk_fits (pk : list HashIndex) : bool := forallb index_fits pk.

Lemma pk_checkpoint_works n pk P Lc : pk_ok n pk P Lc → pk_fits pk = true → n < MAX_OPS →
  ends (pk_checkpoint grows std_sort pk) (λ pk' _, pk_ok (n + 1) pk' (P ++ Lc) []).
Proof.
  intros [Hlen Hpk] Hfits Hn. unfold pk_checkpoint.
  eapply ends_bind.
  { apply (each_index_works (checkpoint grows std_sort) (λ i ix, index_ok n ix (of_pos i P) (of_pos i Lc) ∧ index_fits ix = true)
      (λ i ix, written n ix (of_pos i P) (of_pos i Lc)) (λ _, True)); [|done|].
    - intros i ix [Hix Hf]. eapply ends_mono; [by apply checkpoint_works|]. done.
    - intros j ix Hj. rewrite decide_False by lia. split; [by apply Hpk|]. unfold pk_fits in Hfits. rewrite forallb_forall in Hfits.
      apply Hfits, list_elem_of_In. by eapply list_elem_of_lookup_2. }
  intros pk1 ch [Hlen1 Hpk1]. unfold pk_checkpointInMemory. eapply ends_bind.
  { apply (each_index_works (checkpointInMemory grows) (λ i ix, written n ix (of_pos i P) (of_pos i Lc))
      (λ i ix, index_ok (n + 1) (copy_header ix) (of_pos i P ++ of_pos i Lc) []) (λ ix, copy_header ix = ix)); [|by rewrite Hlen1|].
    - intros i ix Hw. by apply checkpointInMemory_works.
    - intros j ix Hj. rewrite decide_False by lia. by apply Hpk1. }
  assert (∀ j, of_pos j P ++ of_pos j Lc = of_pos j (P ++ Lc)) as Eapp by (intros j; symmetry; apply filter_app).
  intros pk2 [|] [Hlen2 Hpk2]; cbn [outcome st_modify mret stM_ret].
  - split; [by rewrite length_fmap, Hlen2, Hlen1|]. intros i ix Hi. apply list_lookup_fmap_Some in Hi as (ix' & -> & Hi).
    rewrite <- Eapp. by apply Hpk2.
  - split; [by rewrite Hlen2, Hlen1|]. intros i ix Hi. destruct (Hpk2 i ix Hi) as [Hix Hc]. rewrite <- Eapp, <- (Hc eq_refl). exact Hix.
Qed.

(** ** Histories *)
Variable trxType : TransactionType.

Inductive pk_op : Type :=
| Insert (k : Key) (v : Z) (isVisible : Z → bool)
| AppendIndex (buffer : list SlotEntry) (bufferOffset indexPos : nat) (isVisible : Z → bool)
| Find (k : Key) (isVisible : Z → bool)
| Discard (k : Key)
| Checkpoint.

Inductive pk_answer : Type :=
| AInserted (added : bool) | AAppended (n : nat) | AFound (v : option Z) | ADiscarded (discarded : bool)
| ACheckpointed | ANotTried.

(** The index of the position has entries on disk and would pass over an entry of the buffer. *)
Definition append_passes_over (pk : list HashIndex) (isVisible : Z → bool) (buffer : list SlotEntry) (off pos : nat) : bool :=
  match pk !! pos with
  | Some ix => bool_decide (0 < indexEntries (indexHeaderForWriteTrx ix)) &&
               would_pass_over trxType isVisible [] (drop off buffer) ix
  | None => false
  end.

(** A checkpoint is only tried when the slots fit, an append when it passes over no entry. *)
Definition run_pk_op (o : pk_op) : stM (list HashIndex) pk_answer :=
  match o with
  | Insert k v isVisible => added ← pk_insert grows trxType isVisible k v; mret (AInserted added)
  | AppendIndex buffer off pos isVisible =>
      pk ← st_get;
      if append_passes_over pk isVisible buffer off pos then mret ANotTried
      else n ← appendWithIndexPosNoLock grows trxType isVisible buffer off pos; mret (AAppended n)
  | Find k isVisible => v ← pk_lookup trxType isVisible k; mret (AFound v)
  | Discard k => discarded ← pk_discardLocal k; mret (ADiscarded discarded)
  | Checkpoint =>
      pk ← st_get;
      if pk_fits pk then _ ← pk_checkpoint grows std_sort; mret ACheckpointed else mret ANotTried
  end.

Fixpoint run_pk (ops : list pk_op) : stM (list HashIndex) (list pk_answer) :=
  match ops with
  | [] => mret []
  | o :: ops => a ← run_pk_op o; l ← run_pk ops; mret (a :: l)
  end.

(** What an operation may do to the entries on disk and the local ones. *)
Definition spec_pk_op (o : pk_op) (P Lc : list SlotEntry) (a : pk_answer) (P' Lc' : list SlotEntry) : Prop :=
  match o, a with
  | Insert k v isVisible, AInserted added => P' = P ∧ insert_result isVisible k v P Lc added Lc'
  | AppendIndex buffer off pos isVisible, AAppended n =>
      P' = P ∧ append_contract isVisible P (drop off buffer) Lc n Lc'
  | AppendIndex buffer off pos isVisible, ANotTried =>
      P' = P ∧ Lc' = Lc ∧ of_pos pos P ≠ [] ∧ passes_over isVisible (of_pos pos P) (of_pos pos Lc) (drop off buffer)
  | Find k isVisible, AFound r => P' = P ∧ Lc' = Lc ∧ find_result isVisible k (P ++ Lc) r
  | Discard k, ADiscarded true => P' = P ∧ ∃ e, key e = k ∧ Lc ≡ₚ e :: Lc'
  | Discard k, ADiscarded false => P' = P ∧ Lc' ≡ₚ Lc ∧ ∀ e, e ∈ Lc → key e ≠ k
  | Checkpoint, ACheckpointed => P' = P ++ Lc ∧ Lc' = []
  | Checkpoint, ANotTried => P' = P ∧ Lc' = Lc
  | _, _ => False
  end.

Inductive spec_pk : list pk_op → list SlotEntry → list SlotEntry → list pk_answer → list SlotEntry → list SlotEntry → Prop :=
| spec_pk_nil P Lc : spec_pk [] P Lc [] P Lc
| spec_pk_cons o ops P Lc a P1 Lc1 l P' Lc' : spec_pk_op o P Lc a P1 Lc1 → spec_pk ops P1 Lc1 l P' Lc' →
    spec_pk (o :: ops) P Lc (a :: l) P' Lc'.

(** Buffers have at most 1024 entries, all for the index they are appended to. *)
Definition pk_op_ok (o : pk_op) : Prop :=
  match o with
  | AppendIndex buffer off pos _ => (off ≤ length buffer ≤ 1024)%nat ∧ (pos < NUM_HASH_INDEXES)%nat ∧ Forall (at_pos pos) buffer
  | _ => True
  end.

Lemma pk_ok_same n pk P Lc : pk_ok n pk P Lc → n < MAX_OPS → pk_ok (n + 1) pk P Lc.
Proof. intros [Hlen Hpk] Hn. split; [done|]. intros i ix Hi. eapply index_ok_mono; [by apply Hpk|lia]. Qed.

Lemma of_pos_at i es : ∀ e, e ∈ of_pos i es → at_pos i e.
Proof. by intros e [? _]%list_elem_of_filter. Qed.

Lemma append_passes_over_works n pk P Lc isVisible buffer off pos : pk_ok n pk P Lc → (pos < NUM_HASH_INDEXES)%nat →
  if append_passes_over pk isVisible buffer off pos
  then of_pos pos P ≠ [] ∧ passes_over isVisible (of_pos pos P) (of_pos pos Lc) (drop off buffer)
  else of_pos pos P ≠ [] → ¬ passes_over isVisible (of_pos pos P) (of_pos pos Lc) (drop off buffer).
Proof.
  intros [Hlen Hpk] Hpos. destruct (lookup_lt_is_Some_2 pk pos) as [ix Hix]; [lia|].
  destruct (Hpk pos ix Hix) as [Hdisk Hlocal _ _]. unfold append_passes_over. rewrite Hix, (disk_part_entries _ _ Hdisk).
  pose proof (would_pass_over_works trxType isVisible n ix _ _ Hdisk Hlocal (drop off buffer) []) as Hw. cbn [app] in Hw.
  destruct (of_pos pos P) as [|e l]; [rewrite bool_decide_false by (cbn; lia); cbn [andb]; congruence|]. rewrite bool_decide_true by (cbn; lia). cbn [andb].
  destruct (would_pass_over _ _ _ _ _); [split; [done|by apply Hw]|]. intros _ Hp%Hw. congruence.
Qed.

Lemma append_kept n pk P Lc isVisible buffer off pos : pk_ok n pk P Lc → n < MAX_OPS →
  (off ≤ length buffer ≤ 1024)%nat → (pos < NUM_HASH_INDEXES)%nat → Forall (at_pos pos) buffer →
  (of_pos pos P ≠ [] → ¬ passes_over isVisible (of_pos pos P) (of_pos pos Lc) (drop off buffer)) →
  ends (appendWithIndexPosNoLock grows trxType isVisible buffer off pos pk) (λ pk' r, ∃ Li, pk_ok (n + 1) pk' P (Li ++ others pos Lc) ∧
    append_contract isVisible (of_pos pos P) (drop off buffer) (of_pos pos Lc) r Li).
Proof.
  intros Hpk Hn Hoff Hpos Hat Hover. unfold appendWithIndexPosNoLock. rewrite st_bind_run, dassert_true.
  2:{ apply forallb_forall. intros e He. apply bool_decide_eq_true_2. rewrite Forall_forall in Hat. by apply Hat, list_elem_of_In. }
  apply (typed_works _ pos n pk P Lc (λ r Li, append_contract isVisible (of_pos pos P) (drop off buffer) (of_pos pos Lc) r Li) Hpk Hpos Hn).
  intros ix Hix. eapply ends_mono; [by apply (appendNoLock_works trxType isVisible buffer off n ix)|].
  intros ix' r (Li & Hix' & Hres%append_index_contract); [|done]. exists Li. split_and!; [done| |done].
  eapply contract_at; [by apply Forall_drop|apply of_pos_at|done].
Qed.

Lemma run_pk_op_works o n pk P Lc : pk_ok n pk P Lc → pk_op_ok o → n < MAX_OPS →
  ends (run_pk_op o pk) (λ pk' a, ∃ P' Lc', pk_ok (n + 1) pk' P' Lc' ∧ spec_pk_op o P Lc a P' Lc').
Proof.
  intros Hpk Hok Hn. destruct o as [k v vis|buffer off pos vis|k vis|k|]; cbn [run_pk_op pk_op_ok] in *.
  1,3,4: pose proof (position_range k) as Hr; set (i := Z.to_nat (getHashIndexPosition k)) in *;
    assert (getHashIndexPosition k = Z.of_nat i) as Hi by lia.
  - eapply ends_bind.
    { apply (typed_works _ i n pk P Lc (λ added Li, insert_result vis k v (of_pos i P) (of_pos i Lc) added Li) Hpk); [lia|done|].
      intros ix Hix. eapply ends_mono; [by apply (insertInternal_works trxType vis k v n ix)|].
      intros ix' added (Li & Hix' & Hres). exists Li. split_and!; [done| |done]. intros e. unfold insert_result in Hres.
      destruct added; [destruct Hres as [_ ->]; intros [->|He]%elem_of_cons; [done|by eapply of_pos_at]|].
      destruct Hres as [-> _]. apply of_pos_at. }
    intros pk' added (Li & Hpk' & Hres). exists P, (Li ++ others i Lc). split; [done|]. split; [done|]. by apply insert_result_whole.
  - eapply ends_bind.
    { apply (typed_works _ i n pk P Lc (λ r Li, Li = of_pos i Lc ∧ find_result vis k (of_pos i P ++ of_pos i Lc) r) Hpk); [lia|done|].
      intros ix Hix. destruct (lookupInternal_works trxType vis k n ix _ _ Hix) as (r & -> & Hres). exists (of_pos i Lc).
      split_and!; [eapply index_ok_mono; [done|lia]|apply of_pos_at|done|done]. }
    intros pk' r (Li & Hpk' & -> & Hres). exists P, Lc. split; [|split_and!; [done|done|by apply find_result_whole with i]].
    destruct Hpk' as [Hlen Hall]. split; [done|]. intros j ix Hj. specialize (Hall j ix Hj). rewrite of_pos_replace in Hall by apply of_pos_at.
    case_decide; [by subst j|done].
  - eapply ends_bind.
    { apply (typed_works _ i n pk P Lc (λ deleted Li, if deleted : bool then ∃ e, key e = k ∧ of_pos i Lc ≡ₚ e :: Li
        else Li ≡ₚ of_pos i Lc ∧ ∀ e, e ∈ of_pos i Lc → key e ≠ k) Hpk); [lia|done|].
      intros ix Hix. destruct (discardLocal_works k n ix _ _ Hix) as (ix' & Li & deleted & -> & Hix' & Hres). exists Li.
      split_and!; [eapply index_ok_mono; [done|lia]| |done]. intros e He. apply (of_pos_at i Lc). destruct deleted.
      - destruct Hres as (e' & _ & ->). by right.
      - destruct Hres as [<- _]. done. }
    intros pk' deleted (Li & Hpk' & Hres). exists P, (Li ++ others i Lc). split; [done|]. destruct deleted; cbn.
    + destruct Hres as (e & Hk & Hp). split; [done|]. exists e. split; [done|]. rewrite (pos_split i Lc) at 1. by rewrite Hp.
    + destruct Hres as [Hp Hno]. split; [done|]. split; [by rewrite Hp, <- pos_split|]. intros e He Hk.
      apply (Hno e); [|done]. apply list_elem_of_filter. split; [|done]. unfold at_pos. by rewrite Hk.
  - destruct Hok as (Hoff & Hpos & Hat). rewrite st_bind_run. cbn [st_get].
    pose proof (append_passes_over_works n pk P Lc vis buffer off pos Hpk Hpos) as Hover.
    destruct (append_passes_over pk vis buffer off pos).
    { exists P, Lc. split; [by apply pk_ok_same|]. destruct Hover as [? ?]. by split_and!. }
    eapply ends_bind; [by apply append_kept|]. intros pk' r (Li & Hpk' & Hres). exists P, (Li ++ others pos Lc).
    split; [done|]. split; [done|]. apply contract_whole; [by apply Forall_drop|done].
  - rewrite st_bind_run. cbn [st_get]. destruct (pk_fits pk) eqn:Hfits.
    + eapply ends_bind; [by apply pk_checkpoint_works|]. intros pk' u Hpk'. by exists (P ++ Lc), [].
    + exists P, Lc. split; [by apply pk_ok_same|done].
Qed.

Lemma run_pk_works : ∀ ops n pk P Lc, pk_ok n pk P Lc → Forall pk_op_ok ops → n + Z.of_nat (length ops) ≤ MAX_OPS →
  ends (run_pk ops pk) (λ _ l, ∃ P' Lc', spec_pk ops P Lc l P' Lc').
Proof.
  induction ops as [|o ops IH]; intros n pk P Lc Hpk Hok Hn; cbn [run_pk].
  - exists P, Lc. constructor.
  - apply Forall_cons in Hok as [Ho Hok]. cbn [length] in Hn.
    eapply ends_bind; [apply (run_pk_op_works o n pk P Lc Hpk Ho); lia|]. intros pk1 a (P1 & Lc1 & Hpk1 & Hres).
    eapply ends_bind; [apply (IH (n + 1) pk1 P1 Lc1 Hpk1 Hok); lia|]. intros pk2 l (P' & Lc' & Hl).
    exists P', Lc'. by econstructor.
Qed.

(** *** A new index *)
Definition run_pk_from (start : result (list HashIndex)) (ops : list pk_op) : list HashIndex * result (list pk_answer) :=
  match start with
  | Ok pk => run_pk ops pk
  | Throw e => ([], Throw e)
  | UB => ([], UB)
  end.

Lemma new_disk_ok : disk_ok (emptied 0) [].
Proof.
  split; [|done|by split_and!|done]. destruct (dense_emptied 0 ltac:(lia)) as (cs & free & Hrep & Hall).
  apply Forall2_nil_inv_r in Hall as ->. exists [], (cells_of []). split; try done. destruct Hrep as [H1 H2 H3 H4 H5 H6 H7 H8 H9].
  destruct free as [|id free]; [by split|]. cbn in H3. specialize (H7 id ltac:(left)). cbn in H7. lia.
Qed.

Lemma newHashIndex_works : match newHashIndex grows with
  | Ok ix => ∀ n, 0 ≤ n ≤ MAX_OPS → index_ok n ix [] []
  | Throw e => e = outOfMemory ∧ ∃ ty size n, grows ty size n = false
  | UB => False
  end.
Proof.
  pose proof (post_ends grows _ _ (emptied_works grows grows_bound 0 ltac:(lia))) as Hpost. unfold newHashIndex.
  change (newInMemHashIndex grows) with (allocateSlots grows slotsPerPage (emptied 0)).
  destruct (allocateSlots grows slotsPerPage (emptied 0)) as [l [u|e|]]; [|done..]. destruct Hpost as (L & Hwf & Hnil).
  intros n Hn. split; [|split; [|done]|cbn; lia|done].
  - split; [done|]. exists []. split; [exact new_disk_ok|done].
  - exists 0, L. split_and!; [lia|lia| |by rewrite Hnil]. eapply wf_mono; [exact Hwf|lia].
Qed.

Lemma new_indexes_works m : match new_indexes grows m with
  | Ok pk => length pk = m ∧ ∀ i ix, pk !! i = Some ix → index_ok 0 ix [] []
  | Throw e => e = outOfMemory ∧ ∃ ty size n, grows ty size n = false
  | UB => False
  end.
Proof.
  pose proof newHashIndex_works as Hnew. induction m as [|m IH]; cbn [new_indexes]; [done|].
  destruct (newHashIndex grows) as [ix|e|]; cbn; [|done..]. destruct (new_indexes grows m) as [pk|e|]; cbn; [|done..].
  destruct IH as [Hlen Hpk]. split; [by rewrite <- Hlen|]. intros [|i] ix' Hi; [injection Hi as <-; by apply Hnew|by apply (Hpk i)].
Qed.
End Index.

(** C4: A new index of a primary key answers every sequence of insertions, buffered appends,
    lookups, rollbacks of insertions and checkpoints like two collections of entries, those
    on disk and those of the local storage: an insertion is refused exactly if a visible
    entry, on disk or local, has the key; a lookup finds a visible entry of either; a
    checkpoint moves the local entries to the disk, across splits of slots and chains of
    overflow slots on disk, and no operation can tell; an append inserts the entries one
    after the other up to the first that is refused, and returns its index.  The only exception is that memory
    or disk space was refused; no assertion fails, no slot is out of range and no pointer
    dangles.  Checkpoints are tried when each index needs at least the slots it has and at
    most twice as many, appends when, with entries on disk, none of the buffer but its last is
    refused by the local storage before one is refused by the disk (see the findings for the
    others: append_goes_on shows what the code does there). *)
Theorem primary_key_index_refines `{HashKeyLaws} grows std_sort trxType ops :
  (∀ ty size n, grows ty size n = true → Z.of_nat (size + n) ≤ MAX_SLOTS) → (∀ vs, std_sort vs ≡ₚ vs) →
  Forall pk_op_ok ops → Z.of_nat (length ops) ≤ MAX_OPS →
  match run_pk_from grows std_sort trxType (newPrimaryKeyIndex grows) ops with
  | (_, Ok answers) => ∃ P Lc, spec_pk ops [] [] answers P Lc
  | (_, Throw e) => e = outOfMemory ∧ ∃ ty size n, grows ty size n = false
  | (_, UB) => False
  end.
Proof.
  intros Hgrows Hsort Hok Hn. pose proof (new_indexes_works grows Hgrows NUM_HASH_INDEXES) as Hnew.
  unfold newPrimaryKeyIndex. destruct (new_indexes grows NUM_HASH_INDEXES) as [pk|e|]; [|done..]. destruct Hnew as [Hlen Hpk].
  apply (run_pk_works grows Hgrows std_sort Hsort trxType ops 0 pk [] []); [by split|done|lia].
Qed.

(** INT64 keys on small pages. *)
#[local] Instance small_key : HashKey := {|
  Key := Z; defaultKey := 0; hash k := murmurhash64 (wrap 64 k); sizeofSlotEntry := 16; LBUG_PAGE_SIZE := 512 |}.
#[local] Instance small_key_laws : HashKeyLaws.
Proof. split; cbn; lia. Qed.

Definition later_slot (v1 v2 : HashIndexEntryView) : Prop := diskSlotId v2 ≤ diskSlotId v1.
#[local] Instance later_slot_dec : RelDecision later_slot.
Proof. unfold RelDecision, later_slot. apply _. Defined.

Lemma primary_key_index_refines_witness :
  let room := λ (_ : SlotType) (size n : nat), Z.of_nat (size + n) <=? 1000 in
  let entries := λ from n, (λ k, mkSlotEntry k (10 * k)) <$> filter (λ k, getHashIndexPosition k = 5) (seqZ from n) in
  let visible := λ v : Z, negb (v =? 70) in
  let ops := [AppendIndex (entries 0 4000) 0 5 visible; Insert 1 11 visible; Checkpoint; Find 1 visible; Insert 1 12 visible;
    AppendIndex (entries 4000 4000) 0 5 visible; Insert 7 70 visible; Checkpoint; Find 7 visible; Insert 7 71 visible;
    AppendIndex (entries 7800 800) 0 5 visible; Discard 7; Insert 2 20 visible; Checkpoint; Find 2 visible;
    AppendIndex (take 1 (entries 9000 1000) ++ entries 9000 1000) 0 5 visible; AppendIndex (entries 9000 1000) 0 5 visible] in
  (run_pk_from room (merge_sort later_slot) WRITE (newPrimaryKeyIndex room) ops).2 = Ok [AAppended 17; AInserted true;
    ACheckpointed; AFound (Some 11); AInserted false; AAppended 13; AInserted true; ACheckpointed; AFound None; AInserted true;
    AAppended 5; ADiscarded true; AInserted true; ACheckpointed; AFound (Some 20);
    ANotTried; AAppended 2] ∧
  match run_pk_from room (merge_sort later_slot) WRITE (newPrimaryKeyIndex room) ops with
  | (_, Ok answers) => ∃ P Lc, spec_pk ops [] [] answers P Lc
  | (_, Throw e) => e = outOfMemory ∧ ∃ ty size n, room ty size n = false
  | (_, UB) => False
  end.
Proof.
  intros room entries visible ops. split; [vm_compute; reflexivity|].
  assert (∀ from n, Forall (at_pos 5) (entries from n)) as Hat.
  { intros from n. apply Forall_forall. intros e (k & -> & [Hk _]%list_elem_of_filter)%list_elem_of_fmap. exact Hk. }
  apply primary_key_index_refines.
  - intros ty size n Hroom%Z.leb_le. unfold MAX_SLOTS. lia.
  - intros vs. apply merge_sort_Permutation.
  - assert (∀ buffer, Forall (at_pos 5) buffer → bool_decide (length buffer ≤ 1024)%nat = true →
      pk_op_ok (AppendIndex buffer 0 5 visible)) as Happend.
    { intros buffer Hb Hlen%bool_decide_eq_true. split; [lia|]. split; [unfold NUM_HASH_INDEXES; lia|exact Hb]. }
    unfold ops. repeat (apply Forall_cons; split); try exact I; try apply Forall_nil; try exact I;
      (apply Happend; [|vm_compute; reflexivity]);
      lazymatch goal with |- Forall _ (_ ++ _) => apply Forall_app_2; [apply Forall_take|] | _ => idtac end; apply Hat.
  - cbn. unfold MAX_OPS. lia.
Defined.

(** With entries on disk an append goes on behind a key of the local storage: of the three
    entries of the buffer the second is refused, but the result is not its index. *)
Example append_goes_on :
  let room := λ (_ : SlotType) (size n : nat), Z.of_nat (size + n) <=? 1000 in
  let entries := λ from n, (λ k, mkSlotEntry k (10 * k)) <$> filter (λ k, getHashIndexPosition k = 5) (seqZ from n) in
  let buffer := take 1 (entries 9000 1000) ++ entries 9000 1000 in
  let append := λ before, (run_pk_from room (merge_sort later_slot) WRITE (newPrimaryKeyIndex room) before).1 in
  let after := λ before, (appendWithIndexPosNoLock room WRITE (λ _, true) buffer 0 5 (append before)).2 in
  length buffer = 3%nat ∧ after [] = Ok 1%nat ∧ after [AppendIndex (entries 0 4000) 0 5 (λ _, true); Checkpoint] = Ok 2%nat.
Proof. vm_compute. split_and!; reflexivity. Qed.
